(* ===== verification/_CoqProject ===== *)
-Q . S2P
Prelude.v
Ctype.v
Calendar.v
DateParse.v
MyBit.v
Bitmap.v
Queues.v
DynArray.v
HashTable.v
HashChains.v
HashSearch.v
HashInsert.v
HashDelete.v
HashUpdate.v
Base64.v
Pack.v
MemRoot.v
Horner.v
IntConv.v
IntPrint.v
IntRead.v
Decimal.v
DecMul.v
DecBin.v
DecRound.v
DecText.v
DecDiv.v
DecBase.v
DecAdd.v
DecSub.v
DecArith.v
DecInt.v
DecProd.v
DecBytes.v
DecStrip.v
DecStore.v
DecLoad.v
DecOrder.v
LikeSpec.v
Like.v
Unicase.v
Utf8.v
Utf8Coll.v
Utf8Case.v
LikeUni.v
HashUtf8.v
Qsort.v
StrSort.v
Wcomp.v
DList.v
Tree.v
TreeRep.v
TreeBalance.v
TreeFixup.v
TreeOrder.v
TreeInsert.v
TreeDelete.v
TreeSearch.v
TreeKey.v
TreeExample.v
ThrLock.v
ThrLockInv.v
ThrLockSafe.v
ThrLockLive.v
ThrLockCheck.v
ThrMulti.v
ThrDeadlock.v
ThrMerge.v
