(* ===== verification/Prelude.v ===== *)
(** * Verification of the MySQL 5.5 (Twitter branch) runtime libraries

    The server is layered.  At the bottom are libraries without a notion of a
    table or a session: mysys (containers, memory, files, threads), strings
    (character sets, conversions, decimals), sql-common (dates and the packets
    shared by client and server) and the headers of include.  On top of them are
    the SQL layer (sql: parser, items, optimizer, executor, replication) and the
    storage engines (storage).  The upper layers keep their sessions, plans and
    caches in the containers of mysys and do their date arithmetic in
    sql-common.  This development models the sequential core of the bottom
    layer: the data structures and algorithms that everything else relies on.

    ** The files and the code

    - [Prelude] (this file): C integers, notations, tactics, hint databases and
      lemmas that the other files share.
    - [Ctype]: the latin1 class table of strings/ctype-latin1.c and the
      predicates my_isspace, my_isdigit and my_ispunct of include/m_ctype.h.
      Used by [DateParse] and [Base64].
    - [Calendar]: the numbers of sql-common/my_time.c and sql/sql_time.cc, on
      the record [MYSQL_TIME]: calc_daynr and get_date_from_daynr, check_date,
      number_to_datetime and the packed forms, check_time_range, calc_week, the
      periods, date_add_interval, calc_time_diff, my_time_compare.
    - [DateParse]: the strings of sql-common/my_time.c: str_to_datetime,
      str_to_time, my_datetime_to_str, my_date_to_str, my_time_to_str.  It calls
      the checks of [Calendar].
    - [MyBit]: include/my_bit.h and mysys/my_bit.c.
    - [Bitmap]: mysys/my_bitmap.c, the record [MY_BITMAP] over a buffer of words
      that is also addressed by bytes; it calls the bit counts of [MyBit].
    - [Queues]: mysys/queues.c, the binary heap [QUEUE].
    - [DynArray]: mysys/array.c, the record [DYNAMIC_ARRAY]; and the classes
      [LinkArray] and [LinkArrayLaws], the part of it that the hash table uses,
      with the instance that DYNAMIC_ARRAY gives.
    - [HashTable]: all functions of mysys/hash.c, on the record [HASH] over any
      [LinkArray].  [HashChains] has the invariant [hash_ok] and the structure
      of chains, [HashSearch], [HashInsert], [HashDelete] and [HashUpdate] the
      proofs of the operations.
    - [Base64]: mysys/base64.c.
    - [Pack]: sql-common/pack.c and the byte order macros of include/my_global.h.
    - [MemRoot]: mysys/my_alloc.c, the record [MEM_ROOT].
    - [IntConv]: strings/int2str.c, longlong2str.c, llstr.c and my_strtoll10.c.
      [Horner] has the values of digit strings, [IntPrint] the proofs about
      printing and [IntRead] those about reading.
    - [Decimal], [DecMul], [DecBin], [DecRound], [DecText] and [DecDiv]:
      strings/decimal.c, the fixed point numbers [decimal_t] in words of nine
      digits: sums, differences and integers in the first file, then products,
      the binary format of columns, rounding, strings and shifts, quotients and
      remainders.  A string is read with my_strtoll10 of [IntConv] for its
      exponent.  [DecBase] gives a number its value, [DecAdd] and [DecSub] have
      the loops over the words, [DecArith] sums, differences and comparison,
      [DecInt] the conversions of integers, [DecProd] products; [DecBytes],
      [DecStrip], [DecStore], [DecLoad] and [DecOrder] the binary format.
    - [Like]: my_wildcmp_8bit and my_like_range_simple of strings/ctype-simple.c
      and my_wildcmp_bin of ctype-bin.c, the functions behind the operator LIKE;
      [LikeSpec] says which strings match a pattern.
    - [Unicase], [Utf8], [Utf8Coll] and [Utf8Case]: strings/ctype-utf8.c: the case
      and weight tables, the codecs of utf8 and utf8mb4, comparison and hashing of
      utf8_general_ci and utf8mb4_general_ci, upper and lower case.  [LikeUni] is my_wildcmp_unicode
      over these, and [HashUtf8] the hash table of [HashTable] with this
      collation.
    - [Qsort]: mysys/mf_qsort.c, quick sort with its own stack; [StrSort]:
      mysys/mf_sort.c, mf_radix.c and ptr_cmp.c, the sort of pointers to strings,
      which calls it.
    - [Wcomp]: wild_compare of mysys/mf_wcomp.c, against the patterns of [LikeSpec].
    - [DList]: mysys/list.c, doubly linked lists in a memory of nodes.
    - [Tree]: mysys/tree.c, the red-black tree [TREE], whose elements are nodes
      of a store and which takes its memory from [MemRoot] or from my_malloc.
      [TreeRep] relates the store and a path of parents to a tree with a hole,
      [TreeBalance] and [TreeFixup] have the balancing after an insertion and
      a deletion, [TreeOrder] the order of the keys and the descent,
      [TreeInsert], [TreeDelete], [TreeSearch] and [TreeKey] the operations, and
      [TreeExample] a tree of integers with which the theorems are applied.
    - [ThrLock]: mysys/thr_lock.c, the four queues of a table lock and the
      requests in them, as a state machine whose threads interleave.
      [ThrLockInv] has the invariant, [ThrLockSafe] the exclusion of
      incompatible locks, [ThrLockLive] the granting of waiting requests,
      [ThrLockCheck] the debug check, [ThrMulti] the locking of several tables
      in the order of thr_multi_lock, [ThrDeadlock] the absence of deadlocks and
      [ThrMerge] the merging of the status of several instances of a table.

    A definition has the name of the C function or type it models; the parts of
    a long function (the body of a loop, a branch) are definitions of their own
    that the function's definition composes.

    ** How C is modelled

    An integer is a [Z], and a conversion that can wrap is written out ([u8],
    [u32], [u64], [s8], [s16], [s32], [s64]); a counter of array elements is a [nat], with
    [wrap32] where its 32 bit arithmetic can matter.  An array is a list.  A C
    string with a length is the list of its bytes, and a pointer into it is the
    suffix still to be read.  An operation that could read or write outside its
    array, or follow a link out of it, returns an [option], and [None] stands
    for this error.  The host is little-endian with 32 bit int and 64 bit long.

    A loop whose bound is not in the data takes fuel and returns [None] when it
    runs out.  The fuel is a bound on the number of iterations that the data
    give: the number of links of a table plus one for the loops over chains, the
    number of elements for the sift loops of the heap and for the descents in a
    tree, the number of requests for the queues of a lock, the days left divided
    by 365 for the loop over the years, the length of the text for base64, the
    length of the buffer for the loops over the words of a decimal_t; 8 for the
    loop that counts the words of a 64 bit integer, which has at most three, and
    10 for the loops over the digits of a word, which has nine; the length of the
    pattern plus one for the recursion of a wildcard comparison and the length of
    the string for the loops over its characters; the length of the array for the
    loops of quick sort and twice the length for its ranges, since two parts of a
    range have fewer elements than it has.  The parsers recur on the
    string itself and the loop over the months on the table of months.  The theorems state the result with [Some] and so prove that the
    fuel is enough.

    What is not in the sources or is chosen by the caller is an argument:
    my_malloc and my_realloc are functions that may fail and that return memory
    with any contents; the key of a record, the hash function and the comparison
    of a collation; the comparison function of a queue; the value that a
    subtraction of a null pointer gives in base64.c.  Where a theorem needs
    something of them it is a hypothesis: equal keys have equal hashes, the
    comparison is total and transitive, a new block does not overlap the blocks
    in use, the addresses of two locks differ.

    ** What the theorems show

    - Hash tables: in a well-formed table every link is in exactly one chain,
      the one of the bucket of its record's hash, and starts there.  Insertion,
      deletion and update keep this and have the effect of the operation on the
      multiset of records; a search finds all records with the key, once each.
      They are proved from the laws of [LinkArrayLaws] only.
    - Memory roots: a piece that is given out is aligned, inside a block and
      apart from every other live piece; free_root keeps or frees each block
      exactly once.
    - Trees: insertion and deletion keep the tree ordered, red-black and of a
      height that its path of parents has room for, with the effect of the
      operation on the sequence of elements; the searches find what the
      sequence holds, and a scan visits all of it in order and ends.
    - Table locks: in every reachable state the granted locks are compatible, a
      request that waits is granted when the locks ahead of it are released,
      and threads that take their tables through thr_multi_lock do not wait for
      each other in a circle: the one that waits does so in the end for one that
      has a lock and does not wait.  Delayed inserts are not in the system of
      threads.
    - Calendar: calc_daynr counts the days of the Gregorian calendar,
      get_date_from_daynr is its inverse, adding an interval whose length stays
      in 64 bits moves the instant, the day number or the month by exactly the
      interval or reports the overflow, and calc_week in its ISO mode is the ISO 8601 week.
    - Date strings and numbers: what is printed is read back, and whatever is
      read is in range.
    - Queues: insertion, removal and repair keep the heap and its elements, so
      that a queue sorts; removal below the top can break the order.
    - Bitmaps: the operations are those of finite sets of indices; the one that
      writes a byte beyond the buffer is characterised exactly.
    - Arrays: the operations are those of lists, failures included.
    - Base64 and packed lengths: decoding inverts encoding.
    - Integers in text: what is printed is the numeral of the value in its
      radix, and my_strtoll10 returns the value of the digits or the nearest
      bound, for any text.
    - Fixed point numbers: sums, differences and products have the exact value,
      or the documented error and what is left of the value; comparison is the
      order of the values.  The bytes of a column are read back as the same
      number, and memcmp orders them as the numbers, a negative zero apart.  64 bit integers are
      converted without loss, numbers that are no such integer to the nearest
      one with an error.
    - Patterns: the wildcard comparisons end and accept exactly the strings that
      match, and an index range contains all of them, under conditions on the
      escape character; for 8 bit strings this also needs that the byte behind
      the pattern is no wildcard.  Examples show that the conditions are needed.  wild_compare decides
      the same, and whether a pattern covers another one under conditions that
      are shown to be needed.
    - UTF-8: the codecs are inverse to each other and accept no overlong form;
      the comparison is the order of the weights with spaces at the end; equal
      strings have equal hashes, well formed or not, which is what the hash table
      relies on; a search there finds the equal keys of the same length in bytes.  The tables of the server have the properties that this needs.
      A string is converted to upper or lower case, with all but the Turkish
      table also in its own memory without overwriting what is still to be read.
    - Linked lists: the operations are those of a sequence of nodes, and no other
      node changes.
    - Sorting: my_qsort and the sorts of string pointers return a sorted
      permutation of an array of less than 2^31 bytes; the stack of ranges never
      overflows.
    - A few theorems and examples state behaviour that differs from a comment or
      an intent, such as wrapping products in range checks.

    ** What is not modelled, and what is to follow

    Files, threads, mutexes, clocks and the network are not modelled, and so
    neither are the parts that consist of them: the mutex calls in the locking
    functions of my_bitmap.c, my_system_gmt_sec, which depends on localtime_r,
    buffered files, the key cache, the network layer and the engines that store
    files.  The SQL layer is not modelled, since its functions work on sessions
    and handlers.

    tree_record_pos of tree.c, which computes with floating point numbers, and
    the functions that print the queues of a lock are left out.  Requests of type
    TL_WRITE_DELAYED are modelled for a single lock, but are not part of the
    system of threads in [ThrDeadlock].  The lengths of strings are not cut to
    [int] where the collations return a difference of lengths, which matters
    above 2 GB only.

    decimal2double and double2decimal of decimal.c convert floating point
    numbers and are left out.

    To follow: the other multi byte character sets, beginning with the wildcard
    comparison in strings/ctype-mb.c; the hash index of storage/heap/hp_hash.c,
    which shares the linear hashing of [HashTable]. *)

From stdpp Require Import prelude list list_numbers numbers.
From Stdlib Require Import ZArith Lia ZifyNat Bool.

Open Scope Z_scope.

(** ** C integer types

    A value of a C integer type is a [Z]; the conversion to a type of width
    [w] is written out.  [u32 z] is the conversion of [z] to [unsigned int],
    [s32 z] to [int], [u64]/[s64] to the 64 bit types ([long] is 64 bit). *)

Definition u8 (z : Z) : Z := z mod 2 ^ 8.
Definition u16 (z : Z) : Z := z mod 2 ^ 16.
Definition u32 (z : Z) : Z := z mod 2 ^ 32.
Definition u64 (z : Z) : Z := z mod 2 ^ 64.

Definition sgn_wrap (w z : Z) : Z :=
  let m := z mod 2 ^ w in
  if m <? 2 ^ (w - 1) then m else m - 2 ^ w.

(** A plain [char] is signed. *)
Definition s8 (z : Z) : Z := sgn_wrap 8 z.
Definition s16 (z : Z) : Z := sgn_wrap 16 z.
Definition s32 (z : Z) : Z := sgn_wrap 32 z.
Definition s64 (z : Z) : Z := sgn_wrap 64 z.

(** [test(a)] of include/my_global.h: a C integer used as a truth value. *)
Definition test (z : Z) : bool := negb (z =? 0).

(** A [uint] that counts the elements of an in-memory array is a [nat];
    [wrap32] is the reduction the 32 bit arithmetic on it performs. *)
Definition wrap32 (n : nat) : nat := N.to_nat (N.of_nat n mod 2 ^ 32)%N.

(** ** Notations *)

Declare Scope c_scope.
Delimit Scope c_scope with C.
Notation "a .& b" := (Z.land a b) (at level 40, left associativity) : c_scope.
Notation "a .| b" := (Z.lor a b) (at level 45, left associativity) : c_scope.
Notation "a .^ b" := (Z.lxor a b) (at level 42, left associativity) : c_scope.
Notation "a .<< b" := (Z.shiftl a b) (at level 33, left associativity) : c_scope.
Notation "a .>> b" := (Z.shiftr a b) (at level 33, left associativity) : c_scope.
Open Scope c_scope.

(** ** Tactics *)

(** Turn boolean comparisons in hypotheses and goal into propositions. *)
Ltac b2p :=
  repeat match goal with
  | H : (_ && _)%bool = true |- _ => apply andb_true_iff in H; destruct H
  | H : (_ || _)%bool = false |- _ => apply orb_false_iff in H; destruct H
  | H : negb _ = true |- _ => apply negb_true_iff in H
  | H : negb _ = false |- _ => apply negb_false_iff in H
  | H : (_ =? _)%Z = true |- _ => apply Z.eqb_eq in H
  | H : (_ =? _)%Z = false |- _ => apply Z.eqb_neq in H
  | H : (_ <? _)%Z = true |- _ => apply Z.ltb_lt in H
  | H : (_ <? _)%Z = false |- _ => apply Z.ltb_ge in H
  | H : (_ <=? _)%Z = true |- _ => apply Z.leb_le in H
  | H : (_ <=? _)%Z = false |- _ => apply Z.leb_gt in H
  | H : (_ =? _)%nat = true |- _ => apply Nat.eqb_eq in H
  | H : (_ =? _)%nat = false |- _ => apply Nat.eqb_neq in H
  | H : (_ <? _)%nat = true |- _ => apply Nat.ltb_lt in H
  | H : (_ <? _)%nat = false |- _ => apply Nat.ltb_ge in H
  | H : (_ <=? _)%nat = true |- _ => apply Nat.leb_le in H
  | H : (_ <=? _)%nat = false |- _ => apply Nat.leb_gt in H
  end.

(** Case analysis on the first boolean comparison of the goal. *)
Ltac case_if :=
  match goal with
  | |- context [if ?b then _ else _] => destruct b eqn:?; b2p
  end.

(** Linear arithmetic with division and modulo by constants: [zdiv] for the
    flooring operators, [zquot] for C's truncating ones as well. *)
Ltac zdiv := Z.div_mod_to_equations; lia.
Ltac zquot := Z.to_euclidean_division_equations; lia.

(** Natural number division by constants. *)
Ltac ndiv := zify; Z.div_mod_to_equations; lia.

(** Step through the binds of the option monad. *)
Ltac obind := cbn [mbind option_bind from_option default id].

(** Proves [b = true] or [b = false] (or the symmetric equation) for a
    combination of comparisons. *)
Ltac bsolve :=
  match goal with
  | |- true = _ => symmetry
  | |- false = _ => symmetry; apply not_true_iff_false
  | |- _ = false => apply not_true_iff_false
  | |- _ = true => idtac
  | |- _ => apply eq_iff_eq_true
  end;
  rewrite ?andb_true_iff, ?orb_true_iff, ?negb_true_iff, ?Nat.leb_le, ?Nat.ltb_lt,
    ?Nat.eqb_eq, ?Z.leb_le, ?Z.ltb_lt, ?Z.eqb_eq; (lia || ndiv).

(** ** Wrap-around lemmas *)

Lemma u8_small z : 0 <= z < 2 ^ 8 -> u8 z = z.
Proof. apply Z.mod_small. Qed.

Lemma u32_small z : 0 <= z < 2 ^ 32 -> u32 z = z.
Proof. apply Z.mod_small. Qed.

Lemma u64_small z : 0 <= z < 2 ^ 64 -> u64 z = z.
Proof. apply Z.mod_small. Qed.

Lemma u8_range z : 0 <= u8 z < 2 ^ 8.
Proof. apply Z.mod_pos_bound; lia. Qed.

Lemma u32_range z : 0 <= u32 z < 2 ^ 32.
Proof. apply Z.mod_pos_bound; lia. Qed.

Lemma u64_range z : 0 <= u64 z < 2 ^ 64.
Proof. apply Z.mod_pos_bound; lia. Qed.

Lemma sgn_wrap_small w z :
  0 < w -> - 2 ^ (w - 1) <= z < 2 ^ (w - 1) -> sgn_wrap w z = z.
Proof.
  intros Hw Hz. unfold sgn_wrap.
  assert (2 ^ w = 2 * 2 ^ (w - 1)) as Hp.
  { rewrite <- Z.pow_succ_r by lia. f_equal; lia. }
  assert (0 < 2 ^ (w - 1)) by (apply Z.pow_pos_nonneg; lia).
  destruct (Z.neg_nonneg_cases z).
  - assert (z mod 2 ^ w = z + 2 ^ w) as ->.
    { symmetry; apply Z.mod_unique_pos with (-1); lia. }
    case_if; lia.
  - rewrite Z.mod_small by lia. case_if; lia.
Qed.

Lemma s32_small z : - 2 ^ 31 <= z < 2 ^ 31 -> s32 z = z.
Proof. intros H; apply sgn_wrap_small; lia. Qed.

Lemma s64_small z : - 2 ^ 63 <= z < 2 ^ 63 -> s64 z = z.
Proof. intros H; apply sgn_wrap_small; lia. Qed.

Lemma wrap32_small n : (N.of_nat n < 2 ^ 32)%N -> wrap32 n = n.
Proof. intros H. unfold wrap32. rewrite N.mod_small by done. lia. Qed.

(** ** Hint databases

    [c_range] holds the ranges of the conversions, [c_len] computes the length
    of a list; [solve_len] decides a linear goal about lengths. *)

Create HintDb c_range.
#[export] Hint Resolve u8_range u32_range u64_range : c_range.

Create Rewrite HintDb c_len.
#[export] Hint Rewrite @length_app @length_take @length_drop @length_insert @length_replicate
  @length_reverse @length_fmap @length_map @length_seq : c_len.

Ltac solve_len := autorewrite with c_len; simpl; lia.

(** Erase the conversions whose argument is provably in range, innermost
    first ([match] backtracks over the occurrences). *)
Ltac nowrap :=
  repeat match goal with
  | |- context [u8 ?z] => rewrite (u8_small z) by lia
  | |- context [u32 ?z] => rewrite (u32_small z) by lia
  | |- context [u64 ?z] => rewrite (u64_small z) by lia
  | |- context [s32 ?z] => rewrite (s32_small z) by lia
  | |- context [s64 ?z] => rewrite (s64_small z) by lia
  end.

(** The same in a hypothesis. *)
Ltac nowrap_in H :=
  repeat match type of H with
  | context [u8 ?z] => rewrite (u8_small z) in H by lia
  | context [u32 ?z] => rewrite (u32_small z) in H by lia
  | context [u64 ?z] => rewrite (u64_small z) in H by lia
  | context [s32 ?z] => rewrite (s32_small z) in H by lia
  | context [s64 ?z] => rewrite (s64_small z) in H by lia
  end.

(** ** Bits of bounded integers *)

Lemma bits_below n w :
  0 <= n -> 0 <= w -> (forall i, n <= i -> Z.testbit w i = false) -> w < 2 ^ n.
Proof.
  intros Hn Hw H. destruct (decide (w = 0)) as [->|]; [by apply Z.pow_pos_nonneg|].
  apply Z.log2_lt_pow2; [lia|]. destruct (Z.lt_ge_cases (Z.log2 w) n) as [|Hl]; [done|].
  pose proof (Z.bit_log2 w ltac:(lia)) as Hb. by rewrite H in Hb by lia.
Qed.

Lemma bits_above n w i : 0 <= w < 2 ^ n -> n <= i -> Z.testbit w i = false.
Proof.
  intros [H1 H2] Hi. destruct (decide (w = 0)) as [->|]; [apply Z.bits_0|].
  apply Z.bits_above_log2; [lia|]. apply Z.lt_le_trans with n; [|lia].
  apply Z.log2_lt_pow2; lia.
Qed.

(** The bits of [y] are below those of [x]. *)
Lemma lor_shift x y n : 0 <= n -> 0 <= y < 2 ^ n -> (x .<< n) .| y = x * 2 ^ n + y.
Proof.
  intros Hn Hy. pose proof (Z.add_lor_land (x .<< n) y) as H.
  assert (Z.land (x .<< n) y = 0) as E.
  { apply Z.bits_inj'. intros i Hi. rewrite Z.land_spec, Z.bits_0. destruct (Z.lt_ge_cases i n).
    - rewrite Z.shiftl_spec_low by lia. done.
    - rewrite <- (Z.mod_small y (2 ^ n)) by done. rewrite Z.mod_pow2_bits_high by lia. apply andb_false_r. }
  rewrite <- Z.shiftl_mul_pow2 by done. lia.
Qed.

(** ** Bytes *)

Definition is_byte (c : Z) : Prop := 0 <= c < 256.
Definition is_byteb (c : Z) : bool := (0 <=? c) && (c <? 256).

Lemma u8_byte c : is_byte c -> u8 c = c.
Proof. unfold is_byte. intros. apply Z.mod_small. simpl. lia. Qed.

Lemma bytes_ok l : forallb is_byteb l = true -> Forall is_byte l.
Proof. induction l as [|c l IH]; simpl; [done|]. intros H. b2p. constructor; [|auto]. unfold is_byteb, is_byte in *. b2p. lia. Qed.

(** A fact about all bytes is checked byte by byte. *)
Lemma byte_check (p : Z -> bool) : forallb p (seqZ 0 256) = true -> forall c, is_byte c -> p c = true.
Proof.
  intros H c Hc. rewrite forallb_forall in H. apply H, list_elem_of_In, elem_of_seqZ. unfold is_byte in Hc. lia.
Qed.

(** ** Lists *)

Lemma forallb_lookup {A} (p : A -> bool) l :
  forallb p l = true <-> forall i x, l !! i = Some x -> p x = true.
Proof.
  rewrite <- Is_true_true, forallb_True, Forall_lookup.
  by setoid_rewrite Is_true_true.
Qed.
