(* ===== verification/Ctype.v ===== *)
(** * Character classes of latin1: strings/ctype-latin1.c, include/m_ctype.h

    The date parsers classify bytes with the my_isXXX macros on
    my_charset_latin1. *)

From stdpp Require Import prelude.
From Stdlib Require Import ZArith Lia.
From S2P Require Import Prelude.

Open Scope Z_scope.

(** The table has a leading entry for EOF. *)
Definition ctype_latin1 : list Z := [
    0;
   32; 32; 32; 32; 32; 32; 32; 32; 32; 40; 40; 40; 40; 40; 32; 32;
   32; 32; 32; 32; 32; 32; 32; 32; 32; 32; 32; 32; 32; 32; 32; 32;
   72; 16; 16; 16; 16; 16; 16; 16; 16; 16; 16; 16; 16; 16; 16; 16;
  132;132;132;132;132;132;132;132;132;132; 16; 16; 16; 16; 16; 16;
   16;129;129;129;129;129;129;  1;  1;  1;  1;  1;  1;  1;  1;  1;
    1;  1;  1;  1;  1;  1;  1;  1;  1;  1;  1; 16; 16; 16; 16; 16;
   16;130;130;130;130;130;130;  2;  2;  2;  2;  2;  2;  2;  2;  2;
    2;  2;  2;  2;  2;  2;  2;  2;  2;  2;  2; 16; 16; 16; 16; 32;
   16;  0; 16;  2; 16; 16; 16; 16; 16; 16;  1; 16;  1;  0;  1;  0;
    0; 16; 16; 16; 16; 16; 16; 16; 16; 16;  2; 16;  2;  0;  2;  1;
   72; 16; 16; 16; 16; 16; 16; 16; 16; 16; 16; 16; 16; 16; 16; 16;
   16; 16; 16; 16; 16; 16; 16; 16; 16; 16; 16; 16; 16; 16; 16; 16;
    1;  1;  1;  1;  1;  1;  1;  1;  1;  1;  1;  1;  1;  1;  1;  1;
    1;  1;  1;  1;  1;  1;  1; 16;  1;  1;  1;  1;  1;  1;  1;  2;
    2;  2;  2;  2;  2;  2;  2;  2;  2;  2;  2;  2;  2;  2;  2;  2;
    2;  2;  2;  2;  2;  2;  2; 16;  2;  2;  2;  2;  2;  2;  2;  2 ].

Definition MY_NMR : Z := 4.
Definition MY_SPC : Z := 8.
Definition MY_PNT : Z := 16.

(** [((s)->ctype+1)[(uchar) (c)] & class] *)
Definition ctype_class (class c : Z) : bool :=
  test (nth (Z.to_nat (u8 c + 1)) ctype_latin1 0 .& class).

Definition my_isdigit (c : Z) : bool := ctype_class MY_NMR c.
Definition my_isspace (c : Z) : bool := ctype_class MY_SPC c.
Definition my_ispunct (c : Z) : bool := ctype_class MY_PNT c.

(** A property of every byte is checked byte by byte. *)
Definition all_bytes (P : Z -> bool) : bool :=
  forallb (fun n => P (Z.of_nat n)) (seq 0 256).

Lemma all_bytes_spec P c :
  all_bytes P = true -> 0 <= c < 256 -> P c = true.
Proof.
  unfold all_bytes. rewrite forallb_forall. intros H Hc.
  rewrite <- (Z2Nat.id c) by lia. apply H. apply in_seq. lia.
Qed.

Lemma all_bytes_eq (f g : Z -> bool) c :
  all_bytes (fun c => Bool.eqb (f c) (g c)) = true -> 0 <= c < 256 -> f c = g c.
Proof.
  intros H Hc. apply Bool.eqb_prop.
  exact (all_bytes_spec (fun c => Bool.eqb (f c) (g c)) c H Hc).
Qed.

Lemma my_isdigit_spec c :
  0 <= c < 256 -> my_isdigit c = (48 <=? c) && (c <=? 57).
Proof.
  intros Hc. revert c Hc.
  refine (fun c => all_bytes_eq my_isdigit (fun c => (48 <=? c) && (c <=? 57)) c _).
  vm_compute. reflexivity.
Qed.

Lemma my_isspace_spec c :
  0 <= c < 256 ->
  my_isspace c = ((9 <=? c) && (c <=? 13)) || (c =? 32) || (c =? 160).
Proof.
  revert c.
  refine (fun c => all_bytes_eq my_isspace
    (fun c => ((9 <=? c) && (c <=? 13)) || (c =? 32) || (c =? 160)) c _).
  vm_compute. reflexivity.
Qed.

Lemma my_ispunct_not_digit c :
  0 <= c < 256 -> my_isdigit c = true ->
  my_ispunct c = false /\ my_isspace c = false.
Proof.
  intros Hc Hd.
  assert (negb (my_isdigit c) || (negb (my_ispunct c) && negb (my_isspace c))
          = true) as H.
  { apply (all_bytes_spec (fun c => negb (my_isdigit c) ||
      (negb (my_ispunct c) && negb (my_isspace c)))); [|done].
    vm_compute. reflexivity. }
  rewrite Hd in H. simpl in H. b2p. auto.
Qed.

(** The digit characters. *)
Lemma my_isdigit_digit d : 0 <= d <= 9 -> my_isdigit (48 + d) = true.
Proof. intros H. rewrite my_isdigit_spec by lia. lia. Qed.
