(* ===== verification/Calendar.v ===== *)
(** * Calendar arithmetic: sql-common/my_time.c and sql/sql_time.cc

    The numeric half of the date and time code: day numbers, validity checks,
    the YYYYMMDDHHMMSS integer form, weeks, periods, interval addition and
    differences.  The string half is in [DateParse]. *)

From stdpp Require Import prelude.
From Stdlib Require Import ZArith Lia.
From S2P Require Import Prelude.

Open Scope Z_scope.

(** ** Data: include/mysql_time.h, include/my_time.h *)

Inductive timestamp_type : Type :=
| MYSQL_TIMESTAMP_NONE
| MYSQL_TIMESTAMP_ERROR
| MYSQL_TIMESTAMP_DATE
| MYSQL_TIMESTAMP_DATETIME
| MYSQL_TIMESTAMP_TIME.

(** The enumerators' values. *)
Definition timestamp_type_value (t : timestamp_type) : Z :=
  match t with
  | MYSQL_TIMESTAMP_NONE => -2
  | MYSQL_TIMESTAMP_ERROR => -1
  | MYSQL_TIMESTAMP_DATE => 0
  | MYSQL_TIMESTAMP_DATETIME => 1
  | MYSQL_TIMESTAMP_TIME => 2
  end.

#[export] Instance timestamp_type_eq_dec : EqDecision timestamp_type.
Proof. solve_decision. Defined.

(** [year] .. [second] are [unsigned int], [second_part] is [unsigned long]. *)
Record MYSQL_TIME : Type := mk_time {
  year : Z;
  month : Z;
  day : Z;
  hour : Z;
  minute : Z;
  second : Z;
  second_part : Z;
  neg : bool;
  time_type : timestamp_type
}.

(** The structure cleared by [bzero]: the enumerator of value 0 is DATE. *)
Definition zero_time : MYSQL_TIME :=
  mk_time 0 0 0 0 0 0 0 false MYSQL_TIMESTAMP_DATE.

Definition with_date (t : MYSQL_TIME) (y m d : Z) : MYSQL_TIME :=
  mk_time y m d (hour t) (minute t) (second t) (second_part t) (neg t)
          (time_type t).

Definition with_neg (t : MYSQL_TIME) (n : bool) : MYSQL_TIME :=
  mk_time (year t) (month t) (day t) (hour t) (minute t) (second t)
          (second_part t) n (time_type t).

Definition with_type (t : MYSQL_TIME) (k : timestamp_type) : MYSQL_TIME :=
  mk_time (year t) (month t) (day t) (hour t) (minute t) (second t)
          (second_part t) (neg t) k.

Definition TIME_FUZZY_DATE : Z := 1.
Definition TIME_DATETIME_ONLY : Z := 2.
Definition TIME_NO_ZERO_IN_DATE : Z := 65536*2*2*2*2*2*2*2.
Definition TIME_NO_ZERO_DATE : Z := TIME_NO_ZERO_IN_DATE * 2.
Definition TIME_INVALID_DATES : Z := TIME_NO_ZERO_DATE * 2.

Definition MYSQL_TIME_WARN_TRUNCATED : Z := 1.
Definition MYSQL_TIME_WARN_OUT_OF_RANGE : Z := 2.

Definition YY_PART_YEAR : Z := 70.
Definition TIMESTAMP_MAX_YEAR : Z := 2038.
Definition TIMESTAMP_MIN_YEAR : Z := 1900 + YY_PART_YEAR - 1.
Definition TIME_MAX_HOUR : Z := 838.
Definition TIME_MAX_MINUTE : Z := 59.
Definition TIME_MAX_SECOND : Z := 59.

Definition days_in_month : list Z :=
  [31; 28; 31; 30; 31; 30; 31; 31; 30; 31; 30; 31; 0].

(** [days_in_month[m-1]]; the table has 13 entries and every caller has
    checked [m <= 12]. *)
Definition month_days (m : Z) : Z := nth (Z.to_nat (m - 1)) days_in_month 0.

(** ** sql-common/my_time.c *)

Definition calc_days_in_year (year : Z) : Z :=
  if (year .& 3 =? 0) &&
     (test (year mod 100) || ((year mod 400 =? 0) && test year))
  then 366 else 365.

(** Returns the error indication and the new value of [*was_cut]. *)
Definition check_date (ltime : MYSQL_TIME) (not_zero_date : bool) (flags : Z)
    (was_cut : Z) : bool * Z :=
  if not_zero_date then
    if ((test (flags .& TIME_NO_ZERO_IN_DATE) ||
         negb (test (flags .& TIME_FUZZY_DATE))) &&
        ((month ltime =? 0) || (day ltime =? 0))) ||
       (negb (test (flags .& TIME_INVALID_DATES)) &&
        test (month ltime) && (month_days (month ltime) <? day ltime) &&
        (negb (month ltime =? 2) ||
         negb (calc_days_in_year (year ltime) =? 366) ||
         negb (day ltime =? 29)))
    then (true, 2)
    else (false, was_cut)
  else if test (flags .& TIME_NO_ZERO_DATE) then (true, was_cut)
  else (false, was_cut).

(** Returns the return value, the updated time and the updated [*warning].
    [24*my_time->day] is computed in [unsigned int]. *)
Definition check_time_range (t : MYSQL_TIME) (warning : Z)
    : Z * MYSQL_TIME * Z :=
  if (60 <=? minute t) || (60 <=? second t) then (1, t, warning)
  else
    let h := u32 (hour t + u32 (24 * day t)) in
    if (h <=? TIME_MAX_HOUR) &&
       (negb (h =? TIME_MAX_HOUR) || negb (minute t =? TIME_MAX_MINUTE) ||
        negb (second t =? TIME_MAX_SECOND) || (second_part t =? 0))
    then (0, t, warning)
    else (0, mk_time (year t) (month t) 0 TIME_MAX_HOUR TIME_MAX_MINUTE
                     TIME_MAX_SECOND 0 (neg t) (time_type t),
          warning .| MYSQL_TIME_WARN_OUT_OF_RANGE).

Definition year_2000_handling (year : Z) : Z :=
  let year := u32 (year + 1900) in
  if year <? 1900 + YY_PART_YEAR then u32 (year + 100) else year.

(** The [int] computations on [y] truncate towards zero ([Z.quot]). *)
Definition calc_daynr (year month day : Z) : Z :=
  let y := s32 year in
  if (y =? 0) && (month =? 0) then 0
  else
    let delsum := s32 (365 * y + 31 * (s32 month - 1) + s32 day) in
    let '(y, delsum) :=
      if month <=? 2 then (y - 1, delsum)
      else (y, delsum - (s32 month * 4 + 23) ÷ 10) in
    let temp := ((y ÷ 100 + 1) * 3) ÷ 4 in
    delsum + y ÷ 4 - temp.

Definition validate_timestamp_range (t : MYSQL_TIME) : bool :=
  if ((TIMESTAMP_MAX_YEAR <? year t) || (year t <? TIMESTAMP_MIN_YEAR)) ||
     ((year t =? TIMESTAMP_MAX_YEAR) && ((1 <? month t) || (19 <? day t))) ||
     ((year t =? TIMESTAMP_MIN_YEAR) && ((month t <? 12) || (day t <? 31)))
  then false else true.

Definition set_zero_time (k : timestamp_type) : MYSQL_TIME :=
  with_type zero_time k.

Definition TIME_to_ulonglong_datetime (t : MYSQL_TIME) : Z :=
  u64 (u64 (year t * 10000 + month t * 100 + day t) * 1000000 +
       u64 (hour t * 10000 + minute t * 100 + second t)).

Definition TIME_to_ulonglong_date (t : MYSQL_TIME) : Z :=
  u64 (year t * 10000 + month t * 100 + day t).

Definition TIME_to_ulonglong_time (t : MYSQL_TIME) : Z :=
  u64 (hour t * 10000 + minute t * 100 + second t).

Definition TIME_to_ulonglong (t : MYSQL_TIME) : Z :=
  match time_type t with
  | MYSQL_TIMESTAMP_DATETIME => TIME_to_ulonglong_datetime t
  | MYSQL_TIMESTAMP_DATE => TIME_to_ulonglong_date t
  | MYSQL_TIMESTAMP_TIME => TIME_to_ulonglong_time t
  | MYSQL_TIMESTAMP_NONE | MYSQL_TIMESTAMP_ERROR => 0
  end.

(** The first half of number_to_datetime, up to the label [ok]: the
    recognised format and the number rewritten as YYYYMMDDHHMMSS, [None] for
    the jumps to [err]. *)
Definition number_format (nr flags : Z) : timestamp_type * option Z :=
  if (nr =? 0) || (10000101000000 <=? nr) then
    (MYSQL_TIMESTAMP_DATETIME, Some nr)
  else if nr <? 101 then (MYSQL_TIMESTAMP_DATE, None)
  else if nr <=? (YY_PART_YEAR - 1) * 10000 + 1231 then
    (MYSQL_TIMESTAMP_DATE, Some ((nr + 20000000) * 1000000))
  else if nr <? YY_PART_YEAR * 10000 + 101 then (MYSQL_TIMESTAMP_DATE, None)
  else if nr <=? 991231 then
    (MYSQL_TIMESTAMP_DATE, Some ((nr + 19000000) * 1000000))
  else if (nr <? 10000101) && negb (test (flags .& TIME_FUZZY_DATE)) then
    (MYSQL_TIMESTAMP_DATE, None)
  else if nr <=? 99991231 then (MYSQL_TIMESTAMP_DATE, Some (nr * 1000000))
  else if nr <? 101000000 then (MYSQL_TIMESTAMP_DATE, None)
  else if nr <=? (YY_PART_YEAR - 1) * 10000000000 + 1231235959 then
    (MYSQL_TIMESTAMP_DATETIME, Some (nr + 20000000000000))
  else if nr <? YY_PART_YEAR * 10000000000 + 101000000 then
    (MYSQL_TIMESTAMP_DATETIME, None)
  else if nr <=? 991231235959 then
    (MYSQL_TIMESTAMP_DATETIME, Some (nr + 19000000000000))
  else (MYSQL_TIMESTAMP_DATETIME, Some nr).

(** Returns the value, [*time_res] and [*was_cut]. *)
Definition number_to_datetime (nr flags : Z) : Z * MYSQL_TIME * Z :=
  match number_format nr flags with
  | (k, None) => (-1, with_type zero_time k, 1)
  | (k, Some nr) =>
    let part1 := nr ÷ 1000000 in
    let part2 := nr - part1 * 1000000 in
    let t := mk_time (u32 (part1 ÷ 10000))
                     (Z.rem part1 10000 ÷ 100) (Z.rem (Z.rem part1 10000) 100)
                     (part2 ÷ 10000)
                     (Z.rem part2 10000 ÷ 100) (Z.rem (Z.rem part2 10000) 100)
                     0 false k in
    if (year t <=? 9999) && (month t <=? 12) && (day t <=? 31) &&
       (hour t <=? 23) && (minute t <=? 59) && (second t <=? 59)
    then
      let '(bad, was_cut) := check_date t (negb (nr =? 0)) flags 0 in
      if negb bad then (nr, t, was_cut)
      else if (nr =? 0) && test (flags .& TIME_NO_ZERO_DATE)
      then (-1, t, was_cut)
      else (-1, t, 1)
    else if (nr =? 0) && test (flags .& TIME_NO_ZERO_DATE) then (-1, t, 0)
    else (-1, t, 1)
  end.

(** ** sql/sql_time.cc *)

Definition calc_weekday (daynr : Z) (sunday_first_day_of_week : bool) : Z :=
  Z.rem (daynr + 5 + (if sunday_first_day_of_week then 1 else 0)) 7.

Definition WEEK_MONDAY_FIRST : Z := 1.
Definition WEEK_YEAR : Z := 2.
Definition WEEK_FIRST_WEEKDAY : Z := 4.

(** Returns the week and [*year]. *)
Definition calc_week (l_time : MYSQL_TIME) (week_behaviour : Z) : Z * Z :=
  let daynr := u64 (calc_daynr (year l_time) (month l_time) (day l_time)) in
  let first_daynr := u64 (calc_daynr (year l_time) 1 1) in
  let monday_first := test (week_behaviour .& WEEK_MONDAY_FIRST) in
  let week_year := test (week_behaviour .& WEEK_YEAR) in
  let first_weekday := test (week_behaviour .& WEEK_FIRST_WEEKDAY) in
  let weekday := calc_weekday first_daynr (negb monday_first) in
  let late w := (first_weekday && negb (w =? 0)) ||
                (negb first_weekday && (4 <=? w)) in
  let rest first_daynr weekday week_year yr :=
    let days := if late weekday
                then u32 (daynr - (first_daynr + (7 - weekday)))
                else u32 (daynr - (first_daynr - weekday)) in
    if week_year && (52 * 7 <=? days) then
      let weekday := (weekday + calc_days_in_year yr) mod 7 in
      if (negb first_weekday && (weekday <? 4)) ||
         (first_weekday && (weekday =? 0))
      then (1, u32 (yr + 1))
      else (days / 7 + 1, yr)
    else (days / 7 + 1, yr) in
  if (month l_time =? 1) && (day l_time <=? 7 - weekday) then
    if negb week_year && late weekday then (0, year l_time)
    else
      let yr := u32 (year l_time - 1) in
      let days := calc_days_in_year yr in
      rest (first_daynr - days) ((weekday + 53 * 7 - days) mod 7) true yr
  else rest first_daynr weekday week_year (year l_time).

(** The [while] loop of get_date_from_daynr.  Every turn takes at least 365
    from [day_of_year]; [None] would be a run out of [fuel]. *)
Fixpoint year_loop (fuel : nat) (day_of_year year : Z) : option (Z * Z * Z) :=
  let days_in_year := calc_days_in_year year in
  if days_in_year <? day_of_year then
    match fuel with
    | O => None
    | S fuel => year_loop fuel (day_of_year - days_in_year) (u32 (year + 1))
    end
  else Some (day_of_year, year, days_in_year).

(** The [for] loop over [days_in_month]; [None] would be a walk off the end of
    the table. *)
Fixpoint month_loop (month_pos : list Z) (day_of_year ret_month : Z)
    : option (Z * Z) :=
  match month_pos with
  | [] => None
  | d :: month_pos =>
    if d <? day_of_year then month_loop month_pos (day_of_year - d) (ret_month + 1)
    else Some (ret_month, day_of_year)
  end.

(** Year, month and day of a day number. *)
Definition get_date_from_daynr (daynr : Z) : option (Z * Z * Z) :=
  if (daynr <=? 365) || (3652500 <=? daynr) then Some (0, 0, 0)
  else
    let year := u32 (daynr * 100 ÷ 36525) in
    let temp := (((year - 1) / 100 + 1) * 3) / 4 in
    let day_of_year :=
      u32 (u32 (daynr - year * 365) - (year - 1) / 4 + temp) in
    match year_loop (S (Z.to_nat (day_of_year / 365))) day_of_year year with
    | None => None
    | Some (day_of_year, year, days_in_year) =>
      let '(day_of_year, leap_day) :=
        if (days_in_year =? 366) && (31 + 28 <? day_of_year)
        then (day_of_year - 1, if day_of_year - 1 =? 31 + 28 then 1 else 0)
        else (day_of_year, 0) in
      match month_loop days_in_month day_of_year 1 with
      | None => None
      | Some (m, d) => Some (year, m, d + leap_day)
      end
    end.

Definition convert_period_to_month (period : Z) : Z :=
  if period =? 0 then 0
  else
    let a := period / 100 in
    let a := if a <? YY_PART_YEAR then a + 2000
             else if a <? 100 then a + 1900 else a in
    let b := period mod 100 in
    u64 (a * 12 + b - 1).

Definition convert_month_to_period (month : Z) : Z :=
  if month =? 0 then 0
  else
    let year := month / 12 in
    let year := if year <? 100
                then year + (if year <? YY_PART_YEAR then 2000 else 1900)
                else year in
    u64 (year * 100 + month mod 12 + 1).

Definition calc_time_from_sec (t : MYSQL_TIME) (seconds microseconds : Z)
    : MYSQL_TIME :=
  let t_seconds := Z.rem seconds 3600 in
  mk_time 0 0 0 (u32 (seconds ÷ 3600)) (u32 (t_seconds ÷ 60))
          (u32 (Z.rem t_seconds 60)) (u64 microseconds) (neg t)
          MYSQL_TIMESTAMP_TIME.

Inductive interval_type : Type :=
| INTERVAL_YEAR | INTERVAL_QUARTER | INTERVAL_MONTH | INTERVAL_WEEK
| INTERVAL_DAY | INTERVAL_HOUR | INTERVAL_MINUTE | INTERVAL_SECOND
| INTERVAL_MICROSECOND | INTERVAL_YEAR_MONTH | INTERVAL_DAY_HOUR
| INTERVAL_DAY_MINUTE | INTERVAL_DAY_SECOND | INTERVAL_HOUR_MINUTE
| INTERVAL_HOUR_SECOND | INTERVAL_MINUTE_SECOND | INTERVAL_DAY_MICROSECOND
| INTERVAL_HOUR_MICROSECOND | INTERVAL_MINUTE_MICROSECOND
| INTERVAL_SECOND_MICROSECOND | INTERVAL_LAST.

(** sql/structs.h; the members are [ulong] or [ulonglong]. *)
Record INTERVAL : Type := mk_interval {
  i_year : Z; i_month : Z; i_day : Z; i_hour : Z;
  i_minute : Z; i_second : Z; i_second_part : Z;
  i_neg : bool
}.

Definition MAX_DAY_NUMBER : Z := 3652424.

(** What date_add_interval does: succeed, push the warning
    ER_DATETIME_FUNCTION_OVERFLOW and fail, or fail silently.  Only the first
    returns 0. *)
Inductive add_result : Type :=
| AddOk (t : MYSQL_TIME)
| AddOverflow (t : MYSQL_TIME)
| AddNull (t : MYSQL_TIME).

(** The day-time intervals. *)
Definition add_seconds (ltime : MYSQL_TIME) (sign : Z) (i : INTERVAL)
    : option add_result :=
  let microseconds := s64 (second_part ltime + sign * i_second_part i) in
  let extra_sec := microseconds ÷ 1000000 in
  let microseconds := Z.rem microseconds 1000000 in
  let sec := s64 (u32 (u32 (day ltime - 1) * 3600) * 24 +
                  u32 (hour ltime * 3600) + u32 (minute ltime * 60) +
                  second ltime +
                  sign * s64 (u64 (i_day i * 3600 * 24 + i_hour i * 3600 +
                                   i_minute i * 60 + i_second i)) +
                  extra_sec) in
  let '(microseconds, sec) :=
    if microseconds <? 0 then (microseconds + 1000000, sec - 1)
    else (microseconds, sec) in
  let days := sec ÷ (3600 * 24) in
  let sec := sec - days * 3600 * 24 in
  let '(days, sec) :=
    if sec <? 0 then (days - 1, sec + 3600 * 24) else (days, sec) in
  let t := mk_time (year ltime) (month ltime) (day ltime)
                   (u32 (sec ÷ 3600)) (u32 (Z.rem (sec ÷ 60) 60))
                   (u32 (Z.rem sec 60)) (u32 microseconds) (neg ltime)
                   MYSQL_TIMESTAMP_DATETIME in
  let daynr := calc_daynr (year t) (month t) 1 + days in
  if MAX_DAY_NUMBER <? u64 daynr then Some (AddOverflow t)
  else
    match get_date_from_daynr daynr with
    | None => None
    | Some (y, m, d) => Some (AddOk (with_date t y m d))
    end.

(** DAY and WEEK. *)
Definition add_days (ltime : MYSQL_TIME) (sign : Z) (i : INTERVAL)
    : option add_result :=
  let period := s64 (calc_daynr (year ltime) (month ltime) (day ltime) +
                     sign * i_day i) in
  if MAX_DAY_NUMBER <? u64 period then Some (AddOverflow ltime)
  else
    match get_date_from_daynr period with
    | None => None
    | Some (y, m, d) => Some (AddOk (with_date ltime y m d))
    end.

(** YEAR. *)
Definition add_years (ltime : MYSQL_TIME) (sign : Z) (i : INTERVAL)
    : option add_result :=
  let t := with_date ltime (u32 (year ltime + sign * i_year i))
                     (month ltime) (day ltime) in
  if 10000 <=? year t then Some (AddOverflow t)
  else if (month t =? 2) && (day t =? 29) &&
          negb (calc_days_in_year (year t) =? 366)
  then Some (AddOk (with_date t (year t) (month t) 28))
  else Some (AddOk t).

(** YEAR_MONTH, QUARTER and MONTH. *)
Definition add_months (ltime : MYSQL_TIME) (sign : Z) (i : INTERVAL)
    : option add_result :=
  let period := s64 (u32 (year ltime * 12) + sign * i_year i * 12 +
                     month ltime - 1 + sign * i_month i) in
  if 120000 <=? u64 period then Some (AddOverflow ltime)
  else
    let y := period ÷ 12 in
    let m := Z.rem period 12 + 1 in
    let d := if month_days m <? day ltime
             then if (m =? 2) && (calc_days_in_year y =? 366)
                  then month_days m + 1 else month_days m
             else day ltime in
    Some (AddOk (with_date ltime y m d)).

Definition date_add_interval (ltime : MYSQL_TIME) (int_type : interval_type)
    (interval : INTERVAL) : option add_result :=
  let ltime := with_neg ltime false in
  let sign := if i_neg interval then -1 else 1 in
  match int_type with
  | INTERVAL_SECOND | INTERVAL_SECOND_MICROSECOND | INTERVAL_MICROSECOND
  | INTERVAL_MINUTE | INTERVAL_HOUR | INTERVAL_MINUTE_MICROSECOND
  | INTERVAL_MINUTE_SECOND | INTERVAL_HOUR_MICROSECOND | INTERVAL_HOUR_SECOND
  | INTERVAL_HOUR_MINUTE | INTERVAL_DAY_MICROSECOND | INTERVAL_DAY_SECOND
  | INTERVAL_DAY_MINUTE | INTERVAL_DAY_HOUR => add_seconds ltime sign interval
  | INTERVAL_DAY | INTERVAL_WEEK => add_days ltime sign interval
  | INTERVAL_YEAR => add_years ltime sign interval
  | INTERVAL_YEAR_MONTH | INTERVAL_QUARTER | INTERVAL_MONTH =>
      add_months ltime sign interval
  | INTERVAL_LAST => Some (AddNull ltime)
  end.

(** Returns the sign, [*seconds_out] and [*microseconds_out]. *)
Definition calc_time_diff (l_time1 l_time2 : MYSQL_TIME) (l_sign : Z)
    : bool * Z * Z :=
  let days :=
    match time_type l_time1 with
    | MYSQL_TIMESTAMP_TIME => day l_time1 - l_sign * day l_time2
    | _ =>
      calc_daynr (year l_time1) (month l_time1) (day l_time1) -
      match time_type l_time2 with
      | MYSQL_TIMESTAMP_TIME => l_sign * day l_time2
      | _ => l_sign * calc_daynr (year l_time2) (month l_time2) (day l_time2)
      end
    end in
  let microseconds :=
    s64 ((days * 86400 +
          (hour l_time1 * 3600 + minute l_time1 * 60 + second l_time1) -
          l_sign * (hour l_time2 * 3600 + minute l_time2 * 60 + second l_time2))
         * 1000000 + second_part l_time1 - l_sign * second_part l_time2) in
  let '(microseconds, ng) :=
    if microseconds <? 0 then (- microseconds, true)
    else (microseconds, false) in
  (ng, microseconds ÷ 1000000, Z.rem microseconds 1000000).

Definition my_time_compare (a b : MYSQL_TIME) : Z :=
  let a_t := TIME_to_ulonglong_datetime a in
  let b_t := TIME_to_ulonglong_datetime b in
  if a_t <? b_t then -1
  else if b_t <? a_t then 1
  else if second_part a <? second_part b then -1
  else if second_part b <? second_part a then 1
  else 0.

(** ** The proleptic Gregorian calendar the code implements

    A reference definition: the days before a year are the lengths of the
    years before it summed up, the days before a month the lengths of the
    months before it.  Year 0 counts as a common year. *)

Fixpoint days_before_year (y : nat) : Z :=
  match y with
  | O => 0
  | S y => days_before_year y + calc_days_in_year (Z.of_nat y)
  end.

Definition days_of_month (y m : Z) : Z :=
  month_days m + (if (m =? 2) && (calc_days_in_year y =? 366) then 1 else 0).

Fixpoint days_before_month (y : Z) (m : nat) : Z :=
  match m with
  | O => 0
  | S m => days_before_month y m +
           (if (m =? 0)%nat then 0 else days_of_month y (Z.of_nat m))
  end.

Definition ref_daynr (y m d : Z) : Z :=
  days_before_year (Z.to_nat y) + days_before_month y (Z.to_nat m) + d.

Definition valid_date (y m d : Z) : Prop :=
  0 <= y <= 9999 /\ 1 <= m <= 12 /\ 1 <= d <= days_of_month y m.

Lemma calc_days_in_year_spec y :
  0 <= y ->
  calc_days_in_year y =
  if decide (y <> 0 /\ y mod 4 = 0 /\ (y mod 100 <> 0 \/ y mod 400 = 0))
  then 366 else 365.
Proof.
  intros Hy. unfold calc_days_in_year, test.
  change 3 with (Z.ones 2). rewrite Z.land_ones by lia. change (2 ^ 2) with 4.
  destruct (y mod 4 =? 0) eqn:E4, (y mod 100 =? 0) eqn:E100,
           (y mod 400 =? 0) eqn:E400, (y =? 0) eqn:E0; b2p; simpl;
    case_decide; try reflexivity; exfalso; zdiv.
Qed.

Lemma calc_days_in_year_range y :
  calc_days_in_year y = 365 \/ calc_days_in_year y = 366.
Proof. unfold calc_days_in_year. case_if; auto. Qed.

(** The closed form of [days_before_year] that calc_daynr uses. *)
Definition year_start (y : Z) : Z :=
  365 * y + (y - 1) / 4 - (((y - 1) / 100 + 1) * 3) / 4.

Lemma year_start_succ y :
  1 <= y -> year_start (y + 1) = year_start y + calc_days_in_year y.
Proof.
  intros Hy. rewrite calc_days_in_year_spec by lia. unfold year_start.
  replace (y + 1 - 1) with y by lia.
  case_decide; zdiv.
Qed.

Lemma days_before_year_closed (n : nat) :
  (1 <= n)%nat -> days_before_year n = year_start (Z.of_nat n).
Proof.
  induction n as [|n IH]; intros Hn; [lia|].
  destruct n as [|n]; [reflexivity|].
  change (days_before_year (S (S n)))
    with (days_before_year (S n) + calc_days_in_year (Z.of_nat (S n))).
  rewrite IH by lia. rewrite <- year_start_succ by lia. f_equal. lia.
Qed.

Lemma days_before_month_closed y m :
  1 <= m <= 12 ->
  days_before_month y (Z.to_nat m) =
  31 * (m - 1) - (if m <=? 2 then 0 else (m * 4 + 23) / 10)
  + (if (2 <? m) && (calc_days_in_year y =? 366) then 1 else 0).
Proof.
  intros Hm.
  assert (m = 1 \/ m = 2 \/ m = 3 \/ m = 4 \/ m = 5 \/ m = 6 \/ m = 7 \/ m = 8 \/
          m = 9 \/ m = 10 \/ m = 11 \/ m = 12) as Hc by lia.
  destruct (calc_days_in_year_range y) as [E | E];
    repeat destruct Hc as [-> | Hc]; try subst m;
    cbv -[calc_days_in_year]; rewrite ?E; reflexivity.
Qed.

Lemma leap_days_quot y :
  0 <= y ->
  y ÷ 4 - ((y ÷ 100 + 1) * 3) ÷ 4 = year_start (y + 1) - 365 * (y + 1).
Proof.
  intros Hy. unfold year_start. replace (y + 1 - 1) with y by lia.
  pose proof (Z.div_pos y 100).
  rewrite !Z.quot_div_nonneg; try rewrite Z.quot_div_nonneg; lia.
Qed.

Lemma calc_daynr_closed y m d :
  0 <= y <= 9999 -> 1 <= m <= 12 -> 0 <= d <= 31 ->
  calc_daynr y m d =
  (if y =? 0 then 0 else year_start y) + days_before_month y (Z.to_nat m) + d.
Proof.
  intros Hy Hm Hd. rewrite days_before_month_closed by lia.
  unfold calc_daynr. nowrap.
  destruct (m =? 0) eqn:E0; b2p; [lia|]. rewrite andb_false_r.
  destruct (m <=? 2) eqn:E2, (2 <? m) eqn:E2'; b2p; try lia; simpl.
  - destruct (y =? 0) eqn:Ey; b2p.
    + subst. change ((0 - 1) ÷ 4) with 0.
      change (((0 - 1) ÷ 100 + 1) * 3 ÷ 4) with 0. lia.
    + pose proof (leap_days_quot (y - 1) ltac:(lia)) as Hl.
      replace (y - 1 + 1) with y in Hl by lia. lia.
  - pose proof (leap_days_quot y ltac:(lia)) as Hl.
    rewrite (Z.quot_div_nonneg (m * 4 + 23)) by lia.
    destruct (y =? 0) eqn:Ey; b2p.
    + subst. change (calc_days_in_year 0) with 365.
      change (year_start (0 + 1)) with 365 in Hl. simpl in *. lia.
    + rewrite year_start_succ in Hl by lia.
      destruct (calc_days_in_year_range y) as [E | E]; rewrite E in *;
        simpl; lia.
Qed.

(** C32.  calc_daynr is the day count of the Gregorian calendar: for every
    year 0..9999, month 1..12 and day 0..31 it is the days of all earlier
    years plus the days of all earlier months of the year plus the day. *)
Theorem calc_daynr_correct y m d :
  0 <= y <= 9999 -> 1 <= m <= 12 -> 0 <= d <= 31 ->
  calc_daynr y m d = ref_daynr y m d.
Proof.
  intros Hy Hm Hd. rewrite calc_daynr_closed by done. unfold ref_daynr.
  destruct (y =? 0) eqn:Ey; b2p; [by subst|].
  rewrite days_before_year_closed by lia. rewrite Z2Nat.id by lia. lia.
Qed.

Lemma calc_daynr_correct_witness :
  calc_daynr 2000 3 1 = ref_daynr 2000 3 1.
Proof. apply calc_daynr_correct; lia. Defined.

(** *** Day numbers are in bijection with the valid dates *)

Lemma days_of_month_pos y m : 1 <= m <= 12 -> 28 <= days_of_month y m <= 31.
Proof.
  intros Hm. unfold days_of_month.
  assert (28 <= month_days m <= 31 /\ (m = 2 -> month_days m = 28)) as [].
  { assert (m = 1 \/ m = 2 \/ m = 3 \/ m = 4 \/ m = 5 \/ m = 6 \/ m = 7 \/
            m = 8 \/ m = 9 \/ m = 10 \/ m = 11 \/ m = 12) as Hc by lia.
    repeat destruct Hc as [-> | Hc]; try subst m; cbv; intuition congruence. }
  destruct (m =? 2) eqn:E; b2p; simpl; [case_if|]; lia.
Qed.

Lemma days_before_month_succ y m :
  1 <= m -> days_before_month y (Z.to_nat (m + 1)) =
            days_before_month y (Z.to_nat m) + days_of_month y m.
Proof.
  intros Hm. replace (Z.to_nat (m + 1)) with (S (Z.to_nat m)) by lia.
  simpl. destruct (Z.to_nat m) eqn:E; [lia|]. rewrite <- E.
  rewrite Z2Nat.id by lia. rewrite E. reflexivity.
Qed.

Lemma days_before_month_mono y m m' :
  1 <= m -> m < m' -> m' <= 13 ->
  days_before_month y (Z.to_nat m) + days_of_month y m <=
  days_before_month y (Z.to_nat m').
Proof.
  intros Hm Hlt Hm'. replace m' with (m + 1 + (m' - m - 1)) in * by lia.
  assert (0 <= m' - m - 1) as Hk by lia. revert Hk Hm'.
  generalize (m' - m - 1). clear m' Hlt. intros k Hk.
  pattern k; apply natlike_ind; [| |done]; clear k Hk.
  - intros. rewrite Z.add_0_r, days_before_month_succ by lia. lia.
  - intros k Hk IH Hb. replace (m + 1 + Z.succ k) with (m + 1 + k + 1) in * by lia.
    rewrite days_before_month_succ by lia.
    pose proof (days_of_month_pos y (m + 1 + k) ltac:(lia)). lia.
Qed.

Lemma year_start_mono y y' :
  1 <= y -> y < y' -> year_start y + calc_days_in_year y <= year_start y'.
Proof.
  intros Hy Hlt. replace y' with (y + 1 + (y' - y - 1)) in * by lia.
  assert (0 <= y' - y - 1) as Hk by lia. revert Hk.
  generalize (y' - y - 1). clear y' Hlt. intros k Hk.
  pattern k; apply natlike_ind; [| |done]; clear k Hk.
  - rewrite Z.add_0_r, year_start_succ by lia. lia.
  - intros k Hk IH. replace (y + 1 + Z.succ k) with (y + 1 + k + 1) by lia.
    rewrite year_start_succ by lia.
    destruct (calc_days_in_year_range (y + 1 + k)); lia.
Qed.

Lemma days_in_year_months y :
  days_before_month y (Z.to_nat 13) = calc_days_in_year y.
Proof.
  destruct (calc_days_in_year_range y) as [E | E];
    cbv -[calc_days_in_year]; rewrite ?E; reflexivity.
Qed.

(** A valid day of a year lies inside that year. *)
Lemma day_of_year_bounds y m d :
  1 <= m <= 12 -> 1 <= d <= days_of_month y m ->
  1 <= days_before_month y (Z.to_nat m) + d <= calc_days_in_year y.
Proof.
  intros Hm Hd. rewrite <- days_in_year_months.
  pose proof (days_before_month_mono y m 13 ltac:(lia) ltac:(lia) ltac:(lia)).
  assert (0 <= days_before_month y (Z.to_nat m)).
  { destruct (decide (m = 1)) as [-> | Hne]; [reflexivity|].
    pose proof (days_before_month_mono y 1 m ltac:(lia) ltac:(lia) ltac:(lia)).
    pose proof (days_of_month_pos y 1 ltac:(lia)).
    change (days_before_month y (Z.to_nat 1)) with 0 in *. lia. }
  lia.
Qed.

Lemma calc_daynr_valid y m d :
  valid_date y m d -> 1 <= y ->
  calc_daynr y m d = year_start y + days_before_month y (Z.to_nat m) + d.
Proof.
  intros (Hy & Hm & Hd) Hy1.
  pose proof (days_of_month_pos y m Hm).
  rewrite calc_daynr_closed by lia.
  destruct (y =? 0) eqn:E; b2p; [lia | reflexivity].
Qed.

Lemma calc_daynr_inj y m d y' m' d' :
  valid_date y m d -> valid_date y' m' d' -> 1 <= y -> 1 <= y' ->
  calc_daynr y m d = calc_daynr y' m' d' -> y = y' /\ m = m' /\ d = d'.
Proof.
  intros V V' Hy Hy' Heq. rewrite !calc_daynr_valid in Heq by done.
  destruct V as (_ & Hm & Hd), V' as (_ & Hm' & Hd').
  pose proof (day_of_year_bounds y m d Hm Hd).
  pose proof (day_of_year_bounds y' m' d' Hm' Hd').
  assert (y = y') as <-.
  { destruct (Z.lt_trichotomy y y') as [Hlt | [-> | Hlt]]; [|done|];
      [pose proof (year_start_mono y y' Hy Hlt)
      |pose proof (year_start_mono y' y Hy' Hlt)]; lia. }
  assert (m = m') as <-; [|lia].
  destruct (Z.lt_trichotomy m m') as [Hlt | [-> | Hlt]]; [|done|];
    [pose proof (days_before_month_mono y m m' ltac:(lia) Hlt ltac:(lia))
    |pose proof (days_before_month_mono y m' m ltac:(lia) Hlt ltac:(lia))]; lia.
Qed.

Lemma year_loop_correct fuel doy y :
  1 <= y -> 1 <= doy -> doy <= 365 * (Z.of_nat fuel + 1) ->
  y + Z.of_nat fuel < 2 ^ 32 ->
  exists doy' y',
    year_loop fuel doy y = Some (doy', y', calc_days_in_year y') /\
    y <= y' /\ 1 <= doy' <= calc_days_in_year y' /\
    year_start y' + doy' = year_start y + doy.
Proof.
  revert doy y. induction fuel as [|fuel IH]; intros doy y Hy Hd Hf Hw; simpl.
  - destruct (calc_days_in_year_range y) as [E | E];
      (case_if; [lia|]); exists doy, y; repeat split; auto; lia.
  - case_if.
    + rewrite u32_small by lia.
      destruct (calc_days_in_year_range y) as [E | E].
      all: destruct (IH (doy - calc_days_in_year y) (y + 1)) as
             (doy' & y' & -> & Hy' & Hd' & Hs); try lia.
      all: exists doy', y'; rewrite year_start_succ in Hs by lia;
        repeat split; auto; lia.
    + exists doy, y; repeat split; auto; lia.
Qed.

(** The month loop on a day of a common year. *)
Lemma month_loop_correct doy :
  1 <= doy <= 365 ->
  exists m d, month_loop days_in_month doy 1 = Some (m, d) /\
    1 <= m <= 12 /\ 1 <= d <= month_days m /\
    31 * (m - 1) - (if m <=? 2 then 0 else (m * 4 + 23) / 10) + d = doy.
Proof.
  intros Hd. unfold days_in_month. cbn [month_loop].
  repeat (case_if; [|eexists _, _; split; [reflexivity|]; split; [lia|];
    repeat match goal with
    | |- context [month_days ?k] =>
      let v := eval vm_compute in (month_days k) in
      change (month_days k) with v
    end; simpl; zdiv]).
  lia.
Qed.

(** The whole second half: day of the year to month and day. *)
Lemma day_of_year_split y doy :
  1 <= doy <= calc_days_in_year y ->
  exists m d,
    (let '(day_of_year, leap_day) :=
       if (calc_days_in_year y =? 366) && (31 + 28 <? doy)
       then (doy - 1, if doy - 1 =? 31 + 28 then 1 else 0)
       else (doy, 0) in
     match month_loop days_in_month day_of_year 1 with
     | None => None
     | Some (m, d) => Some (y, m, d + leap_day)
     end) = Some (y, m, d) /\
    1 <= m <= 12 /\ 1 <= d <= days_of_month y m /\
    days_before_month y (Z.to_nat m) + d = doy.
Proof.
  intros Hd.
  destruct ((calc_days_in_year y =? 366) && (31 + 28 <? doy)) eqn:E; b2p.
  - destruct (month_loop_correct (doy - 1)) as (m & d & Hml & Hm & Hdm & Hs);
      [lia|].
    rewrite Hml. exists m, (d + if doy - 1 =? 31 + 28 then 1 else 0).
    rewrite days_before_month_closed by lia. unfold days_of_month.
    replace (calc_days_in_year y =? 366) with true by lia.
    split; [reflexivity|]. split; [lia|].
    change (31 + 28) with 59 in *.
    assert (m = 1 \/ m = 2 \/ 3 <= m) as [-> | [-> | Hm3]] by lia.
    + change (month_days 1) with 31 in *. simpl in *. lia.
    + change (month_days 2) with 28 in *. simpl in *.
      destruct (doy - 1 =? 59) eqn:E1; b2p; lia.
    + replace (m <=? 2) with false in * by lia.
      replace (2 <? m) with true by lia. replace (m =? 2) with false by lia.
      cbn [andb].
      assert (59 <= 31 * (m - 1) - (m * 4 + 23) / 10) by zdiv.
      destruct (doy - 1 =? 59) eqn:E1; b2p; lia.
  - destruct (month_loop_correct doy) as (m & d & Hml & Hm & Hdm & Hs).
    { apply andb_false_iff in E. destruct (calc_days_in_year_range y);
        destruct E; b2p; lia. }
    rewrite Hml. exists m, (d + 0). rewrite days_before_month_closed by lia.
    unfold days_of_month.
    split; [reflexivity|]. split; [lia|].
    assert ((2 <? m) && (calc_days_in_year y =? 366) = false) as ->.
    { apply andb_false_iff in E. apply andb_false_iff.
      destruct E as [E | E]; [by right|]. left. b2p.
      destruct (2 <? m) eqn:E2; b2p; [|done].
      destruct (m <=? 2) eqn:E3; b2p; zdiv. }
    split; [|lia]. case_if; lia.
Qed.

Lemma get_date_from_daynr_correct n :
  366 <= n <= MAX_DAY_NUMBER ->
  exists y m d, get_date_from_daynr n = Some (y, m, d) /\
    valid_date y m d /\ 1 <= y /\ calc_daynr y m d = n.
Proof.
  unfold MAX_DAY_NUMBER. intros Hn. unfold get_date_from_daynr.
  destruct ((n <=? 365) || (3652500 <=? n)) eqn:E0.
  { apply orb_true_iff in E0; destruct E0; b2p; lia. }
  clear E0. rewrite Z.quot_div_nonneg by lia.
  set (y0 := n * 100 / 36525).
  assert (1 <= y0 <= 9999) as Hy0 by (subst y0; zdiv).
  rewrite (u32_small y0) by lia.
  assert (1 <= n - year_start y0 <= 365 * 3) as Hdoy.
  { unfold year_start; subst y0; zdiv. }
  assert (u32 (u32 (n - y0 * 365) - (y0 - 1) / 4 + ((y0 - 1) / 100 + 1) * 3 / 4)
          = n - year_start y0) as ->.
  { rewrite (u32_small (n - y0 * 365)) by (subst y0; zdiv).
    rewrite u32_small; unfold year_start in *; lia. }
  set (doy := n - year_start y0) in *.
  destruct (year_loop_correct (S (Z.to_nat (doy / 365))) doy y0)
    as (doy' & y' & Hyl & Hyy & Hd' & Hs); [lia|lia|zdiv|zdiv|].
  rewrite Hyl.
  destruct (day_of_year_split y' doy' Hd') as (m & d & Hsp & Hm & Hdm & Hsum).
  rewrite Hsp. exists y', m, d.
  assert (y' <= 9999).
  { destruct (Z.leb_spec y' 9999); [done|].
    assert (year_start 9999 + calc_days_in_year 9999 = 3652424) as E9999
      by reflexivity.
    pose proof (year_start_mono 9999 y' ltac:(lia) ltac:(lia)). lia. }
  assert (valid_date y' m d) as V by (unfold valid_date; lia).
  split; [done|]. split; [done|]. split; [lia|].
  rewrite calc_daynr_valid by (done || lia). lia.
Qed.

(** C33.  get_date_from_daynr and calc_daynr are inverse: every day number
    from 0001-01-01 (366) to 9999-12-31 (3652424) is turned into a valid date
    that calc_daynr maps back to it, without the loops running off their
    bounds, and the day number of every valid date of the years 1..9999 is
    turned back into that date. *)
Theorem daynr_roundtrip :
  (forall n, 366 <= n <= MAX_DAY_NUMBER ->
     exists y m d, get_date_from_daynr n = Some (y, m, d) /\
       valid_date y m d /\ calc_daynr y m d = n) /\
  (forall y m d, valid_date y m d -> 1 <= y ->
     get_date_from_daynr (calc_daynr y m d) = Some (y, m, d)).
Proof.
  split.
  - intros n Hn. destruct (get_date_from_daynr_correct n Hn) as
      (y & m & d & H1 & H2 & _ & H3). by exists y, m, d.
  - intros y m d V Hy.
    assert (366 <= calc_daynr y m d <= MAX_DAY_NUMBER) as Hr.
    { rewrite calc_daynr_valid by done. destruct V as (Hy2 & Hm & Hd).
      pose proof (day_of_year_bounds y m d Hm Hd).
      assert (365 <= year_start y).
      { destruct (decide (y = 1)) as [-> | ]; [done|].
        pose proof (year_start_mono 1 y ltac:(lia) ltac:(lia)).
        change (year_start 1) with 365 in *.
        destruct (calc_days_in_year_range 1); lia. }
      assert (year_start y + calc_days_in_year y <= MAX_DAY_NUMBER).
      { change MAX_DAY_NUMBER with (year_start 10000).
        apply year_start_mono; lia. }
      lia. }
    destruct (get_date_from_daynr_correct _ Hr) as (y' & m' & d' & -> & V' & Hy' & He).
    destruct (calc_daynr_inj y' m' d' y m d) as (-> & -> & ->); auto.
Qed.

(** *** The YYYYMMDDHHMMSS integer form *)

Definition in_datetime_range (t : MYSQL_TIME) : Prop :=
  0 <= year t <= 9999 /\ 0 <= month t <= 12 /\ 0 <= day t <= 31 /\
  0 <= hour t <= 23 /\ 0 <= minute t <= 59 /\ 0 <= second t <= 59.

Lemma TIME_to_ulonglong_datetime_small t :
  in_datetime_range t ->
  TIME_to_ulonglong_datetime t =
  (year t * 10000 + month t * 100 + day t) * 1000000 +
  (hour t * 10000 + minute t * 100 + second t).
Proof.
  intros (? & ? & ? & ? & ? & ?). unfold TIME_to_ulonglong_datetime. by nowrap.
Qed.

Lemma number_format_range nr flags k n :
  number_format nr flags = (k, Some n) -> nr < 2 ^ 63 -> 0 <= n < 2 ^ 63.
Proof.
  unfold number_format, YY_PART_YEAR. intros H Hnr.
  repeat match type of H with
  | context [if ?b then _ else _] => destruct b eqn:?
  end; simplify_eq; b2p; lia.
Qed.

(** The digits of a nonnegative number, as the code splits them. *)
Lemma split_digits n :
  0 <= n ->
  let part1 := n ÷ 1000000 in
  let part2 := n - part1 * 1000000 in
  0 <= part1 ÷ 10000 <= n /\
  0 <= Z.rem part1 10000 ÷ 100 /\ 0 <= Z.rem (Z.rem part1 10000) 100 /\
  0 <= part2 ÷ 10000 /\
  0 <= Z.rem part2 10000 ÷ 100 /\ 0 <= Z.rem (Z.rem part2 10000) 100 /\
  (part1 ÷ 10000 * 10000 + Z.rem part1 10000 ÷ 100 * 100 +
   Z.rem (Z.rem part1 10000) 100) * 1000000 +
  (part2 ÷ 10000 * 10000 + Z.rem part2 10000 ÷ 100 * 100 +
   Z.rem (Z.rem part2 10000) 100) = n.
Proof.
  intros Hn part1 part2. subst part1 part2.
  assert (0 <= n ÷ 1000000 /\ 0 <= n - n ÷ 1000000 * 1000000) by zquot.
  repeat split; zquot.
Qed.

Lemma check_date_was_cut t nz flags w b w' :
  check_date t nz flags w = (b, w') ->
  (b = false -> w' = w) /\ (nz = false -> w' = w).
Proof.
  unfold check_date. intros H. repeat case_match; simplify_eq; split; congruence.
Qed.

(** number_to_datetime accepts only real datetimes: whatever the number,
    when the result is not the error value -1 it is the YYYYMMDDHHMMSS form of
    the broken-down time, every member of which is in range and passes
    check_date, and nothing was cut. *)
Theorem number_to_datetime_sound nr flags r t w :
  nr < 2 ^ 63 ->
  number_to_datetime nr flags = (r, t, w) -> r <> -1 ->
  in_datetime_range t /\ TIME_to_ulonglong_datetime t = r /\ w = 0 /\
  fst (check_date t (negb (r =? 0)) flags 0) = false.
Proof.
  intros Hnr H Hr. unfold number_to_datetime in H.
  destruct (number_format nr flags) as [k [n|]] eqn:Ef; [|by simplify_eq].
  apply number_format_range in Ef; [|done].
  destruct (split_digits n) as (Hy & Hm & Hd & Hh & Hi & Hs & Hsum); [lia|].
  cbv zeta in H. cbn [year month day hour minute second] in H.
  match type of H with
  | (if ?b then _ else _) = _ => destruct b eqn:Eb
  end; [|case_match; simplify_eq].
  destruct (check_date _ _ _ _) as [bad wc] eqn:Ec.
  destruct bad; simpl in H; [case_match; simplify_eq|].
  injection H as <- <- <-. b2p.
  destruct (Z.leb_spec (2 ^ 32) (n ÷ 1000000 ÷ 10000)) as [Hbig | Hsmall].
  { exfalso. clear - Ef Hbig. zquot. }
  rewrite u32_small in * by lia.
  match goal with |- in_datetime_range ?t /\ _ => set (t0 := t) in * end.
  assert (in_datetime_range t0) as Hrange.
  { unfold in_datetime_range; subst t0; cbn [year month day hour minute second].
    lia. }
  split; [done|]. rewrite TIME_to_ulonglong_datetime_small by done.
  subst t0; cbn [year month day hour minute second] in *. split; [done|].
  rewrite Ec. split; [|done]. by apply check_date_was_cut in Ec as [-> _].
Qed.

Lemma number_to_datetime_sound_witness :
  let t := mk_time 2009 12 31 23 59 58 0 false MYSQL_TIMESTAMP_DATETIME in
  in_datetime_range t /\ TIME_to_ulonglong_datetime t = 20091231235958 /\
  0 = 0 /\
  fst (check_date t (negb (20091231235958 =? 0)) TIME_NO_ZERO_DATE 0) = false.
Proof.
  apply (number_to_datetime_sound 91231235958 TIME_NO_ZERO_DATE);
    [reflexivity | reflexivity | discriminate].
Defined.

(** The integer form of a datetime is read back: for every in-range time
    from year 1000 on with a positive month and day that check_date accepts,
    number_to_datetime maps the integer to the same calendar members. *)
Theorem number_to_datetime_complete t flags :
  in_datetime_range t -> 1000 <= year t -> 1 <= month t -> 1 <= day t ->
  (forall k, fst (check_date (mk_time (year t) (month t) (day t) (hour t)
                    (minute t) (second t) 0 false k) true flags 0) = false) ->
  number_to_datetime (TIME_to_ulonglong_datetime t) flags =
  (TIME_to_ulonglong_datetime t,
   mk_time (year t) (month t) (day t) (hour t) (minute t) (second t) 0 false
           MYSQL_TIMESTAMP_DATETIME, 0).
Proof.
  intros Hr Hy Hm Hd Hc. rewrite TIME_to_ulonglong_datetime_small by done.
  destruct Hr as (? & ? & ? & ? & ? & ?).
  set (n := (_ + _ + _) * 1000000 + _).
  assert (10000101000000 <= n) by (subst n; lia).
  unfold number_to_datetime, number_format.
  replace (10000101000000 <=? n) with true by lia. rewrite orb_true_r.
  cbv zeta. cbn [year month day hour minute second].
  assert (n ÷ 1000000 = year t * 10000 + month t * 100 + day t) as Hp1
    by (subst n; zquot).
  rewrite Hp1.
  assert (n - (year t * 10000 + month t * 100 + day t) * 1000000 =
          hour t * 10000 + minute t * 100 + second t) as -> by (subst n; lia).
  assert ((year t * 10000 + month t * 100 + day t) ÷ 10000 = year t) as ->
    by zquot.
  assert (Z.rem (year t * 10000 + month t * 100 + day t) 10000 =
          month t * 100 + day t) as -> by zquot.
  assert ((month t * 100 + day t) ÷ 100 = month t) as -> by zquot.
  assert (Z.rem (month t * 100 + day t) 100 = day t) as -> by zquot.
  assert ((hour t * 10000 + minute t * 100 + second t) ÷ 10000 = hour t) as ->
    by zquot.
  assert (Z.rem (hour t * 10000 + minute t * 100 + second t) 10000 =
          minute t * 100 + second t) as -> by zquot.
  assert ((minute t * 100 + second t) ÷ 100 = minute t) as -> by zquot.
  assert (Z.rem (minute t * 100 + second t) 100 = second t) as -> by zquot.
  rewrite u32_small by lia.
  replace (year t <=? 9999) with true by lia.
  replace (month t <=? 12) with true by lia.
  replace (day t <=? 31) with true by lia.
  replace (hour t <=? 23) with true by lia.
  replace (minute t <=? 59) with true by lia.
  replace (second t <=? 59) with true by lia. cbn [andb].
  replace (n =? 0) with false by lia. cbn [negb].
  specialize (Hc MYSQL_TIMESTAMP_DATETIME). revert Hc. unfold check_date at 1 2.
  case_if; [discriminate|]. reflexivity.
Qed.

Lemma number_to_datetime_complete_witness :
  number_to_datetime 20000229235959 0 =
  (20000229235959,
   mk_time 2000 2 29 23 59 59 0 false MYSQL_TIMESTAMP_DATETIME, 0).
Proof.
  apply (number_to_datetime_complete
           (mk_time 2000 2 29 23 59 59 0 false MYSQL_TIMESTAMP_DATETIME) 0);
    [repeat split; discriminate | discriminate | discriminate | discriminate |].
  intros k; reflexivity.
Defined.

(** The code's answer for an invalid date is [was_cut = 1]: the value 2
    that the comment above number_to_datetime announces for a date rejected by
    check_date is never returned, whatever the input. *)
Theorem number_to_datetime_was_cut nr flags :
  (number_to_datetime nr flags).2 = 0 \/ (number_to_datetime nr flags).2 = 1.
Proof.
  unfold number_to_datetime.
  destruct (number_format nr flags) as [k [n|]]; [|by right].
  cbv zeta. case_if; [|case_if; simpl; auto].
  destruct (check_date _ _ _ _) as [bad wc] eqn:Ec.
  apply check_date_was_cut in Ec as [Hok Hzero].
  destruct bad; simpl; [case_if; simpl; auto | auto].
  b2p. left. apply Hzero. lia.
Qed.

(** *** The TIME range *)

(** check_time_range keeps a TIME value inside 838:59:59 and changes
    nothing that already lies inside, as long as the day count is small enough
    for [24*day] not to leave 32 bits; a minute or second of 60 or more is
    the only error. *)
Theorem check_time_range_correct t w rc t' w' :
  0 <= day t < 2 ^ 26 -> 0 <= hour t < 2 ^ 31 ->
  0 <= minute t -> 0 <= second t -> 0 <= second_part t ->
  check_time_range t w = (rc, t', w') ->
  (rc = 1 <-> 60 <= minute t \/ 60 <= second t) /\
  (rc <> 1 -> rc = 0 /\
     let secs u := ((day u * 24 + hour u) * 60 + minute u) * 60 + second u in
     let cap := (838 * 60 + 59) * 60 + 59 in
     (secs t < cap \/ (secs t = cap /\ second_part t = 0) -> t' = t /\ w' = w) /\
     (secs t > cap \/ (secs t = cap /\ 0 < second_part t) ->
        secs t' = cap /\ second_part t' = 0 /\
        w' = w .| MYSQL_TIME_WARN_OUT_OF_RANGE)).
Proof.
  unfold check_time_range, TIME_MAX_HOUR, TIME_MAX_MINUTE, TIME_MAX_SECOND.
  intros Hd Hh Hm Hs Hp H.
  destruct ((60 <=? minute t) || (60 <=? second t)) eqn:E.
  { injection H as <- <- <-. apply orb_true_iff in E.
    split; [|lia]. split; [|done]. intros _. destruct E; b2p; auto. }
  b2p. revert H. nowrap. intros H.
  destruct (_ && _) eqn:E2 in H; injection H as <- <- <-;
    (split; [lia|]); intros _; (split; [done|]); cbv zeta; simpl.
  - b2p. split; [done|]. intros Hbig. exfalso.
    repeat match goal with H : (_ || _)%bool = true |- _ =>
      apply orb_true_iff in H; destruct H end; b2p; lia.
  - split; [|intros; lia]. intros Hsmall. exfalso.
    apply andb_false_iff in E2. destruct E2; b2p; lia.
Qed.

Lemma check_time_range_correct_witness :
  (0 = 1 <-> 60 <= 0 \/ 60 <= 0) /\
  (0 <> 1 -> 0 = 0 /\
     let t := mk_time 0 0 35 0 0 0 1 false MYSQL_TIMESTAMP_TIME in
     let t' := mk_time 0 0 0 838 59 59 0 false MYSQL_TIMESTAMP_TIME in
     let secs u := ((day u * 24 + hour u) * 60 + minute u) * 60 + second u in
     let cap := (838 * 60 + 59) * 60 + 59 in
     (secs t < cap \/ (secs t = cap /\ second_part t = 0) -> t' = t /\ 2 = 0) /\
     (secs t > cap \/ (secs t = cap /\ 0 < second_part t) ->
        secs t' = cap /\ second_part t' = 0 /\
        2 = 0 .| MYSQL_TIME_WARN_OUT_OF_RANGE)).
Proof.
  apply (check_time_range_correct
           (mk_time 0 0 35 0 0 0 1 false MYSQL_TIMESTAMP_TIME) 0);
    simpl; try lia; reflexivity.
Defined.

(** The range check of check_time_range is defeated by the 32 bit
    product [24*my_time->day]: a TIME of 178956971 days is far outside
    838:59:59 but is accepted unchanged and without a warning. *)
Theorem check_time_range_wraps :
  let t := mk_time 0 0 178956971 0 0 0 0 false MYSQL_TIMESTAMP_TIME in
  24 * day t + hour t > TIME_MAX_HOUR /\ check_time_range t 0 = (0, t, 0).
Proof. split; reflexivity. Qed.

(** *** Interval addition *)

(** A normalized point in time and its distance from 0000-00-00 in
    microseconds. *)
Definition valid_datetime (t : MYSQL_TIME) : Prop :=
  valid_date (year t) (month t) (day t) /\
  0 <= hour t <= 23 /\ 0 <= minute t <= 59 /\ 0 <= second t <= 59 /\
  0 <= second_part t < 1000000.

Definition instant (t : MYSQL_TIME) : Z :=
  (calc_daynr (year t) (month t) (day t) * 86400 +
   hour t * 3600 + minute t * 60 + second t) * 1000000 + second_part t.

(** The length of the day-time part of an interval, and the intervals whose
    length is computed without leaving 64 bits. *)
Definition interval_sign (i : INTERVAL) : Z := if i_neg i then -1 else 1.

Definition interval_seconds (i : INTERVAL) : Z :=
  i_day i * 86400 + i_hour i * 3600 + i_minute i * 60 + i_second i.

Definition interval_small (i : INTERVAL) : Prop :=
  0 <= i_year i < 2 ^ 31 /\ 0 <= i_month i < 2 ^ 31 /\
  0 <= i_day i < 2 ^ 40 /\ 0 <= i_hour i < 2 ^ 40 /\
  0 <= i_minute i < 2 ^ 50 /\ 0 <= i_second i < 2 ^ 60 /\
  0 <= i_second_part i < 2 ^ 60.

(** The day-time part, for which the sums stay in 64 bits: the fields are what
    the unsigned members hold, and the whole is below 2^62 seconds. *)
Definition interval_fits (i : INTERVAL) : Prop :=
  0 <= i_day i /\ 0 <= i_hour i /\ 0 <= i_minute i /\ 0 <= i_second i /\
  interval_seconds i < 2 ^ 62 /\ 0 <= i_second_part i < 2 ^ 62.

(** [int_type] is one of the labels of the day-time branch. *)
Definition is_day_time (k : interval_type) : bool :=
  match k with
  | INTERVAL_YEAR | INTERVAL_QUARTER | INTERVAL_MONTH | INTERVAL_WEEK
  | INTERVAL_DAY | INTERVAL_YEAR_MONTH | INTERVAL_LAST => false
  | _ => true
  end.

(** The fix-up after C's truncating division gives the floor division. *)
Lemma floor_fixup a b :
  0 < b ->
  (if Z.rem a b <? 0 then (Z.rem a b + b, a ÷ b - 1) else (Z.rem a b, a ÷ b)) =
  (a mod b, a / b).
Proof.
  intros Hb. pose proof (Z.quot_rem' a b). pose proof (Z.rem_bound_abs a b).
  case_if; f_equal.
  - apply (Z.mod_unique_pos _ _ (a ÷ b - 1)); lia.
  - apply (Z.div_unique_pos _ _ _ (Z.rem a b + b)); lia.
  - apply (Z.mod_unique_pos _ _ (a ÷ b)); lia.
  - apply (Z.div_unique_pos _ _ _ (Z.rem a b)); lia.
Qed.

(** The two steps of add_seconds that use it. *)
Lemma micro_fixup us sec :
  (if Z.rem us 1000000 <? 0
   then (Z.rem us 1000000 + 1000000, sec + us ÷ 1000000 - 1)
   else (Z.rem us 1000000, sec + us ÷ 1000000)) =
  (us mod 1000000, sec + us / 1000000).
Proof.
  pose proof (floor_fixup us 1000000 ltac:(lia)) as Hf.
  destruct (_ <? 0); injection Hf as <- <-; f_equal; lia.
Qed.

Lemma day_fixup sec :
  (if sec - sec ÷ 86400 * 3600 * 24 <? 0
   then (sec ÷ 86400 - 1, sec - sec ÷ 86400 * 3600 * 24 + 86400)
   else (sec ÷ 86400, sec - sec ÷ 86400 * 3600 * 24)) =
  (sec / 86400, sec mod 86400).
Proof.
  replace (sec - sec ÷ 86400 * 3600 * 24) with (Z.rem sec 86400)
    by (pose proof (Z.quot_rem' sec 86400); lia).
  pose proof (floor_fixup sec 86400 ltac:(lia)) as Hf.
  destruct (_ <? 0); injection Hf as <- <-; reflexivity.
Qed.

(** The unsigned comparison rejects negative day numbers too. *)
Lemma overflow_test dn :
  - 2 ^ 63 <= dn < 2 ^ 63 ->
  (MAX_DAY_NUMBER <? u64 dn) = negb ((0 <=? dn) && (dn <=? MAX_DAY_NUMBER)).
Proof.
  intros Hw. unfold MAX_DAY_NUMBER, u64.
  destruct (0 <=? dn) eqn:E0; b2p; cbn [andb negb].
  - rewrite Z.mod_small by lia. lia.
  - assert (dn mod 2 ^ 64 = dn + 2 ^ 64) as ->.
    { symmetry; apply (Z.mod_unique_pos _ _ (-1)); lia. }
    lia.
Qed.

Lemma calc_daynr_day1 y m d :
  0 <= y <= 9999 -> 1 <= m <= 12 -> 0 <= d <= 31 ->
  calc_daynr y m d = calc_daynr y m 1 + (d - 1).
Proof. intros. rewrite !calc_daynr_closed by lia. lia. Qed.

Lemma calc_daynr_range y m d :
  valid_date y m d -> 1 <= calc_daynr y m d <= MAX_DAY_NUMBER.
Proof.
  intros (Hy & Hm & Hd). pose proof (days_of_month_pos y m Hm).
  rewrite calc_daynr_closed by lia.
  pose proof (day_of_year_bounds y m d Hm Hd).
  destruct (y =? 0) eqn:E; b2p.
  - unfold MAX_DAY_NUMBER. destruct (calc_days_in_year_range y); lia.
  - assert (0 <= year_start y).
    { destruct (decide (y = 1)) as [-> | ]; [done|].
      pose proof (year_start_mono 1 y ltac:(lia) ltac:(lia)).
      change (year_start 1) with 365 in *.
      destruct (calc_days_in_year_range 1); lia. }
    assert (year_start y + calc_days_in_year y <= MAX_DAY_NUMBER).
    { change MAX_DAY_NUMBER with (year_start 10000).
      apply year_start_mono; lia. }
    lia.
Qed.

(** The members the day-time branch computes, as floor divisions of the
    instant that is meant. *)
Lemma add_seconds_closed t i :
  valid_datetime t -> interval_fits i ->
  let u := instant t + interval_sign i *
             (interval_seconds i * 1000000 + i_second_part i) in
  let dn := u / 1000000 / 86400 in
  let s := (u / 1000000) mod 86400 in
  let t1 := mk_time (year t) (month t) (day t) (s / 3600) (s / 60 mod 60)
                    (s mod 60) (u mod 1000000) (neg t)
                    MYSQL_TIMESTAMP_DATETIME in
  add_seconds t (interval_sign i) i =
  if (0 <=? dn) && (dn <=? MAX_DAY_NUMBER) then
    match get_date_from_daynr dn with
    | None => None
    | Some (y, m, d) => Some (AddOk (with_date t1 y m d))
    end
  else Some (AddOverflow t1).
Proof.
  intros (Vd & Hh & Hmi & Hs & Hsp) (Hid & Hih & Him & His & Hit & Hip).
  cbv zeta.
  set (sg := interval_sign i).
  assert (sg = 1 \/ sg = -1) as Hsg
    by (subst sg; unfold interval_sign; case_if; auto).
  pose proof (calc_daynr_range _ _ _ Vd) as Hdn. unfold MAX_DAY_NUMBER in Hdn.
  destruct Vd as (Hy & Hm & Hd). pose proof (days_of_month_pos (year t) _ Hm).
  unfold instant. rewrite (calc_daynr_day1 (year t) (month t) (day t)) in * by lia.
  set (d1 := calc_daynr (year t) (month t) 1) in *.
  unfold add_seconds.
  assert (interval_seconds i * 1 = i_day i * 3600 * 24 + i_hour i * 3600 +
          i_minute i * 60 + i_second i) as HI by (unfold interval_seconds; lia).
  rewrite <- HI. assert (0 <= interval_seconds i < 2 ^ 62) as HIb by lia. clear HI.
  rewrite Z.mul_1_r. set (IS := interval_seconds i) in *. clearbody IS.
  set (ip := i_second_part i) in *. clearbody ip.
  rewrite (u64_small IS) by lia. rewrite (s64_small IS) by lia.
  rewrite (u32_small (day t - 1)) by lia.
  rewrite (u32_small ((day t - 1) * 3600)) by lia.
  rewrite (u32_small (hour t * 3600)), (u32_small (minute t * 60)) by lia.
  rewrite (s64_small (second_part t + sg * ip)) by nia.
  set (us := second_part t + sg * ip) in *.
  assert (- 2 ^ 62 <= us <= 2 ^ 62 + 1000000) as Hus by (subst us; nia).
  set (S0 := (day t - 1) * 3600 * 24 + hour t * 3600 + minute t * 60 +
             second t + sg * IS).
  assert (- 2 ^ 62 <= S0 <= 2 ^ 62 + 31 * 86400) as HS0 by (subst S0; nia).
  set (U := (_ + second_part t) + sg * _).
  assert (U = (d1 * 86400 + S0) * 1000000 + us) as HU
    by (subst U S0 us; ring).
  clearbody U us S0. clear Hid Hih Him His Hit Hip.
  rewrite (s64_small (S0 + us ÷ 1000000)) by zquot.
  rewrite micro_fixup. set (S1 := S0 + us / 1000000).
  change (3600 * 24) with 86400. rewrite day_fixup. cbn [year month].
  assert (U / 1000000 = d1 * 86400 + S1) as HU1 by (subst S1; zdiv).
  assert (U mod 1000000 = us mod 1000000) as -> by zdiv.
  rewrite HU1. fold d1.
  replace ((d1 * 86400 + S1) / 86400) with (d1 + S1 / 86400) by zdiv.
  replace ((d1 * 86400 + S1) mod 86400) with (S1 mod 86400) by zdiv.
  set (s1 := S1 mod 86400).
  assert (0 <= s1 < 86400) as Hs1 by (subst s1; zdiv).
  rewrite !Z.quot_div_nonneg, !Z.rem_mod_nonneg by (try apply Z.div_pos; lia).
  rewrite (u32_small (s1 / 3600)), (u32_small (s1 / 60 mod 60)),
    (u32_small (s1 mod 60)), (u32_small (us mod 1000000)) by zdiv.
  assert (- 2 ^ 63 <= d1 + S1 / 86400 < 2 ^ 63) as Hw by (subst S1; zdiv).
  rewrite overflow_test by done.
  destruct ((0 <=? d1 + S1 / 86400) && _); reflexivity.
Qed.

Lemma valid_date_zero_daynr dn :
  0 <= dn <= 365 -> get_date_from_daynr dn = Some (0, 0, 0).
Proof.
  intros H. unfold get_date_from_daynr.
  by replace (dn <=? 365) with true by lia.
Qed.

(** C34.  Adding a day-time interval (SECOND .. DAY_HOUR) of less than 2^62
    seconds and less than 2^62 microseconds to a valid datetime of the years 0
    to 9999 moves the instant by exactly the interval, in microseconds, and gives
    a valid datetime again; when the exact result is not a day of the years
    1..9999 the code reports the overflow (outside day numbers 0..3652424) or
    yields the zero date (inside year 0).  It never runs out of its loops. *)
Theorem date_add_interval_instant t k i :
  valid_datetime t -> interval_fits i -> is_day_time k = true ->
  let u := instant t + interval_sign i *
             (interval_seconds i * 1000000 + i_second_part i) in
  let dn := u / 1000000 / 86400 in
  exists t',
    (366 <= dn <= MAX_DAY_NUMBER ->
       date_add_interval t k i = Some (AddOk t') /\
       valid_datetime t' /\ 1 <= year t' /\ instant t' = u) /\
    (0 <= dn < 366 ->
       date_add_interval t k i = Some (AddOk t') /\
       (year t', month t', day t') = (0, 0, 0)) /\
    (dn < 0 \/ MAX_DAY_NUMBER < dn ->
       date_add_interval t k i = Some (AddOverflow t')).
Proof.
  intros V I K. cbv zeta.
  assert (date_add_interval t k i =
          add_seconds (with_neg t false) (interval_sign i) i) as ->
    by (destruct k; try discriminate; reflexivity).
  rewrite add_seconds_closed by done. cbv zeta.
  change (instant (with_neg t false)) with (instant t).
  set (u := instant t + _). set (dn := u / 1000000 / 86400).
  assert (MAX_DAY_NUMBER = 3652424) as HM by reflexivity.
  destruct (Z.leb_spec 0 dn); [|eexists; repeat split; intros;
    try lia; reflexivity].
  destruct (Z.leb_spec dn MAX_DAY_NUMBER); [|eexists; repeat split; intros;
    try lia; reflexivity]. cbn [andb].
  destruct (Z.leb_spec 366 dn).
  - destruct (get_date_from_daynr_correct dn) as (y & m & d & -> & V' & Hy & Hd);
      [lia|].
    eexists. split; [|split; intros; [lia|lia]]. intros _.
    split; [reflexivity|].
    unfold valid_datetime, instant; simpl; rewrite Hd.
    split; [|split; [done|subst dn; clearbody u; zdiv]].
    split; [done|]. clear. clearbody u.
    generalize (u / 1000000). intros v. zdiv.
  - rewrite valid_date_zero_daynr by lia. eexists. split; [lia|].
    split; [|lia]. intros _. split; reflexivity.
Qed.

Lemma date_add_interval_instant_witness :
  let t := mk_time 1999 12 31 23 59 59 999999 false MYSQL_TIMESTAMP_DATETIME in
  let i := mk_interval 0 0 0 0 0 0 1 false in
  exists t',
    (366 <= 730485 <= MAX_DAY_NUMBER ->
       date_add_interval t INTERVAL_MICROSECOND i = Some (AddOk t') /\
       valid_datetime t' /\ 1 <= year t' /\ instant t' = 63113904000000000) /\
    (0 <= 730485 < 366 ->
       date_add_interval t INTERVAL_MICROSECOND i = Some (AddOk t') /\
       (year t', month t', day t') = (0, 0, 0)) /\
    (730485 < 0 \/ MAX_DAY_NUMBER < 730485 ->
       date_add_interval t INTERVAL_MICROSECOND i = Some (AddOverflow t')).
Proof.
  apply (date_add_interval_instant
           (mk_time 1999 12 31 23 59 59 999999 false MYSQL_TIMESTAMP_DATETIME)
           INTERVAL_MICROSECOND (mk_interval 0 0 0 0 0 0 1 false));
    [ repeat split; discriminate | repeat split; discriminate | reflexivity ].
Defined.

(** The bound is needed: the product of the hours is computed in 64 bits and
    nothing checks it.  An interval of 2^60 hours, which get_interval_value
    passes on as it is, adds nothing, without an error. *)
Example date_add_interval_wraps :
  let t := mk_time 1999 12 31 23 59 59 0 false MYSQL_TIMESTAMP_DATETIME in
  let i := mk_interval 0 0 0 (2 ^ 60) 0 0 0 false in
  MAX_DAY_NUMBER < (instant t + interval_seconds i * 1000000) / 1000000 / 86400 /\
  date_add_interval t INTERVAL_HOUR i = Some (AddOk t).
Proof. split; reflexivity. Qed.

(** Adding DAY or WEEK intervals to a valid date is addition of day
    numbers, and the overflow is reported exactly when the sum leaves
    0..3652424. *)
Theorem date_add_interval_days t k i :
  valid_date (year t) (month t) (day t) -> interval_small i ->
  k = INTERVAL_DAY \/ k = INTERVAL_WEEK ->
  let dn := calc_daynr (year t) (month t) (day t) +
            interval_sign i * i_day i in
  (366 <= dn <= MAX_DAY_NUMBER ->
     exists y m d, date_add_interval t k i =
       Some (AddOk (with_date (with_neg t false) y m d)) /\
       valid_date y m d /\ calc_daynr y m d = dn) /\
  (dn < 0 \/ MAX_DAY_NUMBER < dn ->
     date_add_interval t k i = Some (AddOverflow (with_neg t false))).
Proof.
  intros V (_ & _ & Hd & _) Hk. cbv zeta.
  pose proof (calc_daynr_range _ _ _ V) as Hr.
  assert (MAX_DAY_NUMBER = 3652424) as HM by reflexivity.
  assert (interval_sign i = 1 \/ interval_sign i = -1) as Hsg
    by (unfold interval_sign; case_if; auto).
  assert (date_add_interval t k i =
          add_days (with_neg t false) (interval_sign i) i) as ->
    by (destruct Hk as [-> | ->]; reflexivity).
  unfold add_days. cbn [year month day with_neg].
  set (dn := calc_daynr _ _ _ + _) in *.
  assert (- 2 ^ 62 <= dn <= 2 ^ 62) as Hdn by (subst dn; nia).
  rewrite s64_small, overflow_test by lia.
  split; intros Hc.
  - replace (0 <=? dn) with true by lia.
    replace (dn <=? MAX_DAY_NUMBER) with true by lia. cbn [andb negb].
    destruct (get_date_from_daynr_correct dn Hc) as (y & m & d & -> & ? & ? & ?).
    by exists y, m, d.
  - replace ((0 <=? dn) && (dn <=? MAX_DAY_NUMBER)) with false by lia.
    reflexivity.
Qed.

Lemma date_add_interval_days_witness :
  let t := mk_time 2000 2 28 0 0 0 0 false MYSQL_TIMESTAMP_DATE in
  let i := mk_interval 0 0 2 0 0 0 0 false in
  (366 <= 730545 <= MAX_DAY_NUMBER ->
     exists y m d, date_add_interval t INTERVAL_DAY i =
       Some (AddOk (with_date (with_neg t false) y m d)) /\
       valid_date y m d /\ calc_daynr y m d = 730545) /\
  (730545 < 0 \/ MAX_DAY_NUMBER < 730545 ->
     date_add_interval t INTERVAL_DAY i =
     Some (AddOverflow (with_neg t false))).
Proof.
  apply (date_add_interval_days
           (mk_time 2000 2 28 0 0 0 0 false MYSQL_TIMESTAMP_DATE)
           INTERVAL_DAY (mk_interval 0 0 2 0 0 0 0 false));
    [ repeat split; discriminate | repeat split; discriminate | by left ].
Defined.

Lemma days_of_month_cases y m :
  days_of_month y m = month_days m \/
  (m = 2 /\ calc_days_in_year y = 366 /\ days_of_month y m = month_days m + 1).
Proof.
  unfold days_of_month. destruct ((m =? 2) && _) eqn:E; b2p; [right|left]; lia.
Qed.

(** Adding MONTH, QUARTER or YEAR_MONTH intervals to a valid date moves
    the month count by the interval and clamps the day to the length of the
    target month, so the result is a valid date; the overflow is reported
    exactly when the target leaves the years 0..9999. *)
Theorem date_add_interval_months t k i :
  valid_date (year t) (month t) (day t) -> interval_small i ->
  k = INTERVAL_MONTH \/ k = INTERVAL_QUARTER \/ k = INTERVAL_YEAR_MONTH ->
  let mc := year t * 12 + month t - 1 +
            interval_sign i * (i_year i * 12 + i_month i) in
  let y := mc / 12 in
  let m := mc mod 12 + 1 in
  if (0 <=? mc) && (mc <? 120000) then
    date_add_interval t k i =
      Some (AddOk (with_date (with_neg t false) y m
                     (Z.min (day t) (days_of_month y m)))) /\
    valid_date y m (Z.min (day t) (days_of_month y m))
  else date_add_interval t k i = Some (AddOverflow (with_neg t false)).
Proof.
  intros (Hy & Hm & Hd) (Hiy & Him & _) Hk mc y m.
  assert (interval_sign i = 1 \/ interval_sign i = -1) as Hsg
    by (unfold interval_sign; case_if; auto).
  assert (date_add_interval t k i =
          add_months (with_neg t false) (interval_sign i) i) as ->
    by (destruct Hk as [-> | [-> | ->]]; reflexivity).
  unfold add_months. cbn [year month day with_neg].
  rewrite (u32_small (year t * 12)) by lia.
  replace (year t * 12 + interval_sign i * i_year i * 12 + month t - 1 +
           interval_sign i * i_month i) with mc by (subst mc; ring).
  assert (- 2 ^ 40 <= mc <= 2 ^ 40) as Hmc by (subst mc; nia).
  rewrite s64_small by lia.
  destruct ((0 <=? mc) && (mc <? 120000)) eqn:E; b2p.
  - rewrite u64_small by lia. replace (120000 <=? mc) with false by lia.
    rewrite Z.quot_div_nonneg, Z.rem_mod_nonneg by lia. fold y m.
    assert (0 <= y <= 9999 /\ 1 <= m <= 12) as [Hy' Hm'] by (subst y m; zdiv).
    pose proof (days_of_month_pos y m Hm').
    split; [|unfold valid_date; lia]. do 3 f_equal.
    destruct (days_of_month_cases y m) as [E | (-> & E & E')].
    + assert ((m =? 2) && (calc_days_in_year y =? 366) = false) as ->.
      { unfold days_of_month in E. destruct (_ && _); [lia | done]. }
      rewrite E. case_if; lia.
    + rewrite E' in *. change (month_days 2) with 28 in *. rewrite E. simpl.
      case_if; lia.
  - apply andb_false_iff in E.
    assert ((120000 <=? u64 mc) = true) as ->; [|done]. unfold u64.
    destruct (Z.leb_spec 0 mc); [rewrite Z.mod_small by lia; destruct E; b2p; lia|].
    assert (mc mod 2 ^ 64 = mc + 2 ^ 64) as ->; [|lia].
    symmetry; apply (Z.mod_unique_pos _ _ (-1)); lia.
Qed.

Lemma date_add_interval_months_witness :
  date_add_interval (mk_time 2000 1 31 0 0 0 0 false MYSQL_TIMESTAMP_DATE)
    INTERVAL_MONTH (mk_interval 0 1 0 0 0 0 0 false) =
  Some (AddOk (mk_time 2000 2 29 0 0 0 0 false MYSQL_TIMESTAMP_DATE)) /\
  valid_date 2000 2 29.
Proof.
  apply (date_add_interval_months
           (mk_time 2000 1 31 0 0 0 0 false MYSQL_TIMESTAMP_DATE)
           INTERVAL_MONTH (mk_interval 0 1 0 0 0 0 0 false));
    [ repeat split; discriminate | repeat split; discriminate | by left ].
Defined.

(** *** Weeks *)

(** Day number of the Thursday of the Monday-first week that holds [dn]. *)
Definition thursday (dn : Z) : Z := dn - calc_weekday dn false + 3.

(** ISO 8601: the week belongs to the year that holds its Thursday and is
    numbered by that Thursday's position in the year. *)
Definition iso_week_of (dn w y : Z) : Prop :=
  calc_daynr y 1 1 <= thursday dn <= calc_daynr y 12 31 /\
  w = (thursday dn - calc_daynr y 1 1) / 7 + 1.

Lemma year_ends y :
  1 <= y <= 9999 ->
  calc_daynr y 1 1 = year_start y + 1 /\
  calc_daynr y 12 31 = year_start y + calc_days_in_year y.
Proof.
  intros Hy.
  assert (days_of_month y 1 = 31) as E1 by (unfold days_of_month; cbn; done).
  assert (days_of_month y 12 = 31) as E12 by (unfold days_of_month; cbn; done).
  rewrite !calc_daynr_valid by (unfold valid_date; lia).
  change (days_before_month y (Z.to_nat 1)) with 0. split; [lia|].
  rewrite <- days_in_year_months.
  change (Z.to_nat 13) with (Z.to_nat (12 + 1)).
  rewrite days_before_month_succ by lia. lia.
Qed.


(** The common tail of calc_week in ISO mode: [F] is the number of the first
    day of a year of length [L], [D] a day past the year's first partial week
    and at most in the week that holds the first day of the next year. *)
Lemma week_rest_iso F D L y :
  L = 365 \/ L = 366 -> 0 <= F ->
  F + 7 - (F + 5) mod 7 <= D -> D < F + L + 7 - (F + L + 5) mod 7 ->
  let wd := (F + 5) mod 7 in
  let days := if 4 <=? wd then D - (F + (7 - wd)) else D - (F - wd) in
  let th := D - (D + 5) mod 7 + 3 in
  0 <= days < 400 /\
  let '(w, y') := if 52 * 7 <=? days
                  then if (wd + L) mod 7 <? 4 then (1, y + 1)
                       else (days / 7 + 1, y)
                  else (days / 7 + 1, y) in
  1 <= w <= 53 /\
  ((y' = y /\ F <= th < F + L /\ w = (th - F) / 7 + 1) \/
   (y' = y + 1 /\ F + L <= th < F + L + 7 /\ w = (th - (F + L)) / 7 + 1)).
Proof.
  intros HL HF HD1 HD2. cbv zeta.
  assert (exists q wd, F = 7 * q + 2 + wd /\ 0 <= wd < 7) as (q & wd & HFq & Hwd).
  { exists ((F - 2) / 7), ((F - 2) mod 7). zdiv. }
  assert ((F + 5) mod 7 = wd) as Ewd by zdiv. rewrite Ewd in *.
  assert (exists p dd, D = 7 * p + 2 + dd /\ 0 <= dd < 7) as (p & dd & HDp & Hdd).
  { exists ((D - 2) / 7), ((D - 2) mod 7). zdiv. }
  assert ((D + 5) mod 7 = dd) as Edd by zdiv. rewrite Edd in *.
  assert (exists e, (F + L + 5) mod 7 = (wd + L) mod 7 /\ (wd + L) mod 7 = e /\
                    0 <= e < 7 /\ exists r, wd + L = 7 * r + e)
    as (e & E1 & E2 & He & r & Hr).
  { exists ((wd + L) mod 7). split; [zdiv|]. split; [done|]. split; [zdiv|].
    exists ((wd + L) / 7). zdiv. }
  rewrite E1, E2 in HD2. rewrite E2. clear E1 E2.
  destruct (4 <=? wd) eqn:C1; b2p.
  - assert ((D - (F + (7 - wd))) / 7 = p - q - 1) as -> by zdiv.
    split; [lia|].
    destruct (52 * 7 <=? _) eqn:C2; b2p; [destruct (e <? 4) eqn:C3; b2p|].
    all: zdiv.
  - assert ((D - (F - wd)) / 7 = p - q) as -> by zdiv.
    split; [lia|].
    destruct (52 * 7 <=? _) eqn:C2; b2p; [destruct (e <? 4) eqn:C3; b2p|].
    all: zdiv.
Qed.

Lemma fmap_u32_if (c : bool) a b :
  0 <= (if c then a else b) < 2 ^ 32 ->
  (if c then u32 a else u32 b) = if c then a else b.
Proof. destruct c; apply u32_small. Qed.

(** The code tests the first partial week through month and day. *)
Lemma first_week_test t wd :
  1 <= month t <= 12 -> 1 <= day t <= days_of_month (year t) (month t) ->
  0 <= wd < 7 ->
  (month t =? 1) && (day t <=? 7 - wd) =
  (days_before_month (year t) (Z.to_nat (month t)) + day t <=? 7 - wd).
Proof.
  intros Hm Hd Hwd. destruct (month t =? 1) eqn:E; b2p.
  - rewrite E. change (days_before_month (year t) (Z.to_nat 1)) with 0.
    f_equal.
  - pose proof (days_before_month_mono (year t) 1 (month t)
      ltac:(lia) ltac:(lia) ltac:(lia)) as Hmm.
    change (days_before_month (year t) (Z.to_nat 1)) with 0 in Hmm.
    change (days_of_month (year t) 1) with 31 in Hmm. simpl. lia.
Qed.

(** What [week_rest_iso] finds for a year is the ISO week. *)
Lemma rest_is_iso D w y y' :
  0 <= D -> 1 <= y <= 9998 ->
  let F := year_start y + 1 in
  let L := calc_days_in_year y in
  let th := D - (D + 5) mod 7 + 3 in
  1 <= w <= 53 ->
  (y' = y /\ F <= th < F + L /\ w = (th - F) / 7 + 1) \/
  (y' = y + 1 /\ F + L <= th < F + L + 7 /\ w = (th - (F + L)) / 7 + 1) ->
  iso_week_of D w y' /\ 1 <= w <= 53.
Proof.
  intros HD Hy F L th Hw Hc. split; [|done].
  destruct (year_ends y) as [Hf Hl]; [lia|]. destruct (year_ends (y + 1)) as [Hf1 Hl1]; [lia|].
  pose proof (year_start_succ y ltac:(lia)) as Hs. pose proof (calc_days_in_year_range (y + 1)).
  assert (thursday D = th) as Eth.
  { unfold thursday, calc_weekday. by rewrite Z.add_0_r, Z.rem_mod_nonneg by lia. }
  unfold iso_week_of. rewrite Eth.
  destruct Hc as [(-> & Ht & Hwe) | (-> & Ht & Hwe)].
  - rewrite Hf, Hl. split; [lia|done].
  - rewrite Hf1, Hl1. split; [lia|]. rewrite Hwe. do 2 f_equal; lia.
Qed.

(** With WEEK_MONDAY_FIRST | WEEK_YEAR calc_week is the ISO 8601 week:
    for every valid date of the years 2..9998 it returns the week number and
    year of the week's Thursday, and the week is in 1..53. *)
Theorem calc_week_iso t :
  valid_date (year t) (month t) (day t) -> 2 <= year t <= 9998 ->
  let '(w, y) := calc_week t (WEEK_MONDAY_FIRST + WEEK_YEAR) in
  iso_week_of (calc_daynr (year t) (month t) (day t)) w y /\ 1 <= w <= 53.
Proof.
  intros V Hy. pose proof V as (_ & Hm & Hd).
  pose proof (day_of_year_bounds _ _ _ Hm Hd) as Hb.
  pose proof (calc_daynr_range _ _ _ V) as Hr. unfold MAX_DAY_NUMBER in Hr.
  destruct (year_ends (year t)) as [Hf _]; [lia|].
  pose proof (year_start_succ (year t - 1) ltac:(lia)) as Hs0.
  replace (year t - 1 + 1) with (year t) in Hs0 by lia.
  assert (0 <= year_start (year t - 1)) as Hpos by (unfold year_start; zdiv).
  pose proof (calc_days_in_year_range (year t)) as HL.
  pose proof (calc_days_in_year_range (year t - 1)) as HL0.
  unfold calc_week.
  change (test ((WEEK_MONDAY_FIRST + WEEK_YEAR) .& WEEK_MONDAY_FIRST)) with true.
  change (test ((WEEK_MONDAY_FIRST + WEEK_YEAR) .& WEEK_YEAR)) with true.
  change (test ((WEEK_MONDAY_FIRST + WEEK_YEAR) .& WEEK_FIRST_WEEKDAY)) with false.
  cbn [negb andb orb]. cbv zeta.
  rewrite Hf, (calc_daynr_valid (year t) (month t) (day t)) in * by (done || lia).
  unfold calc_weekday.
  rewrite (u64_small (year_start (year t) + 1)), (u64_small (_ + _ + day t)) by lia.
  rewrite !Z.rem_mod_nonneg, !Z.add_0_r by lia.
  rewrite (u32_small (year t - 1)), first_week_test by (done || zdiv).
  set (doy := days_before_month _ _ + day t) in *.
  set (F := year_start (year t) + 1) in *. set (wd := (F + 5) mod 7) in *.
  set (D := year_start (year t) + _ + day t) in *.
  assert (D = year_start (year t) + doy) as HD by (subst D doy; lia).
  assert (F = year_start (year t) + 1) as HF by reflexivity.
  assert (wd = (F + 5) mod 7) as Hwd by reflexivity. clearbody D doy wd F.
  destruct (doy <=? 7 - wd) eqn:Ej; b2p.
  - set (L0 := calc_days_in_year (year t - 1)) in *.
    assert ((wd + 53 * 7 - L0) mod 7 = (F - L0 + 5) mod 7) as -> by zdiv.
    destruct (week_rest_iso (F - L0) D L0 (year t - 1)) as [Hdays Hw];
      [done | lia | zdiv | replace (F - L0 + L0) with F by lia; lia |].
    rewrite orb_false_r, fmap_u32_if, (u32_small (year t - 1 + 1)) by lia.
    destruct (if 52 * 7 <=? _ then _ else _) as [w y']. destruct Hw as [Hwr Hc].
    apply rest_is_iso with (year t - 1); [lia..|]. fold L0.
    by replace (year_start (year t - 1) + 1) with (F - L0) by lia.
  - destruct (week_rest_iso F D (calc_days_in_year (year t)) (year t)) as [Hdays Hw];
      [done | lia | lia | zdiv |].
    rewrite <- Hwd in Hdays, Hw. rewrite orb_false_r, fmap_u32_if, (u32_small (year t + 1)) by lia.
    destruct (if 52 * 7 <=? _ then _ else _) as [w y']. destruct Hw as [Hwr Hc].
    apply rest_is_iso with (year t); [lia..|]. by rewrite <- HF.
Qed.

Lemma calc_week_iso_witness :
  iso_week_of (calc_daynr 2008 12 30) 1 2009 /\ 1 <= 1 <= 53.
Proof.
  apply (calc_week_iso (mk_time 2008 12 30 0 0 0 0 false MYSQL_TIMESTAMP_DATE));
    [repeat split; discriminate | split; discriminate].
Defined.

(** *** Order and periods *)

Definition lex_key (t : MYSQL_TIME) : list Z :=
  [year t; month t; day t; hour t; minute t; second t; second_part t].

Fixpoint lex_compare (a b : list Z) : Z :=
  match a, b with
  | x :: a, y :: b => if x <? y then -1 else if y <? x then 1 else lex_compare a b
  | _, _ => 0
  end.

(** my_time_compare orders in-range times lexicographically by year,
    month, day, hour, minute, second and microsecond. *)
Theorem my_time_compare_lex a b :
  in_datetime_range a -> in_datetime_range b ->
  my_time_compare a b = lex_compare (lex_key a) (lex_key b).
Proof.
  intros Ha Hb. unfold my_time_compare.
  rewrite !TIME_to_ulonglong_datetime_small by done.
  destruct Ha as (? & ? & ? & ? & ? & ?), Hb as (? & ? & ? & ? & ? & ?).
  cbn [lex_compare lex_key].
  repeat (case_if; try lia; try reflexivity).
Qed.

Lemma my_time_compare_lex_witness :
  my_time_compare (mk_time 2000 1 31 0 0 0 7 false MYSQL_TIMESTAMP_DATETIME)
                  (mk_time 2000 2 1 0 0 0 0 false MYSQL_TIMESTAMP_DATETIME) = -1.
Proof.
  apply (my_time_compare_lex
    (mk_time 2000 1 31 0 0 0 7 false MYSQL_TIMESTAMP_DATETIME)
    (mk_time 2000 2 1 0 0 0 0 false MYSQL_TIMESTAMP_DATETIME));
    repeat split; discriminate.
Defined.

(** A period YYYYMM of the years 100..9999 survives the conversion to a
    month count and back. *)
Lemma period_roundtrip y m :
  100 <= y <= 9999 -> 1 <= m <= 12 ->
  convert_month_to_period (convert_period_to_month (y * 100 + m)) = y * 100 + m.
Proof.
  intros Hy Hm. unfold convert_period_to_month, convert_month_to_period.
  unfold YY_PART_YEAR.
  replace (y * 100 + m =? 0) with false by lia.
  assert ((y * 100 + m) / 100 = y) as -> by zdiv.
  assert ((y * 100 + m) mod 100 = m) as -> by zdiv.
  replace (y <? 70) with false by lia. replace (y <? 100) with false by lia.
  rewrite (u64_small (y * 12 + m - 1)) by lia.
  replace (y * 12 + m - 1 =? 0) with false by lia.
  assert ((y * 12 + m - 1) / 12 = y) as -> by zdiv.
  assert ((y * 12 + m - 1) mod 12 = m - 1) as -> by zdiv.
  replace (y <? 100) with false by lia. rewrite u64_small by lia. lia.
Qed.

Example period_roundtrip_199912 :
  convert_month_to_period (convert_period_to_month 199912) = 199912.
Proof. apply (period_roundtrip 1999 12); lia. Qed.
