(* ===== verification/DateParse.v ===== *)
(** * Date and time strings: sql-common/my_time.c

    str_to_datetime, str_to_time and the functions that print a MYSQL_TIME.
    A C string with its length is the [list Z] of its bytes; a pointer that
    walks over it is the suffix it still has to read, so [str == end] is the
    empty suffix and [end - str] its length.

    [internal_format_positions] is a static table that the code never changes,
    {0, 1, 2, 3, 4, 5, 6, 255}: the year comes first and there is no AM/PM
    part.  The branches that test it for anything else (the year after the
    time, AM/PM) are not reachable and are left out. *)

From stdpp Require Import prelude list.
From Stdlib Require Import ZArith Lia.
From S2P Require Import Prelude Ctype Calendar.

Open Scope Z_scope.

Definition log_10_int : list Z :=
  [1; 10; 100; 1000; 10000; 100000; 1000000; 10000000; 100000000; 1000000000;
   10000000000; 100000000000; 1000000000000; 10000000000000; 100000000000000;
   1000000000000000; 10000000000000000; 100000000000000000;
   1000000000000000000; 10000000000000000000].

Definition log10 (n : Z) : Z := nth (Z.to_nat n) log_10_int 0.

Definition MAX_DATE_PARTS : nat := 8.

(** ** Scanning *)

Definition skip_spaces : list Z -> list Z :=
  fix go str :=
    match str with
    | c :: rest => if my_isspace c then go rest else str
    | [] => []
    end.

(** The [for] loop that measures the first part: digits and 'T'. *)
Definition first_part : list Z -> Z * list Z :=
  fix go pos :=
    match pos with
    | c :: rest =>
      if my_isdigit c || (c =? 84)
      then let '(n, p) := go rest in (n + 1, p)
      else (0, pos)
    | [] => (0, [])
    end.

(** The digits of one field.  The [while] condition decrements
    [field_length] only for a further digit of a fixed width field. *)
Fixpoint scan_field (scan_until_delim : bool) (field_length tmp_value len : Z)
    (str : list Z) : Z * Z * list Z :=
  match str with
  | c :: rest =>
    if my_isdigit c then
      if scan_until_delim then
        scan_field scan_until_delim field_length
          (u64 (tmp_value * 10 + u8 (c - 48))) (len + 1) rest
      else if negb (u32 (field_length - 1) =? 0) then
        scan_field scan_until_delim (u32 (field_length - 1))
          (u64 (tmp_value * 10 + u8 (c - 48))) (len + 1) rest
      else (tmp_value, len, str)
    else (tmp_value, len, str)
  | [] => (tmp_value, len, [])
  end.

(** The [while] loop over the punctuation and spaces after field [i]: [None]
    when a space is not allowed there, else whether a delimiter and a space
    were seen, and the rest. *)
Fixpoint skip_delims (allow_space i : Z) (found_delim found_space : bool)
    (str : list Z) : option (bool * bool * list Z) :=
  match str with
  | c :: rest =>
    if my_ispunct c || my_isspace c then
      if my_isspace c then
        if test (allow_space .& (1 .<< i))
        then skip_delims allow_space i true true rest
        else None
      else skip_delims allow_space i true found_space rest
    else Some (found_delim, found_space, str)
  | [] => Some (found_delim, found_space, [])
  end.

(** The variables of the field loop. *)
Record fields : Type := mk_fields {
  f_date : list Z;               (* date[], the parts read so far *)
  f_date_len : list Z;           (* date_len[] *)
  f_i : Z;
  f_not_zero_date : Z;
  f_found_delimitier : bool;
  f_found_space : bool;
  f_last_field_pos : list Z
}.

(** After the space rule for days: [(1 << i) | (1 << 6)] with [i = 2],
    restricted to the low four bits. *)
Definition allow_space : Z := ((1 .<< 2) .| (1 .<< 6)) .& (1 .| 2 .| 4 .| 8).

(** The field loop; [n] is [MAX_DATE_PARTS - 1 - i].  [None] stands for the
    returns of MYSQL_TIMESTAMP_NONE. *)
Fixpoint field_loop (n : nat) (is_internal_format : bool) (field_length : Z)
    (f : fields) (str : list Z) : option fields :=
  match n, str with
  | S n, c :: str1 =>
    if my_isdigit c then
      let i := f_i f in
      let scan_until_delim := negb is_internal_format && negb (i =? 6) in
      let '(tmp_value, len, str2) :=
        scan_field scan_until_delim field_length (u8 (c - 48)) 1 str1 in
      if 999999 <? tmp_value then None
      else
        let date := f_date f ++ [tmp_value] in
        let date_len := f_date_len f ++ [len] in
        let nz := f_not_zero_date f .| tmp_value in
        let upd i fd fs last := mk_fields date date_len i nz fd fs last in
        match str2 with
        | [] => Some (upd (i + 1) (f_found_delimitier f) (f_found_space f) str2)
        | c2 :: str3 =>
          if (i =? 2) && (c2 =? 84) then
            field_loop n is_internal_format 2
              (upd (i + 1) (f_found_delimitier f) (f_found_space f) str2) str3
          else if i =? 5 then
            if c2 =? 46 then
              field_loop n is_internal_format 6
                (upd (i + 1) (f_found_delimitier f) (f_found_space f) str2) str3
            else
              field_loop n is_internal_format 2
                (upd (i + 1) (f_found_delimitier f) (f_found_space f) str2) str2
          else
            match skip_delims allow_space i (f_found_delimitier f)
                    (f_found_space f) str2 with
            | None => None
            | Some (fd, fs, str4) =>
              let i := if i =? 6 then i + 1 else i in
              field_loop n is_internal_format 2 (upd (i + 1) fd fs str4) str4
            end
        end
    else Some f
  | _, _ => Some f
  end.

(** [date[k]], [date_len[k]]: the parts that were not read are set to 0. *)
Definition part (l : list Z) (k : nat) : Z := nth k l 0.

(** The trailing scans for a character that is not a space. *)
Definition has_garbage (str : list Z) : bool :=
  existsb (fun c => negb (my_isspace c)) str.

(** From the end of the field loop on: the range checks and the result. *)
Definition datetime_finish (is_internal_format : bool) (year_length : Z)
    (f : fields) (l_time : MYSQL_TIME) (flags : Z)
    : timestamp_type * MYSQL_TIME * Z :=
  let none := (MYSQL_TIMESTAMP_NONE, l_time, 1) in
  if f_found_delimitier f && negb (f_found_space f) &&
     test (flags .& TIME_DATETIME_ONLY)
  then none
  else
    let str := f_last_field_pos f in
    let number_of_fields := f_i f in
    let date := part (f_date f) in
    let date_len := part (f_date_len f) in
    let year_length := if is_internal_format then year_length
                       else date_len 0%nat in
    if negb is_internal_format && (year_length =? 0) then none
    else
      let frac := if date_len 6%nat <? 6
                  then u32 (date 6%nat * u32 (log10 (6 - date_len 6%nat)))
                  else date 6%nat in
      let y := if (year_length =? 2) && test (f_not_zero_date f)
               then date 0%nat +
                    (if date 0%nat <? YY_PART_YEAR then 2000 else 1900)
               else date 0%nat in
      let t := mk_time y (date 1%nat) (date 2%nat) (date 3%nat)
                       (date 4%nat) (date 5%nat) frac false
                       (time_type l_time) in
      let not_zero_date := test (f_not_zero_date f) in
      if (number_of_fields <? 3) || (9999 <? year t) ||
         (12 <? month t) || (31 <? day t) || (23 <? hour t) ||
         (59 <? minute t) || (59 <? second t)
      then
        (MYSQL_TIMESTAMP_ERROR, zero_time,
         if not_zero_date || has_garbage str then 1 else 0)
      else
        let '(bad, was_cut) := check_date t not_zero_date flags 0 in
        if bad then (MYSQL_TIMESTAMP_ERROR, zero_time, was_cut)
        else
          let k := if number_of_fields <=? 3
                   then MYSQL_TIMESTAMP_DATE
                   else MYSQL_TIMESTAMP_DATETIME in
          (k, with_type t k, if has_garbage str then 1 else was_cut).

(** Returns the return value, [*l_time] and [*was_cut]. *)
Definition str_to_datetime (str : list Z) (l_time : MYSQL_TIME) (flags : Z)
    : timestamp_type * MYSQL_TIME * Z :=
  let none := (MYSQL_TIMESTAMP_NONE, l_time, 1) in
  match skip_spaces str with
  | [] => none
  | (c :: _) as str =>
    if negb (my_isdigit c) then none
    else
      let '(digits, pos) := first_part str in
      let is_internal_format :=
        match pos with [] => true | p :: _ => p =? 46 end in
      let year_length :=
        if (digits =? 4) || (digits =? 8) || (14 <=? digits) then 4 else 2 in
      let field_length := if is_internal_format then year_length else 4 in
      match field_loop (MAX_DATE_PARTS - 1) is_internal_format field_length
              (mk_fields [] [] 0 0 false false []) str with
      | None => none
      | Some f => datetime_finish is_internal_format year_length f l_time flags
      end
  end.

(** ** str_to_time *)

(** The [for] loops that read a number: [value=value*10L + ( *str - '0')] in
    [ulonglong]. *)
Fixpoint scan_value (value : Z) (str : list Z) : Z * list Z :=
  match str with
  | c :: rest =>
    if my_isdigit c then scan_value (u64 (value * 10 + (c - 48))) rest
    else (value, str)
  | [] => (value, [])
  end.

(** [(end-str) > 1 && *str == sep && my_isdigit(str[1])], with [str+1]. *)
Definition sep_digit (sep : Z) (str : list Z) : option (list Z) :=
  match str with
  | c :: (d :: _) as rest =>
    if (c =? sep) && my_isdigit d then Some rest else None
  | _ => None
  end.

(** The [for (;;)] loop: hours, minutes and seconds into [date[state]] ..
    [date[3]].  [n] is [4 - state]. *)
Fixpoint hms_loop (n : nat) (date : list Z) (str : list Z) : list Z * list Z :=
  match n with
  | O => (date, str)
  | S n =>
    let '(value, str) := scan_value 0 str in
    let date := date ++ [value] in
    if (n =? 0)%nat then (date, str)
    else
      match sep_digit 58 str with
      | Some str => hms_loop n date str
      | None => (date, str)
      end
  end.

(** The [while] loop of the fractional part: at most five more digits count.
    [field_length] is an [int] that goes on counting. *)
Fixpoint scan_frac (field_length value : Z) (str : list Z) : Z * Z * list Z :=
  match str with
  | c :: rest =>
    if my_isdigit c then
      if 0 <? field_length
      then scan_frac (field_length - 1) (u64 (value * 10 + u8 (c - 48))) rest
      else scan_frac (s32 (field_length - 1)) value rest
    else (field_length, value, str)
  | [] => (field_length, value, [])
  end.

(** date[4], the new warning flags and the rest. *)
Definition fractional (str : list Z) (warning : Z) : Z * Z * list Z :=
  match sep_digit 46 str with
  | Some (c :: rest) =>
    let '(field_length, value, str) := scan_frac 5 (u8 (c - 48)) rest in
    if 0 <? field_length then (u64 (value * log10 field_length), warning, str)
    else if field_length <? 0
    then (value, warning .| MYSQL_TIME_WARN_TRUNCATED, str)
    else (value, warning, str)
  | _ => (0, warning, str)
  end.

(** The test for an exponent part, E<digit> or E<sign><digit>. *)
Definition has_exponent (str : list Z) : bool :=
  match str with
  | c :: d :: rest =>
    ((c =? 101) || (c =? 69)) &&
    (my_isdigit d ||
     (((d =? 45) || (d =? 43)) &&
      match rest with e :: _ => my_isdigit e | [] => false end))
  | _ => false
  end.

Definition UINT_MAX : Z := 2 ^ 32 - 1.

(** From the label [fractional] to the end. *)
Definition time_tail (date : list Z) (str : list Z) (l_time : MYSQL_TIME)
    (warning : Z) : Z * MYSQL_TIME * Z :=
  let '(frac, warning, str) := fractional str warning in
  if has_exponent str then (1, l_time, warning)
  else
    let d := part date in
    if (UINT_MAX <? d 0%nat) || (UINT_MAX <? d 1%nat) || (UINT_MAX <? d 2%nat) ||
       (UINT_MAX <? d 3%nat) || (UINT_MAX <? frac)
    then (1, l_time, warning)
    else
      let t := mk_time 0 0 (d 0%nat) (d 1%nat) (d 2%nat) (d 3%nat) frac
                       (neg l_time) MYSQL_TIMESTAMP_TIME in
      let '(rc, t, warning) := check_time_range t warning in
      if negb (rc =? 0) then (1, t, warning)
      else if has_garbage str
      then (0, t, warning .| MYSQL_TIME_WARN_TRUNCATED)
      else (0, t, warning).

(** Not a timestamp: [DAYS] HH:MM:SS, HH:MM:SS or HHMMSS. *)
Definition str_to_time_rest (str : list Z) (l_time : MYSQL_TIME) (warning : Z)
    : Z * MYSQL_TIME * Z :=
  let '(value, end_of_days) := scan_value 0 str in
  let str := skip_spaces end_of_days in
  match str with
  | c :: _ :: _ =>
    if negb (length str =? length end_of_days)%nat && my_isdigit c then
      (* found days part *)
      let '(date, str) := hms_loop 3 [value] str in
      time_tail date str l_time warning
    else
      match sep_digit 58 str with
      | Some str =>
        (* found hours *)
        let '(date, str) := hms_loop 2 [0; value] str in
        time_tail date str l_time warning
      | None =>
        time_tail [0; value / 10000; value / 100 mod 100; value mod 100] str
                  l_time warning
      end
  | _ =>
    time_tail [0; value / 10000; value / 100 mod 100; value mod 100] str
              l_time warning
  end.

(** Returns the return value, [*l_time] and [*warning]. *)
Definition str_to_time (str : list Z) (l_time : MYSQL_TIME)
    : Z * MYSQL_TIME * Z :=
  let str := skip_spaces str in
  let '(l_time, str) :=
    match str with
    | c :: rest => if c =? 45 then (with_neg l_time true, rest)
                   else (with_neg l_time false, str)
    | [] => (with_neg l_time false, [])
    end in
  match str with
  | [] => (1, l_time, 0)
  | _ =>
    if (12 <=? length str)%nat then
      let '(res, t, was_cut) :=
        str_to_datetime str l_time (TIME_FUZZY_DATE .| TIME_DATETIME_ONLY) in
      if -1 <=? timestamp_type_value res then
        let warning := if test was_cut then MYSQL_TIME_WARN_TRUNCATED else 0 in
        (if timestamp_type_value res =? -1 then 1 else 0, t, warning)
      else str_to_time_rest str t 0
    else str_to_time_rest str l_time 0
  end.

(** ** Printing *)

(** The decimal digits of a nonnegative number below [10 ^ fuel], most
    significant first; one digit for 0. *)
Fixpoint decimal (fuel : nat) (n : Z) : list Z :=
  match fuel with
  | O => []
  | S fuel => (if n <? 10 then [] else decimal fuel (n / 10)) ++ [48 + n mod 10]
  end.

(** The conversions "%02u" and "%04u" of sprintf on an [unsigned int]. *)
Definition fmt_u (width : nat) (n : Z) : list Z :=
  let d := decimal 10 n in replicate (width - length d) 48 ++ d.

Definition my_time_to_str (t : MYSQL_TIME) : list Z :=
  (if neg t then [45] else []) ++ fmt_u 2 (hour t) ++ [58] ++
  fmt_u 2 (minute t) ++ [58] ++ fmt_u 2 (second t).

Definition my_date_to_str (t : MYSQL_TIME) : list Z :=
  fmt_u 4 (year t) ++ [45] ++ fmt_u 2 (month t) ++ [45] ++ fmt_u 2 (day t).

Definition my_datetime_to_str (t : MYSQL_TIME) : list Z :=
  fmt_u 4 (year t) ++ [45] ++ fmt_u 2 (month t) ++ [45] ++ fmt_u 2 (day t) ++
  [32] ++ fmt_u 2 (hour t) ++ [58] ++ fmt_u 2 (minute t) ++ [58] ++
  fmt_u 2 (second t).

Definition my_TIME_to_str (t : MYSQL_TIME) : list Z :=
  match time_type t with
  | MYSQL_TIMESTAMP_DATETIME => my_datetime_to_str t
  | MYSQL_TIMESTAMP_DATE => my_date_to_str t
  | MYSQL_TIMESTAMP_TIME => my_time_to_str t
  | MYSQL_TIMESTAMP_NONE | MYSQL_TIMESTAMP_ERROR => []
  end.

(** ** Soundness of str_to_datetime *)

Lemma scan_field_nonneg b fl v len str v' len' str' :
  0 <= v -> scan_field b fl v len str = (v', len', str') -> 0 <= v'.
Proof.
  revert fl v len. induction str as [|c str IH]; intros fl v len Hv H; simpl in H.
  - by simplify_eq.
  - pose proof (u64_range (v * 10 + u8 (c - 48))).
    repeat case_match; simplify_eq; try done; (eapply IH; [|eassumption]; lia).
Qed.

Definition parts_ok (f : fields) : Prop :=
  Forall (fun v => 0 <= v <= 999999) (f_date f) /\ 0 <= f_i f.

Lemma field_loop_parts n b fl f str f' :
  parts_ok f -> field_loop n b fl f str = Some f' -> parts_ok f'.
Proof.
  revert fl f str. induction n as [|n IH]; intros fl f str Hf H; simpl in H;
    [by simplify_eq|].
  destruct str as [|c str1]; [by simplify_eq|].
  destruct (my_isdigit c); [|by simplify_eq].
  destruct (scan_field _ _ _ _ _) as [[v len] str2] eqn:Es.
  apply scan_field_nonneg in Es; [|apply u8_range].
  destruct (999999 <? v) eqn:Ev; [done|]. b2p.
  destruct Hf as [Hf Hi].
  assert (Forall (fun v => 0 <= v <= 999999) (f_date f ++ [v])) as Hd.
  { apply Forall_app. split; [done|]. constructor; [lia | constructor]. }
  destruct str2 as [|c2 str3]; [simplify_eq; split; simpl; [done | lia]|].
  destruct ((f_i f =? 2) && (c2 =? 84));
    [eapply IH, H; split; simpl; [done | lia]|].
  destruct (f_i f =? 5);
    [destruct (c2 =? 46); eapply IH, H; split; simpl; (done || lia)|].
  destruct (skip_delims _ _ _ _ _) as [[[fd fs] str4]|]; [|done].
  eapply IH, H; split; simpl; [done|]. case_if; lia.
Qed.

Lemma part_range l k :
  Forall (fun v => 0 <= v <= 999999) l -> 0 <= part l k <= 999999.
Proof.
  intros H. unfold part. destruct (nth_in_or_default k l 0) as [Hin | ->]; [|lia].
  rewrite List.Forall_forall in H. by apply H.
Qed.

(** Whatever the string and the flags, when str_to_datetime says DATE or
    DATETIME the broken-down time is a normalized datetime accepted by
    check_date, of that type and not negative; an ERROR clears the structure,
    and a string that is no timestamp leaves it alone. *)
Theorem str_to_datetime_sound str l flags :
  let '(k, t, was_cut) := str_to_datetime str l flags in
  match k with
  | MYSQL_TIMESTAMP_DATE | MYSQL_TIMESTAMP_DATETIME =>
      in_datetime_range t /\ time_type t = k /\ neg t = false /\
      exists nz, fst (check_date t nz flags 0) = false
  | MYSQL_TIMESTAMP_ERROR => t = zero_time
  | MYSQL_TIMESTAMP_NONE => t = l /\ was_cut = 1
  | MYSQL_TIMESTAMP_TIME => False
  end.
Proof.
  unfold str_to_datetime, datetime_finish.
  destruct (skip_spaces str) as [|c str1]; [done|].
  destruct (my_isdigit c); simpl negb; cbv iota; [|done].
  destruct (first_part (c :: str1)) as [digits pos].
  set (internal := match pos with [] => _ | _ => _ end).
  set (yl := if _ || _ then 4 else 2).
  destruct (field_loop _ _ _ _ _) as [f|] eqn:Ef; [|done].
  apply field_loop_parts in Ef; [|split; simpl; [constructor | lia]].
  destruct Ef as [Hd Hi].
  destruct (f_found_delimitier f && _ && _); [done|].
  cbv zeta. destruct (negb internal && _); [done|].
  match goal with |- context [mk_time ?y _ _ _ _ _ ?fr _ _] =>
    set (yr := y); set (frac := fr) end.
  match goal with
  | |- context [if ?b then (MYSQL_TIMESTAMP_ERROR, zero_time, if _ then _ else _)
                else _] => destruct b eqn:E
  end; [done|]. cbn [year month day hour minute second] in E.
  b2p.
  assert (0 <= yr) as Hyr.
  { subst yr. pose proof (part_range (f_date f) 0 Hd). repeat case_if; lia. }
  destruct (check_date _ _ _ _) as [bad wc] eqn:Ec. destruct bad; [done|].
  match goal with |- context [with_type ?t ?k] => set (t0 := t) in * end.
  assert (in_datetime_range t0) as Hr.
  { unfold in_datetime_range; subst t0; cbn [year month day hour minute second].
    repeat match goal with |- context [part (f_date f) ?k] =>
      lazymatch goal with
      | _ : 0 <= part (f_date f) k <= 999999 |- _ => fail
      | _ => pose proof (part_range (f_date f) k Hd)
      end end. lia. }
  destruct (f_i f <=? 3);
    (split; [exact Hr|]; split; [done|]; split; [done|];
     eexists; change (check_date (with_type t0 _)) with (check_date t0);
     by rewrite Ec).
Qed.

(** ** Round trips *)

Lemma decimal_small n : 0 <= n < 10 -> decimal 10 n = [48 + n].
Proof.
  intros H. simpl. replace (n <? 10) with true by lia.
  by rewrite Z.mod_small by lia.
Qed.

Lemma decimal_app k n : 10 <= n -> decimal (S k) n = decimal k (n / 10) ++ [48 + n mod 10].
Proof. intros H. simpl. by replace (n <? 10) with false by lia. Qed.

(** Two and four digits, most significant first. *)
Lemma fmt_u_2 n : 0 <= n < 100 -> fmt_u 2 n = [48 + n / 10; 48 + n mod 10].
Proof.
  intros H. unfold fmt_u.
  destruct (Z.ltb_spec n 10).
  - rewrite decimal_small by lia. simpl.
    by rewrite Z.div_small, Z.mod_small by lia.
  - rewrite decimal_app by lia. cbn [decimal].
    replace (n / 10 <? 10) with true by zdiv. simpl.
    by rewrite (Z.mod_small (n / 10)) by zdiv.
Qed.

Lemma fmt_u_4 n :
  0 <= n < 10000 ->
  fmt_u 4 n = [48 + n / 1000; 48 + n / 100 mod 10; 48 + n / 10 mod 10; 48 + n mod 10].
Proof.
  intros H. unfold fmt_u.
  destruct (Z.ltb_spec n 10).
  { rewrite decimal_small by lia. simpl.
    repeat (apply (f_equal2 cons); [zdiv|]); reflexivity. }
  rewrite decimal_app by lia. destruct (Z.ltb_spec (n / 10) 10).
  { cbn [decimal]. replace (n / 10 <? 10) with true by lia. simpl.
    repeat (apply (f_equal2 cons); [zdiv|]); reflexivity. }
  rewrite decimal_app, Z.div_div by lia. change (10 * 10) with 100.
  destruct (Z.ltb_spec (n / 100) 10).
  { cbn [decimal]. replace (n / 100 <? 10) with true by lia. simpl.
    repeat (apply (f_equal2 cons); [zdiv|]); reflexivity. }
  rewrite decimal_app, Z.div_div by lia. change (100 * 10) with 1000.
  cbn [decimal]. replace (n / 1000 <? 10) with true by zdiv. simpl.
  repeat (apply (f_equal2 cons); [zdiv|]); reflexivity.
Qed.

Lemma digit_class d :
  0 <= d <= 9 ->
  my_isdigit (48 + d) = true /\ my_isspace (48 + d) = false /\
  my_ispunct (48 + d) = false /\ (48 + d =? 84) = false /\
  (48 + d =? 46) = false /\ (48 + d =? 45) = false /\ u8 (48 + d - 48) = d.
Proof.
  intros H. pose proof (my_isdigit_digit d H) as Hd.
  destruct (my_ispunct_not_digit (48 + d)) as [Hp Hs]; [lia | done |].
  rewrite u8_small by lia. repeat split; (done || lia).
Qed.

Lemma scan_field_digit fl t len d rest :
  0 <= d <= 9 -> 0 <= t < 10 ^ 6 ->
  scan_field true fl t len ((48 + d) :: rest) =
  scan_field true fl (t * 10 + d) (len + 1) rest.
Proof.
  intros Hd Ht. destruct (digit_class d Hd) as (H1 & _ & _ & _ & _ & _ & H2).
  cbn [scan_field]. by rewrite H1, H2, u64_small by lia.
Qed.

(** A two digit field up to a delimiter or the end of the string. *)
Lemma scan_field_2 fl a b rest :
  0 <= a <= 9 -> 0 <= b <= 9 ->
  match rest with c :: _ => my_isdigit c = false | [] => True end ->
  scan_field true fl a 1 ((48 + b) :: rest) = (a * 10 + b, 2, rest).
Proof.
  intros Ha Hb Hr. rewrite scan_field_digit by lia.
  destruct rest as [|c rest]; [done|]. simpl. by rewrite Hr.
Qed.

Lemma field_loop_2 n fl f a b c rest :
  0 <= a <= 9 -> 0 <= b <= 9 ->
  my_isdigit c = false -> 0 <= f_i f < 5 -> (c =? 84) = false ->
  field_loop (S n) false fl f ((48 + a) :: (48 + b) :: c :: rest) =
  match skip_delims allow_space (f_i f) (f_found_delimitier f)
          (f_found_space f) (c :: rest) with
  | None => None
  | Some (fd, fs, str4) =>
    field_loop n false 2
      (mk_fields (f_date f ++ [a * 10 + b]) (f_date_len f ++ [2]) (f_i f + 1)
         (f_not_zero_date f .| (a * 10 + b)) fd fs str4) str4
  end.
Proof.
  intros Ha Hb Hc Hi H84. cbn [field_loop].
  destruct (digit_class a Ha) as (H1 & _ & _ & _ & _ & _ & H2).
  rewrite H1, H2. replace (f_i f =? 6) with false by lia. cbn [negb andb].
  rewrite scan_field_2 by done.
  replace (999999 <? a * 10 + b) with false by lia.
  rewrite H84, andb_false_r. replace (f_i f =? 5) with false by lia. done.
Qed.

(** The last field of the string. *)
Lemma field_loop_last n fl f a b :
  0 <= a <= 9 -> 0 <= b <= 9 -> 0 <= f_i f <= 5 ->
  field_loop (S n) false fl f [48 + a; 48 + b] =
  Some (mk_fields (f_date f ++ [a * 10 + b]) (f_date_len f ++ [2]) (f_i f + 1)
          (f_not_zero_date f .| (a * 10 + b)) (f_found_delimitier f)
          (f_found_space f) []).
Proof.
  intros Ha Hb Hi. cbn [field_loop].
  destruct (digit_class a Ha) as (H1 & _ & _ & _ & _ & _ & H2).
  rewrite H1, H2. replace (f_i f =? 6) with false by lia. cbn [negb andb].
  rewrite scan_field_2 by done.
  by replace (999999 <? a * 10 + b) with false by lia.
Qed.

Lemma field_loop_year n fl f a b c d x rest :
  0 <= a <= 9 -> 0 <= b <= 9 -> 0 <= c <= 9 -> 0 <= d <= 9 -> 0 <= x <= 9 ->
  f_i f = 0 ->
  field_loop (S n) false fl f
    ((48 + a) :: (48 + b) :: (48 + c) :: (48 + d) :: 45 :: (48 + x) :: rest) =
  field_loop n false 2
    (mk_fields (f_date f ++ [((a * 10 + b) * 10 + c) * 10 + d])
       (f_date_len f ++ [4]) 1
       (f_not_zero_date f .| (((a * 10 + b) * 10 + c) * 10 + d)) true
       (f_found_space f) ((48 + x) :: rest)) ((48 + x) :: rest).
Proof.
  intros Ha Hb Hc Hd Hx Hi. cbn [field_loop]. rewrite Hi.
  destruct (digit_class a Ha) as (H1 & _ & _ & _ & _ & _ & H2).
  destruct (digit_class x Hx) as (_ & Hs & Hp & _).
  rewrite H1, H2. cbn [negb andb Z.eqb].
  rewrite !scan_field_digit by lia.
  cbn [scan_field]. change (my_isdigit 45) with false. cbv iota.
  replace (999999 <? _) with false by lia.
  change (skip_delims allow_space 0 (f_found_delimitier f) (f_found_space f)
            (45 :: (48 + x) :: rest))
    with (skip_delims allow_space 0 true (f_found_space f) ((48 + x) :: rest)).
  cbn [skip_delims]. rewrite Hp, Hs. done.
Qed.

(** A delimiter between two digits. *)
Lemma skip_delims_punct as_ i fd fs c x rest :
  my_ispunct c = true -> my_isspace c = false -> 0 <= x <= 9 ->
  skip_delims as_ i fd fs (c :: (48 + x) :: rest) =
  Some (true, fs, (48 + x) :: rest).
Proof.
  intros Hp Hs Hx. destruct (digit_class x Hx) as (_ & Hs' & Hp' & _).
  cbn [skip_delims]. by rewrite Hp, Hs, Hp', Hs'.
Qed.

Lemma skip_delims_space i fd fs x rest :
  0 <= x <= 9 -> i = 2 ->
  skip_delims allow_space i fd fs (32 :: (48 + x) :: rest) =
  Some (true, true, (48 + x) :: rest).
Proof.
  intros Hx ->. destruct (digit_class x Hx) as (_ & Hs' & Hp' & _).
  cbn [skip_delims]. by rewrite Hp', Hs'.
Qed.

(** The digits of the numbers that are printed. *)
Lemma digits2 n : 0 <= n < 100 -> 0 <= n / 10 <= 9 /\ 0 <= n mod 10 <= 9 /\
  n / 10 * 10 + n mod 10 = n.
Proof. intros H. zdiv. Qed.

Lemma digits4 n :
  0 <= n < 10000 ->
  0 <= n / 1000 <= 9 /\ 0 <= n / 100 mod 10 <= 9 /\ 0 <= n / 10 mod 10 <= 9 /\
  0 <= n mod 10 <= 9 /\
  ((n / 1000 * 10 + n / 100 mod 10) * 10 + n / 10 mod 10) * 10 + n mod 10 = n.
Proof. intros H. zdiv. Qed.

(** The part common to both printed forms: the year is read, the string is
    not in the internal format. *)
Lemma str_to_datetime_year t rest l flags f k :
  in_datetime_range t ->
  field_loop 6 false 2
    (mk_fields [year t] [4] 1 (year t) true false (fmt_u 2 (month t) ++ rest))
    (fmt_u 2 (month t) ++ rest) = Some f ->
  f_date f = [year t; month t; day t; hour t; minute t; second t] \/
  f_date f = [year t; month t; day t] /\ hour t = 0 /\ minute t = 0 /\ second t = 0 ->
  part (f_date_len f) 0 = 4 -> part (f_date_len f) 6 = 0 ->
  3 <= f_i f -> f_last_field_pos f = [] ->
  test (f_not_zero_date f) = negb (TIME_to_ulonglong_datetime t =? 0) ->
  f_found_delimitier f && negb (f_found_space f) &&
    test (flags .& TIME_DATETIME_ONLY) = false ->
  fst (check_date t (negb (TIME_to_ulonglong_datetime t =? 0)) flags 0) = false ->
  k = (if f_i f <=? 3 then MYSQL_TIMESTAMP_DATE else MYSQL_TIMESTAMP_DATETIME) ->
  str_to_datetime (fmt_u 4 (year t) ++ [45] ++ fmt_u 2 (month t) ++ rest) l flags =
  (k, mk_time (year t) (month t) (day t) (hour t) (minute t) (second t) 0 false k, 0).
Proof.
  intros (Hy & Hm & Hd & Hh & Hi & Hs) Hf Hdate Hyl Hfl Hfi Hlast Hnz Hdo Hc Hk.
  destruct (digits4 (year t)) as (Ha & Hb & Hcc & Hdd & Hyv); [lia|].
  destruct (digits2 (month t)) as (Hma & Hmb & Hmv); [lia|].
  rewrite fmt_u_4 by lia. rewrite fmt_u_2 in * by lia.
  set (a := year t / 1000) in *. set (b := year t / 100 mod 10) in *.
  set (c := year t / 10 mod 10) in *. set (d := year t mod 10) in *.
  cbn [app] in *. unfold str_to_datetime, datetime_finish.
  destruct (digit_class a Ha) as (Da & Sa & _).
  assert (skip_spaces ((48 + a) :: (48 + b) :: (48 + c) :: (48 + d) :: 45 ::
            (48 + month t / 10) :: (48 + month t mod 10) :: rest) =
          (48 + a) :: (48 + b) :: (48 + c) :: (48 + d) :: 45 ::
            (48 + month t / 10) :: (48 + month t mod 10) :: rest) as ->
    by (simpl; by rewrite Sa).
  rewrite Da. cbn [negb].
  assert (first_part ((48 + a) :: (48 + b) :: (48 + c) :: (48 + d) :: 45 ::
            (48 + month t / 10) :: (48 + month t mod 10) :: rest) =
          (4, 45 :: (48 + month t / 10) :: (48 + month t mod 10) :: rest)) as ->.
  { cbn [first_part].
    destruct (digit_class b Hb) as (-> & _), (digit_class c Hcc) as (-> & _),
      (digit_class d Hdd) as (-> & _). rewrite Da. reflexivity. }
  change (45 =? 46) with false. cbv iota zeta.
  change (MAX_DATE_PARTS - 1)%nat with 7%nat.
  rewrite field_loop_year by (done || lia). cbn [f_date f_date_len f_not_zero_date
    f_found_space app]. rewrite Z.lor_0_l, Hyv, Hf, Hdo, Hyl, Hfl, Hnz, Hlast.
  cbn [negb andb Z.eqb Pos.eqb Z.ltb Z.compare].
  assert (part (f_date f) 0 = year t /\ part (f_date f) 1 = month t /\
    part (f_date f) 2 = day t /\ part (f_date f) 3 = hour t /\
    part (f_date f) 4 = minute t /\ part (f_date f) 5 = second t /\
    part (f_date f) 6 = 0) as (-> & -> & -> & -> & -> & -> & ->).
  { destruct Hdate as [-> | (-> & -> & -> & ->)]; repeat split. }
  change (u32 (0 * _)) with 0.
  cbn [year month day hour minute second].
  replace (f_i f <? 3) with false by lia. replace (9999 <? year t) with false by lia.
  replace (12 <? month t) with false by lia. replace (31 <? day t) with false by lia.
  replace (23 <? hour t) with false by lia. replace (59 <? minute t) with false by lia.
  replace (59 <? second t) with false by lia. cbn [orb].
  set (nz := negb _) in *.
  match goal with |- context [check_date ?u nz flags 0] =>
    change (check_date u nz flags 0) with (check_date t nz flags 0) end.
  destruct (check_date t nz flags 0) as [bad wc] eqn:Ec. simpl in Hc. subst bad.
  destruct (check_date_was_cut _ _ _ _ _ _ Ec) as [-> _]; [|done].
  rewrite Hk. destruct (f_i f <=? 3); reflexivity.
Qed.

Lemma lor_test a b : 0 <= a -> 0 <= b -> test (a .| b) = test a || test b.
Proof.
  intros Ha Hb. unfold test. destruct (a =? 0) eqn:Ea, (b =? 0) eqn:Eb; b2p; simpl;
    destruct (a .| b =? 0) eqn:E; b2p; try reflexivity;
    try (apply Z.lor_eq_0_iff in E; lia); subst; try done.
Qed.

Lemma datetime_read t l flags :
  in_datetime_range t ->
  fst (check_date t (negb (TIME_to_ulonglong_datetime t =? 0)) flags 0) = false ->
  str_to_datetime (my_datetime_to_str t) l flags =
    (MYSQL_TIMESTAMP_DATETIME,
     mk_time (year t) (month t) (day t) (hour t) (minute t) (second t) 0 false
             MYSQL_TIMESTAMP_DATETIME, 0).
Proof.
  intros Hr Hc. pose proof Hr as (Hy & Hm & Hd & Hh & Hi & Hs).
  pose proof (digits2 (month t) ltac:(lia)) as (? & ? & Hmv).
  pose proof (digits2 (day t) ltac:(lia)) as (? & ? & Hdv).
  pose proof (digits2 (hour t) ltac:(lia)) as (? & ? & Hhv).
  pose proof (digits2 (minute t) ltac:(lia)) as (? & ? & Hiv).
  pose proof (digits2 (second t) ltac:(lia)) as (? & ? & Hsv).
  unfold my_datetime_to_str.
  eapply str_to_datetime_year; [done | | | | | | | | | done |].
  - rewrite !fmt_u_2 by lia. cbn [app].
    do 4 (rewrite field_loop_2 by (done || lia); cbn [f_i];
          rewrite ?skip_delims_punct by (done || lia);
          try (change (1 + 1) with 2; rewrite skip_delims_space by (done || lia))).
    rewrite field_loop_last by (cbn [f_i]; lia).
    cbn [f_date f_date_len f_not_zero_date f_found_delimitier f_found_space app f_i].
    rewrite Hmv, Hdv, Hhv, Hiv, Hsv. reflexivity.
  - left. reflexivity.
  - reflexivity.
  - reflexivity.
  - simpl; lia.
  - reflexivity.
  - cbn [f_not_zero_date].
    rewrite !lor_test by (rewrite ?Z.lor_nonneg; lia).
    rewrite TIME_to_ulonglong_datetime_small by done. unfold test. lia.
  - reflexivity.
  - reflexivity.
Qed.

Lemma date_read t l flags :
  in_datetime_range t ->
  fst (check_date t (negb (TIME_to_ulonglong_datetime t =? 0)) flags 0) = false ->
  hour t = 0 -> minute t = 0 -> second t = 0 ->
  test (flags .& TIME_DATETIME_ONLY) = false ->
  str_to_datetime (my_date_to_str t) l flags =
    (MYSQL_TIMESTAMP_DATE,
     mk_time (year t) (month t) (day t) 0 0 0 0 false MYSQL_TIMESTAMP_DATE, 0).
Proof.
  intros Hr Hc Eh Ei Es Hdo. pose proof Hr as (Hy & Hm & Hd & Hh & Hi & Hs).
  pose proof (digits2 (month t) ltac:(lia)) as (? & ? & Hmv).
  pose proof (digits2 (day t) ltac:(lia)) as (? & ? & Hdv).
  unfold my_date_to_str.
  replace (mk_time (year t) (month t) (day t) 0 0 0 0 false MYSQL_TIMESTAMP_DATE)
    with (mk_time (year t) (month t) (day t) (hour t) (minute t) (second t) 0
            false MYSQL_TIMESTAMP_DATE) by (rewrite Eh, Ei, Es; done).
  eapply str_to_datetime_year; [done | | | | | | | | | done |].
  - rewrite !fmt_u_2 by lia. cbn [app].
    rewrite field_loop_2 by (done || lia). cbn [f_i].
    rewrite skip_delims_punct by (done || lia).
    rewrite field_loop_last by (cbn [f_i]; lia).
    cbn [f_date f_date_len f_not_zero_date f_found_delimitier f_found_space app f_i].
    rewrite Hmv, Hdv. reflexivity.
  - right. done.
  - reflexivity.
  - reflexivity.
  - simpl; lia.
  - reflexivity.
  - cbn [f_not_zero_date].
    rewrite !lor_test by (rewrite ?Z.lor_nonneg; lia).
    rewrite TIME_to_ulonglong_datetime_small by done. unfold test. lia.
  - simpl. done.
  - reflexivity.
Qed.

(** C35.  What my_datetime_to_str and my_date_to_str print is read back by
    str_to_datetime: every normalized datetime that check_date accepts under
    the given flags survives (microseconds are not printed), as DATETIME or,
    for a date with a zero time and no TIME_DATETIME_ONLY, as DATE; nothing is
    cut. *)
Theorem datetime_str_roundtrip t l flags :
  in_datetime_range t ->
  fst (check_date t (negb (TIME_to_ulonglong_datetime t =? 0)) flags 0) = false ->
  str_to_datetime (my_datetime_to_str t) l flags =
    (MYSQL_TIMESTAMP_DATETIME,
     mk_time (year t) (month t) (day t) (hour t) (minute t) (second t) 0 false
             MYSQL_TIMESTAMP_DATETIME, 0) /\
  (hour t = 0 -> minute t = 0 -> second t = 0 ->
   test (flags .& TIME_DATETIME_ONLY) = false ->
   str_to_datetime (my_date_to_str t) l flags =
    (MYSQL_TIMESTAMP_DATE,
     mk_time (year t) (month t) (day t) 0 0 0 0 false MYSQL_TIMESTAMP_DATE, 0)).
Proof.
  intros Hr Hc. split; [by apply datetime_read|]. intros. by apply date_read.
Qed.

Lemma datetime_str_roundtrip_witness :
  let t := mk_time 2024 2 29 0 0 0 0 false MYSQL_TIMESTAMP_DATE in
  str_to_datetime (my_datetime_to_str t) zero_time 0 =
    (MYSQL_TIMESTAMP_DATETIME, with_type t MYSQL_TIMESTAMP_DATETIME, 0) /\
  (0 = 0 -> 0 = 0 -> 0 = 0 -> test (0 .& TIME_DATETIME_ONLY) = false ->
   str_to_datetime (my_date_to_str t) zero_time 0 =
    (MYSQL_TIMESTAMP_DATE, t, 0)).
Proof.
  apply (datetime_str_roundtrip
           (mk_time 2024 2 29 0 0 0 0 false MYSQL_TIMESTAMP_DATE) zero_time 0);
    [repeat split; discriminate | reflexivity].
Defined.

(** A field of many digits is read modulo 2^64 before its size is
    checked, so a year far beyond 9999 is silently taken for another one:
    "18446744073709553615-01-01" is accepted as 1999-01-01, uncut. *)
Theorem str_to_datetime_wraps :
  str_to_datetime [49;56;52;52;54;55;52;52;48;55;51;55;48;57;53;53;51;54;49;53;
                   45;48;49;45;48;49] zero_time 0 =
  (MYSQL_TIMESTAMP_DATE,
   mk_time 1999 1 1 0 0 0 0 false MYSQL_TIMESTAMP_DATE, 0).
Proof. reflexivity. Qed.

(** The mask [1 | 2 | 4 | 8] removes the bit of the fractional part from
    [allow_space], so that, against the comment above it, a space after the
    part seconds makes the whole string no timestamp. *)
Lemma space_after_fraction_rejected l flags :
  test (allow_space .& (1 .<< 6)) = false /\
  str_to_datetime [50;48;48;51;45;48;51;45;48;51;32;50;48;58;48;48;58;50;48;46;
                   53;32] l flags = (MYSQL_TIMESTAMP_NONE, l, 1).
Proof. split; reflexivity. Qed.


Lemma fmt_u_3 n :
  100 <= n < 1000 ->
  fmt_u 2 n = [48 + n / 100; 48 + n / 10 mod 10; 48 + n mod 10].
Proof.
  intros H. unfold fmt_u. rewrite decimal_app by lia.
  rewrite decimal_app, Z.div_div by zdiv. change (10 * 10) with 100.
  cbn [decimal]. replace (n / 100 <? 10) with true by zdiv. simpl.
  repeat (apply (f_equal2 cons); [zdiv|]); reflexivity.
Qed.

Lemma scan_value_digit v d rest :
  0 <= d <= 9 -> 0 <= v < 10 ^ 6 ->
  scan_value v ((48 + d) :: rest) = scan_value (v * 10 + d) rest.
Proof.
  intros Hd Hv. destruct (digit_class d Hd) as (H1 & _).
  cbn [scan_value]. rewrite H1. f_equal. rewrite u64_small by lia. lia.
Qed.

(** A printed number is read up to the next character that is not a digit. *)
Lemma scan_value_fmt n rest :
  0 <= n < 1000 ->
  match rest with c :: _ => my_isdigit c = false | [] => True end ->
  scan_value 0 (fmt_u 2 n ++ rest) = (n, rest).
Proof.
  intros Hn Hr.
  assert (forall v, scan_value v rest = (v, rest)) as Hstop.
  { intros v. destruct rest as [|c rest]; [done|]. simpl. by rewrite Hr. }
  destruct (Z.ltb_spec n 100).
  - rewrite fmt_u_2 by lia. destruct (digits2 n) as (? & ? & Hv); [lia|].
    cbn [app]. rewrite !scan_value_digit, Hstop by lia. f_equal. lia.
  - rewrite fmt_u_3 by lia. cbn [app].
    assert (0 <= n / 100 <= 9 /\ 0 <= n / 10 mod 10 <= 9 /\ 0 <= n mod 10 <= 9 /\
            ((0 * 10 + n / 100) * 10 + n / 10 mod 10) * 10 + n mod 10 = n)
      as (? & ? & ? & Hv) by zdiv.
    rewrite !scan_value_digit, Hstop by lia. f_equal. lia.
Qed.

Lemma fmt_u_head n :
  0 <= n < 1000 -> exists d l, fmt_u 2 n = (48 + d) :: l /\ 0 <= d <= 9 /\
    (1 <= length l <= 2)%nat.
Proof.
  intros H. destruct (Z.ltb_spec n 100).
  - rewrite fmt_u_2 by lia. eexists _, _; split; [reflexivity|]. simpl. zdiv.
  - rewrite fmt_u_3 by lia. eexists _, _; split; [reflexivity|]. simpl. zdiv.
Qed.

Lemma sep_digit_fmt sep n rest :
  0 <= n < 1000 -> sep_digit sep (sep :: fmt_u 2 n ++ rest) = Some (fmt_u 2 n ++ rest).
Proof.
  intros H. destruct (fmt_u_head n H) as (d & l & -> & Hd & _).
  cbn [app sep_digit]. rewrite Z.eqb_refl. by rewrite my_isdigit_digit.
Qed.

Lemma hms_loop_fmt h m s :
  0 <= m <= 59 -> 0 <= s <= 59 ->
  hms_loop 2 [0; h] (fmt_u 2 m ++ 58 :: fmt_u 2 s) = ([0; h; m; s], []).
Proof.
  intros Hm Hs. cbn [hms_loop]. rewrite scan_value_fmt by (done || lia).
  cbn [Nat.eqb]. rewrite <- (app_nil_r (fmt_u 2 s)), sep_digit_fmt by lia.
  by rewrite scan_value_fmt by (done || lia).
Qed.

(** What my_time_to_str prints is read back by str_to_time: every TIME
    value of the range -838:59:59 .. 838:59:59 without days and microseconds
    survives, with no warning. *)
Theorem time_str_roundtrip t l :
  0 <= hour t <= 838 -> 0 <= minute t <= 59 -> 0 <= second t <= 59 ->
  str_to_time (my_time_to_str t) l =
  (0, mk_time 0 0 0 (hour t) (minute t) (second t) 0 (neg t)
              MYSQL_TIMESTAMP_TIME, 0).
Proof.
  intros Hh Hm Hs. unfold my_time_to_str, str_to_time.
  set (body := fmt_u 2 (hour t) ++ [58] ++ fmt_u 2 (minute t) ++ [58] ++
               fmt_u 2 (second t)).
  destruct (fmt_u_head (hour t)) as (d & dl & Ehd & Hd & Hdl); [lia|].
  destruct (digit_class d Hd) as (Dd & Sd & _ & _ & _ & D45 & _).
  assert ((length body < 12)%nat) as Hlen.
  { subst body. rewrite Ehd, !fmt_u_2 by lia. rewrite !length_app. simpl. lia. }
  assert (exists b bl, body = b :: bl /\ b = 48 + d) as (b & bl & Eb & Ebd).
  { subst body. rewrite Ehd. simpl. eauto. }
  assert (match skip_spaces ((if neg t then [45] else []) ++ body) with
          | c :: rest => if c =? 45 then (with_neg l true, rest)
                         else (with_neg l false,
                               skip_spaces ((if neg t then [45] else []) ++ body))
          | [] => (with_neg l false, [])
          end = (with_neg l (neg t), body)) as ->.
  { destruct (neg t); [done|]. rewrite Eb, Ebd. cbn [app skip_spaces].
    by rewrite Sd, D45. }
  destruct body as [|b' bl'] eqn:Ebody; [discriminate|]. rewrite <- Ebody.
  destruct (12 <=? length body)%nat eqn:E12; b2p; [rewrite Ebody in E12; simpl in *; lia|].
  clear Hlen E12. subst body. clear Eb Ebody.
  unfold str_to_time_rest. rewrite scan_value_fmt by (done || lia).
  cbn [app skip_spaces]. change (my_isspace 58) with false. cbv iota.
  rewrite Nat.eqb_refl. cbn [negb andb].
  rewrite sep_digit_fmt, hms_loop_fmt by lia.
  destruct (fmt_u_head (minute t)) as (d' & dl' & -> & _); [lia|]. cbn [app].
  unfold time_tail. cbn [fractional sep_digit has_exponent part nth].
  unfold UINT_MAX. replace (2 ^ 32 - 1 <? hour t) with false by lia.
  replace (2 ^ 32 - 1 <? minute t) with false by lia.
  replace (2 ^ 32 - 1 <? second t) with false by lia. cbn [orb Z.ltb].
  unfold check_time_range. cbn [minute second hour day second_part].
  replace (60 <=? minute t) with false by lia.
  replace (60 <=? second t) with false by lia. cbn [orb].
  change (u32 (24 * 0)) with 0. rewrite u32_small by lia.
  rewrite Z.add_0_r. unfold TIME_MAX_HOUR.
  replace (hour t <=? 838) with true by lia. cbn [andb].
  rewrite Z.eqb_refl, orb_true_r. reflexivity.
Qed.

Lemma time_str_roundtrip_witness :
  let t := mk_time 0 0 0 838 59 59 0 true MYSQL_TIMESTAMP_TIME in
  str_to_time (my_time_to_str t) zero_time = (0, t, 0).
Proof.
  apply (time_str_roundtrip (mk_time 0 0 0 838 59 59 0 true MYSQL_TIMESTAMP_TIME)
           zero_time); simpl; lia.
Defined.
