(* ===== verification/MyBit.v ===== *)
(** * Bit tricks: include/my_bit.h, mysys/my_bit.c *)

From stdpp Require Import prelude list.
From Stdlib Require Import ZArith Lia.
From S2P Require Import Prelude Ctype.

Open Scope Z_scope.

Definition my_bits_nbits : list Z := [
  0; 1; 1; 2; 1; 2; 2; 3; 1; 2; 2; 3; 2; 3; 3; 4;
  1; 2; 2; 3; 2; 3; 3; 4; 2; 3; 3; 4; 3; 4; 4; 5;
  1; 2; 2; 3; 2; 3; 3; 4; 2; 3; 3; 4; 3; 4; 4; 5;
  2; 3; 3; 4; 3; 4; 4; 5; 3; 4; 4; 5; 4; 5; 5; 6;
  1; 2; 2; 3; 2; 3; 3; 4; 2; 3; 3; 4; 3; 4; 4; 5;
  2; 3; 3; 4; 3; 4; 4; 5; 3; 4; 4; 5; 4; 5; 5; 6;
  2; 3; 3; 4; 3; 4; 4; 5; 3; 4; 4; 5; 4; 5; 5; 6;
  3; 4; 4; 5; 4; 5; 5; 6; 4; 5; 5; 6; 5; 6; 6; 7;
  1; 2; 2; 3; 2; 3; 3; 4; 2; 3; 3; 4; 3; 4; 4; 5;
  2; 3; 3; 4; 3; 4; 4; 5; 3; 4; 4; 5; 4; 5; 5; 6;
  2; 3; 3; 4; 3; 4; 4; 5; 3; 4; 4; 5; 4; 5; 5; 6;
  3; 4; 4; 5; 4; 5; 5; 6; 4; 5; 5; 6; 5; 6; 6; 7;
  2; 3; 3; 4; 3; 4; 4; 5; 3; 4; 4; 5; 4; 5; 5; 6;
  3; 4; 4; 5; 4; 5; 5; 6; 4; 5; 5; 6; 5; 6; 6; 7;
  3; 4; 4; 5; 4; 5; 5; 6; 4; 5; 5; 6; 5; 6; 6; 7;
  4; 5; 5; 6; 5; 6; 6; 7; 5; 6; 6; 7; 6; 7; 7; 8 ].

Definition my_bits_reverse_table : list Z := [
0; 128; 64; 192; 32; 160; 96; 224; 16; 144; 80; 208; 48; 176; 112; 240;
  8; 136; 72; 200; 40; 168; 104; 232; 24; 152; 88; 216; 56; 184; 120; 248;
  4; 132; 68; 196; 36; 164; 100; 228; 20; 148; 84; 212; 52; 180; 116; 244;
  12; 140; 76; 204; 44; 172; 108; 236; 28; 156; 92; 220; 60; 188; 124; 252;
  2; 130; 66; 194; 34; 162; 98; 226; 18; 146; 82; 210; 50; 178; 114; 242;
  10; 138; 74; 202; 42; 170; 106; 234; 26; 154; 90; 218; 58; 186; 122; 250;
  6; 134; 70; 198; 38; 166; 102; 230; 22; 150; 86; 214; 54; 182; 118; 246;
  14; 142; 78; 206; 46; 174; 110; 238; 30; 158; 94; 222; 62; 190; 126; 254;
  1; 129; 65; 193; 33; 161; 97; 225; 17; 145; 81; 209; 49; 177; 113; 241;
  9; 137; 73; 201; 41; 169; 105; 233; 25; 153; 89; 217; 57; 185; 121; 249;
  5; 133; 69; 197; 37; 165; 101; 229; 21; 149; 85; 213; 53; 181; 117; 245;
  13; 141; 77; 205; 45; 173; 109; 237; 29; 157; 93; 221; 61; 189; 125; 253;
  3; 131; 67; 195; 35; 163; 99; 227; 19; 147; 83; 211; 51; 179; 115; 243;
  11; 139; 75; 203; 43; 171; 107; 235; 27; 155; 91; 219; 59; 187; 123; 251;
  7; 135; 71; 199; 39; 167; 103; 231; 23; 151; 87; 215; 55; 183; 119; 247;
  15; 143; 79; 207; 47; 175; 111; 239; 31; 159; 95; 223; 63; 191; 127; 255 ].

(** A table indexed by a [uchar]. *)
Definition tab (l : list Z) (i : Z) : Z := nth (Z.to_nat (u8 i)) l 0.

(** [for (bit=0 ; value > 1 ; value>>=1, bit++)]; 64 turns are enough for an
    [ulong]. *)
Fixpoint log2_loop (fuel : nat) (value bit : Z) : Z :=
  match fuel with
  | O => bit
  | S fuel => if 1 <? value then log2_loop fuel (value .>> 1) (bit + 1) else bit
  end.

Definition my_bit_log2 (value : Z) : Z := log2_loop 64 value 0.

Definition my_count_bits (v : Z) : Z :=
  let v2 := v .>> 32 in
  u8 (tab my_bits_nbits v + tab my_bits_nbits (v .>> 8) +
      tab my_bits_nbits (v .>> 16) + tab my_bits_nbits (v .>> 24) +
      tab my_bits_nbits v2 + tab my_bits_nbits (v2 .>> 8) +
      tab my_bits_nbits (v2 .>> 16) + tab my_bits_nbits (v2 .>> 24)).

Definition my_count_bits_uint32 (v : Z) : Z :=
  u8 (tab my_bits_nbits v + tab my_bits_nbits (v .>> 8) +
      tab my_bits_nbits (v .>> 16) + tab my_bits_nbits (v .>> 24)).

Definition my_round_up_to_next_power (v : Z) : Z :=
  let v := u32 (v - 1) in
  let v := v .| (v .>> 1) in
  let v := v .| (v .>> 2) in
  let v := v .| (v .>> 4) in
  let v := v .| (v .>> 8) in
  let v := v .| (v .>> 16) in
  u32 (v + 1).

Definition my_clear_highest_bit (v : Z) : Z :=
  let w := v .>> 1 in
  let w := w .| (w .>> 1) in
  let w := w .| (w .>> 2) in
  let w := w .| (w .>> 4) in
  let w := w .| (w .>> 8) in
  let w := w .| (w .>> 16) in
  v .& w.

Definition my_reverse_bits (key : Z) : Z :=
  (tab my_bits_reverse_table (key .& 255) .<< 24) .|
  (tab my_bits_reverse_table ((key .>> 8) .& 255) .<< 16) .|
  (tab my_bits_reverse_table ((key .>> 16) .& 255) .<< 8) .|
  tab my_bits_reverse_table (key .>> 24).

(** ** Specifications *)

(** The number of one bits among the [n] lowest. *)
Fixpoint popcount (n : nat) (v : Z) : Z :=
  match n with
  | O => 0
  | S n => (if Z.testbit v (Z.of_nat n) then 1 else 0) + popcount n v
  end.

Lemma popcount_ext n v w :
  (forall i, 0 <= i < Z.of_nat n -> Z.testbit v i = Z.testbit w i) ->
  popcount n v = popcount n w.
Proof.
  induction n as [|n IH]; intros H; simpl; [done|].
  rewrite H by lia. rewrite IH; [done|]. intros i Hi. apply H. lia.
Qed.

Lemma popcount_app n m v :
  popcount (n + m) v = popcount n v + popcount m (v .>> Z.of_nat n).
Proof.
  induction m as [|m IH]; [rewrite Nat.add_0_r; simpl; lia|].
  rewrite Nat.add_succ_r. simpl. rewrite IH, Z.shiftr_spec by lia.
  replace (Z.of_nat m + Z.of_nat n) with (Z.of_nat (n + m)) by lia. lia.
Qed.

Lemma popcount_bound n v : 0 <= popcount n v <= Z.of_nat n.
Proof. induction n; simpl; [lia|]. case_match; lia. Qed.

Lemma popcount_u8 v : popcount 8 (u8 v) = popcount 8 v.
Proof.
  apply popcount_ext. intros i Hi. unfold u8.
  by rewrite Z.mod_pow2_bits_low by lia.
Qed.

Lemma my_bits_nbits_spec v : tab my_bits_nbits v = popcount 8 v.
Proof.
  rewrite <- popcount_u8. unfold tab. apply Z.eqb_eq.
  refine (all_bytes_spec (fun c => nth (Z.to_nat c) my_bits_nbits 0 =? popcount 8 c)
            (u8 v) _ (u8_range v)). by vm_compute.
Qed.

(** Replaces one byte count of the goal by a number from 0 to 8. *)
Ltac bound_popcount :=
  match goal with |- context [popcount 8 ?x] =>
    pose proof (popcount_bound 8 x); generalize dependent (popcount 8 x); intros
  end.

Lemma my_count_bits_uint32_spec v : my_count_bits_uint32 v = popcount 32 v.
Proof.
  unfold my_count_bits_uint32. rewrite !my_bits_nbits_spec.
  change 32%nat with (8 + (8 + (8 + 8)))%nat.
  rewrite !popcount_app, !Z.shiftr_shiftr by lia.
  pose proof (popcount_bound 8 v). pose proof (popcount_bound 8 (v .>> 8)).
  pose proof (popcount_bound 8 (v .>> 16)). pose proof (popcount_bound 8 (v .>> 24)).
  change (Z.of_nat 8) with 8 in *. change (8 + 8) with 16. change (16 + 8) with 24.
  rewrite u8_small; lia.
Qed.

(** my_count_bits and my_count_bits_uint32, which add up table entries
    byte by byte in an [uchar], return the number of one bits of their
    argument. *)
Theorem my_count_bits_correct v :
  my_count_bits v = popcount 64 v /\ my_count_bits_uint32 v = popcount 32 v.
Proof.
  split; [|apply my_count_bits_uint32_spec].
  transitivity (my_count_bits_uint32 v + my_count_bits_uint32 (v .>> 32)).
  - pose proof (popcount_bound 32 v). pose proof (popcount_bound 32 (v .>> 32)).
    rewrite <- !my_count_bits_uint32_spec in *.
    unfold my_count_bits, my_count_bits_uint32 in *. rewrite !my_bits_nbits_spec in *.
    cbv zeta. repeat bound_popcount. rewrite !u8_small by lia. lia.
  - rewrite !my_count_bits_uint32_spec. change 64%nat with (32 + 32)%nat.
    by rewrite popcount_app.
Qed.

Lemma log2_loop_correct fuel v b :
  0 < v -> Z.log2 v <= Z.of_nat fuel -> log2_loop fuel v b = b + Z.log2 v.
Proof.
  revert v b. induction fuel as [|fuel IH]; intros v b Hv Hf; simpl.
  - pose proof (Z.log2_nonneg v). lia.
  - case_if.
    + assert (Z.log2 v = Z.log2 (v .>> 1) + 1) as E.
      { rewrite Z.log2_shiftr by lia.
        assert (1 <= Z.log2 v) by (apply Z.log2_le_pow2; lia). lia. }
      rewrite IH; [lia| |lia].
      rewrite Z.shiftr_div_pow2 by lia. change (2 ^ 1) with 2. zdiv.
    + assert (v = 1) as -> by lia. simpl. lia.
Qed.

(** my_bit_log2 is the binary logarithm rounded down, for every nonzero
    64 bit value: the largest X with [2^X <= value].  The comment above it
    announces the smallest X with [2^X >= value], which differs at every value
    that is not a power of two. *)
Theorem my_bit_log2_floor v :
  0 < v < 2 ^ 64 ->
  2 ^ my_bit_log2 v <= v < 2 ^ (my_bit_log2 v + 1) /\
  (2 ^ my_bit_log2 v >= v <-> v = 2 ^ my_bit_log2 v).
Proof.
  intros Hv. unfold my_bit_log2.
  assert (Z.log2 v < 64) by (apply Z.log2_lt_pow2; lia).
  rewrite log2_loop_correct, Z.add_0_l, Z.add_1_r by lia.
  pose proof (Z.log2_spec v ltac:(lia)). lia.
Qed.

Lemma my_bit_log2_floor_witness : my_bit_log2 5 = 2 /\ ~ 2 ^ my_bit_log2 5 >= 5.
Proof.
  split; [reflexivity|]. pose proof (my_bit_log2_floor 5).
  intros H5. apply H in H5; [discriminate | split; reflexivity].
Defined.

(** ** Smearing *)

(** [w] has bit [i] exactly when one of the bits [i .. i+n-1] of [v] is set. *)
Definition smeared (v : Z) (n : nat) (w : Z) : Prop :=
  0 <= w /\
  forall i, 0 <= i ->
    Z.testbit w i = existsb (fun j => Z.testbit v (i + Z.of_nat j)) (seq 0 n).

Lemma smeared_one v : 0 <= v -> smeared v 1 v.
Proof. split; [done|]. intros i Hi. simpl. by rewrite Z.add_0_r, orb_false_r. Qed.

Lemma smeared_double v n w :
  smeared v n w -> smeared v (n + n) (w .| (w .>> Z.of_nat n)).
Proof.
  intros [Hw Hb]. split; [apply Z.lor_nonneg; rewrite Z.shiftr_nonneg; lia|].
  intros i Hi. rewrite Z.lor_spec, Z.shiftr_spec, !Hb by lia.
  rewrite seq_app, existsb_app. f_equal. simpl.
  apply eq_iff_eq_true. rewrite !existsb_exists. split.
  - intros (j & Hj & Hv). exists (n + j)%nat. rewrite in_seq in *.
    split; [lia|]. rewrite <- Hv. f_equal. lia.
  - intros (j & Hj & Hv). exists (j - n)%nat. rewrite in_seq in *.
    split; [lia|]. rewrite <- Hv. f_equal. lia.
Qed.

Lemma smeared_zero n w : smeared 0 n w -> w = 0.
Proof.
  intros [Hw Hb]. apply Z.bits_inj'. intros i Hi. rewrite Hb, Z.bits_0 by done.
  apply not_true_iff_false. rewrite existsb_exists. intros (j & _ & Hj).
  by rewrite Z.bits_0 in Hj.
Qed.

Lemma smeared_full v w :
  0 < v < 2 ^ 32 -> smeared v 32 w -> w = 2 ^ (Z.log2 v + 1) - 1.
Proof.
  intros Hv [Hw Hb].
  assert (0 <= Z.log2 v < 32).
  { split; [apply Z.log2_nonneg | apply Z.log2_lt_pow2; lia]. }
  rewrite Z.sub_1_r, <- Z.ones_equiv. apply Z.bits_inj'. intros i Hi.
  rewrite Hb by done. destruct (decide (i <= Z.log2 v)).
  - rewrite Z.ones_spec_low by lia. apply existsb_exists.
    exists (Z.to_nat (Z.log2 v - i)). rewrite in_seq. split; [lia|].
    rewrite Z2Nat.id by lia. replace (i + (Z.log2 v - i)) with (Z.log2 v) by lia.
    apply Z.bit_log2. lia.
  - rewrite Z.ones_spec_high by lia. apply not_true_iff_false.
    rewrite existsb_exists. intros (j & _ & Hj).
    rewrite Z.bits_above_log2 in Hj by lia. done.
Qed.

(** The five steps [v|= v >> 1] .. [v|= v >> 16]. *)
Lemma smear_steps v :
  0 <= v ->
  let w := v .| (v .>> 1) in
  let w := w .| (w .>> 2) in
  let w := w .| (w .>> 4) in
  let w := w .| (w .>> 8) in
  smeared v 32 (w .| (w .>> 16)).
Proof.
  intros Hv. cbv zeta.
  apply (smeared_double _ 16), (smeared_double _ 8), (smeared_double _ 4),
    (smeared_double _ 2), (smeared_double _ 1), smeared_one, Hv.
Qed.

(** my_round_up_to_next_power returns the smallest power of two that is
    not below its argument, for every argument from 1 to [2^31]; larger
    arguments and 0 give 0. *)
Theorem my_round_up_to_next_power_correct v :
  0 <= v < 2 ^ 32 ->
  (1 <= v <= 2 ^ 31 ->
     exists k, 0 <= k <= 31 /\ my_round_up_to_next_power v = 2 ^ k /\ v <= 2 ^ k /\
       forall j, 0 <= j -> v <= 2 ^ j -> k <= j) /\
  (v = 0 \/ 2 ^ 31 < v -> my_round_up_to_next_power v = 0).
Proof.
  intros Hv. unfold my_round_up_to_next_power. cbv zeta.
  pose proof (smear_steps (u32 (v - 1))) as Hs. cbv zeta in Hs.
  pose proof (u32_range (v - 1)) as Hr. specialize (Hs ltac:(lia)).
  remember (_ .| (_ .>> 16)) as w eqn:Ew. clear Ew.
  destruct (decide (v = 1)) as [->|Hne].
  { split; [|lia]. intros _. exists 0. apply smeared_zero in Hs as ->.
    repeat split; try done; lia. }
  destruct (decide (v = 0)) as [->|Hne0].
  { split; [lia|]. intros _. apply smeared_full in Hs; [|done]. by subst w. }
  rewrite (u32_small (v - 1)) in * by lia.
  apply smeared_full in Hs; [|lia]. subst w.
  rewrite Z.sub_add. pose proof (Z.log2_nonneg (v - 1)).
  pose proof (Z.log2_spec (v - 1) ltac:(lia)) as Hl.
  split; intros Hc.
  - assert (Z.log2 (v - 1) < 31) by (apply Z.log2_lt_pow2; lia).
    exists (Z.log2 (v - 1) + 1). split_and!; [lia|lia| |lia|].
    + apply u32_small. split; [lia|]. apply Z.pow_lt_mono_r; lia.
    + intros j Hj Hvj. assert (Z.log2 (v - 1) < j) by (apply Z.log2_lt_pow2; lia). lia.
  - destruct Hc as [|Hc]; [lia|].
    assert (31 <= Z.log2 (v - 1)) by (apply Z.log2_le_pow2; lia).
    assert (Z.log2 (v - 1) < 32) by (apply Z.log2_lt_pow2; lia).
    by replace (Z.log2 (v - 1)) with 31 by lia.
Qed.

Lemma my_round_up_to_next_power_correct_witness :
  exists k, 0 <= k <= 31 /\ my_round_up_to_next_power 1611 = 2 ^ k /\ 1611 <= 2 ^ k /\
    forall j, 0 <= j -> 1611 <= 2 ^ j -> k <= j.
Proof. apply (my_round_up_to_next_power_correct 1611); lia. Defined.

(** my_clear_highest_bit removes the leading one bit. *)
Lemma my_clear_highest_bit_correct v :
  0 < v < 2 ^ 32 -> my_clear_highest_bit v = v - 2 ^ Z.log2 v.
Proof.
  intros Hv. unfold my_clear_highest_bit. cbv zeta.
  pose proof (Z.log2_spec v ltac:(lia)) as Hl. pose proof (Z.log2_nonneg v).
  assert (0 <= v .>> 1) by (apply Z.shiftr_nonneg; lia).
  pose proof (smear_steps (v .>> 1) ltac:(lia)) as Hs. cbv zeta in Hs.
  remember (_ .| (_ .>> 16)) as w eqn:Ew. clear Ew.
  assert (w = Z.ones (Z.log2 v)) as ->.
  { rewrite Z.ones_equiv. destruct (decide (v = 1)) as [->|].
    - by apply smeared_zero in Hs as ->.
    - apply smeared_full in Hs.
      + rewrite Hs, Z.log2_shiftr by lia.
        assert (1 <= Z.log2 v) by (apply Z.log2_le_pow2; lia).
        rewrite Z.max_r by lia. rewrite Z.sub_add. lia.
      + rewrite Z.shiftr_div_pow2 by lia. change (2 ^ 1) with 2. zdiv. }
  rewrite Z.land_ones by lia. rewrite Z.pow_succ_r in Hl by lia.
  symmetry. apply Z.mod_unique with 1; lia.
Qed.

(** ** Bit reversal *)

Lemma my_bits_reverse_table_range v : 0 <= tab my_bits_reverse_table v < 256.
Proof.
  unfold tab.
  assert ((0 <=? nth (Z.to_nat (u8 v)) my_bits_reverse_table 0) &&
          (nth (Z.to_nat (u8 v)) my_bits_reverse_table 0 <? 256) = true); [|b2p; lia].
  refine (all_bytes_spec (fun c => (0 <=? nth (Z.to_nat c) my_bits_reverse_table 0) &&
            (nth (Z.to_nat c) my_bits_reverse_table 0 <? 256)) (u8 v) _ (u8_range v)).
  by vm_compute.
Qed.

Lemma my_bits_reverse_table_spec v i :
  0 <= i < 8 -> Z.testbit (tab my_bits_reverse_table v) i = Z.testbit v (7 - i).
Proof.
  intros Hi. transitivity (Z.testbit (u8 v) (7 - i)).
  - unfold tab.
    pose proof (all_bytes_spec (fun c =>
      forallb (fun i => Bool.eqb (Z.testbit (nth (Z.to_nat c) my_bits_reverse_table 0) i)
                                 (Z.testbit c (7 - i)))
              (map Z.of_nat (seq 0 8))) (u8 v) ltac:(by vm_compute) (u8_range v)) as H.
    cbv beta in H. rewrite forallb_forall in H. apply eqb_prop, H.
    apply in_map_iff. exists (Z.to_nat i). rewrite in_seq. lia.
  - unfold u8. by rewrite Z.mod_pow2_bits_low by lia.
Qed.

(** One byte of the reversed word. *)
Lemma testbit_byte_shl b s i :
  0 <= b < 256 -> 0 <= s -> 0 <= i ->
  Z.testbit (b .<< s) i = (s <=? i) && (i <? s + 8) && Z.testbit b (i - s).
Proof.
  intros Hb Hs Hi. rewrite Z.shiftl_spec by done.
  destruct (s <=? i) eqn:E1; b2p; simpl.
  - destruct (i <? s + 8) eqn:E2; b2p; [done|]. simpl.
    destruct (decide (b = 0)) as [->|]; [apply Z.bits_0|].
    apply Z.bits_above_log2; [lia|]. apply Z.log2_lt_pow2; [lia|].
    apply Z.lt_le_trans with (2 ^ 8); [lia|]. apply Z.pow_le_mono_r; lia.
  - apply Z.testbit_neg_r. lia.
Qed.

Lemma my_reverse_bits_testbit v i :
  0 <= i < 32 -> Z.testbit (my_reverse_bits v) i = Z.testbit v (31 - i).
Proof.
  intros Hi. unfold my_reverse_bits. rewrite !Z.lor_spec.
  rewrite <- (Z.shiftl_0_r (tab _ (v .>> 24))).
  rewrite !testbit_byte_shl by (apply my_bits_reverse_table_range || lia).
  assert (0 <= i < 8 \/ 8 <= i < 16 \/ 16 <= i < 24 \/ 24 <= i < 32) as C by lia.
  destruct C as [C | [C | [C | C]]];
    repeat match goal with
    | |- context [?a <=? ?b] => (replace (a <=? b) with true by lia) ||
                                (replace (a <=? b) with false by lia)
    | |- context [?a <? ?b] => (replace (a <? b) with true by lia) ||
                               (replace (a <? b) with false by lia)
    end; cbn [andb orb]; rewrite ?orb_false_r;
    rewrite my_bits_reverse_table_spec by lia;
    change 255 with (Z.ones 8); rewrite ?Z.land_spec, ?Z.shiftr_spec by lia;
    rewrite ?Z.ones_spec_low by lia; rewrite ?andb_true_r; f_equal; lia.
Qed.

Lemma my_reverse_bits_high v i : 32 <= i -> Z.testbit (my_reverse_bits v) i = false.
Proof.
  intros Hi. unfold my_reverse_bits. rewrite !Z.lor_spec.
  rewrite <- (Z.shiftl_0_r (tab _ (v .>> 24))).
  rewrite !testbit_byte_shl by (apply my_bits_reverse_table_range || lia).
  repeat match goal with |- context [i <? ?b] => replace (i <? b) with false by lia end.
  by rewrite !andb_false_r.
Qed.

(** my_reverse_bits, which works a byte at a time through a table, moves
    bit [31 - i] to bit [i] for all 32 bits, and undoes itself. *)
Theorem my_reverse_bits_correct v :
  (forall i, 0 <= i < 32 -> Z.testbit (my_reverse_bits v) i = Z.testbit v (31 - i)) /\
  my_reverse_bits (my_reverse_bits v) = u32 v.
Proof.
  split; [intros; by apply my_reverse_bits_testbit|].
  apply Z.bits_inj'. intros i Hi. unfold u32. destruct (decide (i < 32)).
  - rewrite Z.mod_pow2_bits_low, !my_reverse_bits_testbit by lia. f_equal; lia.
  - rewrite Z.mod_pow2_bits_high, my_reverse_bits_high by lia. done.
Qed.
