(* ===== verification/Bitmap.v ===== *)
(** * Bitmaps: mysys/my_bitmap.c, include/my_bitmap.h

    The buffer is a list of 32 bit words; the code also addresses it byte by
    byte, which is modelled for a little-endian host: byte [k] is byte
    [k mod 4] of word [k / 4].  An access outside the buffer makes the
    operation return [None].  The bits below [n_bits] are read as a finite set
    of indices, and the operations are proved to be the operations of finite
    sets.  Mutexes are not modelled: the functions that lock are the ones
    they wrap. *)

From stdpp Require Import prelude list list_numbers gmap sets fin_sets.
From Stdlib Require Import ZArith Lia ZifyNat.
From S2P Require Import Prelude Ctype MyBit.

Open Scope Z_scope.

(** ** Words and bytes *)

Definition WORD_ALL : Z := 0xFFFFFFFF.

(** [~w] in 32 bits. *)
Definition not32 (w : Z) : Z := w .^ WORD_ALL.

Definition word_byte (w : Z) (k : nat) : Z := u8 (w .>> (8 * Z.of_nat k)).

Definition word_set_byte (w : Z) (k : nat) (v : Z) : Z :=
  (w .& not32 (255 .<< (8 * Z.of_nat k))) .| (v .<< (8 * Z.of_nat k)).

Definition mem_byte (ws : list Z) (k : nat) : option Z :=
  w ← ws !! (k / 4)%nat; Some (word_byte w (k mod 4)).

Definition mem_set_byte (ws : list Z) (k : nat) (v : Z) : option (list Z) :=
  w ← ws !! (k / 4)%nat; Some (<[(k / 4)%nat := word_set_byte w (k mod 4) v]> ws).

(** [memset(buffer + k, v, n)]. *)
Fixpoint mem_set_bytes (ws : list Z) (k n : nat) (v : Z) : option (list Z) :=
  match n with
  | O => Some ws
  | S n => ws' ← mem_set_byte ws k v; mem_set_bytes ws' (S k) n v
  end.

(** [for (; to < end; to++, from++) *to= f( *to, *from)] over [n] words. *)
Fixpoint upd_words (f : Z -> Z -> Z) (n : nat) (to from : list Z) : option (list Z) :=
  match n, to, from with
  | O, _, _ => Some to
  | S n, t :: to, w :: from => r ← upd_words f n to from; Some (f t w :: r)
  | S _, _, _ => None
  end.

(** The same with no second operand. *)
Definition map_words (f : Z -> Z) (n : nat) (to : list Z) : option (list Z) :=
  upd_words (fun t _ => f t) n to to.

(** ** MY_BITMAP *)

Definition MY_BIT_NONE : Z := 2 ^ 32 - 1.

(** [last_word_ptr] is an index into [bitmap]; the null buffer is [[]]. *)
Record MY_BITMAP : Type := mk_bitmap {
  bitmap : list Z;
  n_bits : nat;
  last_word_mask : Z;
  last_word_ptr : nat;
  mutex : bool
}.

Definition with_bitmap (m : MY_BITMAP) (ws : list Z) : MY_BITMAP :=
  mk_bitmap ws (n_bits m) (last_word_mask m) (last_word_ptr m) (mutex m).

Definition bitmap_buffer_size (bits : nat) : nat := (wrap32 (bits + 31) / 32 * 4)%nat.
Definition no_bytes_in_map (m : MY_BITMAP) : nat := (wrap32 (n_bits m + 7) / 8)%nat.
Definition no_words_in_map (m : MY_BITMAP) : nat := (wrap32 (n_bits m + 31) / 32)%nat.

Definition create_last_word_mask (m : MY_BITMAP) : MY_BITMAP :=
  let used := 1 + (u32 (Z.of_nat (n_bits m) - 1) .& 7) in
  let mask := Z.lnot ((1 .<< used) - 1) .& 255 in
  let last_word_mask :=
    match (no_bytes_in_map m mod 4)%nat with
    | 1%nat => word_set_byte WORD_ALL 0 mask
    | 2%nat => word_set_byte (word_set_byte WORD_ALL 0 0) 1 mask
    | 3%nat => word_set_byte (word_set_byte 0 2 mask) 3 255
    | _ => word_set_byte 0 3 mask
    end in
  mk_bitmap (bitmap m) (n_bits m) last_word_mask (no_words_in_map m - 1) (mutex m).

(** [*map->last_word_ptr]. *)
Definition last_word (m : MY_BITMAP) : option Z := bitmap m !! last_word_ptr m.

(** The words before the last one, which the loops that run up to
    [last_word_ptr] visit. *)
Definition full_words (m : MY_BITMAP) : list Z := take (last_word_ptr m) (bitmap m).

(** *** Single bits *)

(** The byte and the mask of a bit, as all the one-bit macros compute them. *)
Definition bit_mask (bit : nat) : Z := 1 .<< (Z.of_nat bit .& 7).

Definition upd_byte (m : MY_BITMAP) (f : Z -> Z) (k : nat) : option MY_BITMAP :=
  v ← mem_byte (bitmap m) k;
  ws ← mem_set_byte (bitmap m) k (f v);
  Some (with_bitmap m ws).

Definition bitmap_set_bit (m : MY_BITMAP) (bit : nat) : option MY_BITMAP :=
  upd_byte m (fun v => v .| bit_mask bit) (bit / 8).

Definition bitmap_flip_bit (m : MY_BITMAP) (bit : nat) : option MY_BITMAP :=
  upd_byte m (fun v => v .^ bit_mask bit) (bit / 8).

Definition bitmap_clear_bit (m : MY_BITMAP) (bit : nat) : option MY_BITMAP :=
  upd_byte m (fun v => v .& Z.lnot (bit_mask bit)) (bit / 8).

Definition bitmap_is_set (m : MY_BITMAP) (bit : nat) : option Z :=
  v ← mem_byte (bitmap m) (bit / 8); Some (v .& bit_mask bit).

Definition bitmap_fast_test_and_set (m : MY_BITMAP) (bit : nat)
    : option (Z * MY_BITMAP) :=
  v ← mem_byte (bitmap m) (bit / 8);
  m' ← upd_byte m (fun v => v .| bit_mask bit) (bit / 8);
  Some (v .& bit_mask bit, m').

Definition bitmap_test_and_set := bitmap_fast_test_and_set.

Definition bitmap_fast_test_and_clear (m : MY_BITMAP) (bit : nat)
    : option (Z * MY_BITMAP) :=
  v ← mem_byte (bitmap m) (bit / 8);
  m' ← upd_byte m (fun v => v .& Z.lnot (bit_mask bit)) (bit / 8);
  Some (v .& bit_mask bit, m').

Definition bitmap_test_and_clear := bitmap_fast_test_and_clear.

(** *** Creation *)

Definition bitmap_clear_all (m : MY_BITMAP) : option MY_BITMAP :=
  ws ← mem_set_bytes (bitmap m) 0 (4 * no_words_in_map m) 0; Some (with_bitmap m ws).

Definition bitmap_set_all (m : MY_BITMAP) : option MY_BITMAP :=
  ws ← mem_set_bytes (bitmap m) 0 (4 * no_words_in_map m) 255; Some (with_bitmap m ws).

Definition ALIGN_SIZE (n : nat) : nat := ((n + 7) / 8 * 8)%nat.

Inductive init_result : Type :=
| InitOk (m : MY_BITMAP)
| InitNoMemory
| InitOutOfBounds.

(** [buf] is the buffer of the caller, [None] for the null pointer; [malloc]
    answers the allocation with a block of words, [None] when it fails.  The
    mutex of a thread safe map lies behind the words. *)
Definition bitmap_init (buf : option (list Z)) (malloc : nat -> option (list Z))
    (sizeof_mutex : nat) (bits : nat) (thread_safe : bool) : init_result :=
  let start b mtx :=
    match bitmap_clear_all (create_last_word_mask (mk_bitmap b bits 0 0 mtx)) with
    | Some m => InitOk m
    | None => InitOutOfBounds
    end in
  match buf with
  | Some b => start b false
  | None =>
    let size_in_bytes := if thread_safe then ALIGN_SIZE (bitmap_buffer_size bits)
                         else bitmap_buffer_size bits in
    let extra := if thread_safe then sizeof_mutex else O in
    match malloc (size_in_bytes + extra)%nat with
    | None => InitNoMemory
    | Some b => start (take (size_in_bytes / 4) b) thread_safe
    end
  end.

Definition bitmap_free (m : MY_BITMAP) : MY_BITMAP :=
  match bitmap m with [] => m | _ => with_bitmap m [] end.

(** *** Searching *)

(** [for (bit_pos=0; ; bit_pos++) if (byte_value & (1 << bit_pos)) return]:
    the loop has no bound of its own. *)
Fixpoint first_bit (fuel : nat) (byte_value : Z) (bit_pos : nat) : option nat :=
  match fuel with
  | O => None
  | S fuel => if test (byte_value .& (1 .<< Z.of_nat bit_pos)) then Some bit_pos
              else first_bit fuel byte_value (S bit_pos)
  end.

Fixpoint first_set_byte (n : nat) (value : Z) (word_pos byte_pos : nat) : option Z :=
  match n with
  | O => Some MY_BIT_NONE
  | S n =>
    let byte_value := word_byte value byte_pos in
    if test byte_value then
      bit_pos ← first_bit 8 byte_value 0;
      Some (u32 (Z.of_nat word_pos * 32 + Z.of_nat byte_pos * 8 + Z.of_nat bit_pos))
    else first_set_byte n value word_pos (S byte_pos)
  end.

Definition get_first_set (value : Z) (word_pos : nat) : option Z :=
  first_set_byte 4 value word_pos 0.

Fixpoint first_zero_bit (fuel : nat) (byte_value : Z) (bit_pos : nat) : option nat :=
  match fuel with
  | O => None
  | S fuel => if negb (test (byte_value .& (1 .<< Z.of_nat bit_pos))) then Some bit_pos
              else first_zero_bit fuel byte_value (S bit_pos)
  end.

Fixpoint first_not_set_byte (n : nat) (value : Z) (word_pos byte_pos : nat) : option Z :=
  match n with
  | O => Some MY_BIT_NONE
  | S n =>
    let byte_value := word_byte value byte_pos in
    if negb (byte_value =? 0xFF) then
      bit_pos ← first_zero_bit 8 byte_value 0;
      Some (u32 (Z.of_nat word_pos * 32 + Z.of_nat byte_pos * 8 + Z.of_nat bit_pos))
    else first_not_set_byte n value word_pos (S byte_pos)
  end.

Definition get_first_not_set (value : Z) (word_pos : nat) : option Z :=
  first_not_set_byte 4 value word_pos 0.

Fixpoint first_set_loop (last : Z) (ws : list Z) (word_pos : nat) : option Z :=
  match ws with
  | [] => get_first_set last word_pos
  | w :: ws => if test w then get_first_set w word_pos
               else first_set_loop last ws (S word_pos)
  end.

Definition bitmap_get_first_set (m : MY_BITMAP) : option Z :=
  last ← last_word m;
  first_set_loop (last .& not32 (last_word_mask m)) (full_words m) 0.

Fixpoint first_not_set_loop (last : Z) (ws : list Z) (word_pos : nat) : option Z :=
  match ws with
  | [] => get_first_not_set last word_pos
  | w :: ws => if negb (w =? WORD_ALL) then get_first_not_set w word_pos
               else first_not_set_loop last ws (S word_pos)
  end.

Definition bitmap_get_first (m : MY_BITMAP) : option Z :=
  last ← last_word m;
  first_not_set_loop (last .| last_word_mask m) (full_words m) 0.

Definition bitmap_set_next (m : MY_BITMAP) : option (Z * MY_BITMAP) :=
  bit_found ← bitmap_get_first m;
  if negb (bit_found =? MY_BIT_NONE) then
    m' ← bitmap_set_bit m (Z.to_nat bit_found); Some (bit_found, m')
  else Some (bit_found, m).

(** *** Prefixes *)

Definition bitmap_set_prefix (m : MY_BITMAP) (prefix_size : nat) : option MY_BITMAP :=
  let prefix_size := if (n_bits m <? prefix_size)%nat then n_bits m else prefix_size in
  let prefix_bytes := (prefix_size / 8)%nat in
  ws ← mem_set_bytes (bitmap m) 0 prefix_bytes 255;
  let p := prefix_bytes in
  let prefix_bits := (prefix_size mod 8)%nat in
  '(ws, p) ← (if negb (prefix_bits =? 0)%nat
              then ws ← mem_set_byte ws p ((1 .<< Z.of_nat prefix_bits) - 1);
                   Some (ws, S p)
              else Some (ws, p));
  let d := (no_bytes_in_map m - prefix_bytes)%nat in
  ws ← mem_set_bytes ws p d 0;
  Some (with_bitmap m ws).

(** The pointers are compared as indices; [None] is a read past the buffer. *)
Definition bitmap_is_prefix (m : MY_BITMAP) (prefix_size : nat) : option bool :=
  let prefix_bits := (prefix_size mod 32)%nat in
  let end_prefix := (prefix_size / 32)%nat in
  last ← last_word m;
  let lw := last .& not32 (last_word_mask m) in
  if negb (forallb (fun w => w =? WORD_ALL) (take end_prefix (bitmap m)))
  then Some false
  else
    let ones := u32 ((1 .<< Z.of_nat prefix_bits) - 1) in
    let zeros word_ptr :=
      Some (if negb (forallb (fun w => w =? 0)
                       (drop word_ptr (full_words m)))
            then false
            else (last_word_ptr m <? word_ptr)%nat || (lw =? 0)) in
    if negb (prefix_bits =? 0)%nat then
      if (end_prefix =? last_word_ptr m)%nat then Some (lw =? ones)
      else
        w ← bitmap m !! end_prefix;
        if negb (w =? ones) then Some false else zeros (S end_prefix)
    else zeros end_prefix.

Definition bitmap_set_above (m : MY_BITMAP) (from_byte : nat) (use_bit : bool)
    : option MY_BITMAP :=
  let use_byte := if use_bit then 255 else 0 in
  ws ← mem_set_bytes (bitmap m) from_byte (wrap32 (n_bits m + 7) / 8 - from_byte) use_byte;
  Some (with_bitmap m ws).

(** *** Tests on whole maps *)

Definition bitmap_is_set_all (m : MY_BITMAP) : option bool :=
  last ← last_word m;
  Some (forallb (fun w => w =? WORD_ALL) (full_words m) &&
        ((last .| last_word_mask m) =? WORD_ALL)).

Definition bitmap_is_clear_all (m : MY_BITMAP) : option bool :=
  last ← last_word m;
  Some (forallb (fun w => negb (test w)) (full_words m) &&
        negb (test (last .& not32 (last_word_mask m)))).

(** The loops of bitmap_is_subset, bitmap_is_overlapping and the memcmp of
    bitmap_cmp: does [p] hold of all the pairs of words before the last? *)
Definition forall_words (p : Z -> Z -> bool) (m1 m2 : MY_BITMAP) : bool :=
  forallb (fun '(w1, w2) => p w1 w2)
    (zip (full_words m1) (take (last_word_ptr m1) (bitmap m2))).

Definition bitmap_is_subset (m1 m2 : MY_BITMAP) : option bool :=
  l1 ← last_word m1;
  l2 ← last_word m2;
  Some (forall_words (fun w1 w2 => negb (test (w1 .& not32 w2))) m1 m2 &&
        negb (test ((l1 .& not32 (last_word_mask m1)) .&
                    not32 (l2 .& not32 (last_word_mask m2))))).

Definition bitmap_is_overlapping (m1 m2 : MY_BITMAP) : option bool :=
  l1 ← last_word m1;
  l2 ← last_word m2;
  Some (negb (forall_words (fun w1 w2 => negb (test (w1 .& w2))) m1 m2) ||
        test ((l1 .& not32 (last_word_mask m1)) .&
              (l2 .& not32 (last_word_mask m2)))).

Definition bitmap_cmp (m1 m2 : MY_BITMAP) : option bool :=
  l1 ← last_word m1;
  l2 ← last_word m2;
  Some (forall_words Z.eqb m1 m2 &&
        ((l1 .| last_word_mask m1) =? (l2 .| last_word_mask m2))).

Definition bitmap_bits_set (m : MY_BITMAP) : option Z :=
  last ← last_word m;
  Some (u32 (fold_left (fun res w => u32 (res + my_count_bits_uint32 w)) (full_words m) 0 +
             my_count_bits_uint32 (last .& not32 (last_word_mask m)))).

(** *** Set operations *)

(** The loops [for (; to <= end; to++, from++)] with [end= map->last_word_ptr]. *)
Definition upd_all (f : Z -> Z -> Z) (m m2 : MY_BITMAP) : option MY_BITMAP :=
  ws ← upd_words f (S (last_word_ptr m)) (bitmap m) (bitmap m2);
  Some (with_bitmap m ws).

Definition bitmap_subtract (m m2 : MY_BITMAP) : option MY_BITMAP :=
  upd_all (fun t w => t .& not32 w) m m2.

Definition bitmap_union (m m2 : MY_BITMAP) : option MY_BITMAP := upd_all Z.lor m m2.

Definition bitmap_xor (m m2 : MY_BITMAP) : option MY_BITMAP := upd_all Z.lxor m m2.

Definition bitmap_copy (m m2 : MY_BITMAP) : option MY_BITMAP :=
  upd_all (fun _ w => w) m m2.

Definition bitmap_invert (m : MY_BITMAP) : option MY_BITMAP :=
  ws ← map_words (fun t => t .^ WORD_ALL) (S (last_word_ptr m)) (bitmap m);
  Some (with_bitmap m ws).

(** The two maps may differ in size. *)
Definition bitmap_intersect (m m2 : MY_BITMAP) : option MY_BITMAP :=
  let len := no_words_in_map m in
  let len2 := no_words_in_map m2 in
  ws ← upd_words Z.land (len `min` len2) (bitmap m) (bitmap m2);
  ws ← (if (len2 <=? len)%nat
        then w ← ws !! (len2 - 1)%nat;
             Some (<[(len2 - 1)%nat := w .& not32 (last_word_mask m2)]> ws)
        else Some ws);
  ws ← (if (len2 <? len)%nat
        then tl ← map_words (fun _ => 0) (len - len2) (drop len2 ws);
             Some (take len2 ws ++ tl)
        else Some ws);
  Some (with_bitmap m ws).

(** ** Words, bit by bit *)

Definition word_ok (w : Z) : Prop := 0 <= w < 2 ^ 32.

Lemma word_ok_bits w : 0 <= w -> (forall i, 32 <= i -> Z.testbit w i = false) -> word_ok w.
Proof. intros Hw H. split; [done|]. apply bits_below; [lia|done|done]. Qed.

Lemma word_ok_high w i : word_ok w -> 32 <= i -> Z.testbit w i = false.
Proof. apply bits_above. Qed.

Lemma word_ext v w :
  word_ok v -> word_ok w ->
  (forall i, 0 <= i < 32 -> Z.testbit v i = Z.testbit w i) -> v = w.
Proof.
  intros Hv Hw H. apply Z.bits_inj'. intros i Hi.
  destruct (decide (i < 32)); [apply H; lia|]. by rewrite !word_ok_high by (done || lia).
Qed.

Lemma word_all_bits i : 0 <= i < 32 -> Z.testbit WORD_ALL i = true.
Proof. intros Hi. change WORD_ALL with (Z.ones 32). apply Z.ones_spec_low; lia. Qed.

Lemma word_ok_all : word_ok WORD_ALL.
Proof. by split. Qed.

Lemma word_ok_land v w : word_ok v -> word_ok w -> word_ok (v .& w).
Proof.
  intros Hv Hw. apply word_ok_bits; [apply Z.land_nonneg; left; apply Hv|].
  intros i Hi. by rewrite Z.land_spec, word_ok_high.
Qed.

Lemma word_ok_lor v w : word_ok v -> word_ok w -> word_ok (v .| w).
Proof.
  intros Hv Hw. apply word_ok_bits; [apply Z.lor_nonneg; split; [apply Hv|apply Hw]|].
  intros i Hi. by rewrite Z.lor_spec, !word_ok_high.
Qed.

Lemma word_ok_lxor v w : word_ok v -> word_ok w -> word_ok (v .^ w).
Proof.
  intros Hv Hw. apply word_ok_bits; [apply Z.lxor_nonneg; destruct Hv, Hw; lia|].
  intros i Hi. by rewrite Z.lxor_spec, !word_ok_high.
Qed.

Lemma word_ok_not32 w : word_ok w -> word_ok (not32 w).
Proof. intros H. apply word_ok_lxor; [done|apply word_ok_all]. Qed.

Lemma not32_bits w i : 0 <= i < 32 -> Z.testbit (not32 w) i = negb (Z.testbit w i).
Proof.
  intros Hi. unfold not32. rewrite Z.lxor_spec, word_all_bits by done.
  apply xorb_true_r.
Qed.

Lemma word_zero_iff w :
  word_ok w -> w = 0 <-> forall i, 0 <= i < 32 -> Z.testbit w i = false.
Proof.
  intros Hw. split; [intros -> i _; apply Z.bits_0|]. intros H.
  apply word_ext; [done|done|]. intros i Hi. by rewrite H, Z.bits_0.
Qed.

Lemma word_all_iff w :
  word_ok w -> w = WORD_ALL <-> forall i, 0 <= i < 32 -> Z.testbit w i = true.
Proof.
  intros Hw. split; [intros -> i; apply word_all_bits|]. intros H.
  apply word_ext; [done|apply word_ok_all|]. intros i Hi. by rewrite H, word_all_bits.
Qed.

Lemma word_byte_bits w k i :
  0 <= i -> Z.testbit (word_byte w k) i = (i <? 8) && Z.testbit w (8 * Z.of_nat k + i).
Proof.
  intros Hi. unfold word_byte, u8. destruct (i <? 8) eqn:E; b2p.
  - rewrite Z.mod_pow2_bits_low, Z.shiftr_spec by lia. simpl. f_equal. lia.
  - by rewrite Z.mod_pow2_bits_high by lia.
Qed.

Lemma word_set_byte_bits w k v i :
  (k < 4)%nat -> 0 <= v < 256 -> 0 <= i < 32 ->
  Z.testbit (word_set_byte w k v) i =
  if (8 * Z.of_nat k <=? i) && (i <? 8 * Z.of_nat k + 8)
  then Z.testbit v (i - 8 * Z.of_nat k) else Z.testbit w i.
Proof.
  intros Hk Hv Hi. unfold word_set_byte.
  rewrite Z.lor_spec, Z.land_spec, not32_bits by lia.
  rewrite !testbit_byte_shl by lia.
  destruct ((8 * Z.of_nat k <=? i) && (i <? 8 * Z.of_nat k + 8)) eqn:E; simpl.
  - b2p. change 255 with (Z.ones 8). rewrite Z.ones_spec_low by lia.
    by rewrite andb_false_r.
  - by rewrite andb_true_r, orb_false_r.
Qed.

Lemma word_ok_set_byte w k v :
  (k < 4)%nat -> word_ok w -> 0 <= v < 256 -> word_ok (word_set_byte w k v).
Proof.
  intros Hk Hw Hv.
  assert (forall b, 0 <= b < 256 -> word_ok (b .<< (8 * Z.of_nat k))).
  { intros b Hb. apply word_ok_bits; [apply Z.shiftl_nonneg; lia|]. intros i Hi.
    rewrite testbit_byte_shl by lia.
    replace (i <? 8 * Z.of_nat k + 8) with false by lia. by rewrite andb_false_r. }
  apply word_ok_lor; [apply word_ok_land; [done|apply word_ok_not32]|]; auto with lia.
Qed.

(** ** Buffers, bit by bit *)

(** The bit [b] of a buffer. *)
Definition mem_bit (ws : list Z) (b : nat) : bool :=
  Z.testbit (default 0 (ws !! (b / 32)%nat)) (Z.of_nat (b mod 32)).

Definition words_ok (ws : list Z) : Prop := Forall word_ok ws.

Lemma mem_byte_spec ws k :
  (k < 4 * length ws)%nat ->
  exists v, mem_byte ws k = Some v /\ 0 <= v < 256 /\
    forall i, (i < 8)%nat -> Z.testbit v (Z.of_nat i) = mem_bit ws (8 * k + i).
Proof.
  intros Hk. unfold mem_byte.
  destruct (lookup_lt_is_Some_2 ws (k / 4)) as [w Hw]; [ndiv|]. rewrite Hw. obind.
  eexists; split; [done|]. split; [apply u8_range|]. intros i Hi.
  rewrite word_byte_bits by lia. replace (Z.of_nat i <? 8) with true by lia.
  unfold mem_bit. replace ((8 * k + i) / 32)%nat with (k / 4)%nat by ndiv.
  rewrite Hw. obind. cbn [andb]. f_equal. ndiv.
Qed.

Lemma mem_set_byte_spec ws k v :
  (k < 4 * length ws)%nat -> words_ok ws -> 0 <= v < 256 ->
  exists ws', mem_set_byte ws k v = Some ws' /\ length ws' = length ws /\ words_ok ws' /\
    forall b, mem_bit ws' b =
      if (b / 8 =? k)%nat then Z.testbit v (Z.of_nat (b mod 8)) else mem_bit ws b.
Proof.
  intros Hk Hok Hv. unfold mem_set_byte.
  destruct (lookup_lt_is_Some_2 ws (k / 4)) as [w Hw]; [ndiv|]. rewrite Hw. obind.
  assert (word_ok w) as Hwok by (eapply Forall_lookup_1; eauto).
  eexists; split; [done|]. split; [apply length_insert|].
  split; [apply Forall_insert; [done|]; apply word_ok_set_byte; (done || ndiv)|].
  intros b. unfold mem_bit.
  destruct (decide (b / 32 = k / 4)%nat) as [E|E].
  - rewrite E, list_lookup_insert_eq by ndiv. rewrite Hw. obind.
    rewrite word_set_byte_bits by (done || ndiv).
    destruct (b / 8 =? k)%nat eqn:Eb; b2p.
    + replace (_ && _) with true by (symmetry; rewrite andb_true_iff, Z.leb_le, Z.ltb_lt; ndiv).
      f_equal. ndiv.
    + replace (_ && _) with false; [done|]. symmetry.
      apply not_true_iff_false. rewrite andb_true_iff, Z.leb_le, Z.ltb_lt. ndiv.
  - rewrite list_lookup_insert_ne by done.
    replace (b / 8 =? k)%nat with false; [done|]. symmetry. apply Nat.eqb_neq. ndiv.
Qed.

Lemma mem_set_bytes_spec ws k n v :
  (k + n <= 4 * length ws)%nat -> words_ok ws -> 0 <= v < 256 ->
  exists ws', mem_set_bytes ws k n v = Some ws' /\ length ws' = length ws /\
    words_ok ws' /\
    forall b, mem_bit ws' b =
      if ((k <=? b / 8) && (b / 8 <? k + n))%nat then Z.testbit v (Z.of_nat (b mod 8))
      else mem_bit ws b.
Proof.
  revert ws k. induction n as [|n IH]; intros ws k Hk Hok Hv; cbn [mem_set_bytes].
  - exists ws. repeat split; [done|]. intros b.
    by replace ((k <=? b / 8) && (b / 8 <? k + 0))%nat with false by bsolve.
  - destruct (mem_set_byte_spec ws k v) as (ws1 & -> & Hl1 & Hok1 & Hb1); [lia|done|done|].
    obind. destruct (IH ws1 (S k)) as (ws2 & -> & Hl2 & Hok2 & Hb2); [lia|done|done|].
    exists ws2. split_and!; [done|lia|done|]. intros b. rewrite Hb2, Hb1.
    destruct (b / 8 =? k)%nat eqn:E; b2p.
    + replace ((S k <=? b / 8))%nat with false by bsolve. cbn [andb].
      by replace ((k <=? b / 8) && (b / 8 <? k + S n))%nat with true by bsolve.
    + by replace ((k <=? b / 8) && (b / 8 <? k + S n))%nat
        with ((S k <=? b / 8) && (b / 8 <? S k + n))%nat by bsolve.
Qed.

Lemma mem_set_bytes_overrun ws k n v :
  (4 * length ws < k + n)%nat -> (0 < n)%nat -> mem_set_bytes ws k n v = None.
Proof.
  revert ws k. induction n as [|n IH]; intros ws k Hk Hn; [lia|].
  cbn [mem_set_bytes]. unfold mem_set_byte.
  destruct (ws !! (k / 4)%nat) eqn:E; [|done]. obind.
  apply lookup_lt_Some in E. apply IH; rewrite ?length_insert; [lia|].
  destruct n; [|lia]. exfalso. ndiv.
Qed.

Section UpdWords.
Context (f : Z -> Z -> Z) (g : bool -> bool -> bool).
Context (Hok : forall t w, word_ok t -> word_ok w -> word_ok (f t w)).
Context (Hf : forall t w i, word_ok t -> word_ok w -> 0 <= i < 32 ->
           Z.testbit (f t w) i = g (Z.testbit t i) (Z.testbit w i)).

Lemma upd_words_spec n to from :
  (n <= length to)%nat -> (n <= length from)%nat -> words_ok to -> words_ok from ->
  exists ws, upd_words f n to from = Some ws /\ length ws = length to /\ words_ok ws /\
    forall b, mem_bit ws b =
      if (b <? 32 * n)%nat then g (mem_bit to b) (mem_bit from b) else mem_bit to b.
Proof.
  revert to from. induction n as [|n IH]; intros to from Ht Hr Hto Hfrom.
  { exists to. by repeat split. }
  destruct to as [|t to]; [simpl in Ht; lia|].
  destruct from as [|w from]; [simpl in Hr; lia|].
  apply Forall_cons in Hto as [Ht0 Hto], Hfrom as [Hw0 Hfrom].
  cbn [length] in *. cbn [upd_words].
  destruct (IH to from) as (ws & -> & Hl & Hws & Hb); [lia|lia|done|done|].
  obind. eexists; split; [done|]. cbn [length]. split; [lia|].
  split; [by apply Forall_cons; split; [apply Hok|]|].
  intros b. unfold mem_bit in *. destruct (decide (b < 32)%nat) as [Hlt|Hge].
  - replace (b / 32)%nat with 0%nat by ndiv.
    replace (b <? 32 * S n)%nat with true by bsolve.
    apply Hf; (done || ndiv).
  - destruct (b / 32)%nat as [|q] eqn:Eq; [exfalso; ndiv|].
    specialize (Hb (b - 32)%nat).
    replace ((b - 32) / 32)%nat with q in Hb by ndiv.
    replace ((b - 32) mod 32)%nat with (b mod 32)%nat in Hb by ndiv.
    replace (b - 32 <? 32 * n)%nat with (b <? 32 * S n)%nat in Hb by bsolve.
    exact Hb.
Qed.
End UpdWords.

(** ** The invariant and the abstraction *)

(** The set of the indices below [n_bits] whose bit is set. *)
Definition bits (m : MY_BITMAP) : gset nat :=
  list_to_set (filter (fun b => mem_bit (bitmap m) b = true) (seq 0 (n_bits m))).

Definition indices (n : nat) : gset nat := list_to_set (seq 0 n).

Record bitmap_ok (m : MY_BITMAP) : Prop := {
  ok_some : (0 < n_bits m)%nat;
  ok_size : (N.of_nat (n_bits m) + 31 < 2 ^ 32)%N;
  ok_last : last_word_ptr m = ((n_bits m + 31) / 32 - 1)%nat;
  ok_buffer : (last_word_ptr m < length (bitmap m))%nat;
  ok_words : words_ok (bitmap m);
  ok_mask : word_ok (last_word_mask m);
  ok_mask_bits : forall i, 0 <= i < 32 ->
    Z.testbit (last_word_mask m) i =
      (Z.of_nat (n_bits m) <=? 32 * Z.of_nat (last_word_ptr m) + i)
}.

Lemma elem_of_bits m b :
  b ∈ bits m <-> (b < n_bits m)%nat /\ mem_bit (bitmap m) b = true.
Proof.
  unfold bits. rewrite elem_of_list_to_set, list_elem_of_filter, elem_of_seq.
  split; intros [? ?]; split; (done || lia).
Qed.

Lemma elem_of_indices n b : b ∈ indices n <-> (b < n)%nat.
Proof. unfold indices. rewrite elem_of_list_to_set, elem_of_seq. lia. Qed.

Lemma no_words_ok m : bitmap_ok m -> no_words_in_map m = S (last_word_ptr m).
Proof.
  intros [H1 H2 H3 _ _ _ _]. unfold no_words_in_map.
  rewrite wrap32_small by lia. rewrite H3. ndiv.
Qed.

Lemma no_bytes_ok m : bitmap_ok m -> no_bytes_in_map m = ((n_bits m + 7) / 8)%nat.
Proof. intros [H1 H2 _ _ _ _ _]. unfold no_bytes_in_map. by rewrite wrap32_small by lia. Qed.

(** Replacing the buffer by another one of the same length keeps the
    invariant. *)
Lemma with_bitmap_ok m ws :
  bitmap_ok m -> length ws = length (bitmap m) -> words_ok ws -> bitmap_ok (with_bitmap m ws).
Proof. intros [] Hl Hws. split; simpl; try done. by rewrite Hl. Qed.

Lemma bits_with_bitmap m ws b :
  b ∈ bits (with_bitmap m ws) <-> (b < n_bits m)%nat /\ mem_bit ws b = true.
Proof. by rewrite elem_of_bits. Qed.

(** ** Single bits *)

Lemma bit_mask_bits b i : 0 <= i -> Z.testbit (bit_mask b) i = (i =? Z.of_nat (b mod 8)).
Proof.
  intros Hi. unfold bit_mask. change 7 with (Z.ones 3). rewrite Z.land_ones by lia.
  rewrite Z.shiftl_1_l, Z.pow2_bits_eqb by (apply Z.mod_pos_bound; lia).
  apply eq_iff_eq_true. rewrite !Z.eqb_eq. ndiv.
Qed.

Lemma upd_byte_spec m f g b :
  bitmap_ok m -> (b < n_bits m)%nat ->
  (forall v, 0 <= v < 256 -> 0 <= f v) ->
  (forall v i, 0 <= v < 256 -> 0 <= i -> Z.testbit (f v) i =
     if i =? Z.of_nat (b mod 8) then g (Z.testbit v i) else Z.testbit v i) ->
  exists ws, upd_byte m f (b / 8) = Some (with_bitmap m ws) /\
    bitmap_ok (with_bitmap m ws) /\
    forall c, mem_bit ws c = if (c =? b)%nat then g (mem_bit (bitmap m) b)
                             else mem_bit (bitmap m) c.
Proof.
  intros Hm Hb Hf0 Hf. pose proof Hm as [H1 _ H3 H4 H5 _ _]. unfold upd_byte.
  assert (b / 8 < 4 * length (bitmap m))%nat as Hin by ndiv.
  destruct (mem_byte_spec (bitmap m) (b / 8) Hin) as (v & -> & Hv & Hvb). obind.
  assert (0 <= f v < 256) as Hfv.
  { split; [by apply Hf0|]. apply (bits_below 8); [lia|by apply Hf0|]. intros i Hi.
    rewrite Hf by (done || lia).
    replace (i =? Z.of_nat (b mod 8)) with false by bsolve. by apply (bits_above 8). }
  destruct (mem_set_byte_spec (bitmap m) (b / 8) (f v) Hin H5 Hfv)
    as (ws & -> & Hl & Hok & Hbits). obind.
  exists ws. split; [done|]. split; [by apply with_bitmap_ok|].
  intros c. rewrite Hbits. destruct (c / 8 =? b / 8)%nat eqn:E.
  - apply Nat.eqb_eq in E. rewrite Hf, Hvb by (done || ndiv).
    replace (Z.of_nat (c mod 8) =? Z.of_nat (b mod 8)) with (c =? b)%nat by bsolve.
    replace (8 * (b / 8) + c mod 8)%nat with c by ndiv.
    destruct (c =? b)%nat eqn:Ecb; [|done]. by apply Nat.eqb_eq in Ecb as ->.
  - replace (c =? b)%nat with false; [done|]. symmetry. apply Nat.eqb_neq.
    intros ->. by rewrite Nat.eqb_refl in E.
Qed.

(** The three ways a byte is changed. *)
Lemma set_mask_bits b v i :
  0 <= i -> Z.testbit (v .| bit_mask b) i =
    if i =? Z.of_nat (b mod 8) then true else Z.testbit v i.
Proof.
  intros Hi. rewrite Z.lor_spec, bit_mask_bits by done.
  case_match; [apply orb_true_r|apply orb_false_r].
Qed.

Lemma clear_mask_bits b v i :
  0 <= i -> Z.testbit (v .& Z.lnot (bit_mask b)) i =
    if i =? Z.of_nat (b mod 8) then false else Z.testbit v i.
Proof.
  intros Hi. rewrite Z.land_spec, Z.lnot_spec, bit_mask_bits by done.
  case_match; [apply andb_false_r|apply andb_true_r].
Qed.

Lemma flip_mask_bits b v i :
  0 <= i -> Z.testbit (v .^ bit_mask b) i =
    if i =? Z.of_nat (b mod 8) then negb (Z.testbit v i) else Z.testbit v i.
Proof.
  intros Hi. rewrite Z.lxor_spec, bit_mask_bits by done.
  case_match; [apply xorb_true_r|apply xorb_false_r].
Qed.

Lemma bit_mask_nonneg b : 0 <= bit_mask b.
Proof. apply Z.shiftl_nonneg; lia. Qed.

Lemma bitmap_set_bit_spec m b :
  bitmap_ok m -> (b < n_bits m)%nat ->
  exists m', bitmap_set_bit m b = Some m' /\ bitmap_ok m' /\ bits m' = {[b]} ∪ bits m /\
    n_bits m' = n_bits m.
Proof.
  intros Hm Hb. pose proof (bit_mask_nonneg b).
  destruct (upd_byte_spec m (fun v => v .| bit_mask b) (fun _ => true) b)
    as (ws & E & Hok & Hbits); [done|done| |intros; by apply set_mask_bits|].
  { intros v Hv. apply Z.lor_nonneg. lia. }
  exists (with_bitmap m ws). split_and!; [done|done| |done].
  apply set_eq. intros c. rewrite elem_of_union, elem_of_singleton, bits_with_bitmap,
    elem_of_bits, Hbits.
  destruct (c =? b)%nat eqn:Ec; b2p; naive_solver.
Qed.

Lemma bitmap_clear_bit_spec m b :
  bitmap_ok m -> (b < n_bits m)%nat ->
  exists m', bitmap_clear_bit m b = Some m' /\ bitmap_ok m' /\ bits m' = bits m ∖ {[b]}.
Proof.
  intros Hm Hb. pose proof (bit_mask_nonneg b).
  destruct (upd_byte_spec m (fun v => v .& Z.lnot (bit_mask b)) (fun _ => false) b)
    as (ws & E & Hok & Hbits); [done|done| |intros; by apply clear_mask_bits|].
  { intros v Hv. apply Z.land_nonneg. lia. }
  exists (with_bitmap m ws). split_and!; [done|done|].
  apply set_eq. intros c. rewrite elem_of_difference, elem_of_singleton, bits_with_bitmap,
    elem_of_bits, Hbits.
  destruct (c =? b)%nat eqn:Ec; b2p; naive_solver.
Qed.

Lemma bitmap_flip_bit_spec m b :
  bitmap_ok m -> (b < n_bits m)%nat ->
  exists m', bitmap_flip_bit m b = Some m' /\ bitmap_ok m' /\
    bits m' = if decide (b ∈ bits m) then bits m ∖ {[b]} else {[b]} ∪ bits m.
Proof.
  intros Hm Hb. pose proof (bit_mask_nonneg b).
  destruct (upd_byte_spec m (fun v => v .^ bit_mask b) negb b)
    as (ws & E & Hok & Hbits); [done|done| |intros; by apply flip_mask_bits|].
  { intros v Hv. apply Z.lxor_nonneg. lia. }
  exists (with_bitmap m ws). split_and!; [done|done|].
  apply set_eq. intros c. rewrite bits_with_bitmap, Hbits.
  assert (b ∈ bits m <-> mem_bit (bitmap m) b = true) as Hin.
  { rewrite elem_of_bits. naive_solver. }
  destruct (decide _) as [D|D]; rewrite Hin in D;
    [|apply not_true_iff_false in D];
    rewrite ?elem_of_difference, ?elem_of_union, elem_of_singleton, elem_of_bits;
    destruct (c =? b)%nat eqn:Ec; b2p; subst; rewrite ?D; naive_solver.
Qed.

Lemma bitmap_is_set_spec m b :
  bitmap_ok m -> (b < n_bits m)%nat ->
  exists v, bitmap_is_set m b = Some v /\ (v <> 0 <-> b ∈ bits m).
Proof.
  intros Hm Hb. pose proof Hm as [H1 _ H3 H4 H5 _ _]. unfold bitmap_is_set.
  destruct (mem_byte_spec (bitmap m) (b / 8)) as (v & -> & Hv & Hvb); [ndiv|]. obind.
  eexists; split; [done|]. rewrite elem_of_bits.
  assert (mem_bit (bitmap m) b = Z.testbit v (Z.of_nat (b mod 8))) as ->.
  { rewrite Hvb by ndiv. f_equal. ndiv. }
  destruct (Z.testbit v (Z.of_nat (b mod 8))) eqn:E.
  - split; [done|]. intros _ H0. pose proof (Z.bits_0 (Z.of_nat (b mod 8))) as Hz.
    rewrite <- H0, Z.land_spec, E, bit_mask_bits, Z.eqb_refl in Hz by lia. done.
  - split; [|naive_solver]. intros []. apply Z.bits_inj'. intros i Hi.
    rewrite Z.land_spec, Z.bits_0, bit_mask_bits by done.
    destruct (i =? Z.of_nat (b mod 8)) eqn:Ei; b2p; [by rewrite Ei, E|apply andb_false_r].
Qed.

(** ** Whole maps, word by word *)

Lemma mem_bit_word ws i w j :
  ws !! i = Some w -> 0 <= j < 32 -> mem_bit ws (32 * i + Z.to_nat j) = Z.testbit w j.
Proof.
  intros Hw Hj. unfold mem_bit. replace ((32 * i + Z.to_nat j) / 32)%nat with i by ndiv.
  rewrite Hw. obind. f_equal. ndiv.
Qed.

(** A statement about all bits, as one about the words the loops visit and one
    about the used bits of the last word. *)
Lemma bits_by_words m (Q : nat -> Prop) :
  bitmap_ok m ->
  (forall b, (b < n_bits m)%nat -> Q b) <->
  (forall i j, (i < last_word_ptr m)%nat -> 0 <= j < 32 -> Q (32 * i + Z.to_nat j)%nat) /\
  (forall j, 0 <= j < 32 -> Z.testbit (last_word_mask m) j = false ->
     Q (32 * last_word_ptr m + Z.to_nat j)%nat).
Proof.
  intros [H1 _ H3 _ _ _ H7]. split.
  - intros H. split; intros; apply H; [ndiv|].
    rewrite H7 in * by done. b2p. lia.
  - intros [Ha Hl] b Hb. destruct (decide (b / 32 < last_word_ptr m)%nat).
    + replace b with (32 * (b / 32) + Z.to_nat (Z.of_nat (b mod 32)))%nat by ndiv.
      apply Ha; ndiv.
    + replace b with (32 * last_word_ptr m + Z.to_nat (Z.of_nat (b mod 32)))%nat by ndiv.
      apply Hl; [ndiv|]. rewrite H7 by ndiv. apply Z.leb_gt. ndiv.
Qed.

Lemma last_word_ok m :
  bitmap_ok m -> exists l, last_word m = Some l /\ bitmap m !! last_word_ptr m = Some l /\
    word_ok l.
Proof.
  intros [_ _ _ H4 H5 _ _]. apply lookup_lt_is_Some_2 in H4 as [l Hl].
  exists l. split_and!; [done|done|]. eapply Forall_lookup_1; eauto.
Qed.

(** The loops over the full words of one map decide a property of its bits. *)
Lemma full_words_bits m p Q :
  bitmap_ok m ->
  (forall w, word_ok w -> p w = true <-> forall j, 0 <= j < 32 -> Q (Z.testbit w j)) ->
  forallb p (full_words m) = true <->
  (forall i j, (i < last_word_ptr m)%nat -> 0 <= j < 32 ->
     Q (mem_bit (bitmap m) (32 * i + Z.to_nat j))).
Proof.
  intros Hm Hp. pose proof Hm as [_ _ _ H4 H5 _ _].
  rewrite forallb_lookup. unfold full_words. split.
  - intros H i j Hi Hj.
    destruct (lookup_lt_is_Some_2 (bitmap m) i) as [w Hw]; [lia|].
    rewrite (mem_bit_word _ _ _ _ Hw) by done. apply Hp; [|eapply H|done].
    + eapply Forall_lookup_1; eauto.
    + apply lookup_take_Some. eauto.
  - intros H i w Hw. apply lookup_take_Some in Hw as [Hw Hi].
    apply Hp; [eapply Forall_lookup_1; eauto|]. intros j Hj.
    rewrite <- (mem_bit_word _ _ _ _ Hw) by done. auto.
Qed.

(** The same for the loops over two maps. *)
Lemma forall_words_bits m1 m2 p (Q : bool -> bool -> Prop) :
  bitmap_ok m1 -> bitmap_ok m2 -> n_bits m1 = n_bits m2 ->
  (forall v w, word_ok v -> word_ok w ->
     p v w = true <-> forall j, 0 <= j < 32 -> Q (Z.testbit v j) (Z.testbit w j)) ->
  forall_words p m1 m2 = true <->
  (forall i j, (i < last_word_ptr m1)%nat -> 0 <= j < 32 ->
     Q (mem_bit (bitmap m1) (32 * i + Z.to_nat j)) (mem_bit (bitmap m2) (32 * i + Z.to_nat j))).
Proof.
  intros Hm1 Hm2 Hn Hp. pose proof Hm1 as [_ _ L1 B1 W1 _ _].
  pose proof Hm2 as [_ _ L2 B2 W2 _ _]. unfold forall_words, full_words.
  rewrite forallb_lookup. split.
  - intros H i j Hi Hj.
    destruct (lookup_lt_is_Some_2 (bitmap m1) i) as [v Hv]; [lia|].
    destruct (lookup_lt_is_Some_2 (bitmap m2) i) as [w Hw]; [rewrite Hn in *; lia|].
    rewrite (mem_bit_word _ _ _ _ Hv), (mem_bit_word _ _ _ _ Hw) by done.
    apply Hp; [by eapply (Forall_lookup_1 _ _ _ _ W1)|by eapply (Forall_lookup_1 _ _ _ _ W2)|
               |done].
    apply (H i (v, w)). rewrite lookup_zip_Some, !lookup_take_Some. auto.
  - intros H i [v w] Hvw. rewrite lookup_zip_Some, !lookup_take_Some in Hvw.
    destruct Hvw as [[Hv Hi] [Hw _]].
    apply Hp; [by eapply (Forall_lookup_1 _ _ _ _ W1)|by eapply (Forall_lookup_1 _ _ _ _ W2)|].
    intros j Hj.
    rewrite <- (mem_bit_word _ _ _ _ Hv), <- (mem_bit_word _ _ _ _ Hw) by done. auto.
Qed.

(** *** Tests *)

Lemma masked_bits m l j :
  0 <= j < 32 -> Z.testbit (l .& not32 (last_word_mask m)) j =
  if Z.testbit (last_word_mask m) j then false else Z.testbit l j.
Proof.
  intros Hj. rewrite Z.land_spec, not32_bits by done.
  destruct (Z.testbit (last_word_mask m) j); [apply andb_false_r|apply andb_true_r].
Qed.

Lemma masked_ok m l :
  bitmap_ok m -> word_ok l -> word_ok (l .& not32 (last_word_mask m)).
Proof. intros [] Hl. apply word_ok_land; [done|by apply word_ok_not32]. Qed.

Lemma test_false_iff w :
  word_ok w -> negb (test w) = true <-> forall j, 0 <= j < 32 -> Z.testbit w j = false.
Proof.
  intros Hw. rewrite <- word_zero_iff by done. unfold test.
  by rewrite negb_involutive, Z.eqb_eq.
Qed.

Lemma bitmap_is_set_all_spec m :
  bitmap_ok m -> bitmap_is_set_all m = Some (bool_decide (bits m = indices (n_bits m))).
Proof.
  intros Hm. unfold bitmap_is_set_all. destruct (last_word_ok m Hm) as (l & -> & Hl & Hlok).
  obind. f_equal. apply eq_iff_eq_true. rewrite bool_decide_eq_true, andb_true_iff, Z.eqb_eq.
  rewrite (full_words_bits m _ (fun x => x = true)) by
    (done || intros w Hw; rewrite Z.eqb_eq; by apply word_all_iff).
  rewrite word_all_iff by (apply word_ok_lor; [done|apply Hm]).
  transitivity (forall b, (b < n_bits m)%nat -> mem_bit (bitmap m) b = true).
  - rewrite (bits_by_words m) by done. apply and_iff_compat_l.
    split; intros H j Hj; specialize (H j Hj); rewrite Z.lor_spec in *;
      rewrite (mem_bit_word _ _ _ _ Hl) in * by done;
      destruct (Z.testbit (last_word_mask m) j); rewrite ?orb_true_r, ?orb_false_r in *; (done || by auto).
  - split.
    + intros H. apply set_eq. intros b. rewrite elem_of_bits, elem_of_indices. naive_solver.
    + intros H b Hb. assert (b ∈ bits m) as Hin by (rewrite H; by apply elem_of_indices).
      by apply elem_of_bits in Hin as [_ Hin].
Qed.

Lemma bitmap_is_clear_all_spec m :
  bitmap_ok m -> bitmap_is_clear_all m = Some (bool_decide (bits m = ∅)).
Proof.
  intros Hm. unfold bitmap_is_clear_all. destruct (last_word_ok m Hm) as (l & -> & Hl & Hlok).
  obind. f_equal. apply eq_iff_eq_true. rewrite bool_decide_eq_true, andb_true_iff.
  rewrite (full_words_bits m _ (fun x => x = false)) by (done || apply test_false_iff).
  rewrite test_false_iff by (by apply masked_ok).
  transitivity (forall b, (b < n_bits m)%nat -> mem_bit (bitmap m) b = false).
  - rewrite (bits_by_words m) by done. apply and_iff_compat_l.
    split; intros H j Hj; specialize (H j Hj); rewrite masked_bits in * by done;
      rewrite (mem_bit_word _ _ _ _ Hl) in * by done;
      destruct (Z.testbit (last_word_mask m) j); (done || by auto).
  - split.
    + intros H. apply set_eq. intros b. rewrite elem_of_bits.
      split; [intros [Hb E]; by rewrite H in E|by intros ?%not_elem_of_empty].
    + intros H b Hb. apply not_true_iff_false. intros E.
      assert (b ∈ bits m) as Hin by (by apply elem_of_bits). set_solver.
Qed.

Lemma bitmap_is_subset_spec m1 m2 :
  bitmap_ok m1 -> bitmap_ok m2 -> n_bits m1 = n_bits m2 ->
  bitmap_is_subset m1 m2 = Some (bool_decide (bits m1 ⊆ bits m2)).
Proof.
  intros Hm1 Hm2 Hn. unfold bitmap_is_subset.
  destruct (last_word_ok m1 Hm1) as (l1 & -> & Hl1 & Hok1).
  destruct (last_word_ok m2 Hm2) as (l2 & -> & Hl2 & Hok2).
  obind. f_equal. apply eq_iff_eq_true. rewrite bool_decide_eq_true, andb_true_iff.
  assert (last_word_ptr m2 = last_word_ptr m1) as El by (by rewrite !ok_last, Hn).
  rewrite (forall_words_bits m1 m2 _ (fun x y => x && negb y = false)); [|done..|].
  2:{ intros v w Hv Hw. rewrite test_false_iff by (apply word_ok_land; [done|by apply word_ok_not32]).
      split; intros H j Hj; specialize (H j Hj); rewrite Z.land_spec, not32_bits in * by done; done. }
  rewrite test_false_iff by (apply word_ok_land; [|apply word_ok_not32]; by apply masked_ok).
  transitivity (forall b, (b < n_bits m1)%nat ->
    mem_bit (bitmap m1) b && negb (mem_bit (bitmap m2) b) = false).
  - rewrite (bits_by_words m1) by done. apply and_iff_compat_l.
    split; intros H j Hj; specialize (H j Hj);
      rewrite Z.land_spec, not32_bits, !masked_bits in * by done;
      rewrite (mem_bit_word _ _ _ _ Hl1) in * by done; rewrite <- El in *;
      rewrite (mem_bit_word _ _ _ _ Hl2) in * by done;
      rewrite !ok_mask_bits in * by done; rewrite El, <- Hn in *; case_match; (done || by auto).
  - rewrite elem_of_subseteq. setoid_rewrite elem_of_bits. split.
    + intros H b [Hb E]. specialize (H b Hb). rewrite E in H. b2p.
      destruct (mem_bit (bitmap m2) b); [|done]. split; [lia|done].
    + intros H b Hb. destruct (mem_bit (bitmap m1) b) eqn:E; [|done].
      destruct (H b) as [_ ->]; done.
Qed.

Lemma bitmap_is_overlapping_spec m1 m2 :
  bitmap_ok m1 -> bitmap_ok m2 -> n_bits m1 = n_bits m2 ->
  bitmap_is_overlapping m1 m2 = Some (bool_decide (bits m1 ∩ bits m2 <> ∅)).
Proof.
  intros Hm1 Hm2 Hn. unfold bitmap_is_overlapping.
  destruct (last_word_ok m1 Hm1) as (l1 & -> & Hl1 & Hok1).
  destruct (last_word_ok m2 Hm2) as (l2 & -> & Hl2 & Hok2).
  obind. f_equal. assert (forall a b, negb a = negb b -> a = b) as Hinj by (by intros [] []).
  apply Hinj. rewrite negb_orb, negb_involutive, <- bool_decide_not.
  apply eq_iff_eq_true. rewrite bool_decide_eq_true, andb_true_iff.
  assert (last_word_ptr m2 = last_word_ptr m1) as El by (by rewrite !ok_last, Hn).
  rewrite (forall_words_bits m1 m2 _ (fun x y => x && y = false)); [|done..|].
  2:{ intros v w Hv Hw. rewrite test_false_iff by (by apply word_ok_land).
      split; intros H j Hj; specialize (H j Hj); rewrite Z.land_spec in *; done. }
  rewrite test_false_iff by (apply word_ok_land; by apply masked_ok).
  transitivity (forall b, (b < n_bits m1)%nat ->
    mem_bit (bitmap m1) b && mem_bit (bitmap m2) b = false).
  - rewrite (bits_by_words m1) by done. apply and_iff_compat_l.
    split; intros H j Hj; specialize (H j Hj); rewrite Z.land_spec, !masked_bits in * by done;
      rewrite (mem_bit_word _ _ _ _ Hl1) in * by done; rewrite <- El in *;
      rewrite (mem_bit_word _ _ _ _ Hl2) in * by done;
      rewrite !ok_mask_bits in * by done; rewrite El, <- Hn in *; case_match; (done || by auto).
  - split.
    + intros H Hne. apply Hne. apply set_eq. intros b.
      rewrite elem_of_intersection, !elem_of_bits.
      split; [|by intros ?%not_elem_of_empty]. intros [[Hb E1] [_ E2]].
      specialize (H b Hb). by rewrite E1, E2 in H.
    + intros H b Hb. apply not_true_iff_false. rewrite andb_true_iff. intros [E1 E2].
      apply H. intros He. apply (not_elem_of_empty (C:=gset nat) b). rewrite <- He.
      rewrite elem_of_intersection, !elem_of_bits. repeat split; (done || lia).
Qed.

Lemma bitmap_cmp_spec m1 m2 :
  bitmap_ok m1 -> bitmap_ok m2 -> n_bits m1 = n_bits m2 ->
  bitmap_cmp m1 m2 = Some (bool_decide (bits m1 = bits m2)).
Proof.
  intros Hm1 Hm2 Hn. unfold bitmap_cmp.
  destruct (last_word_ok m1 Hm1) as (l1 & -> & Hl1 & Hok1).
  destruct (last_word_ok m2 Hm2) as (l2 & -> & Hl2 & Hok2).
  obind. f_equal. apply eq_iff_eq_true. rewrite bool_decide_eq_true, andb_true_iff, Z.eqb_eq.
  assert (last_word_ptr m2 = last_word_ptr m1) as El by (by rewrite !ok_last, Hn).
  rewrite (forall_words_bits m1 m2 _ eq); [|done..|].
  2:{ intros v w Hv Hw. rewrite Z.eqb_eq. split; [by intros ->|]. by apply word_ext. }
  transitivity (forall b, (b < n_bits m1)%nat -> mem_bit (bitmap m1) b = mem_bit (bitmap m2) b).
  - rewrite (bits_by_words m1) by done. apply and_iff_compat_l.
    assert (forall j, 0 <= j < 32 ->
      Z.testbit (last_word_mask m1) j = Z.testbit (last_word_mask m2) j) as Em.
    { intros j Hj. rewrite !ok_mask_bits by done. by rewrite El, Hn. }
    split.
    + intros H j Hj Hmask. rewrite (mem_bit_word _ _ _ _ Hl1) by done.
      rewrite <- El, (mem_bit_word _ _ _ _ Hl2) by done.
      apply (f_equal (fun z => Z.testbit z j)) in H.
      by rewrite !Z.lor_spec, <- Em, Hmask, !orb_false_r in H.
    + intros H. apply word_ext; [apply word_ok_lor; (done || apply ok_mask; done)..|].
      intros j Hj. specialize (H j Hj). rewrite !Z.lor_spec, <- Em by done.
      rewrite (mem_bit_word _ _ _ _ Hl1), <- El, (mem_bit_word _ _ _ _ Hl2) in H by done.
      destruct (Z.testbit (last_word_mask m1) j); [by rewrite !orb_true_r|].
      by rewrite H.
  - split.
    + intros H. apply set_eq. intros b. rewrite !elem_of_bits, <- Hn.
      split; intros [Hb E]; split; try done; [rewrite <- H|rewrite H]; done.
    + intros H b Hb. apply eq_iff_eq_true.
      assert (b ∈ bits m1 <-> b ∈ bits m2) as Hi by (by rewrite H).
      rewrite !elem_of_bits, <- Hn in Hi. naive_solver.
Qed.

(** *** Counting *)

Lemma popcount_filter (f : nat -> bool) n v :
  (forall i, (i < n)%nat -> f i = Z.testbit v (Z.of_nat i)) ->
  popcount n v = Z.of_nat (length (filter (fun i => f i = true) (seq 0 n))).
Proof.
  induction n as [|n IH]; intros H; [done|]. cbn [popcount].
  rewrite seq_S, filter_app, length_app, <- H, IH by auto with lia.
  rewrite filter_cons, filter_nil. cbn [plus]. destruct (f n); simpl; lia.
Qed.

Definition count_bits (ws : list Z) (n : nat) : nat :=
  length (filter (fun b => mem_bit ws b = true) (seq 0 n)).

Lemma length_filter_map (f : nat -> bool) (g : nat -> nat) l :
  length (filter (fun b => f b = true) (map g l)) =
  length (filter (fun b => f (g b) = true) l).
Proof.
  induction l as [|x l IH]; [done|]. simpl. rewrite !filter_cons.
  repeat case_decide; simpl; congruence.
Qed.

Lemma count_bits_add ws i w r :
  ws !! i = Some w -> (r <= 32)%nat ->
  Z.of_nat (count_bits ws (32 * i + r)) = Z.of_nat (count_bits ws (32 * i)) + popcount r w.
Proof.
  intros Hw Hr. unfold count_bits. rewrite seq_app, filter_app, length_app, Nat2Z.inj_add.
  f_equal. rewrite <- (Nat.add_0_r (0 + 32 * i)), <- fmap_add_seq.
  rewrite (length_filter_map (mem_bit ws)).
  rewrite (popcount_filter (fun b => mem_bit ws (0 + 32 * i + b))); [done|].
  intros j Hj. rewrite <- (mem_bit_word ws i w) by (done || lia). f_equal. lia.
Qed.

Lemma fold_count l r :
  0 <= r < 2 ^ 32 ->
  fold_left (fun res w => u32 (res + my_count_bits_uint32 w)) l r =
  u32 (r + foldr (fun w acc => popcount 32 w + acc) 0 l).
Proof.
  revert r. induction l as [|w l IH]; intros r Hr; cbn [fold_left foldr]; [by rewrite Z.add_0_r, u32_small|].
  rewrite IH, my_count_bits_uint32_spec by apply u32_range. unfold u32.
  rewrite Zplus_mod_idemp_l. f_equal. lia.
Qed.

Lemma count_full_words ws n :
  (n <= length ws)%nat ->
  foldr (fun w acc => popcount 32 w + acc) 0 (take n ws) =
  Z.of_nat (count_bits ws (32 * n)).
Proof.
  induction n as [|n IH]; intros Hn; [done|].
  destruct (lookup_lt_is_Some_2 ws n) as [w Hw]; [lia|].
  rewrite (take_S_r _ _ _ Hw), foldr_app. cbn [foldr].
  replace (32 * S n)%nat with (32 * n + 32)%nat by lia.
  rewrite (count_bits_add _ _ _ _ Hw), <- IH by lia.
  generalize (take n ws). intros l. generalize (popcount 32 w). intros z.
  induction l as [|x l IHl]; cbn [foldr] in *; lia.
Qed.

Lemma popcount_masked m l r :
  (r <= 32)%nat ->
  (forall j, 0 <= j < 32 -> Z.testbit (last_word_mask m) j = (Z.of_nat r <=? j)) ->
  popcount 32 (l .& not32 (last_word_mask m)) = popcount r l.
Proof.
  intros Hr Hm. assert (forall n, (n <= 32)%nat ->
    popcount n (l .& not32 (last_word_mask m)) = popcount (n `min` r) l) as H.
  { induction n as [|n IH]; intros Hn; [done|]. cbn [popcount].
    rewrite masked_bits, Hm, IH by lia. destruct (Z.of_nat r <=? Z.of_nat n) eqn:E; b2p.
    - by replace (S n `min` r)%nat with (n `min` r)%nat by lia.
    - replace (S n `min` r)%nat with (S (n `min` r))%nat by lia. cbn [popcount].
      by replace (n `min` r)%nat with n by lia. }
  rewrite H by lia. f_equal. lia.
Qed.

Lemma bitmap_bits_set_spec m :
  bitmap_ok m -> bitmap_bits_set m = Some (Z.of_nat (size (bits m))).
Proof.
  intros Hm. unfold bitmap_bits_set. destruct (last_word_ok m Hm) as (l & -> & Hl & _).
  obind. f_equal. pose proof Hm as [H1 H2 H3 H4 _ _ H7].
  rewrite fold_count by lia. unfold full_words. rewrite count_full_words by lia.
  rewrite my_count_bits_uint32_spec.
  rewrite (popcount_masked m l (n_bits m - 32 * last_word_ptr m)) by
    (ndiv || intros j Hj; rewrite H7 by done; apply eq_iff_eq_true; rewrite !Z.leb_le; ndiv).
  assert (size (bits m) = count_bits (bitmap m) (n_bits m)) as ->.
  { unfold bits. rewrite size_list_to_set; [done|]. apply NoDup_filter, NoDup_seq. }
  assert (count_bits (bitmap m) (n_bits m) <= n_bits m)%nat as Hc.
  { unfold count_bits. etrans; [apply length_filter|]. by rewrite length_seq. }
  assert (Z.of_nat (count_bits (bitmap m) (n_bits m)) =
    Z.of_nat (count_bits (bitmap m) (32 * last_word_ptr m)) +
    popcount (n_bits m - 32 * last_word_ptr m) l) as E.
  { rewrite <- (count_bits_add _ _ _ _ Hl) by ndiv. do 2 f_equal. ndiv. }
  pose proof (popcount_bound (n_bits m - 32 * last_word_ptr m) l).
  rewrite Z.add_0_l, (u32_small (Z.of_nat _)) by lia.
  rewrite <- E. apply u32_small. lia.
Qed.

(** *** Set operations *)

Section SetOps.
Context (f : Z -> Z -> Z) (g : bool -> bool -> bool).
Context (Hok : forall t w, word_ok t -> word_ok w -> word_ok (f t w)).
Context (Hf : forall t w i, word_ok t -> word_ok w -> 0 <= i < 32 ->
           Z.testbit (f t w) i = g (Z.testbit t i) (Z.testbit w i)).

Lemma upd_all_spec m m2 :
  bitmap_ok m -> bitmap_ok m2 -> n_bits m = n_bits m2 ->
  exists m', upd_all f m m2 = Some m' /\ bitmap_ok m' /\ n_bits m' = n_bits m /\
    forall b, b ∈ bits m' <-> (b < n_bits m)%nat /\
      g (mem_bit (bitmap m) b) (mem_bit (bitmap m2) b) = true.
Proof.
  intros Hm Hm2 Hn. pose proof Hm as [H1 _ H3 H4 H5 _ _].
  pose proof Hm2 as [_ _ L3 L4 L5 _ _]. unfold upd_all.
  destruct (upd_words_spec f g Hok Hf (S (last_word_ptr m)) (bitmap m) (bitmap m2))
    as (ws & -> & Hl & Hws & Hb); [lia|rewrite Hn in *; lia|done|done|].
  obind. exists (with_bitmap m ws). split; [done|]. split; [by apply with_bitmap_ok|].
  split; [done|]. intros b. rewrite bits_with_bitmap, Hb.
  destruct (b <? 32 * S (last_word_ptr m))%nat eqn:E; [done|].
  apply Nat.ltb_ge in E. split; intros [? _]; exfalso; ndiv.
Qed.
End SetOps.

Lemma bitmap_union_spec m m2 :
  bitmap_ok m -> bitmap_ok m2 -> n_bits m = n_bits m2 ->
  exists m', bitmap_union m m2 = Some m' /\ bitmap_ok m' /\ bits m' = bits m ∪ bits m2.
Proof.
  intros Hm Hm2 Hn. destruct (upd_all_spec Z.lor orb) with m m2
    as (m' & E & Ho & _ & Hb); try done; [apply word_ok_lor|intros; apply Z.lor_spec|].
  exists m'. split_and!; [done|done|]. apply set_eq. intros b.
  rewrite Hb, elem_of_union, !elem_of_bits, <- Hn, orb_true_iff. tauto.
Qed.

Lemma bitmap_subtract_spec m m2 :
  bitmap_ok m -> bitmap_ok m2 -> n_bits m = n_bits m2 ->
  exists m', bitmap_subtract m m2 = Some m' /\ bitmap_ok m' /\ bits m' = bits m ∖ bits m2.
Proof.
  intros Hm Hm2 Hn.
  destruct (upd_all_spec (fun t w => t .& not32 w) (fun x y => x && negb y)) with m m2
    as (m' & E & Ho & _ & Hb); try done.
  { intros. apply word_ok_land; [done|by apply word_ok_not32]. }
  { intros. by rewrite Z.land_spec, not32_bits. }
  exists m'. split_and!; [done|done|]. apply set_eq. intros b.
  rewrite Hb, elem_of_difference, !elem_of_bits, <- Hn, andb_true_iff, negb_true_iff,
    <- not_true_iff_false. tauto.
Qed.

Lemma bitmap_xor_spec m m2 :
  bitmap_ok m -> bitmap_ok m2 -> n_bits m = n_bits m2 ->
  exists m', bitmap_xor m m2 = Some m' /\ bitmap_ok m' /\
    bits m' = (bits m ∖ bits m2) ∪ (bits m2 ∖ bits m).
Proof.
  intros Hm Hm2 Hn. destruct (upd_all_spec Z.lxor xorb) with m m2
    as (m' & E & Ho & _ & Hb); try done; [apply word_ok_lxor|intros; apply Z.lxor_spec|].
  exists m'. split_and!; [done|done|]. apply set_eq. intros b.
  rewrite Hb, elem_of_union, !elem_of_difference, !elem_of_bits, <- Hn.
  destruct (mem_bit (bitmap m) b), (mem_bit (bitmap m2) b); simpl; intuition congruence.
Qed.

Lemma bitmap_copy_spec m m2 :
  bitmap_ok m -> bitmap_ok m2 -> n_bits m = n_bits m2 ->
  exists m', bitmap_copy m m2 = Some m' /\ bitmap_ok m' /\ bits m' = bits m2.
Proof.
  intros Hm Hm2 Hn. destruct (upd_all_spec (fun _ w => w) (fun _ y => y)) with m m2
    as (m' & E & Ho & _ & Hb); try done.
  exists m'. split_and!; [done|done|]. apply set_eq. intros b.
  by rewrite Hb, elem_of_bits, <- Hn.
Qed.

Lemma map_words_spec f g n ws :
  (forall t, word_ok t -> word_ok (f t)) ->
  (forall t i, word_ok t -> 0 <= i < 32 -> Z.testbit (f t) i = g (Z.testbit t i)) ->
  (n <= length ws)%nat -> words_ok ws ->
  exists ws', map_words f n ws = Some ws' /\ length ws' = length ws /\ words_ok ws' /\
    forall b, mem_bit ws' b = if (b <? 32 * n)%nat then g (mem_bit ws b) else mem_bit ws b.
Proof.
  intros Hok Hf Hn Hws.
  apply (upd_words_spec (fun t _ => f t) (fun x _ => g x)); auto.
Qed.

Lemma bitmap_invert_spec m :
  bitmap_ok m ->
  exists m', bitmap_invert m = Some m' /\ bitmap_ok m' /\
    bits m' = indices (n_bits m) ∖ bits m.
Proof.
  intros Hm. pose proof Hm as [H1 _ H3 H4 H5 _ _]. unfold bitmap_invert.
  destruct (map_words_spec (fun t => t .^ WORD_ALL) negb (S (last_word_ptr m)) (bitmap m))
    as (ws & -> & Hl & Hws & Hb); try done.
  { apply word_ok_not32. } { intros. by apply not32_bits. }
  obind. exists (with_bitmap m ws). split_and!; [done|by apply with_bitmap_ok|].
  apply set_eq. intros b. rewrite elem_of_difference, bits_with_bitmap, elem_of_indices,
    elem_of_bits, Hb.
  destruct (b <? 32 * S (last_word_ptr m))%nat eqn:E.
  - rewrite negb_true_iff, <- not_true_iff_false. tauto.
  - apply Nat.ltb_ge in E. split; intros [? _]; exfalso; ndiv.
Qed.

(** The tail of bitmap_intersect, for a first map with more words. *)
Lemma intersect_tail ws k n :
  (k <= length ws)%nat -> (n <= length ws - k)%nat -> words_ok ws ->
  exists tl, map_words (fun _ => 0) n (drop k ws) = Some tl /\
    length (take k ws ++ tl) = length ws /\ words_ok (take k ws ++ tl) /\
    forall b, (b < 32 * (k + n))%nat ->
      mem_bit (take k ws ++ tl) b = if (b <? 32 * k)%nat then mem_bit ws b else false.
Proof.
  intros Hk Hn Hws.
  destruct (map_words_spec (fun _ => 0) (fun _ => false) n (drop k ws))
    as (tl & E & Hl & Hok & Hb).
  { done. } { intros. apply Z.bits_0. } { by rewrite length_drop. } { by apply Forall_drop. }
  rewrite length_drop in Hl. exists tl. split_and!.
  - done.
  - rewrite length_app, length_take. lia.
  - apply Forall_app. split; [by apply Forall_take|done].
  - intros b Hbn. unfold mem_bit. destruct (b <? 32 * k)%nat eqn:Eb; b2p.
    + rewrite lookup_app_l by (rewrite length_take; ndiv). rewrite lookup_take_lt by ndiv. done.
    + rewrite lookup_app_r by (rewrite length_take; ndiv).
      rewrite length_take, Nat.min_l by lia. specialize (Hb (b - 32 * k)%nat).
      unfold mem_bit in Hb. replace ((b - 32 * k) / 32)%nat with (b / 32 - k)%nat in Hb by ndiv.
      replace ((b - 32 * k) mod 32)%nat with (b mod 32)%nat in Hb by ndiv.
      rewrite Hb. replace (b - 32 * k <? 32 * n)%nat with true by bsolve. done.
Qed.

(** The two steps of bitmap_intersect on the common words. *)
Lemma intersect_head m m2 :
  bitmap_ok m -> bitmap_ok m2 ->
  let len := no_words_in_map m in
  let len2 := no_words_in_map m2 in
  exists ws ws',
    upd_words Z.land (len `min` len2) (bitmap m) (bitmap m2) = Some ws /\
    (if (len2 <=? len)%nat
     then w ← ws !! (len2 - 1)%nat;
          Some (<[(len2 - 1)%nat := w .& not32 (last_word_mask m2)]> ws)
     else Some ws) = Some ws' /\
    length ws' = length (bitmap m) /\ words_ok ws' /\
    forall b, (b < 32 * (len `min` len2))%nat ->
      mem_bit ws' b = mem_bit (bitmap m) b && mem_bit (bitmap m2) b &&
                      ((b <? n_bits m2)%nat || (len <? len2)%nat).
Proof.
  intros Hm Hm2. cbv zeta. rewrite !no_words_ok by done.
  pose proof Hm as [_ _ H3 H4 H5 _ _]. pose proof Hm2 as [L1 _ L3 L4 L5 L6 L7].
  destruct (upd_words_spec Z.land andb word_ok_land) with
    (S (last_word_ptr m) `min` S (last_word_ptr m2))%nat (bitmap m) (bitmap m2)
    as (ws & -> & Hl & Hws & Hb); try done || lia.
  { intros. apply Z.land_spec. }
  exists ws. replace (S (last_word_ptr m2) - 1)%nat with (last_word_ptr m2) by lia.
  destruct (S (last_word_ptr m2) <=? S (last_word_ptr m))%nat eqn:E; b2p.
  2:{ exists ws. split_and!; try done. intros b Hbn. rewrite Hb.
      replace (S (last_word_ptr m) <? S (last_word_ptr m2))%nat with true by bsolve.
      replace (b <? _)%nat with true by bsolve. by rewrite orb_true_r, andb_true_r. }
  destruct (lookup_lt_is_Some_2 ws (last_word_ptr m2)) as [w Hw]; [lia|].
  rewrite Hw. obind. eexists. split_and!; [done|done| | |].
  - by rewrite length_insert.
  - apply Forall_insert; [done|]. apply masked_ok; [done|].
    by apply (Forall_lookup_1 _ _ _ _ Hws Hw).
  - intros b Hbn. specialize (Hb b).
    replace (b <? 32 * (S (last_word_ptr m) `min` S (last_word_ptr m2)))%nat with true in Hb
      by bsolve.
    rewrite <- Hb.
    replace (S (last_word_ptr m) <? S (last_word_ptr m2))%nat with false by bsolve.
    rewrite orb_false_r. unfold mem_bit.
    destruct (decide (b / 32 = last_word_ptr m2)%nat) as [Eq|Ne].
    + rewrite Eq, list_lookup_insert_eq, Hw by lia. obind.
      rewrite masked_bits, L7 by ndiv.
      replace (Z.of_nat (n_bits m2) <=? _) with (negb (b <? n_bits m2)%nat).
      * destruct (b <? n_bits m2)%nat; simpl; [by rewrite andb_true_r|by rewrite andb_false_r].
      * destruct (b <? n_bits m2)%nat eqn:Eb; b2p; cbn [negb];
          [symmetry; apply Z.leb_gt|symmetry; apply Z.leb_le]; ndiv.
    + rewrite list_lookup_insert_ne by done.
      replace (b <? n_bits m2)%nat with true; [by rewrite andb_true_r|]. symmetry.
      apply Nat.ltb_lt. ndiv.
Qed.

Lemma bitmap_intersect_spec m m2 :
  bitmap_ok m -> bitmap_ok m2 ->
  exists m', bitmap_intersect m m2 = Some m' /\ bitmap_ok m' /\ bits m' = bits m ∩ bits m2.
Proof.
  intros Hm Hm2. unfold bitmap_intersect. cbv zeta.
  destruct (intersect_head m m2 Hm Hm2) as (ws & ws' & E1 & E2 & Hl & Hok & Hb).
  cbv zeta in *. rewrite E1. obind. rewrite E2. obind. clear E1 E2.
  rewrite !no_words_ok in * by done.
  pose proof Hm as [_ _ H3 H4 H5 _ _]. pose proof Hm2 as [L1 _ L3 L4 L5 L6 L7].
  destruct (S (last_word_ptr m2) <? S (last_word_ptr m))%nat eqn:E; b2p.
  - destruct (intersect_tail ws' (S (last_word_ptr m2))
      (S (last_word_ptr m) - S (last_word_ptr m2))) as (tl & -> & Tl & Tok & Tb); [lia|lia|done|].
    obind. eexists. split; [done|]. split; [apply with_bitmap_ok; (done || lia)|].
    apply set_eq. intros b. rewrite elem_of_intersection, bits_with_bitmap, !elem_of_bits.
    destruct (decide (b < n_bits m)%nat) as [Hn|]; [|tauto].
    rewrite Tb by ndiv. destruct (b <? 32 * S (last_word_ptr m2))%nat eqn:Eb; b2p.
    + rewrite Hb by lia.
      replace (S (last_word_ptr m) <? S (last_word_ptr m2))%nat with false by bsolve.
      rewrite orb_false_r, !andb_true_iff, Nat.ltb_lt. tauto.
    + split; [by intros [_ ?]|]. intros [_ [? _]]. exfalso. ndiv.
  - obind. eexists. split; [done|]. split; [apply with_bitmap_ok; (done || lia)|].
    apply set_eq. intros b. rewrite elem_of_intersection, bits_with_bitmap, !elem_of_bits.
    destruct (decide (b < n_bits m)%nat) as [Hn|]; [|tauto].
    rewrite Hb by ndiv. rewrite !andb_true_iff, orb_true_iff, !Nat.ltb_lt.
    split; [|tauto]. intros [_ [[? ?] Hor]]. repeat split; try done.
    destruct Hor; [done|]. ndiv.
Qed.

(** *** Searching *)

Definition first_bit_ok (c : Z) : bool :=
  (c =? 0) ||
  match first_bit 8 c 0 with
  | Some j => (j <? 8)%nat && Z.testbit c (Z.of_nat j) &&
              forallb (fun i => negb (Z.testbit c (Z.of_nat i))) (seq 0 j)
  | None => false
  end.

Lemma first_bit_spec c :
  0 <= c < 256 -> c <> 0 ->
  exists j, first_bit 8 c 0 = Some j /\ (j < 8)%nat /\ Z.testbit c (Z.of_nat j) = true /\
    forall i, (i < j)%nat -> Z.testbit c (Z.of_nat i) = false.
Proof.
  intros Hc Hne.
  pose proof (all_bytes_spec first_bit_ok c ltac:(by vm_compute) Hc) as H.
  unfold first_bit_ok in H. replace (c =? 0) with false in H by lia. cbn [orb] in H.
  destruct (first_bit 8 c 0) as [j|]; [|done]. b2p. exists j. split_and!; try done.
  intros i Hi. apply negb_true_iff. eapply forallb_forall in H0; [exact H0|].
  apply in_seq. lia.
Qed.

(** The least one bit of a word, from byte [byte_pos] on. *)
Lemma first_set_byte_spec n v wp p :
  word_ok v -> (n + p = 4)%nat ->
  (forall j, 0 <= j < 8 * Z.of_nat p -> Z.testbit v j = false) ->
  (v = 0 -> first_set_byte n v wp p = Some MY_BIT_NONE) /\
  (v <> 0 -> exists j, first_set_byte n v wp p = Some (u32 (Z.of_nat (32 * wp + j))) /\
     (j < 32)%nat /\ Z.testbit v (Z.of_nat j) = true /\
     forall i, (i < j)%nat -> Z.testbit v (Z.of_nat i) = false).
Proof.
  revert p. induction n as [|n IH]; intros p Hv Hp Hlow; cbn [first_set_byte].
  - split; [done|]. intros []. apply word_zero_iff; [done|]. intros i Hi. apply Hlow. lia.
  - unfold test. destruct (word_byte v p =? 0) eqn:E; cbn [negb]; b2p.
    + apply IH; [done|lia|]. intros j Hj. destruct (decide (j < 8 * Z.of_nat p)).
      { apply Hlow. lia. }
      pose proof (word_byte_bits v p (j - 8 * Z.of_nat p) ltac:(lia)) as Hb.
      rewrite E, Z.bits_0 in Hb. replace (_ <? 8) with true in Hb by lia.
      cbn [andb] in Hb. rewrite Hb. f_equal. lia.
    + split.
      { intros ->. destruct E. unfold word_byte. by rewrite Z.shiftr_0_l. }
      intros _. destruct (first_bit_spec (word_byte v p)) as (k & -> & Hk & Hbit & Hmin);
        [apply u8_range|done|].
      obind. exists (8 * p + k)%nat. split; [do 2 f_equal; lia|]. split; [lia|].
      rewrite word_byte_bits in Hbit by lia. b2p. split.
      * rewrite <- H0. f_equal. lia.
      * intros i Hi. destruct (decide (i < 8 * p)%nat); [apply Hlow; lia|].
        specialize (Hmin (i - 8 * p)%nat ltac:(lia)).
        rewrite word_byte_bits in Hmin by lia. replace (_ <? 8) with true in Hmin by bsolve.
        cbn [andb] in Hmin. rewrite <- Hmin. f_equal. lia.
Qed.

(** The scan over words [word_pos ..], the last of which is [last]. *)
Lemma first_set_loop_spec last ws wp :
  words_ok ws -> word_ok last ->
  (Forall (eq 0) (ws ++ [last]) /\ first_set_loop last ws wp = Some MY_BIT_NONE) \/
  exists i w j, (ws ++ [last]) !! i = Some w /\
    first_set_loop last ws wp = Some (u32 (Z.of_nat (32 * (wp + i) + j))) /\
    (j < 32)%nat /\ Z.testbit w (Z.of_nat j) = true /\
    (forall k, (k < j)%nat -> Z.testbit w (Z.of_nat k) = false) /\
    forall k, (k < i)%nat -> (ws ++ [last]) !! k = Some 0.
Proof.
  revert wp. induction ws as [|w ws IH]; intros wp Hws Hlast; cbn [first_set_loop app].
  - destruct (first_set_byte_spec 4 last wp 0 Hlast) as [Hz Hn]; [done|lia|].
    destruct (decide (last = 0)) as [->|Hne].
    + left. split; [by constructor|]. by apply Hz.
    + right. destruct (Hn Hne) as (j & E & H1 & H2 & H3). exists 0%nat, last, j.
      rewrite Nat.add_0_r. split_and!; try done. lia.
  - apply Forall_cons in Hws as [Hw Hws]. unfold test.
    destruct (w =? 0) eqn:E; b2p; cbn [negb].
    + subst w. destruct (IH (S wp) Hws Hlast) as [[H1 H2]|(i & w & j & H1 & H2 & H3 & H4 & H5 & H6)].
      * left. split; [by constructor|done].
      * right. exists (S i), w, j. rewrite Nat.add_succ_r. split_and!; try done.
        intros [|k] Hk; [done|]. apply H6. lia.
    + right. destruct (first_set_byte_spec 4 w wp 0 Hw) as [_ Hn]; [done|lia|].
      destruct (Hn E) as (j & E' & H1 & H2 & H3). exists 0%nat, w, j.
      rewrite Nat.add_0_r. split_and!; try done. lia.
Qed.

(** [r] is the least element of [X], or MY_BIT_NONE when there is none. *)
Definition least (X : gset nat) (r : Z) : Prop :=
  (X = ∅ /\ r = MY_BIT_NONE) \/
  (exists b, r = Z.of_nat b /\ b ∈ X /\ forall c, c ∈ X -> (b <= c)%nat).

(** The words as the scan sees them. *)
Lemma seen_word m l i w :
  bitmap_ok m -> bitmap m !! last_word_ptr m = Some l ->
  (full_words m ++ [l .& not32 (last_word_mask m)]) !! i = Some w ->
  forall j, (j < 32)%nat ->
    Z.testbit w (Z.of_nat j) = true <-> (32 * i + j)%nat ∈ bits m.
Proof.
  intros Hm Hl Hi j Hj. pose proof Hm as [H1 _ H3 H4 H5 _ H7].
  assert (length (full_words m) = last_word_ptr m) as Hlen.
  { unfold full_words. rewrite length_take. lia. }
  rewrite elem_of_bits. replace (32 * i + j)%nat with (32 * i + Z.to_nat (Z.of_nat j))%nat by lia.
  destruct (decide (i < last_word_ptr m)%nat).
  - rewrite lookup_app_l in Hi by lia. apply lookup_take_Some in Hi as [Hi _].
    rewrite (mem_bit_word _ _ _ _ Hi) by lia. split; [|tauto]. split; [ndiv|done].
  - apply lookup_lt_Some in Hi as Hlt. rewrite length_app in Hlt. simpl in Hlt.
    assert (i = last_word_ptr m) as -> by lia.
    rewrite lookup_app_r, Hlen, Nat.sub_diag in Hi by lia. simplify_eq/=.
    rewrite masked_bits, H7, (mem_bit_word _ _ _ _ Hl) by lia.
    case_if; split; try (by intros [? ?]); try done; intros; [lia|split; [lia|done]].
Qed.

Lemma bitmap_get_first_set_spec m :
  bitmap_ok m -> exists r, bitmap_get_first_set m = Some r /\ least (bits m) r.
Proof.
  intros Hm. unfold bitmap_get_first_set.
  destruct (last_word_ok m Hm) as (l & -> & Hl & Hlok). obind.
  pose proof (seen_word m l) as Hseen. pose proof Hm as [H1 H2 H3 H4 H5 _ _].
  destruct (first_set_loop_spec (l .& not32 (last_word_mask m)) (full_words m) 0)
    as [[Hz ->]|(i & w & j & Hi & -> & Hj & Hbit & Hmin & Hzero)];
    [by apply Forall_take|by apply masked_ok| |].
  - eexists; split; [done|]. left. split; [|done]. apply set_eq. intros b.
    split; [|by intros ?%not_elem_of_empty]. intros Hb.
    assert (b < n_bits m)%nat as Hn by (apply elem_of_bits in Hb as [? _]; done).
    destruct (lookup_lt_is_Some_2
      (full_words m ++ [l .& not32 (last_word_mask m)]) (b / 32)) as [w Hw].
    { rewrite length_app. unfold full_words. rewrite length_take, Nat.min_l by lia.
      cbn [length]. ndiv. }
    pose proof (Forall_lookup_1 _ _ _ _ Hz Hw) as <-.
    destruct (Hseen _ _ Hm Hl Hw (b mod 32)%nat) as [_ Hbad]; [ndiv|].
    rewrite Z.bits_0 in Hbad. enough (false = true) by done. apply Hbad.
    by replace (32 * (b / 32) + b mod 32)%nat with b by ndiv.
  - eexists; split; [done|]. right. exists (32 * i + j)%nat.
    pose proof (proj1 (Hseen _ _ Hm Hl Hi j Hj) Hbit) as Hin.
    assert (32 * i + j < n_bits m)%nat by (apply elem_of_bits in Hin as [? _]; done).
    split_and!; [rewrite u32_small; lia|done|].
    intros c Hc. destruct (decide (32 * i + j <= c)%nat); [done|exfalso].
    destruct (decide (c / 32 = i)%nat) as [Ei|Ne].
    + pose proof (Hmin (c - 32 * i)%nat ltac:(ndiv)) as Hf.
      apply not_true_iff_false in Hf. apply Hf.
      apply (Hseen _ _ Hm Hl Hi); [ndiv|]. by replace (32 * i + (c - 32 * i))%nat with c by ndiv.
    + destruct (Hseen _ _ Hm Hl (Hzero (c / 32)%nat ltac:(ndiv)) (c mod 32)%nat)
        as [_ Hbad]; [ndiv|].
      rewrite Z.bits_0 in Hbad. enough (false = true) by done. apply Hbad.
    by replace (32 * (c / 32) + c mod 32)%nat with c by ndiv.
Qed.

(** Searching for a zero bit is searching for a one bit in the inverted map. *)
Lemma first_zero_bit_not c :
  0 <= c < 256 -> first_zero_bit 8 c 0 = first_bit 8 (c .^ 255) 0.
Proof.
  intros Hc.
  pose proof (all_bytes_spec (fun c => bool_decide (first_zero_bit 8 c 0 = first_bit 8 (c .^ 255) 0))
    c ltac:(by vm_compute) Hc) as H.
  by apply bool_decide_eq_true in H.
Qed.

Lemma word_byte_not v p : (p < 4)%nat -> word_byte (not32 v) p = word_byte v p .^ 255.
Proof.
  intros Hp. apply Z.bits_inj'. intros i Hi. rewrite Z.lxor_spec, !word_byte_bits by done.
  change 255 with (Z.ones 8). destruct (i <? 8) eqn:E; b2p; cbn [andb].
  - rewrite not32_bits, Z.ones_spec_low by lia. by rewrite xorb_true_r.
  - by rewrite Z.ones_spec_high by lia.
Qed.

Lemma first_not_set_byte_not n v wp p :
  (n + p = 4)%nat -> first_not_set_byte n v wp p = first_set_byte n (not32 v) wp p.
Proof.
  revert p. induction n as [|n IH]; intros p Hp; [done|].
  cbn [first_not_set_byte first_set_byte]. rewrite word_byte_not by lia.
  unfold test. replace (word_byte v p .^ 255 =? 0) with (word_byte v p =? 255).
  2:{ apply eq_iff_eq_true. by rewrite !Z.eqb_eq, Z.lxor_eq_0_iff. }
  rewrite first_zero_bit_not by apply u8_range. by rewrite IH by lia.
Qed.

Lemma first_not_set_loop_not last ws wp :
  words_ok ws ->
  first_not_set_loop last ws wp = first_set_loop (not32 last) (map not32 ws) wp.
Proof.
  revert wp. induction ws as [|w ws IH]; intros wp Hws; cbn [first_not_set_loop first_set_loop map].
  - by apply first_not_set_byte_not.
  - apply Forall_cons in Hws as [Hw Hws]. unfold test, get_first_not_set, get_first_set.
    rewrite IH, first_not_set_byte_not by done.
    replace (not32 w =? 0) with (w =? WORD_ALL); [done|].
    apply eq_iff_eq_true. unfold not32. by rewrite !Z.eqb_eq, Z.lxor_eq_0_iff.
Qed.

Lemma bitmap_get_first_spec m :
  bitmap_ok m ->
  exists r, bitmap_get_first m = Some r /\ least (indices (n_bits m) ∖ bits m) r.
Proof.
  intros Hm. pose proof Hm as [H1 H2 H3 H4 H5 H6 _].
  set (m' := with_bitmap m (map not32 (bitmap m))).
  assert (words_ok (map not32 (bitmap m))) as Hws'.
  { apply Forall_fmap. eapply Forall_impl; [exact H5|]. apply word_ok_not32. }
  assert (bitmap_ok m') as Hm' by (apply with_bitmap_ok; [done|apply length_map|done]).
  assert (bits m' = indices (n_bits m) ∖ bits m) as Hbits.
  { apply set_eq. intros b. unfold m'. rewrite elem_of_difference, bits_with_bitmap,
      elem_of_indices, elem_of_bits.
    destruct (decide (b < n_bits m)%nat) as [Hb|]; [|tauto].
    destruct (lookup_lt_is_Some_2 (bitmap m) (b / 32)) as [w Hw]; [ndiv|].
    unfold mem_bit. rewrite list_lookup_fmap, Hw. cbn [fmap option_fmap option_map]. obind.
    rewrite not32_bits, negb_true_iff, <- not_true_iff_false by ndiv. tauto. }
  destruct (bitmap_get_first_set_spec m' Hm') as (r & E & Hr). rewrite Hbits in Hr.
  exists r. split; [|done]. rewrite <- E. unfold bitmap_get_first, bitmap_get_first_set.
  destruct (last_word_ok m Hm) as (l & Hlw & Hl & Hlok). rewrite Hlw.
  assert (last_word m' = Some (not32 l)) as ->.
  { unfold last_word, m'. simpl. rewrite list_lookup_fmap, Hl. done. }
  obind. rewrite first_not_set_loop_not by (by apply Forall_take). f_equal.
  - apply word_ext; [by apply word_ok_not32, word_ok_lor|
      apply word_ok_land; by apply word_ok_not32|].
    intros i Hi. cbn [last_word_mask m' with_bitmap].
    rewrite Z.land_spec, !not32_bits, Z.lor_spec by done. apply negb_orb.
  - unfold full_words, m'. simpl. by rewrite fmap_take.
Qed.

Lemma bitmap_set_next_spec m :
  bitmap_ok m ->
  exists r m', bitmap_set_next m = Some (r, m') /\ bitmap_ok m' /\
    least (indices (n_bits m) ∖ bits m) r /\
    bits m' = if decide (r = MY_BIT_NONE) then bits m else {[Z.to_nat r]} ∪ bits m.
Proof.
  intros Hm. pose proof Hm as [_ H2 _ _ _ _ _]. unfold bitmap_set_next.
  destruct (bitmap_get_first_spec m Hm) as (r & -> & Hr). obind.
  destruct (r =? MY_BIT_NONE) eqn:E; b2p; cbn [negb].
  - exists r, m. rewrite decide_True by done. done.
  - destruct Hr as [[_ ?]|(b & -> & Hb & Hmin)]; [done|].
    assert (b < n_bits m)%nat as Hlt by (apply elem_of_difference in Hb as [Hb _];
      by apply elem_of_indices).
    rewrite Nat2Z.id. destruct (bitmap_set_bit_spec m b Hm Hlt) as (m' & -> & Hm' & Hbits & _).
    obind. exists (Z.of_nat b), m'. rewrite decide_False, Nat2Z.id by done.
    split_and!; try done. right. by exists b.
Qed.

(** *** Filling *)

(** Decides the outermost condition of the goal. *)
Ltac if_true :=
  match goal with |- context [if ?c then _ else _] => replace c with true by bsolve end.
Ltac if_false :=
  match goal with |- context [if ?c then _ else _] => replace c with false by bsolve end.


Lemma fill_byte_bit (v : Z) i :
  v = 0 \/ v = 255 -> (i < 8)%nat -> Z.testbit v (Z.of_nat i) = (v =? 255).
Proof.
  intros [-> | ->] Hi; [apply Z.bits_0|]. change 255 with (Z.ones 8).
  by rewrite Z.ones_spec_low by lia.
Qed.

Lemma bitmap_clear_all_spec m :
  bitmap_ok m -> exists m', bitmap_clear_all m = Some m' /\ bitmap_ok m' /\ bits m' = ∅.
Proof.
  intros Hm. pose proof Hm as [H1 H2 H3 H4 H5 _ _]. unfold bitmap_clear_all.
  rewrite no_words_ok by done.
  destruct (mem_set_bytes_spec (bitmap m) 0 (4 * S (last_word_ptr m)) 0)
    as (ws & -> & Hl & Hws & Hb); [lia|done|lia|].
  obind. eexists. split_and!; [done|by apply with_bitmap_ok|]. apply set_eq. intros b.
  rewrite bits_with_bitmap, Hb. split; [|by intros ?%not_elem_of_empty]. intros [Hbn E].
  replace (_ && _) with true in E by bsolve. by rewrite Z.bits_0 in E.
Qed.

Lemma bitmap_set_all_spec m :
  bitmap_ok m ->
  exists m', bitmap_set_all m = Some m' /\ bitmap_ok m' /\ bits m' = indices (n_bits m).
Proof.
  intros Hm. pose proof Hm as [H1 H2 H3 H4 H5 _ _]. unfold bitmap_set_all.
  rewrite no_words_ok by done.
  destruct (mem_set_bytes_spec (bitmap m) 0 (4 * S (last_word_ptr m)) 255)
    as (ws & -> & Hl & Hws & Hb); [lia|done|lia|].
  obind. eexists. split_and!; [done|by apply with_bitmap_ok|]. apply set_eq. intros b.
  rewrite bits_with_bitmap, elem_of_indices, Hb. split; [tauto|]. intros Hbn. split; [done|].
  if_true. apply fill_byte_bit; [auto|ndiv].
Qed.

Lemma bitmap_set_above_spec m from_byte use_bit :
  bitmap_ok m ->
  exists m', bitmap_set_above m from_byte use_bit = Some m' /\ bitmap_ok m' /\
    forall b, b ∈ bits m' <-> (b < n_bits m)%nat /\
      if decide (8 * from_byte <= b)%nat then use_bit = true else b ∈ bits m.
Proof.
  intros Hm. pose proof Hm as [H1 H2 H3 H4 H5 _ _]. unfold bitmap_set_above.
  rewrite wrap32_small by lia.
  set (n := ((n_bits m + 7) / 8 - from_byte)%nat).
  assert (mem_set_bytes (bitmap m) from_byte n (if use_bit then 255 else 0) =
    mem_set_bytes (bitmap m) (if decide (n = 0)%nat then 0%nat else from_byte) n
      (if use_bit then 255 else 0)) as ->.
  { destruct (decide _) as [->|]; done. }
  destruct (mem_set_bytes_spec (bitmap m) (if decide (n = 0)%nat then 0%nat else from_byte) n
    (if use_bit then 255 else 0)) as (ws & -> & Hl & Hws & Hb).
  { subst n. destruct (decide _); ndiv. } { done. } { by destruct use_bit. }
  obind. eexists. split_and!; [done|by apply with_bitmap_ok|]. intros b.
  rewrite bits_with_bitmap, Hb.
  destruct (decide (b < n_bits m)%nat) as [Hbn|]; [|tauto].
  destruct (decide (8 * from_byte <= b)%nat); rewrite ?elem_of_bits.
  - assert (n <> 0)%nat by (subst n; ndiv). rewrite decide_False by done.
    subst n. if_true.
    rewrite fill_byte_bit by (destruct use_bit; auto || ndiv). destruct use_bit; naive_solver.
  - replace (_ && _) with false; [tauto|]. symmetry.
    apply not_true_iff_false. rewrite andb_true_iff, Nat.leb_le, Nat.ltb_lt.
    destruct (decide (n = 0)%nat); [lia|]. ndiv.
Qed.

(** *** Prefixes *)

(** The bytes bitmap_set_prefix writes, and where they end. *)
Lemma prefix_partial_byte ws p k :
  (p < 4 * length ws)%nat -> words_ok ws -> (0 < k < 8)%nat ->
  exists ws', mem_set_byte ws p ((1 .<< Z.of_nat k) - 1) = Some ws' /\
    length ws' = length ws /\ words_ok ws' /\
    forall b, mem_bit ws' b = if (b / 8 =? p)%nat then (b mod 8 <? k)%nat else mem_bit ws b.
Proof.
  intros Hp Hws Hk.
  assert (2 ^ Z.of_nat k <= 2 ^ 7) by (apply Z.pow_le_mono_r; lia).
  assert (0 < 2 ^ Z.of_nat k) by (apply Z.pow_pos_nonneg; lia).
  destruct (mem_set_byte_spec ws p ((1 .<< Z.of_nat k) - 1)) as (ws' & E & Hl & Hok & Hb);
    [done|done|rewrite Z.shiftl_1_l; lia|].
  exists ws'. split_and!; [done..|]. intros b. rewrite Hb. destruct (b / 8 =? p)%nat; [|done].
  rewrite Z.shiftl_1_l, Z.sub_1_r, <- Z.ones_equiv.
  destruct (b mod 8 <? k)%nat eqn:E'; b2p;
    [apply Z.ones_spec_low|apply Z.ones_spec_high]; lia.
Qed.

Lemma bitmap_set_prefix_spec m prefix_size :
  bitmap_ok m ->
  let p := (prefix_size `min` n_bits m)%nat in
  ((p mod 8 = 0)%nat \/ ((n_bits m + 7) / 8 < 4 * length (bitmap m))%nat ->
     exists m', bitmap_set_prefix m prefix_size = Some m' /\ bitmap_ok m' /\
       bits m' = indices p) /\
  ((p mod 8 <> 0)%nat -> ((n_bits m + 7) / 8 = 4 * length (bitmap m))%nat ->
     bitmap_set_prefix m prefix_size = None).
Proof.
  intros Hm p. pose proof Hm as [H1 H2 H3 H4 H5 _ _]. unfold bitmap_set_prefix.
  replace (if (n_bits m <? prefix_size)%nat then n_bits m else prefix_size) with p.
  2:{ subst p. case_if; lia. }
  cbv zeta. rewrite no_bytes_ok by done. assert (p <= n_bits m)%nat as Hp by (subst p; lia).
  clearbody p.
  destruct (mem_set_bytes_spec (bitmap m) 0 (p / 8) 255) as (ws & -> & Hl & Hws & Hb);
    [ndiv|done|lia|]. obind.
  destruct (p mod 8 =? 0)%nat eqn:E; b2p; cbn [negb]; obind.
  - split; [intros _|done].
    destruct (mem_set_bytes_spec ws (p / 8) ((n_bits m + 7) / 8 - p / 8) 0)
      as (ws' & -> & Hl' & Hws' & Hb'); [rewrite Hl; ndiv|done|lia|].
    obind. eexists. split_and!; [done|apply with_bitmap_ok; (done || lia)|].
    apply set_eq. intros b. rewrite bits_with_bitmap, elem_of_indices, Hb', Hb.
    destruct (decide (b < n_bits m)%nat) as [Hbn|]; [|lia].
    destruct (decide (b < p)%nat).
    + if_false.
      if_true.
      rewrite fill_byte_bit by (auto || ndiv). by split.
    + if_true.
      rewrite Z.bits_0. split; [by intros [_ ?]|lia].
  - destruct (prefix_partial_byte ws (p / 8) (p mod 8)) as (ws1 & -> & Hl1 & Hws1 & Hb1);
      [rewrite Hl; ndiv|done|ndiv|]. obind. split.
    + intros [?|Hroom]; [done|].
      destruct (mem_set_bytes_spec ws1 (S (p / 8)) ((n_bits m + 7) / 8 - p / 8) 0)
        as (ws' & -> & Hl' & Hws' & Hb'); [rewrite Hl1, Hl; ndiv|done|lia|].
      obind. eexists. split_and!; [done|apply with_bitmap_ok; (done || lia)|].
      apply set_eq. intros b. rewrite bits_with_bitmap, elem_of_indices, Hb', Hb1, Hb.
      destruct (decide (b < n_bits m)%nat) as [Hbn|]; [|lia].
      destruct (decide (b / 8 <= p / 8)%nat).
      * if_false.
        destruct (b / 8 =? p / 8)%nat eqn:Eb; b2p.
        -- rewrite Nat.ltb_lt. ndiv.
        -- if_true.
           rewrite fill_byte_bit by (auto || ndiv). split; [ndiv|]. by split.
      * if_true.
        rewrite Z.bits_0. split; [by intros [_ ?]|]. ndiv.
    + intros _ Hfull. rewrite mem_set_bytes_overrun; [done|rewrite Hl1, Hl; ndiv|ndiv].
Qed.

Lemma full_words_length m : bitmap_ok m -> length (full_words m) = last_word_ptr m.
Proof. intros [_ _ _ H4 _ _ _]. unfold full_words. rewrite length_take. lia. Qed.

Section IsPrefix.
Context (m : MY_BITMAP) (p : nat) (l : Z).
Context (Hm : bitmap_ok m) (Hl : bitmap m !! last_word_ptr m = Some l).
Context (Hp : (p <= n_bits m)%nat).

Let lw := l .& not32 (last_word_mask m).
Let eff := full_words m ++ [lw].
Let ones := u32 ((1 .<< Z.of_nat (p mod 32)) - 1).

Lemma eff_ok i w : eff !! i = Some w -> word_ok w.
Proof.
  pose proof Hm as [_ _ _ _ H5 _ _]. apply Forall_lookup_1. apply Forall_app. split.
  - by apply Forall_take.
  - apply Forall_singleton. apply masked_ok; [done|]. by apply (Forall_lookup_1 _ _ _ _ H5 Hl).
Qed.

Lemma eff_last i w : eff !! i = Some w -> (last_word_ptr m <= i)%nat ->
  i = last_word_ptr m /\ w = lw.
Proof. clear Hp Hl ones p.
  intros Hi Hge. unfold eff in Hi. rewrite lookup_app_r in Hi by (rewrite full_words_length; done || lia).
  apply list_lookup_singleton_Some in Hi as [Hi ->]. rewrite full_words_length in Hi by done.
  split; [lia|done].
Qed.

Lemma ones_bits j : 0 <= j < 32 -> Z.testbit ones j = (j <? Z.of_nat (p mod 32)).
Proof. clear Hp Hl Hm eff lw.
  intros Hj. unfold ones, u32.
  rewrite Z.mod_pow2_bits_low, Z.shiftl_1_l, Z.sub_1_r, <- Z.ones_equiv by lia.
  destruct (j <? Z.of_nat (p mod 32)) eqn:E; b2p;
    [apply Z.ones_spec_low|apply Z.ones_spec_high]; lia.
Qed.

(** What word [i] of the map must be. *)
Definition prefix_word (i : nat) : Z :=
  if (i <? p / 32)%nat then WORD_ALL else if (i =? p / 32)%nat then ones else 0.

Lemma prefix_word_bits i j :
  (j < 32)%nat -> Z.testbit (prefix_word i) (Z.of_nat j) = (32 * i + j <? p)%nat.
Proof. clear Hp Hl Hm eff lw.
  intros Hj. unfold prefix_word. repeat case_if.
  - rewrite word_all_bits by lia. symmetry. apply Nat.ltb_lt. ndiv.
  - rewrite ones_bits by lia. apply eq_iff_eq_true. rewrite Z.ltb_lt, Nat.ltb_lt. ndiv.
  - rewrite Z.bits_0. symmetry. apply Nat.ltb_ge. ndiv.
Qed.

Lemma prefix_word_ok i : word_ok (prefix_word i).
Proof. clear Hp Hl Hm eff lw.
  unfold prefix_word. repeat case_if; [apply word_ok_all|apply u32_range|done].
Qed.

Lemma is_prefix_words :
  bits m = indices p <-> forall i w, eff !! i = Some w -> w = prefix_word i.
Proof.
  pose proof Hm as [H1 _ H3 H4 H5 _ H7]. split.
  - intros Hb i w Hi. apply word_ext; [by eapply eff_ok|apply prefix_word_ok|].
    intros j Hj. replace j with (Z.of_nat (Z.to_nat j)) by lia.
    rewrite prefix_word_bits by lia. apply eq_iff_eq_true.
    rewrite (seen_word m l i w Hm Hl Hi), Hb, elem_of_indices, Nat.ltb_lt by lia. done.
  - intros H. apply set_eq. intros b. rewrite elem_of_indices.
    destruct (decide (b < n_bits m)%nat) as [Hn|Hn].
    2:{ rewrite elem_of_bits. lia. }
    destruct (lookup_lt_is_Some_2 eff (b / 32)) as [w Hw].
    { unfold eff. rewrite length_app, full_words_length by done. cbn [length]. ndiv. }
    replace b with (32 * (b / 32) + b mod 32)%nat by ndiv.
    rewrite <- (seen_word m l (b / 32) w Hm Hl Hw), (H _ _ Hw), prefix_word_bits, Nat.ltb_lt
      by ndiv. done.
Qed.

Lemma is_prefix_step1 :
  forallb (fun w => w =? WORD_ALL) (take (p / 32) (bitmap m)) = true <->
  forall i w, eff !! i = Some w -> (i < p / 32)%nat -> w = WORD_ALL.
Proof.
  pose proof Hm as [H1 _ H3 H4 H5 H6 H7].
  assert (forall i w, (i < p / 32)%nat -> bitmap m !! i = Some w <-> eff !! i = Some w) as Hraw.
  { intros i w Hi. unfold eff. destruct (decide (i < last_word_ptr m)%nat).
    - rewrite lookup_app_l by (rewrite full_words_length; done || lia).
      unfold full_words. by rewrite lookup_take_lt.
    - assert (i = last_word_ptr m) as -> by ndiv. rewrite Hl.
      rewrite lookup_app_r by (rewrite full_words_length; done || lia).
      rewrite full_words_length, Nat.sub_diag by done. simpl.
      replace lw with l; [done|]. apply word_ext.
      + by apply (Forall_lookup_1 _ _ _ _ H5 Hl).
      + apply masked_ok; [done|]. by apply (Forall_lookup_1 _ _ _ _ H5 Hl).
      + intros j Hj. unfold lw. rewrite masked_bits, H7 by done.
        case_if; [exfalso; ndiv|done]. }
  rewrite forallb_lookup. setoid_rewrite lookup_take_Some. setoid_rewrite Z.eqb_eq. split.
  - intros H i w Hi Hlt. apply (H i). by rewrite Hraw.
  - intros H i w [Hi Hlt]. apply (H i); [by apply Hraw|done].
Qed.

Lemma is_prefix_zeros k :
  (if negb (forallb (fun w => w =? 0) (drop k (full_words m))) then false
   else (last_word_ptr m <? k)%nat || (lw =? 0)) = true <->
  forall i w, eff !! i = Some w -> (k <= i)%nat -> w = 0.
Proof. clear Hp Hl ones p.
  destruct (forallb (fun w => w =? 0) (drop k (full_words m))) eqn:E; cbn [negb].
  - rewrite forallb_lookup in E. setoid_rewrite lookup_drop in E. setoid_rewrite Z.eqb_eq in E.
    rewrite orb_true_iff, Nat.ltb_lt, Z.eqb_eq. split.
    + intros H i w Hi Hk. destruct (decide (i < last_word_ptr m)%nat).
      * apply (E (i - k)%nat). replace (k + (i - k))%nat with i by lia. unfold eff in Hi.
        by rewrite lookup_app_l in Hi by (rewrite full_words_length; done || lia).
      * destruct (eff_last i w Hi) as [-> ->]; [lia|]. destruct H; [lia|done].
    + intros H. destruct (decide (last_word_ptr m < k)%nat); [by left|right].
      apply (H (last_word_ptr m)); [|lia]. unfold eff.
      rewrite lookup_app_r by (rewrite full_words_length; done || lia).
      by rewrite full_words_length, Nat.sub_diag by done.
  - split; [done|]. intros H. exfalso. apply not_true_iff_false in E. apply E.
    apply forallb_lookup. intros i w Hi. rewrite lookup_drop in Hi. apply Z.eqb_eq.
    apply (H (k + i)%nat); [|lia]. unfold eff. by apply lookup_app_l_Some.
Qed.
Lemma eff_index i w : eff !! i = Some w -> (i <= last_word_ptr m)%nat.
Proof. clear Hp Hl ones p.
  intros Hi%lookup_lt_Some. unfold eff in Hi.
  rewrite length_app, full_words_length in Hi by done. simpl in Hi. lia.
Qed.

Lemma eff_at_last : eff !! last_word_ptr m = Some lw.
Proof. clear Hp Hl ones p.
  unfold eff. rewrite lookup_app_r by (rewrite full_words_length; done || lia).
  by rewrite full_words_length, Nat.sub_diag by done.
Qed.

Lemma eff_raw i w :
  (i < last_word_ptr m)%nat -> bitmap m !! i = Some w -> eff !! i = Some w.
Proof. clear Hp Hl ones p.
  intros Hi Hw. unfold eff. rewrite lookup_app_l by (rewrite full_words_length; done || lia).
  unfold full_words. by rewrite lookup_take_lt.
Qed.

Lemma prefix_word_before i : (i < p / 32)%nat -> prefix_word i = WORD_ALL.
Proof. clear Hp Hl Hm eff lw. intros Hi. unfold prefix_word. by replace (i <? p / 32)%nat with true by bsolve. Qed.

Lemma prefix_word_at : prefix_word (p / 32) = ones.
Proof. clear Hp Hl Hm eff lw. unfold prefix_word. by rewrite Nat.ltb_irrefl, Nat.eqb_refl. Qed.

Lemma prefix_word_after i : (p / 32 < i)%nat -> prefix_word i = 0.
Proof. clear Hp Hl Hm eff lw.
  intros Hi. unfold prefix_word. replace (i <? p / 32)%nat with false by bsolve.
  by replace (i =? p / 32)%nat with false by bsolve.
Qed.

(** All the words up to the one holding the end of the prefix being right,
    the map is a prefix exactly when the others are zero. *)
Lemma is_prefix_rest k :
  (forall i w, eff !! i = Some w -> (i < k)%nat -> w = prefix_word i) ->
  (forall i, (k <= i)%nat -> prefix_word i = 0) ->
  (forall i w, eff !! i = Some w -> (k <= i)%nat -> w = 0) <->
  (forall i w, eff !! i = Some w -> w = prefix_word i).
Proof. clear Hp Hl Hm.
  intros Hlow Hhigh. split.
  - intros H i w Hi. destruct (decide (i < k)%nat); [by apply Hlow|].
    rewrite Hhigh by lia. apply (H i); [done|lia].
  - intros H i w Hi Hk. rewrite (H i w Hi). by apply Hhigh.
Qed.
End IsPrefix.

Lemma bitmap_is_prefix_spec m p :
  bitmap_ok m -> (p <= n_bits m)%nat ->
  bitmap_is_prefix m p = Some (bool_decide (bits m = indices p)).
Proof.
  intros Hm Hp. pose proof Hm as [H1 _ H3 H4 _ _ _]. unfold bitmap_is_prefix.
  destruct (last_word_ok m Hm) as (l & -> & Hl & Hlok). obind. cbv zeta.
  pose proof (is_prefix_words m p l Hm Hl Hp) as Hall.
  pose proof (is_prefix_step1 m p l Hm Hl Hp) as Hs1.
  destruct (forallb _ (take (p / 32) (bitmap m))) eqn:E1; cbn [negb].
  2:{ f_equal. symmetry. apply bool_decide_eq_false. rewrite Hall. intros H.
      enough (false = true) by done. apply Hs1. intros i w Hi Hlt.
      rewrite (H i w Hi). by apply prefix_word_before. }
  pose proof (proj1 Hs1 eq_refl) as Hones. clear Hs1 E1.
  assert (forall i w, (full_words m ++ [l .& not32 (last_word_mask m)]) !! i = Some w ->
    (i < p / 32)%nat -> w = prefix_word p i) as Hlow.
  { intros i w Hi Hlt. rewrite prefix_word_before by done. by apply (Hones i). }
  pose proof (prefix_word_at p) as Hat. pose proof (prefix_word_after p) as Hafter.
  destruct (p mod 32 =? 0)%nat eqn:Er; b2p; cbn [negb].
  - f_equal. apply eq_iff_eq_true. rewrite bool_decide_eq_true, Hall.
    rewrite (is_prefix_zeros m l Hm). apply is_prefix_rest; [done|].
    intros i Hi. destruct (decide (i = p / 32)%nat) as [->|]; [|apply Hafter; lia].
    rewrite Hat, Er. done.
  - assert (p / 32 <= last_word_ptr m)%nat by ndiv.
    destruct (p / 32 =? last_word_ptr m)%nat eqn:Eq; b2p.
    + f_equal. apply eq_iff_eq_true. rewrite Z.eqb_eq, bool_decide_eq_true, Hall, <- Hat.
      split; [|intros H0; rewrite Eq; apply (H0 _ _ (eff_at_last m l Hm))].
      intros E i w Hi. pose proof (eff_index m l Hm i w Hi).
      destruct (decide (i < p / 32)%nat); [by apply Hlow|].
      assert (i = (p / 32)%nat) as -> by lia. rewrite <- E.
      rewrite Eq, (eff_at_last m l Hm) in Hi. congruence.
    + destruct (lookup_lt_is_Some_2 (bitmap m) (p / 32)) as [w Hw]; [lia|]. rewrite Hw. obind.
      pose proof (eff_raw m l Hm (p / 32) w ltac:(lia) Hw) as Hew.
      destruct (w =? _) eqn:Ew; b2p; cbn [negb]; f_equal.
      * apply eq_iff_eq_true. rewrite bool_decide_eq_true, Hall.
        rewrite (is_prefix_zeros m l Hm). apply is_prefix_rest; [|intros; apply Hafter; lia].
        intros i v Hi Hlt. destruct (decide (i = p / 32)%nat) as [->|]; [|apply Hlow; (done || lia)].
        congruence.
      * symmetry. apply bool_decide_eq_false. rewrite Hall. intros H'.
        apply Ew. by rewrite (H' _ _ Hew), Hat.
Qed.

(** *** Creation *)

(** The mask for [r] used bits of the last word, [r = 1 .. 32], computed. *)
Definition mask_of (r : nat) : Z :=
  last_word_mask (create_last_word_mask (mk_bitmap [] r 0 0 false)).

Lemma mask_of_spec r :
  (1 <= r <= 32)%nat ->
  word_ok (mask_of r) /\
  forall j, 0 <= j < 32 -> Z.testbit (mask_of r) j = (Z.of_nat r <=? j).
Proof.
  intros Hr.
  assert (forallb (fun r => (0 <=? mask_of r) && (mask_of r <? 2 ^ 32) &&
    forallb (fun j => Bool.eqb (Z.testbit (mask_of r) (Z.of_nat j)) (Z.of_nat r <=? Z.of_nat j))
      (seq 0 32)) (seq 1 32) = true) as H by (by vm_compute).
  rewrite forallb_forall in H. specialize (H r). rewrite in_seq in H. specialize (H ltac:(lia)).
  b2p. split; [done|]. intros j Hj. rewrite forallb_forall in H0.
  specialize (H0 (Z.to_nat j)). rewrite in_seq, Z2Nat.id in H0 by lia.
  apply eqb_prop, H0. lia.
Qed.

Lemma create_last_word_mask_spec m :
  (0 < n_bits m)%nat -> (N.of_nat (n_bits m) + 31 < 2 ^ 32)%N ->
  ((n_bits m + 31) / 32 <= length (bitmap m))%nat -> words_ok (bitmap m) ->
  bitmap_ok (create_last_word_mask m).
Proof.
  intros H1 H2 H3 H4. set (r := ((n_bits m - 1) mod 32 + 1)%nat).
  assert (last_word_mask (create_last_word_mask m) = mask_of r) as E.
  { unfold mask_of, create_last_word_mask, no_bytes_in_map. cbn [last_word_mask n_bits].
    rewrite !wrap32_small by (subst r; ndiv).
    assert ((n_bits m + 7) / 8 mod 4 = (r + 7) / 8 mod 4)%nat as -> by (subst r; ndiv).
    change 7 with (Z.ones 3). rewrite !Z.land_ones, !u32_small by (subst r; ndiv).
    assert ((Z.of_nat (n_bits m) - 1) mod 2 ^ 3 = (Z.of_nat r - 1) mod 2 ^ 3) as ->
      by (subst r; change (2 ^ 3) with 8; ndiv).
    done. }
  destruct (mask_of_spec r) as [M1 M2]; [subst r; ndiv|].
  assert (last_word_ptr (create_last_word_mask m) = (n_bits m + 31) / 32 - 1)%nat as El.
  { unfold create_last_word_mask, no_words_in_map. cbn [last_word_ptr].
    by rewrite wrap32_small by lia. }
  split; rewrite ?E, ?El; cbn [bitmap n_bits create_last_word_mask]; try done; [ndiv|].
  intros i Hi. rewrite M2 by done. apply eq_iff_eq_true. rewrite !Z.leb_le. subst r. ndiv.
Qed.

(** A block of [my_malloc]: any words, at least as many bytes as asked for. *)
Definition malloc_block (malloc : nat -> option (list Z)) : Prop :=
  forall n ws, malloc n = Some ws -> (n <= 4 * length ws)%nat /\ words_ok ws.

Lemma bitmap_init_start b bits' mtx :
  (0 < bits')%nat -> (N.of_nat bits' + 31 < 2 ^ 32)%N ->
  ((bits' + 31) / 32 <= length b)%nat -> words_ok b ->
  exists m, bitmap_clear_all (create_last_word_mask (mk_bitmap b bits' 0 0 mtx)) = Some m /\
    bitmap_ok m /\ n_bits m = bits' /\ bits m = ∅.
Proof.
  intros H1 H2 H3 H4.
  pose proof (create_last_word_mask_spec (mk_bitmap b bits' 0 0 mtx) H1 H2 H3 H4) as Hok.
  destruct (bitmap_clear_all_spec _ Hok) as (m & E & Hm & Hb). exists m.
  split_and!; try done. unfold bitmap_clear_all in E.
  destruct (mem_set_bytes _ _ _ _); [|done]. by simplify_eq/=.
Qed.

(** ** The contract *)

(** bitmap_init gives an empty map with the invariant of the other
    operations, whether it uses the buffer of the caller or a block of
    my_malloc, thread safe or not; it fails only when my_malloc does. *)
Theorem bitmap_init_correct buf malloc sizeof_mutex n thread_safe :
  (0 < n)%nat -> (N.of_nat n + 31 < 2 ^ 32)%N -> malloc_block malloc ->
  (forall b, buf = Some b -> ((n + 31) / 32 <= length b)%nat /\ words_ok b) ->
  (exists m, bitmap_init buf malloc sizeof_mutex n thread_safe = InitOk m /\
     bitmap_ok m /\ n_bits m = n /\ bits m = ∅) \/
  (bitmap_init buf malloc sizeof_mutex n thread_safe = InitNoMemory /\ buf = None /\
     exists size, malloc size = None).
Proof.
  intros Hn Hn2 Hmalloc Hbuf. unfold bitmap_init. destruct buf as [b|].
  - destruct (Hbuf b eq_refl) as [Hlen Hb].
    destruct (bitmap_init_start b n false) as (m & -> & Hm); try done. left. by exists m.
  - set (size := if thread_safe then ALIGN_SIZE (bitmap_buffer_size n)
                 else bitmap_buffer_size n).
    set (extra := if thread_safe then sizeof_mutex else 0%nat).
    destruct (malloc (size + extra)%nat) as [ws|] eqn:E; [|right; eauto].
    destruct (Hmalloc _ _ E) as [Hlen Hws]. left.
    assert (4 * ((n + 31) / 32) <= size)%nat.
    { subst size. unfold ALIGN_SIZE, bitmap_buffer_size. rewrite wrap32_small by lia.
      destruct thread_safe; ndiv. }
    destruct (bitmap_init_start (take (size / 4) ws) n thread_safe) as (m & -> & Hm); try done.
    + rewrite length_take. ndiv.
    + by apply Forall_take.
    + by exists m.
Qed.

Lemma bitmap_init_correct_witness :
  let malloc n := Some (replicate n 0xDEADBEEF) in
  (exists m, bitmap_init None malloc 40 70 true = InitOk m /\
     bitmap_ok m /\ n_bits m = 70%nat /\ bits m = ∅) \/
  (bitmap_init None malloc 40 70 true = InitNoMemory /\ @None (list Z) = None /\
     exists size, malloc size = None).
Proof.
  intros malloc. apply (bitmap_init_correct None malloc 40 70 true); [lia|lia| |done].
  intros n ws [= <-]. rewrite length_replicate. split; [lia|]. by apply Forall_replicate.
Defined.

(** Two maps of 40 bits, {0, 33} and {1, 33, 39}, with rubbish in the unused
    bits. *)
Definition demo1 : MY_BITMAP :=
  create_last_word_mask (mk_bitmap [1; 0xFFFFFF02] 40 0 0 false).
Definition demo2 : MY_BITMAP :=
  create_last_word_mask (mk_bitmap [2; 0x82] 40 0 0 false).

Lemma demo1_ok : bitmap_ok demo1.
Proof. apply create_last_word_mask_spec; simpl; [lia|lia|lia|by repeat constructor]. Qed.

Lemma demo2_ok : bitmap_ok demo2.
Proof. apply create_last_word_mask_spec; simpl; [lia|lia|lia|by repeat constructor]. Qed.

(** The one-bit operations act on the set of bits as insertion, removal
    and membership, keep the invariant and touch no memory outside the
    buffer; the two test-and-change functions return the old bit. *)
Theorem bitmap_bit_ops m b :
  bitmap_ok m -> (b < n_bits m)%nat ->
  (exists v, bitmap_is_set m b = Some v /\ (v <> 0 <-> b ∈ bits m)) /\
  (exists m', bitmap_set_bit m b = Some m' /\ bitmap_ok m' /\ bits m' = {[b]} ∪ bits m) /\
  (exists m', bitmap_clear_bit m b = Some m' /\ bitmap_ok m' /\ bits m' = bits m ∖ {[b]}) /\
  (exists m', bitmap_flip_bit m b = Some m' /\ bitmap_ok m' /\
     bits m' = if decide (b ∈ bits m) then bits m ∖ {[b]} else {[b]} ∪ bits m) /\
  (exists v m', bitmap_test_and_set m b = Some (v, m') /\ (v <> 0 <-> b ∈ bits m) /\
     bitmap_ok m' /\ bits m' = {[b]} ∪ bits m) /\
  (exists v m', bitmap_test_and_clear m b = Some (v, m') /\ (v <> 0 <-> b ∈ bits m) /\
     bitmap_ok m' /\ bits m' = bits m ∖ {[b]}).
Proof.
  intros Hm Hb. pose proof (bitmap_is_set_spec m b Hm Hb) as Hi.
  destruct (bitmap_set_bit_spec m b Hm Hb) as (ms & Es & Hs & Bs & _).
  destruct (bitmap_clear_bit_spec m b Hm Hb) as (mc & Ec & Hc & Bc).
  split; [done|]. split; [by exists ms|]. split; [by exists mc|].
  split; [by apply bitmap_flip_bit_spec|].
  destruct Hi as (v & Ev & Hv). unfold bitmap_is_set in Ev.
  unfold bitmap_test_and_set, bitmap_fast_test_and_set, bitmap_test_and_clear,
    bitmap_fast_test_and_clear.
  destruct (mem_byte (bitmap m) (b / 8)) as [x|] eqn:Ex; [|done]. cbn in Ev. obind.
  unfold bitmap_set_bit in Es. unfold bitmap_clear_bit in Ec. rewrite Es, Ec. obind.
  simplify_eq. split; [by exists (x .& bit_mask b), ms|by exists (x .& bit_mask b), mc].
Qed.

Lemma bitmap_bit_ops_witness :
  exists m', bitmap_set_bit demo1 7 = Some m' /\ bitmap_ok m' /\ bits m' = {[7%nat]} ∪ bits demo1.
Proof.
  destruct (bitmap_bit_ops demo1 7 demo1_ok) as (_ & H & _); [simpl; lia|exact H].
Defined.

(** C39.  Union, subtraction, symmetric difference, copy and inversion of maps
    of equal size, and intersection of maps of any two sizes, are the
    operations on the sets of bits; the unused bits of the last words never
    matter. *)
Theorem bitmap_set_algebra m m2 :
  bitmap_ok m -> bitmap_ok m2 ->
  (n_bits m = n_bits m2 ->
   (exists r, bitmap_union m m2 = Some r /\ bitmap_ok r /\ bits r = bits m ∪ bits m2) /\
   (exists r, bitmap_subtract m m2 = Some r /\ bitmap_ok r /\ bits r = bits m ∖ bits m2) /\
   (exists r, bitmap_xor m m2 = Some r /\ bitmap_ok r /\
      bits r = (bits m ∖ bits m2) ∪ (bits m2 ∖ bits m)) /\
   (exists r, bitmap_copy m m2 = Some r /\ bitmap_ok r /\ bits r = bits m2)) /\
  (exists r, bitmap_invert m = Some r /\ bitmap_ok r /\
     bits r = indices (n_bits m) ∖ bits m) /\
  (exists r, bitmap_intersect m m2 = Some r /\ bitmap_ok r /\ bits r = bits m ∩ bits m2).
Proof.
  intros Hm Hm2. split; [intros Hn; split_and!|split].
  - by apply bitmap_union_spec.
  - by apply bitmap_subtract_spec.
  - by apply bitmap_xor_spec.
  - by apply bitmap_copy_spec.
  - by apply bitmap_invert_spec.
  - by apply bitmap_intersect_spec.
Qed.

Lemma bitmap_set_algebra_witness :
  exists r, bitmap_union demo1 demo2 = Some r /\ bitmap_ok r /\
    bits r = bits demo1 ∪ bits demo2.
Proof.
  destruct (bitmap_set_algebra demo1 demo2 demo1_ok demo2_ok) as [H _].
  destruct (H eq_refl) as [Hu _]. exact Hu.
Defined.

(** The tests on whole maps decide the corresponding statements about the
    sets of bits, and bitmap_bits_set counts them. *)
Theorem bitmap_tests_correct m m2 :
  bitmap_ok m -> bitmap_ok m2 -> n_bits m = n_bits m2 ->
  bitmap_is_set_all m = Some (bool_decide (bits m = indices (n_bits m))) /\
  bitmap_is_clear_all m = Some (bool_decide (bits m = ∅)) /\
  bitmap_is_subset m m2 = Some (bool_decide (bits m ⊆ bits m2)) /\
  bitmap_is_overlapping m m2 = Some (bool_decide (bits m ∩ bits m2 <> ∅)) /\
  bitmap_cmp m m2 = Some (bool_decide (bits m = bits m2)) /\
  bitmap_bits_set m = Some (Z.of_nat (size (bits m))).
Proof.
  intros Hm Hm2 Hn. split_and!.
  - by apply bitmap_is_set_all_spec.
  - by apply bitmap_is_clear_all_spec.
  - by apply bitmap_is_subset_spec.
  - by apply bitmap_is_overlapping_spec.
  - by apply bitmap_cmp_spec.
  - by apply bitmap_bits_set_spec.
Qed.

Lemma bitmap_tests_correct_witness :
  bitmap_bits_set demo1 = Some 2 /\
  bitmap_bits_set demo1 = Some (Z.of_nat (size (bits demo1))).
Proof.
  split; [reflexivity|].
  apply (bitmap_tests_correct demo1 demo2 demo1_ok demo2_ok eq_refl).
Defined.

(** bitmap_get_first_set returns the least set bit and bitmap_get_first
    the least clear one, MY_BIT_NONE when there is none; bitmap_set_next sets
    the bit it returns and nothing else.  The inner loops over the bits of a
    byte, which have no bound in the code, always stop. *)
Theorem bitmap_search_correct m :
  bitmap_ok m ->
  (exists r, bitmap_get_first_set m = Some r /\ least (bits m) r) /\
  (exists r, bitmap_get_first m = Some r /\ least (indices (n_bits m) ∖ bits m) r) /\
  (exists r m', bitmap_set_next m = Some (r, m') /\ bitmap_ok m' /\
     least (indices (n_bits m) ∖ bits m) r /\
     bits m' = if decide (r = MY_BIT_NONE) then bits m else {[Z.to_nat r]} ∪ bits m).
Proof.
  intros Hm. split; [|split].
  - by apply bitmap_get_first_set_spec.
  - by apply bitmap_get_first_spec.
  - by apply bitmap_set_next_spec.
Qed.

Lemma bitmap_search_correct_witness :
  bitmap_get_first_set demo2 = Some 1 /\
  exists r, bitmap_get_first_set demo2 = Some r /\ least (bits demo2) r.
Proof.
  split; [reflexivity|]. apply (bitmap_search_correct demo2 demo2_ok).
Defined.

(** bitmap_is_prefix decides whether exactly the first bits are set.
    bitmap_set_prefix sets exactly those, when the prefix ends at a byte
    boundary or the buffer has a byte to spare behind the bytes of the map.
    Otherwise it clears one byte beyond the end of the buffer: after a partial
    byte it still clears no_bytes - prefix_bytes bytes, one too many. *)
Theorem bitmap_prefix_correct m prefix_size :
  bitmap_ok m ->
  let p := (prefix_size `min` n_bits m)%nat in
  (prefix_size = p ->
     bitmap_is_prefix m prefix_size = Some (bool_decide (bits m = indices p))) /\
  ((p mod 8 = 0)%nat \/ ((n_bits m + 7) / 8 < 4 * length (bitmap m))%nat ->
     exists m', bitmap_set_prefix m prefix_size = Some m' /\ bitmap_ok m' /\
       bits m' = indices p) /\
  ((p mod 8 <> 0)%nat -> ((n_bits m + 7) / 8 = 4 * length (bitmap m))%nat ->
     bitmap_set_prefix m prefix_size = None).
Proof.
  intros Hm p. split; [|by apply bitmap_set_prefix_spec].
  intros E. rewrite <- E. apply bitmap_is_prefix_spec; [done|lia].
Qed.

Lemma bitmap_prefix_correct_witness :
  let full := create_last_word_mask (mk_bitmap [0] 32 0 0 false) in
  bitmap_set_prefix full 1 = None /\
  exists m', bitmap_set_prefix demo1 9 = Some m' /\ bitmap_ok m' /\ bits m' = indices 9.
Proof.
  split.
  - apply (bitmap_prefix_correct (create_last_word_mask (mk_bitmap [0] 32 0 0 false)) 1);
      [apply create_last_word_mask_spec; simpl; [lia|lia|lia|by repeat constructor]
      |done|reflexivity].
  - apply (bitmap_prefix_correct demo1 9 demo1_ok). right. simpl. lia.
Defined.
