(* ===== verification/Queues.v ===== *)
(** * Priority queues: mysys/queues.c, include/queues.h

    A QUEUE is a binary heap in an array [root]; position 0 is scratch space,
    the elements are at 1 .. [elements].  An element is a pointer of an
    arbitrary type; the comparison function with its first argument and the
    key offset is one function on elements.  [None] is an access outside the
    array or a loop out of fuel; the theorems show that neither happens. *)

From stdpp Require Import prelude list list_numbers sorting.
From Stdlib Require Import ZArith Lia ZifyNat.
From S2P Require Import Prelude.

Open Scope Z_scope.

(** ** QUEUE *)

Record QUEUE (A : Type) : Type := mk_queue {
  root : list A;
  elements : nat;
  max_elements : nat;
  max_at_top : Z;
  compare : A -> A -> Z;
  auto_extent : nat
}.
Arguments mk_queue {A}. Arguments root {A}. Arguments elements {A}.
Arguments max_elements {A}. Arguments max_at_top {A}. Arguments compare {A}.
Arguments auto_extent {A}.

Section Operations.
Context {A : Type}.

Definition with_heap (q : QUEUE A) (r : list A) (n : nat) : QUEUE A :=
  mk_queue r n (max_elements q) (max_at_top q) (compare q) (auto_extent q).

(** [queue->compare(arg, a, b) * queue->max_at_top], an [int]. *)
Definition cmp (q : QUEUE A) (a b : A) : Z := s32 (compare q a b * max_at_top q).

Definition queue_set_max_at_top (set_arg : bool) : Z := if set_arg then -1 else 1.

Definition queue_top (q : QUEUE A) : option A := root q !! 1%nat.

Definition queue_element (q : QUEUE A) (index : nat) : option A := root q !! S index.

Definition queue_end (q : QUEUE A) : option A := root q !! elements q.

Definition queue_remove_all (q : QUEUE A) : QUEUE A := with_heap q (root q) 0.

Definition queue_is_full (q : QUEUE A) : bool := (elements q =? max_elements q)%nat.

(** [malloc] answers the allocation of that many pointers; [auto_extent] is
    left as it was. *)
Definition init_queue (malloc : nat -> option (list A)) (old_auto_extent max : nat)
    (at_top : bool) (compare' : A -> A -> Z) : Z * option (QUEUE A) :=
  match malloc (wrap32 (max + 1)) with
  | None => (1, None)
  | Some block =>
    (0, Some (mk_queue block 0 max (queue_set_max_at_top at_top) compare' old_auto_extent))
  end.

Definition init_queue_ex (malloc : nat -> option (list A)) (max : nat)
    (at_top : bool) (compare' : A -> A -> Z) (extent : nat) : Z * option (QUEUE A) :=
  match init_queue malloc 0 max at_top compare' with
  | (ret, Some q) =>
    (0, Some (mk_queue (root q) (elements q) (max_elements q) (max_at_top q)
                (compare q) extent))
  | (ret, None) => (ret, None)
  end.

(** [realloc old n] is my_realloc to [n] pointers. *)
Definition resize_queue (realloc : list A -> nat -> option (list A))
    (q : QUEUE A) (max : nat) : Z * QUEUE A :=
  if (max_elements q =? max)%nat then (0, q)
  else
    match realloc (root q) (wrap32 (max + 1)) with
    | None => (1, q)
    | Some new_root =>
      let n := if (max <? elements q)%nat then max else elements q in
      (0, mk_queue new_root n max (max_at_top q) (compare q) (auto_extent q))
    end.

Definition reinit_queue (realloc : list A -> nat -> option (list A))
    (q : QUEUE A) (max : nat) (at_top : bool) (compare' : A -> A -> Z) : Z * QUEUE A :=
  let q := mk_queue (root q) 0 (max_elements q) (queue_set_max_at_top at_top) compare'
                    (auto_extent q) in
  (0, snd (resize_queue realloc q max)).

(** The null array is [[]]. *)
Definition delete_queue (q : QUEUE A) : QUEUE A := with_heap q [] (elements q).

(** The loop of queue_insert. *)
Fixpoint insert_loop (q : QUEUE A) (element : A) (fuel : nat) (r : list A) (idx : nat)
    : option (list A) :=
  match fuel with
  | O => None
  | S fuel =>
    let next := (idx / 2)%nat in
    parent ← r !! next;
    if cmp q element parent <? 0 then
      if (idx <? length r)%nat
      then insert_loop q element fuel (<[idx := parent]> r) next
      else None
    else if (idx <? length r)%nat then Some (<[idx := element]> r) else None
  end.

Definition queue_insert (q : QUEUE A) (element : A) : option (QUEUE A) :=
  _ ← root q !! 0%nat;
  let r := <[0%nat := element]> (root q) in
  let idx := S (elements q) in
  r ← insert_loop q element (S idx) r idx;
  Some (with_heap q r idx).

Definition queue_insert_safe (realloc : list A -> nat -> option (list A))
    (q : QUEUE A) (element : A) : option (Z * QUEUE A) :=
  if (elements q =? max_elements q)%nat then
    if (auto_extent q =? 0)%nat then Some (2, q)
    else
      let '(rc, q') := resize_queue realloc q (wrap32 (max_elements q + auto_extent q)) in
      if negb (rc =? 0) then Some (1, q')
      else q'' ← queue_insert q' element; Some (0, q'')
  else q'' ← queue_insert q element; Some (0, q'').

(** The first loop of _downheap: [inl] is its early return, [inr] the state
    after the loop. *)
Fixpoint sink (q : QUEUE A) (n : nat) (element : A) (fuel : nat) (r : list A)
    (idx : nat) (first : bool) : option (list A + list A * nat) :=
  match fuel with
  | O => None
  | S fuel =>
    if (idx <=? n / 2)%nat then
      let next_index := (idx + idx)%nat in
      left ← r !! next_index;
      next_index ←
        (if (next_index <? n)%nat then
           right ← r !! S next_index;
           Some (if 0 <? cmp q left right then S next_index else next_index)
         else Some next_index);
      child ← r !! next_index;
      if first && (0 <=? cmp q child element)
      then Some (inl (<[idx := element]> r))
      else sink q n element fuel (<[idx := child]> r) next_index false
    else Some (inr (r, idx))
  end.

(** The second loop. *)
Fixpoint climb (q : QUEUE A) (start_idx : nat) (element : A) (fuel : nat) (r : list A)
    (idx : nat) : option (list A) :=
  match fuel with
  | O => None
  | S fuel =>
    let next_index := (idx / 2)%nat in
    if (start_idx <? next_index)%nat then
      parent ← r !! next_index;
      if cmp q parent element <? 0 then Some (<[idx := element]> r)
      else climb q start_idx element fuel (<[idx := parent]> r) next_index
    else Some (<[idx := element]> r)
  end.

Definition _downheap (q : QUEUE A) (idx : nat) : option (QUEUE A) :=
  element ← root q !! idx;
  state ← sink q (elements q) element (S (elements q)) (root q) idx true;
  match state with
  | inl r => Some (with_heap q r (elements q))
  | inr (r, i) => r ← climb q idx element (S i) r i; Some (with_heap q r (elements q))
  end.

Definition queue_replaced (q : QUEUE A) : option (QUEUE A) := _downheap q 1.

(** On an empty queue [queue->elements--] wraps and _downheap would leave the
    array. *)
Definition queue_remove (q : QUEUE A) (idx : nat) : option (A * QUEUE A) :=
  let idx := S idx in
  element ← root q !! idx;
  last ← root q !! elements q;
  match elements q with
  | O => None
  | S n =>
    q ← _downheap (with_heap q (<[idx := last]> (root q)) n) idx;
    Some (element, q)
  end.

(** [for (i= queue->elements >> 1; i > 0; i--) _downheap(queue, i)]. *)
Fixpoint fix_loop (i : nat) (q : QUEUE A) : option (QUEUE A) :=
  match i with
  | O => Some q
  | S i' => q ← _downheap q i; fix_loop i' q
  end.

Definition queue_fix (q : QUEUE A) : option (QUEUE A) := fix_loop (elements q / 2) q.
End Operations.

(** ** Comparison functions *)

(** What queues.c expects of a comparison function: the sign of an [int] that
    orders the elements totally, up to ties. *)
Record compare_ok {A} (f : A -> A -> Z) : Prop := {
  compare_int : forall a b, - 2 ^ 31 < f a b < 2 ^ 31;
  compare_flip : forall a b, f a b < 0 <-> 0 < f b a;
  compare_trans : forall a b c, f a b <= 0 -> f b c <= 0 -> f a c <= 0
}.

(** A queue whose fields are as init_queue sets them. *)
Record queue_ok {A} (q : QUEUE A) : Prop := {
  ok_compare : compare_ok (compare q);
  ok_at_top : max_at_top q = 1 \/ max_at_top q = -1;
  ok_room : (max_elements q < length (root q))%nat;
  ok_elements : (elements q <= max_elements q)%nat
}.

(** [a] may stand above [b]. *)
Definition above {A} (q : QUEUE A) (a b : A) : Prop := cmp q a b <= 0.

Section Order.
Context {A : Type} (q : QUEUE A).
Context (Hf : compare_ok (compare q)) (Ht : max_at_top q = 1 \/ max_at_top q = -1).

Lemma cmp_eq a b : cmp q a b = compare q a b * max_at_top q.
Proof. apply s32_small. pose proof (compare_int _ Hf a b). destruct Ht as [-> | ->]; lia. Qed.

Lemma cmp_flip a b : cmp q a b < 0 <-> 0 < cmp q b a.
Proof.
  rewrite !cmp_eq. pose proof (compare_flip _ Hf a b). pose proof (compare_flip _ Hf b a).
  destruct Ht as [-> | ->]; lia.
Qed.

Lemma above_refl a : above q a a.
Proof. unfold above. pose proof (cmp_flip a a). lia. Qed.

Lemma above_trans a b c : above q a b -> above q b c -> above q a c.
Proof.
  unfold above. rewrite !cmp_eq. pose proof (compare_trans _ Hf) as Hr.
  pose proof (compare_flip _ Hf) as Hl. destruct Ht as [-> | ->].
  - rewrite !Z.mul_1_r. apply Hr.
  - intros H1 H2. assert (compare q c a <= 0); [|specialize (Hl a c); lia].
    apply (Hr c b a).
    + specialize (Hl b c). lia.
    + specialize (Hl a b). lia.
Qed.

Lemma above_total a b : cmp q a b < 0 \/ above q b a.
Proof. unfold above. pose proof (cmp_flip a b). lia. Qed.

Lemma above_lt a b : cmp q a b < 0 -> above q a b.
Proof. unfold above. lia. Qed.
End Order.

(** ** Positions *)

(** [i] is in the subtree of [k]. *)
Inductive desc (k : nat) : nat -> Prop :=
| desc_refl : desc k k
| desc_child i : desc k (i / 2) -> (2 <= i)%nat -> desc k i.

Lemma desc_le k i : desc k i -> (k <= i)%nat.
Proof. induction 1; [lia|]. ndiv. Qed.

Lemma desc_up k i : desc k i -> i <> k -> desc k (i / 2) /\ (k <= i / 2)%nat.
Proof.
  intros H Hne. inversion H; [done|]. split; [done|]. by apply desc_le.
Qed.

Lemma desc_one i : (1 <= i)%nat -> desc 1 i.
Proof.
  induction (lt_wf i) as [i _ IH]. intros Hi. destruct (decide (i = 1)%nat) as [->|].
  - constructor.
  - apply desc_child; [apply IH; ndiv|lia].
Qed.

(** A permutation that exchanges two positions. *)
Lemma insert_swap {A} (r : list A) i j x y :
  i <> j -> r !! j = Some y -> (i < length r)%nat ->
  <[j := x]> (<[i := y]> r) ≡ₚ <[i := x]> r.
Proof.
  intros Hij Hj Hi.
  pose proof (Permutation_insert_swap (<[i := x]> r) i j x y) as H.
  rewrite list_insert_insert_eq in H. apply H.
  - by apply list_lookup_insert_eq.
  - by rewrite list_lookup_insert_ne.
Qed.

Lemma nth_lookup_lt {A} (r : list A) i d : (i < length r)%nat -> r !! i = Some (nth i r d).
Proof. intros Hi. destruct (nth_lookup_or_length r i d); [done|lia]. Qed.

(** ** The loops of _downheap *)

Section Downheap.
Context {A : Type} (q : QUEUE A).
Context (Hf : compare_ok (compare q)) (Ht : max_at_top q = 1 \/ max_at_top q = -1).
Context (n k : nat) (e : A) (r0 : list A).
Context (Hk : (1 <= k)%nat) (Hek : (n < k)%nat -> r0 !! k = Some e).

Let le := above q.
Let val (r : list A) (i : nat) : A := nth i r e.

(** The heap order at all positions whose parent is [k] or later. *)
Definition heap_from (r : list A) : Prop :=
  forall i x y, (2 <= i <= n)%nat -> (k <= i / 2)%nat ->
    r !! (i / 2)%nat = Some x -> r !! i = Some y -> above q x y.

(** The state of the array while position [idx] is a hole for [e]. *)
Record hole (r : list A) (idx : nat) : Prop := {
  h_desc : desc k idx;
  h_len : length r = length r0;
  h_idx : (idx < length r)%nat;
  h_room : (n < length r)%nat;
  h_perm : <[idx := e]> r ≡ₚ r0;
  h_out : forall i, (i < k \/ (n < i /\ i <> k))%nat -> r !! i = r0 !! i;
  h_bound : (idx = k \/ idx <= n)%nat;
  h_edges : forall i, (2 <= i <= n)%nat -> (k <= i / 2)%nat -> i <> idx ->
    (i / 2)%nat <> idx -> le (val r (i / 2)) (val r i);
  h_grand : idx <> k -> forall c, (c <= n)%nat -> (c / 2)%nat = idx ->
    le (val r (idx / 2)) (val r c)
}.

(** The array when the hole is filled. *)
Record filled (r : list A) : Prop := {
  f_len : length r = length r0;
  f_perm : r ≡ₚ r0;
  f_out : forall i, (i < k \/ n < i)%nat -> r !! i = r0 !! i;
  f_heap : heap_from r
}.

Lemma val_insert r i j x :
  (i < length r)%nat -> val (<[i := x]> r) j = if decide (j = i) then x else val r j.
Proof.
  intros Hi. unfold val. rewrite !nth_lookup. case_decide as E.
  - subst j. by rewrite list_lookup_insert_eq.
  - by rewrite list_lookup_insert_ne.
Qed.

Lemma val_lookup r i : (i < length r)%nat -> r !! i = Some (val r i).
Proof. apply nth_lookup_lt. Qed.

Lemma fill r idx :
  hole r idx ->
  (idx <> k -> le (val r (idx / 2)) e) ->
  (forall c, (c <= n)%nat -> (c / 2)%nat = idx -> le e (val r c)) ->
  filled (<[idx := e]> r).
Proof.
  intros [Hd Hl Hi Hr Hp Ho Hbd He _] Hup Hdown. split.
  - by rewrite length_insert.
  - done.
  - intros i Hi'. apply desc_le in Hd. destruct (decide (i = idx)) as [->|Hne].
    + assert (idx = k) as -> by lia. rewrite list_lookup_insert_eq by done.
      symmetry. apply Hek. lia.
    + rewrite list_lookup_insert_ne by done. apply Ho. lia.
  - intros i x y Hin Hki Hx Hy. rewrite val_lookup in Hx, Hy by (rewrite length_insert; ndiv).
    simplify_eq. rewrite !val_insert by done. repeat case_decide; subst.
    + exfalso. ndiv.
    + by apply Hdown; [lia|].
    + apply Hup. ndiv.
    + by apply He.
Qed.

(** Moving the hole from [i] to its neighbour [j] keeps the multiset and the
    frame. *)
Lemma hole_move_perm r i j :
  (i < length r)%nat -> (j < length r)%nat -> i <> j ->
  <[i := e]> r ≡ₚ r0 -> <[j := e]> (<[i := val r j]> r) ≡ₚ r0.
Proof.
  intros Hi Hj Hij Hp. etrans; [|exact Hp]. apply insert_swap; [done|by apply val_lookup|done].
Qed.

Lemma hole_down r idx c :
  hole r idx -> (c <= n)%nat -> (c / 2)%nat = idx -> (2 <= c)%nat ->
  (forall s, (s <= n)%nat -> (s / 2)%nat = idx -> le (val r c) (val r s)) ->
  hole (<[idx := val r c]> r) c.
Proof.
  intros [Hd Hl Hi Hr Hp Ho Hbd He Hg] Hc Hci Hc2 Hmin.
  pose proof (desc_le k idx Hd) as Hkle.
  split; rewrite ?length_insert; try done || lia.
  - constructor 2; [by rewrite Hci|done].
  - apply hole_move_perm; (done || ndiv).
  - intros i Hi'. rewrite list_lookup_insert_ne; [by apply Ho|]. lia.
  - intros i Hin Hki Hne1 Hne2. rewrite !val_insert by done. repeat case_decide; subst.
    + exfalso. ndiv.
    + by apply Hmin; [lia|].
    + apply Hg; [intros Ek; ndiv|lia|done].
    + by apply He.
  - intros _ d Hd1 Hd2. rewrite !val_insert by done.
    repeat case_decide; try (exfalso; ndiv). rewrite <- Hd2. apply He; ndiv.
Qed.

Lemma hole_up r idx :
  hole r idx -> idx <> k -> (idx <= n)%nat ->
  le e (val r (idx / 2)) ->
  (forall c, (c <= n)%nat -> (c / 2)%nat = idx -> le e (val r c)) ->
  hole (<[idx := val r (idx / 2)]> r) (idx / 2) /\
  (forall c, (c <= n)%nat -> (c / 2)%nat = (idx / 2)%nat ->
     le e (val (<[idx := val r (idx / 2)]> r) c)).
Proof.
  intros [Hd Hl Hi Hr Hp Ho Hbd He Hg] Hne Hn Hle Hdown.
  destruct (desc_up k idx Hd Hne) as [Hd' Hk2].
  assert (idx / 2 <> idx)%nat as Hne2 by ndiv.
  split.
  - split; rewrite ?length_insert; try done || lia.
    + apply hole_move_perm; (done || ndiv).
    + intros i Hi'. rewrite list_lookup_insert_ne; [by apply Ho|]. ndiv.
    + intros i Hin Hki Hn1 Hn2. rewrite !val_insert by done. repeat case_decide; subst.
      * exfalso. ndiv.
      * apply Hg; [done|lia|done].
      * done.
      * by apply He.
    + intros Hnk c Hc1 Hc2. destruct (desc_up k (idx / 2) Hd' Hnk) as [_ Hk4].
      rewrite !val_insert by done. rewrite decide_False by ndiv.
      assert (le (val r (idx / 2 / 2)) (val r (idx / 2))) as H1 by (apply He; ndiv).
      case_decide; [done|]. eapply (above_trans q Hf Ht); [exact H1|].
      rewrite <- Hc2. apply He; (done || ndiv).
  - intros c Hc1 Hc2. rewrite val_insert by done. case_decide; [done|].
    eapply (above_trans q Hf Ht); [exact Hle|]. rewrite <- Hc2. apply He; (done || ndiv).
Qed.

(** The child the first loop moves up: the one that may stand above the
    other. *)
Lemma choose_child r idx :
  (n < length r)%nat -> (1 <= idx <= n / 2)%nat ->
  exists c,
    (left ← r !! (idx + idx)%nat;
     (if (idx + idx <? n)%nat then
        right ← r !! S (idx + idx);
        Some (if 0 <? cmp q left right then S (idx + idx) else (idx + idx)%nat)
      else Some (idx + idx)%nat)) = Some c /\
    (2 <= c <= n)%nat /\ (c / 2)%nat = idx /\
    forall s, (s <= n)%nat -> (s / 2)%nat = idx -> le (val r c) (val r s).
Proof.
  intros Hr Hi. rewrite (val_lookup r (idx + idx)) by ndiv. obind.
  destruct (idx + idx <? n)%nat eqn:E; b2p.
  - rewrite (val_lookup r (S (idx + idx))) by ndiv. obind.
    eexists; split; [done|]. case_if.
    + split; [ndiv|]. split; [ndiv|]. intros s Hs1 Hs2.
      assert (s = idx + idx \/ s = S (idx + idx))%nat as [-> | ->] by ndiv.
      * apply above_lt. by apply (cmp_flip q Hf Ht).
      * apply (above_refl q Hf Ht).
    + split; [ndiv|]. split; [ndiv|]. intros s Hs1 Hs2.
      assert (s = idx + idx \/ s = S (idx + idx))%nat as [-> | ->] by ndiv.
      * apply (above_refl q Hf Ht).
      * done.
  - eexists; split; [done|]. split; [ndiv|]. split; [ndiv|]. intros s Hs1 Hs2.
    assert (s = idx + idx)%nat as -> by ndiv. apply (above_refl q Hf Ht).
Qed.

Lemma sink_spec fuel r idx first :
  hole r idx -> (first = true <-> idx = k) -> (idx <> k -> cmp q (val r k) e < 0) ->
  (n < fuel + idx)%nat -> (0 < fuel)%nat ->
  exists st, sink q n e fuel r idx first = Some st /\
    match st with
    | inl r' => filled r'
    | inr (r', i) => hole r' i /\ (i <> k -> cmp q (val r' k) e < 0) /\ (n / 2 < i)%nat
    end.
Proof.
  revert r idx first. induction fuel as [|fuel IH]; intros r idx first Hh Hfirst Htop Hfuel Hpos; [lia|].
  pose proof (desc_le k idx (h_desc _ _ Hh)) as Hki. cbn [sink].
  destruct (idx <=? n / 2)%nat eqn:E; b2p.
  2:{ eexists; split; [done|]. done. }
  destruct (choose_child r idx (h_room _ _ Hh)) as (c & Ec & Hc & Hci & Hmin); [lia|].
  cbv zeta. rewrite (val_lookup r (idx + idx)) in * by (pose proof (h_room _ _ Hh); ndiv).
  cbn [mbind option_bind] in Ec |- *. rewrite Ec. cbn [mbind option_bind].
  pose proof (h_room _ _ Hh). rewrite (val_lookup r c) by lia. cbn [mbind option_bind].
  destruct (first && (0 <=? cmp q (val r c) e)) eqn:Ef.
  - apply andb_true_iff in Ef as [-> Hge]. b2p. eexists; split; [done|].
    assert (idx = k) as -> by (by apply Hfirst).
    apply fill; [done|done|]. intros s Hs1 Hs2.
    eapply (above_trans q Hf Ht); [|by apply Hmin].
    destruct (above_total q Hf Ht (val r c) e) as [?|?]; [lia|done].
  - pose proof (h_idx _ _ Hh).
    destruct (IH (<[idx := val r c]> r) c false) as (st & Est & Hst); [|split; [done|]| |ndiv|ndiv|].
    + by apply hole_down; try lia.
    + intros ->. ndiv.
    + intros _. rewrite val_insert by done. case_decide as Eki; [|by apply Htop].
      assert (first = true) as -> by (by apply Hfirst). cbn [andb] in Ef. b2p. lia.
    + exists st. done.
Qed.

Lemma climb_spec fuel r idx :
  hole r idx -> (idx <> k -> cmp q (val r k) e < 0) ->
  (forall c, (c <= n)%nat -> (c / 2)%nat = idx -> le e (val r c)) ->
  (idx < fuel)%nat -> exists r', climb q k e fuel r idx = Some r' /\ filled r'.
Proof.
  revert r idx. induction fuel as [|fuel IH]; intros r idx Hh Htop Hdown Hfuel; [lia|].
  pose proof (h_desc _ _ Hh) as Hd. cbn [climb]. cbv zeta.
  destruct (k <? idx / 2)%nat eqn:E; b2p.
  - pose proof (h_idx _ _ Hh). rewrite (val_lookup r (idx / 2)) by ndiv. obind.
    assert (idx <= n)%nat as Hn by (destruct (h_bound _ _ Hh); [ndiv|done]).
    case_if.
    + eexists; split; [done|]. apply fill; [done| |done]. intros _. by apply above_lt.
    + destruct (hole_up r idx Hh ltac:(ndiv) Hn) as [Hh' Hdown']; [|done|].
      { destruct (above_total q Hf Ht (val r (idx / 2)) e) as [?|?]; [lia|done]. }
      apply IH; [done| |done|ndiv]. intros _. rewrite val_insert, decide_False by (done || ndiv).
      apply Htop. ndiv.
  - eexists; split; [done|]. apply fill; [done| |done]. intros Hne.
    destruct (desc_up k idx Hd Hne) as [_ Hk2]. assert (idx / 2 = k)%nat as -> by lia.
    apply above_lt. by apply Htop.
Qed.

(** The loop of queue_insert, [k] being 1 and position 0 holding [e]. *)
Lemma insert_loop_spec fuel r idx :
  k = 1%nat -> hole r idx -> r !! 0%nat = Some e ->
  (forall c, (c <= n)%nat -> (c / 2)%nat = idx -> le e (val r c)) ->
  (idx < fuel)%nat -> exists r', insert_loop q e fuel r idx = Some r' /\ filled r'.
Proof.
  intros Hk1. revert r idx. induction fuel as [|fuel IH]; intros r idx Hh H0 Hdown Hfuel; [lia|].
  pose proof (h_desc _ _ Hh) as Hd. pose proof (h_idx _ _ Hh) as Hlt.
  pose proof (desc_le _ _ Hd). cbn [insert_loop]. cbv zeta.
  replace (idx <? length r)%nat with true by bsolve.
  destruct (decide (idx = k)) as [Ek|Ne].
  - rewrite Ek, Hk1. change (1 / 2)%nat with 0%nat. rewrite H0. obind.
    pose proof (above_refl q Hf Ht e). unfold above in *.
    pose proof (cmp_flip q Hf Ht e e). replace (cmp q e e <? 0) with false by bsolve.
    eexists; split; [done|]. rewrite <- Hk1, <- Ek. apply fill; [done|done|done].
  - destruct (desc_up k idx Hd Ne) as [_ Hk2]. rewrite (val_lookup r (idx / 2)) by ndiv. obind.
    case_if.
    + destruct (hole_up r idx Hh Ne) as [Hh' Hdown']; [|by apply above_lt|done|].
      { by destruct (h_bound _ _ Hh). }
      apply IH; [done| |done|ndiv]. rewrite list_lookup_insert_ne by lia. done.
    + eexists; split; [done|]. apply fill; [done| |done]. intros _.
      destruct (above_total q Hf Ht e (val r (idx / 2))) as [?|?]; [lia|done].
Qed.
End Downheap.

Arguments heap_from {A} q n k r.
Arguments filled {A} q n k r0 r.

(** _downheap restores the order below [k]. *)
Lemma _downheap_spec {A} (q : QUEUE A) (k : nat) :
  compare_ok (compare q) -> max_at_top q = 1 \/ max_at_top q = -1 ->
  (1 <= k < length (root q))%nat -> (elements q < length (root q))%nat ->
  heap_from q (elements q) (S k) (root q) ->
  exists r, _downheap q k = Some (with_heap q r (elements q)) /\
    filled q (elements q) k (root q) r.
Proof.
  intros Hf Ht Hk Hn Hheap. unfold _downheap.
  destruct (lookup_lt_is_Some_2 (root q) k) as [e He]; [lia|]. rewrite He. obind.
  assert (hole q (elements q) k e (root q) (root q) k) as Hh.
  { split; try done || lia.
    - constructor.
    - by rewrite list_insert_id.
    - intros i Hi Hki Hne1 Hne2.
      apply (Hheap i); [done|lia| |]; apply nth_lookup_lt; ndiv. }
  destruct (sink_spec q Hf Ht (elements q) k e (root q) ltac:(lia) (fun _ => He) (S (elements q)) (root q) k true)
    as (st & -> & Hst); [done|done|done|lia|lia|]. obind.
  destruct st as [r|[r i]].
  - eexists; split; [done|]. done.
  - destruct Hst as (Hh' & Htop & Hi).
    destruct (climb_spec q Hf Ht (elements q) k e (root q) ltac:(lia) (fun _ => He) (S i) r i)
      as (r' & -> & Hr'); [done|done| |lia|].
    { intros c Hc1 Hc2. exfalso. ndiv. }
    obind. by exists r'.
Qed.

(** ** The contract *)

(** The elements, in the order of the array. *)
Definition items {A} (q : QUEUE A) : list A := take (elements q) (drop 1 (root q)).

Definition heap_ordered {A} (q : QUEUE A) : Prop := heap_from q (elements q) 1 (root q).

Definition queue_inv {A} (q : QUEUE A) : Prop := queue_ok q /\ heap_ordered q.

Lemma items_perm {A} (r r' : list A) n :
  length r' = length r -> r' ≡ₚ r ->
  (forall i, (i < 1 \/ n < i)%nat -> r' !! i = r !! i) ->
  take n (drop 1 r') ≡ₚ take n (drop 1 r).
Proof.
  intros Hl Hp Ho. destruct r as [|x r], r' as [|x' r']; try done.
  pose proof (Ho 0%nat ltac:(lia)) as H0. simpl in H0. simplify_eq.
  cbn [drop].
  apply Permutation_cons_inv in Hp.
  assert (drop n r' = drop n r) as Ed.
  { apply list_eq. intros i. rewrite !lookup_drop. apply (Ho (S (n + i))). lia. }
  rewrite <- (take_drop n r'), <- (take_drop n r), Ed in Hp.
  by apply Permutation_app_inv_r in Hp.
Qed.

Lemma with_heap_ok {A} (q : QUEUE A) r n :
  queue_ok q -> length r = length (root q) -> (n <= max_elements q)%nat ->
  queue_ok (with_heap q r n).
Proof. intros [] Hl Hn. split; simpl; try done. by rewrite Hl. Qed.

(** The heap order does not depend on the array of [q]. *)
Lemma heap_from_weaken {A} (q : QUEUE A) n k k' r :
  heap_from q n k r -> (k <= k')%nat -> heap_from q n k' r.
Proof. intros H Hk i x y Hi Hki. apply H; lia. Qed.

Lemma heap_top_least {A} (q : QUEUE A) x y :
  queue_inv q -> queue_top q = Some x -> y ∈ items q -> above q x y.
Proof.
  intros [[Hf Ht Hr He] Hh] Hx Hy. unfold items in Hy.
  apply elem_of_take in Hy as (i & Hi & Hlt). rewrite lookup_drop in Hi.
  revert y Hi. induction (lt_wf i) as [i _ IH]. intros y Hi.
  destruct (decide (i = 0)%nat) as [->|Hne].
  - unfold queue_top in Hx. cbn [plus] in Hi. assert (x = y) as -> by congruence. by apply above_refl.
  - destruct (lookup_lt_is_Some_2 (root q) ((1 + i) / 2)) as [z Hz]; [ndiv|].
    eapply above_trans; [done|done| |apply (Hh (1 + i)%nat z y)]; try done || ndiv.
    apply (IH ((1 + i) / 2 - 1)%nat); [ndiv|ndiv|]. rewrite <- Hz. f_equal. ndiv.
Qed.

(** *** Insertion *)

Lemma queue_insert_spec {A} (q : QUEUE A) (e : A) :
  queue_inv q -> (elements q < max_elements q)%nat ->
  exists r, queue_insert q e = Some (with_heap q r (S (elements q))) /\
    queue_inv (with_heap q r (S (elements q))) /\
    items (with_heap q r (S (elements q))) ≡ₚ e :: items q.
Proof.
  intros [[Hf Ht Hr He] Hh] Hroom. unfold queue_insert.
  destruct (lookup_lt_is_Some_2 (root q) 0) as [z Hz]; [lia|]. rewrite Hz. obind.
  set (n := S (elements q)). set (r1 := <[0%nat := e]> (root q)).
  assert (length r1 = length (root q)) as Hl1 by apply length_insert.
  assert (forall i, (1 <= i)%nat -> r1 !! i = root q !! i) as Hr1.
  { intros i Hi. apply list_lookup_insert_ne. lia. }
  assert (hole q n 1 e (<[n := e]> r1) r1 n) as Hhole.
  { split; rewrite ?length_insert; try done || lia.
    - apply desc_one. lia.
    - intros i Hi. rewrite list_lookup_insert_ne; [done|]. lia.
    - intros i Hi Hi2 Hne1 Hne2. apply (Hh i); [lia|done| |]; rewrite <- Hr1 by lia;
        apply nth_lookup_lt; ndiv. }
  destruct (insert_loop_spec q Hf Ht n 1 e (<[n := e]> r1) ltac:(lia) ltac:(lia) (S n) r1 n)
    as (r & -> & [Fl Fp Fo Fh]); [done|done| | |lia|].
  { apply list_lookup_insert_eq. lia. }
  { intros c Hc1 Hc2. exfalso. ndiv. }
  rewrite !length_insert in Fl. obind. exists r. split; [done|]. split; [split|].
  - apply with_heap_ok; [done|lia|lia].
  - exact Fh.
  - unfold items. simpl. etrans.
    + apply (items_perm (<[n := e]> r1)); [by rewrite !length_insert|done|].
      intros i Hi. apply Fo. lia.
    + unfold n, r1. destruct (root q) as [|x rt]; [done|]. simpl in *.
      rewrite (take_S_r _ _ e) by (apply list_lookup_insert_eq; lia).
      rewrite !drop_0, take_insert_ge by lia. symmetry. apply Permutation_cons_append.
Qed.

(** *** Removal *)

Lemma cons_insert_perm {A} (l : list A) i x y :
  l !! i = Some x -> x :: <[i := y]> l ≡ₚ y :: l.
Proof.
  revert i. induction l as [|z l IH]; intros [|i] Hi; simplify_eq/=.
  - constructor.
  - rewrite (Permutation_swap z x), (IH i Hi). constructor.
Qed.

Lemma remove_items {A} (r : list A) n k x last :
  (1 <= k <= S n)%nat -> r !! k = Some x -> r !! S n = Some last ->
  x :: take n (drop 1 (<[k := last]> r)) ≡ₚ take (S n) (drop 1 r).
Proof.
  intros Hk Hx Hlast. destruct r as [|z r]; [done|]. destruct k as [|k]; [lia|].
  cbn [drop] in *. change ((z :: r) !! S k) with (r !! k) in Hx.
  change ((z :: r) !! S n) with (r !! n) in Hlast.
  change (<[S k := last]> (z :: r)) with (z :: <[k := last]> r). cbn [drop].
  rewrite !drop_0, (take_S_r _ _ _ Hlast). rewrite <- Permutation_cons_append.
  destruct (decide (k = n)) as [->|Hne].
  - rewrite take_insert_ge by lia. assert (x = last) as -> by congruence. done.
  - rewrite take_insert_lt by lia. apply cons_insert_perm. rewrite lookup_take_lt by lia. done.
Qed.

(** Removing any element keeps the others; the order below its position is
    restored, and so the whole heap when it was the top. *)
Lemma queue_remove_spec {A} (q : QUEUE A) (idx : nat) :
  queue_inv q -> (idx < elements q)%nat ->
  exists x r, queue_remove q idx = Some (x, with_heap q r (elements q - 1)) /\
    items q !! idx = Some x /\
    queue_ok (with_heap q r (elements q - 1)) /\
    items q ≡ₚ x :: items (with_heap q r (elements q - 1)) /\
    heap_from q (elements q - 1) (S idx) r.
Proof.
  intros [Hok Hh] Hi. pose proof Hok as [Hf Ht Hr He]. unfold queue_remove.
  destruct (lookup_lt_is_Some_2 (root q) (S idx)) as [x Hx]; [lia|]. rewrite Hx. obind.
  destruct (lookup_lt_is_Some_2 (root q) (elements q)) as [y Hy]; [lia|]. rewrite Hy. obind.
  destruct (elements q) as [|n] eqn:En; [lia|]. replace (S n - 1)%nat with n by lia.
  set (q1 := with_heap q (<[S idx := y]> (root q)) n).
  destruct (_downheap_spec q1 (S idx)) as (r & -> & [Fl Fp Fo Fh]); try done.
  { simpl. rewrite length_insert. lia. } { simpl. rewrite length_insert. lia. }
  { intros i a b Hin Hki Ha Hb. cbn [root elements with_heap q1] in *. apply (Hh i a b); [lia|lia| |].
    - by rewrite list_lookup_insert_ne in Ha by lia.
    - rewrite list_lookup_insert_ne in Hb by ndiv. done. }
  simpl in Fl, Fp, Fo, Fh. rewrite length_insert in Fl. obind.
  exists x, r. split; [done|]. split_and!.
  - unfold items. rewrite En, lookup_take_lt, lookup_drop by lia. done.
  - apply with_heap_ok; [done|lia|lia].
  - unfold items. rewrite En. simpl.
    etrans; [symmetry; apply (remove_items (root q) n (S idx) x y); (done || lia)|].
    constructor. symmetry. apply items_perm; [by rewrite length_insert|done|].
    intros i Hi'. apply Fo. lia.
  - exact Fh.
Qed.

(** *** Rebuilding *)

Lemma fix_loop_spec {A} (q : QUEUE A) i :
  queue_ok q -> heap_from q (elements q) (S i) (root q) -> (i <= elements q)%nat ->
  exists r, fix_loop i q = Some (with_heap q r (elements q)) /\
    length r = length (root q) /\ heap_from q (elements q) 1 r /\
    take (elements q) (drop 1 r) ≡ₚ take (elements q) (drop 1 (root q)).
Proof.
  revert q. induction i as [|i IH]; intros q Hok Hh Hi; cbn [fix_loop].
  { exists (root q). by destruct q. }
  pose proof Hok as [Hf Ht Hr He].
  destruct (_downheap_spec q (S i)) as (r & -> & [Fl Fp Fo Fh]); [done|done|lia|lia|done|]. obind.
  destruct (IH (with_heap q r (elements q))) as (r' & E & Hl & Hh' & Hp); [|exact Fh|simpl; lia|].
  { by apply with_heap_ok. }
  exists r'. rewrite E. simpl in *. split; [done|]. split; [lia|]. split; [done|].
  etrans; [exact Hp|]. apply items_perm; [done|done|]. intros j Hj. apply Fo. lia.
Qed.

(** ** Client code: sorting with a queue *)

Fixpoint insert_all {A} (q : QUEUE A) (l : list A) : option (QUEUE A) :=
  match l with
  | [] => Some q
  | x :: l => q ← queue_insert q x; insert_all q l
  end.

Fixpoint drain {A} (n : nat) (q : QUEUE A) : option (list A) :=
  match n with
  | O => Some []
  | S n => '(x, q) ← queue_remove q 0; l ← drain n q; Some (x :: l)
  end.

Lemma insert_all_spec {A} (q : QUEUE A) l :
  queue_inv q -> (elements q + length l <= max_elements q)%nat ->
  exists r, insert_all q l = Some (with_heap q r (elements q + length l)) /\
    queue_inv (with_heap q r (elements q + length l)) /\
    items (with_heap q r (elements q + length l)) ≡ₚ l ++ items q.
Proof.
  revert q. induction l as [|x l IH]; intros q Hq Hroom; cbn [insert_all length] in *.
  { exists (root q). rewrite Nat.add_0_r. by destruct q. }
  destruct (queue_insert_spec q x Hq) as (r & -> & Hq' & Hp); [lia|]. obind.
  destruct (IH _ Hq') as (r' & E & Hq'' & Hp'); [simpl; lia|]. exists r'.
  simpl in E, Hq'', Hp'. rewrite Nat.add_succ_r. simpl in *. split; [exact E|].
  split; [exact Hq''|]. etrans; [exact Hp'|]. rewrite Hp. symmetry. apply Permutation_middle.
Qed.

Lemma queue_remove_top_spec {A} (q : QUEUE A) :
  queue_inv q -> (0 < elements q)%nat ->
  exists x r, queue_remove q 0 = Some (x, with_heap q r (elements q - 1)) /\
    queue_top q = Some x /\ queue_inv (with_heap q r (elements q - 1)) /\
    items q ≡ₚ x :: items (with_heap q r (elements q - 1)) /\
    forall y, y ∈ items q -> above q x y.
Proof.
  intros Hq Hn. destruct (queue_remove_spec q 0 Hq Hn) as (x & r & E & Hx & Hok & Hp & Hh).
  assert (queue_top q = Some x) as Htop.
  { unfold items in Hx. by rewrite lookup_take_lt, lookup_drop in Hx by lia. }
  exists x, r. split_and!; try done. intros y Hy. by apply heap_top_least.
Qed.

Lemma drain_spec {A} n (q : QUEUE A) :
  queue_inv q -> elements q = n ->
  exists l, drain n q = Some l /\ l ≡ₚ items q /\ StronglySorted (above q) l.
Proof.
  revert q. induction n as [|n IH]; intros q Hq Hn; cbn [drain].
  - exists []. unfold items. rewrite Hn. repeat constructor.
  - destruct (queue_remove_top_spec q Hq) as (x & r & -> & _ & Hq' & Hp & Hmin); [lia|]. obind.
    destruct (IH (with_heap q r (elements q - 1)) Hq') as (l & -> & Hl & Hs); [simpl; lia|]. obind.
    exists (x :: l). split; [done|]. split; [by rewrite Hl, Hp|]. constructor; [exact Hs|].
    apply Forall_forall. intros y Hy. apply Hmin. rewrite Hp. right. by rewrite <- Hl.
Qed.

(** queue_insert adds the element, keeps the heap order and the array
    bounds, and its loop, which has no bound of its own, stops; with
    queue_insert_safe a full queue is either extended first, or refused with
    2 (no extension allowed) or 1 (no memory) and left as it was. *)
Theorem queue_insert_correct {A} (q : QUEUE A) (e : A) realloc :
  queue_inv q ->
  (forall old n new, realloc old n = Some new ->
     length new = n /\ take (length old `min` n) new = take (length old `min` n) old) ->
  (N.of_nat (max_elements q + auto_extent q) + 1 < 2 ^ 32)%N ->
  (length (root q) <= S (max_elements q))%nat ->
  ((elements q < max_elements q)%nat ->
   exists q', queue_insert q e = Some q' /\ queue_insert_safe realloc q e = Some (0, q') /\
     queue_inv q' /\ items q' ≡ₚ e :: items q) /\
  (elements q = max_elements q ->
   exists rc q', queue_insert_safe realloc q e = Some (rc, q') /\ queue_inv q' /\
     (rc = 0 /\ items q' ≡ₚ e :: items q \/
      rc = 1 /\ q' = q \/ rc = 2 /\ q' = q /\ auto_extent q = 0%nat)).
Proof.
  intros Hq Hrealloc Hbig Hlen. unfold queue_insert_safe. split.
  - intros Hroom. destruct (queue_insert_spec q e Hq Hroom) as (r & E & Hq' & Hp).
    replace (elements q =? max_elements q)%nat with false by bsolve. rewrite E. obind. eauto.
  - intros Hfull. replace (elements q =? max_elements q)%nat with true by bsolve.
    destruct (auto_extent q =? 0)%nat eqn:Ea; b2p; [exists 2, q; split_and!; [done|done|by right; right]|].
    unfold resize_queue. rewrite wrap32_small by lia.
    replace (max_elements q =? max_elements q + auto_extent q)%nat with false by bsolve.
    rewrite wrap32_small by lia.
    destruct (realloc _ _) as [new|] eqn:Er; [|exists 1, q; split_and!; [done|done|by right; left]].
    destruct (Hrealloc _ _ _ Er) as [Hl Hkeep]. cbn [negb Z.eqb].
    pose proof Hq as [[Hf Ht Hr He] Hh].
    assert (length (root q) = S (max_elements q)) as Hlr by lia.
    rewrite Nat.min_l in Hkeep by lia. rewrite (take_ge (root q)) in Hkeep by lia.
    assert (forall i, (i <= elements q)%nat -> new !! i = root q !! i) as Hsame.
    { intros i Hi. by rewrite <- Hkeep, lookup_take_lt by lia. }
    replace (_ <? elements q)%nat with false by bsolve.
    set (q1 := mk_queue new _ _ _ _ _).
    assert (queue_inv q1) as Hq1.
    { split; [split; simpl; try done; lia|]. intros i x y Hi Hi2 Hx Hy. cbn [root elements q1] in Hi, Hx, Hy.
      rewrite Hsame in Hx, Hy by ndiv. by apply (Hh i). }
    destruct (queue_insert_spec q1 e Hq1) as (r & E & Hq' & Hp); [simpl; lia|].
    rewrite E. obind. exists 0, (with_heap q1 r (S (elements q1))).
    assert (items q1 = items q) as <-; [|by auto].
    unfold items. change (elements q1) with (elements q). change (root q1) with new.
    apply list_eq. intros i.
    destruct (decide (i < elements q)%nat); [|by rewrite !lookup_take_ge by lia].
    rewrite !lookup_take_lt, !lookup_drop by done. apply Hsame. lia.
Qed.

Definition Z_cmp (a b : Z) : Z := if a <? b then -1 else if b <? a then 1 else 0.

Lemma Z_cmp_ok : compare_ok Z_cmp.
Proof.
  split; unfold Z_cmp; intros; repeat case_match; b2p; lia.
Qed.

(** A heap of seven numbers in an array of eight positions. *)
Definition demo_queue (mx ext : nat) : QUEUE Z :=
  mk_queue ([0; 1; 5; 2; 9; 11; 7; 3] ++ replicate (mx - 7) 0) 7 mx 1 Z_cmp ext.

Lemma demo_queue_inv mx ext : (7 <= mx)%nat -> queue_inv (demo_queue mx ext).
Proof.
  intros Hmx. split; [split; simpl; try apply Z_cmp_ok; try rewrite length_replicate; auto; lia|].
  intros i x y Hi Hi2 Hx Hy. cbn [elements demo_queue] in Hi.
  assert (i = 2 \/ i = 3 \/ i = 4 \/ i = 5 \/ i = 6 \/ i = 7)%nat
    as [-> | [-> | [-> | [-> | [-> | ->]]]]] by lia; cbn in Hx, Hy; simplify_eq; by vm_compute.
Qed.

Lemma queue_insert_correct_witness :
  let realloc old n := Some (take n old ++ replicate (n - length old) 0) in
  exists rc q', queue_insert_safe realloc (demo_queue 7 5) 6 = Some (rc, q') /\ queue_inv q' /\
    (rc = 0 /\ items q' ≡ₚ 6 :: items (demo_queue 7 5) \/
     rc = 1 /\ q' = demo_queue 7 5 \/ rc = 2 /\ q' = demo_queue 7 5 /\ 5%nat = 0%nat).
Proof.
  intros realloc. apply (queue_insert_correct (demo_queue 7 5) 6 realloc);
    [apply demo_queue_inv; lia| |simpl; lia|simpl; lia|reflexivity].
  intros old n new [= <-]. split; [solve_len|].
  rewrite take_app_le by solve_len. rewrite take_take. f_equal. lia.
Defined.

(** C38.  Inserting a list and removing the top until the queue is empty sorts:
    every element comes out once, each one before those it may stand above, and
    the first is the one queue_top shows.  Holds for max_at_top in both
    directions and for comparison functions with ties; no loop of queues.c runs
    out of the array or forever. *)
Theorem queue_sorts {A} (q : QUEUE A) (l : list A) :
  queue_inv q -> (elements q + length l <= max_elements q)%nat ->
  exists q' s, insert_all q l = Some q' /\ queue_inv q' /\
    drain (elements q') q' = Some s /\ s ≡ₚ l ++ items q /\ StronglySorted (above q) s /\
    (s <> [] -> queue_top q' = head s).
Proof.
  intros Hq Hroom. destruct (insert_all_spec q l Hq Hroom) as (r & E & Hq' & Hp).
  set (q' := with_heap q r _) in *.
  destruct (drain_spec (elements q') q' Hq' eq_refl) as (s & Es & Hs & Hsort).
  exists q', s. split_and!; try done; [by rewrite Hs, Hp|]. intros Hne.
  destruct (elements q') as [|n] eqn:En; [by simplify_eq/=|]. cbn [drain] in Es.
  destruct (queue_remove_top_spec q' Hq') as (x & r' & Er & Htop & _); [lia|].
  rewrite Er in Es. cbn [mbind option_bind] in Es. destruct (drain n _); [|done].
  cbn in Es. simplify_eq. exact Htop.
Qed.

Lemma queue_sorts_witness :
  exists q' s, insert_all (demo_queue 9 0) [5; 3] = Some q' /\ queue_inv q' /\
    drain (elements q') q' = Some s /\ s ≡ₚ [5; 3] ++ items (demo_queue 9 0) /\
    StronglySorted (above (demo_queue 9 0)) s /\ (s <> [] -> queue_top q' = head s).
Proof.
  apply (queue_sorts (demo_queue 9 0) [5; 3]); [apply demo_queue_inv; lia|simpl; lia].
Defined.

(** queue_fix makes a heap of any array contents, with the same elements;
    queue_replaced restores the heap after the top was changed. *)
Theorem queue_fix_correct {A} (q : QUEUE A) :
  queue_ok q ->
  (exists q', queue_fix q = Some q' /\ queue_inv q' /\ items q' ≡ₚ items q) /\
  (heap_from q (elements q) 2 (root q) -> (0 < elements q)%nat ->
   exists q', queue_replaced q = Some q' /\ queue_inv q' /\ items q' ≡ₚ items q).
Proof.
  intros Hok. pose proof Hok as [Hf Ht Hr He]. split.
  - unfold queue_fix. destruct (fix_loop_spec q (elements q / 2)) as (r & -> & Hl & Hh & Hp).
    + done.
    + intros i x y Hi Hi2. exfalso. ndiv.
    + ndiv.
    + eexists; split; [done|]. split; [split; [by apply with_heap_ok|done]|done].
  - intros Hh Hn. destruct (_downheap_spec q 1) as (r & E & [Fl Fp Fo Fh]); [done|done|lia|lia|done|].
    eexists; split; [exact E|]. split; [split; [by apply with_heap_ok|done]|].
    apply items_perm; [done|done|]. intros i Hi. apply Fo. lia.
Qed.

Lemma queue_fix_correct_witness :
  exists q', queue_fix (mk_queue [0; 5; 4; 3; 2; 1] 5 5 (-1) Z_cmp 0) = Some q' /\ queue_inv q' /\
    items q' ≡ₚ [5; 4; 3; 2; 1].
Proof.
  destruct (queue_fix_correct (mk_queue [0; 5; 4; 3; 2; 1] 5 5 (-1) Z_cmp 0)) as [H _];
    [|exact H].
  split; [apply Z_cmp_ok|by right|simpl; lia|simpl; lia].
Defined.

(** Removing an element other than the top returns that element and keeps
    the others, but _downheap only moves the replacement down: when it belongs
    above its new parent the heap order is lost, and later removals come out
    of order. *)
Theorem queue_remove_middle :
  (forall (A : Type) (q : QUEUE A) idx, queue_inv q -> (idx < elements q)%nat ->
     exists x q', queue_remove q idx = Some (x, q') /\ queue_element q idx = Some x /\
       queue_ok q' /\ items q ≡ₚ x :: items q') /\
  (exists (q : QUEUE Z) x q', queue_inv q /\ queue_remove q 3 = Some (x, q') /\
     ~ heap_ordered q' /\ drain (elements q') q' = Some [1; 2; 5; 3; 7; 11]).
Proof.
  split.
  - intros A q idx Hq Hi.
    destruct (queue_remove_spec q idx Hq Hi) as (x & r & E & Hx & Hok & Hp & _).
    exists x, (with_heap q r (elements q - 1)). split_and!; try done.
    unfold items in Hx. by rewrite lookup_take_lt, lookup_drop in Hx by lia.
  - exists (demo_queue 7 0). eexists _, _. split; [apply demo_queue_inv; lia|].
    split; [vm_compute; reflexivity|]. split; [|vm_compute; reflexivity].
    intros Hh. assert (above (demo_queue 7 0) 5 3) as H; [|by vm_compute in H].
    apply (Hh 4%nat 5 3); (reflexivity || simpl; lia).
Qed.
