(* ===== verification/DynArray.v ===== *)
(** * Growing arrays: mysys/array.c

    A DYNAMIC_ARRAY holds elements of one type; its buffer is the null pointer,
    the static memory behind the structure or a block of my_malloc.  The model
    of the allocator is a function from the number of bytes asked for to the
    unspecified contents of the new memory, or nothing when the allocation
    fails.  [None] is an access outside the buffer. *)

From stdpp Require Import prelude list list_numbers.
From Stdlib Require Import ZArith Lia ZifyNat.
From S2P Require Import Prelude.

Open Scope nat_scope.

Inductive buf (A : Type) : Type :=
| NullBuf
| StaticBuf (cells : list A)
| HeapBuf (cells : list A).
Arguments NullBuf {A}. Arguments StaticBuf {A}. Arguments HeapBuf {A}.

Record DYNAMIC_ARRAY (A : Type) : Type := mk_array {
  buffer : buf A;
  elements : nat;
  max_element : nat;
  alloc_increment : nat;
  size_of_element : nat
}.
Arguments mk_array {A}. Arguments buffer {A}. Arguments elements {A}.
Arguments max_element {A}. Arguments alloc_increment {A}. Arguments size_of_element {A}.

Definition allocator (A : Type) : Type := nat -> option (nat -> A).

Section Operations.
Context {A : Type} (zero : A) (alloc : allocator A).

Definition cells (b : buf A) : list A :=
  match b with NullBuf => [] | StaticBuf l => l | HeapBuf l => l end.

Definition set_cells (b : buf A) (l : list A) : buf A :=
  match b with NullBuf => NullBuf | StaticBuf _ => StaticBuf l | HeapBuf _ => HeapBuf l end.

(** [array->buffer == (uchar * )(array + 1)]. *)
Definition is_static (b : buf A) : bool :=
  match b with StaticBuf _ => true | _ => false end.

(** [my_malloc(n * size, ...)], the product being an [uint]. *)
Definition my_malloc (n size : nat) : option (list A) :=
  let bytes := wrap32 (wrap32 n * size) in
  g ← alloc bytes; Some (map g (seq 0 (bytes / size))).

(** [my_realloc(old, n * size, ...)] keeps what fits of the old contents. *)
Definition my_realloc (old : list A) (n size : nat) : option (list A) :=
  new ← my_malloc n size; Some (take (length new) old ++ drop (length old) new).

Definition with_elements (a : DYNAMIC_ARRAY A) (n : nat) : DYNAMIC_ARRAY A :=
  mk_array (buffer a) n (max_element a) (alloc_increment a) (size_of_element a).

Definition with_buffer (a : DYNAMIC_ARRAY A) (b : buf A) (max : nat) : DYNAMIC_ARRAY A :=
  mk_array b (elements a) max (alloc_increment a) (size_of_element a).

(** Write one element of the buffer. *)
Definition poke (a : DYNAMIC_ARRAY A) (idx : nat) (x : A) : option (DYNAMIC_ARRAY A) :=
  if idx <? length (cells (buffer a))
  then Some (with_buffer a (set_cells (buffer a) (<[idx := x]> (cells (buffer a))))
                         (max_element a))
  else None.

Definition MALLOC_OVERHEAD : nat := 8.

(** [init_buffer] is the static memory, if any. *)
Definition init_dynamic_array2 (element_size : nat) (init_buffer : option (list A))
    (init_alloc increment : nat) : DYNAMIC_ARRAY A :=
  let increment :=
    if increment =? 0 then
      let i := (8 * 1024 - MALLOC_OVERHEAD) / element_size `max` 16 in
      if (8 <? init_alloc) && (init_alloc * 2 <? i) then init_alloc * 2 else i
    else increment in
  let '(init_alloc, init_buffer) :=
    if init_alloc =? 0 then (increment, None) else (init_alloc, init_buffer) in
  match init_buffer with
  | Some l => mk_array (StaticBuf l) 0 init_alloc increment element_size
  | None =>
    match my_malloc init_alloc element_size with
    | Some l => mk_array (HeapBuf l) 0 init_alloc increment element_size
    | None => mk_array NullBuf 0 0 increment element_size
    end
  end.

(** The two ways to enlarge a buffer: a fresh block for a static one, my_realloc
    for the others. *)
Definition grow (a : DYNAMIC_ARRAY A) (n : nat) : option (list A) :=
  if is_static (buffer a) then
    new ← my_malloc n (size_of_element a);
    Some (take (elements a `min` length new) (cells (buffer a)) ++ drop (elements a) new)
  else my_realloc (cells (buffer a)) n (size_of_element a).

(** Returns the index of the new element. *)
Definition alloc_dynamic (a : DYNAMIC_ARRAY A) : option nat * DYNAMIC_ARRAY A :=
  if elements a =? max_element a then
    match grow a (max_element a + alloc_increment a) with
    | None => (None, a)
    | Some l =>
      let a := with_buffer a (HeapBuf l) (wrap32 (max_element a + alloc_increment a)) in
      (Some (elements a), with_elements a (S (elements a)))
    end
  else (Some (elements a), with_elements a (S (elements a))).

Definition insert_dynamic (a : DYNAMIC_ARRAY A) (x : A) : option (bool * DYNAMIC_ARRAY A) :=
  if elements a =? max_element a then
    match alloc_dynamic a with
    | (None, a) => Some (true, a)
    | (Some i, a) => a ← poke a i x; Some (false, a)
    end
  else
    a' ← poke (with_elements a (S (elements a))) (elements a) x; Some (false, a').

(** The popped element, [None] for an empty array. *)
Definition pop_dynamic (a : DYNAMIC_ARRAY A) : option A * DYNAMIC_ARRAY A :=
  match elements a with
  | O => (None, a)
  | S n => (cells (buffer a) !! n, with_elements a n)
  end.

(** The result is TRUE only for a failed my_realloc: with a static buffer a
    failed my_malloc returns 0, which is FALSE. *)
Definition allocate_dynamic (a : DYNAMIC_ARRAY A) (max_elements : nat)
    : bool * DYNAMIC_ARRAY A :=
  if max_element a <=? max_elements then
    let size := wrap32 (wrap32 (max_elements + alloc_increment a) / alloc_increment a *
                        alloc_increment a) in
    match grow a size with
    | None => if is_static (buffer a) then (false, a) else (true, a)
    | Some l => (false, with_buffer a (HeapBuf l) size)
    end
  else (false, a).

(** [bzero] of the elements [i .. i+n-1]. *)
Fixpoint clear_cells (a : DYNAMIC_ARRAY A) (i n : nat) : option (DYNAMIC_ARRAY A) :=
  match n with
  | O => Some a
  | S n => a ← poke a i zero; clear_cells a (S i) n
  end.

Definition set_dynamic (a : DYNAMIC_ARRAY A) (x : A) (idx : nat)
    : option (bool * DYNAMIC_ARRAY A) :=
  if elements a <=? idx then
    let '(failed, a) := if max_element a <=? idx then allocate_dynamic a idx else (false, a) in
    if failed then Some (true, a)
    else
      a ← clear_cells a (elements a) (idx - elements a);
      a ← poke (with_elements a (S idx)) idx x;
      Some (false, a)
  else a ← poke a idx x; Some (false, a).

Definition get_dynamic (a : DYNAMIC_ARRAY A) (idx : nat) : option A :=
  if elements a <=? idx then Some zero else cells (buffer a) !! idx.

Definition delete_dynamic (a : DYNAMIC_ARRAY A) : DYNAMIC_ARRAY A :=
  match buffer a with
  | StaticBuf _ => with_elements a 0
  | HeapBuf _ => with_elements (with_buffer a NullBuf 0) 0
  | NullBuf => a
  end.

(** [memmove] over the deleted element. *)
Definition delete_dynamic_element (a : DYNAMIC_ARRAY A) (idx : nat)
    : option (DYNAMIC_ARRAY A) :=
  match elements a with
  | O => None
  | S n =>
    let l := cells (buffer a) in
    if (idx <=? n) && (n <? length l) then
      Some (with_elements
        (with_buffer a (set_cells (buffer a)
           (take idx l ++ take (n - idx) (drop (S idx) l) ++ drop n l)) (max_element a)) n)
    else None
  end.

(** A failed my_realloc leaves the null pointer in [buffer]. *)
Definition freeze_size (a : DYNAMIC_ARRAY A) : DYNAMIC_ARRAY A :=
  let n := elements a `max` 1 in
  match buffer a with
  | HeapBuf l =>
    if max_element a =? n then a
    else
      match my_realloc l n (size_of_element a) with
      | Some l => with_buffer a (HeapBuf l) n
      | None => with_buffer a NullBuf n
      end
  | _ => a
  end.

(** The pointer is given as its byte offset from the buffer. *)
Definition get_index_dynamic (a : DYNAMIC_ARRAY A) (offset : Z) : Z :=
  if (offset <? 0)%Z then (-1)%Z
  else
    let ret := (offset / Z.of_nat (size_of_element a))%Z in
    if (Z.of_nat (elements a) <? ret)%Z then (-1)%Z else ret.

Definition reset_dynamic (a : DYNAMIC_ARRAY A) : DYNAMIC_ARRAY A := with_elements a 0.
End Operations.

(** ** The contract: an array is the list of its elements *)

Section Contract.
Context {A : Type} (zero : A) (alloc : allocator A).

Definition contents (a : DYNAMIC_ARRAY A) : list A := take (elements a) (cells (buffer a)).

Record array_ok (a : DYNAMIC_ARRAY A) : Prop := {
  a_elements : elements a <= max_element a;
  a_room : max_element a <= length (cells (buffer a));
  a_increment : 0 < alloc_increment a;
  a_size : 0 < size_of_element a
}.

(** [n] elements can be asked for without the product leaving 32 bits. *)
Definition fits (a : DYNAMIC_ARRAY A) (n : nat) : Prop :=
  (N.of_nat n * N.of_nat (size_of_element a) < 2 ^ 32)%N.

Lemma my_malloc_length n size l :
  0 < size -> (N.of_nat n * N.of_nat size < 2 ^ 32)%N ->
  my_malloc alloc n size = Some l -> length l = n.
Proof.
  intros Hs Hf. unfold my_malloc.
  assert (N.of_nat n < 2 ^ 32)%N by nia.
  rewrite !wrap32_small by (rewrite ?wrap32_small by done; lia).
  destruct (alloc _); [|done]. obind. intros [= <-].
  rewrite length_map, length_seq. by rewrite Nat.div_mul by lia.
Qed.

Lemma grow_spec a n l :
  array_ok a -> fits a n -> elements a <= n -> grow alloc a n = Some l ->
  length l = n /\ take (elements a) l = contents a.
Proof.
  intros [He Hr Hi Hs] Hf Hn. unfold grow, my_realloc, contents.
  destruct (my_malloc alloc n (size_of_element a)) as [new|] eqn:E;
    [|by destruct (is_static _)].
  apply my_malloc_length in E; [|done|done]. obind.
  destruct (is_static (buffer a)); intros [= <-]; rewrite !length_app, !length_take, !length_drop.
  - split; [lia|]. rewrite take_app_le by solve_len.
    rewrite take_take. f_equal. lia.
  - split; [lia|]. rewrite take_app_le by solve_len.
    rewrite take_take. f_equal. lia.
Qed.

Lemma contents_length (a : DYNAMIC_ARRAY A) : array_ok a -> length (contents a) = elements a.
Proof. intros []. unfold contents. rewrite length_take. lia. Qed.

Lemma cells_set_cells (b : buf A) l : b <> NullBuf -> cells (set_cells b l) = l.
Proof. by destruct b. Qed.

Lemma poke_spec (a : DYNAMIC_ARRAY A) idx x :
  idx < length (cells (buffer a)) ->
  exists a', poke a idx x = Some a' /\ cells (buffer a') = <[idx := x]> (cells (buffer a)) /\
    elements a' = elements a /\ max_element a' = max_element a /\
    alloc_increment a' = alloc_increment a /\ size_of_element a' = size_of_element a.
Proof.
  intros Hi. unfold poke. replace (idx <? _) with true by bsolve.
  eexists; split; [done|]. split; [|done]. simpl. apply cells_set_cells.
  intros E. rewrite E in Hi. simpl in Hi. lia.
Qed.

Lemma poke_ok (a : DYNAMIC_ARRAY A) idx x a' :
  array_ok a -> poke a idx x = Some a' -> array_ok a' /\
  (idx < elements a -> contents a' = <[idx := x]> (contents a)) /\
  (forall n, elements a <= n -> n <= idx -> take n (cells (buffer a')) = take n (cells (buffer a))).
Proof.
  intros [He Hr Hi Hs] Hp. unfold poke in Hp. destruct (idx <? _) eqn:E; [|done]. b2p.
  destruct (poke_spec a idx x E) as (a2 & E2 & Hc & H1 & H2 & H3 & H4).
  unfold poke in E2. replace (idx <? _) with true in E2 by bsolve.
  rewrite Hp in E2. injection E2 as ->. split; [|split].
  - split; rewrite ?H1, ?H2, ?H3, ?H4, ?Hc, ?length_insert; done.
  - intros Hlt. unfold contents. rewrite H1, Hc. by apply take_insert_lt.
  - intros n _ Hn. rewrite Hc. apply take_insert_ge. lia.
Qed.

Lemma insert_dynamic_spec (a : DYNAMIC_ARRAY A) (x : A) :
  array_ok a -> fits a (max_element a + alloc_increment a) ->
  exists failed a', insert_dynamic alloc a x = Some (failed, a') /\ array_ok a' /\
    if failed : bool then a' = a /\ elements a = max_element a
    else contents a' = contents a ++ [x].
Proof.
  intros Hok Hf. pose proof Hok as [He Hr Hi Hs]. unfold insert_dynamic.
  assert (forall b, array_ok b -> elements b < length (cells (buffer b)) ->
    S (elements b) <= max_element b -> contents b = contents a ->
    exists a', poke (with_elements b (S (elements b))) (elements b) x = Some a' /\
      array_ok a' /\ contents a' = contents a ++ [x]) as Hpoke.
  { intros b [Be Br Bi Bs] Hlen Hmax Hcont.
    destruct (poke_spec (with_elements b (S (elements b))) (elements b) x)
      as (a' & E & Hc & H1 & H2 & H3 & H4); [done|]. exists a'. split; [done|]. simpl in *.
    split; [split; rewrite ?H1, ?H2, ?H3, ?H4, ?Hc, ?length_insert; done|].
    rewrite <- Hcont. unfold contents. rewrite H1, Hc.
    rewrite (take_S_r _ _ x) by (by apply list_lookup_insert_eq).
    by rewrite take_insert_ge by lia. }
  destruct (elements a =? max_element a) eqn:E; b2p.
  - unfold alloc_dynamic. replace (elements a =? max_element a) with true by bsolve.
    destruct (grow alloc a _) as [l|] eqn:Eg; [|by exists true, a].
    apply grow_spec in Eg as [Hl Ht]; [|done|done|lia].
    assert (wrap32 (max_element a + alloc_increment a) = max_element a + alloc_increment a) as ->.
    { apply wrap32_small. unfold fits in Hf. nia. }
    destruct (Hpoke (with_buffer a (HeapBuf l) (max_element a + alloc_increment a)))
      as (a' & E' & Hok' & Hc'); simpl; try done || lia.
    { split; simpl; lia. }
    simpl in E'. rewrite E'. obind. by exists false, a'.
  - destruct (Hpoke a Hok) as (a' & -> & Hok' & Hc'); [lia|lia|done|].
    obind. by exists false, a'.
Qed.

Lemma pop_dynamic_spec (a : DYNAMIC_ARRAY A) :
  array_ok a ->
  array_ok (snd (pop_dynamic a)) /\ fst (pop_dynamic a) = last (contents a) /\
  contents (snd (pop_dynamic a)) = removelast (contents a).
Proof.
  intros Hok. pose proof Hok as [He Hr Hi Hs]. unfold pop_dynamic, contents.
  destruct (elements a) as [|n] eqn:En; simpl.
  - split; [done|]. by rewrite En.
  - split; [split; simpl; (done || lia)|].
    destruct (lookup_lt_is_Some_2 (cells (buffer a)) n) as [x Hx]; [lia|].
    rewrite (take_S_r _ _ _ Hx), last_snoc, removelast_last. done.
Qed.

Lemma get_dynamic_spec (a : DYNAMIC_ARRAY A) idx :
  array_ok a -> get_dynamic zero a idx = Some (default zero (contents a !! idx)).
Proof.
  intros [He Hr Hi Hs]. unfold get_dynamic, contents. destruct (elements a <=? idx) eqn:E; b2p.
  - by rewrite lookup_take_ge by lia.
  - rewrite lookup_take_lt by lia.
    by destruct (lookup_lt_is_Some_2 (cells (buffer a)) idx ltac:(lia)) as [x ->].
Qed.

Lemma delete_dynamic_element_spec (a : DYNAMIC_ARRAY A) idx :
  array_ok a -> idx < elements a ->
  exists a', delete_dynamic_element a idx = Some a' /\ array_ok a' /\
    contents a' = delete idx (contents a).
Proof.
  intros [He Hr Hi Hs] Hidx. unfold delete_dynamic_element, contents.
  destruct (elements a) as [|n] eqn:En; [lia|].
  replace ((idx <=? n) && (n <? _)) with true by bsolve.
  eexists; split; [done|]. set (l := cells (buffer a)) in *.
  assert (buffer a <> NullBuf) as Hnn.
  { intros E. subst l. rewrite E in Hr. simpl in Hr. lia. }
  simpl. split.
  - split; simpl; rewrite ?cells_set_cells by done; try lia.
    rewrite !length_app, !length_take, !length_drop. lia.
  - rewrite cells_set_cells by done. rewrite delete_take_drop.
    rewrite app_assoc, take_app_le by solve_len.
    rewrite take_ge by solve_len.
    rewrite take_take, Nat.min_l by lia. f_equal.
    rewrite skipn_firstn_comm. f_equal.
Qed.

Lemma clear_cells_spec (a : DYNAMIC_ARRAY A) i n :
  i + n <= length (cells (buffer a)) ->
  exists a', clear_cells zero a i n = Some a' /\
    cells (buffer a') = take i (cells (buffer a)) ++ replicate n zero ++
                        drop (i + n) (cells (buffer a)) /\
    elements a' = elements a /\ max_element a' = max_element a /\
    alloc_increment a' = alloc_increment a /\ size_of_element a' = size_of_element a.
Proof.
  revert a i. induction n as [|n IH]; intros a i Hn; cbn [clear_cells].
  { exists a. split; [done|]. split; [|done]. simpl. rewrite Nat.add_0_r. by rewrite take_drop. }
  destruct (poke_spec a i zero) as (a1 & -> & Hc & H1 & H2 & H3 & H4); [lia|]. obind.
  destruct (IH a1 (S i)) as (a2 & -> & Hc2 & G1 & G2 & G3 & G4).
  { rewrite Hc, length_insert. lia. }
  exists a2. split; [done|]. rewrite G1, G2, G3, G4, H1, H2, H3, H4. split; [|done].
  rewrite Hc2, Hc. rewrite drop_insert_lt by lia.
  rewrite (take_S_r _ _ zero) by (apply list_lookup_insert_eq; lia).
  rewrite take_insert_ge by lia. rewrite <- app_assoc.
  by replace (i + S n) with (S i + n) by lia.
Qed.

(** set_dynamic once the buffer has room for [idx]. *)
Lemma set_dynamic_grown (a : DYNAMIC_ARRAY A) (x : A) idx :
  array_ok a -> elements a <= idx -> idx < max_element a ->
  exists a', (a ← clear_cells zero a (elements a) (idx - elements a);
              a ← poke (with_elements a (S idx)) idx x;
              Some (false, a)) = Some (false, a') /\
    array_ok a' /\ contents a' = contents a ++ replicate (idx - elements a) zero ++ [x].
Proof.
  intros [He Hr Hi Hs] Hge Hlt.
  destruct (clear_cells_spec a (elements a) (idx - elements a))
    as (a1 & -> & Hc & H1 & H2 & H3 & H4); [lia|]. obind.
  assert (length (cells (buffer a1)) = length (cells (buffer a))) as Hl.
  { rewrite Hc, !length_app, length_take, length_replicate, length_drop. lia. }
  destruct (poke_spec (with_elements a1 (S idx)) idx x)
    as (a2 & -> & Gc & G1 & G2 & G3 & G4); [simpl; lia|]. obind. simpl in *.
  exists a2. split; [done|].
  split; [split; rewrite ?G1, ?G2, ?G3, ?G4, ?H1, ?H2, ?H3, ?H4, ?Gc, ?length_insert; lia|].
  unfold contents. rewrite G1, Gc.
  rewrite (take_S_r _ _ x) by (apply list_lookup_insert_eq; lia).
  rewrite take_insert_ge by lia. rewrite Hc, app_assoc.
  rewrite take_app_le by solve_len.
  rewrite take_ge by solve_len.
  by rewrite <- app_assoc.
Qed.

Lemma allocate_size (a : DYNAMIC_ARRAY A) idx :
  array_ok a -> fits a (idx + alloc_increment a) ->
  let size := wrap32 (wrap32 (idx + alloc_increment a) / alloc_increment a *
                      alloc_increment a) in
  idx < size /\ fits a size.
Proof.
  intros [He Hr Hi Hs] Hf. cbv zeta. unfold fits in *.
  assert (N.of_nat (idx + alloc_increment a) < 2 ^ 32)%N by nia.
  rewrite (wrap32_small (idx + _)) by done.
  pose proof (Nat.div_mod (idx + alloc_increment a) (alloc_increment a) ltac:(lia)) as Hd.
  pose proof (Nat.mod_upper_bound (idx + alloc_increment a) (alloc_increment a) ltac:(lia)).
  set (k := (idx + alloc_increment a) / alloc_increment a) in *.
  rewrite wrap32_small by nia. nia.
Qed.

Lemma set_dynamic_spec (a : DYNAMIC_ARRAY A) (x : A) idx :
  array_ok a -> fits a (idx + alloc_increment a) ->
  (is_static (buffer a) = false \/ idx < max_element a \/ forall n, alloc n <> None) ->
  exists failed a', set_dynamic zero alloc a x idx = Some (failed, a') /\ array_ok a' /\
    if failed : bool then a' = a /\ max_element a <= idx
    else contents a' = if idx <? elements a then <[idx := x]> (contents a)
                       else contents a ++ replicate (idx - elements a) zero ++ [x].
Proof.
  intros Hok Hf Hstat. pose proof Hok as [He Hr Hi Hs]. unfold set_dynamic.
  destruct (elements a <=? idx) eqn:E1; b2p.
  2:{ replace (idx <? elements a) with true by bsolve.
      destruct (poke_spec a idx x) as (a' & E & _); [lia|]. rewrite E. obind.
      destruct (poke_ok a idx x a' Hok E) as (Hok' & Hc & _). exists false, a'. auto. }
  replace (idx <? elements a) with false by bsolve.
  destruct (max_element a <=? idx) eqn:E2; b2p.
  2:{ destruct (set_dynamic_grown a x idx Hok E1 E2) as (a' & E & Hok' & Hc).
      rewrite E. by exists false, a'. }
  destruct (allocate_size a idx Hok Hf) as [Hsize Hfit].
  unfold allocate_dynamic. replace (max_element a <=? idx) with true by bsolve. cbv zeta.
  destruct (grow alloc a _) as [l|] eqn:Eg.
  - apply grow_spec in Eg as [Hl Ht]; [|done|done|lia].
    destruct (set_dynamic_grown (with_buffer a (HeapBuf l)
      (wrap32 (wrap32 (idx + alloc_increment a) / alloc_increment a * alloc_increment a))) x idx)
      as (a' & E & Hok' & Hc); simpl; try done || lia.
    { split; simpl; lia. }
    simpl in E. rewrite E. exists false, a'. split_and!; try done.
    rewrite Hc. unfold contents. simpl. by rewrite Ht.
  - destruct (is_static (buffer a)) eqn:Es; [|by exists true, a].
    exfalso. destruct Hstat as [?|[?|Hall]]; [done|lia|].
    unfold grow in Eg. rewrite Es in Eg. unfold my_malloc in Eg.
    destruct (alloc _) eqn:Ea; [by simpl in Eg|]. by apply Hall in Ea.
Qed.
End Contract.

(** Insertion at the end, removal at the end, reading, replacing at any
    index (zeroes fill a gap) and deletion of an element are the operations on
    the list of elements; an operation that needs memory either succeeds or
    reports the failure and leaves the array as it was.  The products of
    counts and sizes must fit in 32 bits; for set_dynamic the buffer must not
    be static, or large enough, or memory available. *)
Theorem dynamic_array_list {A} (zero : A) (alloc : allocator A) (a : DYNAMIC_ARRAY A)
    (x : A) (idx : nat) :
  array_ok a -> fits a (max_element a + alloc_increment a) ->
  fits a (idx + alloc_increment a) ->
  (exists failed a', insert_dynamic alloc a x = Some (failed, a') /\ array_ok a' /\
     if failed : bool then a' = a /\ elements a = max_element a
     else contents a' = contents a ++ [x]) /\
  (array_ok (snd (pop_dynamic a)) /\ fst (pop_dynamic a) = last (contents a) /\
   contents (snd (pop_dynamic a)) = removelast (contents a)) /\
  get_dynamic zero a idx = Some (default zero (contents a !! idx)) /\
  (is_static (buffer a) = false \/ idx < max_element a \/ (forall n, alloc n <> None) ->
   exists failed a', set_dynamic zero alloc a x idx = Some (failed, a') /\ array_ok a' /\
     if failed : bool then a' = a /\ max_element a <= idx
     else contents a' = if idx <? elements a then <[idx := x]> (contents a)
                        else contents a ++ replicate (idx - elements a) zero ++ [x]) /\
  (idx < elements a ->
   exists a', delete_dynamic_element a idx = Some a' /\ array_ok a' /\
     contents a' = delete idx (contents a)).
Proof.
  intros Hok Hf1 Hf2. split_and!.
  - by apply insert_dynamic_spec.
  - by apply pop_dynamic_spec.
  - by apply pop_dynamic_spec.
  - by apply pop_dynamic_spec.
  - by apply get_dynamic_spec.
  - by apply set_dynamic_spec.
  - by apply delete_dynamic_element_spec.
Qed.

Lemma dynamic_array_list_witness :
  let a := mk_array (HeapBuf [7; 8]) 2 2 4 8 in
  exists failed a', set_dynamic 0 (fun _ => Some (fun _ => 99)) a 5 6 = Some (failed, a') /\
    array_ok a' /\
    if failed : bool then a' = a /\ 2 <= 6
    else contents a' = [7; 8; 0; 0; 0; 0; 5].
Proof.
  destruct (dynamic_array_list 0 (fun _ => Some (fun _ => 99))
    (mk_array (HeapBuf [7; 8]) 2 2 4 8) 5 6) as (_ & _ & _ & H & _).
  - split; simpl; lia.
  - unfold fits. simpl. lia.
  - unfold fits. simpl. lia.
  - apply H. left. reflexivity.
Defined.

(** With a static buffer and no memory left, allocate_dynamic returns 0,
    which its caller set_dynamic reads as success: set_dynamic then writes
    beyond the end of the static buffer instead of returning TRUE. *)
Theorem set_dynamic_static_overrun {A} (zero : A) (alloc : allocator A)
    (a : DYNAMIC_ARRAY A) (x : A) (idx : nat) :
  array_ok a -> is_static (buffer a) = true -> max_element a = length (cells (buffer a)) ->
  max_element a <= idx -> (forall n, alloc n = None) ->
  set_dynamic zero alloc a x idx = None.
Proof.
  intros [He Hr Hi Hs] Hst Hmax Hidx Hnone. unfold set_dynamic, allocate_dynamic, grow, my_malloc.
  replace (elements a <=? idx) with true by bsolve.
  replace (max_element a <=? idx) with true by bsolve.
  cbv zeta. rewrite Hst, Hnone. obind.
  destruct (decide (idx = elements a)) as [->|Hne].
  - rewrite Nat.sub_diag. cbn [clear_cells]. obind. unfold poke. simpl.
    by replace (elements a <? _) with false by bsolve.
  - destruct (clear_cells zero a (elements a) (idx - elements a)) as [b|] eqn:E; [|done]. obind.
    assert (length (cells (buffer b)) = length (cells (buffer a))) as Hl.
    { clear -E. remember (idx - elements a) as n eqn:En. clear En. revert E.
      generalize (elements a). intros i. revert a i. induction n as [|n IH]; intros a i E.
      - by simplify_eq/=.
      - cbn [clear_cells] in E. destruct (poke a i zero) as [c|] eqn:Ep; [|done]. cbn in E.
        rewrite (IH c (S i) E). unfold poke in Ep. destruct (i <? _) eqn:Ei; [|done].
        simplify_eq/=. b2p. rewrite cells_set_cells, length_insert; [done|].
        intros En. rewrite En in Ei. simpl in Ei. lia. }
    unfold poke. simpl. by replace (idx <? _) with false by bsolve.
Qed.

Lemma set_dynamic_static_overrun_witness :
  set_dynamic 0 (fun _ => None) (mk_array (StaticBuf [7; 8]) 2 2 4 8) 5 2 = None.
Proof.
  apply (set_dynamic_static_overrun 0 (fun _ => None) (mk_array (StaticBuf [7; 8]) 2 2 4 8) 5 2);
    try reflexivity. split; simpl; lia.
Defined.

(** get_index_dynamic accepts the address one past the last element. *)
Lemma get_index_dynamic_past_end {A} (a : DYNAMIC_ARRAY A) :
  0 < size_of_element a ->
  get_index_dynamic a (Z.of_nat (elements a * size_of_element a)) = Z.of_nat (elements a).
Proof.
  intros Hs. unfold get_index_dynamic. replace (_ <? 0)%Z with false by bsolve. cbv zeta.
  rewrite Nat2Z.inj_mul, Z.div_mul by lia. by rewrite Z.ltb_irrefl.
Qed.

(** ** The interface to clients

    A client such as the hash table keeps a pointer to the elements, which it
    reads and writes in place ([la_data], [la_put]), and makes the array longer
    or shorter by one. *)

Class LinkArray (T A : Type) : Type := {
  la_data : T -> list A;
  la_put : T -> list A -> T;
  la_alloc : T -> option T;
  la_pop : T -> T;
  la_reset : T -> T
}.

Class LinkArrayLaws (T A : Type) `{LinkArray T A} : Type := {
  la_inv : T -> Prop;
  la_room : T -> Prop;
  la_put_ok t l : la_inv t -> length l = length (la_data t) ->
    la_inv (la_put t l) /\ la_data (la_put t l) = l;
  la_alloc_ok t t' : la_inv t -> la_room t -> la_alloc t = Some t' ->
    la_inv t' /\ exists x, la_data t' = la_data t ++ [x];
  la_pop_ok t : la_inv t -> la_data t <> [] ->
    la_inv (la_pop t) /\ la_data (la_pop t) = removelast (la_data t);
  la_reset_ok t : la_inv t -> la_inv (la_reset t) /\ la_data (la_reset t) = []
}.

Section Instances.
Context {A : Type} (alloc : allocator A).

#[export] Instance dynamic_array_ops : LinkArray (DYNAMIC_ARRAY A) A := {
  la_data := contents;
  la_put a l := with_buffer a (set_cells (buffer a) (l ++ drop (elements a) (cells (buffer a))))
                            (max_element a);
  la_alloc a := match alloc_dynamic alloc a with
                | (Some _, a) => Some a
                | (None, _) => None
                end;
  la_pop a := snd (pop_dynamic a);
  la_reset := reset_dynamic
}.

#[export] Instance dynamic_array_laws : LinkArrayLaws (DYNAMIC_ARRAY A) A.
Proof.
  refine {| la_inv := array_ok; la_room := fun a => fits a (max_element a + alloc_increment a) |}.
  - intros a l Hok Hl. simpl in *. rewrite contents_length in Hl by done.
    destruct Hok as [He Hr Hi Hs]. unfold contents. simpl. destruct (buffer a) eqn:Eb.
    + simpl in *. assert (elements a = 0) as E0 by lia. destruct l; [|simpl in Hl; lia].
      split; [split; simpl; rewrite ?Eb; simpl; lia|]. by rewrite E0.
    + split; [split; simpl; rewrite ?length_app, ?length_drop; simpl in *; lia|].
      simpl. rewrite <- Hl. apply take_app_length.
    + split; [split; simpl; rewrite ?length_app, ?length_drop; simpl in *; lia|].
      simpl. rewrite <- Hl. apply take_app_length.
  - intros a a' Hok Hf. pose proof Hok as [He Hr Hi Hs]. simpl.
    unfold alloc_dynamic. destruct (elements a =? max_element a) eqn:E; b2p.
    + destruct (grow alloc a _) as [l|] eqn:Eg; [|done]. intros [= <-].
      apply grow_spec in Eg as [Hl Ht]; [|done|done|lia].
      assert (wrap32 (max_element a + alloc_increment a) = max_element a + alloc_increment a) as ->.
      { apply wrap32_small. unfold fits in Hf. nia. }
      split; [split; simpl; lia|]. unfold contents at 1. simpl.
      destruct (lookup_lt_is_Some_2 l (elements a)) as [x Hx]; [lia|].
      exists x. rewrite (take_S_r _ _ _ Hx). by rewrite Ht.
    + intros [= <-]. split; [split; simpl; lia|]. unfold contents. simpl.
      destruct (lookup_lt_is_Some_2 (cells (buffer a)) (elements a)) as [x Hx]; [lia|].
      exists x. by rewrite (take_S_r _ _ _ Hx).
  - intros a Hok _. destruct (pop_dynamic_spec a Hok) as (H1 & _ & H2). by split.
  - intros a [He Hr Hi Hs]. split; [split; simpl; (done || lia)|done].
Defined.
End Instances.
