(* ===== verification/HashTable.v ===== *)
(** * Hash tables: mysys/hash.c, include/hash.h

    A HASH is a linear hash table in a dynamic array of links; a bucket is the
    position its chain starts at.  Records are pointers, compared by identity.
    What the table gets from elsewhere are parameters: the key of a record
    (the get_key callback or the bytes at key_offset), the hash function and
    the comparison of the collation.  [NO_RECORD] is [None].  An operation of
    the model is [None] when the code would follow a link outside the array or
    loop forever; the theorems show that this does not happen. *)

From stdpp Require Import prelude list list_numbers.
From Stdlib Require Import ZArith Lia ZifyNat.
From S2P Require Import Prelude DynArray.

Open Scope nat_scope.

Record HASH_LINK (R : Type) : Type := mk_link { next : option nat; data : R }.
Arguments mk_link {R}. Arguments next {R}. Arguments data {R}.

Record HASH (T R : Type) : Type := mk_hash {
  key_length : nat;
  blength : nat;
  records : nat;
  flags : Z;
  array : T;
  free : bool;
  get_hash : option (R -> Z)
}.
Arguments mk_hash {T R}. Arguments key_length {T R}. Arguments blength {T R}.
Arguments records {T R}. Arguments flags {T R}. Arguments array {T R}.
Arguments free {T R}. Arguments get_hash {T R}.

Definition HASH_UNIQUE : Z := 1.
Definition HASH_KEEP_HASH : Z := 2.

Definition LOWFIND : Z := 1.
Definition LOWUSED : Z := 2.
Definition HIGHFIND : Z := 4.
Definition HIGHUSED : Z := 8.

Section Operations.
Context {T R : Type} `{LinkArray T (HASH_LINK R)} `{EqDecision R}.

(** my_hash_key, the [hash_sort] of the collation started with [1, 4] and cut to
    32 bits, and [my_strnncoll]. *)
Context (my_hash_key : R -> list Z) (hash_sort : list Z -> Z) (my_strnncoll : list Z -> list Z -> Z).

Definition with_records (h : HASH T R) (n bl : nat) : HASH T R :=
  mk_hash (key_length h) bl n (flags h) (array h) (free h) (get_hash h).

Definition with_array (h : HASH T R) (t : T) : HASH T R :=
  mk_hash (key_length h) (blength h) (records h) (flags h) t (free h) (get_hash h).

(** The array as the data pointer shows it. *)
Definition links (h : HASH T R) : list (HASH_LINK R) := la_data (array h).

Definition put_links (h : HASH T R) (l : list (HASH_LINK R)) : HASH T R :=
  with_array h (la_put (array h) l).

Definition calc_hash (key : list Z) : Z := u32 (hash_sort key).

Definition my_hash_mask (hashnr : Z) (buffmax maxlength : nat) : nat :=
  let i := Z.to_nat (hashnr .& (Z.of_nat buffmax - 1)) in
  if i <? maxlength then i
  else Z.to_nat (hashnr .& (Z.of_nat (buffmax / 2) - 1)).

Definition rec_hashnr (record : R) : Z := calc_hash (my_hash_key record).

Definition my_hash_rec_mask (record : R) (buffmax maxlength : nat) : nat :=
  my_hash_mask (rec_hashnr record) buffmax maxlength.

Definition _my_hash_init (t : T) (length : nat) (free_element : bool) (fl : Z) : HASH T R :=
  mk_hash length 1 0 fl t free_element None.

Definition _my_hash_init_extra (t : T) (length : nat) (free_element : bool)
    (get_key_hash : R -> Z) (fl : Z) : HASH T R :=
  mk_hash length 1 0 fl t free_element (Some get_key_hash).

(** The second result is the list of records given to [hash->free]. *)
Definition my_hash_free_elements (h : HASH T R) : HASH T R * list R :=
  (with_records h 0 (blength h),
   if free h then map data (take (records h) (links h)) else []).

(** [delete] is delete_dynamic of the array. *)
Definition my_hash_free (delete : T -> T) (h : HASH T R) : HASH T R * list R :=
  let '(h, freed) := my_hash_free_elements h in
  (mk_hash (key_length h) 0 (records h) (flags h) (delete (array h)) false (get_hash h), freed).

Definition my_hash_reset (h : HASH T R) : HASH T R * list R :=
  let '(h, freed) := my_hash_free_elements h in
  (with_records (with_array h (la_reset (array h))) (records h) 1, freed).

(** *** Searching *)

(** [key] is the memory the pointer shows; [length] is 0 when the length of the
    record's key is to be used.  0 means equal. *)
Definition hashcmp (record : R) (key : list Z) (len : nat) : Z :=
  let rec_key := my_hash_key record in
  let rec_keylength := length rec_key in
  if negb (len =? 0) && negb (len =? rec_keylength) then 1%Z
  else my_strnncoll rec_key (take rec_keylength key).

Definition my_hash_inited (h : HASH T R) : bool := negb (blength h =? 0).

(** A record has a non-null key pointer. *)
Definition hash_get_head (h : HASH T R) (record : R) (keylen : nat) : bool :=
  let rec_key := my_hash_key record in
  negb (keylen =? 0) && (keylen =? length rec_key) &&
  match get_hash h with
  | Some f => if test (flags h .& HASH_KEEP_HASH) then (f record =? calc_hash rec_key)%Z else true
  | None => true
  end.

(** [(!cmp_hash || hash_value == pos_hash) && !hashcmp(hash,pos,key,length)]. *)
Definition hash_match (h : HASH T R) (hash_value : Z) (record : R) (key : list Z) (len : nat)
    : bool :=
  match get_hash h with
  | Some f => if test (flags h .& HASH_KEEP_HASH) then (hash_value =? f record)%Z else true
  | None => true
  end && (hashcmp record key len =? 0)%Z.

(** The [do] loop; [flag] is its flag. *)
Fixpoint first_loop (h : HASH T R) (hash_value : Z) (key : list Z) (len : nat)
    (fuel : nat) (idx : nat) (flag fast_path : bool) : option (option (nat * R)) :=
  match fuel with
  | O => None
  | S fuel =>
    pos ← links h !! idx;
    if (fast_path && hash_get_head h (data pos) len) ||
       hash_match h hash_value (data pos) key len
    then Some (Some (idx, data pos))
    else if flag && negb (my_hash_rec_mask (data pos) (blength h) (records h) =? idx)
    then Some None
    else
      match next pos with
      | None => Some None
      | Some idx => first_loop h hash_value key len fuel idx false false
      end
  end.

(** The found record and its number in HASH_SEARCH_STATE. *)
Definition my_hash_first_from_hash_value (h : HASH T R) (hash_value : Z) (key : list Z)
    (len : nat) (fast_path : bool) : option (option (nat * R)) :=
  if records h =? 0 then Some None
  else first_loop h hash_value key len (S (records h))
         (my_hash_mask hash_value (blength h) (records h)) true fast_path.

Definition my_calc_hash (h : HASH T R) (key : list Z) (len : nat) : Z :=
  calc_hash (take (if len =? 0 then key_length h else len) key).

Definition my_hash_first (h : HASH T R) (key : list Z) (len : nat) : option (option (nat * R)) :=
  if my_hash_inited h
  then my_hash_first_from_hash_value h (my_calc_hash h key len) key len false
  else Some None.

Definition my_hash_search (h : HASH T R) (key : list Z) (len : nat) : option (option R) :=
  r ← my_hash_first h key len; Some (option_map snd r).

Definition my_hash_search_using_hash_value (h : HASH T R) (hash_value : Z) (key : list Z)
    (len : nat) : option (option R) :=
  r ← my_hash_first_from_hash_value h hash_value key len false; Some (option_map snd r).

Definition my_hash_search_using_hash_value_fast (h : HASH T R) (hash_value : Z) (key : list Z)
    (len : nat) (fast_path : bool) : option (option R) :=
  r ← my_hash_first_from_hash_value h hash_value key len fast_path; Some (option_map snd r).

Fixpoint next_loop (h : HASH T R) (key : list Z) (len : nat) (fuel : nat) (idx : option nat)
    : option (option (nat * R)) :=
  match fuel with
  | O => None
  | S fuel =>
    match idx with
    | None => Some None
    | Some i =>
      pos ← links h !! i;
      if (hashcmp (data pos) key len =? 0)%Z then Some (Some (i, data pos))
      else next_loop h key len fuel (next pos)
    end
  end.

(** [current] is the state left by the previous search. *)
Definition my_hash_next (h : HASH T R) (key : list Z) (len : nat) (current : option nat)
    : option (option (nat * R)) :=
  match current with
  | None => Some None
  | Some c => pos ← links h !! c; next_loop h key len (S (records h)) (next pos)
  end.

(** *** Changing *)

Definition with_next (l : HASH_LINK R) (n : option nat) : HASH_LINK R := mk_link n (data l).

Fixpoint movelink (fuel : nat) (arr : list (HASH_LINK R)) (find : option nat)
    (next_link : nat) (newlink : option nat) : option (list (HASH_LINK R)) :=
  match fuel with
  | O => None
  | S fuel =>
    old ← arr !! next_link;
    if decide (next old = find) then Some (<[next_link := with_next old newlink]> arr)
    else i ← next old; movelink fuel arr find i newlink
  end.

(** The local variables of the splitting loop of my_hash_insert. *)
Record split_state : Type := mk_split {
  s_data : list (HASH_LINK R);
  s_flag : Z;
  s_empty : nat;
  s_gpos : nat;
  s_ptr_to_rec : R;
  s_gpos2 : nat;
  s_ptr_to_rec2 : R
}.

(** [g->data= rec; g->next= n]. *)
Definition set_link (arr : list (HASH_LINK R)) (g : nat) (rec : R) (n : option nat)
    : list (HASH_LINK R) := <[g := mk_link n rec]> arr.

(** One key that stays in the low bucket. *)
Definition split_low (s : split_state) (pos : nat) (rec : R) : split_state :=
  let flag := s_flag s in
  if negb (test (flag .& LOWFIND)) then
    if test (flag .& HIGHFIND) then
      mk_split (s_data s) (LOWFIND .| HIGHFIND) pos (s_empty s) rec (s_gpos2 s) (s_ptr_to_rec2 s)
    else
      mk_split (s_data s) (LOWFIND .| LOWUSED) (s_empty s) pos rec (s_gpos2 s) (s_ptr_to_rec2 s)
  else
    let '(d, flag) :=
      if negb (test (flag .& LOWUSED))
      then (set_link (s_data s) (s_gpos s) (s_ptr_to_rec s) (Some pos),
            (flag .& HIGHFIND) .| (LOWFIND .| LOWUSED))
      else (s_data s, flag) in
    mk_split d flag (s_empty s) pos rec (s_gpos2 s) (s_ptr_to_rec2 s).

(** One key that moves to the new bucket. *)
Definition split_high (s : split_state) (pos : nat) (rec : R) : split_state :=
  let flag := s_flag s in
  if negb (test (flag .& HIGHFIND)) then
    mk_split (s_data s) ((flag .& LOWFIND) .| HIGHFIND) pos (s_gpos s) (s_ptr_to_rec s)
             (s_empty s) rec
  else
    let '(d, flag) :=
      if negb (test (flag .& HIGHUSED))
      then (set_link (s_data s) (s_gpos2 s) (s_ptr_to_rec2 s) (Some pos),
            (flag .& LOWFIND) .| (HIGHFIND .| HIGHUSED))
      else (s_data s, flag) in
    mk_split d flag (s_empty s) (s_gpos s) (s_ptr_to_rec s) pos rec.

Fixpoint split_loop (bl n halfbuff first_index : nat) (fuel : nat) (s : split_state) (idx : nat)
    : option split_state :=
  match fuel with
  | O => None
  | S fuel =>
    pos ← s_data s !! idx;
    let hash_nr := rec_hashnr (data pos) in
    if (s_flag s =? 0)%Z && negb (my_hash_mask hash_nr bl n =? first_index) then Some s
    else
      let s := if negb (test (hash_nr .& Z.of_nat halfbuff)) then split_low s idx (data pos)
               else split_high s idx (data pos) in
      pos ← s_data s !! idx;
      match next pos with
      | None => Some s
      | Some idx => split_loop bl n halfbuff first_index fuel s idx
      end
  end.

(** The two assignments after the loop. *)
Definition split_end (s : split_state) : list (HASH_LINK R) * nat :=
  let d := if (s_flag s .& (LOWFIND .| LOWUSED) =? LOWFIND)%Z
           then set_link (s_data s) (s_gpos s) (s_ptr_to_rec s) None else s_data s in
  let d := if (s_flag s .& (HIGHFIND .| HIGHUSED) =? HIGHFIND)%Z
           then set_link d (s_gpos2 s) (s_ptr_to_rec2 s) None else d in
  (d, s_empty s).

(** Make room: returns the array and the empty position. *)
Definition split_bucket (bl n : nat) (d : list (HASH_LINK R)) (record : R)
    : option (list (HASH_LINK R) * nat) :=
  let halfbuff := bl / 2 in
  let first_index := n - halfbuff in
  if first_index =? n then Some (d, n)
  else
    s ← split_loop bl n halfbuff first_index (S n) (mk_split d 0 n 0 record 0 record) first_index;
    Some (split_end s).

(** Put the record into the array with the empty position [empty]. *)
Definition place_record (bl n : nat) (d : list (HASH_LINK R)) (empty : nat) (record : R)
    : option (list (HASH_LINK R)) :=
  let idx := my_hash_mask (rec_hashnr record) bl (S n) in
  if idx =? empty then Some (<[idx := mk_link None record]> d)
  else
    pos ← d !! idx;
    let d := <[empty := pos]> d in
    let gpos := my_hash_rec_mask (data pos) bl (S n) in
    if idx =? gpos then Some (<[idx := mk_link (Some empty) record]> d)
    else movelink (S n) (<[idx := mk_link None record]> d) (Some idx) gpos (Some empty).

(** Returns TRUE for a duplicate or when there is no memory. *)
Definition my_hash_insert (h : HASH T R) (record : R) : option (bool * HASH T R) :=
  dup ← (if test (HASH_UNIQUE .& flags h)
         then let key := my_hash_key record in
              r ← my_hash_search h key (length key); Some (bool_decide (is_Some r))
         else Some false);
  if dup : bool then Some (true, h)
  else
    match la_alloc (array h) with
    | None => Some (true, h)
    | Some t =>
      let n := records h in
      let bl := blength h in
      '(d, empty) ← split_bucket bl n (la_data t) record;
      d ← place_record bl n d empty record;
      let h := put_links (with_array h t) d in
      Some (false, with_records h (S n) (if S n =? bl then bl + bl else bl))
    end.

(** The search of my_hash_delete: the position of the record and the one before
    it in the chain. *)
Fixpoint find_record (d : list (HASH_LINK R)) (record : R) (fuel : nat) (pos : nat)
    (gpos : option nat) : option (option (nat * option nat)) :=
  match fuel with
  | O => None
  | S fuel =>
    l ← d !! pos;
    if decide (data l = record) then Some (Some (pos, gpos))
    else
      match next l with
      | None => Some None
      | Some i => find_record d record fuel i (Some pos)
      end
  end.

(** Take the record at [pos] out of its chain; returns the position that became
    free. *)
Definition unlink_record (d : list (HASH_LINK R)) (pos : nat) (gpos : option nat)
    : option (list (HASH_LINK R) * nat) :=
  l ← d !! pos;
  match gpos with
  | Some g => lg ← d !! g; Some (<[g := with_next lg (next l)]> d, pos)
  | None =>
    match next l with
    | Some e => le ← d !! e; Some (<[pos := le]> d, e)
    | None => Some (d, pos)
    end
  end.

(** Move the last link to the position [empty]; [n] records remain, [bl0] is the
    old and [bl] the new blength. *)
Definition move_last (bl0 bl n : nat) (d : list (HASH_LINK R)) (empty : nat)
    : option (list (HASH_LINK R)) :=
  if empty =? n then Some d
  else
    lastpos ← d !! n;
    let lastpos_hashnr := rec_hashnr (data lastpos) in
    let pos := my_hash_mask lastpos_hashnr bl n in
    if pos =? empty then Some (<[empty := lastpos]> d)
    else
      p ← d !! pos;
      let pos_hashnr := rec_hashnr (data p) in
      let pos3 := my_hash_mask pos_hashnr bl n in
      if negb (pos =? pos3) then
        movelink (S n) (<[pos := lastpos]> (<[empty := p]> d)) (Some pos) pos3 (Some empty)
      else
        let pos2 := my_hash_mask lastpos_hashnr bl0 (S n) in
        let same := pos2 =? my_hash_mask pos_hashnr bl0 (S n) in
        if same && negb (pos2 =? n) then
          movelink (S n) (<[empty := lastpos]> d) (Some n) pos (Some empty)
        else
          let idx := if same then Some pos else None in
          let d := <[empty := lastpos]> d in
          d ← movelink (S n) d idx empty (next p);
          p ← d !! pos;
          Some (<[pos := with_next p (Some empty)]> d).

(** The third result is the record given to [hash->free]. *)
Definition my_hash_delete (h : HASH T R) (record : R)
    : option (bool * HASH T R * option R) :=
  match records h with
  | O => Some (true, h, None)
  | S n =>
    let bl0 := blength h in
    let d := links h in
    r ← find_record d record (S (S n)) (my_hash_mask (rec_hashnr record) bl0 (S n)) None;
    match r with
    | None => Some (true, h, None)
    | Some (pos, gpos) =>
      let bl := if n <? bl0 / 2 then bl0 / 2 else bl0 in
      '(d, empty) ← unlink_record d pos gpos;
      d ← move_last bl0 bl n d empty;
      let h := with_records (put_links h d) n bl in
      Some (false, with_array h (la_pop (array h)), if free h then Some record else None)
    end
  end.

(** The duplicate check of my_hash_update: some other record has the key. *)
Fixpoint other_loop (h : HASH T R) (record : R) (key : list Z) (len : nat) (fuel : nat)
    (found : option (nat * R)) : option bool :=
  match fuel with
  | O => None
  | S fuel =>
    match found with
    | None => Some false
    | Some (state, r) =>
      if decide (r = record) then
        found ← my_hash_next h key len (Some state); other_loop h record key len fuel found
      else Some true
    end
  end.

(** Link the record back in: [org_link] was its link at [idx], [empty] is the
    position that became free, [new_index] the bucket of the new key. *)
Definition relink_record (bl n : nat) (d : list (HASH_LINK R)) (empty idx new_index : nat)
    (org_link : HASH_LINK R) : option (list (HASH_LINK R)) :=
  if new_index =? empty then
    let d := if negb (empty =? idx) then <[empty := org_link]> d else d in
    l ← d !! empty;
    Some (<[empty := with_next l None]> d)
  else
    pos ← d !! new_index;
    let new_pos_index := my_hash_rec_mask (data pos) bl n in
    if negb (new_index =? new_pos_index) then
      d ← movelink (S n) (<[empty := pos]> d) (Some new_index) new_pos_index (Some empty);
      Some (<[new_index := with_next org_link None]> d)
    else
      let d := <[empty := with_next org_link (next pos)]> d in
      l ← d !! new_index;
      Some (<[new_index := with_next l (Some empty)]> d).

(** The record's key has been changed already; [old_key] is the former one. *)
Definition my_hash_update (h : HASH T R) (record : R) (old_key : list Z) (old_key_length : nat)
    : option (bool * HASH T R) :=
  dup ← (if test (HASH_UNIQUE .& flags h)
         then let key := my_hash_key record in
              found ← my_hash_first h key (length key);
              other_loop h record key (length key) (S (records h)) found
         else Some false);
  if dup : bool then Some (true, h)
  else
    let d := links h in
    let bl := blength h in
    let n := records h in
    let idx := my_hash_mask (my_calc_hash h old_key old_key_length) bl n in
    let new_index := my_hash_mask (rec_hashnr record) bl n in
    if idx =? new_index then Some (false, h)
    else
      r ← find_record d record (S n) idx None;
      match r with
      | None => Some (true, h)
      | Some (idx, previous) =>
        org_link ← d !! idx;
        '(d, empty) ← unlink_record d idx previous;
        d ← relink_record bl n d empty idx new_index org_link;
        Some (false, put_links h d)
      end.

Definition my_hash_element (h : HASH T R) (idx : nat) : option R :=
  if idx <? records h then data <$> links h !! idx else None.

Definition my_hash_replace (h : HASH T R) (current_record : option nat) (new_row : R)
    : option (HASH T R) :=
  match current_record with
  | None => Some h
  | Some c => l ← links h !! c; Some (put_links h (<[c := mk_link (next l) new_row]> (links h)))
  end.

(** The inner loop of my_hash_check: follow one chain; returns the error flag
    and the count. *)
Fixpoint check_chain (h : HASH T R) (i : nat) (fuel : nat) (idx : option nat) (found : nat)
    : option (bool * nat) :=
  match fuel with
  | O => None
  | S fuel =>
    match idx with
    | None => Some (false, found)
    | Some j =>
      if found <? records h + 1 then
        l ← links h !! j;
        let wrong := negb (my_hash_rec_mask (data l) (blength h) (records h) =? i) in
        '(e, found) ← check_chain h i fuel (next l) (if wrong then found else S found);
        Some (e || (records h <=? j) || wrong, found)
      else Some (false, found)
    end
  end.

Fixpoint check_loop (h : HASH T R) (ps : list nat) (found : nat) : option (bool * nat) :=
  match ps with
  | [] => Some (false, found)
  | i :: ps =>
    l ← links h !! i;
    if my_hash_rec_mask (data l) (blength h) (records h) =? i then
      '(e, found) ← check_chain h i (S (records h)) (next l) (S found);
      '(e', found) ← check_loop h ps found;
      Some (e || e', found)
    else check_loop h ps found
  end.

(** TRUE is an error. *)
Definition my_hash_check (h : HASH T R) : option bool :=
  '(e, found) ← check_loop h (seq 0 (records h)) 0;
  Some (e || negb (found =? records h)).
End Operations.
