(* ===== verification/HashChains.v ===== *)
(** * The structure of a hash table: chains

    Lemmas on mysys/hash.c shared by the files on insertion, searching and
    deletion: the bucket function of linear hashing and how it changes when the
    table grows by one, the chains of links that make up a table with at most
    one empty position, and movelink. *)

From stdpp Require Import prelude list list_numbers.
From Stdlib Require Import ZArith Lia ZifyNat.
From S2P Require Import Prelude DynArray HashTable.

Open Scope nat_scope.

(** ** The mask *)

(** A table of [n] records has the mask length [bl]. *)
Definition sizes_ok (bl n : nat) : Prop :=
  (n = 0 /\ bl = 1) \/ (exists k, bl = 2 ^ S k /\ 2 ^ k <= n < 2 ^ S k).

Lemma land_mod h k : Z.land h (Z.of_nat (2 ^ k) - 1) = (h mod 2 ^ Z.of_nat k)%Z.
Proof.
  rewrite Nat2Z.inj_pow. rewrite <- Z.land_ones by lia. f_equal.
  rewrite Z.ones_equiv. change (Z.of_nat 2) with 2%Z. lia.
Qed.

(** The bucket of a hash value in a table of size [n >= 1]. *)
Lemma my_hash_mask_spec h k n :
  2 ^ k <= n <= 2 ^ S k -> (0 <= h)%Z ->
  my_hash_mask h (2 ^ S k) n =
    (if Z.to_nat (h mod 2 ^ Z.of_nat (S k)) <? n then Z.to_nat (h mod 2 ^ Z.of_nat (S k))
     else Z.to_nat (h mod 2 ^ Z.of_nat k)) /\ my_hash_mask h (2 ^ S k) n < n.
Proof.
  intros Hn Hh. unfold my_hash_mask. rewrite land_mod.
  replace (2 ^ S k / 2) with (2 ^ k) by (rewrite Nat.pow_succ_r', Nat.mul_comm, Nat.div_mul; lia).
  rewrite land_mod. split; [done|]. case_if; [done|].
  pose proof (Z.mod_pos_bound h (2 ^ Z.of_nat k) ltac:(apply Z.pow_pos_nonneg; lia)).
  pose proof (Nat2Z.inj_pow 2 k). lia.
Qed.

Lemma test_half h k : test (Z.land h (Z.of_nat (2 ^ k))) = Z.testbit h (Z.of_nat k).
Proof.
  unfold test. rewrite Nat2Z.inj_pow. change (Z.of_nat 2) with 2%Z.
  destruct (Z.testbit h (Z.of_nat k)) eqn:E.
  - apply negb_true_iff, Z.eqb_neq. intros H0.
    pose proof (Z.bits_0 (Z.of_nat k)) as Hb. rewrite <- H0, Z.land_spec, E, Z.pow2_bits_true in Hb by lia.
    done.
  - apply negb_false_iff, Z.eqb_eq. apply Z.bits_inj'. intros i Hi.
    rewrite Z.land_spec, Z.bits_0, Z.pow2_bits_eqb by lia.
    destruct (Z.of_nat k =? i)%Z eqn:Ei; b2p; [by rewrite <- Ei, E|apply andb_false_r].
Qed.

Lemma mod_bit h k :
  (h mod 2 ^ Z.of_nat (S k) =
   h mod 2 ^ Z.of_nat k + (if Z.testbit h (Z.of_nat k) then 2 ^ Z.of_nat k else 0))%Z.
Proof.
  rewrite Nat2Z.inj_succ, Z.pow_succ_r by lia.
  set (m := (2 ^ Z.of_nat k)%Z). assert (0 < m)%Z by (apply Z.pow_pos_nonneg; lia).
  rewrite (Z.mul_comm 2), Z.rem_mul_r by lia.
  pose proof (Z.testbit_spec' h (Z.of_nat k) ltac:(lia)) as Hb. fold m in Hb.
  rewrite <- Hb. destruct (Z.testbit h (Z.of_nat k)); simpl Z.b2z; lia.
Qed.

(** One record more moves exactly the keys of bucket [n - 2^k] with bit [k]. *)
Lemma my_hash_mask_grow h k n :
  2 ^ k <= n < 2 ^ S k -> (0 <= h)%Z ->
  my_hash_mask h (2 ^ S k) (S n) =
    if (my_hash_mask h (2 ^ S k) n =? n - 2 ^ k) && Z.testbit h (Z.of_nat k) then n
    else my_hash_mask h (2 ^ S k) n.
Proof.
  intros Hn Hh.
  rewrite (proj1 (my_hash_mask_spec h k (S n) ltac:(lia) Hh)).
  rewrite (proj1 (my_hash_mask_spec h k n ltac:(lia) Hh)).
  rewrite mod_bit.
  pose proof (Z.mod_pos_bound h (2 ^ Z.of_nat k) ltac:(apply Z.pow_pos_nonneg; lia)) as Hy.
  pose proof (Nat2Z.inj_pow 2 k) as Hp. change (Z.of_nat 2) with 2%Z in Hp. rewrite <- Hp in *.
  rewrite Nat.pow_succ_r' in Hn.
  set (y := (h mod Z.of_nat (2 ^ k))%Z) in *. set (m := 2 ^ k) in *. clearbody y m.
  destruct (Z.testbit h (Z.of_nat k)); rewrite ?andb_true_r, ?andb_false_r;
    repeat case_match; b2p; lia.
Qed.

(** The mask length may be doubled when the table is full. *)
Lemma my_hash_mask_double h k :
  (0 <= h)%Z -> my_hash_mask h (2 ^ S k) (2 ^ k) = my_hash_mask h (2 ^ k) (2 ^ k).
Proof.
  intros Hh. rewrite (proj1 (my_hash_mask_spec h k (2 ^ k) ltac:(rewrite Nat.pow_succ_r'; lia) Hh)).
  unfold my_hash_mask. rewrite land_mod, mod_bit.
  pose proof (Z.mod_pos_bound h (2 ^ Z.of_nat k) ltac:(apply Z.pow_pos_nonneg; lia)) as Hy.
  pose proof (Nat2Z.inj_pow 2 k) as Hp. change (Z.of_nat 2) with 2%Z in Hp. rewrite <- Hp in *.
  destruct (Z.testbit h (Z.of_nat k)); repeat (case_if; try lia).
Qed.

(** ** Chains *)

Lemma lookup_insert_dec {A} (l : list A) i j x :
  i < length l -> <[i := x]> l !! j = if decide (j = i) then Some x else l !! j.
Proof.
  intros Hi. case_decide as E.
  - subst. by apply list_lookup_insert_eq.
  - by apply list_lookup_insert_ne.
Qed.

(** *** Arrays as multisets of records *)

Lemma insert_Permutation {A} (l : list A) i x :
  i < length l -> <[i := x]> l ≡ₚ x :: delete i l.
Proof.
  intros Hi. rewrite insert_take_drop, delete_take_drop by done. symmetry. apply Permutation_middle.
Qed.

(** The element of [i] moves to [e], whose content is lost. *)
Lemma move_Permutation {A} (l : list A) i e y :
  i <> e -> l !! i = Some y -> e < length l -> delete i (<[e := y]> l) ≡ₚ delete e l.
Proof.
  intros Hne Hi He. apply (Permutation_cons_inv (a := y)).
  rewrite <- delete_Permutation by (by rewrite list_lookup_insert_ne).
  by apply insert_Permutation.
Qed.

Section Chains.
Context {R : Type}.
Implicit Types (ls : list (HASH_LINK R)) (C : nat -> list nat).

(** [L] is the chain of bucket [b]: it starts at [b], follows the links and
    holds records of that bucket. *)
Record chain (hm : R -> nat) ls (b : nat) (L : list nat) : Prop := {
  ch_link : forall k p, L !! k = Some p ->
    exists r, ls !! p = Some (mk_link (L !! S k) r) /\ hm r = b;
  ch_head : forall p, L !! 0 = Some p -> p = b;
  ch_nodup : NoDup L
}.

(** [C b] is the chain of every bucket [b], and together the chains hold every
    position but the empty one [e]. *)
Record family (hm : R -> nat) ls (e : option nat) C : Prop := {
  fam_chain : forall b, chain hm ls b (C b);
  fam_cover : forall p, p < length ls -> Some p <> e -> exists b, p ∈ C b;
  fam_empty : forall b p, e = Some p -> p ∉ C b
}.

Definition set_chain C (b : nat) (L : list nat) : nat -> list nat :=
  fun x => if decide (x = b) then L else C x.

Lemma chain_mem hm ls b L p :
  chain hm ls b L -> p ∈ L -> exists l, ls !! p = Some l /\ hm (data l) = b.
Proof.
  intros Hc Hp. apply list_elem_of_lookup in Hp as [k Hk].
  destruct (ch_link _ _ _ _ Hc _ _ Hk) as (r & Hr & Hb). eauto.
Qed.

Lemma chain_lt hm ls b L p : chain hm ls b L -> p ∈ L -> p < length ls.
Proof. intros Hc Hp. destruct (chain_mem _ _ _ _ _ Hc Hp) as (l & Hl & _). by apply lookup_lt_Some in Hl. Qed.

(** A position is in one chain only. *)
Lemma chain_one hm ls b b' L L' p :
  chain hm ls b L -> chain hm ls b' L' -> p ∈ L -> p ∈ L' -> b = b'.
Proof.
  intros Hc Hc' Hp Hp'. destruct (chain_mem _ _ _ _ _ Hc Hp) as (l & Hl & Hb).
  destruct (chain_mem _ _ _ _ _ Hc' Hp') as (l' & Hl' & Hb'). congruence.
Qed.

Lemma chain_length hm ls b L : chain hm ls b L -> length L <= length ls.
Proof.
  intros Hc. rewrite <- (length_seq (length ls) 0).
  apply submseteq_length, NoDup_submseteq; [apply Hc|].
  intros p Hp. apply elem_of_seq. apply (chain_lt _ _ _ _ _ Hc) in Hp. lia.
Qed.

Lemma chain_nil hm ls b : chain hm ls b [].
Proof. split; [done|done|apply NoDup_nil_2]. Qed.

(** Links outside the chain and the buckets of other records do not matter. *)
Lemma chain_frame hm hm' ls ls' b L :
  chain hm ls b L -> (forall p, p ∈ L -> ls' !! p = ls !! p) ->
  (forall p l, p ∈ L -> ls !! p = Some l -> hm' (data l) = b) -> chain hm' ls' b L.
Proof.
  intros [Hl Hh Hn] Hsame Hhm. split; [|done|done]. intros k p Hk.
  apply list_elem_of_lookup_2 in Hk as Hin.
  destruct (Hl k p Hk) as (r & Hr & _). exists r. split; [by rewrite Hsame|].
  by apply (Hhm p (mk_link (L !! S k) r)).
Qed.

Lemma chain_frame' hm ls ls' b L :
  chain hm ls b L -> (forall p, p ∈ L -> ls' !! p = ls !! p) -> chain hm ls' b L.
Proof.
  intros Hc Hsame. apply (chain_frame hm hm ls ls'); [done|done|].
  intros p l Hp Hl. destruct (chain_mem _ _ _ _ _ Hc Hp) as (l' & Hl' & Hb). congruence.
Qed.

(** The element after [pk] moves to the position [e]. *)
Lemma chain_redirect hm ls ls' b L k pk q e rk :
  chain hm ls b L -> L !! k = Some pk -> L !! S k = Some q -> e ∉ L ->
  ls' !! pk = Some (mk_link (Some e) rk) -> hm rk = b -> ls' !! e = ls !! q ->
  (forall p, p ∈ L -> p <> pk -> p <> q -> ls' !! p = ls !! p) ->
  chain hm ls' b (<[S k := e]> L).
Proof.
  intros [Hl Hh Hn] Hk Hq He Hpk Hrk Hle Hkeep.
  pose proof (lookup_lt_Some _ _ _ Hq) as Hlt. split.
  - intros i p. rewrite lookup_insert_dec by done. case_decide as E.
    + intros [= <-]. subst i. destruct (Hl (S k) q Hq) as (r & Hr & Hb). exists r.
      rewrite Hle, Hr. split; [|done]. rewrite list_lookup_insert_ne by lia. done.
    + intros Hi. destruct (Hl i p Hi) as (r & Hr & Hb). destruct (decide (i = k)) as [->|Hik].
      * assert (p = pk) as -> by congruence. exists rk. rewrite Hpk. split; [|done].
        by rewrite lookup_insert_dec, decide_True.
      * exists r. split; [|done]. rewrite Hkeep, Hr.
        -- rewrite list_lookup_insert_ne by lia. done.
        -- by apply list_elem_of_lookup_2 with i.
        -- intros ->. apply Hik. by apply (NoDup_lookup _ _ _ _ Hn Hi Hk).
        -- intros ->. apply E. by apply (NoDup_lookup _ _ _ _ Hn Hi Hq).
  - intros p. rewrite list_lookup_insert_ne by lia. apply Hh.
  - apply NoDup_alt. intros i j p. rewrite !lookup_insert_dec by done.
    repeat case_decide; intros Hi Hj; simplify_eq; try done.
    + exfalso. by apply He, list_elem_of_lookup_2 with j.
    + exfalso. by apply He, list_elem_of_lookup_2 with i.
    + by apply (NoDup_lookup _ _ _ _ Hn Hi Hj).
Qed.

(** When the record at [b] belongs elsewhere, or [b] is empty, bucket [b] is. *)
Lemma family_nil hm ls e C b :
  family hm ls e C -> (e = Some b \/ exists l, ls !! b = Some l /\ hm (data l) <> b) -> C b = [].
Proof.
  intros Hf Hor. pose proof (fam_chain _ _ _ _ Hf b) as Hc.
  destruct (C b) as [|p L] eqn:E; [done|exfalso].
  assert (p = b) as -> by (by apply (ch_head _ _ _ _ Hc)).
  destruct Hor as [->|(l & Hl & Hne)].
  - apply (fam_empty _ _ _ _ Hf b b); [done|]. rewrite E. left.
  - apply Hne. destruct (chain_mem _ _ _ _ b Hc) as (l' & Hl' & Hb); [left|]. congruence.
Qed.

(** The chain of the bucket of a record. *)
Lemma family_bucket hm ls e C p l :
  family hm ls e C -> ls !! p = Some l -> Some p <> e ->
  p ∈ C (hm (data l)) /\ exists L, C (hm (data l)) = hm (data l) :: L.
Proof.
  intros Hf Hl Hne. pose proof (lookup_lt_Some _ _ _ Hl) as Hlt.
  destruct (fam_cover _ _ _ _ Hf p Hlt Hne) as [b Hb].
  pose proof (fam_chain _ _ _ _ Hf b) as Hc.
  destruct (chain_mem _ _ _ _ _ Hc Hb) as (l' & Hl' & <-). simplify_eq. split; [done|].
  destruct (C (hm (data l))) as [|q L] eqn:E; [by apply not_elem_of_nil in Hb|].
  assert (q = hm (data l)) as -> by (by apply (ch_head _ _ _ _ Hc)). eauto.
Qed.

(** The same inside a family: the hole moves to where the element was. *)
Lemma family_move hm ls ls' e C b k pk q rk :
  family hm ls (Some e) C -> C b !! k = Some pk -> C b !! S k = Some q ->
  length ls' = length ls -> ls' !! pk = Some (mk_link (Some e) rk) -> hm rk = b ->
  ls' !! e = ls !! q ->
  (forall p, p <> pk -> p <> q -> p <> e -> ls' !! p = ls !! p) ->
  family hm ls' (Some q) (set_chain C b (<[S k := e]> (C b))).
Proof.
  intros Hf Hk Hq Hlen Hpk Hrk Hle Hkeep.
  assert (forall b, e ∉ C b) as Hnoe by (intros b'; by apply (fam_empty _ _ _ _ Hf)).
  pose proof (fam_chain _ _ _ _ Hf b) as Hc. pose proof (ch_nodup _ _ _ _ Hc) as Hnd.
  pose proof (lookup_lt_Some _ _ _ Hq) as Hlt.
  apply list_elem_of_lookup_2 in Hk as Hpkin. apply list_elem_of_lookup_2 in Hq as Hqin.
  split; unfold set_chain.
  - intros b'. case_decide as E.
    + subst b'. apply (chain_redirect hm ls ls' b (C b) k pk q e rk); try done.
      intros p Hp Hn1 Hn2. apply Hkeep; [done|done|]. intros ->. by apply (Hnoe b).
    + apply (chain_frame' hm ls); [apply Hf|]. pose proof (fam_chain _ _ _ _ Hf b') as Hc'.
      intros p Hp. apply Hkeep; intros ->.
      * by apply E, (chain_one _ _ _ _ _ _ _ Hc' Hc Hp).
      * by apply E, (chain_one _ _ _ _ _ _ _ Hc' Hc Hp).
      * by apply (Hnoe b').
  - intros p Hp Hne. rewrite Hlen in Hp. destruct (decide (p = e)) as [->|Hpe].
    + exists b. rewrite decide_True by done. apply list_elem_of_lookup_2 with (S k).
      by apply list_lookup_insert_eq.
    + destruct (fam_cover _ _ _ _ Hf p Hp ltac:(congruence)) as [b' Hb]. exists b'.
      case_decide as E; [|done]. subst b'. apply list_elem_of_lookup in Hb as [i Hi].
      apply list_elem_of_lookup_2 with i. rewrite list_lookup_insert_ne; [done|]. congruence.
  - intros b' p [= <-]. case_decide as E.
    + subst b'. intros [i Hi]%list_elem_of_lookup. rewrite lookup_insert_dec in Hi by done.
      case_decide; [simplify_eq; by apply (Hnoe (hm rk))|].
      pose proof (NoDup_lookup _ _ _ _ Hnd Hi Hq). lia.
    + intros Hp. by apply E, (chain_one _ _ _ _ _ _ _ (fam_chain _ _ _ _ Hf b') Hc Hp).
Qed.

(** The empty position becomes the second of the chain of [b]. *)
Lemma family_second hm ls ls' e C b l x y :
  family hm ls (Some e) C -> b <> e -> ls !! b = Some l -> hm (data l) = b -> length ls' = length ls ->
  ls' !! b = Some (mk_link (Some e) x) -> ls' !! e = Some (mk_link (next l) y) -> hm x = b -> hm y = b ->
  (forall p, p <> b -> p <> e -> ls' !! p = ls !! p) ->
  exists L, C b = b :: L /\ family hm ls' None (set_chain C b (b :: e :: L)).
Proof.
  intros Hf Hne Hl Hhome Hlen Hb He Hx Hy Hkeep.
  destruct (family_bucket _ _ _ _ _ _ Hf Hl) as (_ & L & HL); [congruence|].
  rewrite Hhome in HL. exists L. split; [done|].
  assert (forall b, e ∉ C b) as Hnoe by (intros b'; by apply (fam_empty _ _ _ _ Hf)).
  pose proof (fam_chain _ _ _ _ Hf b) as Hc. pose proof (ch_nodup _ _ _ _ Hc) as Hnd.
  rewrite HL in Hnd. apply NoDup_cons in Hnd as [Hn1 Hn2].
  assert (e ∉ L) as Hn3 by (intros ?; apply (Hnoe b); rewrite HL; by right).
  split; unfold set_chain.
  - intros b'. case_decide as E.
    + subst b'. split; [|intros p ?; by simplify_eq/=|].
      2:{ apply NoDup_cons; split; [|by apply NoDup_cons]. rewrite elem_of_cons. naive_solver. }
      intros k p Hk. destruct k as [|[|k]]; simpl in Hk.
      * injection Hk as <-. by exists x.
      * injection Hk as <-. destruct (ch_link _ _ _ _ Hc 0 b) as (r0 & Hr0 & _); [by rewrite HL|].
        rewrite HL, Hl in Hr0. injection Hr0 as ->. exists y. by destruct L.
      * destruct (ch_link _ _ _ _ Hc (S k) p) as (r' & Hr' & Hb'); [by rewrite HL|].
        apply list_elem_of_lookup_2 in Hk. rewrite HL in Hr'. exists r'.
        by rewrite Hkeep by (intros ->; done).
    + apply (chain_frame' hm ls); [apply Hf|]. intros p Hp. apply Hkeep; intros ->; [|by apply (Hnoe b')].
      apply E, (chain_one _ _ _ _ _ _ _ (fam_chain _ _ _ _ Hf b') Hc Hp). rewrite HL. left.
  - intros p Hp _. rewrite Hlen in Hp. destruct (decide (p = e)) as [->|Hne'].
    + exists b. rewrite decide_True by done. right. left.
    + destruct (fam_cover _ _ _ _ Hf p Hp ltac:(congruence)) as [b' Hb']. exists b'.
      case_decide; [|done]. subst b'. rewrite HL in Hb'. apply elem_of_cons in Hb' as [->|?];
        [left|by do 2 right].
  - done.
Qed.

(** The bucket function may change if it does not for the records of the table. *)
Lemma family_rehome (hm hm' : R -> nat) ls e C :
  family hm ls e C -> (forall p l, Some p <> e -> ls !! p = Some l -> hm' (data l) = hm (data l)) ->
  family hm' ls e C.
Proof.
  intros Hf Hext. split; [|apply Hf|apply Hf]. intros b.
  apply (chain_frame hm hm' ls ls); [apply Hf|done|]. intros p l Hp Hl.
  destruct (chain_mem _ _ _ _ _ (fam_chain _ _ _ _ Hf b) Hp) as (l' & Hl' & Hb).
  assert (l = l') as <- by congruence. rewrite (Hext p l); [done| |done].
  intros He. by apply (fam_empty _ _ _ _ Hf b p).
Qed.

(** *** movelink *)

Lemma movelink_spec ls P k find start new fuel :
  P !! 0 = Some start -> k < length P -> k < fuel ->
  (forall i p, i <= k -> P !! i = Some p -> exists r, ls !! p = Some (mk_link (P !! S i) r)) ->
  P !! S k = find -> (forall i, i < k -> P !! S i <> find) ->
  exists p r, P !! k = Some p /\ ls !! p = Some (mk_link find r) /\
    movelink fuel ls find start new = Some (<[p := mk_link new r]> ls).
Proof.
  revert P start fuel. induction k as [|k IH]; intros P start fuel H0 Hk Hfuel Hlinks Hfind Hbefore;
    (destruct fuel as [|fuel]; [lia|]); cbn [movelink];
    destruct (Hlinks 0 start ltac:(lia) H0) as (r & Hr); rewrite Hr; obind; cbn [next].
  - rewrite Hfind, decide_True by done. exists start, r. by rewrite Hr, Hfind.
  - rewrite decide_False by (apply Hbefore; lia).
    destruct P as [|p0 P]; [done|]. simpl in H0. simplify_eq.
    destruct P as [|p1 P]; [simpl in Hk; lia|]. cbn. 
    destruct (IH (p1 :: P) p1 fuel) as (p & r' & H1 & H2 & H3); [done|simpl in *; lia|lia| | | |].
    + intros i p Hi Hp. apply (Hlinks (S i) p); [lia|done].
    + done.
    + intros i Hi. apply (Hbefore (S i)). lia.
    + exists p, r'. done.
Qed.

(** The link at [q], not the head of its chain, moves to the empty position [e]
    and movelink changes the link to it; what the array has at [q] meanwhile
    does not matter. *)
Lemma movelink_move hm ls e C q l ls1 fuel :
  family hm ls (Some e) C -> e < length ls -> q <> e -> ls !! q = Some l -> hm (data l) <> q ->
  length ls <= fuel -> (forall p, p <> q -> p <> e -> ls1 !! p = ls !! p) ->
  exists pk lk C', movelink fuel ls1 (Some q) (hm (data l)) (Some e) = Some (<[pk := lk]> ls1) /\
    pk <> q /\ pk ∈ C (hm (data l)) /\ family hm (<[pk := lk]> (<[e := l]> ls)) (Some q) C'.
Proof.
  intros Hf He Hne Hl Hhome Hfuel Hls1. set (c := hm (data l)) in *.
  destruct (family_bucket _ _ _ _ _ _ Hf Hl) as (Hin & L & HL); [congruence|]. fold c in Hin, HL.
  pose proof (fam_chain _ _ _ _ Hf c) as Hc. pose proof (ch_nodup _ _ _ _ Hc) as Hnd.
  apply list_elem_of_lookup in Hin as [k0 Hk0].
  destruct k0 as [|k]; [rewrite HL in Hk0; simpl in Hk0; congruence|].
  assert (forall i p, C c !! i = Some p -> i <> S k -> p <> q /\ p <> e) as Hout.
  { intros i p Hi Hik. split; intros ->; [by apply Hik, (NoDup_lookup _ _ _ _ Hnd Hi Hk0)|].
    by apply (fam_empty _ _ _ _ Hf c e), list_elem_of_lookup_2 with i. }
  destruct (movelink_spec ls1 (C c) k (Some q) c (Some e) fuel) as (pk & rk & Hpk & Hlk & Hml).
  { by rewrite HL. } { apply lookup_lt_Some in Hk0. lia. }
  { apply lookup_lt_Some in Hk0. pose proof (chain_length _ _ _ _ Hc). lia. }
  { intros i p Hi Hp. destruct (Hout i p Hp ltac:(lia)). rewrite Hls1 by done.
    destruct (ch_link _ _ _ _ Hc i p Hp) as (r' & Hr' & _). eauto. }
  { done. }
  { intros i Hi Hbad. assert (S i = S k); [|lia]. by apply (NoDup_lookup _ _ _ _ Hnd Hbad Hk0). }
  destruct (Hout k pk Hpk ltac:(lia)) as [Hpkq Hpke]. rewrite Hls1 in Hlk by done.
  eexists pk, (mk_link (Some e) rk), _. split; [exact Hml|]. split; [done|].
  split; [by apply list_elem_of_lookup_2 in Hpk|].
  apply (family_move hm ls _ e C c k pk q rk); try done.
  - by rewrite !length_insert.
  - apply list_lookup_insert_eq. rewrite length_insert. by apply lookup_lt_Some in Hlk.
  - destruct (ch_link _ _ _ _ Hc k pk Hpk) as (r' & Hr' & Hb'). congruence.
  - rewrite list_lookup_insert_ne, list_lookup_insert_eq by done. done.
  - intros p H1 H2 H3. by rewrite !list_lookup_insert_ne by done.
Qed.

Lemma movelink_data fuel ls find start new ls' :
  movelink fuel ls find start new = Some ls' -> map data ls' = map data ls /\ length ls' = length ls.
Proof.
  revert start. induction fuel as [|fuel IH]; intros start; cbn [movelink]; [done|].
  destruct (ls !! start) as [old|] eqn:E; [|done]. obind. case_decide.
  - intros [= <-]. split; [|by rewrite length_insert].
    apply list_eq. intros i. rewrite !list_lookup_fmap, lookup_insert_dec by (by apply lookup_lt_Some in E).
    case_decide; [subst i; by rewrite E|done].
  - destruct (next old) as [i|]; [|done]. obind. apply IH.
Qed.
End Chains.

(** ** Parts of chains *)

Lemma last_elem_of (L : list nat) p : last L = Some p -> p ∈ L.
Proof. rewrite last_lookup. apply list_elem_of_lookup_2. Qed.

Section Segments.
Context {R : Type} (hm : R -> nat).
Implicit Types (ls : list (HASH_LINK R)).

(** The positions [P] are linked, hold records of bucket [b], and the last one
    links to [x]. *)
Definition lseg ls (b : nat) (P : list nat) (x : option nat) : Prop :=
  forall k p, P !! k = Some p ->
    exists r, ls !! p = Some (mk_link (from_option Some x (P !! S k)) r) /\ hm r = b.

Lemma lseg_nil ls b x : lseg ls b [] x.
Proof. done. Qed.

(** The links of [P] but the last are kept, the last one is changed to [y]. *)
Lemma lseg_relink ls ls' b P x y :
  NoDup P -> lseg ls b P x ->
  (forall p l, p ∈ P -> ls !! p = Some l ->
     ls' !! p = Some (if decide (last P = Some p) then with_next l y else l)) ->
  lseg ls' b P y.
Proof.
  intros Hnd Hs Hsame k p Hk. destruct (Hs k p Hk) as (r & Hr & Hb). exists r. split; [|done].
  rewrite (Hsame p _ (list_elem_of_lookup_2 _ _ _ Hk) Hr). unfold with_next. cbn [data].
  case_decide as E.
  - rewrite last_lookup in E. pose proof (NoDup_lookup _ _ _ _ Hnd Hk E) as ->.
    rewrite (lookup_ge_None_2 P); [done|]. apply lookup_lt_Some in Hk. lia.
  - destruct (P !! S k) eqn:E'; [done|]. exfalso. apply E. rewrite last_lookup, <- Hk. f_equal.
    apply lookup_ge_None in E'. apply lookup_lt_Some in Hk. lia.
Qed.

Lemma lseg_frame ls ls' b P x :
  lseg ls b P x -> (forall p, p ∈ P -> ls' !! p = ls !! p) -> lseg ls' b P x.
Proof.
  intros Hs Hsame k p Hk. rewrite Hsame by (by apply list_elem_of_lookup_2 with k). by apply Hs.
Qed.

Lemma lseg_snoc ls b P q x r :
  lseg ls b P (Some q) -> ls !! q = Some (mk_link x r) -> hm r = b -> lseg ls b (P ++ [q]) x.
Proof.
  intros Hs Hq Hr k p Hk. apply lookup_app_Some in Hk as [Hk|[Hlen Hk]].
  - destruct (Hs k p Hk) as (r' & Hr' & Hb'). exists r'. split; [|done]. rewrite Hr'. do 2 f_equal.
    destruct (P !! S k) eqn:E; [by rewrite (lookup_app_l_Some _ _ _ _ E)|].
    apply lookup_ge_None in E. apply lookup_lt_Some in Hk. rewrite lookup_app_r by done.
    by replace (S k - length P) with 0 by lia.
  - destruct (k - length P) eqn:E; [|done]. simpl in Hk. simplify_eq. exists r.
    rewrite (lookup_ge_None_2 (P ++ [p])) by (rewrite length_app; simpl; lia). done.
Qed.

Lemma lseg_chain ls b P :
  lseg ls b P None -> NoDup P -> (forall p, P !! 0 = Some p -> p = b) -> chain hm ls b P.
Proof.
  intros Hs Hnd Hh. split; [|done|done]. intros k p Hk. destruct (Hs k p Hk) as (r & Hr & Hb).
  exists r. by destruct (P !! S k).
Qed.

Lemma chain_lseg ls b P : chain hm ls b P -> lseg ls b P None.
Proof.
  intros Hc k p Hk. destruct (ch_link _ _ _ _ Hc k p Hk) as (r & Hr & Hb). exists r.
  by destruct (P !! S k).
Qed.

Lemma lseg_cons ls b p P x :
  lseg ls b (p :: P) x <->
  (exists r, ls !! p = Some (mk_link (from_option Some x (head P)) r) /\ hm r = b) /\ lseg ls b P x.
Proof.
  split.
  - intros Hs. split; [|intros k q Hk; by apply (Hs (S k))].
    destruct (Hs 0 p eq_refl) as (r & Hr & Hb). exists r. by destruct P.
  - intros [(r & Hr & Hb) Hs] [|k] q Hk; [|by apply Hs]. injection Hk as <-. exists r. by destruct P.
Qed.

Lemma lseg_app ls b P Q x :
  lseg ls b (P ++ Q) x <-> lseg ls b P (from_option Some x (head Q)) /\ lseg ls b Q x.
Proof.
  induction P as [|p P IH]; [split; [by intros ?; split|by intros []]|].
  simpl. rewrite !lseg_cons, IH. destruct P; simpl; tauto.
Qed.

(** movelink changes the link at the end of a segment. *)
Lemma movelink_lseg ls b p P x y : forall fuel,
  lseg ls b (p :: P) x -> NoDup (p :: P) -> (forall q, x = Some q -> q ∉ p :: P) -> length P < fuel ->
  exists ls', movelink fuel ls x p y = Some ls' /\ lseg ls' b (p :: P) y /\
    (forall q, q ∉ p :: P -> ls' !! q = ls !! q).
Proof.
  revert p. induction P as [|q P IH]; intros p fuel [(r & Hr & Hb) Hs]%lseg_cons [Hp Hnd]%NoDup_cons Hx Hf;
    (destruct fuel as [|fuel]; [simpl in Hf; lia|]); cbn [movelink]; rewrite Hr; obind; cbn [next head from_option].
  - rewrite decide_True by done. eexists. split; [done|]. split.
    + apply lseg_cons. split; [|done]. exists r. rewrite list_lookup_insert_eq; [done|].
      by apply lookup_lt_Some in Hr.
    + intros q Hq. apply list_lookup_insert_ne. intros ->. apply Hq. left.
  - rewrite decide_False.
    2:{ intros <-. apply (Hx q eq_refl). right. left. }
    destruct (IH q fuel Hs Hnd) as (ls' & Hm & Hs' & Hframe); [|simpl in Hf; lia|].
    { intros z Hz Hin. apply (Hx z Hz). by right. }
    exists ls'. split; [done|]. split.
    + apply lseg_cons. split; [|done]. exists r. by rewrite Hframe.
    + intros z Hz. apply Hframe. intros Hin. apply Hz. by right.
Qed.
End Segments.

(** ** The invariant of a table *)

Section Invariant.
Context {T R : Type} `{LinkArrayLaws T (HASH_LINK R)}.
Context (my_hash_key : R -> list Z) (hash_sort : list Z -> Z).

(** The bucket of a record. *)
Definition home (bl n : nat) (r : R) : nat := my_hash_rec_mask my_hash_key hash_sort r bl n.

Lemma mask_home bl n r : my_hash_mask (rec_hashnr my_hash_key hash_sort r) bl n = home bl n r.
Proof. done. Qed.

(** Every record is in the chain of its bucket. *)
Record hash_ok (h : HASH T R) : Prop := {
  ok_array : la_inv (array h);
  ok_length : length (links h) = records h;
  ok_sizes : sizes_ok (blength h) (records h);
  ok_chains : exists C, family (home (blength h) (records h)) (links h) None C
}.

Lemma rec_hashnr_nonneg r : (0 <= rec_hashnr my_hash_key hash_sort r)%Z.
Proof. unfold rec_hashnr, calc_hash. pose proof (u32_range (hash_sort (my_hash_key r))). lia. Qed.

Lemma mask_lt bl n h : sizes_ok bl n -> 0 < n -> (0 <= h)%Z -> my_hash_mask h bl n < n.
Proof.
  intros [[-> ->]|(k & -> & Hk)] Hn Hh; [lia|]. apply my_hash_mask_spec; [lia|done].
Qed.

Lemma home_lt bl n r : sizes_ok bl n -> 0 < n -> home bl n r < n.
Proof. intros Hs Hn. apply mask_lt; [done|done|]. apply rec_hashnr_nonneg. Qed.

Lemma family_ext (hm hm' : R -> nat) ls e C :
  (forall r, hm r = hm' r) -> family hm ls e C -> family hm' ls e C.
Proof. intros Hext Hf. by apply (family_rehome hm). Qed.

Lemma hash_inited h : hash_ok h -> my_hash_inited h = true.
Proof.
  intros Hok. unfold my_hash_inited. destruct (ok_sizes _ Hok) as [[_ ->]|(k & -> & _)]; [done|].
  apply negb_true_iff, Nat.eqb_neq, Nat.pow_nonzero. lia.
Qed.
End Invariant.
