(* ===== verification/HashSearch.v ===== *)
(** * Hash tables: searching

    my_hash_first and my_hash_next visit exactly the records with the key. *)

From stdpp Require Import prelude list list_numbers.
From Stdlib Require Import ZArith Lia ZifyNat.
From S2P Require Import Prelude DynArray HashTable HashChains.

Open Scope nat_scope.

Section Search.
Context {T R : Type} `{LinkArrayLaws T (HASH_LINK R)}.
Context (my_hash_key : R -> list Z) (hash_sort : list Z -> Z) (my_strnncoll : list Z -> list Z -> Z).

(** The first of the positions [P] whose record satisfies [f]. *)
Fixpoint first_of (f : R -> bool) (ls : list (HASH_LINK R)) (P : list nat) : option (nat * R) :=
  match P with
  | [] => None
  | p :: P =>
    match ls !! p with
    | Some l => if f (data l) then Some (p, data l) else first_of f ls P
    | None => None
    end
  end.

(** The positions follow the links and end. *)
Definition linked (ls : list (HASH_LINK R)) (P : list nat) : Prop :=
  forall k p, P !! k = Some p -> exists r, ls !! p = Some (mk_link (P !! S k) r).

Lemma linked_cons ls p P :
  linked ls (p :: P) -> linked ls P /\ exists r, ls !! p = Some (mk_link (head P) r).
Proof.
  intros Hl. split; [intros k q Hk; by apply (Hl (S k))|].
  destruct (Hl 0 p eq_refl) as [r Hr]. exists r. by destruct P.
Qed.

Lemma linked_drop ls k P : linked ls P -> linked ls (drop k P).
Proof.
  intros Hl i q Hi. rewrite lookup_drop in Hi. destruct (Hl _ _ Hi) as [r Hr]. exists r.
  by rewrite lookup_drop, Nat.add_succ_r.
Qed.

Lemma next_loop_spec h key len P : forall fuel,
  linked (links h) P -> length P < fuel ->
  next_loop my_hash_key my_strnncoll h key len fuel (head P) =
    Some (first_of (fun r => (hashcmp my_hash_key my_strnncoll r key len =? 0)%Z) (links h) P).
Proof.
  induction P as [|p P IH]; intros fuel Hl Hf; (destruct fuel as [|fuel]; [simpl in Hf; lia|]); cbn [next_loop head first_of]; [done|].
  apply linked_cons in Hl as [Hl [r Hr]]. rewrite Hr. obind. cbn [data next].
  case_match; [done|]. apply IH; [done|simpl in Hf; lia].
Qed.

Lemma first_loop_spec h hv key len P flag : forall fuel,
  linked (links h) P -> length P <= fuel ->
  (flag = true -> forall p l, head P = Some p -> links h !! p = Some l ->
     my_hash_rec_mask my_hash_key hash_sort (data l) (blength h) (records h) = p) ->
  forall p, head P = Some p ->
  first_loop my_hash_key hash_sort my_strnncoll h hv key len fuel p flag false =
    Some (first_of (fun r => hash_match my_hash_key my_strnncoll h hv r key len) (links h) P).
Proof.
  revert flag. induction P as [|p P IH]; intros flag fuel Hl Hf Hflag p' Hp; [done|].
  injection Hp as <-. destruct fuel as [|fuel]; [simpl in Hf; lia|]. cbn [first_loop first_of].
  apply linked_cons in Hl as [Hl [r Hr]]. rewrite Hr. obind. cbn [data next andb orb].
  case_match eqn:Em; [done|].
  replace (flag && _) with false.
  2:{ destruct flag; [|done]. rewrite <- (Hflag eq_refl p _ eq_refl Hr). cbn [data].
      by rewrite Nat.eqb_refl. }
  destruct P as [|q P]; [done|]. simpl head. apply IH; [done|simpl in *; lia|done|done].
Qed.

Lemma chain_linked hm ls b L : chain hm ls b L -> linked ls L.
Proof. intros Hc k p Hk. destruct (ch_link _ _ _ _ Hc k p Hk) as (r & Hr & _). eauto. Qed.

(** *** Positions and records *)

Definition pick (f : R -> bool) (ls : list (HASH_LINK R)) (p : nat) : option R :=
  l ← ls !! p; if f (data l) then Some (data l) else None.

Lemma omap_dom {A B} (g : A -> option B) (P Q : list A) :
  NoDup P -> NoDup Q -> (forall p, is_Some (g p) -> p ∈ P <-> p ∈ Q) -> omap g P ≡ₚ omap g Q.
Proof.
  intros HP HQ Hdom.
  assert (forall l : list A, omap g l = omap g (filter (fun p => is_Some (g p)) l)) as Hfil.
  { induction l as [|x l IH]; [done|]. rewrite filter_cons. case_decide as E; cbn.
    - destruct (g x); by rewrite IH.
    - apply eq_None_not_Some in E. by rewrite E. }
  rewrite (Hfil P), (Hfil Q). apply omap_Permutation, NoDup_Permutation; [by apply NoDup_filter..|].
  intros p. rewrite !list_elem_of_filter. naive_solver.
Qed.

Lemma filter_pick f ls :
  filter (fun r => f r = true) (map data ls) = omap (pick f ls) (seq 0 (length ls)).
Proof.
  assert (forall k, omap (pick f ls) (seq k (length ls - k)) =
    filter (fun r => f r = true) (map data (drop k ls))) as Hk; [|specialize (Hk 0); by rewrite Nat.sub_0_r in Hk].
  intros k. remember (length ls - k) as m eqn:Em. revert k Em.
  induction m as [|m IH]; intros k Em.
  - by rewrite drop_ge by lia.
  - destruct (lookup_lt_is_Some_2 ls k) as [l Hl]; [lia|].
    rewrite (drop_S _ _ _ Hl). cbn [seq omap list_omap map]. rewrite filter_cons, IH by lia.
    unfold pick at 1. rewrite Hl. obind. destruct (f (data l)); by case_decide.
Qed.

(** The matching records are those of one chain. *)
Lemma chain_matches hm ls C f b :
  family hm ls None C -> (forall r, r ∈ map data ls -> f r = true -> hm r = b) ->
  filter (fun r => f r = true) (map data ls) ≡ₚ omap (pick f ls) (C b).
Proof.
  intros Hf Hb. rewrite filter_pick. pose proof (fam_chain _ _ _ _ Hf b) as Hc.
  apply omap_dom; [apply NoDup_seq|apply Hc|]. intros p [r Hr]. unfold pick in Hr.
  destruct (ls !! p) as [l|] eqn:El; [|done]. simpl in Hr.
  destruct (f (data l)) eqn:Ef; [|done].
  assert (hm (data l) = b) as <-.
  { apply Hb; [|done]. apply list_elem_of_fmap. exists l. split; [done|]. by apply list_elem_of_lookup_2 in El. }
  rewrite elem_of_seq. pose proof (lookup_lt_Some _ _ _ El).
  destruct (family_bucket _ _ _ _ _ _ Hf El) as [Hin _]; [done|]. split; [done|lia].
Qed.

Lemma first_of_spec f ls P :
  linked ls P ->
  match first_of f ls P with
  | None => omap (pick f ls) P = []
  | Some (p, r) => exists k, P !! k = Some p /\ (exists l, ls !! p = Some l /\ data l = r /\ f r = true) /\
      omap (pick f ls) P = r :: omap (pick f ls) (drop (S k) P)
  end.
Proof.
  induction P as [|p P IH]; intros Hl; [done|]. apply linked_cons in Hl as [Hl [r Hr]].
  assert (omap (pick f ls) (p :: P) = (if f r then [r] else []) ++ omap (pick f ls) P) as Ho.
  { cbn. unfold pick at 1. rewrite Hr. cbn. by destruct (f r). }
  rewrite Ho. cbn [first_of]. rewrite Hr. cbn [data]. destruct (f r) eqn:Ef.
  - exists 0. rewrite Hr. split; [done|]. split; [eauto|]. done.
  - specialize (IH Hl). destruct (first_of f ls P) as [[q r']|]; [|done].
    destruct IH as (k & Hk & Hq & Ho'). exists (S k). split; [done|]. split; [done|]. exact Ho'.
Qed.

(** *** my_hash_first and my_hash_next *)

(** The loop of the callers: my_hash_first, then my_hash_next to the end. *)
Fixpoint scan (h : HASH T R) (key : list Z) (len : nat) (fuel : nat) (found : option (nat * R))
    : option (list R) :=
  match fuel with
  | O => None
  | S fuel =>
    match found with
    | None => Some []
    | Some (i, r) =>
      found ← my_hash_next my_hash_key my_strnncoll h key len (Some i);
      rs ← scan h key len fuel found;
      Some (r :: rs)
    end
  end.

Definition search_all (h : HASH T R) (key : list Z) (len : nat) : option (list R) :=
  found ← my_hash_first my_hash_key hash_sort my_strnncoll h key len;
  scan h key len (S (S (records h))) found.

Definition key_is (key : list Z) (len : nat) (r : R) : bool :=
  (hashcmp my_hash_key my_strnncoll r key len =? 0)%Z.

(** What the table relies on: equal keys of the collation have equal hashes,
    get_hash returns the hash of the key, and a search with the length 0 is for
    keys of fixed length. *)
Record searchable (h : HASH T R) (len : nat) : Prop := {
  se_coll : forall a b, my_strnncoll a b = 0%Z -> hash_sort a = hash_sort b;
  se_hash : forall f r, get_hash h = Some f -> f r = rec_hashnr my_hash_key hash_sort r;
  se_len : len = 0 -> forall r, r ∈ map data (links h) -> length (my_hash_key r) = key_length h
}.

Lemma key_is_hash h key len r :
  searchable h len -> r ∈ map data (links h) -> key_is key len r = true ->
  rec_hashnr my_hash_key hash_sort r = my_calc_hash hash_sort h key len.
Proof.
  intros Hs Hin Hk. unfold key_is, hashcmp in Hk. unfold rec_hashnr, my_calc_hash, calc_hash. f_equal.
  destruct (negb (len =? 0) && negb (len =? length (my_hash_key r))) eqn:E; b2p; [done|].
  rewrite (se_coll _ _ Hs _ _ Hk). do 2 f_equal.
  apply andb_false_iff in E as [E|E]; b2p.
  - subst len. by apply (se_len _ _ Hs).
  - subst len. case_if; [|done]. by apply (se_len _ _ Hs).
Qed.

Lemma hash_match_key h key len r :
  searchable h len -> r ∈ map data (links h) ->
  hash_match my_hash_key my_strnncoll h (my_calc_hash hash_sort h key len) r key len = key_is key len r.
Proof.
  intros Hs Hin. unfold hash_match. fold (key_is key len r).
  destruct (key_is key len r) eqn:E; [|by rewrite andb_false_r]. rewrite andb_true_r.
  destruct (get_hash h) as [f|] eqn:Ef; [|done]. case_if; [|done]. apply Z.eqb_eq.
  rewrite (se_hash _ _ Hs f r Ef). symmetry. by apply key_is_hash.
Qed.

Lemma first_of_ext f g ls P :
  (forall r, r ∈ map data ls -> f r = g r) -> first_of f ls P = first_of g ls P.
Proof.
  intros Hfg. induction P as [|p P IH]; [done|]. cbn [first_of].
  destruct (ls !! p) as [l|] eqn:El; [|done]. rewrite Hfg, IH; [done|].
  apply list_elem_of_fmap. exists l. split; [done|]. by apply list_elem_of_lookup_2 in El.
Qed.

Lemma next_of_linked h key len P k p :
  linked (links h) P -> length P <= records h -> P !! k = Some p ->
  my_hash_next my_hash_key my_strnncoll h key len (Some p) =
    Some (first_of (key_is key len) (links h) (drop (S k) P)).
Proof.
  intros Hl Hlen Hk. unfold my_hash_next.
  destruct (Hl k p Hk) as [r Hr]. rewrite Hr. obind. cbn [next].
  replace (P !! S k) with (head (drop (S k) P)) by (rewrite head_lookup, lookup_drop; f_equal; lia).
  apply next_loop_spec; [by apply linked_drop|solve_len].
Qed.

Section Table.
Context (h : HASH T R) (C : nat -> list nat) (key : list Z) (len : nat).
Context (Hok : hash_ok my_hash_key hash_sort h) (Hse : searchable h len).
Context (Hfam : family (home my_hash_key hash_sort (blength h) (records h)) (links h) None C).

Let bucket : nat := my_hash_mask (my_calc_hash hash_sort h key len) (blength h) (records h).

Lemma bucket_linked : linked (links h) (C bucket) /\ length (C bucket) <= records h.
Proof.
  pose proof (fam_chain _ _ _ _ Hfam bucket) as Hc. split; [by apply chain_linked in Hc|].
  rewrite <- (ok_length _ _ _ Hok). by apply (chain_length _ _ _ _ Hc).
Qed.

Lemma my_hash_first_spec :
  my_hash_first my_hash_key hash_sort my_strnncoll h key len =
    Some (first_of (key_is key len) (links h) (C bucket)).
Proof.
  unfold my_hash_first. rewrite (hash_inited _ _ h Hok). unfold my_hash_first_from_hash_value.
  destruct bucket_linked as [Hl Hlen].
  destruct (records h =? 0) eqn:E0; b2p.
  { destruct (C bucket); [done|simpl in Hlen; lia]. }
  fold bucket. rewrite <- (first_of_ext _ _ (links h) (C bucket) (fun r => hash_match_key h key len r Hse)).
  destruct (C bucket) as [|p L] eqn:EC.
  - assert (bucket < length (links h)) as Hlt.
    { rewrite (ok_length _ _ _ Hok). apply mask_lt; [apply Hok|lia|].
      unfold my_calc_hash, calc_hash. apply u32_range. }
    destruct (lookup_lt_is_Some_2 _ _ Hlt) as [l El]. cbn [first_loop first_of]. rewrite El. obind.
    assert (home my_hash_key hash_sort (blength h) (records h) (data l) <> bucket) as Hhome.
    { intros Hb. destruct (family_bucket _ _ _ _ _ _ Hfam El) as [_ [L HL]]; [done|].
      rewrite Hb, EC in HL. done. }
    assert (data l ∈ map data (links h)) as Hin.
    { apply list_elem_of_fmap. exists l. split; [done|]. by apply list_elem_of_lookup_2 in El. }
    cbn [andb orb]. rewrite hash_match_key by done. destruct (key_is key len (data l)) eqn:Ek.
    { exfalso. apply Hhome. unfold home, my_hash_rec_mask. by rewrite (key_is_hash h key len). }
    unfold home in Hhome. apply Nat.eqb_neq in Hhome. by rewrite Hhome.
  - assert (p = bucket) as ->.
    { apply (ch_head _ _ _ _ (fam_chain _ _ _ _ Hfam bucket)). by rewrite EC. }
    rewrite <- EC. apply (first_loop_spec h _ key len (C bucket) true); [by rewrite EC|rewrite EC; lia| |by rewrite EC].
    intros _ p l Hp Hpl. rewrite EC in Hp. injection Hp as <-.
    destruct (chain_mem _ _ _ _ bucket (fam_chain _ _ _ _ Hfam bucket)) as (l' & Hl' & Hb); [rewrite EC; left|].
    assert (l = l') as -> by congruence. exact Hb.
Qed.

Lemma my_hash_next_spec k p :
  C bucket !! k = Some p ->
  my_hash_next my_hash_key my_strnncoll h key len (Some p) =
    Some (first_of (key_is key len) (links h) (drop (S k) (C bucket))).
Proof. intros Hk. by apply next_of_linked; [apply bucket_linked..|]. Qed.

Lemma scan_spec fuel : forall k,
  length (drop k (C bucket)) < fuel ->
  scan h key len fuel (first_of (key_is key len) (links h) (drop k (C bucket))) =
    Some (omap (pick (key_is key len) (links h)) (drop k (C bucket))).
Proof.
  induction fuel as [|fuel IH]; intros k Hf; [lia|]. cbn [scan].
  assert (linked (links h) (drop k (C bucket))) as Hl.
  { apply linked_drop, bucket_linked. }
  pose proof (first_of_spec (key_is key len) _ _ Hl) as Hsp.
  destruct (first_of _ _ _) as [[p r]|]; [|by rewrite Hsp].
  destruct Hsp as (k' & Hk & _ & Ho). rewrite lookup_drop in Hk.
  rewrite (my_hash_next_spec (k + k') p Hk). obind. rewrite Ho, drop_drop.
  pose proof (lookup_lt_Some _ _ _ Hk) as Hlt. rewrite length_drop in Hf.
  replace (k + S k') with (S (k + k')) by lia.
  rewrite IH by solve_len. done.
Qed.

Lemma search_all_spec :
  search_all h key len = Some (omap (pick (key_is key len) (links h)) (C bucket)) /\
  my_hash_search my_hash_key hash_sort my_strnncoll h key len =
    Some (head (omap (pick (key_is key len) (links h)) (C bucket))) /\
  omap (pick (key_is key len) (links h)) (C bucket) ≡ₚ
    filter (fun r => key_is key len r = true) (map data (links h)).
Proof.
  destruct bucket_linked as [Hl Hlen]. unfold search_all, my_hash_search. rewrite my_hash_first_spec. obind.
  split; [|split].
  - apply (scan_spec (S (S (records h))) 0). rewrite drop_0. lia.
  - pose proof (first_of_spec (key_is key len) _ _ Hl) as Hsp.
    destruct (first_of _ _ _) as [[p r]|]; [|by rewrite Hsp].
    destruct Hsp as (k & _ & _ & ->). done.
  - symmetry. apply (chain_matches _ _ _ _ bucket Hfam). intros r Hr Hk.
    unfold home, my_hash_rec_mask. by rewrite (key_is_hash h key len).
Qed.
End Table.

(** C10.  Searching: the loop over my_hash_first and my_hash_next returns every
    record of the table whose key is equal to the searched one, each once, and
    my_hash_search returns the first of them or NULL when there is none; no
    link leaves the array and no chain is endless. *)
Theorem my_hash_search_correct h key len :
  hash_ok my_hash_key hash_sort h -> searchable h len ->
  exists rs, search_all h key len = Some rs /\
    my_hash_search my_hash_key hash_sort my_strnncoll h key len = Some (head rs) /\
    rs ≡ₚ filter (fun r => key_is key len r = true) (map data (links h)).
Proof.
  intros Hok Hse. destruct (ok_chains _ _ _ Hok) as [C Hf].
  eexists. by apply (search_all_spec h C key len).
Qed.
End Search.

(** ** An example

    A table of three numbers with the identity as hash; 0 and 4 share a chain. *)

Definition ex_key (r : nat) : list Z := [Z.of_nat r].
Definition ex_sort (k : list Z) : Z := hd 0%Z k.
Definition ex_coll (a b : list Z) : Z := if decide (a = b) then 0%Z else 1%Z.
Definition ex_alloc : allocator (HASH_LINK nat) := fun _ => Some (fun _ => mk_link None 99).

#[export] Instance ex_ops : LinkArray (DYNAMIC_ARRAY (HASH_LINK nat)) (HASH_LINK nat) :=
  dynamic_array_ops ex_alloc.
#[export] Instance ex_laws : LinkArrayLaws (DYNAMIC_ARRAY (HASH_LINK nat)) (HASH_LINK nat) :=
  dynamic_array_laws ex_alloc.

Definition ex_table : HASH (DYNAMIC_ARRAY (HASH_LINK nat)) nat :=
  mk_hash 1 4 3 HASH_UNIQUE
    (mk_array (HeapBuf [mk_link (Some 2) 4; mk_link None 1; mk_link None 0]) 3 3 2 16) false None.

Definition ex_chains (b : nat) : list nat :=
  match b with 0 => [0; 2] | 1 => [1] | _ => [] end.

Lemma ex_ok : hash_ok ex_key ex_sort ex_table.
Proof.
  split.
  - split; simpl; lia.
  - done.
  - right. exists 1. simpl. lia.
  - exists ex_chains. split.
    + intros [|[|b]]; [| |apply chain_nil]; split.
      * intros [|[|k]] p Hk; simplify_eq/=; eexists; split; reflexivity.
      * by intros p [= <-].
      * apply NoDup_cons; split; [by intros ?%list_elem_of_singleton|apply NoDup_singleton].
      * intros [|k] p Hk; simplify_eq/=; eexists; split; reflexivity.
      * by intros p [= <-].
      * apply NoDup_singleton.
    + intros [|[|[|p]]] Hp _; [exists 0; left|exists 1; left|exists 0; right; left|simpl in Hp; lia].
    + done.
Qed.

Lemma ex_searchable len :
  len <> 0 -> searchable ex_key ex_sort ex_coll ex_table len.
Proof.
  intros Hlen. split; [|done|done]. intros a b. unfold ex_coll. case_decide as E; [|done]. by rewrite E.
Qed.

Lemma my_hash_search_correct_witness :
  exists rs, search_all ex_key ex_sort ex_coll ex_table [4%Z] 1 = Some rs /\
    my_hash_search ex_key ex_sort ex_coll ex_table [4%Z] 1 = Some (head rs) /\ rs ≡ₚ [4].
Proof.
  destruct (my_hash_search_correct ex_key ex_sort ex_coll ex_table [4%Z] 1) as (rs & H1 & H2 & H3).
  - exact ex_ok.
  - apply ex_searchable. discriminate.
  - exists rs. split; [exact H1|]. split; [exact H2|exact H3].
Defined.
