(* ===== verification/HashInsert.v ===== *)
(** * Hash tables: insertion

    my_hash_insert splits the bucket that the new size divides, which leaves an
    empty position, and puts the record into the table.  The splitting loop
    keeps two partial chains, one of them linked to the keys left to do; the
    theorem is that the table stays well-formed and gains exactly the record. *)

From stdpp Require Import prelude list list_numbers.
From Stdlib Require Import ZArith Lia ZifyNat.
From S2P Require Import Prelude DynArray HashTable HashChains HashSearch.

Open Scope nat_scope.

(** ** Insertion: placing the record *)

Section Place.
Context {R : Type}.
Implicit Types (ls : list (HASH_LINK R)) (C : nat -> list nat).

(** The empty position is the record's bucket. *)
Lemma place_empty hm ls e C r :
  family hm ls (Some e) C -> e < length ls -> hm r = e ->
  family hm (<[e := mk_link None r]> ls) None (set_chain C e [e]).
Proof.
  intros Hf He Hr. pose proof (family_nil _ _ _ _ e Hf (or_introl eq_refl)) as Hnil.
  split; unfold set_chain.
  - intros b. case_decide as E.
    + subst b. split; [|intros p ?; by simplify_eq/=|apply NoDup_singleton].
      intros [|k] p Hk; simplify_eq/=. exists r. by rewrite lookup_insert_dec, decide_True.
    + apply (chain_frame' hm ls); [apply Hf|]. intros p Hp.
      rewrite list_lookup_insert_ne; [done|]. intros ->. by apply (fam_empty _ _ _ _ Hf b p).
  - intros p Hp _. rewrite length_insert in Hp. destruct (decide (p = e)) as [->|Hne].
    + exists e. rewrite decide_True by done. left.
    + destruct (fam_cover _ _ _ _ Hf p Hp ltac:(congruence)) as [b Hb]. exists b.
      case_decide; [|done]. subst b. rewrite Hnil in Hb. by apply not_elem_of_nil in Hb.
  - done.
Qed.

(** The bucket has records: the new one becomes its head, the old head moves to
    the empty position. *)
Lemma place_head hm ls e C r l :
  family hm ls (Some e) C -> e < length ls -> hm r <> e ->
  ls !! hm r = Some l -> hm (data l) = hm r ->
  exists L, C (hm r) = hm r :: L /\
    family hm (<[hm r := mk_link (Some e) r]> (<[e := l]> ls)) None
           (set_chain C (hm r) (hm r :: e :: L)).
Proof.
  intros Hf He Hne Hl Hhome. apply lookup_lt_Some in Hl as Hb0.
  apply (family_second hm ls _ e C (hm r) l r (data l)); try done.
  - by rewrite !length_insert.
  - rewrite list_lookup_insert_eq; [done|by rewrite length_insert].
  - rewrite list_lookup_insert_ne, list_lookup_insert_eq by done. by destruct l.
  - intros p H1 H2. by rewrite !list_lookup_insert_ne by done.
Qed.

(** The bucket is empty but its position is taken: the record there moves to
    the empty position of its own chain. *)
Lemma place_evict hm ls e C r l fuel :
  family hm ls (Some e) C -> e < length ls -> hm r <> e ->
  ls !! hm r = Some l -> hm (data l) <> hm r -> length ls <= fuel ->
  exists ls' C', movelink fuel (<[hm r := mk_link None r]> (<[e := l]> ls))
    (Some (hm r)) (hm (data l)) (Some e) = Some ls' /\ family hm ls' None C'.
Proof.
  intros Hf He Hne Hl Hhome Hfuel.
  destruct (movelink_move hm ls e C (hm r) l (<[hm r := mk_link None r]> (<[e := l]> ls)) fuel)
    as (pk & lk & C' & Hml & Hpk & _ & Hf'); try done.
  { intros p H1 H2. by rewrite !list_lookup_insert_ne by done. }
  rewrite (list_insert_insert_ne (<[e := l]> ls) pk (hm r)) in Hml by done.
  eexists _, _. split; [exact Hml|]. apply place_empty; [done| |done].
  rewrite !length_insert. by apply lookup_lt_Some in Hl.
Qed.
End Place.

Section Record.
Context {R : Type} (my_hash_key : R -> list Z) (hash_sort : list Z -> Z).

(** The record and those that were there, in a table without an empty position. *)
Lemma place_record_spec bl n (d : list (HASH_LINK R)) empty record C :
  let hm r := my_hash_rec_mask my_hash_key hash_sort r bl (S n) in
  family hm d (Some empty) C -> empty < length d -> length d = S n -> hm record < length d ->
  exists d' C', place_record my_hash_key hash_sort bl n d empty record = Some d' /\
    family hm d' None C' /\ length d' = length d /\
    map data d' ≡ₚ record :: map data (delete empty d).
Proof.
  intros hm Hf He Hn Hlt. unfold place_record. fold (my_hash_rec_mask my_hash_key hash_sort record bl (S n)).
  change (my_hash_rec_mask my_hash_key hash_sort record bl (S n)) with (hm record). case_if.
  { subst empty. eexists _, _. split; [done|]. split; [by apply place_empty|].
    rewrite length_insert. split; [done|]. by rewrite insert_Permutation by done. }
  destruct (lookup_lt_is_Some_2 d (hm record)) as [l Hl]; [done|]. rewrite Hl. obind.
  change (my_hash_rec_mask my_hash_key hash_sort (data l) bl (S n)) with (hm (data l)).
  assert (forall x, data x = record -> map data (<[hm record := x]> (<[empty := l]> d)) ≡ₚ
    record :: map data (delete empty d)) as Hperm.
  { intros x Hx. rewrite insert_Permutation by (by rewrite length_insert).
    cbn [map]. by rewrite Hx, move_Permutation. }
  case_if.
  - destruct (place_head hm d empty C record l) as (L & _ & Hf'); try done.
    eexists _, _. split; [done|]. split; [done|]. rewrite !length_insert. by split; [|apply Hperm].
  - destruct (place_evict hm d empty C record l (S n)) as (d' & C' & Hd & Hf'); [done..|lia|].
    eexists _, _. split; [done|]. split; [done|].
    apply movelink_data in Hd as [Hd1 Hd2]. rewrite Hd1, Hd2, !length_insert.
    by split; [|apply Hperm].
Qed.
End Record.

(** ** Insertion: splitting a bucket *)

(** While the bucket [b0] of the table [d] with the chain [P] is split towards
    the new position [n]: the table [E] with the empty position [e] has two
    partial chains, [A] for the bucket [a] and [B] for [b]; [ua] and [ub] tell
    whether the last element still links to the keys [Q] left to do. *)
Section Splitting.
Context {R : Type} (hm : R -> nat) (d : list (HASH_LINK R)) (P : list nat) (n : nat).

Record splitting (E : list (HASH_LINK R)) (e : nat)
    (a : nat) (A : list nat) (ua : bool) (b : nat) (B : list nat) (ub : bool) (Q : list nat) : Prop := {
  sp_a : lseg hm E a A (if ua then head Q else None);
  sp_b : lseg hm E b B (if ub then head Q else None);
  sp_ha : forall p, A !! 0 = Some p -> p = a;
  sp_hb : forall p, B !! 0 = Some p -> p = b;
  sp_q : forall p, p ∈ Q -> E !! p = d !! p;
  sp_perm : e :: A ++ B ++ Q ≡ₚ n :: P;
  sp_frame : forall p, p ∉ n :: P -> E !! p = d !! p;
  sp_len : length E = length d;
  sp_data : map data (delete e E) ≡ₚ map data (delete n d)
}.

Lemma splitting_swap E e a A ua b B ub Q :
  splitting E e a A ua b B ub Q -> splitting E e b B ub a A ua Q.
Proof. intros []. split; try done. by rewrite (app_assoc B A), (Permutation_app_comm B A), <- app_assoc. Qed.

(** The links after a step: [last A] and, if [ub] is to be given up, [last B]
    change. *)
Definition relink (A : list nat) (x : option nat) (B : list nat) (ub : bool)
    (p : nat) (l : HASH_LINK R) : HASH_LINK R :=
  if decide (last A = Some p) then with_next l x
  else if decide (ub = true /\ last B = Some p) then with_next l None else l.

Context (Hnd : NoDup (n :: P)).

(** The four parts are apart. *)
Lemma splitting_apart E e a A ua b B ub Q :
  splitting E e a A ua b B ub Q ->
  (NoDup A /\ NoDup B /\ NoDup Q) /\ ((e ∉ A) /\ (e ∉ B) /\ (e ∉ Q)) /\
  (forall p, p ∈ A -> p ∉ B) /\ (forall p, p ∈ A -> p ∉ Q) /\ (forall p, p ∈ B -> p ∉ Q).
Proof.
  intros Hs. rewrite <- (sp_perm _ _ _ _ _ _ _ _ _ Hs) in Hnd.
  apply NoDup_cons in Hnd as [He Hnd']. apply NoDup_app in Hnd' as (HnA & HdA & HnB).
  apply NoDup_app in HnB as (HnB & HdB & HnQ). rewrite !not_elem_of_app in He.
  split_and!; try tauto; intros p Hp.
  - intros HB. apply (HdA p Hp), elem_of_app. by left.
  - intros HQ. apply (HdA p Hp), elem_of_app. by right.
Qed.

Lemma relink_other A x B ub p l : p ∉ A -> p ∉ B -> relink A x B ub p l = l.
Proof.
  intros HA HB. unfold relink. rewrite decide_False by (by intros ?%last_elem_of).
  rewrite decide_False; [done|]. by intros [_ ?%last_elem_of].
Qed.

Lemma relink_a A x B ub p l :
  p ∉ B -> relink A x B ub p l = if decide (last A = Some p) then with_next l x else l.
Proof.
  intros HB. unfold relink. case_decide; [done|].
  rewrite decide_False; [done|]. by intros [_ ?%last_elem_of].
Qed.

(** The other chain, given up or not, is a complete one afterwards. *)
Lemma relink_b E E' b A x B ub Q :
  NoDup B -> (forall p, p ∈ B -> p ∉ A) -> lseg hm E b B (if ub : bool then head Q else None) ->
  (forall p, p ∈ B -> E' !! p = relink A x B ub p <$> E !! p) -> lseg hm E' b B None.
Proof.
  intros HnB HBA Hb HE'. apply (lseg_relink hm E E' b B (if ub then head Q else None)); [done..|].
  intros p l Hp Hl. rewrite HE', Hl by done. simpl. f_equal. unfold relink.
  rewrite decide_False by (intros ?%last_elem_of; by apply (HBA p)). destruct ub.
  - apply decide_ext. naive_solver.
  - rewrite decide_False by naive_solver. case_decide as El; [|done].
    destruct (Hb (pred (length B)) p) as (r & Hr & _); [by rewrite <- last_lookup|].
    rewrite (lookup_ge_None_2 B) in Hr by lia. rewrite Hl in Hr. by injection Hr as ->.
Qed.

(** The next key goes to the end of a chain that has keys already. *)
Lemma splitting_append E E' e a A ua b B ub q Q l :
  splitting E e a A ua b B ub (q :: Q) -> A <> [] ->
  E !! q = Some l -> next l = head Q -> hm (data l) = a -> length E' = length E ->
  (forall p, E' !! p = relink A (Some q) B ub p <$> E !! p) ->
  splitting E' e a (A ++ [q]) true b B false Q.
Proof.
  intros Hs HA Hq Hnext Hl Hlen HE'.
  destruct (splitting_apart _ _ _ _ _ _ _ _ _ Hs) as ((HnA & HnB & HnQ) & (HeA & HeB & HeQ) & HAB & HAQ & HBQ).
  assert (forall p, p ∉ A -> p ∉ B -> E' !! p = E !! p) as Hframe.
  { intros p Hp1 Hp2. rewrite HE'. destruct (E !! p); [|done]. simpl. by rewrite relink_other. }
  split.
  - apply (lseg_snoc hm E' a A q (head Q) (data l)).
    + apply (lseg_relink hm E E' a A (if ua then head (q :: Q) else None)); [done|apply Hs|].
      intros p l' Hp Hl'. rewrite HE', Hl'. simpl. by rewrite relink_a by (by apply HAB).
    + rewrite Hframe, Hq; [by destruct l; simpl in *; subst| |]; intros Hin.
      * apply (HAQ q Hin). left.
      * apply (HBQ q Hin). left.
    + done.
  - apply (relink_b E E' b A (Some q) B ub (q :: Q)); [done| |apply Hs|].
    + intros p HB HA'. by apply (HAB p).
    + intros p _. apply HE'.
  - intros p. destruct A as [|x A]; [done|]. apply (sp_ha _ _ _ _ _ _ _ _ _ Hs).
  - apply Hs.
  - intros p Hp. rewrite Hframe; [apply Hs; by right| |]; intros Hin.
    + apply (HAQ p Hin). by right.
    + apply (HBQ p Hin). by right.
  - rewrite <- (sp_perm _ _ _ _ _ _ _ _ _ Hs). apply perm_skip.
    rewrite <- app_assoc. apply Permutation_app_head. simpl. apply Permutation_middle.
  - intros p Hp. rewrite <- (sp_frame _ _ _ _ _ _ _ _ _ Hs p Hp).
    rewrite <- (sp_perm _ _ _ _ _ _ _ _ _ Hs), not_elem_of_cons, !not_elem_of_app in Hp.
    apply Hframe; tauto.
  - rewrite Hlen. apply Hs.
  - rewrite <- (sp_data _ _ _ _ _ _ _ _ _ Hs). change (@map) with (@fmap list _).
    rewrite !list_fmap_delete.
    replace (data <$> E') with (data <$> E); [done|]. apply list_eq. intros p.
    rewrite !list_lookup_fmap, HE'. destruct (E !! p); [|done]. simpl. unfold relink.
    by repeat case_decide.
Qed.

(** The first key of a chain goes to the empty position, its bucket. *)
Lemma splitting_move E E' e ua b B ub q Q l :
  splitting E e e [] ua b B ub (q :: Q) -> e < length E ->
  E !! q = Some l -> hm (data l) = e -> length E' = length E ->
  (forall p, E' !! p = if decide (p = e) then Some (mk_link None (data l))
                       else relink [] None B ub p <$> E !! p) ->
  splitting E' q e [e] false b B false Q.
Proof.
  intros Hs He Hq Hl Hlen HE'.
  destruct (splitting_apart _ _ _ _ _ _ _ _ _ Hs) as ((_ & HnB & HnQ) & (_ & HeB & HeQ) & _ & _ & HBQ).
  rewrite not_elem_of_cons in HeQ.
  assert (forall p, p <> e -> p ∉ B -> E' !! p = E !! p) as Hframe.
  { intros p Hp1 Hp2. rewrite HE', decide_False by done. destruct (E !! p); [|done]. simpl.
    by rewrite relink_other by (done || apply not_elem_of_nil). }
  split.
  - intros [|k] p Hp; simplify_eq/=. exists (data l). by rewrite HE', decide_True.
  - apply (relink_b E E' b [] None B ub (q :: Q)); [done| |apply Hs|].
    + intros p _. apply not_elem_of_nil.
    + intros p Hp. rewrite HE', decide_False; [done|]. by intros ->.
  - intros p. simpl. congruence.
  - apply Hs.
  - intros p Hp. rewrite Hframe; [apply Hs; by right| |].
    + intros ->. tauto.
    + intros Hin. apply (HBQ p Hin). by right.
  - rewrite <- (sp_perm _ _ _ _ _ _ _ _ _ Hs). simpl. rewrite perm_swap. apply perm_skip, Permutation_middle.
  - intros p Hp. rewrite <- (sp_frame _ _ _ _ _ _ _ _ _ Hs p Hp).
    rewrite <- (sp_perm _ _ _ _ _ _ _ _ _ Hs), not_elem_of_cons, !not_elem_of_app in Hp.
    apply Hframe; tauto.
  - rewrite Hlen. apply Hs.
  - rewrite <- (sp_data _ _ _ _ _ _ _ _ _ Hs). change (@map) with (@fmap list _).
    rewrite !list_fmap_delete.
    rewrite <- (move_Permutation (data <$> E) q e (data l));
      [|intros ->; tauto|by rewrite list_lookup_fmap, Hq|by rewrite length_fmap].
    replace (data <$> E') with (<[e := data l]> (data <$> E)); [done|]. apply list_eq. intros p.
    rewrite lookup_insert_dec, !list_lookup_fmap, HE' by (by rewrite length_fmap).
    case_decide; [done|]. destruct (E !! p); [|done]. simpl. unfold relink.
    by repeat case_decide.
Qed.

(** The first key of all stays in its place. *)
Lemma splitting_first E e a b Q l :
  splitting E e a [] false b [] false (a :: Q) ->
  E !! a = Some l -> next l = head Q -> hm (data l) = a ->
  splitting E e a [a] true b [] false Q.
Proof.
  intros [] Hq Hnext Hl. split; try done.
  - intros [|k] p Hp; simplify_eq/=. exists (data l). by destruct l; simpl in *; subst.
  - intros p. simpl. congruence.
  - intros p Hp. apply sp_q0. by right.
Qed.

Lemma splitting_init a b : splitting d n a [] false b [] false P.
Proof. by split. Qed.

(** All keys are done. *)
Lemma splitting_family hm0 C E e b0 A ua B ub :
  splitting E e b0 A ua n B ub [] ->
  family hm0 d (Some n) C -> P = C b0 -> b0 <> n -> 
  (forall r, hm0 r <> b0 -> hm r = hm0 r) ->
  family hm E (Some e) (set_chain (set_chain C b0 A) n B).
Proof.
  intros Hs Hf HP Hne Hhm.
  destruct (splitting_apart _ _ _ _ _ _ _ _ _ Hs) as ((HnA & HnB & _) & (HeA & HeB & _) & _).
  assert (forall p, p ∈ n :: P <-> p ∈ e :: A ++ B) as Hpos.
  { intros p. rewrite <- (sp_perm _ _ _ _ _ _ _ _ _ Hs), app_nil_r. done. }
  assert (forall c p, c <> b0 -> p ∈ C c -> p ∉ n :: P) as Hother.
  { intros c p Hc Hp Hin. apply elem_of_cons in Hin as [->|Hin].
    - by apply (fam_empty _ _ _ _ Hf c n).
    - rewrite HP in Hin. by apply Hc, (chain_one _ _ _ _ _ _ _ (fam_chain _ _ _ _ Hf c) (fam_chain _ _ _ _ Hf b0) Hp). }
  split; unfold set_chain.
  - intros c. repeat case_decide; subst.
    + apply lseg_chain; [|done|apply Hs]. pose proof (sp_b _ _ _ _ _ _ _ _ _ Hs). by destruct ub.
    + apply lseg_chain; [|done|apply Hs]. pose proof (sp_a _ _ _ _ _ _ _ _ _ Hs). by destruct ua.
    + apply (chain_frame hm0 hm d E); [apply Hf| |].
      * intros p Hp. by apply (sp_frame _ _ _ _ _ _ _ _ _ Hs), (Hother c).
      * intros p l Hp Hl. destruct (chain_mem _ _ _ _ _ (fam_chain _ _ _ _ Hf c) Hp) as (l' & Hl' & Hc).
        rewrite Hhm; congruence.
  - intros p Hp He. rewrite (sp_len _ _ _ _ _ _ _ _ _ Hs) in Hp.
    destruct (decide (p ∈ n :: P)) as [Hin|Hin].
    + apply Hpos, elem_of_cons in Hin as [->|Hin]; [done|].
      apply elem_of_app in Hin as [Hin|Hin]; [exists b0|exists n].
      * by rewrite decide_False, decide_True by done.
      * by rewrite decide_True by done.
    + destruct (fam_cover _ _ _ _ Hf p Hp) as [c Hc].
      { intros [= ->]. apply Hin. left. }
      exists c. rewrite !decide_False; [done| |]; intros ->.
      * apply Hin. right. by rewrite HP.
      * assert (C n = []) as Hn by (apply (family_nil _ _ _ _ _ Hf); by left). rewrite Hn in Hc. set_solver.
  - intros c p [= <-]. repeat case_decide; subst; [done|done|]. intros Hp.
    apply (Hother c e); [done|done|]. apply Hpos. left.
Qed.
End Splitting.

(** *** The loop *)

Section Loop.
Context {R : Type} (hm : R -> nat) (d : list (HASH_LINK R)) (P : list nat) (b0 n : nat).

(** The flag of the loop. *)
Definition flag_of (fa ua fb ub : bool) : Z :=
  (Z.b2z fa + 2 * Z.b2z ua + 4 * Z.b2z fb + 8 * Z.b2z ub)%Z.

(** The variables describe the two partial chains; [E] is the array with the
    pending assignments done. *)
Record runs (s : split_state) (E : list (HASH_LINK R)) (A : list nat) (ua : bool)
    (B : list nat) (ub : bool) (Q : list nat) : Prop := {
  ru_split : splitting hm d P n E (s_empty s) b0 A ua n B ub Q;
  ru_end : fst (split_end s) = E;
  ru_flag : exists fa fb, s_flag s = flag_of fa ua fb ub /\
    (if fa then last A = Some (s_gpos s) /\ data <$> E !! s_gpos s = Some (s_ptr_to_rec s)
     else A = [] /\ ua = false) /\
    (if fb then last B = Some (s_gpos2 s) /\ data <$> E !! s_gpos2 s = Some (s_ptr_to_rec2 s)
     else B = [] /\ ub = false);
  ru_used : ua && ub = false;
  ru_high : B = [] -> s_empty s = n;
  ru_low : A = [] -> if decide (B = []) then head Q = head P else s_empty s = b0
}.
End Loop.

(** What the loop body and the end do, in terms of the four bits. *)
Section Bits.
Context {R : Type}.

Definition pending (f : bool) (dd : list (HASH_LINK R)) (g : nat) (ptr : R) : list (HASH_LINK R) :=
  if f then set_link dd g ptr None else dd.
#[local] Arguments pending : simpl never.

Lemma split_end_bits dd fa ua fb ub e g (ptr : R) g2 ptr2 :
  split_end (mk_split dd (flag_of fa ua fb ub) e g ptr g2 ptr2) =
    (pending (fb && negb ub) (pending (fa && negb ua) dd g ptr) g2 ptr2, e).
Proof. by destruct fa, ua, fb, ub. Qed.

Lemma split_low_bits dd fa ua fb ub e g (ptr : R) g2 ptr2 q r :
  ua && ub = false -> (fa = false -> ua = false) ->
  split_low (mk_split dd (flag_of fa ua fb ub) e g ptr g2 ptr2) q r =
    if fa then mk_split (if ua then dd else set_link dd g ptr (Some q)) (flag_of true true fb false)
                        e q r g2 ptr2
    else if fb then mk_split dd (flag_of true false true false) q e r g2 ptr2
    else mk_split dd (flag_of true true false false) e q r g2 ptr2.
Proof. destruct fa, ua, fb, ub; naive_solver. Qed.

Lemma split_high_bits dd fa ua fb ub e g (ptr : R) g2 ptr2 q r :
  ua && ub = false -> (fb = false -> ub = false) ->
  split_high (mk_split dd (flag_of fa ua fb ub) e g ptr g2 ptr2) q r =
    if fb then mk_split (if ub then dd else set_link dd g2 ptr2 (Some q)) (flag_of fa false true true)
                        e g ptr q r
    else mk_split dd (flag_of fa false true false) q g ptr e r.
Proof. destruct fa, ua, fb, ub; naive_solver. Qed.

Lemma pending_ne f dd g (ptr : R) p : (f = true -> p <> g) -> pending f dd g ptr !! p = dd !! p.
Proof. intros Hp. destruct f; [|done]. apply list_lookup_insert_ne. by apply not_eq_sym, Hp. Qed.

Lemma pending_eq dd g (ptr : R) : g < length dd -> pending true dd g ptr !! g = Some (mk_link None ptr).
Proof. apply list_lookup_insert_eq. Qed.

Lemma pending_length f dd g (ptr : R) : length (pending f dd g ptr) = length dd.
Proof. destruct f; [apply length_insert|done]. Qed.
Lemma pending_swap f f2 dd g (ptr : R) g2 ptr2 :
  g <> g2 -> pending f (pending f2 dd g2 ptr2) g ptr = pending f2 (pending f dd g ptr) g2 ptr2.
Proof. intros Hne. destruct f, f2; try done. by apply list_insert_insert_ne. Qed.

(** The array after a key is appended to the chain [A]. *)
Lemma append_links dd A ua B ub fb g (ptr : R) g2 ptr2 q E :
  E = pending (fb && negb ub) (pending (negb ua) dd g ptr) g2 ptr2 ->
  ua && ub = false -> (fb = true -> g <> g2) ->
  last A = Some g -> data <$> E !! g = Some ptr ->
  (ua = true -> next <$> E !! g = Some (Some q)) ->
  (if fb then last B = Some g2 /\ data <$> E !! g2 = Some ptr2 else B = [] /\ ub = false) ->
  forall p, pending fb (if ua then dd else set_link dd g ptr (Some q)) g2 ptr2 !! p =
    relink A (Some q) B ub p <$> E !! p.
Proof.
  intros HE Hu Hne HA HEg Hua HB p.
  assert (forall p, p < length E -> p < length dd) as Hlen by (intros p'; by rewrite HE, !pending_length).
  set (dd1 := if ua then dd else set_link dd g ptr (Some q)).
  assert (length dd1 = length dd) as Hlen1 by (unfold dd1; destruct ua; [done|apply length_insert]).
  assert (forall p, p <> g -> dd1 !! p = dd !! p) as Hdd1.
  { intros p' Hp. unfold dd1. destruct ua; [done|apply list_lookup_insert_ne; congruence]. }
  assert (forall p, (fb = true -> p <> g2) -> E !! p = pending (negb ua) dd g ptr !! p /\
    pending fb dd1 g2 ptr2 !! p = dd1 !! p) as Hout.
  { intros p' Hp. rewrite HE. destruct fb; [|done]. split; apply pending_ne; auto. }
  unfold relink. rewrite HA. destruct (decide (p = g)) as [->|Hg].
  - destruct (Hout g Hne) as [H1 ->].
    destruct (E !! g) as [l|] eqn:El; [|done]. simpl in *. injection HEg as <-.
    rewrite decide_True by done.
    unfold with_next, dd1. destruct ua; simpl in H1.
    + change (Some l = dd !! g) in H1. rewrite <- H1. injection (Hua eq_refl) as <-. by destruct l.
    + apply list_lookup_insert_eq, Hlen. by apply lookup_lt_Some in El.
  - destruct (decide (fb = true /\ p = g2)) as [[-> ->]|Hp2].
    + destruct HB as [-> HB]. destruct (E !! g2) as [l|] eqn:El; [|done]. simpl in *. injection HB as <-.
      apply lookup_lt_Some in El as Hlt. rewrite pending_eq by (rewrite Hlen1; auto).
      rewrite decide_False by congruence. case_decide as Eu; [done|]. destruct ub; [tauto|].
      rewrite HE in El. simpl in El. rewrite pending_eq in El by (rewrite pending_length; auto). by rewrite El.
    + destruct (Hout p) as [-> ->]; [naive_solver|]. rewrite Hdd1, pending_ne by done.
      destruct (dd !! p); [|done]. simpl. rewrite !decide_False; [done| |congruence].
      destruct fb; naive_solver.
Qed.

(** The array after the first key of a chain is put into the empty position. *)
Lemma move_links dd B ub fb e (r : R) g2 ptr2 E :
  E = pending (fb && negb ub) dd g2 ptr2 -> e < length dd -> (fb = true -> e <> g2) ->
  (if fb then last B = Some g2 /\ data <$> E !! g2 = Some ptr2 else B = [] /\ ub = false) ->
  forall p, pending fb (pending true dd e r) g2 ptr2 !! p =
    if decide (p = e) then Some (mk_link None r) else relink [] None B ub p <$> E !! p.
Proof.
  intros HE He Hne HB p.
  assert (forall p, p < length E -> p < length dd) as Hlen by (intros p'; by rewrite HE, !pending_length).
  case_decide as Ep.
  { subst p. destruct fb; [rewrite pending_ne by auto|]; by rewrite <- (pending_eq dd e r He). }
  destruct fb.
  - destruct HB as [HB HB']. destruct (decide (p = g2)) as [->|Hp2].
    + destruct (E !! g2) as [l|] eqn:El; [|done]. simpl in *. injection HB' as <-.
      apply lookup_lt_Some in El as Hlt. rewrite pending_eq by (rewrite pending_length; auto).
      unfold relink. rewrite decide_False by done. case_decide as Eu; [done|]. destruct ub; [tauto|].
      rewrite HE in El. simpl in El. rewrite pending_eq in El by auto. by rewrite El.
    + rewrite HE, !pending_ne by auto. destruct (dd !! p); [|done]. simpl. unfold relink.
      rewrite !decide_False; [done|naive_solver|done].
  - destruct HB as [-> ->]. rewrite HE. simpl. unfold pending at 1 3. rewrite pending_ne by done.
    destruct (dd !! p); [|done]. simpl. unfold relink. by rewrite !decide_False by naive_solver.
Qed.

Lemma relink_data A x B ub p (o : option (HASH_LINK R)) : data <$> (relink A x B ub p <$> o) = data <$> o.
Proof. destruct o; [|done]. simpl. unfold relink. by repeat case_decide. Qed.
End Bits.

Section Steps.
Context {R : Type} (hm : R -> nat) (d : list (HASH_LINK R)) (P : list nat) (b0 n : nat).
Context (Hnd : NoDup (n :: P)) (Hin : forall p, p ∈ n :: P -> p < length d).
Context (HP : head P = Some b0).


(** The last elements of two chains are different positions. *)
Lemma splitting_lasts E e a A ua b B ub Q g g2 :
  splitting hm d P n E e a A ua b B ub Q -> last A = Some g -> last B = Some g2 -> g <> g2.
Proof.
  intros Hs HA HB ->. destruct (splitting_apart _ _ _ _ Hnd _ _ _ _ _ _ _ _ _ Hs) as (_ & _ & HAB & _).
  by apply (HAB g2); apply last_elem_of.
Qed.

(** A last element that is in use links to the next key. *)
Lemma splitting_next E e a A b B ub q Q g :
  splitting hm d P n E e a A true b B ub (q :: Q) -> last A = Some g -> next <$> E !! g = Some (Some q).
Proof.
  intros Hs HA. destruct (sp_a _ _ _ _ _ _ _ _ _ _ _ _ _ Hs (pred (length A)) g) as (r & Hr & _).
  { by rewrite <- last_lookup. }
  rewrite Hr. simpl. rewrite (lookup_ge_None_2 A) by lia. done.
Qed.

Lemma splitting_empty_last E e a A ua b B ub Q g2 :
  splitting hm d P n E e a A ua b B ub Q -> last B = Some g2 -> e <> g2.
Proof.
  intros Hs HB ->. destruct (splitting_apart _ _ _ _ Hnd _ _ _ _ _ _ _ _ _ Hs) as (_ & (_ & He & _) & _).
  by apply He, last_elem_of.
Qed.

Lemma splitting_empty_lt E e a A ua b B ub Q :
  splitting hm d P n E e a A ua b B ub Q -> e < length E.
Proof.
  intros Hs. rewrite (sp_len _ _ _ _ _ _ _ _ _ _ _ _ _ Hs). apply Hin.
  rewrite <- (sp_perm _ _ _ _ _ _ _ _ _ _ _ _ _ Hs). left.
Qed.

Lemma step_low s E A ua B ub q Q l :
  runs hm d P b0 n s E A ua B ub (q :: Q) ->
  E !! q = Some l -> next l = head Q -> hm (data l) = b0 ->
  exists E' A' ua' B' ub', runs hm d P b0 n (split_low s q (data l)) E' A' ua' B' ub' Q.
Proof.
  intros [Hs HE (fa & fb & Hflag & HA & HB) Hu Hhigh Hlow] Hq Hnext Hl.
  destruct s as [dd flag e g ptr g2 ptr2].
  cbn [s_data s_flag s_empty s_gpos s_ptr_to_rec s_gpos2 s_ptr_to_rec2] in *. subst flag.
  rewrite split_end_bits in HE. cbn [fst] in HE. symmetry in HE.
  rewrite split_low_bits; [|done|destruct fa; naive_solver].
  destruct fa; [|destruct fb].
  - destruct HA as [HA HEg]. simpl in HE.
    assert (fb = true -> g <> g2) as Hgg.
    { intros ->. destruct HB as [HB _]. by apply (splitting_lasts _ _ _ _ _ _ _ _ _ _ _ Hs). }
    assert (ua = true -> next <$> E !! g = Some (Some q)) as Hnx.
    { intros ->. by apply (splitting_next _ _ _ _ _ _ _ _ _ _ Hs). }
    pose proof (append_links dd A ua B ub fb g ptr g2 ptr2 q E HE Hu Hgg HA HEg Hnx HB) as HE'.
    exists (pending fb (if ua then dd else set_link dd g ptr (Some q)) g2 ptr2), (A ++ [q]), true, B, false.
    split; try done.
    + apply (splitting_append hm d P n Hnd E _ e b0 A ua n B ub q Q l); try done; [by intros ->|].
      rewrite pending_length, HE, !pending_length. destruct ua; [done|apply length_insert].
    + by rewrite split_end_bits, andb_true_r.
    + exists true, fb. cbn. rewrite last_snoc, !HE', !relink_data, Hq. split; [done|]. split; [done|].
      destruct fb; naive_solver.
    + intros HAn. by destruct A.
  - destruct HA as [-> ->], HB as [HB HEg]. simpl in HE.
    specialize (Hlow eq_refl). rewrite decide_False in Hlow by (by intros ->). subst e.
    pose proof (splitting_empty_last _ _ _ _ _ _ _ _ _ _ Hs HB) as Hb2.
    pose proof (splitting_empty_lt _ _ _ _ _ _ _ _ _ Hs) as Hlt.
    rewrite HE, pending_length in Hlt.
    pose proof (move_links dd B ub true b0 (data l) g2 ptr2 E HE Hlt (fun _ => Hb2) (conj HB HEg)) as HE'.
    exists (pending true (pending true dd b0 (data l)) g2 ptr2), [b0], false, B, false.
    split; try done.
    + apply (splitting_move hm d P n Hnd E _ b0 false n B ub q Q l); try done;
        by rewrite HE, !pending_length.
    + exists true, true. cbn -[last].
      by rewrite !HE', decide_True, decide_False, relink_data by done.
    + intros ->. done.
  - destruct HA as [-> ->], HB as [-> ->]. specialize (Hlow eq_refl). simpl in Hlow, HE.
    rewrite HP in Hlow. injection Hlow as ->.
    exists E, [b0], true, [], false. split; try done.
    + by apply (splitting_first hm d P n E e b0 n Q l).
    + exists true, false. simpl. by rewrite Hq.
Qed.

Lemma step_high s E A ua B ub q Q l :
  runs hm d P b0 n s E A ua B ub (q :: Q) ->
  E !! q = Some l -> next l = head Q -> hm (data l) = n ->
  exists E' A' ua' B' ub', runs hm d P b0 n (split_high s q (data l)) E' A' ua' B' ub' Q.
Proof.
  intros [Hs HE (fa & fb & Hflag & HA & HB) Hu Hhigh Hlow] Hq Hnext Hl.
  destruct s as [dd flag e g ptr g2 ptr2].
  cbn [s_data s_flag s_empty s_gpos s_ptr_to_rec s_gpos2 s_ptr_to_rec2] in *. subst flag.
  rewrite split_end_bits in HE. cbn [fst] in HE. symmetry in HE.
  rewrite split_high_bits; [|done|destruct fb; naive_solver].
  apply splitting_swap in Hs. destruct fb.
  - destruct HB as [HB HEg]. simpl in HE.
    assert (fa = true -> g2 <> g) as Hgg.
    { intros ->. destruct HA as [HA _]. by apply (splitting_lasts _ _ _ _ _ _ _ _ _ _ _ Hs). }
    assert (ub = true -> next <$> E !! g2 = Some (Some q)) as Hnx.
    { intros ->. by apply (splitting_next _ _ _ _ _ _ _ _ _ _ Hs). }
    assert (E = pending (fa && negb ua) (pending (negb ub) dd g2 ptr2) g ptr) as HE2.
    { rewrite HE. destruct fa; [apply pending_swap; auto|done]. }
    rewrite andb_comm in Hu.
    pose proof (append_links dd B ub A ua fa g2 ptr2 g ptr q E HE2 Hu Hgg HB HEg Hnx HA) as HE'.
    exists (pending fa (if ub then dd else set_link dd g2 ptr2 (Some q)) g ptr), A, false, (B ++ [q]), true.
    split; try done.
    + apply splitting_swap, (splitting_append hm d P n Hnd E _ e n B ub b0 A ua q Q l); try done; [by intros ->|].
      rewrite pending_length, HE, !pending_length. destruct ub; [done|apply length_insert].
    + by rewrite split_end_bits, andb_true_r.
    + exists fa, true. cbn. rewrite last_snoc, !HE', !relink_data, Hq. split; [done|]. split; [|done].
      destruct fa; naive_solver.
    + by destruct B.
    + cbn. intros ->. specialize (Hlow eq_refl). rewrite decide_False in Hlow by (by intros ->).
      rewrite decide_False; [done|]. by destruct B.
  - destruct HB as [-> ->]. specialize (Hhigh eq_refl). subst e.
    change (pending (false && negb false) ?x g2 ptr2) with x in HE.
    pose proof (splitting_empty_lt _ _ _ _ _ _ _ _ _ Hs) as Hlt.
    assert (fa = true -> n <> g) as Hng.
    { intros ->. destruct HA as [HA _]. by apply (splitting_empty_last _ _ _ _ _ _ _ _ _ _ Hs). }
    rewrite HE, pending_length in Hlt.
    pose proof (move_links dd A ua fa n (data l) g ptr E HE Hlt Hng HA) as HE'.
    exists (pending fa (pending true dd n (data l)) g ptr), A, false, [n], false.
    split; try done.
    + apply splitting_swap, (splitting_move hm d P n Hnd E _ n false b0 A ua q Q l); try done;
        by rewrite HE, !pending_length.
    + rewrite split_end_bits, andb_true_r. cbn [fst andb negb].
      destruct fa; [|done]. apply pending_swap. auto.
    + exists fa, true. cbn -[last]. rewrite !HE', (decide_True (P := n = n)) by done. split; [done|].
      split; [|done]. destruct fa; [|naive_solver].
      by rewrite decide_False, relink_data by (intros <-; by apply Hng).
    + cbn. intros ->. specialize (Hlow eq_refl). simpl in Hlow. rewrite HP in Hlow. by injection Hlow.
Qed.
End Steps.

Section SplitBucket.
Context {R : Type} (my_hash_key : R -> list Z) (hash_sort : list Z -> Z).
Context (bl half n : nat) (d : list (HASH_LINK R)) (C : nat -> list nat) (b0 : nat).

Let hm0 r := my_hash_rec_mask my_hash_key hash_sort r bl n.
Let hm r := my_hash_rec_mask my_hash_key hash_sort r bl (S n).

Context (Hfam : family hm0 d (Some n) C) (Hlen : n < length d) (Hne : b0 <> n).
Context (Hgrow : forall r, hm r = if (hm0 r =? b0) && test (rec_hashnr my_hash_key hash_sort r .& Z.of_nat half)
                                  then n else hm0 r).

Lemma split_positions : NoDup (n :: C b0) /\ (forall p, p ∈ n :: C b0 -> p < length d).
Proof.
  pose proof (fam_chain _ _ _ _ Hfam b0) as Hc. split.
  - apply NoDup_cons. split; [by apply (fam_empty _ _ _ _ Hfam)|apply Hc].
  - intros p [->|Hp]%elem_of_cons; [done|]. by apply (chain_lt _ _ _ _ _ Hc).
Qed.

(** The links of the keys still to do have not been written. *)
Lemma runs_data s E A ua B ub q Q :
  runs hm d (C b0) b0 n s E A ua B ub (q :: Q) ->
  s_data s !! q = E !! q /\ (forall r, s_data (split_low s q r) !! q = E !! q) /\
  (forall r, s_data (split_high s q r) !! q = E !! q).
Proof.
  intros [Hs HE (fa & fb & Hflag & HA & HB) Hu _ _]. destruct split_positions as [Hnd _].
  destruct (splitting_apart _ _ _ _ Hnd _ _ _ _ _ _ _ _ _ Hs) as (_ & _ & _ & HAQ & HBQ).
  destruct s as [dd flag e g ptr g2 ptr2].
  cbn [s_data s_flag s_empty s_gpos s_ptr_to_rec s_gpos2 s_ptr_to_rec2] in *. subst flag.
  rewrite split_end_bits in HE. cbn [fst] in HE.
  assert (fa = true -> q <> g) as Hg.
  { intros -> ->. apply (HAQ g); [apply last_elem_of, HA|left]. }
  assert (fb = true -> q <> g2) as Hg2.
  { intros -> ->. apply (HBQ g2); [apply last_elem_of, HB|left]. }
  assert (dd !! q = E !! q) as Hdd.
  { rewrite <- HE, !pending_ne; [done| |]; intros []%andb_true_iff; auto. }
  split; [done|]. rewrite <- Hdd. split; intros r.
  - rewrite split_low_bits by (done || destruct fa; naive_solver).
    destruct fa; [destruct ua|destruct fb]; try done. apply list_lookup_insert_ne. naive_solver.
  - rewrite split_high_bits by (done || destruct fb; naive_solver).
    destruct fb; [destruct ub|]; try done. apply list_lookup_insert_ne. naive_solver.
Qed.

(** One round of the loop. *)
Lemma split_step V s E A ua B ub q Q :
  runs hm d (C b0) b0 n s E A ua B ub (q :: Q) -> C b0 = V ++ q :: Q ->
  exists l, s_data s !! q = Some l /\ hm0 (data l) = b0 /\ next l = head Q /\
    let s' := if negb (test (rec_hashnr my_hash_key hash_sort (data l) .& Z.of_nat half))
              then split_low s q (data l) else split_high s q (data l) in
    s_data s' !! q = Some l /\
    exists E' A' ua' B' ub', runs hm d (C b0) b0 n s' E' A' ua' B' ub' Q.
Proof.
  intros Hr HV. destruct (runs_data _ _ _ _ _ _ _ _ Hr) as (Hd & Hlo & Hhi).
  destruct split_positions as [Hnd Hin]. pose proof (fam_chain _ _ _ _ Hfam b0) as Hc.
  destruct (ch_link _ _ _ _ Hc (length V) q) as (r & Hq & Hb); [by rewrite HV, list_lookup_middle|].
  assert (C b0 !! S (length V) = head Q) as Hnext.
  { rewrite HV. rewrite lookup_app_r by lia. replace (S (length V) - length V) with 1 by lia. by destruct Q. }
  rewrite Hnext in Hq.
  assert (E !! q = Some (mk_link (head Q) r)) as HEq.
  { rewrite <- Hq. apply (sp_q _ _ _ _ _ _ _ _ _ _ _ _ _ (ru_split _ _ _ _ _ _ _ _ _ _ _ _ Hr)). left. }
  assert (head (C b0) = Some b0) as HP.
  { destruct (C b0) as [|p L] eqn:El; [by destruct V|]. simpl. f_equal. by apply (ch_head _ _ _ _ Hc). }
  exists (mk_link (head Q) r). rewrite Hd. split; [done|]. split; [done|]. split; [done|].
  cbn [data]. destruct (test _) eqn:Et; cbn [negb]; split; rewrite ?Hlo, ?Hhi; try done.
  - apply (step_high hm d (C b0) b0 n Hnd Hin HP s E A ua B ub q Q (mk_link (head Q) r)); try done.
    cbn [data]. by rewrite Hgrow, Hb, Nat.eqb_refl, Et.
  - apply (step_low hm d (C b0) b0 n Hnd Hin HP s E A ua B ub q Q (mk_link (head Q) r)); try done.
    cbn [data]. by rewrite Hgrow, Hb, Nat.eqb_refl, Et.
Qed.

Lemma split_loop_spec Q : forall V fuel s E A ua B ub q,
  runs hm d (C b0) b0 n s E A ua B ub (q :: Q) -> C b0 = V ++ q :: Q -> length Q < fuel ->
  exists s' E' A' ua' B' ub',
    split_loop my_hash_key hash_sort bl n half b0 fuel s q = Some s' /\
    runs hm d (C b0) b0 n s' E' A' ua' B' ub' [].
Proof.
  induction Q as [|q' Q IH]; intros V fuel s E A ua B ub q Hr HV Hf;
    (destruct fuel as [|fuel]; [simpl in Hf; lia|]); cbn [split_loop];
    destruct (split_step _ _ _ _ _ _ _ _ _ Hr HV) as (l & Hq & Hb & Hnext & Hq' & E' & A' & ua' & B' & ub' & Hr');
    rewrite Hq; obind; unfold hm0, my_hash_rec_mask in Hb; rewrite Hb, Nat.eqb_refl, andb_false_r, Hq'; obind; rewrite Hnext;
    simpl head.
  - by eexists _, _, _, _, _, _.
  - apply (IH (V ++ [q]) fuel _ _ _ _ _ _ q' Hr'); [by rewrite HV, <- app_assoc|simpl in Hf; lia].
Qed.

Lemma runs_init record :
  runs hm d (C b0) b0 n (mk_split d 0 n 0 record 0 record) d [] false [] false (C b0).
Proof. split; try done. by exists false, false. Qed.

Lemma split_loop_start record :
  b0 < length d -> length d = S n -> exists s E A ua B ub,
    split_loop my_hash_key hash_sort bl n half b0 (S n) (mk_split d 0 n 0 record 0 record) b0 = Some s /\
    runs hm d (C b0) b0 n s E A ua B ub [].
Proof.
  intros Hb0 Hd. destruct (lookup_lt_is_Some_2 d b0 Hb0) as [l Hl].
  pose proof (runs_init record) as Hr. destruct (C b0) as [|q Q] eqn:E.
  - exists (mk_split d 0 n 0 record 0 record), d, [], false, [], false. split; [|done].
    cbn [split_loop s_data]. rewrite Hl. obind. cbn [s_flag Z.eqb andb].
    assert (hm0 (data l) <> b0) as Hh.
    { intros Hb. destruct (family_bucket _ _ _ _ _ _ Hfam Hl) as [_ [L HL]]; [congruence|].
      by rewrite Hb, E in HL. }
    unfold hm0, my_hash_rec_mask in Hh. by rewrite (proj2 (Nat.eqb_neq _ _) Hh).
  - assert (q = b0) as -> by (apply (ch_head _ _ _ _ (fam_chain _ _ _ _ Hfam b0)); by rewrite E).
    rewrite <- E in Hr |- *. destruct split_positions as [Hnd Hin].
    rewrite E in Hr at 2. apply (split_loop_spec Q [] (S n) _ _ _ _ _ _ b0 Hr E).
    apply le_S_n. change (S (length Q)) with (length (b0 :: Q)). rewrite <- E.
    pose proof (chain_length _ _ _ _ (fam_chain _ _ _ _ Hfam b0)). lia.
Qed.
End SplitBucket.

(** The array after the loop. *)
Lemma split_bucket_spec {R} (my_hash_key : R -> list Z) (hash_sort : list Z -> Z) bl n
    (d : list (HASH_LINK R)) record C :
  sizes_ok bl n -> length d = S n ->
  family (home my_hash_key hash_sort bl n) d (Some n) C ->
  exists d' e C', split_bucket my_hash_key hash_sort bl n d record = Some (d', e) /\
    family (home my_hash_key hash_sort bl (S n)) d' (Some e) C' /\ e < length d' /\
    length d' = length d /\ map data (delete e d') ≡ₚ map data (delete n d).
Proof.
  intros Hs Hlen Hf. unfold split_bucket. destruct Hs as [[-> ->]|(k & -> & Hk)].
  { exists d, 0, C. split; [done|]. split; [|by rewrite Hlen; split; [lia|]].
    destruct Hf as [Hc Hv He]. split; [|done|done]. intros b.
    destruct (C b) as [|p L] eqn:E; [apply chain_nil|]. exfalso.
    assert (p < length d) as Hp by (apply (chain_lt _ _ _ _ _ (Hc b)); rewrite E; left).
    apply (He b p); [f_equal; lia|]. rewrite E. left. }
  assert (2 ^ S k / 2 = 2 ^ k) as -> by (rewrite Nat.pow_succ_r', Nat.mul_comm, Nat.div_mul; lia).
  pose proof (Nat.pow_nonzero 2 k ltac:(lia)) as H2k.
  set (b0 := n - 2 ^ k). assert (b0 <> n) as Hne by (unfold b0; lia).
  rewrite (proj2 (Nat.eqb_neq _ _) Hne).
  assert (forall r, home my_hash_key hash_sort (2 ^ S k) (S n) r =
    if (home my_hash_key hash_sort (2 ^ S k) n r =? b0) &&
       test (rec_hashnr my_hash_key hash_sort r .& Z.of_nat (2 ^ k)) then n
    else home my_hash_key hash_sort (2 ^ S k) n r) as Hgrow.
  { intros r. rewrite test_half. apply my_hash_mask_grow; [done|apply rec_hashnr_nonneg]. }
  assert (forall r, home my_hash_key hash_sort (2 ^ S k) n r <> b0 ->
    home my_hash_key hash_sort (2 ^ S k) (S n) r = home my_hash_key hash_sort (2 ^ S k) n r) as Hsame.
  { intros r Hr. rewrite Hgrow. apply Nat.eqb_neq in Hr. by rewrite Hr. }
  assert (n < length d) as Hn by lia.
  destruct (split_positions my_hash_key hash_sort (2 ^ S k) n d C b0 Hf Hn) as [Hnd Hin].
  set (s0 := mk_split d 0 n 0 record 0 record).
  assert (exists s E A ua B ub,
    split_loop my_hash_key hash_sort (2 ^ S k) n (2 ^ k) b0 (S n) s0 b0 = Some s /\
    runs (home my_hash_key hash_sort (2 ^ S k) (S n)) d (C b0) b0 n s E A ua B ub [])
    as (s & E & A & ua & B & ub & Hloop & Hr).
  { apply split_loop_start; try done. unfold b0. lia. }
  rewrite Hloop. obind. destruct Hr as [Hsp HE _ _ _ _].
  exists E, (s_empty s). eexists. split; [by rewrite <- HE|].
  split; [by apply (splitting_family _ d (C b0) n Hnd (home my_hash_key hash_sort (2 ^ S k) n) C E _ b0 A ua B ub)|].
  split; [by apply (splitting_empty_lt _ d (C b0) n Hin _ _ _ _ _ _ _ _ _ Hsp)|]. split; apply Hsp.
Qed.

(** ** my_hash_insert *)

Section Insert.
Context {T R : Type} `{LinkArrayLaws T (HASH_LINK R)}.
Context (my_hash_key : R -> list Z) (hash_sort : list Z -> Z) (my_strnncoll : list Z -> list Z -> Z).

Lemma mask_succ_lt bl n h : sizes_ok bl n -> (0 <= h)%Z -> my_hash_mask h bl (S n) < S n.
Proof.
  intros [[-> ->]|(k & -> & Hk)] Hh.
  - unfold my_hash_mask. change (Z.of_nat 1 - 1)%Z with 0%Z. rewrite Z.land_0_r. simpl. lia.
  - apply my_hash_mask_spec; [lia|done].
Qed.

(** The mask length after the count was increased. *)
Lemma sizes_grow bl n :
  sizes_ok bl n -> let bl' := if S n =? bl then bl + bl else bl in
  sizes_ok bl' (S n) /\
  forall r, home my_hash_key hash_sort bl (S n) r = home my_hash_key hash_sort bl' (S n) r.
Proof.
  intros Hs bl'. unfold bl'. destruct (S n =? bl) eqn:E; b2p.
  - assert (exists j, bl = 2 ^ j) as [j ->].
    { destruct Hs as [[_ ->]|(k & -> & _)]; [by exists 0|by exists (S k)]. }
    assert (2 ^ j + 2 ^ j = 2 ^ S j) as -> by (rewrite Nat.pow_succ_r'; lia).
    split; [right; exists j; rewrite Nat.pow_succ_r'; lia|].
    intros r. unfold home, my_hash_rec_mask. rewrite E. symmetry.
    apply my_hash_mask_double, rec_hashnr_nonneg.
  - split; [|done]. destruct Hs as [[-> ->]|(k & -> & Hk)]; [done|]. right. exists k. lia.
Qed.

(** The array with the new position at its end. *)
Lemma family_snoc (hm : R -> nat) ls C x :
  family hm ls None C -> family hm (ls ++ [x]) (Some (length ls)) C.
Proof.
  intros [Hc Hv He].
  assert (forall b p, p ∈ C b -> p < length ls) as Hlt by (intros b p; apply (chain_lt _ _ _ _ _ (Hc b))).
  split.
  - intros b. apply (chain_frame' hm ls); [done|]. intros p Hp. apply lookup_app_l. by apply (Hlt b).
  - intros p Hp Hne. apply Hv; [|done]. rewrite length_app in Hp. simpl in Hp.
    assert (p <> length ls) by congruence. lia.
  - intros b p [= <-] Hp. apply (Hlt b) in Hp. lia.
Qed.

(** The record is put into the table. *)
Lemma insert_links (h : HASH T R) record t :
  hash_ok my_hash_key hash_sort h -> la_room (array h) -> la_alloc (array h) = Some t ->
  exists d e d', split_bucket my_hash_key hash_sort (blength h) (records h) (la_data t) record = Some (d, e) /\
    place_record my_hash_key hash_sort (blength h) (records h) d e record = Some d' /\
    length d' = length (la_data t) /\ la_inv t /\ length (la_data t) = S (records h) /\
    (exists C, family (home my_hash_key hash_sort (blength h) (S (records h))) d' None C) /\
    map data d' ≡ₚ record :: map data (links h).
Proof.
  intros [Ha Hl Hs [C Hf]] Hroom Hal. destruct (la_alloc_ok _ _ Ha Hroom Hal) as [Ht [x Hx]].
  assert (length (la_data t) = S (records h)) as Hlen.
  { rewrite Hx, length_app. unfold links in Hl. simpl. lia. }
  destruct (split_bucket_spec my_hash_key hash_sort (blength h) (records h) (la_data t) record C)
    as (d & e & C' & Hsp & Hf' & He & Hd & Hperm); [done|done| |].
  { pose proof (family_snoc _ _ _ x Hf) as Hfs. rewrite Hl in Hfs. by rewrite Hx. }
  destruct (place_record_spec my_hash_key hash_sort (blength h) (records h) d e record C')
    as (d' & C2 & Hpl & Hf2 & Hd' & Hperm'); [done|done|lia| |].
  { rewrite Hd, Hlen. apply mask_succ_lt; [done|apply rec_hashnr_nonneg]. }
  exists d, e, d'. split; [done|]. split; [done|]. split; [lia|]. split; [done|]. split; [done|].
  split; [by exists C2|]. rewrite Hperm', Hperm. apply perm_skip.
  assert (delete (records h) (la_data t) = links h) as ->; [|done].
  rewrite <- Hl, Hx. unfold links.
  rewrite delete_take_drop, take_app_length, drop_ge; [apply app_nil_r|rewrite length_app; simpl; lia].
Qed.

(** Whether the key of a record is there already. *)
Definition has_key (h : HASH T R) (record : R) : bool :=
  existsb (key_is my_hash_key my_strnncoll (my_hash_key record) (length (my_hash_key record)))
          (map data (links h)).

Lemma insert_dup_check (h : HASH T R) record :
  hash_ok my_hash_key hash_sort h ->
  searchable my_hash_key hash_sort my_strnncoll h (length (my_hash_key record)) ->
  exists r, my_hash_search my_hash_key hash_sort my_strnncoll h (my_hash_key record)
    (length (my_hash_key record)) = Some r /\ bool_decide (is_Some r) = has_key h record.
Proof.
  intros Hok Hse. destruct (ok_chains _ _ _ Hok) as [C Hf].
  destruct (search_all_spec my_hash_key hash_sort my_strnncoll h C (my_hash_key record)
    (length (my_hash_key record)) Hok Hse Hf) as (_ & Hsr & Hperm).
  eexists. split; [exact Hsr|]. set (rs := omap _ _) in *. unfold has_key.
  destruct (existsb _ _) eqn:Ex.
  - apply bool_decide_eq_true. apply existsb_exists in Ex as (r & Hr & Hk).
    assert (r ∈ rs) as Hrs by (rewrite Hperm; apply list_elem_of_filter; split; [done|by apply list_elem_of_In]).
    destruct rs; [by apply not_elem_of_nil in Hrs|done].
  - apply bool_decide_eq_false. destruct rs as [|r rs']; [by intros []|]. exfalso.
    assert (r ∈ r :: rs') as Hin by left. rewrite Hperm in Hin. apply list_elem_of_filter in Hin as [Hk Hin].
    apply not_true_iff_false in Ex. apply Ex, existsb_exists. exists r. split; [by apply list_elem_of_In|done].
Qed.

(** C8.  Insertion: my_hash_insert refuses a record whose key is there in a
    HASH_UNIQUE table, or when there is no memory, and leaves the table as it
    was; otherwise the table stays well-formed (every record in the chain of its
    bucket, the mask length the right power of two) and has exactly one record
    more, the new one. *)
Theorem my_hash_insert_correct (h : HASH T R) record :
  hash_ok my_hash_key hash_sort h -> la_room (array h) ->
  searchable my_hash_key hash_sort my_strnncoll h (length (my_hash_key record)) ->
  if (test (HASH_UNIQUE .& flags h) && has_key h record) || bool_decide (la_alloc (array h) = None)
  then my_hash_insert my_hash_key hash_sort my_strnncoll h record = Some (true, h)
  else exists h', my_hash_insert my_hash_key hash_sort my_strnncoll h record = Some (false, h') /\
    hash_ok my_hash_key hash_sort h' /\ map data (links h') ≡ₚ record :: map data (links h) /\
    records h' = S (records h) /\ key_length h' = key_length h /\ flags h' = flags h /\
    get_hash h' = get_hash h /\ free h' = free h.
Proof.
  intros Hok Hroom Hse. destruct (insert_dup_check h record Hok Hse) as (r & Hsr & Hdup).
  unfold my_hash_insert.
  replace (if test (HASH_UNIQUE .& flags h) then _ else Some false)
    with (Some (test (HASH_UNIQUE .& flags h) && has_key h record)).
  2:{ destruct (test _); [|done]. rewrite Hsr. obind. by rewrite Hdup. }
  obind. destruct (_ && has_key h record); [done|]. cbn [orb].
  destruct (la_alloc (array h)) as [t|] eqn:Ea; [|done].
  rewrite bool_decide_eq_false_2 by done.
  destruct (insert_links h record t Hok Hroom Ea) as (d & e & d' & Hsp & Hpl & Hd & Ht & Hlen & [C Hf] & Hperm).
  rewrite Hsp. obind. rewrite Hpl. obind. eexists. split; [done|].
  destruct (la_put_ok t d' Ht Hd) as [Hput Hdata].
  destruct (sizes_grow _ _ (ok_sizes _ _ _ Hok)) as [Hsz Hhome].
  split; [|split; [|done]].
  - split; unfold links; cbn [put_links with_records with_array array records blength].
    + done.
    + rewrite Hdata. lia.
    + done.
    + rewrite Hdata. exists C. by apply (family_ext _ _ _ _ _ Hhome).
  - unfold links at 1. cbn [put_links with_records with_array array]. by rewrite Hdata.
Qed.
End Insert.

Lemma my_hash_insert_correct_witness :
  exists h', my_hash_insert ex_key ex_sort ex_coll ex_table 8 = Some (false, h') /\
    hash_ok ex_key ex_sort h' /\ map data (links h') ≡ₚ [8; 4; 1; 0].
Proof.
  destruct (my_hash_insert_correct ex_key ex_sort ex_coll ex_table 8) as (h' & H1 & H2 & H3 & _).
  - exact ex_ok.
  - vm_compute. reflexivity.
  - apply ex_searchable. discriminate.
  - exists h'. split; [exact H1|]. split; [exact H2|exact H3].
Defined.
