(* ===== verification/HashDelete.v ===== *)
(** * Hash tables: deletion

    my_hash_delete takes the record out of its chain, which leaves an empty
    position, and moves the last link there; the bucket of the last position is
    merged with the one it was split from. *)

From stdpp Require Import prelude list list_numbers.
From Stdlib Require Import ZArith Lia ZifyNat.
From S2P Require Import Prelude DynArray HashTable HashChains HashSearch.

Open Scope nat_scope.

(** ** Finding the record *)

Section Find.
Context {R : Type} `{EqDecision R}.
Implicit Types (ls : list (HASH_LINK R)).

(** The position before the [k]th of the list. *)
Definition before (P : list nat) (prev : option nat) (k : nat) : option nat :=
  match k with O => prev | S k => P !! k end.

Lemma find_record_spec ls record P : forall fuel p prev,
  linked ls P -> head P = Some p -> length P <= fuel ->
  (find_record ls record fuel p prev = Some None /\
   forall q l, q ∈ P -> ls !! q = Some l -> data l <> record) \/
  exists k q l, P !! k = Some q /\ ls !! q = Some l /\ data l = record /\
    find_record ls record fuel p prev = Some (Some (q, before P prev k)).
Proof.
  induction P as [|p0 P IH]; intros fuel p prev Hl Hp Hf; [done|]. injection Hp as <-.
  destruct fuel as [|fuel]; [simpl in Hf; lia|]. apply linked_cons in Hl as [Hl [r Hr]].
  cbn [find_record]. rewrite Hr. obind. cbn [data next]. case_decide as E.
  { right. by exists 0, p0, (mk_link (head P) r). }
  destruct P as [|p1 P].
  { left. split; [done|]. intros q l Hq%list_elem_of_singleton Hql. subst q. rewrite Hr in Hql. by injection Hql as <-. }
  destruct (IH fuel p1 (Some p0)) as [[Hn Hall]|(k & q & l & Hk & Hq & Hd & Hfr)]; [done|done|simpl in *; lia| |].
  - left. split; [exact Hn|]. intros q l [->|Hq]%elem_of_cons Hql; [|by apply (Hall q l)].
    rewrite Hr in Hql. by injection Hql as <-.
  - right. exists (S k), q, l. split; [done|]. split; [done|]. split; [done|].
    cbn [head]. rewrite Hfr. by destruct k.
Qed.

Lemma chain_head_at (hm : R -> nat) ls b L k : chain hm ls b L -> L !! k = Some b -> k = 0.
Proof.
  intros Hc Hk. destruct L as [|b' L]; [done|].
  assert (b' = b) as -> by (by apply (ch_head _ _ _ _ Hc)).
  by apply (NoDup_lookup _ _ _ b (ch_nodup _ _ _ _ Hc)).
Qed.

Lemma chain_has_head (hm : R -> nat) ls b L q : chain hm ls b L -> q ∈ L -> b ∈ L.
Proof.
  intros Hc Hq. destruct L as [|b' L]; [by apply not_elem_of_nil in Hq|].
  assert (b' = b) as -> by (by apply (ch_head _ _ _ _ Hc)). left.
Qed.

(** In a table the search ends and finds the record when it is there. *)
Lemma find_record_table hm ls C record fuel :
  family hm ls None C -> hm record < length ls -> length ls <= fuel ->
  (find_record ls record fuel (hm record) None = Some None /\ record ∉ map data ls) \/
  exists k q l, C (hm record) !! k = Some q /\ ls !! q = Some l /\ data l = record /\
    find_record ls record fuel (hm record) None = Some (Some (q, before (C (hm record)) None k)).
Proof.
  intros Hf Hlt Hfuel. set (b := hm record) in *. destruct (lookup_lt_is_Some_2 _ _ Hlt) as [lb Hlb].
  assert (forall b', length (C b') <= fuel) as Hlen.
  { intros b'. pose proof (chain_length _ _ _ _ (fam_chain _ _ _ _ Hf b')). lia. }
  assert (forall q l, ls !! q = Some l -> data l = record -> q ∈ C b) as Hhome.
  { intros q l Hq Hd. destruct (family_bucket _ _ _ _ _ _ Hf Hq) as [Hin _]; [done|].
    by rewrite Hd in Hin. }
  destruct (family_bucket _ _ _ _ _ _ Hf Hlb) as [Hin _]; [done|].
  apply list_elem_of_lookup in Hin as [k Hk]. set (b1 := hm (data lb)) in *.
  pose proof (fam_chain _ _ _ _ Hf b1) as Hc.
  destruct (find_record_spec ls record (drop k (C b1)) fuel b None) as [[Hn Hall]|(j & q & l & Hj & Hq & Hd & Hfr)].
  - eapply linked_drop, chain_linked, Hc.
  - by rewrite head_lookup, lookup_drop, Nat.add_0_r.
  - rewrite length_drop. specialize (Hlen b1). lia.
  - left. split; [done|]. intros [l [Hl1 Hl2]]%list_elem_of_fmap. apply list_elem_of_lookup in Hl2 as [q Hq].
    symmetry in Hl1. pose proof (Hhome q l Hq Hl1) as Hqb.
    pose proof (fam_chain _ _ _ _ Hf b) as Hcb.
    assert (b1 = b) as Hb.
    { apply (chain_one _ _ _ _ _ _ b Hc Hcb); [by apply list_elem_of_lookup_2 in Hk|by apply (chain_has_head _ _ _ _ q Hcb)]. }
    rewrite Hb in Hk. apply (chain_head_at _ _ _ _ _ Hcb) in Hk as ->.
    apply (Hall q l); [|done|done]. rewrite drop_0, Hb. done.
  - right. rewrite lookup_drop in Hj.
    assert (b1 = b) as Hb.
    { apply (chain_one _ _ _ _ _ _ q Hc (fam_chain _ _ _ _ Hf b)); [by apply list_elem_of_lookup_2 in Hj|by apply (Hhome q l)]. }
    rewrite Hb in Hk, Hj, Hfr. apply (chain_head_at _ _ _ _ _ (fam_chain _ _ _ _ Hf b)) in Hk as ->.
    exists j, q, l. by rewrite Hfr.
Qed.
End Find.

(** ** Taking the record out of its chain *)

Section Unlink.
Context {R : Type}.
Implicit Types (ls : list (HASH_LINK R)) (C : nat -> list nat).

(** The chain of [b] loses the position [e]. *)
Lemma family_remove (hm : R -> nat) ls ls' C b L e :
  family hm ls None C -> chain hm ls' b L -> e :: L ≡ₚ C b -> length ls' = length ls ->
  (forall p, p ∉ C b -> ls' !! p = ls !! p) ->
  family hm ls' (Some e) (set_chain C b L).
Proof.
  intros Hf Hc Hperm Hlen Hframe. pose proof (fam_chain _ _ _ _ Hf b) as Hcb.
  assert (NoDup (e :: L)) as [HeL HnL]%NoDup_cons by (rewrite Hperm; apply Hcb).
  assert (forall b' p, b' <> b -> p ∈ C b' -> p ∉ C b) as Hoth.
  { intros b' p Hb Hp Hp'. by apply Hb, (chain_one _ _ _ _ _ _ p (fam_chain _ _ _ _ Hf b') Hcb). }
  split; unfold set_chain.
  - intros b'. case_decide as E; [by subst|]. apply (chain_frame' hm ls); [apply Hf|].
    intros p Hp. by apply Hframe, (Hoth b').
  - intros p Hp Hne. rewrite Hlen in Hp. destruct (fam_cover _ _ _ _ Hf p Hp) as [b' Hb']; [done|].
    exists b'. case_decide as E; [|done]. subst b'. rewrite <- Hperm in Hb'.
    apply elem_of_cons in Hb' as [->|?]; done.
  - intros b' p [= <-]. case_decide as E; [done|]. intros Hp. apply (Hoth b' e E Hp). rewrite <- Hperm. left.
Qed.

(** What the deletion of the position [e] of [d] leaves of a table [ls]. *)
Definition unlinked (hm : R -> nat) ls (r : R) (d : list (HASH_LINK R)) (e : nat) : Prop :=
  (exists C, family hm d (Some e) C) /\ e < length d /\ length d = length ls /\
  map data ls ≡ₚ r :: map data (delete e d).

(** The only record of its chain. *)
Lemma unlink_single (hm : R -> nat) ls C b r :
  family hm ls None C -> C b = [b] -> ls !! b = Some (mk_link None r) -> unlinked hm ls r ls b.
Proof.
  intros Hf EC Hl. split; [|split; [by apply lookup_lt_Some in Hl|split; [done|]]].
  - eexists. apply (family_remove hm ls ls C b [] b); try done; [apply chain_nil|by rewrite EC].
  - by rewrite (delete_Permutation ls b _ Hl) at 1.
Qed.

(** The head: the second link moves to the bucket's position. *)
Lemma unlink_head (hm : R -> nat) ls C b e L r le :
  family hm ls None C -> C b = b :: e :: L -> ls !! b = Some (mk_link (Some e) r) -> ls !! e = Some le ->
  unlinked hm ls r (<[b := le]> ls) e.
Proof.
  intros Hf EC Hl He. pose proof (fam_chain _ _ _ _ Hf b) as Hc. rewrite EC in Hc.
  pose proof (ch_nodup _ _ _ _ Hc) as [Hnb [Hne HnL]%NoDup_cons]%NoDup_cons.
  rewrite not_elem_of_cons in Hnb. destruct Hnb as [Hbe Hnb].
  apply lookup_lt_Some in Hl as Hlt. apply lookup_lt_Some in He as Hlt'.
  apply chain_lseg, lseg_cons in Hc as [_ [(r' & Hr' & Hb') Hs]%lseg_cons].
  rewrite He in Hr'. injection Hr' as ->. split; [|rewrite length_insert; split; [done|split; [done|]]].
  - eexists. apply (family_remove hm ls _ C b (b :: L) e); try done.
    + apply lseg_chain; [|by apply NoDup_cons|by intros p [= <-]].
      apply lseg_cons. split; [exists r'; by rewrite list_lookup_insert_eq|].
      apply (lseg_frame hm ls); [done|]. intros p Hp. apply list_lookup_insert_ne. by intros ->.
    + rewrite EC. apply perm_swap.
    + apply length_insert.
    + rewrite EC. intros p Hp. apply list_lookup_insert_ne. intros ->. apply Hp. left.
  - rewrite move_Permutation by done. by rewrite (delete_Permutation ls b _ Hl) at 1.
Qed.

(** A later one: the link before it skips it. *)
Lemma unlink_inner (hm : R -> nat) ls C b k g lg pos l :
  family hm ls None C -> C b !! k = Some g -> ls !! g = Some lg ->
  C b !! S k = Some pos -> ls !! pos = Some l ->
  unlinked hm ls (data l) (<[g := with_next lg (next l)]> ls) pos.
Proof.
  intros Hf Hk Hlg Hpos Hl. pose proof (fam_chain _ _ _ _ Hf b) as Hc.
  pose proof (ch_nodup _ _ _ _ Hc) as Hnd. pose proof (lookup_lt_Some _ _ _ Hlg) as Hlt.
  pose proof (take_drop_middle _ _ _ Hpos) as HC. rewrite (take_S_r _ _ _ Hk) in HC.
  set (L1 := take k (C b)) in *. set (L2 := drop (S (S k)) (C b)) in *.
  rewrite <- HC in Hnd. rewrite <- HC in Hc. apply chain_lseg in Hc as Hs.
  apply lseg_app in Hs as [Hs1 [(r & Hr & Hb) Hs2]%lseg_cons]. rewrite Hl in Hr. injection Hr as ->.
  apply NoDup_app in Hnd as (Hn1 & Hn12 & [Hnp Hn2]%NoDup_cons).
  assert (forall p, p ∈ L2 -> p <> g) as HgL.
  { intros p Hp ->. apply (Hn12 g); [apply elem_of_app; right; left|by right]. }
  split; [|rewrite length_insert; split; [by apply lookup_lt_Some in Hl|split; [done|]]].
  - eexists. apply (family_remove hm ls _ C b ((L1 ++ [g]) ++ L2) pos); try done.
    + apply lseg_chain.
      * apply lseg_app. split.
        -- apply (lseg_relink hm ls _ b (L1 ++ [g]) _ _ Hn1 Hs1). intros p l' Hp Hl'. rewrite last_snoc.
           rewrite lookup_insert_dec by done. case_decide as E; [subst p|].
           ++ rewrite decide_True by done. cbn [next]. by rewrite Hlg in Hl'; injection Hl' as ->.
           ++ by rewrite decide_False by congruence.
        -- apply (lseg_frame hm ls); [done|]. intros p Hp. apply list_lookup_insert_ne.
           by apply not_eq_sym, HgL.
      * apply NoDup_app. split; [done|]. split; [|done]. intros p Hp Hp2. apply (Hn12 p Hp). by right.
      * intros p Hp. apply (ch_head _ _ _ _ Hc). rewrite <- app_assoc in Hp |- *. by destruct L1.
    + rewrite <- HC. apply Permutation_middle.
    + apply length_insert.
    + intros p Hp. apply list_lookup_insert_ne. intros ->. by apply Hp, list_elem_of_lookup_2 with k.
  - change (@map) with (@fmap list _). rewrite list_fmap_delete.
    replace (data <$> <[g := with_next lg _]> ls) with (data <$> ls).
    + apply delete_Permutation. by rewrite list_lookup_fmap, Hl.
    + rewrite list_fmap_insert. symmetry. apply list_insert_id. by rewrite list_lookup_fmap, Hlg.
Qed.

Lemma unlink_record_spec (hm : R -> nat) ls C b k pos l :
  family hm ls None C -> C b !! k = Some pos -> ls !! pos = Some l ->
  exists d e, unlink_record ls pos (before (C b) None k) = Some (d, e) /\ unlinked hm ls (data l) d e.
Proof.
  intros Hf Hk Hl. pose proof (fam_chain _ _ _ _ Hf b) as Hc. unfold unlink_record. rewrite Hl. obind.
  destruct k as [|k]; cbn [before].
  - assert (pos = b) as -> by (by apply (ch_head _ _ _ _ Hc)).
    destruct (ch_link _ _ _ _ Hc 0 b Hk) as (r & Hr & _). rewrite Hl in Hr. injection Hr as ->. cbn [next data].
    destruct (C b) as [|p0 [|e L]] eqn:EC; [done|..]; injection Hk as ->; cbn [lookup list_lookup].
    + exists ls, b. split; [done|]. by apply (unlink_single hm ls C b).
    + destruct (chain_mem _ _ _ _ e Hc) as (le & Hle & _); [right; left|]. rewrite Hle. obind.
      exists (<[b := le]> ls), e. split; [done|]. by apply (unlink_head hm ls C b e L).
  - destruct (lookup_lt_is_Some_2 (C b) k) as [g Hg]; [apply lookup_lt_Some in Hk; lia|]. rewrite Hg.
    destruct (chain_mem _ _ _ _ g Hc) as (lg & Hlg & _); [by apply list_elem_of_lookup_2 in Hg|].
    rewrite Hlg. obind. eexists _, _. split; [done|]. by apply (unlink_inner hm ls C b k).
Qed.
End Unlink.

(** ** Moving the last link *)

Section Shrink.
Context {R : Type} (hm hm' : R -> nat) (b0 n : nat).
Implicit Types (d : list (HASH_LINK R)) (C : nat -> list nat).
Context (Hlt : b0 < n) (Hhm : forall r, hm' r = if hm r =? n then b0 else hm r).

(** No record of the last bucket is left. *)
Lemma family_shrink d C : family hm d (Some n) C -> family hm' d (Some n) C.
Proof.
  intros Hf. split; [|apply Hf|apply Hf]. intros b.
  apply (chain_frame hm hm' d d); [apply Hf|done|]. intros p l Hp Hl.
  destruct (chain_mem _ _ _ _ _ (fam_chain _ _ _ _ Hf b) Hp) as (l' & Hl' & Hb).
  assert (l = l') as <- by congruence. rewrite Hhm, Hb. destruct (b =? n) eqn:E; b2p; [|done].
  assert (C n = []) as Hn by (apply (family_nil _ _ _ _ _ Hf); by left).
  rewrite E, Hn in Hp. by apply not_elem_of_nil in Hp.
Qed.

Lemma family_nodup2 d e C b b' : family hm d e C -> b <> b' -> NoDup (C b ++ C b').
Proof.
  intros Hf Hne. apply NoDup_app. split; [apply (fam_chain _ _ _ _ Hf b)|].
  split; [|apply (fam_chain _ _ _ _ Hf b')]. intros p Hp Hp'.
  by apply Hne, (chain_one _ _ _ _ _ _ p (fam_chain _ _ _ _ Hf b) (fam_chain _ _ _ _ Hf b')).
Qed.

(** The last bucket is merged with the bucket [b0]. *)
Lemma family_merge d d' C e L :
  family hm d (Some e) C -> chain hm' d' b0 L -> n :: L ≡ₚ e :: C b0 ++ C n ->
  length d' = length d -> (forall p, p ∉ e :: C b0 ++ C n -> d' !! p = d !! p) ->
  family hm' d' (Some n) (set_chain (set_chain C n []) b0 L).
Proof.
  intros Hf Hc Hperm Hlen Hframe.
  assert (forall b p, b <> b0 -> b <> n -> p ∈ C b -> p ∉ e :: C b0 ++ C n) as Hother.
  { intros b p Hb Hn Hp [->|[Hin|Hin]%elem_of_app]%elem_of_cons.
    - by apply (fam_empty _ _ _ _ Hf b e).
    - by apply Hb, (chain_one _ _ _ _ _ _ p (fam_chain _ _ _ _ Hf b) (fam_chain _ _ _ _ Hf b0)).
    - by apply Hn, (chain_one _ _ _ _ _ _ p (fam_chain _ _ _ _ Hf b) (fam_chain _ _ _ _ Hf n)). }
  assert (NoDup (n :: L)) as [HnL _]%NoDup_cons.
  { rewrite Hperm. apply NoDup_cons. rewrite elem_of_app. split.
    - intros [Hp|Hp]; by apply (fam_empty _ _ _ _ Hf _ e) in Hp.
    - by apply (family_nodup2 d (Some e)), Nat.lt_neq. }
  split; unfold set_chain.
  - intros b. repeat case_decide; subst; [done|apply chain_nil|].
    apply (chain_frame hm hm' d d'); [apply Hf| |].
    + intros p Hp. by apply Hframe, (Hother b).
    + intros p l Hp Hl. destruct (chain_mem _ _ _ _ _ (fam_chain _ _ _ _ Hf b) Hp) as (l' & Hl' & Hb).
      assert (l = l') as <- by congruence. rewrite Hhm, Hb. by case_if.
  - intros p Hp Hne. rewrite Hlen in Hp. destruct (decide (p ∈ n :: L)) as [Hin|Hin].
    + exists b0. rewrite decide_True by done. apply elem_of_cons in Hin as [->|?]; done.
    + rewrite Hperm in Hin. destruct (fam_cover _ _ _ _ Hf p Hp) as [b Hb].
      { intros [= ->]. apply Hin. left. }
      exists b. rewrite !decide_False; [done| |]; intros ->; apply Hin; right; apply elem_of_app; tauto.
  - intros b p [= <-]. repeat case_decide; subst; [done|apply not_elem_of_nil|].
    intros Hp. apply (Hother b n); [done..|]. rewrite <- Hperm. left.
Qed.

(** The last link goes to the head of the bucket. *)
Lemma merge_empty d C L l :
  family hm d (Some b0) C -> C n = n :: L -> d !! n = Some l ->
  exists C', family hm' (<[b0 := l]> d) (Some n) C'.
Proof.
  intros Hf EC Hl. pose proof (fam_chain _ _ _ _ Hf n) as Hc. rewrite EC in Hc.
  assert (C b0 = []) as Hnil by (apply (family_nil _ _ _ _ _ Hf); by left).
  assert (b0 ∉ C n) as Hnb by (by apply (fam_empty _ _ _ _ Hf)). rewrite EC, not_elem_of_cons in Hnb.
  apply lookup_lt_Some in Hl as Hn. pose proof (ch_nodup _ _ _ _ Hc) as [HnL HndL]%NoDup_cons.
  pose proof (chain_lseg _ _ _ _ Hc) as [(r & Hr & Hb) Hs]%lseg_cons. rewrite Hl in Hr. injection Hr as ->.
  eexists. apply (family_merge d _ C b0 (b0 :: L) Hf).
  - apply lseg_chain; [|apply NoDup_cons; tauto|by intros p [= <-]]. apply lseg_cons. split.
    + exists r. rewrite list_lookup_insert_eq by lia. split; [done|]. by rewrite Hhm, Hb, Nat.eqb_refl.
    + intros k p Hk. destruct (Hs k p Hk) as (r' & Hr' & Hb'). exists r'.
      rewrite list_lookup_insert_ne by (intros ->; apply Hnb; by apply list_elem_of_lookup_2 in Hk).
      split; [done|]. by rewrite Hhm, Hb', Nat.eqb_refl.
  - rewrite Hnil, EC. apply perm_swap.
  - apply length_insert.
  - intros p Hp. apply list_lookup_insert_ne. intros ->. apply Hp. left.
Qed.

Lemma lseg_home d P x : lseg hm d n P x -> lseg hm' d b0 P x.
Proof.
  intros Hs k p Hk. destruct (Hs k p Hk) as (r & Hr & Hb). exists r. split; [done|].
  by rewrite Hhm, Hb, Nat.eqb_refl.
Qed.

(** The chain of the last bucket, with its head moved to [e], goes between the
    head of the bucket [b0] and the links [Y]. *)
Lemma merge_splice d C e l L Y find rp fuel :
  family hm d (Some e) C -> e < length d -> d !! n = Some l ->
  d !! b0 = Some (mk_link (head Y) rp) -> hm' rp = b0 ->
  lseg hm d n (n :: L) find -> lseg hm' d b0 Y None -> (find = None \/ find = Some b0) ->
  b0 :: n :: L ++ Y ≡ₚ C b0 ++ C n -> length (C n) <= fuel -> length (n :: L) <= length (C n) ->
  exists d2, movelink fuel (<[e := l]> d) find e (head Y) = Some d2 /\
    d2 !! b0 = Some (mk_link (head Y) rp) /\
    exists C', family hm' (<[b0 := mk_link (Some e) rp]> d2) (Some n) C'.
Proof.
  intros Hf He Hl Hp Hrp [(rn & Hrn & Hbn') Hn]%lseg_cons HY Hfind Hperm Hfuel HL.
  rewrite Hl in Hrn. injection Hrn as Hlr.
  assert (NoDup (e :: b0 :: n :: L ++ Y)) as Hnd.
  { rewrite Hperm. apply NoDup_cons. rewrite elem_of_app. split.
    - intros [Hx|Hx]; by apply (fam_empty _ _ _ _ Hf _ e) in Hx.
    - by apply (family_nodup2 d (Some e)), Nat.lt_neq. }
  pose proof Hnd as [Heb [Hbn [HnL [HnLL [HLY HnY]]%NoDup_app]%NoDup_cons]%NoDup_cons]%NoDup_cons.
  do 2 rewrite not_elem_of_cons in Heb. rewrite not_elem_of_cons, not_elem_of_app in Hbn.
  rewrite not_elem_of_app in Heb, HnL.
  destruct (movelink_lseg hm' (<[e := l]> d) b0 e L find (head Y) fuel) as (d2 & Hml & Hs2 & Hframe).
  { apply lseg_cons. split.
    - exists rn. rewrite list_lookup_insert_eq, Hlr by done. split; [done|]. by rewrite Hhm, Hbn', Nat.eqb_refl.
    - apply lseg_home. apply (lseg_frame hm d); [done|]. intros q Hq. apply list_lookup_insert_ne.
      intros ->. tauto. }
  { apply NoDup_cons. tauto. }
  { intros q ->. destruct Hfind as [|[= ->]]; [done|]. rewrite not_elem_of_cons. intuition. }
  { simpl in HL. lia. }
  assert (d2 !! b0 = Some (mk_link (head Y) rp)) as Hb2.
  { rewrite Hframe by (rewrite not_elem_of_cons; intuition). rewrite list_lookup_insert_ne by intuition. done. }
  exists d2. split; [done|]. split; [done|]. eexists.
  apply lookup_lt_Some in Hb2 as Hlt2.
  assert (length d2 = length d) as Hlen by (apply movelink_data in Hml as [_ ->]; apply length_insert).
  assert (n :: b0 :: (e :: L) ++ Y ≡ₚ e :: b0 :: n :: L ++ Y) as Hpos.
  { simpl. by rewrite (perm_swap e b0), (perm_swap e n), (perm_swap b0 n). }
  rewrite <- Hpos in Hnd. apply NoDup_cons in Hnd as [_ Hnd].
  apply (family_merge d _ C e (b0 :: (e :: L) ++ Y) Hf).
  - apply lseg_chain; [|done|by intros q [= <-]].
    apply lseg_cons. split; [exists rp; by rewrite list_lookup_insert_eq|].
    apply lseg_app. split.
    + apply (lseg_frame hm' d2); [by destruct (head Y)|]. intros q Hq. apply list_lookup_insert_ne.
      intros <-. apply elem_of_cons in Hq. intuition.
    + apply (lseg_frame hm' d); [done|]. intros q Hq.
      assert (q ∉ e :: L) as HqL by (rewrite not_elem_of_cons; split; [by intros ->; intuition|intros Hx; by apply (HLY q)]).
      rewrite list_lookup_insert_ne by (intros <-; intuition). rewrite Hframe by done.
      apply list_lookup_insert_ne. intros <-. apply HqL. left.
  - by rewrite <- Hperm.
  - by rewrite length_insert.
  - intros q Hq. rewrite <- Hperm in Hq. do 3 rewrite not_elem_of_cons in Hq. rewrite not_elem_of_app in Hq.
    rewrite list_lookup_insert_ne by intuition. rewrite Hframe by (rewrite not_elem_of_cons; intuition).
    apply list_lookup_insert_ne. intuition.
Qed.
End Shrink.

Section MoveLast.
Context {R : Type} (my_hash_key : R -> list Z) (hash_sort : list Z -> Z) (bl0 bl b0 n : nat).
Implicit Types (d : list (HASH_LINK R)) (C : nat -> list nat).

Let hm := home my_hash_key hash_sort bl0 (S n).
Let hm' := home my_hash_key hash_sort bl n.
Context (Hlt : b0 < n) (Hhm : forall r, hm' r = if hm r =? n then b0 else hm r).

(** What moving the last link to [e] has to do. *)
Definition moved d (e : nat) (d' : list (HASH_LINK R)) : Prop :=
  (exists C, family hm' d' (Some n) C) /\ length d' = length d /\
  map data (delete n d') ≡ₚ map data (delete e d).

Lemma moved_data d e l d' C :
  family hm' d' (Some n) C -> length d' = length d -> e <> n -> e < length d -> d !! n = Some l ->
  map data d' = map data (<[e := l]> d) -> moved d e d'.
Proof.
  intros Hf Hlen Hne He Hl Hd. split; [eauto|]. split; [done|].
  change (@map) with (@fmap list _) in *. rewrite !list_fmap_delete, Hd, list_fmap_insert.
  apply move_Permutation; [congruence| |by rewrite length_fmap]. by rewrite list_lookup_fmap, Hl.
Qed.

(** The last link is not the head of its chain: the link to it is changed. *)
Lemma last_inner d C e l :
  family hm d (Some e) C -> e < length d -> length d = S n -> e <> n -> d !! n = Some l ->
  hm (data l) <> n ->
  exists d', movelink (S n) (<[e := l]> d) (Some n) (hm (data l)) (Some e) = Some d' /\ moved d e d'.
Proof.
  intros Hf He Hd Hne Hl Hc.
  destruct (movelink_move hm d e C n l (<[e := l]> d) (S n)) as (pk & lk & C' & Hml & _ & _ & Hf'); try done; try lia.
  { intros p H1 H2. by rewrite list_lookup_insert_ne by done. }
  eexists. split; [exact Hml|]. apply movelink_data in Hml as [Hml1 Hml2].
  apply (moved_data d e l _ C'); try done; [by apply (family_shrink hm hm' b0)|].
  by rewrite Hml2, length_insert.
Qed.

(** The last link is the head of its chain and goes to the bucket [b0], whose
    link belongs to another chain and moves to [e]. *)
Lemma last_evict d C e l p L :
  family hm d (Some e) C -> e < length d -> length d = S n -> e <> n -> e <> b0 -> d !! n = Some l ->
  C n = n :: L -> d !! b0 = Some p -> hm' (data p) <> b0 ->
  exists d', movelink (S n) (<[b0 := l]> (<[e := p]> d)) (Some b0) (hm' (data p)) (Some e) = Some d' /\
    moved d e d'.
Proof.
  intros Hf He Hd Hne Hneb Hl EC Hp Hhome.
  assert (hm' (data p) = hm (data p)) as Hsame by (rewrite Hhm in Hhome |- *; by case_if).
  rewrite Hsame in Hhome |- *.
  destruct (movelink_move hm d e C b0 p (<[b0 := l]> (<[e := p]> d)) (S n)) as (pk & lk & C' & Hml & Hpk & Hpin & Hf'); try done; try lia.
  { intros q H1 H2. by rewrite !list_lookup_insert_ne by done. }
  apply movelink_data in Hml as Hdat. destruct Hdat as [Hml1 Hml2].
  rewrite (list_insert_insert_ne (<[e := p]> d) pk b0) in Hml by done.
  eexists. split; [exact Hml|]. rewrite (list_insert_insert_ne (<[e := p]> d) pk b0) in Hml1, Hml2 by done.
  assert (hm (data l) = n) as Hln.
  { destruct (chain_mem _ _ _ _ n (fam_chain _ _ _ _ Hf n)) as (l' & Hl' & Hb); [rewrite EC; left|]. congruence. }
  set (d2 := <[pk := lk]> (<[e := p]> d)) in *.
  assert (d2 !! n = Some l) as Hl2.
  { unfold d2. rewrite !list_lookup_insert_ne; [done|congruence|]. intros ->.
    assert (n ∈ C n) as Hnn by (rewrite EC; left).
    pose proof (chain_one _ _ _ _ _ _ n (fam_chain _ _ _ _ Hf (hm (data p))) (fam_chain _ _ _ _ Hf n) Hpin Hnn) as Hpn.
    rewrite Hhm, Hpn, Nat.eqb_refl in Hsame. lia. }
  split; [|split; [by rewrite Hml2, !length_insert|]].
  - destruct (family_bucket _ _ _ _ _ _ Hf' Hl2) as [_ [L' HL']]; [intros [=]; lia|]. rewrite Hln in HL'.
    by apply (merge_empty hm hm' b0 n Hlt Hhm d2 C' L' l).
  - change (@map) with (@fmap list _) in *. rewrite !list_fmap_delete, Hml1, !list_fmap_insert.
    rewrite (move_Permutation _ n b0 (data l)).
    + apply move_Permutation; [congruence|by rewrite list_lookup_fmap, Hp|by rewrite length_fmap].
    + lia.
    + rewrite list_lookup_insert_ne, list_lookup_fmap, Hl by congruence. done.
    + rewrite length_insert, length_fmap. lia.
Qed.

(** What merge_splice gives, in terms of the code. *)
Lemma splice_moved d C e l L Y find rp :
  family hm d (Some e) C -> e < length d -> length d = S n -> e <> n -> d !! n = Some l ->
  d !! b0 = Some (mk_link (head Y) rp) -> hm' rp = b0 ->
  lseg hm d n (n :: L) find -> lseg hm' d b0 Y None -> (find = None \/ find = Some b0) ->
  b0 :: n :: L ++ Y ≡ₚ C b0 ++ C n -> length (n :: L) <= length (C n) ->
  exists d2 p2, movelink (S n) (<[e := l]> d) find e (head Y) = Some d2 /\ d2 !! b0 = Some p2 /\
    moved d e (<[b0 := with_next p2 (Some e)]> d2).
Proof.
  intros Hf He Hd Hne Hl Hp Hrp Hn HY Hfind Hperm HL.
  destruct (merge_splice hm hm' b0 n Hlt Hhm d C e l L Y find rp (S n)) as (d2 & Hml & Hb2 & C' & Hf'); try done.
  { rewrite <- Hd. apply (chain_length _ _ _ _ (fam_chain _ _ _ _ Hf n)). }
  exists d2, (mk_link (head Y) rp). split; [done|]. split; [done|].
  apply movelink_data in Hml as [Hml1 Hml2]. apply (moved_data d e l _ C'); try done.
  - by rewrite length_insert, Hml2, length_insert.
  - rewrite <- Hml1. change (@map) with (@fmap list _). rewrite list_fmap_insert. apply list_insert_id.
    by rewrite list_lookup_fmap, Hb2.
Qed.

(** The last link is the head of its chain, which is merged with the one of the
    bucket [b0]. *)
Lemma last_merge d C e l p L :
  family hm d (Some e) C -> e < length d -> length d = S n -> e <> n -> d !! n = Some l ->
  C n = n :: L -> d !! b0 = Some p -> e <> b0 -> hm' (data p) = b0 ->
  exists d2 p2, movelink (S n) (<[e := l]> d) (if hm (data p) =? n then Some b0 else None) e (next p) = Some d2 /\
    d2 !! b0 = Some p2 /\ moved d e (<[b0 := with_next p2 (Some e)]> d2).
Proof.
  intros Hf He Hd Hne Hl EC Hp Hneb Hhome.
  pose proof (chain_lseg _ _ _ _ (fam_chain _ _ _ _ Hf n)) as Hsn. rewrite EC in Hsn.
  destruct (family_bucket _ _ _ _ _ _ Hf Hp) as [Hin [M HM]]; [congruence|].
  destruct (hm (data p) =? n) eqn:E; b2p.
  - assert (C b0 = []) as Hnil by (apply (family_nil _ _ _ _ _ Hf); right; exists p; split; [done|lia]).
    rewrite E, EC in Hin. apply elem_of_cons in Hin as [?|Hin]; [lia|].
    apply list_elem_of_split in Hin as (L1 & L2 & ->). rewrite app_comm_cons in Hsn.
    apply lseg_app in Hsn as [Hs1 [(rp & Hrp & Hb) Hs2]%lseg_cons]. rewrite Hp in Hrp. injection Hrp as ->.
    cbn [next data] in *. replace (from_option Some None (head L2)) with (head L2) in * by (by destruct (head L2)).
    apply (splice_moved d C e l L1 L2 (Some b0) rp); try done.
    + by apply lseg_home with hm n.
    + by right.
    + rewrite Hnil, EC. simpl. rewrite (perm_swap n b0). apply perm_skip. apply Permutation_middle.
    + rewrite EC. simpl. rewrite length_app. simpl. lia.
  - assert (hm (data p) = b0) as Eb by (by rewrite Hhm, (proj2 (Nat.eqb_neq _ _) E) in Hhome).
    rewrite Eb in HM. pose proof (chain_lseg _ _ _ _ (fam_chain _ _ _ _ Hf b0)) as Hsb. rewrite HM in Hsb.
    apply lseg_cons in Hsb as [(rp & Hrp & Hb) Hs2]. rewrite Hp in Hrp. injection Hrp as ->.
    cbn [next data] in *. replace (from_option Some None (head M)) with (head M) in * by (by destruct (head M)).
    apply (splice_moved d C e l L M None rp); try done.
    + intros k q Hk. destruct (Hs2 k q Hk) as (r & Hr & Hbr). exists r. split; [done|].
      rewrite Hhm. by case_if; [lia|].
    + by left.
    + rewrite HM, EC. simpl. apply perm_skip. rewrite (Permutation_app_comm M). done.
    + by rewrite EC.
Qed.

Lemma move_last_spec d C e :
  family hm d (Some e) C -> e < length d -> length d = S n ->
  exists d', move_last my_hash_key hash_sort bl0 bl n d e = Some d' /\ moved d e d'.
Proof.
  intros Hf He Hd. unfold move_last. case_if.
  { subst e. exists d. split; [done|]. split; [|done]. exists C. by apply (family_shrink hm hm' b0). }
  destruct (lookup_lt_is_Some_2 d n) as [l Hl]; [lia|]. rewrite Hl. obind.
  rewrite !mask_home. fold hm hm'.
  destruct (family_bucket _ _ _ _ _ _ Hf Hl) as [Hin [L HL]]; [congruence|].
  destruct (decide (hm (data l) = n)) as [Hln|Hln].
  - assert (hm' (data l) = b0) as -> by (by rewrite Hhm, Hln, Nat.eqb_refl). rewrite Hln in HL |- *. case_if.
    { subst e. exists (<[b0 := l]> d). split; [done|].
      destruct (merge_empty hm hm' b0 n Hlt Hhm d C L l) as [C' Hf']; try done.
      apply (moved_data d b0 l _ C'); try done. apply length_insert. }
    destruct (lookup_lt_is_Some_2 d b0) as [p Hp]; [lia|]. rewrite Hp. obind.
    rewrite !mask_home. fold hm hm'.
    rewrite Nat.eqb_refl, andb_false_r, (Nat.eqb_sym n). case_if.
    + apply (last_evict d C e l p L); try done; congruence.
    + destruct (last_merge d C e l p L) as (d2 & p2 & Hml & Hp2 & Hm); try done.
      rewrite Hml. obind. rewrite Hp2. obind. eauto.
  - assert (hm' (data l) = hm (data l)) as -> by (by rewrite Hhm, (proj2 (Nat.eqb_neq _ _) Hln)).
    rewrite (proj2 (Nat.eqb_neq (hm (data l)) e)).
    2:{ intros Hce. rewrite Hce, (family_nil _ _ _ _ e Hf (or_introl eq_refl)) in Hin. by apply not_elem_of_nil in Hin. }
    destruct (chain_mem _ _ _ _ (hm (data l)) (fam_chain _ _ _ _ Hf (hm (data l)))) as (p & Hp & Hpc); [rewrite HL; left|].
    rewrite Hp. obind.
    rewrite !mask_home. fold hm hm'.
    rewrite Hhm, Hpc, (proj2 (Nat.eqb_neq _ _) Hln), Nat.eqb_refl. cbn [negb andb].
    apply (last_inner d C e l); done.
Qed.
End MoveLast.

(** ** my_hash_delete *)

Section Delete.
Context {T R : Type} `{LinkArrayLaws T (HASH_LINK R)} `{EqDecision R}.
Context (my_hash_key : R -> list Z) (hash_sort : list Z -> Z).

(** The mask length after the count was decreased. *)
Lemma sizes_shrink bl0 n :
  sizes_ok bl0 (S n) -> 0 < n -> let bl := if n <? bl0 / 2 then bl0 / 2 else bl0 in
  sizes_ok bl n /\ exists b0, b0 < n /\ forall r : R, home my_hash_key hash_sort bl n r =
    if home my_hash_key hash_sort bl0 (S n) r =? n then b0 else home my_hash_key hash_sort bl0 (S n) r.
Proof.
  intros [[? _]|(k & -> & Hk)] Hn; [lia|].
  assert (2 ^ S k / 2 = 2 ^ k) as -> by (rewrite Nat.pow_succ_r', Nat.mul_comm, Nat.div_mul; lia).
  assert (exists j, (if n <? 2 ^ k then 2 ^ k else 2 ^ S k) = 2 ^ S j /\ 2 ^ j <= n < 2 ^ S j /\
    forall r, home my_hash_key hash_sort (2 ^ S k) (S n) r = home my_hash_key hash_sort (2 ^ S j) (S n) r)
    as (j & -> & Hj & Hsame).
  { destruct (n <? 2 ^ k) eqn:E; b2p; [|by exists k; split; [|split; [lia|]]].
    assert (S n = 2 ^ k) as Hs by lia. destruct k as [|j]; [simpl in Hs; lia|]. exists j. split; [done|].
    rewrite Nat.pow_succ_r' in Hs |- *. split; [lia|]. intros r. unfold home, my_hash_rec_mask.
    rewrite Hs, <- !Nat.pow_succ_r'. apply my_hash_mask_double, rec_hashnr_nonneg. }
  split; [right; by exists j|]. exists (n - 2 ^ j). pose proof (Nat.pow_nonzero 2 j ltac:(lia)).
  split; [lia|]. intros r. rewrite Hsame.
  pose proof (home_lt my_hash_key hash_sort (2 ^ S j) n r ltac:(right; by exists j) Hn) as Hlt.
  unfold home, my_hash_rec_mask in *. rewrite (my_hash_mask_grow _ j n Hj (rec_hashnr_nonneg _ _ r)).
  destruct (_ && _) eqn:E; b2p; [by rewrite Nat.eqb_refl|].
  case_if; lia.
Qed.

(** The array without its last position. *)
Lemma family_removelast (hm : R -> nat) d n C :
  family hm d (Some n) C -> length d = S n ->
  family hm (removelast d) None C /\ length (removelast d) = n /\ delete n d = removelast d.
Proof.
  intros [Hc Hv He] Hd. destruct d as [|x d _] using rev_ind; [done|].
  rewrite removelast_last. rewrite length_app in Hd. simpl in Hd. assert (length d = n) as Hn by lia.
  split; [|split; [done|]].
  - split; [|intros p Hp _; apply Hv; [rewrite length_app; simpl; lia|intros [= ->]; lia]|done].
    intros b. apply (chain_frame' hm (d ++ [x])); [done|]. intros p Hp.
    pose proof (chain_lt _ _ _ _ _ (Hc b) Hp) as Hp'. rewrite length_app in Hp'. simpl in Hp'.
    assert (p <> n) by (intros ->; by apply (He b n)). rewrite lookup_app_l by lia. done.
  - rewrite <- Hn, delete_take_drop, take_app_length, drop_ge; [apply app_nil_r|rewrite length_app; simpl; lia].
Qed.

Lemma move_last_table bl0 n d C e :
  sizes_ok bl0 (S n) -> length d = S n -> family (home my_hash_key hash_sort bl0 (S n)) d (Some e) C ->
  e < length d -> let bl := if n <? bl0 / 2 then bl0 / 2 else bl0 in
  sizes_ok bl n /\ exists d', move_last my_hash_key hash_sort bl0 bl n d e = Some d' /\
    length d' = S n /\ length (removelast d') = n /\
    (exists C', family (home my_hash_key hash_sort bl n) (removelast d') None C') /\
    map data (removelast d') ≡ₚ map data (delete e d).
Proof.
  intros Hs Hd Hf He bl. destruct (decide (n = 0)) as [->|Hn].
  - assert (e = 0) as -> by lia. destruct d as [|x [|]]; try done.
    destruct Hs as [[? _]|(k & -> & Hk)]; [done|].
    assert (k = 0) as -> by (destruct k; [done|rewrite Nat.pow_succ_r' in Hk; pose proof (Nat.pow_nonzero 2 k); lia]).
    split; [by left|]. exists [x]. split; [done|]. split; [done|]. split; [done|]. split; [|done].
    exists (fun _ => []). split; [intros b; apply chain_nil|intros p Hp; simpl in Hp; lia|done].
  - destruct (sizes_shrink bl0 n Hs ltac:(lia)) as [Hs' (b0 & Hb0 & Hhm)]. split; [done|].
    destruct (move_last_spec my_hash_key hash_sort bl0 bl b0 n Hb0 Hhm d C e Hf He Hd)
      as (d' & Hm & [C' Hf'] & Hlen & Hperm).
    exists d'. rewrite Hd in Hlen. destruct (family_removelast _ _ _ _ Hf' Hlen) as (Hf2 & Hlen2 & Hdel).
    split; [done|]. split; [done|]. split; [done|]. split; [by exists C'|]. by rewrite <- Hdel.
Qed.

(** C9.  Deletion: my_hash_delete fails and changes nothing when the record is
    not in the table; otherwise it takes exactly that record out, gives it to
    the free function when there is one, and the table, now one smaller, stays
    well-formed: moving the last link into the gap and merging the last bucket
    keep every other record in the chain of its bucket. *)
Theorem my_hash_delete_correct (h : HASH T R) record :
  hash_ok my_hash_key hash_sort h ->
  if decide (record ∈ map data (links h))
  then exists h', my_hash_delete my_hash_key hash_sort h record =
      Some (false, h', if free h then Some record else None) /\
    hash_ok my_hash_key hash_sort h' /\ map data (links h) ≡ₚ record :: map data (links h') /\
    S (records h') = records h /\ key_length h' = key_length h /\ flags h' = flags h /\
    get_hash h' = get_hash h /\ free h' = free h
  else my_hash_delete my_hash_key hash_sort h record = Some (true, h, None).
Proof.
  intros [Ha Hl Hs [C Hf]]. unfold my_hash_delete. destruct (records h) as [|n] eqn:En.
  { destruct (links h); [|done]. by rewrite decide_False by apply not_elem_of_nil. }
  pose proof (home_lt my_hash_key hash_sort _ _ record Hs ltac:(lia)) as Hlt.
  destruct (find_record_table _ _ _ record (S (S n)) Hf) as [[Hfr Hno]|(k & q & l & Hk & Hq & Hd & Hfr)];
    [lia|lia|rewrite mask_home, Hfr; obind..].
  { by rewrite decide_False. }
  rewrite decide_True.
  2:{ apply list_elem_of_fmap. exists l. split; [done|]. by apply list_elem_of_lookup_2 in Hq. }
  destruct (unlink_record_spec _ _ _ _ _ _ _ Hf Hk Hq) as (d & e & Hu & [C' Hf'] & He & Hlen & Hperm).
  rewrite Hu. obind. rewrite Hl in Hlen.
  destruct (move_last_table _ _ _ _ _ Hs Hlen Hf' He) as (Hs' & d' & Hm & Hlen' & Hlen2 & [C2 Hf2] & Hperm2).
  rewrite Hm. obind. eexists. split; [done|].
  destruct (la_put_ok (array h) d' Ha) as [Hi1 Hd1]; [unfold links in Hl; lia|].
  destruct (la_pop_ok (la_put (array h) d') Hi1) as [Hi2 Hd2]; [rewrite Hd1; by destruct d'|].
  rewrite Hd1 in Hd2. split; [|split; [|done]].
  - split; unfold links; cbn; rewrite ?Hd2; try done. by exists C2.
  - unfold links at 2. cbn. rewrite Hd2, Hperm2, Hperm, Hd. done.
Qed.
End Delete.

Lemma my_hash_delete_correct_witness :
  exists h', my_hash_delete ex_key ex_sort ex_table 4 = Some (false, h', None) /\
    hash_ok ex_key ex_sort h' /\ [4; 1; 0] ≡ₚ 4 :: map data (links h').
Proof.
  destruct (my_hash_delete_correct ex_key ex_sort ex_table 4 ex_ok) as (h' & H1 & H2 & H3 & _).
  exists h'. split; [exact H1|]. split; [exact H2|exact H3].
Defined.
