(* ===== verification/HashUpdate.v ===== *)
(** * Hash tables: a record whose key has changed

    my_hash_update is called after the key of a record was changed in place: it
    takes the record out of the chain of the old key and links it into the chain
    of the new one.  [key0] is the key before and [my_hash_key] the key after;
    they differ for one record only. *)

From stdpp Require Import prelude list list_numbers.
From Stdlib Require Import ZArith Lia ZifyNat.
From S2P Require Import Prelude DynArray HashTable HashChains HashSearch HashInsert HashDelete.

Open Scope nat_scope.

(** ** Linking the record in again *)

Section Relink.
Context {R : Type} `{EqDecision R}.
Implicit Types (d : list (HASH_LINK R)) (C : nat -> list nat).

Lemma elem_of_delete_ne {A} (l : list A) i j x : l !! j = Some x -> j <> i -> x ∈ delete i l.
Proof.
  intros Hj Hne. rewrite delete_take_drop, elem_of_app.
  destruct (decide (j < i)).
  - left. apply list_elem_of_lookup_2 with j. by rewrite lookup_take_lt.
  - right. apply list_elem_of_lookup_2 with (j - S i). rewrite lookup_drop. by replace (S i + (j - S i)) with j by lia.
Qed.

(** When the freed position is the record's own, the link is still there. *)
Lemma unlink_record_same d pos g d' e :
  unlink_record d pos g = Some (d', e) -> g <> Some pos -> e = pos -> d' !! pos = d !! pos.
Proof.
  unfold unlink_record. destruct (d !! pos) as [l|] eqn:El; [|done]. obind. intros Hu Hg He.
  destruct g as [g|].
  - destruct (d !! g) as [lg|]; [|done]. simpl in Hu. injection Hu as <- <-.
    rewrite list_lookup_insert_ne; [done|congruence].
  - destruct (next l) as [e'|].
    + destruct (d !! e') as [le|] eqn:Ele; [|done]. simpl in Hu. injection Hu as <- <-. subst e'.
      rewrite list_lookup_insert_eq; [congruence|by apply lookup_lt_Some in El].
    + injection Hu as <- <-. done.
Qed.

Lemma relink_record_spec my_hash_key hash_sort bl n d C e idx org :
  let hm := home my_hash_key hash_sort bl n in
  family hm d (Some e) C -> e < length d -> length d = n -> hm (data org) < length d ->
  (e = idx -> d !! idx = Some org) ->
  exists d' C', relink_record my_hash_key hash_sort bl n d e idx (hm (data org)) org = Some d' /\ family hm d' None C' /\
    length d' = length d /\ map data d' ≡ₚ data org :: map data (delete e d).
Proof.
  intros hm Hf He Hn Hlt Hsame. unfold relink_record. case_if.
  { exists (<[e := mk_link None (data org)]> d), (set_chain C e [e]). split.
    - destruct (e =? idx) eqn:E; b2p; cbn [negb].
      + subst idx. by rewrite (Hsame eq_refl).
      + rewrite list_lookup_insert_eq by done. obind. by rewrite list_insert_insert_eq.
    - split; [by apply place_empty|]. rewrite length_insert. split; [done|]. by rewrite insert_Permutation. }
  destruct (lookup_lt_is_Some_2 d (hm (data org))) as [p Hp]; [done|]. rewrite Hp. obind.
  change (my_hash_rec_mask my_hash_key hash_sort (data p) bl n) with (hm (data p)).
  destruct (hm (data org) =? hm (data p)) eqn:E; b2p; cbn [negb].
  - rewrite list_lookup_insert_ne by congruence. rewrite Hp. obind.
    destruct (family_second hm d (<[hm (data org) := with_next p (Some e)]> (<[e := with_next org (next p)]> d)) e C
      (hm (data org)) p (data p) (data org)) as (L & _ & Hf'); try done.
    + by rewrite !length_insert.
    + by rewrite list_lookup_insert_eq by (by rewrite length_insert).
    + by rewrite list_lookup_insert_ne, list_lookup_insert_eq by done.
    + intros q H1 H2. by rewrite !list_lookup_insert_ne by done.
    + eexists _, _. split; [done|]. split; [done|]. rewrite !length_insert. split; [done|].
      rewrite list_insert_insert_ne by done. rewrite insert_Permutation by (by rewrite length_insert).
      cbn [map data with_next]. apply perm_skip.
      change (@map) with (@fmap list _). rewrite !list_fmap_delete. f_equiv. 
      rewrite list_fmap_insert. rewrite list_insert_id; [done|]. by rewrite list_lookup_fmap, Hp.
  - destruct (movelink_move hm d e C (hm (data org)) p (<[e := p]> d) (S n)) as (pk & lk & C' & Hml & Hpk & _ & Hf'); try done; [lia|..].
    { intros q H1 H2. by rewrite list_lookup_insert_ne by done. }
    rewrite Hml. obind. eexists _, _. split; [done|].
    apply movelink_data in Hml as [Hml1 _].
    split; [apply place_empty; [done|by rewrite !length_insert|done]|]. rewrite !length_insert. split; [done|].
    rewrite insert_Permutation by (by rewrite !length_insert). cbn [map data with_next]. apply perm_skip.
    change (@map) with (@fmap list _) in *. rewrite !list_fmap_delete, Hml1, list_fmap_insert.
    apply move_Permutation; [done|by rewrite list_lookup_fmap, Hp|by rewrite length_fmap].
Qed.
End Relink.

(** ** my_hash_update *)

Section Update.
Context {T R : Type} `{LinkArrayLaws T (HASH_LINK R)} `{EqDecision R}.
Context (key0 my_hash_key : R -> list Z) (hash_sort : list Z -> Z) (my_strnncoll : list Z -> list Z -> Z).
Context (h : HASH T R) (record : R) (rs : list R).
Context (Hok : hash_ok key0 hash_sort h) (Hkeys : forall r, r <> record -> key0 r = my_hash_key r).
Context (Hrs : map data (links h) ≡ₚ record :: rs) (Honce : record ∉ rs).

Let hm0 := home key0 hash_sort (blength h) (records h).
Let hm := home my_hash_key hash_sort (blength h) (records h).

Lemma home_other r : r <> record -> hm r = hm0 r.
Proof. intros Hr. unfold hm, hm0, home, my_hash_rec_mask, rec_hashnr. by rewrite Hkeys. Qed.

Lemma records_pos : 0 < records h.
Proof.
  rewrite <- (ok_length _ _ _ Hok), <- (length_map data), Hrs. simpl. lia.
Qed.

(** The record moves from its old chain to the new one. *)
Lemma update_links C :
  family hm0 (links h) None C -> hm record <> hm0 record ->
  exists q prev l d e d', find_record (links h) record (S (records h)) (hm0 record) None = Some (Some (q, prev)) /\
    links h !! q = Some l /\ unlink_record (links h) q prev = Some (d, e) /\
    relink_record my_hash_key hash_sort (blength h) (records h) d e q (hm record) l = Some d' /\
    length d' = length (links h) /\ (exists C', family hm d' None C') /\ map data d' ≡ₚ map data (links h).
Proof.
  intros Hf Hne. pose proof (ok_length _ _ _ Hok) as Hlen. pose proof records_pos as Hpos.
  destruct (find_record_table hm0 (links h) C record (S (records h)) Hf) as [[_ Hno]|(k & q & l & Hk & Hq & Hd & Hfr)].
  { rewrite Hlen. apply home_lt; [apply Hok|done]. } { lia. }
  { exfalso. apply Hno. rewrite Hrs. left. }
  destruct (unlink_record_spec hm0 _ _ _ _ _ _ Hf Hk Hq) as (d & e & Hu & [C1 Hf1] & He & Hld & Hperm).
  assert (record ∉ map data (delete e d)) as Hgone.
  { rewrite Hd, Hrs in Hperm. apply Permutation_cons_inv in Hperm. by rewrite <- Hperm. }
  assert (family hm d (Some e) C1) as Hf2.
  { apply (family_rehome hm0); [done|]. intros p lp Hpe Hlp. apply home_other. intros Heq. apply Hgone.
    rewrite <- Heq. apply list_elem_of_fmap. exists lp. split; [done|].
    apply (elem_of_delete_ne d e p); [done|congruence]. }
  destruct (relink_record_spec my_hash_key hash_sort (blength h) (records h) d C1 e q l Hf2)
    as (d' & C2 & Hr & Hf3 & Hlen3 & Hperm3); [done|lia| | |].
  { rewrite Hd, Hld, Hlen. apply home_lt; [apply Hok|done]. }
  { intros ->. rewrite <- Hq. apply (unlink_record_same _ _ _ _ _ Hu); [|done].
    destruct k as [|k]; cbn [before]; [done|]. intros Hk'.
    pose proof (NoDup_lookup _ _ _ _ (ch_nodup _ _ _ _ (fam_chain _ _ _ _ Hf (hm0 record))) Hk Hk'). lia. }
  rewrite Hd in Hr. exists q, (before (C (hm0 record)) None k), l, d, e, d'. split_and!; try done.
  - lia.
  - by exists C2.
  - by rewrite Hperm3, Hperm.
Qed.

(** *** The duplicate check *)

Let K := my_hash_key record.
Let f := key_is my_hash_key my_strnncoll K (length K).
Context (Hse : searchable my_hash_key hash_sort my_strnncoll h (length K)).

Lemma calc_new : my_calc_hash hash_sort h K (length K) = rec_hashnr my_hash_key hash_sort record.
Proof.
  unfold my_calc_hash, rec_hashnr. fold K. f_equal. destruct (length K =? 0) eqn:E; b2p; [|apply firstn_all].
  rewrite <- (se_len _ _ _ _ _ Hse E record); [apply firstn_all|]. rewrite Hrs. left.
Qed.

Lemma match_home r : r ∈ map data (links h) -> f r = true -> hm r = hm record.
Proof.
  intros Hr Hf. unfold hm, home, my_hash_rec_mask.
  by rewrite (key_is_hash my_hash_key hash_sort my_strnncoll h K (length K) r Hse Hr Hf), calc_new.
Qed.

Lemma in_links p l : links h !! p = Some l -> data l ∈ map data (links h).
Proof. intros Hl. apply list_elem_of_fmap. exists l. split; [done|]. by apply list_elem_of_lookup_2 in Hl. Qed.

Lemma first_on_list P p l :
  linked (links h) P -> length P <= records h -> head P = Some p -> links h !! p = Some l ->
  p = hm record -> hm (data l) = p ->
  my_hash_first my_hash_key hash_sort my_strnncoll h K (length K) = Some (first_of f (links h) P).
Proof.
  intros HP HlenP Hp Hl Hpb Hhome. unfold my_hash_first. rewrite (hash_inited key0 hash_sort h Hok).
  unfold my_hash_first_from_hash_value. pose proof records_pos as Hpos.
  rewrite (proj2 (Nat.eqb_neq (records h) 0)) by lia.
  rewrite calc_new, mask_home. fold hm. rewrite <- Hpb.
  rewrite (first_loop_spec _ _ _ h _ K (length K) P true (S (records h)) HP ltac:(lia)) with (p := p).
  - f_equal. apply first_of_ext. intros r Hr. rewrite <- calc_new. by apply hash_match_key.
  - intros _ p' l' Hp' Hl'. assert (p' = p) as -> by congruence. by assert (l' = l) as -> by congruence.
  - done.
Qed.

(** The positions the search of the new key visits. *)
Lemma first_positions C :
  family hm0 (links h) None C ->
  exists P, linked (links h) P /\ length P <= records h /\
    my_hash_first my_hash_key hash_sort my_strnncoll h K (length K) = Some (first_of f (links h) P) /\
    forall p l, links h !! p = Some l -> f (data l) = true -> data l <> record -> p ∈ P.
Proof.
  intros Hf. pose proof (ok_length _ _ _ Hok) as Hlen. set (b := hm record).
  assert (forall P c, C c = P -> length P <= records h /\ linked (links h) P) as Hchain.
  { intros P c <-. pose proof (fam_chain _ _ _ _ Hf c) as Hc. split; [|by apply chain_linked in Hc].
    rewrite <- Hlen. by apply (chain_length _ _ _ _ Hc). }
  assert (forall p l, links h !! p = Some l -> f (data l) = true -> data l <> record -> p ∈ C b) as Hin.
  { intros p l Hl Hfl Hr. destruct (family_bucket _ _ _ _ _ _ Hf Hl) as [Hin _]; [done|].
    rewrite <- home_other, (match_home _ (in_links _ _ Hl) Hfl) in Hin by done. done. }
  destruct (lookup_lt_is_Some_2 (links h) b) as [x Hx].
  { rewrite Hlen. apply home_lt; [apply Hok|apply records_pos]. }
  destruct (decide (data x = record \/ hm0 (data x) = b)) as [Hor|Hor].
  - assert (exists k, C (hm0 (data x)) !! k = Some b) as [k Hk].
    { apply list_elem_of_lookup. by apply (family_bucket _ _ _ _ _ _ Hf Hx). }
    destruct (Hchain _ (hm0 (data x)) eq_refl) as [Hl1 Hl2].
    exists (drop k (C (hm0 (data x)))). split; [by apply linked_drop|]. split; [solve_len|].
    split.
    + apply (first_on_list _ b x); try done; [by apply linked_drop|solve_len| |].
      * by rewrite head_lookup, lookup_drop, Nat.add_0_r.
      * destruct (decide (data x = record)) as [->|Hxr]; [done|]. rewrite home_other by done. tauto.
    + intros p l Hl Hfl Hr. pose proof (Hin p l Hl Hfl Hr) as Hpb.
      assert (hm0 (data x) = b) as Hb.
      { pose proof (fam_chain _ _ _ _ Hf b) as Hcb.
        apply (chain_one _ _ _ _ _ _ b (fam_chain _ _ _ _ Hf (hm0 (data x))) Hcb);
          [by apply list_elem_of_lookup_2 in Hk|by apply (chain_has_head _ _ _ _ p Hcb)]. }
      rewrite Hb in Hk |- *. apply (chain_head_at _ _ _ _ _ (fam_chain _ _ _ _ Hf b)) in Hk as ->. done.
  - exists []. split; [done|]. split; [simpl; lia|].
    assert (data x <> record /\ hm (data x) <> b) as [Hxr Hxb].
    { split; [tauto|]. rewrite home_other; tauto. }
    assert (C b = []) as Hnil by (apply (family_nil _ _ _ _ _ Hf); right; exists x; tauto).
    split; [|intros p l Hl Hfl Hr; rewrite <- Hnil; by apply (Hin p l)].
    unfold my_hash_first. rewrite (hash_inited key0 hash_sort h Hok).
    unfold my_hash_first_from_hash_value. pose proof records_pos as Hpos.
    rewrite (proj2 (Nat.eqb_neq (records h) 0)), calc_new, mask_home by lia. fold hm b.
    cbn [first_loop]. rewrite Hx. obind. cbn [andb orb]. rewrite <- calc_new, hash_match_key; [|done|by apply in_links in Hx].
    fold f. destruct (f (data x)) eqn:Efx.
    { exfalso. by apply Hxb, match_home; [apply in_links in Hx|]. }
    change (my_hash_rec_mask my_hash_key hash_sort (data x) (blength h) (records h)) with (hm (data x)).
    by rewrite (proj2 (Nat.eqb_neq _ _) Hxb).
Qed.

(** A matching record other than the updated one is among the positions. *)
Definition other_at (P : list nat) : bool :=
  existsb (fun r => bool_decide (r <> record)) (omap (pick f (links h)) P).

Lemma other_loop_spec P fuel : forall k,
  linked (links h) P -> length P <= records h -> length (drop k P) < fuel ->
  other_loop my_hash_key my_strnncoll h record K (length K) fuel (first_of f (links h) (drop k P)) =
    Some (other_at (drop k P)).
Proof.
  induction fuel as [|fuel IH]; intros k HP Hlen Hfuel; [lia|]. cbn [other_loop].
  pose proof (first_of_spec f _ _ (linked_drop _ k _ HP)) as Hsp. unfold other_at.
  destruct (first_of f (links h) (drop k P)) as [[p r]|]; [|by rewrite Hsp].
  destruct Hsp as (k' & Hk & _ & Ho). rewrite Ho. cbn [existsb].
  destruct (decide (r = record)) as [->|Hr].
  - rewrite bool_decide_eq_false_2 by tauto. cbn [orb].
    rewrite lookup_drop in Hk. pose proof (lookup_lt_Some _ _ _ Hk) as Hlt.
    rewrite (next_of_linked my_hash_key hash_sort my_strnncoll h K (length K) P (k + k') p HP Hlen Hk). obind.
    fold f. rewrite IH by (try done; rewrite length_drop in *; lia).
    unfold other_at. by rewrite drop_drop, Nat.add_succ_r.
  - by rewrite bool_decide_eq_true_2.
Qed.

(** Another record has the new key. *)
Definition other_has_key : bool := existsb f rs.

Lemma dup_check C :
  family hm0 (links h) None C ->
  (found ← my_hash_first my_hash_key hash_sort my_strnncoll h K (length K);
   other_loop my_hash_key my_strnncoll h record K (length K) (S (records h)) found) = Some other_has_key.
Proof.
  intros Hf. destruct (first_positions C Hf) as (P & HP & Hlen & Hfirst & Hin). rewrite Hfirst. obind.
  rewrite <- (drop_0 P). rewrite other_loop_spec by (try done; rewrite drop_0; lia). rewrite drop_0. f_equal.
  apply eq_iff_eq_true. unfold other_at, other_has_key. rewrite !existsb_exists. split.
  - intros (r & Hr & Hne%bool_decide_eq_true). apply list_elem_of_In, list_elem_of_omap in Hr as (p & Hp & Hpk).
    unfold pick in Hpk. destruct (links h !! p) as [l|] eqn:El; [|done]. simpl in Hpk.
    destruct (f (data l)) eqn:Ef; [|done]. injection Hpk as <-. exists (data l). split; [|done].
    apply list_elem_of_In. pose proof (in_links _ _ El) as Hl. rewrite Hrs in Hl.
    apply elem_of_cons in Hl as [?|?]; done.
  - intros (r & Hr & Ef). apply list_elem_of_In in Hr. assert (r <> record) as Hne by (intros ->; done).
    assert (r ∈ map data (links h)) as Hl by (rewrite Hrs; by right).
    apply list_elem_of_fmap in Hl as (l & -> & Hl). apply list_elem_of_lookup in Hl as [p Hp].
    exists (data l). split; [|by apply bool_decide_eq_true].
    apply list_elem_of_In, list_elem_of_omap. exists p. split; [by apply (Hin p l)|].
    unfold pick. rewrite Hp. simpl. by rewrite Ef.
Qed.

(** C11.  my_hash_update: after the key of a record of the table was changed in
    place, the call refuses a key that another record of a HASH_UNIQUE table has
    and leaves the table alone; otherwise it moves the record to the chain of its
    new bucket, and the table has the same records and is well-formed for the
    new keys. *)
Theorem my_hash_update_correct old_key old_key_length :
  my_calc_hash hash_sort h old_key old_key_length = rec_hashnr key0 hash_sort record ->
  if test (HASH_UNIQUE .& flags h) && other_has_key
  then my_hash_update my_hash_key hash_sort my_strnncoll h record old_key old_key_length = Some (true, h)
  else exists h', my_hash_update my_hash_key hash_sort my_strnncoll h record old_key old_key_length = Some (false, h') /\
    hash_ok my_hash_key hash_sort h' /\ map data (links h') ≡ₚ map data (links h) /\ records h' = records h.
Proof.
  intros Hold. destruct (ok_chains _ _ _ Hok) as [C Hf]. fold hm0 in Hf.
  unfold my_hash_update. fold K. 
  replace (if test (HASH_UNIQUE .& flags h) then _ else Some false)
    with (Some (test (HASH_UNIQUE .& flags h) && other_has_key)).
  2:{ destruct (test _); [|done]. symmetry. by apply (dup_check C). }
  obind. destruct (_ && other_has_key); [done|].
  rewrite Hold, !mask_home. fold hm hm0. case_if.
  - exists h. split; [done|]. split; [|done]. destruct Hok as [H1 H2 H3 _]. split; try done. exists C.
    fold hm. apply (family_rehome hm0); [done|]. intros p l _ Hl.
    destruct (decide (data l = record)) as [->|Hr]; [congruence|by apply home_other].
  - destruct (update_links C Hf) as (q & prev & l & d & e & d' & Hfr & Hq & Hu & Hrl & Hlen & [C' Hf'] & Hperm); [congruence|].
    rewrite Hfr. obind. rewrite Hq. obind. rewrite Hu. obind. rewrite Hrl. obind.
    eexists. split; [done|].
    destruct (la_put_ok (array h) d' (ok_array _ _ _ Hok) Hlen) as [Hi Hd].
    destruct Hok as [H1 H2 H3 _]. split; [|split; [|done]].
    + split; unfold links; cbn; rewrite ?Hd; try done; [congruence|by exists C'].
    + unfold links at 1. cbn. by rewrite Hd.
Qed.
End Update.

(** Record 4 of the example gets the key 5 and moves from bucket 0 to bucket 1. *)
Definition ex_key5 (r : nat) : list Z := if r =? 4 then [5%Z] else ex_key r.

Lemma my_hash_update_correct_witness :
  exists h', my_hash_update ex_key5 ex_sort ex_coll ex_table 4 [4%Z] 1 = Some (false, h') /\
    hash_ok ex_key5 ex_sort h' /\ map data (links h') ≡ₚ [4; 1; 0].
Proof.
  destruct (my_hash_update_correct ex_key ex_key5 ex_sort ex_coll ex_table 4 [1; 0]) with (old_key := [4%Z]) (old_key_length := 1)
    as (h' & H1 & H2 & H3 & _).
  - exact ex_ok.
  - intros r Hr. unfold ex_key5. case_if; congruence.
  - reflexivity.
  - apply (bool_decide_unpack _). reflexivity.
  - split; [|done|done]. intros a b. unfold ex_coll. case_decide as E; [|done]. by rewrite E.
  - reflexivity.
  - exists h'. split; [exact H1|]. split; [exact H2|exact H3].
Defined.
