(* ===== verification/Base64.v ===== *)
(** * Base64: mysys/base64.c

    The encoder writes lines of 76 characters; the decoder skips white space
    and stops at the padding.  A character is its byte.  [pos] subtracts the
    address of the table from what strchr returns; for a character that is not
    in the table this is NULL, and the difference is the parameter [no_pos]. *)

From stdpp Require Import prelude list list_numbers.
From Stdlib Require Import ZArith Lia ZifyNat.
From S2P Require Import Prelude Ctype.

Open Scope Z_scope.

Definition base64_table : list Z :=
  [65; 66; 67; 68; 69; 70; 71; 72; 73; 74; 75; 76; 77; 78; 79; 80; 81; 82; 83; 84; 85; 86; 87;
   88; 89; 90;
   97; 98; 99; 100; 101; 102; 103; 104; 105; 106; 107; 108; 109; 110; 111; 112; 113; 114; 115;
   116; 117; 118; 119; 120; 121; 122;
   48; 49; 50; 51; 52; 53; 54; 55; 56; 57; 43; 47].

Definition base64_needed_encoded_length (length_of_data : Z) : Z :=
  let nb_base64_chars := s32 (s32 (Z.quot (s32 (length_of_data + 2)) 3) * 4) in
  s32 (s32 (nb_base64_chars + Z.quot (s32 (nb_base64_chars - 1)) 76) + 1).

(** The argument of ceil is an int already. *)
Definition base64_needed_decoded_length (length_of_encoded_data : Z) : Z :=
  Z.quot (s32 (length_of_encoded_data * 3)) 4.

(** [base64_table[k]]. *)
Definition table_char (k : Z) : Z := nth (Z.to_nat k) base64_table 0.

(** One round of the encoding loop: the characters and the new [i]. *)
Definition encode_quad (s : list Z) (i : nat) : option (list Z * nat) :=
  let src_len := length s in
  c ← s !! i;
  let i := S i in
  let c := u32 (c .<< 8) in
  c ← (if (i <? src_len)%nat then x ← s !! i; Some (u32 (c + x)) else Some c);
  let c := u32 (c .<< 8) in
  let i := S i in
  c ← (if (i <? src_len)%nat then x ← s !! i; Some (u32 (c + x)) else Some c);
  let i := S i in
  Some ([table_char ((c .>> 18) .& 63); table_char ((c .>> 12) .& 63);
         if (src_len + 1 <? i)%nat then 61 else table_char ((c .>> 6) .& 63);
         if (src_len <? i)%nat then 61 else table_char (c .& 63)], i).

Fixpoint encode_loop (s : list Z) (fuel i len : nat) : option (list Z) :=
  if (i <? length s)%nat then
    match fuel with
    | O => None
    | S fuel =>
      let '(newline, len) := if (len =? 76)%nat then ([10], O) else ([], len) in
      '(q, i) ← encode_quad s i;
      r ← encode_loop s fuel i (len + 4);
      Some (newline ++ q ++ r)
    end
  else Some [].

(** The characters before the final NUL. *)
Definition base64_encode (s : list Z) : option (list Z) := encode_loop s (length s) 0 0.

Section Decode.
Context (no_pos : Z).

(** The index of the character in the table with its final NUL. *)
Definition pos (c : Z) : Z :=
  match list_find (fun x => x = c) (base64_table ++ [0]) with
  | Some (k, _) => Z.of_nat k
  | None => u32 no_pos
  end.

(** The [while] of SKIP_SPACE; [i] counts the characters and [p] is [src]. *)
Fixpoint skip_space (src : list Z) (len fuel i p : nat) : option (nat * nat) :=
  if (i <? len)%nat then
    match fuel with
    | O => None
    | S fuel =>
      c ← src !! p;
      if my_isspace c then skip_space src len fuel (S i) (S p) else Some (i, p)
    end
  else Some (i, p).

(** The result of a round: the [break] of SKIP_SPACE, or four characters. *)
Inductive round : Type :=
| Broke (i p : nat)
| Quad (i p : nat) (c : Z) (mark : nat).

(** SKIP_SPACE and what follows. *)
Definition after_space (src : list Z) (len i p : nat) (k : nat -> nat -> Z -> option round)
    : option round :=
  '(i, p) ← skip_space src len len i p;
  if (i =? len)%nat then Some (Broke i p) else ch ← src !! p; k i p ch.

(** The body of the loop up to the label [end]. *)
Definition decode_quad (src : list Z) (len i p : nat) : option round :=
  after_space src len i p (fun i p ch =>
  let c := u32 (u32 (0 + pos ch) .<< 6) in
  after_space src len (S i) (S p) (fun i p ch =>
  let c := u32 (u32 (c + pos ch) .<< 6) in
  after_space src len (S i) (S p) (fun i p ch =>
  if negb (ch =? 61) then
    let c := u32 (u32 (c + pos ch) .<< 6) in
    after_space src len (S i) (S p) (fun i p ch =>
    if negb (ch =? 61) then Some (Quad (S i) (S p) (u32 (c + pos ch)) 0)
    else Some (Quad len (p + 1) c 1))
  else Some (Quad len (p + 2) (u32 (c .<< 6)) 2)))).

(** Returns [i], the end pointer and the bytes written. *)
Fixpoint decode_loop (src : list Z) (len fuel i p : nat) (d : list Z)
    : option (nat * nat * list Z) :=
  if (i <? len)%nat then
    match fuel with
    | O => None
    | S fuel =>
      r ← decode_quad src len i p;
      match r with
      | Broke i p => Some (i, p, d)
      | Quad i p c mark =>
        decode_loop src len fuel i p
          (d ++ take (3 - mark) [(c .>> 16) .& 255; (c .>> 8) .& 255; c .& 255])
      end
    end
  else Some (i, p, d).

(** The number of bytes or -1, the bytes, and [*end_ptr] as an offset. *)
Definition base64_decode (src : list Z) (len : nat) : option (Z * list Z * nat) :=
  '(i, p, d) ← decode_loop src len len 0 0 [];
  Some (if negb (i =? len)%nat then -1 else s32 (Z.of_nat (length d)), d, p).
End Decode.

(** ** Encoding *)

(** The four 6 bit groups of three bytes. *)
Definition group (a b c : Z) : list Z :=
  [a / 4; (a mod 4) * 16 + b / 16; (b mod 16) * 4 + c / 64; c mod 64].

Lemma six_bits c n : 0 <= c -> 0 <= n -> (c .>> n) .& 63 = (c / 2 ^ n) mod 64.
Proof. intros Hc Hn. rewrite Z.shiftr_div_pow2 by done. by apply (Z.land_ones _ 6). Qed.

(** The groups of the 24 bit number the code makes of three bytes. *)
Lemma groups_of_word a b c :
  is_byte a -> is_byte b -> is_byte c ->
  let w := u32 (u32 (u32 (u32 (a .<< 8) + b) .<< 8) + c) in
  [(w .>> 18) .& 63; (w .>> 12) .& 63; (w .>> 6) .& 63; w .& 63] = group a b c.
Proof.
  intros Ha Hb Hc w. unfold is_byte in *.
  assert (w = a * 65536 + b * 256 + c) as ->.
  { unfold w. rewrite !Z.shiftl_mul_pow2 by lia. nowrap. lia. }
  set (w' := a * 65536 + b * 256 + c). assert (0 <= w') by lia.
  rewrite !six_bits by lia. change 63 with (Z.ones 6). rewrite Z.land_ones by lia.
  unfold group, w'. change (2 ^ 18) with 262144. change (2 ^ 12) with 4096. change (2 ^ 6) with 64.
  do 4 (apply (f_equal2 cons); [zdiv|]). done.
Qed.

(** What a round writes for the bytes [l] that are left. *)
Definition quad_of (l : list Z) : list Z :=
  match l with
  | a :: b :: c :: _ => map table_char (group a b c)
  | [a; b] => map table_char (take 3 (group a b 0)) ++ [61]
  | [a] => map table_char (take 2 (group a 0 0)) ++ [61; 61]
  | [] => []
  end.

Lemma encode_quad_spec s i :
  Forall is_byte s -> (i < length s)%nat -> encode_quad s i = Some (quad_of (drop i s), (i + 3)%nat).
Proof.
  intros Hs Hi. destruct (lookup_lt_is_Some_2 s i Hi) as [a Ha]. unfold encode_quad. rewrite Ha. obind.
  pose proof (Forall_lookup_1 _ _ _ _ Hs Ha) as Ba. rewrite (drop_S _ _ _ Ha).
  replace (i + 3)%nat with (S (S (S i))) by lia.
  destruct (s !! S i) as [b|] eqn:Hb.
  - pose proof (lookup_lt_Some _ _ _ Hb) as Lb. rewrite (drop_S _ _ _ Hb).
    pose proof (Forall_lookup_1 _ _ _ _ Hs Hb) as Bb.
    replace (S i <? length s)%nat with true by bsolve. obind.
    destruct (s !! S (S i)) as [c|] eqn:Hc.
    + pose proof (lookup_lt_Some _ _ _ Hc) as Lc. rewrite (drop_S _ _ _ Hc).
      pose proof (Forall_lookup_1 _ _ _ _ Hs Hc) as Bc.
      replace (S (S i) <? length s)%nat with true by bsolve. obind.
      replace (length s + 1 <? S (S (S i)))%nat with false by bsolve.
      replace (length s <? S (S (S i)))%nat with false by bsolve.
      do 2 f_equal. cbn [quad_of]. by rewrite <- (groups_of_word a b c) by done.
    + apply lookup_ge_None in Hc. replace (S (S i) <? length s)%nat with false by bsolve. obind.
      replace (length s + 1 <? S (S (S i)))%nat with false by bsolve.
      replace (length s <? S (S (S i)))%nat with true by bsolve.
      rewrite drop_ge by lia. do 2 f_equal. cbn [quad_of].
      rewrite <- (groups_of_word a b 0) by (done || (unfold is_byte; lia)). cbn.
      rewrite Z.add_0_r. unfold u32. rewrite !Zmod_mod. done.
  - apply lookup_ge_None in Hb. replace (S i <? length s)%nat with false by bsolve. obind.
    replace (S (S i) <? length s)%nat with false by bsolve. obind.
    replace (length s + 1 <? S (S (S i)))%nat with true by bsolve.
    replace (length s <? S (S (S i)))%nat with true by bsolve.
    rewrite drop_ge by lia. do 2 f_equal. cbn [quad_of].
    rewrite <- (groups_of_word a 0 0) by (done || (unfold is_byte; lia)). cbn.
    rewrite !Z.add_0_r. unfold u32. rewrite !Zmod_mod. done.
Qed.

(** The number of line ends in [q] groups of four when the line has [len]
    characters. *)
Definition newlines (q len : nat) : nat := if (q =? 0)%nat then 0 else ((len + 4 * (q - 1)) / 76)%nat.

Lemma newlines_step q len :
  (len <= 76)%nat -> (exists k, len = 4 * k)%nat ->
  newlines (S q) len = ((if len =? 76 then 1 else 0) + newlines q ((if len =? 76 then 0 else len) + 4))%nat.
Proof.
  intros Hl [k Hk]. unfold newlines. cbn [Nat.eqb]. replace (S q - 1)%nat with q by lia.
  destruct (q =? 0)%nat eqn:Eq; destruct (len =? 76)%nat eqn:El; b2p; subst; ndiv.
Qed.

Lemma quad_of_length l : l <> [] -> length (quad_of l) = 4%nat.
Proof. by destruct l as [|a [|b [|c l]]]. Qed.

(** The groups still to write. *)
Definition quads (n : nat) : nat := ((n + 2) / 3)%nat.

Lemma encode_loop_spec s fuel : forall i len,
  Forall is_byte s -> (length s <= i + fuel)%nat -> (len <= 76)%nat -> (exists k, len = 4 * k)%nat ->
  exists out, encode_loop s fuel i len = Some out /\
    length out = (4 * quads (length s - i) + newlines (quads (length s - i)) len)%nat.
Proof.
  induction fuel as [|fuel IH]; intros i len Hs Hf Hl Hk; cbn [encode_loop].
  { replace (i <? length s)%nat with false by bsolve. exists []. split; [done|].
    by replace (length s - i)%nat with 0%nat by lia. }
  destruct (i <? length s)%nat eqn:E; b2p.
  2:{ exists []. split; [done|]. by replace (length s - i)%nat with 0%nat by lia. }
  rewrite encode_quad_spec by done.
  destruct (IH (i + 3)%nat ((if len =? 76 then 0 else len) + 4)%nat Hs) as (out & Ho & Hlen).
  { lia. } { case_if; [lia|]. destruct Hk as [k ->]. lia. }
  { destruct Hk as [k ->]. case_if; [by exists 1%nat|exists (k + 1)%nat; lia]. }
  assert (quads (length s - i) = S (quads (length s - (i + 3)))) as ->.
  { unfold quads. ndiv. }
  rewrite newlines_step by done.
  destruct (len =? 76)%nat; obind; rewrite Ho; obind; eexists; (split; [done|]); rewrite !length_app;
    rewrite quad_of_length, Hlen by (intros He; apply (f_equal length) in He; rewrite length_drop in He; simpl in He; lia);
    simpl length; lia.
Qed.

(** The text and its NUL fill what base64_needed_encoded_length says. *)
Lemma base64_encode_length s out :
  Forall is_byte s -> Z.of_nat (length s) < 2 ^ 30 -> base64_encode s = Some out ->
  base64_needed_encoded_length (Z.of_nat (length s)) = Z.of_nat (length out) + 1.
Proof.
  intros Hs Hn Ho. destruct (encode_loop_spec s (length s) 0 0) as (out' & Ho' & Hlen);
    [done|lia|lia|by exists 0%nat|]. unfold base64_encode in Ho. rewrite Ho in Ho'. injection Ho' as <-.
  rewrite Hlen. unfold base64_needed_encoded_length, newlines, quads. rewrite Nat.sub_0_r. clear Ho Hlen Hs.
  set (n := length s) in *. clearbody n.
  rewrite (s32_small (Z.of_nat n + 2)) by lia.
  assert (Z.quot (Z.of_nat n + 2) 3 = Z.of_nat ((n + 2) / 3)) as -> by zquot.
  set (q := ((n + 2) / 3)%nat). assert (q <= n + 2)%nat by (unfold q; ndiv).
  assert (3 * q <= n + 2)%nat by (unfold q; ndiv). clearbody q.
  rewrite (s32_small (Z.of_nat q)) by lia. rewrite (s32_small (Z.of_nat q * 4)) by lia.
  rewrite (s32_small (Z.of_nat q * 4 - 1)) by lia.
  assert (Z.quot (Z.of_nat q * 4 - 1) 76 =
    Z.of_nat (if (q =? 0)%nat then 0 else (0 + 4 * (q - 1)) / 76)) as Hq.
  { destruct (q =? 0)%nat eqn:E; b2p; [subst; done|].
    rewrite Z.quot_div_nonneg by lia. ndiv. }
  rewrite Hq. set (m := if (q =? 0)%nat then _ else _) in *. clearbody m.
  assert (Z.of_nat m <= Z.of_nat q) by zquot.
  nowrap. lia.
Qed.

(** ** Decoding *)

Section DecodeLemmas.
Context (no_pos : Z).

(** A character of the table is found there, is no space and no padding. *)
Lemma table_char_facts v :
  0 <= v < 64 ->
  pos no_pos (table_char v) = v /\ my_isspace (table_char v) = false /\ (table_char v =? 61) = false.
Proof.
  intros Hv.
  assert (forallb (fun n => (pos no_pos (table_char (Z.of_nat n)) =? Z.of_nat n) &&
    negb (my_isspace (table_char (Z.of_nat n))) && negb (table_char (Z.of_nat n) =? 61)) (seq 0 64) = true)
    as Hall by (vm_compute; reflexivity).
  rewrite forallb_forall in Hall. specialize (Hall (Z.to_nat v)). rewrite Z2Nat.id in Hall by lia.
  assert (In (Z.to_nat v) (seq 0 64)) as Hin by (apply in_seq; lia). specialize (Hall Hin). b2p.
  split_and!; [done|done|by apply Z.eqb_neq].
Qed.

(** At a character that is no space; at a line end before one. *)
Lemma after_space_char src len p ch k :
  src !! p = Some ch -> my_isspace ch = false -> (p < len)%nat ->
  after_space src len p p k = k p p ch.
Proof.
  intros Hp Hc Hlt. unfold after_space. destruct len as [|len]; [lia|]. cbn [skip_space].
  replace (p <? S len)%nat with true by bsolve. rewrite Hp. obind. rewrite Hc. obind.
  replace (p =? S len)%nat with false by bsolve. by rewrite Hp.
Qed.

Lemma after_space_newline src len p ch k :
  src !! p = Some 10 -> src !! S p = Some ch -> my_isspace ch = false -> (S p < len)%nat ->
  after_space src len p p k = k (S p) (S p) ch.
Proof.
  intros Hp Hp' Hc Hlt. unfold after_space. destruct len as [|[|len]]; [lia|lia|]. cbn [skip_space].
  replace (p <? S (S len))%nat with true by bsolve. rewrite Hp. obind.
  replace (my_isspace 10) with true by (vm_compute; reflexivity).
  replace (S p <? S (S len))%nat with true by bsolve. rewrite Hp'. obind. rewrite Hc. obind.
  replace (S p =? S (S len))%nat with false by bsolve. by rewrite Hp'.
Qed.

Lemma lookup_skip {A} (pre : list A) l k : (pre ++ l) !! (length pre + k)%nat = l !! k.
Proof. rewrite lookup_app_r by lia. f_equal. lia. Qed.

(** The decoding of the text of a group at the end of [pre]. *)
Lemma decode_quad_at pre x y z w rest r :
  my_isspace x = false -> my_isspace y = false -> my_isspace z = false -> my_isspace w = false ->
  let src := pre ++ x :: y :: z :: w :: rest in
  let c := u32 (u32 (u32 (u32 (0 + pos no_pos x) .<< 6) + pos no_pos y) .<< 6) in
  (if negb (z =? 61) then
     let c := u32 (u32 (c + pos no_pos z) .<< 6) in
     if negb (w =? 61) then Quad (length pre + 4) (length pre + 4) (u32 (c + pos no_pos w)) 0
     else Quad (length src) (length pre + 4) c 1
   else Quad (length src) (length pre + 4) (u32 (c .<< 6)) 2) = r ->
  decode_quad no_pos src (length src) (length pre) (length pre) = Some r.
Proof.
  intros Hx Hy Hz Hw src c Hr. unfold decode_quad.
  assert (length src = length pre + 4 + length rest)%nat as Hlen by (unfold src; rewrite length_app; simpl; lia).
  pose proof (fun k => lookup_skip pre (x :: y :: z :: w :: rest) k) as Hk. fold src in Hk.
  pose proof (Hk 0%nat) as Px. pose proof (Hk 1%nat) as Py. pose proof (Hk 2%nat) as Pz. pose proof (Hk 3%nat) as Pw.
  rewrite Nat.add_0_r in Px. rewrite Nat.add_1_r in Py.
  replace (length pre + 2)%nat with (S (S (length pre))) in Pz by lia.
  replace (length pre + 3)%nat with (S (S (S (length pre)))) in Pw by lia.
  rewrite (after_space_char src _ _ x) by (done || lia). cbv zeta.
  rewrite (after_space_char src _ _ y) by (done || lia).
  rewrite (after_space_char src _ _ z) by (done || lia).
  fold c. destruct (z =? 61); cbn [negb] in Hr |- *.
  { rewrite <- Hr. do 2 f_equal. lia. }
  rewrite (after_space_char src _ _ w) by (done || lia). rewrite <- Hr.
  destruct (w =? 61); cbn [negb]; do 2 f_equal; lia.
Qed.

Lemma decode_quad_newline src len p ch :
  src !! p = Some 10 -> src !! S p = Some ch -> my_isspace ch = false -> (S p < len)%nat ->
  decode_quad no_pos src len p p = decode_quad no_pos src len (S p) (S p).
Proof.
  intros Hp Hp' Hc Hlt. unfold decode_quad.
  by rewrite (after_space_newline src len p ch), (after_space_char src len (S p) ch) by done.
Qed.

(** The three bytes that make a word. *)
Lemma bytes_of_word a b c w :
  is_byte a -> is_byte b -> is_byte c -> w = a * 65536 + b * 256 + c ->
  [(w .>> 16) .& 255; (w .>> 8) .& 255; w .& 255] = [a; b; c].
Proof.
  intros Ha Hb Hc ->. unfold is_byte in *. change 255 with (Z.ones 8).
  rewrite !Z.land_ones, !Z.shiftr_div_pow2 by lia.
  change (2 ^ 16) with 65536. change (2 ^ 8) with 256.
  do 3 (apply (f_equal2 cons); [zdiv|]). done.
Qed.

(** The word the code makes of four groups. *)
Lemma word_of_groups v1 v2 v3 v4 :
  0 <= v1 < 64 -> 0 <= v2 < 64 -> 0 <= v3 < 64 -> 0 <= v4 < 64 ->
  let c := u32 (u32 (u32 (u32 (0 + v1) .<< 6) + v2) .<< 6) in
  u32 (u32 (u32 (c + v3) .<< 6) + v4) = ((v1 * 64 + v2) * 64 + v3) * 64 + v4 /\
  u32 (u32 (c + v3) .<< 6) = ((v1 * 64 + v2) * 64 + v3) * 64 /\
  u32 (c .<< 6) = ((v1 * 64 + v2) * 64) * 64.
Proof.
  intros H1 H2 H3 H4 c.
  assert (c = (v1 * 64 + v2) * 64) as ->.
  { unfold c. rewrite !Z.shiftl_mul_pow2 by lia. nowrap. lia. }
  rewrite !Z.shiftl_mul_pow2 by lia. split_and!; nowrap; lia.
Qed.

Lemma group_range a b c :
  is_byte a -> is_byte b -> is_byte c ->
  exists v1 v2 v3 v4, group a b c = [v1; v2; v3; v4] /\
    0 <= v1 < 64 /\ 0 <= v2 < 64 /\ 0 <= v3 < 64 /\ 0 <= v4 < 64 /\
    ((v1 * 64 + v2) * 64 + v3) * 64 + v4 = a * 65536 + b * 256 + c /\
    (c = 0 -> v4 = 0) /\ (b = 0 -> c = 0 -> v3 = 0).
Proof.
  unfold is_byte, group. intros Ha Hb Hc. do 4 eexists. split; [done|]. split_and!; zdiv.
Qed.

(** A round of decoding undoes a round of encoding. *)
Lemma decode_quad_of l pre rest :
  Forall is_byte l -> l <> [] -> (length l < 3 -> rest = [])%nat ->
  let src := pre ++ quad_of l ++ rest in
  exists w mark,
    decode_quad no_pos src (length src) (length pre) (length pre) =
      Some (Quad (length pre + 4) (length pre + 4) w mark) /\
    take (3 - mark) [(w .>> 16) .& 255; (w .>> 8) .& 255; w .& 255] = take 3 l.
Proof.
  intros Hl Hne Hrest. assert (is_byte 0) as H0 by (unfold is_byte; lia).
  assert (my_isspace 61 = false) as Hpad by (vm_compute; reflexivity).
  destruct l as [|a [|b [|c l]]]; [done|..]; cbn [quad_of];
    repeat (apply Forall_cons in Hl as [? Hl]).
  - rewrite Hrest by (simpl; lia). destruct (group_range a 0 0) as (v1 & v2 & v3 & v4 & -> & R1 & R2 & R3 & R4 & Hw & H4 & H3); [done..|].
    destruct (table_char_facts v1 R1) as (P1 & S1 & _), (table_char_facts v2 R2) as (P2 & S2 & _).
    destruct (word_of_groups v1 v2 v3 v4 R1 R2 R3 R4) as (_ & _ & Hww).
    eexists _, 2%nat. split; [apply decode_quad_at; try done; cbn [Z.eqb negb]|].
    + rewrite P1, P2, Hww. f_equal. rewrite length_app. simpl. lia.
    + rewrite (bytes_of_word a 0 0); [done..|]. rewrite H3, H4 in Hw by done. lia.
  - rewrite Hrest by (simpl; lia). destruct (group_range a b 0) as (v1 & v2 & v3 & v4 & -> & R1 & R2 & R3 & R4 & Hw & H4 & H3); [done..|].
    destruct (table_char_facts v1 R1) as (P1 & S1 & _), (table_char_facts v2 R2) as (P2 & S2 & _),
      (table_char_facts v3 R3) as (P3 & S3 & E3).
    destruct (word_of_groups v1 v2 v3 v4 R1 R2 R3 R4) as (_ & Hww & _).
    eexists _, 1%nat. split; [apply decode_quad_at; try done|].
    + rewrite E3. cbn [negb Z.eqb]. rewrite P1, P2, P3, Hww. f_equal. rewrite length_app. simpl. lia.
    + rewrite (bytes_of_word a b 0); [done..|]. rewrite H4 in Hw by done. lia.
  - destruct (group_range a b c) as (v1 & v2 & v3 & v4 & -> & R1 & R2 & R3 & R4 & Hw & H4 & H3); [done..|].
    destruct (table_char_facts v1 R1) as (P1 & S1 & _), (table_char_facts v2 R2) as (P2 & S2 & _),
      (table_char_facts v3 R3) as (P3 & S3 & E3), (table_char_facts v4 R4) as (P4 & S4 & E4).
    destruct (word_of_groups v1 v2 v3 v4 R1 R2 R3 R4) as (Hww & _).
    eexists _, 0%nat. split; [apply decode_quad_at; try done|].
    + rewrite E3, E4. cbn [negb]. rewrite P1, P2, P3, P4, Hww. done.
    + by rewrite (bytes_of_word a b c).
Qed.

Lemma quad_of_char l : l <> [] -> Forall is_byte l -> exists ch, quad_of l !! 0%nat = Some ch /\ my_isspace ch = false.
Proof.
  intros Hne Hl. destruct l as [|a l]; [done|]. apply Forall_cons in Hl as [Ha _].
  exists (table_char (a / 4)). split; [by destruct l as [|b [|c l]]|].
  apply table_char_facts. unfold is_byte in Ha. zdiv.
Qed.

(** A line end before a group is skipped. *)
Lemma decode_quad_line nl l pre rest :
  (nl = [] \/ nl = [10]) -> l <> [] -> Forall is_byte l ->
  let src := pre ++ nl ++ quad_of l ++ rest in
  decode_quad no_pos src (length src) (length pre) (length pre) =
  decode_quad no_pos src (length src) (length (pre ++ nl)) (length (pre ++ nl)).
Proof.
  intros [-> | ->] Hne Hl src; [by rewrite app_nil_r|].
  destruct (quad_of_char l Hne Hl) as (ch & Hch & Hsp). pose proof (quad_of_length l Hne) as Hlen.
  rewrite length_app, Nat.add_1_r. apply (decode_quad_newline _ _ _ ch); [| |done|].
  - by apply list_lookup_middle.
  - unfold src. rewrite <- Nat.add_1_r, lookup_skip. simpl. by rewrite (lookup_app_l_Some _ _ _ _ Hch).
  - unfold src. rewrite !length_app. simpl. lia.
Qed.

(** The decoder reads back what the encoder writes from any point on. *)
Lemma decode_encode_loop s fuel : forall i len out pre d fuel',
  Forall is_byte s -> encode_loop s fuel i len = Some out -> (length out <= fuel')%nat ->
  let src := pre ++ out in
  decode_loop no_pos src (length src) fuel' (length pre) (length pre) d =
    Some (length src, length src, d ++ drop i s).
Proof.
  induction fuel as [|fuel IH]; intros i len out pre d fuel' Hs He Hf src; cbn [encode_loop] in He;
    destruct (i <? length s)%nat eqn:E; b2p; try done.
  1,3: injection He as <-; unfold src; rewrite app_nil_r, drop_ge, app_nil_r by lia; destruct fuel'; cbn [decode_loop];
    by rewrite Nat.ltb_irrefl.
  rewrite encode_quad_spec in He by done.
  assert (exists nl len' r, (nl = [] \/ nl = [10]) /\ encode_loop s fuel (i + 3) len' = Some r /\
    out = nl ++ quad_of (drop i s) ++ r) as (nl & len' & r & Hnl & Hr & Hout).
  { destruct (len =? 76)%nat; revert He; obind;
      (destruct (encode_loop s fuel (i + 3) _) as [r|] eqn:Er; [|done]); obind; intros [= <-]; eauto 10. }
  assert (drop i s <> []) as Hne.
  { intros Hd. apply (f_equal length) in Hd. rewrite length_drop in Hd. simpl in Hd. lia. }
  assert (Forall is_byte (drop i s)) as Hbs by (by apply Forall_drop).
  assert (length (drop i s) < 3 -> r = [])%nat as Hlast.
  { rewrite length_drop. intros Hlt. destruct fuel; cbn [encode_loop] in Hr;
      replace (i + 3 <? length s)%nat with false in Hr by bsolve; by injection Hr. }
  destruct fuel' as [|fuel']; [rewrite Hout, !length_app, quad_of_length in Hf by done; lia|].
  assert (src = (pre ++ nl) ++ quad_of (drop i s) ++ r) as Hsrc by (unfold src; rewrite Hout, <- app_assoc; done).
  cbn [decode_loop].
  replace (length pre <? length src)%nat with true.
  2:{ rewrite Hsrc, !length_app, quad_of_length by done. bsolve. }
  pose proof (decode_quad_line nl (drop i s) pre r Hnl Hne Hbs) as Hline. cbn zeta in Hline.
  rewrite <- Hout in Hline. fold src in Hline. rewrite Hline.
  destruct (decode_quad_of (drop i s) (pre ++ nl) r Hbs Hne Hlast) as (w & mark & Hdq & Hb).
  rewrite <- Hsrc in Hdq. rewrite Hdq. obind. rewrite Hb.
  assert (length (pre ++ nl) + 4 = length ((pre ++ nl) ++ quad_of (drop i s)))%nat as ->.
  { rewrite (length_app (pre ++ nl)), quad_of_length by done. done. }
  rewrite app_assoc in Hsrc. rewrite Hsrc.
  rewrite (IH (i + 3)%nat len' r _ _ fuel' Hs Hr).
  - assert (take 3 (drop i s) ++ drop (i + 3) s = drop i s) as Htd by (rewrite <- drop_drop; apply take_drop).
    by rewrite <- (app_assoc d), Htd.
  - rewrite Hout, !length_app, quad_of_length in Hf by done. lia.
Qed.
End DecodeLemmas.

(** Round trip: base64_decode returns what base64_encode was given, with
    the lines of 76 characters and the padding it writes, reads exactly the
    text, and the text has the length base64_needed_encoded_length promises. *)
Theorem base64_roundtrip no_pos s :
  Forall is_byte s -> Z.of_nat (length s) < 2 ^ 30 ->
  exists text, base64_encode s = Some text /\
    base64_needed_encoded_length (Z.of_nat (length s)) = Z.of_nat (length text) + 1 /\
    base64_decode no_pos text (length text) = Some (Z.of_nat (length s), s, length text).
Proof.
  intros Hs Hn. destruct (encode_loop_spec s (length s) 0 0) as (text & Ht & Hlen);
    [done|lia|lia|by exists 0%nat|].
  exists text. split; [done|]. split; [by apply base64_encode_length|]. unfold base64_decode.
  pose proof (decode_encode_loop no_pos s _ 0 0 text [] [] (length text) Hs Ht ltac:(lia)) as Hd.
  cbn in Hd. rewrite Hd. obind. rewrite Nat.eqb_refl. cbn [negb]. by rewrite drop_0, s32_small by lia.
Qed.

Lemma base64_roundtrip_witness :
  exists text, base64_encode [77; 121; 83; 81; 76] = Some text /\
    base64_needed_encoded_length 5 = Z.of_nat (length text) + 1 /\
    base64_decode 0 text (length text) = Some (5, [77; 121; 83; 81; 76], length text).
Proof.
  apply (base64_roundtrip 0 [77; 121; 83; 81; 76]).
  - repeat constructor; discriminate.
  - reflexivity.
Defined.

(** ** Errors

    base64_decode documents -1 in case of failure, but every way out of the loop
    has [i == len]. *)
Lemma skip_space_le src len fuel : forall i p i' p',
  (i <= len)%nat -> skip_space src len fuel i p = Some (i', p') -> (i' <= len)%nat.
Proof.
  induction fuel as [|fuel IH]; intros i p i' p' Hi; cbn [skip_space];
    destruct (i <? len)%nat eqn:E; b2p; try (by intros [= <- <-]); try done.
  destruct (src !! p) as [c|]; [|done]. obind. destruct (my_isspace c).
  - apply IH. lia.
  - by intros [= <- <-].
Qed.

Lemma after_space_cases src len i p k r :
  (i <= len)%nat -> after_space src len i p k = Some r ->
  (exists p', r = Broke len p') \/ (exists i' p' ch, (i' < len)%nat /\ k i' p' ch = Some r).
Proof.
  intros Hi. unfold after_space. destruct (skip_space src len len i p) as [[i' p']|] eqn:E; [|done]. obind.
  apply skip_space_le in E; [|done]. destruct (i' =? len)%nat eqn:Ei; b2p.
  - intros [= <-]. left. exists p'. by rewrite Ei.
  - destruct (src !! p') as [ch|]; [|done]. obind. intros Hk. right. exists i', p', ch. split; [lia|done].
Qed.

Lemma decode_quad_end no_pos src len i p r :
  (i <= len)%nat -> decode_quad no_pos src len i p = Some r ->
  match r with Broke i _ => i = len | Quad i _ _ _ => (i <= len)%nat end.
Proof.
  intros Hi Hq. unfold decode_quad in Hq.
  apply after_space_cases in Hq as [[q ->]|(i1 & p1 & c1 & H1 & Hq)]; [done| |done]. cbv zeta in Hq.
  apply after_space_cases in Hq as [[q ->]|(i2 & p2 & c2 & H2 & Hq)]; [done| |lia]. cbv zeta in Hq.
  apply after_space_cases in Hq as [[q ->]|(i3 & p3 & c3 & H3 & Hq)]; [done| |lia].
  destruct (c3 =? 61); cbn [negb] in Hq; [by injection Hq as <-|].
  apply after_space_cases in Hq as [[q ->]|(i4 & p4 & c4 & H4 & Hq)]; [done| |lia].
  destruct (c4 =? 61); cbn [negb] in Hq; injection Hq as <-; lia.
Qed.

Lemma decode_loop_end no_pos src len fuel : forall i p d i' p' d',
  (i <= len)%nat -> decode_loop no_pos src len fuel i p d = Some (i', p', d') -> i' = len.
Proof.
  induction fuel as [|fuel IH]; intros i p d i' p' d' Hi; cbn [decode_loop];
    destruct (i <? len)%nat eqn:E; b2p; try done; try (intros [= <- <- <-]; lia).
  destruct (decode_quad no_pos src len i p) as [r|] eqn:Er; [|done]. obind.
  apply decode_quad_end in Er; [|done]. destruct r as [i1 p1|i1 p1 c mark].
  - by intros [= <- <- <-].
  - by apply IH.
Qed.

(** So no text is refused: one that is cut in the middle of a group is not, and
    a character outside the alphabet counts as [no_pos]. *)
Lemma base64_decode_no_error no_pos src len n d p :
  base64_decode no_pos src len = Some (n, d, p) -> n = s32 (Z.of_nat (length d)).
Proof.
  unfold base64_decode. destruct (decode_loop no_pos src len len 0 0 []) as [[[i q] d']|] eqn:E; [|done].
  obind. apply decode_loop_end in E as ->; [|lia]. rewrite Nat.eqb_refl. by intros [= <- <- <-].
Qed.

Example base64_decode_cut no_pos : base64_decode no_pos [81; 81] 2 = Some (0, [], 2%nat).
Proof. reflexivity. Qed.

Example base64_decode_junk : base64_decode (-7) [33; 65; 65; 65] 4 = Some (3, [228; 0; 0], 4%nat).
Proof. vm_compute. reflexivity. Qed.
