(* ===== verification/Pack.v ===== *)
(** * Packed integers of the client protocol: sql-common/pack.c

    A packet is the list of its bytes.  A function that writes returns the
    bytes, one that reads returns the value and how far it moves the packet
    pointer, or nothing when it reads beyond the end.  The multi byte macros are
    the portable ones of include/my_global.h. *)

From stdpp Require Import prelude list list_numbers.
From Stdlib Require Import ZArith Lia ZifyNat.
From S2P Require Import Prelude.

Open Scope Z_scope.

Definition uint2korr (p : list Z) : option Z :=
  match p with
  | a :: b :: _ => Some (u8 a + (u8 b .<< 8))
  | _ => None
  end.

Definition uint3korr (p : list Z) : option Z :=
  match p with
  | a :: b :: c :: _ => Some (u32 (u8 a + (u8 b .<< 8) + (u8 c .<< 16)))
  | _ => None
  end.

Definition uint4korr (p : list Z) : option Z :=
  match p with
  | a :: b :: c :: d :: _ =>
    Some (u32 (u8 a + (u8 b .<< 8) + (u8 c .<< 16) + (u8 d .<< 24)))
  | _ => None
  end.

Definition uint8korr (p : list Z) : option Z :=
  lo ← uint4korr p; hi ← uint4korr (drop 4 p); Some (u64 (lo + (hi .<< 32))).

Definition int2store (a : Z) : list Z := [u8 (u32 a); u8 (u32 a .>> 8)].
Definition int3store (a : Z) : list Z := [u8 a; u8 (a .>> 8); u8 (a .>> 16)].
Definition int4store (a : Z) : list Z := [u8 a; u8 (a .>> 8); u8 (a .>> 16); u8 (a .>> 24)].
Definition int8store (a : Z) : list Z := int4store (u32 a) ++ int4store (u32 (a .>> 32)).

(** [(unsigned long) ~0], for the ulong and the my_ulonglong functions. *)
Definition NULL_LENGTH : Z := 2 ^ 64 - 1.

Definition net_field_length (packet : list Z) : option (Z * nat) :=
  pos ← packet !! 0%nat;
  let rest := drop 1 packet in
  if pos <? 251 then Some (pos, 1%nat)
  else if pos =? 251 then Some (NULL_LENGTH, 1%nat)
  else if pos =? 252 then v ← uint2korr rest; Some (v, 3%nat)
  else if pos =? 253 then v ← uint3korr rest; Some (v, 4%nat)
  else v ← uint4korr rest; Some (v, 9%nat).

Definition net_field_length_ll (packet : list Z) : option (Z * nat) :=
  pos ← packet !! 0%nat;
  let rest := drop 1 packet in
  if pos <? 251 then Some (pos, 1%nat)
  else if pos =? 251 then Some (NULL_LENGTH, 1%nat)
  else if pos =? 252 then v ← uint2korr rest; Some (v, 3%nat)
  else if pos =? 253 then v ← uint3korr rest; Some (v, 4%nat)
  else v ← uint8korr rest; Some (v, 9%nat).

(** The bytes stored; the function returns the position after them. *)
Definition net_store_length (length : Z) : list Z :=
  if length <? 251 then [u8 length]
  else if length <? 65536 then 252 :: int2store (u32 length)
  else if length <? 16777216 then 253 :: int3store length
  else 254 :: int8store length.

(** ** The byte order *)

Lemma byte_at a n : 0 <= n -> u8 (a .>> n) = (a / 2 ^ n) mod 256.
Proof. intros Hn. unfold u8. by rewrite Z.shiftr_div_pow2. Qed.

Lemma u8_mod z : u8 (z mod 256) = z mod 256.
Proof. apply Z.mod_mod. lia. Qed.

Lemma int2_roundtrip a l : 0 <= a < 2 ^ 16 -> uint2korr (int2store a ++ l) = Some a.
Proof.
  intros Ha. cbn [int2store app uint2korr]. nowrap. rewrite byte_at by lia. unfold u8 at 2. rewrite !u8_mod.
  rewrite Z.shiftl_mul_pow2 by lia. unfold u8. f_equal. zdiv.
Qed.

Lemma int3_roundtrip a l : 0 <= a < 2 ^ 24 -> uint3korr (int3store a ++ l) = Some a.
Proof.
  intros Ha. cbn [int3store app uint3korr]. rewrite !byte_at by lia. unfold u8 at 2. rewrite !u8_mod.
  rewrite !Z.shiftl_mul_pow2 by lia. change (2 ^ 16) with 65536. change (2 ^ 8) with 256.
  unfold u8, u32. f_equal. change (2 ^ 8) with 256. change (2 ^ 32) with 4294967296. zdiv.
Qed.

Lemma int4_roundtrip a l : 0 <= a < 2 ^ 32 -> uint4korr (int4store a ++ l) = Some a.
Proof.
  intros Ha. cbn [int4store app uint4korr]. rewrite !byte_at by lia. unfold u8 at 2. rewrite !u8_mod.
  rewrite !Z.shiftl_mul_pow2 by lia. change (2 ^ 24) with 16777216. change (2 ^ 16) with 65536. change (2 ^ 8) with 256.
  unfold u8, u32. f_equal. change (2 ^ 8) with 256. change (2 ^ 32) with 4294967296. zdiv.
Qed.

Lemma int8_roundtrip a l : 0 <= a < 2 ^ 64 -> uint8korr (int8store a ++ l) = Some a.
Proof.
  intros Ha. unfold uint8korr, int8store. rewrite <- app_assoc.
  rewrite int4_roundtrip by auto with c_range. obind.
  change (drop 4 (int4store (u32 a) ++ ?l)) with l.
  rewrite int4_roundtrip by auto with c_range. obind.
  rewrite Z.shiftl_mul_pow2, Z.shiftr_div_pow2 by lia. f_equal. unfold u32, u64.
  change (2 ^ 32) with 4294967296 in *. change (2 ^ 64) with 18446744073709551616 in *. zdiv.
Qed.

Lemma int8_low a l : uint4korr (int8store a ++ l) = Some (u32 a).
Proof. unfold int8store. rewrite <- app_assoc. apply int4_roundtrip, u32_range. Qed.

(** Round trip of packed lengths: what net_store_length writes,
    net_field_length_ll reads back for every 64 bit length, moving the packet
    over exactly these bytes; net_field_length reads the same number of bytes
    but only the low 32 bits of a length of 2^24 and more.  No length is written
    as the byte that means NULL. *)
Theorem net_length_roundtrip len rest :
  0 <= len < 2 ^ 64 ->
  let packet := net_store_length len ++ rest in
  net_field_length_ll packet = Some (len, length (net_store_length len)) /\
  net_field_length packet = Some (if len <? 2 ^ 24 then len else len mod 2 ^ 32, length (net_store_length len)) /\
  head packet <> Some 251.
Proof.
  intros Hl packet. unfold packet, net_store_length.
  destruct (len <? 251) eqn:E1; [|destruct (len <? 65536) eqn:E2; [|destruct (len <? 16777216) eqn:E3]]; b2p.
  - unfold net_field_length_ll, net_field_length. cbn [app lookup list_lookup head]. nowrap. obind.
    replace (len <? 251) with true by bsolve. replace (len <? 2 ^ 24) with true by bsolve.
    split; [done|]. split; [done|]. intros [= Hn]. lia.
  - unfold net_field_length_ll, net_field_length. cbn -[int2store uint2korr Z.pow].
    change (drop 0 ?l) with l. rewrite int2_roundtrip by (rewrite u32_small; lia). obind.
    rewrite u32_small by lia. replace (len <? 2 ^ 24) with true by bsolve. done.
  - unfold net_field_length_ll, net_field_length. cbn -[int3store uint3korr Z.pow].
    change (drop 0 ?l) with l. rewrite int3_roundtrip by lia. obind.
    replace (len <? 2 ^ 24) with true by bsolve. done.
  - unfold net_field_length_ll, net_field_length. cbn -[int8store uint8korr uint4korr Z.pow].
    change (drop 0 ?l) with l. rewrite int8_roundtrip by lia.
    rewrite int8_low. obind.
    replace (len <? 2 ^ 24) with false by bsolve. done.
Qed.

Lemma net_length_roundtrip_witness :
  net_field_length_ll (net_store_length 5000000000 ++ [7]) = Some (5000000000, 9%nat) /\
  net_field_length (net_store_length 5000000000 ++ [7]) = Some (705032704, 9%nat) /\
  head (net_store_length 5000000000 ++ [7]) <> Some 251.
Proof. apply (net_length_roundtrip 5000000000 [7]). split; [discriminate|reflexivity]. Defined.
