(* ===== verification/MemRoot.v ===== *)
(** * Memory roots: mysys/my_alloc.c, include/my_alloc.h

    A MEM_ROOT gives out pieces of blocks it gets from my_malloc and frees them
    all at once.  A block is its address and its two counters; the free and the
    used list are lists of blocks, and [pre_alloc] is the address of one.
    my_malloc is a parameter: it is told the blocks the root holds and the size,
    and returns the address or NULL.  The error handler is called exactly when
    the result is NULL. *)

From stdpp Require Import prelude list list_numbers.
From Stdlib Require Import ZArith Lia ZifyNat.
From S2P Require Import Prelude.

Open Scope Z_scope.

Record USED_MEM : Type := mk_block { addr : Z; left : Z; size : Z }.

Record MEM_ROOT : Type := mk_root {
  free : list USED_MEM;
  used : list USED_MEM;
  pre_alloc : option Z;
  min_malloc : Z;
  block_size : Z;
  block_num : Z;
  first_block_usage : Z
}.

Definition ALLOC_MAX_BLOCK_TO_DROP : Z := 4096.
Definition ALLOC_MAX_BLOCK_USAGE_BEFORE_DROP : Z := 10.

(** [sizeof(USED_MEM)]: a pointer and two unsigned ints. *)
Definition sizeof_USED_MEM : Z := 16.

(** [MALLOC_OVERHEAD + sizeof(USED_MEM) + 8]. *)
Definition ALLOC_ROOT_MIN_BLOCK_SIZE : Z := 8 + sizeof_USED_MEM + 8.

Definition ALIGN_SIZE (a : Z) : Z := Z.land (u64 (a + 8 - 1)) (Z.lnot 7).

Definition header : Z := ALIGN_SIZE sizeof_USED_MEM.

Section Root.
Context (my_malloc : list USED_MEM -> Z -> option Z).

Definition blocks (r : MEM_ROOT) : list USED_MEM := free r ++ used r.

Definition init_alloc_root (block_size pre_alloc_size : Z) : MEM_ROOT :=
  let r := mk_root [] [] None 32 (u64 (block_size - ALLOC_ROOT_MIN_BLOCK_SIZE)) 4 0 in
  if negb (pre_alloc_size =? 0) then
    match my_malloc [] (u64 (pre_alloc_size + header)) with
    | Some a => mk_root [mk_block a (u32 pre_alloc_size) (u32 (pre_alloc_size + header))] []
                        (Some a) 32 (u64 (block_size - ALLOC_ROOT_MIN_BLOCK_SIZE)) 4 0
    | None => r
    end
  else r.

(** The search of reset_root_defaults in the free list: the block of the wanted
    size, or the list without the unused blocks, which are freed. *)
Fixpoint reuse_or_free (l : list USED_MEM) (sz : Z) : option Z * list USED_MEM * list Z :=
  match l with
  | [] => (None, [], [])
  | mem :: l =>
    if size mem =? sz then (Some (addr mem), mem :: l, [])
    else
      let '(found, l, freed) := reuse_or_free l sz in
      if u64 (left mem + header) =? size mem then (found, l, addr mem :: freed)
      else (found, mem :: l, freed)
  end.

(** The second result is the list of freed blocks. *)
Definition reset_root_defaults (r : MEM_ROOT) (block_sz pre_alloc_size : Z) : MEM_ROOT * list Z :=
  let bs := u64 (block_sz - ALLOC_ROOT_MIN_BLOCK_SIZE) in
  let set pre fr := mk_root fr (used r) pre (min_malloc r) bs (block_num r) (first_block_usage r) in
  if negb (pre_alloc_size =? 0) then
    let sz := u64 (pre_alloc_size + header) in
    let same := match pre_alloc r with
                | Some a => match list_find (fun b => addr b = a) (blocks r) with
                            | Some (_, b) => size b =? sz
                            | None => false
                            end
                | None => false
                end in
    if same then (set (pre_alloc r) (free r), [])
    else
      match reuse_or_free (free r) sz with
      | (Some a, fr, freed) => (set (Some a) fr, freed)
      | (None, fr, freed) =>
        match my_malloc (fr ++ used r) sz with
        | Some a => (set (Some a) (fr ++ [mk_block a (u32 pre_alloc_size) (u32 sz)]), freed)
        | None => (set None fr, freed)
        end
      end
  else (set None (free r), []).

(** The first block of the list with [length] bytes left, and those around it. *)
Fixpoint find_block (l : list USED_MEM) (length : Z) : list USED_MEM * option (USED_MEM * list USED_MEM) :=
  match l with
  | [] => ([], None)
  | b :: l =>
    if left b <? length then let '(pre, r) := find_block l length in (b :: pre, r)
    else ([], Some (b, l))
  end.

(** The first block is given up when it was too small too often. *)
Definition drop_first (r : MEM_ROOT) (length : Z) : MEM_ROOT :=
  match free r with
  | b :: rest =>
    if left b <? length then
      let usage := first_block_usage r in
      if (ALLOC_MAX_BLOCK_USAGE_BEFORE_DROP <=? usage) && (left b <? ALLOC_MAX_BLOCK_TO_DROP)
      then mk_root rest (b :: used r) (pre_alloc r) (min_malloc r) (block_size r) (block_num r) 0
      else mk_root (free r) (used r) (pre_alloc r) (min_malloc r) (block_size r) (block_num r)
                   (u32 (usage + 1))
    else r
  | [] => r
  end.

(** Take [length] bytes of [next], which is in the free list between [pre] and
    [post]. *)
Definition take_from (r : MEM_ROOT) (pre post : list USED_MEM) (next : USED_MEM) (length : Z)
    : Z * MEM_ROOT :=
  let point := addr next + u32 (size next - left next) in
  let next := mk_block (addr next) (u32 (left next - length)) (size next) in
  if left next <? min_malloc r
  then (point, mk_root (pre ++ post) (next :: used r) (pre_alloc r) (min_malloc r) (block_size r)
                       (block_num r) 0)
  else (point, mk_root (pre ++ next :: post) (used r) (pre_alloc r) (min_malloc r) (block_size r)
                       (block_num r) (first_block_usage r)).

Definition alloc_root (r : MEM_ROOT) (length : Z) : option Z * MEM_ROOT :=
  let length := ALIGN_SIZE length in
  let r := drop_first r length in
  match find_block (free r) length with
  | (pre, Some (next, post)) =>
    let '(point, r) := take_from r pre post next length in (Some point, r)
  | (pre, None) =>
    let block_sz := u64 (block_size r * (block_num r .>> 2)) in
    let get_size := u64 (length + header) `max` block_sz in
    match my_malloc (blocks r) get_size with
    | None => (None, r)
    | Some a =>
      let next := mk_block a (u32 (get_size - header)) (u32 get_size) in
      let r := mk_root (free r) (used r) (pre_alloc r) (min_malloc r) (block_size r)
                       (u32 (block_num r + 1)) (first_block_usage r) in
      let '(point, r) := take_from r pre [] next length in (Some point, r)
    end
  end.

(** The pointers of the pieces. *)
Fixpoint place_pieces (res : Z) (lengths : list Z) : list Z :=
  match lengths with
  | [] => []
  | length :: lengths => res :: place_pieces (res + ALIGN_SIZE (u32 length)) lengths
  end.

Definition multi_alloc_root (r : MEM_ROOT) (lengths : list Z) : option (Z * list Z) * MEM_ROOT :=
  let tot_length := fold_left (fun t length => u64 (t + ALIGN_SIZE (u32 length))) lengths 0 in
  match alloc_root r tot_length with
  | (None, r) => (None, r)
  | (Some start, r) => (Some (start, place_pieces start lengths), r)
  end.

Definition mark_free (b : USED_MEM) : USED_MEM := mk_block (addr b) (u32 (size b - header)) (size b).

Definition mark_blocks_free (r : MEM_ROOT) : MEM_ROOT :=
  mk_root (map mark_free (free r) ++ map mark_free (used r)) [] (pre_alloc r) (min_malloc r)
          (block_size r) (block_num r) 0.

Definition MY_KEEP_PREALLOC : Z := 1.
Definition MY_MARK_BLOCKS_FREE : Z := 2.

(** The second result is the list of freed blocks; nothing when pre_alloc points
    to no block. *)
Definition free_root (r : MEM_ROOT) (MyFlags : Z) : option (MEM_ROOT * list Z) :=
  if test (MyFlags .& MY_MARK_BLOCKS_FREE) then Some (mark_blocks_free r, [])
  else
    let pre := if negb (test (MyFlags .& MY_KEEP_PREALLOC)) then None else pre_alloc r in
    let freed := filter (fun a => Some a <> pre) (map addr (used r ++ free r)) in
    match pre with
    | None => Some (mk_root [] [] None (min_malloc r) (block_size r) 4 0, freed)
    | Some a =>
      '(_, b) ← list_find (fun b => addr b = a) (blocks r);
      Some (mk_root [mark_free b] [] (Some a) (min_malloc r) (block_size r) 4 0, freed)
    end.

Definition holds_ptr (ptr : Z) (b : USED_MEM) : bool := (addr b <=? ptr) && (ptr <? addr b + size b).

Definition set_prealloc_root (r : MEM_ROOT) (ptr : Z) : MEM_ROOT :=
  match List.find (holds_ptr ptr) (used r ++ free r) with
  | Some b => mk_root (free r) (used r) (Some (addr b)) (min_malloc r) (block_size r)
                      (block_num r) (first_block_usage r)
  | None => r
  end.

(** The pointer and the bytes written there. *)
Definition memdup_root (r : MEM_ROOT) (str : list Z) : option (Z * list Z) * MEM_ROOT :=
  match alloc_root r (Z.of_nat (length str)) with
  | (Some pos, r) => (Some (pos, str), r)
  | (None, r) => (None, r)
  end.

Definition strmake_root (r : MEM_ROOT) (str : list Z) (len : nat) : option (Z * list Z) * MEM_ROOT :=
  match alloc_root r (Z.of_nat len + 1) with
  | (Some pos, r) => (Some (pos, take len str ++ [0]), r)
  | (None, r) => (None, r)
  end.

(** [str] up to its NUL. *)
Definition strdup_root (r : MEM_ROOT) (str : list Z) : option (Z * list Z) * MEM_ROOT :=
  strmake_root r str (length str).
End Root.

(** ** Alignment *)

Lemma ALIGN_SIZE_spec a :
  0 <= a < 2 ^ 64 - 8 -> a <= ALIGN_SIZE a < a + 8 /\ ALIGN_SIZE a mod 8 = 0.
Proof.
  intros Ha. unfold ALIGN_SIZE. nowrap. rewrite <- (Z.ldiff_land _ 7). change 7 with (Z.ones 3).
  rewrite Z.ldiff_ones_r by lia. rewrite Z.shiftl_mul_pow2, Z.shiftr_div_pow2 by lia.
  change (2 ^ 3) with 8. split; zdiv.
Qed.

Lemma header_16 : header = 16.
Proof. reflexivity. Qed.

(** ** Areas *)

Definition area : Type := (Z * Z)%type.

(** Two areas, given by their address and length, do not overlap. *)
Definition apart (a b : area) : Prop := a.1 + a.2 <= b.1 \/ b.1 + b.2 <= a.1.

Lemma apart_sym a b : apart a b -> apart b a.
Proof. unfold apart. tauto. Qed.

Definition all_apart (l : list area) : Prop := ForallOrdPairs apart l.

#[export] Instance all_apart_perm : Proper (Permutation ==> iff) all_apart.
Proof.
  assert (forall l l', l ≡ₚ l' -> all_apart l -> all_apart l') as Hone.
  { intros l l' Hp. induction Hp as [|x l l' Hp IH|x y l|l1 l2 l3 _ IH1 _ IH2]; intros Hl; [done| | |by auto].
    - inversion_clear Hl as [|? ? Hx Hr]. constructor; [by rewrite <- Hp|by apply IH].
    - inversion_clear Hl as [|? ? Hy Hr]. inversion_clear Hr as [|? ? Hx Hr'].
      apply Forall_cons in Hy as [Hyx Hy]. 
      apply FOP_cons; [by constructor; [apply apart_sym|]|by apply FOP_cons]. }
  intros l l' Hp. split; apply Hone; [done|by symmetry].
Qed.

Lemma all_apart_cons a l : all_apart (a :: l) <-> Forall (apart a) l /\ all_apart l.
Proof.
  split; [intros Hl; by inversion_clear Hl|]. intros [Ha Hl]. by constructor.
Qed.

(** ** The invariant *)

Definition extent (b : USED_MEM) : area := (addr b, size b).

Record block_ok (b : USED_MEM) : Prop := {
  bo_addr : addr b mod 8 = 0;
  bo_left : 0 <= left b;
  bo_used : header <= size b - left b;
  bo_size : size b < 2 ^ 32;
  bo_align : (size b - left b) mod 8 = 0
}.

(** The area is in the part of the block that is given out. *)
Definition inside (a : area) (b : USED_MEM) : Prop :=
  addr b + header <= a.1 /\ 0 <= a.2 /\ a.1 + a.2 <= addr b + (size b - left b).

(** [bs] are blocks that do not overlap, [areas] the areas given out of them. *)
Record carved (bs : list USED_MEM) (areas : list area) : Prop := {
  ca_blocks : Forall block_ok bs;
  ca_apart : all_apart (map extent bs);
  ca_inside : Forall (fun a => exists b, b ∈ bs /\ inside a b) areas;
  ca_areas : all_apart areas
}.

#[export] Instance carved_perm : Proper (Permutation ==> eq ==> iff) carved.
Proof.
  assert (forall bs bs' areas, bs ≡ₚ bs' -> carved bs areas -> carved bs' areas) as Hone.
  { intros bs bs' areas Hp [Hb Ha Hi Hd]. split; [by rewrite <- Hp|by rewrite <- Hp| |done].
    eapply Forall_impl; [exact Hi|]. intros a (b & Hin & Hab). exists b. by rewrite <- Hp. }
  intros bs bs' Hp areas ? <-. split; apply Hone; [done|by symmetry].
Qed.

(** A block more. *)
Lemma carved_add bs areas b :
  carved bs areas -> block_ok b -> Forall (apart (extent b)) (map extent bs) -> carved (b :: bs) areas.
Proof.
  intros [Hb Ha Hi Hd] Hok Hap. split; [by constructor| |  |done].
  - apply all_apart_cons. done.
  - eapply Forall_impl; [exact Hi|]. intros a (b' & Hin & Hab). exists b'. split; [by right|done].
Qed.

(** [length] bytes of a block are given out. *)
Lemma carved_take bs areas b len :
  carved (b :: bs) areas -> 0 <= len <= left b -> len mod 8 = 0 ->
  carved (mk_block (addr b) (left b - len) (size b) :: bs) ((addr b + (size b - left b), len) :: areas).
Proof.
  intros [Hb Ha Hi Hd] Hlen Hal. apply Forall_cons in Hb as [Hb Hbs]. pose proof Hb as [B1 B2 B3 B4 B5].
  pose proof Ha as [Hap _]%all_apart_cons. split; [|done| |].
  - constructor; [|done]. split; simpl; lia.
  - constructor.
    + exists (mk_block (addr b) (left b - len) (size b)). split; [left|]. unfold inside. simpl. rewrite header_16 in *. lia.
    + eapply Forall_impl; [exact Hi|]. intros a (b' & Hin & Hab).
      apply elem_of_cons in Hin as [->|Hin]; [|exists b'; split; [by right|done]].
      eexists. split; [left|]. unfold inside in *. simpl. lia.
  - apply all_apart_cons. split; [|done]. eapply Forall_impl; [exact Hi|].
    intros a (b' & Hin & (A1 & A2 & A3)). apply elem_of_cons in Hin as [->|Hin].
    + right. simpl. lia.
    + rewrite Forall_forall in Hap. specialize (Hap (extent b')).
      rewrite Forall_forall in Hbs. destruct (Hbs b' Hin) as [C1 C2 C3 C4 C5].
      assert (apart (extent b) (extent b')) as [Hx|Hx].
      { apply Hap. apply list_elem_of_fmap. by exists b'. }
      * left. simpl in *. rewrite header_16 in *. lia.
      * right. simpl in *. rewrite header_16 in *. lia.
Qed.

(** ** Allocation *)

(** What my_malloc promises: an aligned area that is not in use. *)
Definition malloc_ok (my_malloc : list USED_MEM -> Z -> option Z) : Prop :=
  forall bs sz a, my_malloc bs sz = Some a ->
    a mod 8 = 0 /\ Forall (apart (a, sz)) (map extent bs).

Record root_ok (r : MEM_ROOT) (areas : list area) : Prop := {
  ro_carved : carved (blocks r) areas;
  ro_pre : forall a, pre_alloc r = Some a -> a ∈ map addr (blocks r)
}.

Lemma drop_first_spec r len :
  blocks (drop_first r len) ≡ₚ blocks r /\ pre_alloc (drop_first r len) = pre_alloc r /\
  block_size (drop_first r len) = block_size r /\ block_num (drop_first r len) = block_num r.
Proof.
  unfold drop_first. destruct (free r) as [|b rest] eqn:E; [done|].
  destruct (left b <? len); [|done]. destruct (_ && _).
  - split; [|done]. unfold blocks. rewrite E. simpl. by rewrite <- Permutation_middle.
  - split; [|done]. unfold blocks. by rewrite <- E.
Qed.

Lemma find_block_spec l len :
  match find_block l len with
  | (pre, Some (b, post)) => l = pre ++ b :: post /\ len <= left b
  | (pre, None) => l = pre
  end.
Proof.
  induction l as [|b l IH]; [done|]. cbn [find_block]. destruct (left b <? len) eqn:E; b2p; [|done].
  destruct (find_block l len) as [pre [[b' post]|]]; naive_solver.
Qed.

Lemma take_from_spec r pre post next len areas :
  carved (next :: pre ++ post ++ used r) areas -> 0 <= len <= left next -> len mod 8 = 0 ->
  (forall a, pre_alloc r = Some a -> a ∈ map addr (next :: pre ++ post ++ used r)) ->
  let '(p, r') := take_from r pre post next len in
  root_ok r' ((p, len) :: areas) /\ p mod 8 = 0.
Proof.
  intros Hc Hlen Hal Hpre. pose proof (ca_blocks _ _ Hc) as [Hb _]%Forall_cons.
  destruct Hb as [B1 B2 B3 B4 B5]. rewrite header_16 in B3.
  pose proof (carved_take _ _ _ _ Hc Hlen Hal) as Hc'.
  unfold take_from. rewrite (u32_small (size next - left next)) by lia. rewrite (u32_small (left next - len)) by lia.
  set (b' := mk_block (addr next) (left next - len) (size next)) in *.
  assert (forall r', pre_alloc r' = pre_alloc r -> blocks r' ≡ₚ b' :: pre ++ post ++ used r ->
    root_ok r' ((addr next + (size next - left next), len) :: areas)) as Hroot.
  { intros r' Hp Hbl. split; [by rewrite Hbl|]. rewrite Hp. intros a Ha. specialize (Hpre a Ha).
    change (@map) with (@fmap list _) in *. by rewrite Hbl. }
  case_if; (split; [apply Hroot; [done|]|zdiv]); unfold blocks; simpl.
  - by rewrite <- Permutation_middle, <- app_assoc.
  - by rewrite <- app_assoc, <- app_comm_cons, <- Permutation_middle.
Qed.

Lemma alloc_root_spec my_malloc r areas len :
  malloc_ok my_malloc -> root_ok r areas ->
  0 <= len < 2 ^ 32 - 24 -> 0 <= block_size r * (block_num r .>> 2) < 2 ^ 32 ->
  match alloc_root my_malloc r len with
  | (Some p, r') => root_ok r' ((p, ALIGN_SIZE len) :: areas) /\ p mod 8 = 0 /\ len <= ALIGN_SIZE len
  | (None, r') => root_ok r' areas /\ exists sz, my_malloc (blocks r') sz = None
  end.
Proof.
  intros Hm [Hc Hpre] Hlen Hbs. destruct (ALIGN_SIZE_spec len) as [Ha Hal]; [lia|].
  unfold alloc_root. set (n := ALIGN_SIZE len) in *. cbv zeta.
  destruct (drop_first_spec r n) as (Hbl & Hp & Hsz & Hnum). set (r1 := drop_first r n) in *.
  rewrite <- Hbl in Hc. change (@map) with (@fmap list _) in Hpre. setoid_rewrite <- Hbl in Hpre.
  rewrite <- Hp in Hpre. rewrite Hsz, Hnum. pose proof (find_block_spec (free r1) n) as Hfind.
  destruct (find_block (free r1) n) as [pre [[next post]|]].
  - destruct Hfind as [Hfree Hleft].
    pose proof (take_from_spec r1 pre post next n areas) as Ht. destruct (take_from r1 pre post next n) as [p r2].
    assert (blocks r1 ≡ₚ next :: pre ++ post ++ used r1) as Hb1.
    { unfold blocks. rewrite Hfree, <- app_assoc. simpl. by rewrite <- Permutation_middle. }
    rewrite Hb1 in Hc. destruct Ht as [H1 H2]; [done|lia|done| |split; [done|split; [done|lia]]].
    intros a Ha'. change (@map) with (@fmap list _). rewrite <- Hb1. by apply Hpre.
  - rewrite (u64_small (n + header)) by (rewrite header_16; lia).
    rewrite (u64_small (block_size r * _)) by lia.
    set (sz := (n + header) `max` (block_size r * (block_num r .>> 2))).
    assert (n + header <= sz < 2 ^ 32) as Hsz2 by (unfold sz; rewrite header_16; lia).
    destruct (my_malloc (blocks r1) sz) as [a|] eqn:Em.
    + destruct (Hm _ _ _ Em) as [Haa Hap]. rewrite header_16.
      set (r2 := mk_root _ _ _ _ _ _ _). set (next := mk_block a _ _).
      assert (left next = sz - 16 /\ size next = sz) as [Hl2 Hs2].
      { simpl. rewrite header_16 in Hsz2. rewrite !u32_small by lia. done. }
      pose proof (take_from_spec r2 pre [] next n areas) as Ht. destruct (take_from r2 pre [] next n) as [p r3].
      assert (blocks r1 = pre ++ used r2) as Hb1 by (by unfold blocks; rewrite Hfind).
      rewrite header_16 in Hsz2. change ([] ++ used r2) with (used r2) in Ht. rewrite <- Hb1 in Ht.
      destruct Ht as [H1 H2]; [|rewrite Hl2; lia|done| |split; [done|split; [done|lia]]].
      * apply carved_add; [done| |by unfold extent; rewrite Hs2].
        split; rewrite ?Hl2, ?Hs2, ?header_16; simpl; lia || zdiv.
      * intros a' Ha'. right. by apply Hpre.
    + split; [by split|eauto].
Qed.

(** ** Freeing *)

(** Nothing is given out of a block. *)
Definition untouched (b : USED_MEM) : Prop := size b - left b = header.

Lemma mark_free_ok b : block_ok b -> block_ok (mark_free b) /\ untouched (mark_free b).
Proof.
  intros [B1 B2 B3 B4 B5]. rewrite header_16 in *. unfold mark_free, untouched. rewrite header_16.
  split; [split|]; simpl; rewrite ?header_16, ?u32_small; lia.
Qed.

Lemma mark_free_extent bs : map extent (map mark_free bs) = map extent bs.
Proof. induction bs as [|b bs IH]; [done|]. simpl. by rewrite IH. Qed.

Lemma mark_free_addr bs : map addr (map mark_free bs) = map addr bs.
Proof. induction bs as [|b bs IH]; [done|]. simpl. by rewrite IH. Qed.

Lemma carved_mark bs areas : carved bs areas -> carved (map mark_free bs) [] /\ Forall untouched (map mark_free bs).
Proof.
  intros [Hb Ha _ _].
  assert (Forall (fun b => block_ok b /\ untouched b) (map mark_free bs)) as Hm.
  { apply Forall_fmap. eapply Forall_impl; [exact Hb|]. apply mark_free_ok. }
  split; [|eapply Forall_impl; [exact Hm|]; by intros b []].
  split; [eapply Forall_impl; [exact Hm|]; by intros b []|by rewrite mark_free_extent|constructor|constructor].
Qed.

(** Blocks have different addresses. *)
Lemma carved_nodup bs areas : carved bs areas -> NoDup (map addr bs).
Proof.
  intros [Hb Ha _ _]. induction bs as [|b bs IH]; [constructor|].
  apply Forall_cons in Hb as [Hb Hbs]. apply all_apart_cons in Ha as [Hap Ha].
  apply NoDup_cons. split; [|by apply IH].
  intros (b' & Heq & Hin)%list_elem_of_fmap.
  rewrite Forall_forall in Hap. rewrite Forall_forall in Hbs. specialize (Hbs b' Hin).
  assert (apart (extent b) (extent b')) as Hx by (apply Hap, list_elem_of_fmap; by exists b').
  destruct Hb as [_ B2 B3 _ _], Hbs as [_ C2 C3 _ _]. rewrite header_16 in *.
  unfold apart, extent in Hx. simpl in Hx. lia.
Qed.

Lemma filter_other (l : list Z) a : NoDup l -> a ∈ l -> a :: filter (fun x => Some x <> Some a) l ≡ₚ l.
Proof.
  intros Hnd Ha. apply NoDup_Permutation; [|done|].
  - apply NoDup_cons. split; [|by apply NoDup_filter]. rewrite list_elem_of_filter. naive_solver.
  - intros x. rewrite elem_of_cons, list_elem_of_filter. destruct (decide (x = a)); naive_solver congruence.
Qed.

Lemma filter_all (P : Z -> Prop) `{forall x, Decision (P x)} (l : list Z) : (forall x, P x) -> filter P l = l.
Proof. intros HP. induction l as [|x l IH]; [done|]. by rewrite filter_cons_True, IH. Qed.

(** free_root succeeds and leaves a root from which nothing is given out. *)
Lemma free_root_ok r areas MyFlags : root_ok r areas ->
  exists r' freed, free_root r MyFlags = Some (r', freed) /\ root_ok r' [] /\ block_size r' = block_size r.
Proof.
  intros [Hc Hpre]. unfold free_root. destruct (test (MyFlags .& MY_MARK_BLOCKS_FREE)).
  { destruct (carved_mark _ _ Hc) as [Hc' _]. eexists _, []. split; [done|]. split; [|done]. unfold blocks in *. rewrite map_app in Hc'.
    split; unfold blocks; simpl; rewrite ?app_nil_r; [done|]. rewrite map_app, !mark_free_addr, <- map_app. exact Hpre. }
  destruct (test (MyFlags .& MY_KEEP_PREALLOC)); cbn [negb]; [destruct (pre_alloc r) as [a|]|].
  2,3: eexists _, _; split; [done|]; split; [split; [by split; constructor|done]|done].
  destruct (list_find (fun b => addr b = a) (blocks r)) as [[i b]|] eqn:Ef.
  - apply list_find_Some in Ef as (Hi & Hab & _). obind. eexists _, _. split; [done|]. split; [|done].
    assert (block_ok b) as Hb by (eapply Forall_lookup_1; [apply (ca_blocks _ _ Hc)|exact Hi]). destruct (mark_free_ok b Hb) as [Hmk _].
    split; unfold blocks; simpl; [split; [by constructor|repeat constructor|constructor|constructor]|]. intros a' [= <-]. rewrite Hab. left.
  - exfalso. apply list_find_None in Ef. destruct (proj1 (list_elem_of_fmap _ _ _) (Hpre a eq_refl)) as (b & Eb & Hb).
    rewrite Forall_forall in Ef. by apply (Ef b Hb).
Qed.

(** C16.  free_root: afterwards no piece is given out, every block that is kept is
    available in full, and every block of the root was either kept or given to
    my_free, once: MY_MARK_BLOCKS_FREE keeps all, MY_KEEP_PREALLOC at most the
    preallocated one, and otherwise none is kept. *)
Theorem free_root_correct r areas MyFlags :
  root_ok r areas ->
  exists r' freed, free_root r MyFlags = Some (r', freed) /\ root_ok r' [] /\ used r' = [] /\
    Forall untouched (free r') /\ map addr (free r') ++ freed ≡ₚ map addr (blocks r) /\
    (if test (MyFlags .& MY_MARK_BLOCKS_FREE) then freed = []
     else map addr (free r') = match pre_alloc r' with Some a => [a] | None => [] end) /\
    pre_alloc r' = if test (MyFlags .& MY_MARK_BLOCKS_FREE) || test (MyFlags .& MY_KEEP_PREALLOC)
                   then pre_alloc r else None.
Proof.
  intros [Hc Hpre]. pose proof (carved_nodup _ _ Hc) as Hnd. unfold free_root.
  destruct (test (MyFlags .& MY_MARK_BLOCKS_FREE)); cbn [orb].
  { destruct (carved_mark _ _ Hc) as [Hc' Hu]. eexists _, []. split; [done|].
    unfold blocks in *. rewrite map_app in Hc', Hu.
    split; [split; unfold blocks; simpl; rewrite ?app_nil_r; [done|]|].
    { rewrite map_app, !mark_free_addr, <- map_app. exact Hpre. }
    simpl. rewrite app_nil_r, !map_app, !mark_free_addr. by split_and!. }
  assert (map addr (used r ++ free r) ≡ₚ map addr (blocks r)) as Hperm.
  { unfold blocks. by rewrite (Permutation_app_comm (used r)). }
  destruct (test (MyFlags .& MY_KEEP_PREALLOC)); cbn [negb]; [destruct (pre_alloc r) as [a|]|].
  - assert (a ∈ map addr (blocks r)) as Ha by (by apply Hpre).
    destruct (list_find (fun b => addr b = a) (blocks r)) as [[i b]|] eqn:Ef.
    2:{ exfalso. apply list_find_None in Ef. apply list_elem_of_fmap in Ha as (b & -> & Hb).
        rewrite Forall_forall in Ef. by apply (Ef b Hb). }
    apply list_find_Some in Ef as (Hi & Hab & _). obind. eexists _, _. split; [done|].
    assert (block_ok b) as Hb by (eapply Forall_lookup_1; [apply (ca_blocks _ _ Hc)|exact Hi]).
    destruct (mark_free_ok b Hb) as [Hmk Hun].
    split; [split; unfold blocks; simpl|].
    + split; [by constructor|repeat constructor|constructor|constructor].
    + intros a' [= <-]. rewrite Hab. left.
    + simpl. rewrite Hab. split; [done|]. split; [by constructor|]. split; [|done].
      rewrite <- Hperm. apply filter_other; rewrite Hperm; done.
  - eexists _, _. split; [done|]. split; [split; [by split; constructor|done]|]. simpl.
    split; [done|]. split; [constructor|]. split; [|done].
    by rewrite <- Hperm, filter_all.
  - eexists _, _. split; [done|]. split; [split; [by split; constructor|done]|]. simpl.
    split; [done|]. split; [constructor|]. split; [|done].
    by rewrite <- Hperm, filter_all.
Qed.

(** ** Pieces of one allocation *)

Lemma place_pieces_spec lengths : forall start,
  Forall (fun l => 0 <= ALIGN_SIZE (u32 l)) lengths ->
  let areas := zip (place_pieces start lengths) (map (fun l => ALIGN_SIZE (u32 l)) lengths) in
  let total := fold_right (fun l t => ALIGN_SIZE (u32 l) + t) 0 lengths in
  0 <= total /\ all_apart areas /\ Forall (fun a => start <= a.1 /\ a.1 + a.2 <= start + total) areas.
Proof.
  induction lengths as [|l lengths IH]; intros start Hls; simpl.
  { split; [lia|]. split; constructor. }
  apply Forall_cons in Hls as [Hl Hls].
  destruct (IH (start + ALIGN_SIZE (u32 l)) Hls) as (Ht & Hap & Hin). split; [lia|]. split.
  - apply all_apart_cons. split; [|done]. eapply Forall_impl; [exact Hin|].
    intros a [H1 H2]. left. simpl. lia.
  - constructor; [simpl; lia|]. eapply Forall_impl; [exact Hin|]. simpl. intros a Ha. lia.
Qed.

Lemma ALIGN_SIZE_u32 l : 0 <= ALIGN_SIZE (u32 l) < 2 ^ 32 + 8.
Proof. pose proof (u32_range l). destruct (ALIGN_SIZE_spec (u32 l)) as [Hx _]; lia. Qed.

Lemma multi_total lengths : forall t,
  0 <= t -> t + fold_right (fun l t => ALIGN_SIZE (u32 l) + t) 0 lengths < 2 ^ 64 ->
  fold_left (fun t l => u64 (t + ALIGN_SIZE (u32 l))) lengths t =
    t + fold_right (fun l t => ALIGN_SIZE (u32 l) + t) 0 lengths.
Proof.
  induction lengths as [|l lengths IH]; intros t Ht Hb; simpl in *; [lia|].
  pose proof (ALIGN_SIZE_u32 l).
  assert (0 <= fold_right (fun l t => ALIGN_SIZE (u32 l) + t) 0 lengths).
  { clear. induction lengths as [|l lengths IH]; simpl; [lia|]. pose proof (ALIGN_SIZE_u32 l). lia. }
  rewrite u64_small by lia. rewrite IH by lia. lia.
Qed.

(** An area of a root may be divided. *)
Lemma root_ok_divide r a areas parts :
  root_ok r (a :: areas) -> all_apart parts ->
  Forall (fun p => a.1 <= p.1 /\ 0 <= p.2 /\ p.1 + p.2 <= a.1 + a.2) parts -> root_ok r (parts ++ areas).
Proof.
  intros [[Hb He Hi Hd] Hpre] Hap Hin. split; [|done]. apply Forall_cons in Hi as [(b & Hbb & Hab) Hi].
  apply all_apart_cons in Hd as [Hda Hd]. split; [done|done| |].
  - apply Forall_app. split; [|done]. eapply Forall_impl; [exact Hin|]. intros p Hp. exists b. split; [done|].
    unfold inside in *. lia.
  - induction Hin as [|p parts Hp Hin IH]; [done|]. apply all_apart_cons in Hap as [Hap1 Hap]. cbn [app].
    apply all_apart_cons. split; [|by apply IH]. apply Forall_app. split; [done|]. eapply Forall_impl; [exact Hda|].
    intros q [Hq|Hq]; [left|right]; lia.
Qed.

Lemma place_pieces_length lengths start : length (place_pieces start lengths) = length lengths.
Proof. revert start. induction lengths as [|l lengths IH]; intros start; [done|]. simpl. by rewrite IH. Qed.

Lemma place_pieces_aligned lengths start :
  start mod 8 = 0 -> Forall (fun p => p mod 8 = 0) (place_pieces start lengths).
Proof.
  revert start. induction lengths as [|l lengths IH]; intros start Hs; constructor; [done|]. apply IH.
  pose proof (u32_range l). destruct (ALIGN_SIZE_spec (u32 l)) as [_ Hal]; [lia|]. zdiv.
Qed.

(** multi_alloc_root divides one piece. *)
Lemma multi_alloc_root_spec my_malloc r areas lengths :
  malloc_ok my_malloc -> root_ok r areas ->
  let total := fold_right (fun l t => ALIGN_SIZE (u32 l) + t) 0 lengths in
  total < 2 ^ 32 - 24 -> 0 <= block_size r * (block_num r .>> 2) < 2 ^ 32 ->
  match multi_alloc_root my_malloc r lengths with
  | (Some (start, ps), r') =>
    let parts := zip ps (map (fun l => ALIGN_SIZE (u32 l)) lengths) in
    length ps = length lengths /\ root_ok r' (parts ++ areas) /\ Forall (fun p => p mod 8 = 0) ps /\
    Forall (fun l => u32 l <= ALIGN_SIZE (u32 l)) lengths
  | (None, r') => root_ok r' areas /\ exists sz, my_malloc (blocks r') sz = None
  end.
Proof.
  intros Hm Hr total Ht Hbs.
  destruct (place_pieces_spec lengths 0) as [H0 _].
  { apply Forall_true. apply ALIGN_SIZE_u32. }
  unfold multi_alloc_root. rewrite multi_total by (fold total; lia). fold total.
  pose proof (alloc_root_spec my_malloc r areas (0 + total) Hm Hr ltac:(lia) Hbs) as Ha.
  destruct (alloc_root my_malloc r (0 + total)) as [[p|] r']; [|apply Ha].
  destruct Ha as (Hc & Hp & Hle).
  destruct (place_pieces_spec lengths p) as (_ & Hparts & Hin).
  { apply Forall_true. apply ALIGN_SIZE_u32. }
  split; [apply place_pieces_length|]. split; [|split; [by apply place_pieces_aligned|]].
  - apply (root_ok_divide _ _ _ _ Hc); [done|]. rewrite Forall_forall in Hin |- *. intros [q n] Hq.
    pose proof (Hin _ Hq) as H. apply elem_of_zip_r, list_elem_of_fmap in Hq as (l & -> & _).
    pose proof (ALIGN_SIZE_u32 l). fold total in H. simpl in *. lia.
  - apply Forall_true. intros l. pose proof (u32_range l). apply ALIGN_SIZE_spec. lia.
Qed.

(** C12.  alloc_root: the piece it returns is aligned, lies in a block of the root
    and overlaps none of the pieces given out before, which stay where they are;
    the result is NULL only when my_malloc has none, and then nothing is lost.
    The same holds for each of the parts of a multi_alloc_root, of which there is
    one for each length and with room for it.  The request (with multi_alloc_root
    the sum of the aligned lengths) is less than 4 GB minus 24 bytes, and the size
    of the next block less than 4 GB, the width of the counters. *)
Theorem alloc_root_correct my_malloc r areas :
  malloc_ok my_malloc -> root_ok r areas -> 0 <= block_size r * (block_num r .>> 2) < 2 ^ 32 ->
  (forall len, 0 <= len < 2 ^ 32 - 24 ->
    match alloc_root my_malloc r len with
    | (Some p, r') => root_ok r' ((p, ALIGN_SIZE len) :: areas) /\ p mod 8 = 0 /\ len <= ALIGN_SIZE len
    | (None, r') => root_ok r' areas /\ exists sz, my_malloc (blocks r') sz = None
    end) /\
  (forall lengths, fold_right (fun l t => ALIGN_SIZE (u32 l) + t) 0 lengths < 2 ^ 32 - 24 ->
    match multi_alloc_root my_malloc r lengths with
    | (Some (start, ps), r') =>
      let parts := zip ps (map (fun l => ALIGN_SIZE (u32 l)) lengths) in
      length ps = length lengths /\ root_ok r' (parts ++ areas) /\ Forall (fun p => p mod 8 = 0) ps /\
      Forall (fun l => u32 l <= ALIGN_SIZE (u32 l)) lengths
    | (None, r') => root_ok r' areas /\ exists sz, my_malloc (blocks r') sz = None
    end).
Proof.
  intros Hm Hr Hbs. split.
  - intros len Hlen. by apply alloc_root_spec.
  - intros lengths Ht. by apply (multi_alloc_root_spec my_malloc r areas lengths Hm Hr Ht).
Qed.

(** ** An example: memory from one end of the address space *)

Definition bump (bs : list USED_MEM) (sz : Z) : option Z :=
  let end_ := fold_right (fun b m => m `max` (addr b + size b)) 4096 bs in Some (8 * ((end_ + 7) / 8)).

Lemma bump_ok : malloc_ok bump.
Proof.
  intros bs sz a [= <-]. split; [zdiv|]. apply Forall_fmap, Forall_forall. intros b Hb. right.
  unfold extent. simpl.
  assert (addr b + size b <= fold_right (fun b m => m `max` (addr b + size b)) 4096 bs) as Hle; [|zdiv].
  induction Hb as [b bs|b b' bs _ IH]; simpl; lia.
Qed.

(** A block with 40 bytes given out. *)
Definition ex_root : MEM_ROOT := mk_root [mk_block 8192 968 1024] [] (Some 8192) 32 4064 5 0.

Lemma ex_root_ok : root_ok ex_root [(8208, 40)].
Proof.
  split.
  - split; [|repeat constructor| |repeat constructor].
    + constructor; [|constructor]. by split.
    + constructor; [|constructor]. exists (mk_block 8192 968 1024). split; [left|].
      unfold inside. simpl. rewrite header_16. lia.
  - intros a [= <-]. left.
Qed.

Lemma alloc_root_correct_witness :
  exists r', alloc_root bump ex_root 5000 = (Some 9232, r') /\ root_ok r' [(9232, 5000); (8208, 40)].
Proof.
  destruct (alloc_root_correct bump ex_root [(8208, 40)] bump_ok ex_root_ok) as [H _].
  - split; vm_compute; discriminate || reflexivity.
  - specialize (H 5000). destruct (alloc_root bump ex_root 5000) as [[p|] r'] eqn:E;
      vm_compute in E; injection E as E1 E2; [|discriminate].
    exists r'. rewrite <- E1, <- E2 in *. split; [reflexivity|].
    apply H. split; [discriminate|reflexivity].
Defined.

Lemma free_root_correct_witness :
  exists r' freed, free_root ex_root MY_KEEP_PREALLOC = Some (r', freed) /\ root_ok r' [] /\
    pre_alloc r' = Some 8192 /\ map addr (free r') ++ freed ≡ₚ [8192].
Proof.
  destruct (free_root_correct ex_root [(8208, 40)] MY_KEEP_PREALLOC ex_root_ok)
    as (r' & freed & H1 & H2 & _ & _ & H5 & _ & H7).
  exists r', freed. split; [exact H1|]. split; [exact H2|]. split; [exact H7|exact H5].
Defined.
