(* ===== verification/Horner.v ===== *)
(** * Positional notation

    The value of a list of digits in a radix, most significant digit first, and
    canonical numerals.  It is the reference for the conversions of [IntConv]
    and, with the radix 10^9, for the fixed point numbers of [Decimal]. *)

From stdpp Require Import prelude list list_numbers numbers.
From Stdlib Require Import ZArith Lia ZifyNat Bool.
From S2P Require Import Prelude.

#[local] Coercion Z.of_nat : nat >-> Z.

Fixpoint horner (r : Z) (ds : list Z) : Z :=
  match ds with
  | [] => 0
  | d :: ds => d * r ^ length ds + horner r ds
  end.

(** A digit of the radix [r]. *)
Definition is_digit (r d : Z) : Prop := 0 <= d < r.

(** [ds] is the numeral of [v] without leading zeros; zero has no digits. *)
Record numeral0 (r v : Z) (ds : list Z) : Prop := {
  num_digits : Forall (is_digit r) ds;
  num_value : horner r ds = v;
  num_head : head ds <> Some 0
}.

(** The canonical numeral: zero is written with one digit. *)
Definition numeral (r v : Z) (ds : list Z) : Prop :=
  if v =? 0 then ds = [0] else numeral0 r v ds.

Section Horner.
Context (r : Z) (Hr : 2 <= r).

Lemma pow_len_pos {A} (l : list A) : 0 < r ^ length l.
Proof. apply Z.pow_pos_nonneg; lia. Qed.

Lemma pow_S n : r ^ S n = r * r ^ n.
Proof. rewrite Nat2Z.inj_succ, Z.pow_succ_r by lia. done. Qed.

Lemma pow_plus (m n : nat) : r ^ (m + n)%nat = r ^ m * r ^ n.
Proof. rewrite Nat2Z.inj_add, Z.pow_add_r by lia. done. Qed.

Lemma horner_app a b : horner r (a ++ b) = horner r a * r ^ length b + horner r b.
Proof.
  induction a as [|d a IH]; [done|]. cbn [app horner]. rewrite IH, length_app, pow_plus. lia.
Qed.

Lemma horner_snoc a d : horner r (a ++ [d]) = horner r a * r + d.
Proof. rewrite horner_app. cbn. lia. Qed.

Lemma horner_bound ds : Forall (is_digit r) ds -> 0 <= horner r ds < r ^ length ds.
Proof.
  induction 1 as [|d ds Hd _ IH]; [simpl; lia|]. cbn [horner length]. rewrite pow_S.
  unfold is_digit in Hd. nia.
Qed.

Lemma horner_zeros n : horner r (replicate n 0) = 0.
Proof. induction n; simpl; lia. Qed.

Lemma horner_zero ds : Forall (is_digit r) ds -> horner r ds = 0 -> ds = replicate (length ds) 0.
Proof.
  induction 1 as [|d ds Hd Hds IH]; [done|]. cbn [horner length replicate]. intros H.
  pose proof (horner_bound ds Hds). pose proof (pow_len_pos ds). unfold is_digit in Hd.
  assert (d = 0) as -> by nia. f_equal. apply IH. lia.
Qed.

Lemma horner_inj a b :
  length a = length b -> Forall (is_digit r) a -> Forall (is_digit r) b ->
  horner r a = horner r b -> a = b.
Proof.
  revert b. induction a as [|d a IH]; intros [|e b] Hl Ha Hb; try done.
  inversion_clear Ha as [|?? Hd Ha']; inversion_clear Hb as [|?? He Hb'].
  cbn [horner]. injection Hl as Hl. rewrite Hl. intros H.
  pose proof (horner_bound a Ha') as Ba. pose proof (horner_bound b Hb') as Bb. rewrite Hl in Ba.
  unfold is_digit in *. assert (d = e) as -> by nia. f_equal. apply IH; try done. lia.
Qed.

(** A nonempty numeral without leading zero is at least the power of its
    length. *)
Lemma horner_lower d ds :
  is_digit r d -> d <> 0 -> Forall (is_digit r) ds -> r ^ length ds <= horner r (d :: ds).
Proof.
  intros Hd H0 Hds. pose proof (horner_bound ds Hds). pose proof (pow_len_pos ds).
  unfold is_digit in Hd. cbn [horner]. nia.
Qed.

Lemma numeral0_unique v a b : numeral0 r v a -> numeral0 r v b -> a = b.
Proof.
  assert (forall x y, numeral0 r v x -> numeral0 r v y -> (length x <= length y)%nat) as Hle.
  { intros [|d x] y [Hx Vx Nx] [Hy Vy Ny]; [simpl; lia|].
    inversion_clear Hx as [|?? Hd Hx'].
    pose proof (horner_lower d x Hd ltac:(by intros ->) Hx') as Hlow.
    pose proof (horner_bound y Hy) as Hb. rewrite Vy, <- Vx in Hb. simpl length.
    assert (length x < length y); [|lia].
    apply (Z.pow_lt_mono_r_iff r); lia. }
  intros Ha Hb. apply horner_inj; [|apply Ha|apply Hb|].
  - apply Nat.le_antisymm; by apply Hle.
  - by rewrite (num_value _ _ _ Ha), (num_value _ _ _ Hb).
Qed.

Lemma numeral_unique v a b : numeral r v a -> numeral r v b -> a = b.
Proof. unfold numeral. case_if; [congruence|]. apply numeral0_unique. Qed.

Lemma numeral0_nil : numeral0 r 0 [].
Proof. split; done. Qed.

(** One more digit on the right. *)
Lemma numeral0_snoc v ds d :
  numeral0 r v ds -> is_digit r d -> 0 < v * r + d -> numeral0 r (v * r + d) (ds ++ [d]).
Proof.
  intros [Hds Hv Hh] Hd Hp. split.
  - apply Forall_app. split; [done|]. constructor; done.
  - by rewrite horner_snoc, Hv.
  - destruct ds as [|e ds]; [|done]. simpl in *. intros [= ->]. lia.
Qed.

Lemma numeral0_length v ds : numeral0 r v ds -> forall n : nat, v < r ^ n -> (length ds <= n)%nat.
Proof.
  intros [Hds Hv Hh] n Hn. destruct ds as [|d ds]; [simpl; lia|].
  inversion_clear Hds as [|?? Hd Hds'].
  pose proof (horner_lower d ds Hd ltac:(by intros ->) Hds') as Hlow. simpl length.
  assert (length ds < n); [|lia]. apply (Z.pow_lt_mono_r_iff r); lia.
Qed.

Lemma numeral_digits v ds : numeral r v ds -> Forall (is_digit r) ds.
Proof. unfold numeral. case_if; [intros ->; repeat constructor; lia|by intros []]. Qed.

Lemma numeral_value v ds : numeral r v ds -> horner r ds = v.
Proof. unfold numeral. case_if; [intros ->; simpl; lia|by intros []]. Qed.

Lemma numeral_nonempty v ds : numeral r v ds -> ds <> [].
Proof.
  unfold numeral. case_if; [by intros ->|]. intros [_ Hv _] ->. simpl in Hv. lia.
Qed.

End Horner.

(** ** Prefixes of a list with a property *)

Section Span.
Context {A : Type} (p : A -> bool).

Fixpoint take_while (l : list A) : list A :=
  match l with
  | [] => []
  | x :: l => if p x then x :: take_while l else []
  end.

Fixpoint drop_while (l : list A) : list A :=
  match l with
  | [] => []
  | x :: l' => if p x then drop_while l' else l
  end.

Lemma take_drop_while l : take_while l ++ drop_while l = l.
Proof. induction l as [|x l IH]; simpl; [done|]. destruct (p x); simpl; congruence. Qed.

Lemma take_while_all l : Forall (fun x => p x = true) (take_while l).
Proof. induction l as [|x l IH]; simpl; [done|]. destruct (p x) eqn:E; by constructor. Qed.

Lemma drop_while_head l x : head (drop_while l) = Some x -> p x = false.
Proof.
  induction l as [|y l IH]; simpl; [done|]. destruct (p y) eqn:E; [done|]. by intros [= ->].
Qed.

Lemma take_while_app l k :
  Forall (fun x => p x = true) l -> take_while (l ++ k) = l ++ take_while k.
Proof. induction 1 as [|x l E _ IH]; simpl; [done|]. rewrite E. by f_equal. Qed.

Lemma drop_while_app l k :
  Forall (fun x => p x = true) l -> drop_while (l ++ k) = drop_while k.
Proof. induction 1 as [|x l E _ IH]; simpl; [done|]. by rewrite E. Qed.

Lemma take_while_stop l : (forall x, head l = Some x -> p x = false) -> take_while l = [].
Proof. destruct l as [|x l]; [done|]. intros H. simpl. by rewrite (H x). Qed.

Lemma drop_while_stop l : (forall x, head l = Some x -> p x = false) -> drop_while l = l.
Proof. destruct l as [|x l]; [done|]. intros H. simpl. by rewrite (H x). Qed.

End Span.
