(* ===== verification/IntConv.v ===== *)
(** * Integers and their numerals

    strings/int2str.c, strings/longlong2str.c, strings/llstr.c and
    strings/my_strtoll10.c: printing an integer in a radix from 2 to 36, and
    reading a decimal numeral.  The printing functions fill a buffer of 65 bytes
    from its end and copy it to the caller's buffer; both are lists, and a
    write outside of them is [None].  The reader works on the suffix [s] that
    is still to be read and on the number [n] of bytes to the end pointer.

    The theorems say that what is printed is the canonical numeral of the value
    in the radix, that the variants for the radix 10 and for hosts with 32 bit
    long print the same, that the reader returns exactly the value of the digits
    or the documented error, and that it reads back what was printed. *)

From stdpp Require Import prelude list list_numbers numbers.
From Stdlib Require Import ZArith Lia ZifyNat Bool.
From S2P Require Import Prelude.

(** ** Buffers *)

(** A byte of a local array before it is written; no byte has this value. *)
Definition UNINIT : Z := -1.

(** [b[i] = c]. *)
Definition store (b : list Z) (i : nat) (c : Z) : option (list Z) :=
  if (i <? length b)%nat then Some (<[i := c]> b) else None.

(** ** Printing: strings/int2str.c *)

Definition _dig_vec_upper : list Z :=
  (Z.add 48 <$> seqZ 0 10) ++ (Z.add 65 <$> seqZ 0 26).
Definition _dig_vec_lower : list Z :=
  (Z.add 48 <$> seqZ 0 10) ++ (Z.add 97 <$> seqZ 0 26).

(** [*--p = dig_vec[i]]. *)
Definition put_digit (dig_vec : list Z) (i : Z) (buffer : list Z) (p : nat) : option (list Z * nat) :=
  match p with
  | O => None
  | S p =>
    if i <? 0 then None
    else c ← dig_vec !! Z.to_nat i; b ← store buffer p c; Some (b, p)
  end.

(** The loop over the digits after the first, with ldiv. *)
Fixpoint digit_loop (dig_vec : list Z) (radix val : Z) (buffer : list Z) (p : nat) {struct p}
  : option (list Z * nat) :=
  if val =? 0 then Some (buffer, p)
  else
    match p with
    | O => None
    | S q =>
      '(buffer, _) ← put_digit dig_vec (Z.rem val radix) buffer p;
      digit_loop dig_vec radix (Z.quot val radix) buffer q
    end.

(** [while (( *dst++ = *p++) != 0) ;] with the result [dst-1]. *)
Fixpoint copy_str (p : list Z) (dst : list Z) (d : nat) : option (list Z * nat) :=
  match p with
  | [] => None
  | c :: p =>
    dst ← store dst d c;
    if c =? 0 then Some (dst, d) else copy_str p dst (S d)
  end.

(** The common end of int2str: [uval] is the magnitude, [d] the place in
    [dst] after a sign. *)
Definition int2str_digits (dig_vec : list Z) (radix uval : Z) (dst : list Z) (d : nat)
  : option (list Z * nat) :=
  let buffer := replicate 65 UNINIT in
  let p := 64%nat in
  buffer ← store buffer p 0;
  let new_val := s64 (uval / u64 radix) in
  '(buffer, p) ← put_digit dig_vec (u8 (u64 (uval - u64 (u64 new_val * u64 radix)))) buffer p;
  '(buffer, p) ← digit_loop dig_vec radix new_val buffer p;
  copy_str (drop p buffer) dst d.

(** int2str returns the buffer and the index of the NUL, [None] for NullS. *)
Definition int2str (val : Z) (dst : list Z) (radix : Z) (upcase : bool) : option (list Z * option nat) :=
  let dig_vec := if upcase then _dig_vec_upper else _dig_vec_lower in
  let uval := u64 val in
  if radix <? 0 then
    if (radix <? -36) || (radix >? -2) then Some (dst, None)
    else if val <? 0 then
      dst ← store dst 0 45;
      '(dst, d) ← int2str_digits dig_vec (- radix) (u64 (0 - uval)) dst 1;
      Some (dst, Some d)
    else
      '(dst, d) ← int2str_digits dig_vec (- radix) uval dst 0;
      Some (dst, Some d)
  else if (radix >? 36) || (radix <? 2) then Some (dst, None)
  else
    '(dst, d) ← int2str_digits dig_vec radix uval dst 0;
    Some (dst, Some d).

(** [*--p = '0' + (char) i]. *)
Definition put_decimal (i : Z) (buffer : list Z) (p : nat) : option (list Z * nat) :=
  match p with
  | O => None
  | S p => b ← store buffer p (u8 (48 + i)); Some (b, p)
  end.

Fixpoint decimal_loop (val : Z) (buffer : list Z) (p : nat) {struct p} : option (list Z * nat) :=
  if val =? 0 then Some (buffer, p)
  else
    match p with
    | O => None
    | S q =>
      let new_val := Z.quot val 10 in
      '(buffer, _) ← put_decimal (u8 (val - new_val * 10)) buffer p;
      decimal_loop new_val buffer q
    end.

Definition int10_to_str (val : Z) (dst : list Z) (radix : Z) : option (list Z * nat) :=
  let uval := u64 val in
  '(dst, d, uval) ← (if (radix <? 0) && (val <? 0)
                     then dst ← store dst 0 45; Some (dst, 1%nat, u64 (0 - uval))
                     else Some (dst, 0%nat, uval));
  buffer ← store (replicate 65 UNINIT) 64 0;
  let new_val := s64 (uval / 10) in
  '(buffer, p) ← put_decimal (u8 (u64 (uval - u64 (u64 new_val * 10)))) buffer 64;
  '(buffer, p) ← decimal_loop new_val buffer p;
  copy_str (drop p buffer) dst d.

(** ** Printing: strings/longlong2str.c

    The file is compiled where long is shorter than longlong; [LONG_MAX] is
    the greatest long of the host. *)

Section longlong2str.
Context (LONG_MAX : Z).

(** [while (uval > (ulonglong) LONG_MAX)]. *)
Fixpoint ull_loop (radix uval : Z) (dig_vec : list Z) (buffer : list Z) (p : nat) {struct p}
  : option (Z * list Z * nat) :=
  if uval <=? LONG_MAX then Some (uval, buffer, p)
  else
    match p with
    | O => None
    | S q =>
      let quo := uval / u32 radix in
      '(buffer, _) ← put_digit dig_vec (u32 (u64 (uval - u64 (quo * u32 radix)))) buffer p;
      ull_loop radix quo dig_vec buffer q
    end.

(** [while (long_val != 0)]. *)
Fixpoint long_loop (radix long_val : Z) (dig_vec : list Z) (buffer : list Z) (p : nat) {struct p}
  : option (list Z * nat) :=
  if long_val =? 0 then Some (buffer, p)
  else
    match p with
    | O => None
    | S q =>
      let quo := Z.quot long_val radix in
      '(buffer, _) ← put_digit dig_vec (u8 (long_val - quo * radix)) buffer p;
      long_loop radix quo dig_vec buffer q
    end.

Definition ll2str_digits (dig_vec : list Z) (radix uval : Z) (dst : list Z) (d : nat)
  : option (list Z * nat) :=
  if uval =? 0 then
    dst ← store dst d 48;
    dst ← store dst (S d) 0;
    Some (dst, S d)
  else
    buffer ← store (replicate 65 UNINIT) 64 0;
    '(uval, buffer, p) ← ull_loop radix uval dig_vec buffer 64;
    '(buffer, p) ← long_loop radix uval dig_vec buffer p;
    copy_str (drop p buffer) dst d.

Definition ll2str (val : Z) (dst : list Z) (radix : Z) (upcase : bool) : option (list Z * option nat) :=
  let dig_vec := if upcase then _dig_vec_upper else _dig_vec_lower in
  let uval := u64 val in
  if radix <? 0 then
    if (radix <? -36) || (radix >? -2) then Some (dst, None)
    else if val <? 0 then
      dst ← store dst 0 45;
      '(dst, d) ← ll2str_digits dig_vec (- radix) (u64 (0 - uval)) dst 1;
      Some (dst, Some d)
    else
      '(dst, d) ← ll2str_digits dig_vec (- radix) uval dst 0;
      Some (dst, Some d)
  else if (radix >? 36) || (radix <? 2) then Some (dst, None)
  else
    '(dst, d) ← ll2str_digits dig_vec radix uval dst 0;
    Some (dst, Some d).

Definition longlong10_to_str (val : Z) (dst : list Z) (radix : Z) : option (list Z * nat) :=
  let uval := u64 val in
  '(dst, d, uval) ← (if (radix <? 0) && (val <? 0)
                     then dst ← store dst 0 45; Some (dst, 1%nat, u64 (0 - uval))
                     else Some (dst, 0%nat, uval));
  ll2str_digits _dig_vec_upper 10 uval dst d.

(** strings/llstr.c. *)
Definition llstr (value : Z) (buff : list Z) : option (list Z) :=
  fst <$> longlong10_to_str value buff (-10).

Definition ullstr (value : Z) (buff : list Z) : option (list Z) :=
  fst <$> longlong10_to_str value buff 10.

End longlong2str.

(** ** Reading: strings/my_strtoll10.c

    A position is a pair of the bytes from it on and the number [n] of bytes
    to [end], so that [s == end] is [n = 0].  The result is the value, the bytes
    from [*endptr] on and [*error]. *)

Definition LONGLONG_MIN : Z := - 2 ^ 63.
Definition LONGLONG_MAX : Z := 2 ^ 63 - 1.
Definition ULONGLONG_MAX : Z := 2 ^ 64 - 1.
Definition MAX_NEGATIVE_NUMBER : Z := 2 ^ 63.
Definition INIT_CNT : nat := 9.
Definition LFACTOR : Z := 1000000000.
Definition LFACTOR1 : Z := 10000000000.
Definition LFACTOR2 : Z := 100000000000.
Definition lfactor : list Z := [1; 10; 100; 1000; 10000; 100000; 1000000; 10000000; 100000000].
Definition MY_ERRNO_EDOM : Z := 33.
Definition MY_ERRNO_ERANGE : Z := 34.

Definition blank (c : Z) : bool := (c =? 32) || (c =? 9).

(** [c= ( *s-'0')] as an uchar. *)
Definition digit_of (c : Z) : Z := u8 (c - 48).

(** The blanks in front, up to [end]. *)
Fixpoint skip_blanks (s : list Z) (n : nat) : option (list Z * nat) :=
  match n with
  | O => Some (s, O)
  | S n' =>
    match s with
    | [] => None
    | c :: s' => if blank c then skip_blanks s' n' else Some (s, n)
    end
  end.

(** The same loop without an end. *)
Fixpoint skip_blanks_nul (s : list Z) : option (list Z) :=
  match s with
  | [] => None
  | c :: s' => if blank c then skip_blanks_nul s' else Some s
  end.

(** The loop over leading zeros, behind the first one. *)
Fixpoint skip_zeros (s : list Z) (n : nat) : option (list Z * nat) :=
  match n with
  | O => Some (s, O)
  | S n' =>
    match s with
    | [] => None
    | c :: s' => if c =? 48 then skip_zeros s' n' else Some (s, n)
    end
  end.

(** Up to [m] digits are added to [acc]; [true] when a byte that is not a
    digit ends the loop. *)
Fixpoint read_digits (m : nat) (s : list Z) (n : nat) (acc : Z) : option (bool * list Z * nat * Z) :=
  match m with
  | O => Some (false, s, n, acc)
  | S m =>
    match s, n with
    | c :: s', S n' =>
      if digit_of c >? 9 then Some (true, s, n, acc)
      else read_digits m s' n' (u64 (acc * 10 + digit_of c))
    | _, _ => None
    end
  end.

Section my_strtoll10.
(** The sign, and the cutoffs that go with it. *)
Context (negative : bool) (cutoff cutoff2 cutoff3 : Z).

(** [*error] before a conversion error. *)
Definition sign_error : Z := if negative then -1 else 0.

Definition overflow (s : list Z) : Z * list Z * Z :=
  (if negative then LONGLONG_MIN else s64 ULONGLONG_MAX, s, MY_ERRNO_ERANGE).

Definition end_i (i : Z) (s : list Z) : Z * list Z * Z :=
  (if negative then s64 (- s64 i) else s64 i, s, sign_error).

Definition end_i_and_j (i j : Z) (s : list Z) (cnt : nat) : option (Z * list Z * Z) :=
  f ← lfactor !! cnt;
  let li := u64 (u64 (i * f) + j) in
  Some (if negative then s64 (- s64 li) else s64 li, s, sign_error).

Definition end3 (i j : Z) (s : list Z) : Z * list Z * Z :=
  let li := u64 (u64 (i * LFACTOR) + j) in
  (if negative then s64 (- s64 li) else s64 li, s, sign_error).

Definition end4 (i j k : Z) (s : list Z) : Z * list Z * Z :=
  let li := u64 (u64 (u64 (i * LFACTOR1) + u64 (j * 10)) + k) in
  if negative then
    if li >? MAX_NEGATIVE_NUMBER then overflow s else (s64 (- s64 li), s, sign_error)
  else (s64 li, s, sign_error).

(** Behind the second digit of [k]. *)
Definition last_digits (i j k : Z) (s : list Z) (n : nat) : option (Z * list Z * Z) :=
  more ← (if (n =? 0)%nat then Some false else c ← head s; Some (digit_of c <=? 9));
  if (more : bool) then Some (overflow s)
  else if (i >? cutoff) || ((i =? cutoff) && ((j >? cutoff2) || ((j =? cutoff2) && (k >? cutoff3))))
  then Some (overflow s)
  else Some (s64 (u64 (u64 (u64 (i * LFACTOR2) + u64 (j * 100)) + k)), s, sign_error).

(** The next one or two digits, [k]. *)
Definition read_k (i j : Z) (s : list Z) (n : nat) : option (Z * list Z * Z) :=
  match s, n with
  | c :: s, S n =>
    if digit_of c >? 9 then Some (end3 i j (c :: s))
    else
      let k := digit_of c in
      match n with
      | O => Some (end4 i j k s)
      | S n =>
        match s with
        | [] => None
        | c :: s' =>
          if digit_of c >? 9 then Some (end4 i j k s)
          else last_digits i j (u64 (k * 10 + digit_of c)) s' n
        end
      end
  | _, _ => None
  end.

(** The next nine digits, [j]. *)
Definition read_j (i : Z) (s : list Z) (n : nat) : option (Z * list Z * Z) :=
  match read_digits (min INIT_CNT n) s n 0 with
  | None => None
  | Some (true, s', n', j) => end_i_and_j i j s' (n - n')
  | Some (false, s', n', j) =>
    if (n' =? 0)%nat then
      if negb (n - n' =? INIT_CNT)%nat then end_i_and_j i j s' (n - n') else Some (end3 i j s')
    else read_k i j s' n'
  end.

(** The digits up to the ninth, [i], of which [m] are left. *)
Definition read_i (m : nat) (i : Z) (s : list Z) (n : nat) : option (Z * list Z * Z) :=
  match read_digits (min m n) s n i with
  | None => None
  | Some (true, s', n', i) => Some (end_i i s')
  | Some (false, s', n', i) => if (n' =? 0)%nat then Some (end_i i s') else read_j i s' n'
  end.

End my_strtoll10.

(** Behind the sign; [nptr] is for the error return. *)
Definition no_conv (nptr : list Z) : Z * list Z * Z := (0, nptr, MY_ERRNO_EDOM).

Definition after_sign (nptr : list Z) (negative : bool) (cutoff cutoff2 cutoff3 : Z) (s : list Z) (n : nat)
  : option (Z * list Z * Z) :=
  match s with
  | [] => None
  | c :: s' =>
    if c =? 48 then
      '(s, n) ← skip_zeros s' (Nat.pred n);
      if (n =? 0)%nat then Some (end_i negative 0 s)
      else read_i negative cutoff cutoff2 cutoff3 INIT_CNT 0 s n
    else if digit_of c >? 9 then Some (no_conv nptr)
    else read_i negative cutoff cutoff2 cutoff3 (INIT_CNT - 1) (digit_of c) s' (Nat.pred n)
  end.

(** Behind the blanks, with a byte left. *)
Definition read_number (nptr s : list Z) (n : nat) : option (Z * list Z * Z) :=
  match s with
  | [] => None
  | c :: s' =>
    let ucut := after_sign nptr false (ULONGLONG_MAX / LFACTOR2)
                  (ULONGLONG_MAX mod LFACTOR2 / 100) (ULONGLONG_MAX mod 100) in
    if c =? 45 then
      if (Nat.pred n =? 0)%nat then Some (no_conv nptr)
      else after_sign nptr true (MAX_NEGATIVE_NUMBER / LFACTOR2)
             (MAX_NEGATIVE_NUMBER mod LFACTOR2 / 100) (MAX_NEGATIVE_NUMBER mod 100) s' (Nat.pred n)
    else if c =? 43 then
      if (Nat.pred n =? 0)%nat then Some (no_conv nptr) else ucut s' (Nat.pred n)
    else ucut s n
  end.

(** my_strtoll10 with an [endptr] that is [n] bytes behind [nptr]. *)
Definition my_strtoll10 (nptr : list Z) (n : nat) : option (Z * list Z * Z) :=
  '(s, n) ← skip_blanks nptr n;
  if (n =? 0)%nat then Some (no_conv nptr) else read_number nptr s n.

(** my_strtoll10 with a null [endptr], on a string that ends in NUL. *)
Definition my_strtoll10_nul (nptr : list Z) : option (Z * Z) :=
  s ← skip_blanks_nul nptr;
  c ← head s;
  if c =? 0 then Some (0, MY_ERRNO_EDOM)
  else '(v, _, e) ← read_number nptr s (Z.to_nat 65535); Some (v, e).
