(* ===== verification/IntPrint.v ===== *)
(** * Printing integers: proofs

    The functions of [IntConv] that print write the canonical numeral of the
    value, with its sign and the final NUL, and leave the rest of the buffer. *)

From stdpp Require Import prelude list list_numbers numbers.
From Stdlib Require Import ZArith Lia ZifyNat Bool.
From S2P Require Import Prelude Horner IntConv.

#[local] Coercion Z.of_nat : nat >-> Z.

(** The character of a digit. *)
Definition dig_char (upcase : bool) (d : Z) : Z :=
  if d <? 10 then 48 + d else (if upcase then 55 else 87) + d.

(** The text of the integer [v] in the radix [r]: its sign and its digits. *)
Definition printed (upcase : bool) (v : Z) (ds : list Z) : list Z :=
  (if v <? 0 then [45] else []) ++ map (dig_char upcase) ds.

(** The value that is printed: signed if the radix is negative. *)
Definition printed_value (val radix : Z) : Z := if radix <? 0 then val else u64 val.

(** [dst] with the text [out] and a NUL written at its start. *)
Definition write_str (out dst : list Z) : list Z := out ++ 0 :: drop (S (length out)) dst.

(** ** Buffers *)

Lemma store_ok b i c : (i < length b)%nat -> store b i c = Some (<[i := c]> b).
Proof. intros H. unfold store. by rewrite (proj2 (Nat.ltb_lt _ _) H). Qed.

Lemma store_front b p c :
  (p < length b)%nat ->
  exists b', store b p c = Some b' /\ length b' = length b /\ drop p b' = c :: drop (S p) b.
Proof.
  intros H. exists (<[p := c]> b). split_and!; [by apply store_ok|by rewrite length_insert|].
  rewrite (drop_S _ c) by (by apply list_lookup_insert_eq).
  by rewrite drop_insert_lt by lia.
Qed.

Lemma copy_str_ok w junk dst d :
  Forall (fun c => c <> 0) w -> (d + length w < length dst)%nat ->
  copy_str (w ++ 0 :: junk) dst d
  = Some (take d dst ++ w ++ 0 :: drop (S (d + length w)) dst, (d + length w)%nat).
Proof.
  intros Hw. revert dst d. induction Hw as [|c w Hc _ IH]; intros dst d Hl; simpl in *.
  - rewrite store_ok by lia. obind. rewrite Nat.add_0_r. do 2 f_equal.
    by rewrite insert_take_drop by lia.
  - rewrite store_ok by lia. obind. rewrite (proj2 (Z.eqb_neq c 0) Hc).
    rewrite IH by solve_len. rewrite <- Nat.add_succ_comm. do 2 f_equal.
    rewrite drop_insert_lt by lia. rewrite insert_take_drop by lia.
    rewrite firstn_app, length_take, Nat.min_l by lia.
    rewrite take_ge by (rewrite length_take; lia).
    replace (S d - d)%nat with 1%nat by lia. simpl. rewrite take_0, <- app_assoc. done.
Qed.

(** ** Digits *)

Lemma dig_vec_lookup (upcase : bool) i :
  0 <= i < 36 ->
  (if upcase then _dig_vec_upper else _dig_vec_lower) !! Z.to_nat i = Some (dig_char upcase i).
Proof.
  intros H. destruct (Z_of_nat_complete i) as [n ->]; [lia|]. rewrite Nat2Z.id.
  assert (n < 36)%nat as Hn by lia. clear H.
  do 36 (destruct n as [|n]; [by destruct upcase|]). lia.
Qed.

Lemma dig_char_nonzero upcase d : 0 <= d -> dig_char upcase d <> 0.
Proof. unfold dig_char. case_if; destruct upcase; lia. Qed.

Lemma map_dig_nonzero upcase r ds :
  Forall (is_digit r) ds -> Forall (fun c => c <> 0) (map (dig_char upcase) ds).
Proof.
  induction 1 as [|d ds Hd _ IH]; constructor; [|done]. apply dig_char_nonzero. apply Hd.
Qed.

Lemma put_digit_ok (upcase : bool) i b p :
  0 <= i < 36 -> (p < length b)%nat ->
  exists b', put_digit (if upcase then _dig_vec_upper else _dig_vec_lower) i b (S p) = Some (b', p) /\
    length b' = length b /\ drop p b' = dig_char upcase i :: drop (S p) b.
Proof.
  intros Hi Hp. unfold put_digit. rewrite (proj2 (Z.ltb_ge i 0)) by lia.
  rewrite dig_vec_lookup by done. obind.
  destruct (store_front b p (dig_char upcase i) Hp) as (b' & -> & ? & ?). by exists b'.
Qed.

Lemma rem_digit v r : 0 <= v -> 2 <= r -> is_digit r (v mod r) /\ v = v / r * r + v mod r /\ 0 <= v / r.
Proof.
  intros Hv Hr. pose proof (Z.mod_pos_bound v r ltac:(lia)). pose proof (Z.div_mod v r ltac:(lia)).
  pose proof (Z.div_pos v r Hv ltac:(lia)). unfold is_digit. lia.
Qed.

(** What the loops that fill the buffer do: the numeral of [v] is in front of
    what was there. *)
Definition fills (upcase : bool) (r v : Z) (b : list Z) (p : nat) (res : option (list Z * nat)) : Prop :=
  exists b' p' ds, res = Some (b', p') /\ numeral0 r v ds /\ length b' = length b /\
    drop p' b' = map (dig_char upcase) ds ++ drop p b.

Lemma digit_loop_ok (upcase : bool) r :
  2 <= r <= 36 -> forall (p : nat) v b, 0 <= v < r ^ p -> (p <= length b)%nat ->
  fills upcase r v b p (digit_loop (if upcase then _dig_vec_upper else _dig_vec_lower) r v b p).
Proof.
  intros Hr p. induction p as [|p IH]; intros v b Hv Hp.
  - assert (v = 0) as -> by (simpl in Hv; lia). exists b, 0%nat, []. by split_and!.
  - cbn [digit_loop]. case_if.
    { subst v. exists b, (S p), []. by split_and!. }
    rewrite pow_S in Hv by lia.
    rewrite Z.rem_mod_nonneg, Z.quot_div_nonneg by lia.
    destruct (rem_digit v r ltac:(lia) ltac:(lia)) as (Hd & He & Hq).
    destruct (put_digit_ok upcase (v mod r) b p) as (b1 & -> & Hl1 & Hb1);
      [unfold is_digit in Hd; lia|lia|]. obind.
    destruct (IH (v / r) b1) as (b2 & p2 & ds & -> & Hn & Hl2 & Hb2);
      [split; [done|]; apply Z.div_lt_upper_bound; lia|lia|].
    exists b2, p2, (ds ++ [v mod r]). split_and!; [done| |congruence|].
    + rewrite He at 1. apply numeral0_snoc; [done|done|lia].
    + by rewrite Hb2, Hb1, map_app, <- app_assoc.
Qed.

(** The copy at the end of the printing functions. *)
Lemma copy_digits upcase r ds b p dst d :
  Forall (is_digit r) ds -> drop p b = map (dig_char upcase) ds ++ [0] ->
  (d + length ds < length dst)%nat ->
  copy_str (drop p b) dst d
  = Some (take d dst ++ map (dig_char upcase) ds ++ 0 :: drop (S (d + length ds)) dst, (d + length ds)%nat).
Proof.
  intros Hds -> Hl. rewrite copy_str_ok; rewrite ?length_map; [done|by eapply map_dig_nonzero|done].
Qed.

Lemma pow63 r : 2 <= r -> 2 ^ 63 <= r ^ 63.
Proof. intros. apply Z.pow_le_mono_l. lia. Qed.

Lemma buffer_ready : store (replicate 65 UNINIT) 64 0 = Some (replicate 64 UNINIT ++ [0]).
Proof. done. Qed.

(** What the whole conversion of a magnitude does. *)
Definition prints (upcase : bool) (r v : Z) (dst : list Z) (d : nat) (res : option (list Z * nat)) : Prop :=
  exists ds, numeral r v ds /\ (length ds <= 64)%nat /\
    ((d + length ds < length dst)%nat ->
     res = Some (take d dst ++ map (dig_char upcase) ds ++ 0 :: drop (S (d + length ds)) dst,
                 (d + length ds)%nat)).

Lemma prints_unique upcase r v dst d a b :
  2 <= r -> (d + 64 < length dst)%nat -> prints upcase r v dst d a -> prints upcase r v dst d b -> a = b.
Proof.
  intros Hr Hl (ds & Hn & H64 & Ha) (es & Hm & _ & Hb).
  pose proof (numeral_unique r Hr v ds es Hn Hm) as <-. by rewrite Ha, Hb by lia.
Qed.

Lemma int2str_digits_ok (upcase : bool) r v dst d :
  2 <= r <= 36 -> 0 <= v < 2 ^ 64 ->
  prints upcase r v dst d (int2str_digits (if upcase then _dig_vec_upper else _dig_vec_lower) r v dst d).
Proof.
  intros Hr Hv. unfold int2str_digits. cbv zeta. rewrite buffer_ready. obind.
  destruct (rem_digit v r ltac:(lia) ltac:(lia)) as (Hd & He & Hq).
  assert (v / r < 2 ^ 63) as Hq63 by (apply Z.div_lt_upper_bound; lia).
  rewrite (u64_small r), (s64_small (v / r)), (u64_small (v / r)), (u64_small (v / r * r)) by lia.
  replace (v - v / r * r) with (v mod r) by lia. unfold is_digit in Hd. nowrap.
  destruct (put_digit_ok upcase (v mod r) (replicate 64 UNINIT ++ [0]) 63) as (b1 & -> & Hl1 & Hb1);
    [lia|simpl; lia|]. obind.
  destruct (digit_loop_ok upcase r Hr 63 (v / r) b1) as (b2 & p2 & ds & -> & Hn & Hl2 & Hb2).
  { split; [done|]. eapply Z.lt_le_trans; [exact Hq63|]. apply pow63. lia. }
  { rewrite Hl1. simpl. lia. }
  obind. rewrite Hb1 in Hb2. change (drop 64 _) with [0] in Hb2.
  assert (length ds <= 63)%nat as Hlen.
  { eapply (numeral0_length r); [lia|exact Hn|]. eapply Z.lt_le_trans; [exact Hq63|]. apply pow63. lia. }
  assert (Forall (is_digit r) (ds ++ [v mod r])) as Hds.
  { apply Forall_app. split; [apply Hn|]. constructor; done. }
  exists (ds ++ [v mod r]). rewrite length_app. simpl. split_and!; [|lia|].
  - unfold numeral. case_if.
    + subst v. rewrite Z.mod_0_l by lia. rewrite Z.div_0_l in Hn by lia.
      by rewrite (numeral0_unique r ltac:(lia) 0 ds []).
    + rewrite He at 1. apply numeral0_snoc; [done|done|lia].
  - intros Hl. erewrite copy_digits; [|exact Hds| |rewrite length_app; simpl; lia].
    + by rewrite length_app.
    + by rewrite Hb2, map_app, <- app_assoc.
Qed.

(** The text in the caller's buffer, behind a sign or not. *)
Definition prints_value (upcase : bool) (r v : Z) (dst : list Z) (res : option (list Z * nat)) : Prop :=
  exists ds, numeral r (Z.abs v) ds /\ (length (printed upcase v ds) <= 65)%nat /\
    ((length (printed upcase v ds) < length dst)%nat ->
     res = Some (write_str (printed upcase v ds) dst, length (printed upcase v ds))).

Lemma prints_positive upcase r v dst res :
  0 <= v -> prints upcase r v dst 0 res -> prints_value upcase r v dst res.
Proof.
  intros Hv (ds & Hn & Hl & He). exists ds. unfold printed, write_str.
  rewrite (proj2 (Z.ltb_ge v 0)), Z.abs_eq by lia. cbn [app]. rewrite length_map.
  split_and!; [done|lia|]. intros Hd. by rewrite He by lia.
Qed.

Lemma prints_negative upcase r v dst (f : list Z -> nat -> option (list Z * nat)) :
  v < 0 -> (forall dst, prints upcase r (- v) dst 1 (f dst 1%nat)) ->
  prints_value upcase r v dst (dst ← store dst 0 45; f dst 1%nat).
Proof.
  intros Hv Hf. destruct (Hf (<[0%nat := 45]> dst)) as (ds & Hn & Hl & He). exists ds.
  unfold printed, write_str. rewrite (proj2 (Z.ltb_lt v 0)) by done.
  replace (Z.abs v) with (- v) by lia. cbn [app length]. rewrite length_map.
  split_and!; [done|lia|]. intros Hd. rewrite store_ok by lia. obind.
  rewrite He by (rewrite length_insert; lia). rewrite drop_insert_lt by lia.
  destruct dst; [simpl in Hd; lia|]. done.
Qed.

Lemma u64_magnitude val : - 2 ^ 63 <= val < 0 -> u64 (0 - u64 val) = - val.
Proof.
  intros H. unfold u64. rewrite Zminus_mod_idemp_r. replace (0 - val) with (- val) by lia.
  by rewrite Z.mod_small by lia.
Qed.

(** The two branches on the sign, for any routine that prints a magnitude. *)
Lemma signed_print upcase r val dst (f : Z -> list Z -> nat -> option (list Z * nat)) :
  - 2 ^ 63 <= val < 2 ^ 63 ->
  (forall v dst d, 0 <= v < 2 ^ 64 -> prints upcase r v dst d (f v dst d)) ->
  prints_value upcase r val dst
    (if val <? 0 then dst ← store dst 0 45; f (u64 (0 - u64 val)) dst 1%nat else f (u64 val) dst 0%nat).
Proof.
  intros Hv Hf. case_if.
  - rewrite u64_magnitude by lia. apply (prints_negative _ _ _ _ (f (- val))); [done|].
    intros. apply Hf. lia.
  - nowrap. apply prints_positive; [done|]. apply Hf. lia.
Qed.

(** What the functions with a radix return. *)
Definition prints_radix (upcase : bool) (val radix : Z) (dst : list Z) (res : option (list Z * option nat)) : Prop :=
  if (2 <=? Z.abs radix) && (Z.abs radix <=? 36) then
    exists res', res = ('(dst, d) ← res'; Some (dst, Some d)) /\
      prints_value upcase (Z.abs radix) (printed_value val radix) dst res'
  else res = Some (dst, None).

Lemma radix_print upcase val radix dst (f : Z -> Z -> list Z -> nat -> option (list Z * nat)) :
  - 2 ^ 63 <= val < 2 ^ 63 ->
  (forall r v dst d, 2 <= r <= 36 -> 0 <= v < 2 ^ 64 -> prints upcase r v dst d (f r v dst d)) ->
  prints_radix upcase val radix dst
    (if radix <? 0 then
       if (radix <? -36) || (radix >? -2) then Some (dst, None)
       else if val <? 0 then
         dst ← store dst 0 45;
         '(dst, d) ← f (- radix) (u64 (0 - u64 val)) dst 1%nat;
         Some (dst, Some d)
       else
         '(dst, d) ← f (- radix) (u64 val) dst 0%nat;
         Some (dst, Some d)
     else if (radix >? 36) || (radix <? 2) then Some (dst, None)
     else
       '(dst, d) ← f radix (u64 val) dst 0%nat;
       Some (dst, Some d)).
Proof.
  intros Hv Hf. unfold prints_radix, printed_value. rewrite !Z.gtb_ltb.
  destruct (Z.ltb_spec radix 0).
  - replace (Z.abs radix) with (- radix) by lia.
    replace ((radix <? -36) || (-2 <? radix)) with (negb ((2 <=? - radix) && (- radix <=? 36))) by bsolve.
    destruct ((2 <=? - radix) && (- radix <=? 36)) eqn:E; [|done]. b2p. cbn [negb].
    pose proof (signed_print upcase (- radix) val dst (f (- radix)) Hv
                  ltac:(intros; apply Hf; lia)) as Hp.
    destruct (val <? 0); [|eauto]. eexists. split; [|exact Hp]. by destruct (store dst 0 45).
  - replace (Z.abs radix) with radix by lia.
    replace ((36 <? radix) || (radix <? 2)) with (negb ((2 <=? radix) && (radix <=? 36))) by bsolve.
    destruct ((2 <=? radix) && (radix <=? 36)) eqn:E; [|done]. b2p. cbn [negb].
    eexists. split; [done|]. apply prints_positive; [apply u64_range|]. apply Hf; [lia|apply u64_range].
Qed.

Lemma int2str_ok val dst radix upcase :
  - 2 ^ 63 <= val < 2 ^ 63 -> prints_radix upcase val radix dst (int2str val dst radix upcase).
Proof.
  intros Hv. apply (radix_print upcase val radix dst
    (int2str_digits (if upcase then _dig_vec_upper else _dig_vec_lower)) Hv).
  intros. by apply int2str_digits_ok.
Qed.

(** ** The variants *)

Lemma put_decimal_eq i b p : 0 <= i < 10 -> put_decimal i b p = put_digit _dig_vec_upper i b p.
Proof.
  intros Hi. destruct p as [|p]; [done|]. unfold put_decimal, put_digit. rewrite (proj2 (Z.ltb_ge i 0)) by lia.
  pose proof (dig_vec_lookup true i ltac:(lia)) as ->. obind. unfold dig_char.
  rewrite (proj2 (Z.ltb_lt i 10)) by lia. by nowrap.
Qed.

Lemma rem_expr v r : 0 <= v -> 0 < r -> v - Z.quot v r * r = Z.rem v r.
Proof. intros. pose proof (Z.quot_rem' v r). lia. Qed.

Lemma decimal_loop_eq p : forall v b, 0 <= v -> decimal_loop v b p = digit_loop _dig_vec_upper 10 v b p.
Proof.
  induction p as [|p IH]; intros v b Hv; [done|]. cbn [decimal_loop digit_loop]. case_if; [done|].
  cbv zeta. rewrite rem_expr by lia. pose proof (Z.rem_bound_pos v 10 Hv ltac:(lia)).
  nowrap. rewrite put_decimal_eq by lia.
  destruct (put_digit _dig_vec_upper (Z.rem v 10) b (S p)) as [[b' ?]|]; [|done]. obind.
  apply IH. apply Z.quot_pos; lia.
Qed.

Lemma long_loop_eq r dv p : 0 < r < 256 ->
  forall v b, 0 <= v -> long_loop r v dv b p = digit_loop dv r v b p.
Proof.
  intros Hr. induction p as [|p IH]; intros v b Hv; [done|]. cbn [long_loop digit_loop]. case_if; [done|].
  cbv zeta. rewrite rem_expr by lia. pose proof (Z.rem_bound_pos v r Hv ltac:(lia)). nowrap.
  destruct (put_digit dv (Z.rem v r) b (S p)) as [[b' ?]|]; [|done]. obind.
  apply IH. apply Z.quot_pos; lia.
Qed.

Lemma ull_long_ok LONG_MAX (upcase : bool) r :
  0 <= LONG_MAX -> 2 <= r <= 36 ->
  forall (p : nat) v b, 0 <= v < r ^ p -> v < 2 ^ 64 -> (p <= length b)%nat ->
  let dv := if upcase then _dig_vec_upper else _dig_vec_lower in
  fills upcase r v b p
    ('(uval, b, p) ← ull_loop LONG_MAX r v dv b p; long_loop r uval dv b p).
Proof.
  intros HL Hr p. induction p as [|p IH]; intros v b Hv H64 Hp dv; subst dv; cbn [ull_loop].
  - assert (v = 0) as -> by (simpl in Hv; lia). rewrite (proj2 (Z.leb_le 0 LONG_MAX)) by done.
    obind. rewrite long_loop_eq by lia. by apply digit_loop_ok.
  - destruct (Z.leb_spec v LONG_MAX); [obind; rewrite long_loop_eq by lia; by apply digit_loop_ok|].
    rewrite pow_S in Hv by lia. rewrite (u32_small r) by lia. cbv zeta.
    destruct (rem_digit v r ltac:(lia) ltac:(lia)) as (Hd & He & Hq). unfold is_digit in Hd.
    rewrite (u64_small (v / r * r)) by lia. replace (v - v / r * r) with (v mod r) by lia. nowrap.
    destruct (put_digit_ok upcase (v mod r) b p) as (b1 & -> & Hl1 & Hb1); [lia|lia|]. obind.
    destruct (IH (v / r) b1) as (b2 & p2 & ds & Hres & Hn & Hl2 & Hb2);
      [split; [done|]; apply Z.div_lt_upper_bound; lia|nia|lia|].
    exists b2, p2, (ds ++ [v mod r]). split_and!; [done| |congruence|].
    + rewrite He at 1. apply numeral0_snoc; [done|done|lia].
    + by rewrite Hb2, Hb1, map_app, <- app_assoc.
Qed.

Lemma pow64 r : 2 <= r -> 2 ^ 64 <= r ^ 64.
Proof. intros. apply Z.pow_le_mono_l. lia. Qed.

Lemma ll2str_digits_ok LONG_MAX (upcase : bool) r v dst d :
  0 <= LONG_MAX -> 2 <= r <= 36 -> 0 <= v < 2 ^ 64 ->
  prints upcase r v dst d
    (ll2str_digits LONG_MAX (if upcase then _dig_vec_upper else _dig_vec_lower) r v dst d).
Proof.
  intros HL Hr Hv. unfold ll2str_digits. destruct (Z.eqb_spec v 0).
  - subst v. exists [0]. split_and!; [done|simpl; lia|]. simpl. intros Hl.
    rewrite !store_ok by (rewrite ?length_insert; lia). obind.
    rewrite store_ok by (rewrite ?length_insert; lia). obind. rewrite Nat.add_1_r. do 2 f_equal.
    rewrite insert_take_drop, drop_insert_lt, (take_S_r _ _ 48), take_insert_ge
      by (rewrite ?length_insert; lia || by apply list_lookup_insert_eq; lia).
    by destruct upcase; rewrite <- app_assoc.
  - rewrite buffer_ready. obind.
    destruct (ull_long_ok LONG_MAX upcase r HL Hr 64 v (replicate 64 UNINIT ++ [0]))
      as (b & p & ds & Hres & Hn & Hl & Hb).
    { split; [lia|]. eapply Z.lt_le_trans; [apply Hv|]. apply pow64. lia. }
    { lia. } { simpl. lia. }
    destruct (ull_loop LONG_MAX r v _ _ 64) as [[[uval b1] p1]|]; [|done]. obind.
    cbn in Hres. rewrite Hres. obind. exists ds. split_and!.
    + unfold numeral. by rewrite (proj2 (Z.eqb_neq v 0)).
    + eapply (numeral0_length r); [lia|exact Hn|].
      eapply Z.lt_le_trans; [apply Hv|]. apply pow64. lia.
    + intros Hd. rewrite copy_digits with (upcase := upcase) (r := r) (ds := ds); [done|apply Hn| |done].
      by rewrite Hb.
Qed.

Lemma ll2str_ok LONG_MAX val dst radix upcase :
  0 <= LONG_MAX -> - 2 ^ 63 <= val < 2 ^ 63 ->
  prints_radix upcase val radix dst (ll2str LONG_MAX val dst radix upcase).
Proof.
  intros HL Hv. apply (radix_print upcase val radix dst
    (ll2str_digits LONG_MAX (if upcase then _dig_vec_upper else _dig_vec_lower)) Hv).
  intros. by apply ll2str_digits_ok.
Qed.

(** A routine for the radix 10, given the sign of the radix. *)
Lemma decimal_print val radix dst (f : Z -> list Z -> nat -> option (list Z * nat)) :
  - 2 ^ 63 <= val < 2 ^ 63 ->
  (forall v dst d, 0 <= v < 2 ^ 64 -> prints true 10 v dst d (f v dst d)) ->
  prints_value true 10 (printed_value val radix) dst
    ('(dst, d, uval) ← (if (radix <? 0) && (val <? 0)
                        then dst ← store dst 0 45; Some (dst, 1%nat, u64 (0 - u64 val))
                        else Some (dst, 0%nat, u64 val));
     f uval dst d).
Proof.
  intros Hv Hf. unfold printed_value. destruct (radix <? 0); cbn [andb].
  - pose proof (signed_print true 10 val dst f Hv Hf) as Hp. destruct (val <? 0); [|done].
    by destruct (store dst 0 45).
  - obind. apply prints_positive; [apply u64_range|]. apply Hf, u64_range.
Qed.

Lemma int10_digits_ok v dst d :
  0 <= v < 2 ^ 64 ->
  prints true 10 v dst d
    (buffer ← store (replicate 65 UNINIT) 64 0;
     let new_val := s64 (v / 10) in
     '(buffer, p) ← put_decimal (u8 (u64 (v - u64 (u64 new_val * 10)))) buffer 64;
     '(buffer, p) ← decimal_loop new_val buffer p;
     copy_str (drop p buffer) dst d).
Proof.
  intros Hv. pose proof (int2str_digits_ok true 10 v dst d ltac:(lia) Hv) as H.
  unfold int2str_digits in H. cbv zeta in *. rewrite buffer_ready in *. revert H. obind.
  change (u64 10) with 10. destruct (rem_digit v 10 ltac:(lia) ltac:(lia)) as (Hd & He & Hq).
  unfold is_digit in Hd. rewrite (s64_small (v / 10)), (u64_small (v / 10)), (u64_small (v / 10 * 10)) by zdiv.
  replace (v - v / 10 * 10) with (v mod 10) by lia. nowrap. rewrite put_decimal_eq by lia.
  destruct (put_digit _ (v mod 10) _ 64) as [[b p]|]; [|done]. obind.
  by rewrite decimal_loop_eq.
Qed.

Lemma int10_to_str_ok val dst radix :
  - 2 ^ 63 <= val < 2 ^ 63 ->
  prints_value true 10 (printed_value val radix) dst (int10_to_str val dst radix).
Proof.
  intros Hv. pose proof (decimal_print val radix dst _ Hv int10_digits_ok) as H.
  unfold int10_to_str. by destruct (radix <? 0), (val <? 0), (store dst 0 45).
Qed.

Lemma longlong10_to_str_ok LONG_MAX val dst radix :
  0 <= LONG_MAX -> - 2 ^ 63 <= val < 2 ^ 63 ->
  prints_value true 10 (printed_value val radix) dst (longlong10_to_str LONG_MAX val dst radix).
Proof.
  intros HL Hv. apply (decimal_print val radix dst (ll2str_digits LONG_MAX _dig_vec_upper 10) Hv).
  intros. apply (ll2str_digits_ok LONG_MAX true); [done|lia|done].
Qed.

(** int2str leaves the buffer and returns NullS for a radix outside of 2
    to 36 and -2 to -36.  Otherwise it writes the sign and the digits of the
    canonical numeral of the value in the radix, and a NUL, to a buffer that has
    room for them, leaves the rest of it, and returns the place of the NUL; the
    value is signed exactly if the radix is, and the text has at most 65
    characters. *)
Theorem int2str_correct val dst radix upcase :
  - 2 ^ 63 <= val < 2 ^ 63 ->
  (~ 2 <= Z.abs radix <= 36 -> int2str val dst radix upcase = Some (dst, None)) /\
  (2 <= Z.abs radix <= 36 ->
   exists ds, let v := printed_value val radix in let out := printed upcase v ds in
     numeral (Z.abs radix) (Z.abs v) ds /\ (length out <= 65)%nat /\
     ((length out < length dst)%nat ->
      int2str val dst radix upcase = Some (write_str out dst, Some (length out)))).
Proof.
  intros Hv. pose proof (int2str_ok val dst radix upcase Hv) as H. unfold prints_radix in H. split; intros Hr.
  - by replace ((2 <=? Z.abs radix) && (Z.abs radix <=? 36)) with false in H by bsolve.
  - replace ((2 <=? Z.abs radix) && (Z.abs radix <=? 36)) with true in H by bsolve.
    destruct H as (res & He & ds & Hn & Hl & Hres). exists ds. split_and!; [done..|].
    intros Hd. by rewrite He, Hres.
Qed.

Lemma int2str_correct_witness :
  exists ds, int2str (-255) (replicate 8 7) (-16) true = Some ([45; 70; 70; 0; 7; 7; 7; 7], Some 3%nat) /\
    numeral 16 255 ds.
Proof.
  destruct (int2str_correct (-255) (replicate 8 7) (-16) true) as [_ H]; [lia|].
  destruct H as (ds & Hn & _ & _); [lia|]. exists ds. split; [reflexivity|exact Hn].
Defined.

Lemma prints_value_unique upcase r v dst a b :
  2 <= r -> (65 < length dst)%nat ->
  prints_value upcase r v dst a -> prints_value upcase r v dst b -> a = b.
Proof.
  intros Hr Hl (ds & Hn & H64 & Ha) (es & Hm & _ & Hb).
  pose proof (numeral_unique r Hr _ ds es Hn Hm) as <-. by rewrite Ha, Hb by lia.
Qed.

(** The routines that are made for special cases agree with int2str: on
    any host ll2str, and for the radix 10 and -10 int10_to_str and
    longlong10_to_str, which look only at the sign of their radix. *)
Theorem int2str_variants LONG_MAX val dst radix upcase :
  0 <= LONG_MAX -> - 2 ^ 63 <= val < 2 ^ 63 -> (65 < length dst)%nat ->
  let int2str10 := int2str val dst (if radix <? 0 then -10 else 10) true in
  ll2str LONG_MAX val dst radix upcase = int2str val dst radix upcase /\
  ('(dst, d) ← int10_to_str val dst radix; Some (dst, Some d)) = int2str10 /\
  ('(dst, d) ← longlong10_to_str LONG_MAX val dst radix; Some (dst, Some d)) = int2str10.
Proof.
  intros HL Hv Hd. cbv zeta.
  pose proof (ll2str_ok LONG_MAX val dst radix upcase HL Hv) as H1.
  pose proof (int2str_ok val dst radix upcase Hv) as H2. unfold prints_radix in H1, H2.
  assert (exists r, int2str val dst (if radix <? 0 then -10 else 10) true
                    = ('(dst, d) ← r; Some (dst, Some d)) /\
                    prints_value true 10 (printed_value val radix) dst r) as (r & -> & Hr).
  { pose proof (int2str_ok val dst (if radix <? 0 then -10 else 10) true Hv) as H.
    unfold prints_radix, printed_value in *. by destruct (radix <? 0). }
  split_and!.
  - destruct (_ && _) eqn:E; [|congruence]. b2p. destruct H1 as (r1 & -> & P1), H2 as (r2 & -> & P2).
    by rewrite (prints_value_unique upcase (Z.abs radix) (printed_value val radix) dst r1 r2 ltac:(lia) Hd P1 P2).
  - pose proof (int10_to_str_ok val dst radix Hv) as P.
    by rewrite (prints_value_unique true 10 (printed_value val radix) dst _ r ltac:(lia) Hd P Hr).
  - pose proof (longlong10_to_str_ok LONG_MAX val dst radix HL Hv) as P.
    by rewrite (prints_value_unique true 10 (printed_value val radix) dst _ r ltac:(lia) Hd P Hr).
Qed.

Lemma int2str_variants_witness :
  ll2str (2 ^ 31 - 1) (-12) (replicate 66 0) (-2) false = int2str (-12) (replicate 66 0) (-2) false.
Proof. apply (int2str_variants (2 ^ 31 - 1) (-12) (replicate 66 0) (-2) false); [lia|lia|simpl; lia]. Defined.
