(* ===== verification/IntRead.v ===== *)
(** * Reading integers: proofs

    my_strtoll10 of [IntConv] is compared with [strtoll10_doc], which reads all
    digits and then looks at the value; and it reads what the functions that
    print write. *)

From stdpp Require Import prelude list list_numbers numbers.
From Stdlib Require Import ZArith Lia ZifyNat Bool.
From S2P Require Import Prelude Horner IntConv IntPrint.

#[local] Coercion Z.of_nat : nat >-> Z.

Definition is_byte (c : Z) : Prop := 0 <= c < 256.

Definition isdig (c : Z) : bool := (48 <=? c) && (c <=? 57).

(** The result for the sign and the value of the digits. *)
Definition outcome (negative : bool) (v : Z) (stop : list Z) : Z * list Z * Z :=
  if negative then
    if v <=? 2 ^ 63 then (- v, stop, -1) else (LONGLONG_MIN, stop, MY_ERRNO_ERANGE)
  else if v <? 2 ^ 64 then (s64 v, stop, 0) else (-1, stop, MY_ERRNO_ERANGE).

(** Blanks, a sign, digits; [unread] are the digits in front of which the stop
    pointer is left. *)
Section reference.
Context (unread : list Z -> list Z).

Definition number_ref (nptr : list Z) (negative : bool) (cs rest : list Z) : Z * list Z * Z :=
  match cs with
  | [] => (0, nptr, MY_ERRNO_EDOM)
  | _ => outcome negative (horner 10 (map (fun c => c - 48) cs)) (unread cs ++ rest)
  end.

Definition digits_ref (nptr : list Z) (negative : bool) (s : list Z) : Z * list Z * Z :=
  number_ref nptr negative (take_while isdig s) (drop_while isdig s).

Definition signed_ref (nptr s : list Z) : Z * list Z * Z :=
  match s with
  | [] => (0, nptr, MY_ERRNO_EDOM)
  | c :: s' =>
    if c =? 45 then digits_ref nptr true s'
    else if c =? 43 then digits_ref nptr false s'
    else digits_ref nptr false s
  end.

Definition strtoll10_with (nptr : list Z) : Z * list Z * Z := signed_ref nptr (drop_while blank nptr).
End reference.

(** What the comment of my_strtoll10 says: all digits are read, and the stop
    pointer is at the first character that is no digit. *)
Definition strtoll10_doc : list Z -> Z * list Z * Z := strtoll10_with (fun _ => []).

(** What the code does: at most twenty digits behind the leading zeros are
    read. *)
Definition past_twenty (cs : list Z) : list Z := drop 20 (drop_while (Z.eqb 48) cs).
Definition strtoll10_ref : list Z -> Z * list Z * Z := strtoll10_with past_twenty.

(** The digits of the number. *)
Definition digits_in (nptr : list Z) : list Z :=
  match drop_while blank nptr with
  | [] => []
  | c :: s => take_while isdig (if (c =? 45) || (c =? 43) then s else c :: s)
  end.

(** The stop pointer when bytes [t] follow the string. *)
Definition followed_by (t : list Z) (r : Z * list Z * Z) : Z * list Z * Z :=
  let '(v, stop, e) := r in (v, stop ++ t, e).

(** ** Digits *)

Abbreviation chars := (map (Z.add 48)).

Lemma digit_of_char d : is_digit 10 d -> digit_of (48 + d) = d.
Proof. intros H. unfold is_digit in H. unfold digit_of. replace (48 + d - 48) with d by lia. by nowrap. Qed.

Lemma digit_of_other c : is_byte c -> isdig c = false -> (digit_of c >? 9) = true.
Proof.
  unfold is_byte, isdig, digit_of, u8. intros Hc Hd. rewrite Z.gtb_ltb. apply Z.ltb_lt.
  apply andb_false_iff in Hd. destruct Hd; b2p; zdiv.
Qed.

(** The [k] bytes up to [end] begin with a byte that is not a digit. *)
Definition stops (rest : list Z) (k : nat) : Prop :=
  k = 0%nat \/ exists c r, rest = c :: r /\ is_byte c /\ isdig c = false.

Lemma pow10_S (n : nat) : 10 ^ S n = 10 * 10 ^ n.
Proof. apply pow_S. Qed.

Lemma pow10_pos (n : nat) : 0 < 10 ^ n.
Proof. apply Z.pow_pos_nonneg; lia. Qed.

Lemma step_digit_bound a d P : 0 <= a -> is_digit 10 d -> (a + 1) * (10 * P) <= 2 ^ 64 -> 1 <= P ->
  0 <= a * 10 + d < 2 ^ 64 /\ (a * 10 + d + 1) * P <= 2 ^ 64.
Proof. unfold is_digit. intros. nia. Qed.

Lemma read_digits_full m : forall ds rest k a,
  Forall (is_digit 10) ds -> (m <= length ds)%nat -> 0 <= a -> (a + 1) * 10 ^ m <= 2 ^ 64 ->
  read_digits m (chars ds ++ rest) (length ds + k) a
  = Some (false, chars (drop m ds) ++ rest, (length ds - m + k)%nat, a * 10 ^ m + horner 10 (take m ds)).
Proof.
  induction m as [|m IH]; intros ds rest k a Hds Hm Ha Hb.
  - cbn [read_digits]. rewrite Nat.sub_0_r, drop_0, take_0. do 2 f_equal. cbn [horner]. change (10 ^ 0%nat) with 1. lia.
  - destruct Hds as [|d ds Hd Hds]; [simpl in Hm; lia|]. simpl in Hm.
    cbn [read_digits map app length Nat.add]. rewrite skipn_cons, firstn_cons. cbn [horner]. rewrite digit_of_char by done.
    rewrite pow10_S in *. pose proof (pow10_pos m).
    destruct (step_digit_bound a d (10 ^ m) Ha Hd Hb ltac:(lia)) as [Hb1 Hb2].
    unfold is_digit in Hd.
    rewrite Z.gtb_ltb, (proj2 (Z.ltb_ge 9 d)) by lia. nowrap. rewrite IH by (done || lia).
    cbn [Nat.sub]. rewrite length_take, Nat.min_l by lia. do 2 f_equal. lia.
Qed.

Lemma read_digits_all ds rest a :
  Forall (is_digit 10) ds -> 0 <= a -> (a + 1) * 10 ^ length ds <= 2 ^ 64 ->
  read_digits (length ds) (chars ds ++ rest) (length ds) a
  = Some (false, rest, 0%nat, a * 10 ^ length ds + horner 10 ds).
Proof.
  intros Hds Ha Hb. pose proof (read_digits_full (length ds) ds rest 0 a Hds ltac:(lia) Ha Hb) as Hr.
  rewrite Nat.add_0_r in Hr. rewrite Hr, Nat.sub_diag. by rewrite drop_ge, take_ge by lia.
Qed.

Lemma read_digits_stop ds : forall m rest k a,
  Forall (is_digit 10) ds -> (length ds < m)%nat -> k <> 0%nat -> stops rest k ->
  0 <= a -> (a + 1) * 10 ^ length ds <= 2 ^ 64 ->
  read_digits m (chars ds ++ rest) (length ds + k) a
  = Some (true, rest, k, a * 10 ^ length ds + horner 10 ds).
Proof.
  induction ds as [|d ds IH]; intros m rest k a Hds Hm Hk Hs Ha Hb; destruct m as [|m]; [simpl in *; lia| |simpl in *; lia|].
  - destruct Hs as [|(c & r & -> & Hc & Hd)]; [done|]. destruct k as [|k]; [done|].
    cbn [chars map app length Nat.add read_digits]. rewrite digit_of_other by done.
    do 2 f_equal. simpl. lia.
  - inversion_clear Hds as [|?? Hd Hds']. simpl in Hm.
    cbn [read_digits map app length Nat.add horner] in *. rewrite digit_of_char by done.
    rewrite pow10_S in *. pose proof (pow10_pos (length ds)).
    destruct (step_digit_bound a d (10 ^ length ds) Ha Hd Hb ltac:(lia)) as [Hb1 Hb2].
    unfold is_digit in Hd.
    rewrite Z.gtb_ltb, (proj2 (Z.ltb_ge 9 d)) by lia. nowrap. rewrite IH by (done || lia).
    do 2 f_equal. lia.
Qed.

(** ** The pieces of the number *)

Definition answer (negative : bool) (v : Z) (s : list Z) : Z * list Z * Z :=
  (if negative then s64 (- s64 v) else s64 v, s, sign_error negative).

Lemma lfactor_lookup (cnt : nat) : (cnt <= 8)%nat -> lfactor !! cnt = Some (10 ^ cnt).
Proof. intros H. do 9 (destruct cnt as [|cnt]; [done|]). lia. Qed.

Lemma pow10_mono (m n : nat) : (m <= n)%nat -> 10 ^ m <= 10 ^ n.
Proof. intros. apply Z.pow_le_mono_r; lia. Qed.

Lemma end_i_and_j_ok neg i j s (cnt : nat) :
  0 <= i < 10 ^ 9 -> 0 <= j < 10 ^ cnt -> (cnt <= 8)%nat ->
  end_i_and_j neg i j s cnt = Some (answer neg (i * 10 ^ cnt + j) s).
Proof.
  intros Hi Hj Hc. unfold end_i_and_j. rewrite lfactor_lookup by done. obind. cbv zeta.
  pose proof (pow10_mono cnt 8 Hc) as Hp. change (10 ^ 8%nat) with 100000000 in Hp.
  rewrite (u64_small (i * 10 ^ cnt)), u64_small by nia. done.
Qed.

Lemma end3_ok neg i j s :
  0 <= i < 10 ^ 9 -> 0 <= j < 10 ^ 9 -> end3 neg i j s = answer neg (i * 10 ^ 9 + j) s.
Proof. intros Hi Hj. unfold end3, LFACTOR. cbv zeta. by rewrite (u64_small (i * _)), u64_small by lia. Qed.

Lemma horner10_bound ds n :
  Forall (is_digit 10) ds -> (length ds <= n)%nat -> 0 <= horner 10 ds < 10 ^ n.
Proof.
  intros Hds Hn. pose proof (horner_bound 10 ltac:(lia) ds Hds). pose proof (pow10_mono _ _ Hn). lia.
Qed.

(** The hypotheses of the pieces: [ds] are the digits still to come. *)
Record at_digits (i : Z) (ds rest : list Z) (k : nat) : Prop := {
  at_i : 0 <= i < 10 ^ 9;
  at_ds : Forall (is_digit 10) ds;
  at_rest : stops rest k
}.

Lemma read_j_short neg c1 c2 c3 i ds rest k :
  at_digits i ds rest k -> (length ds <= 9)%nat -> (length ds + k)%nat <> 0%nat ->
  read_j neg c1 c2 c3 i (chars ds ++ rest) (length ds + k)
  = Some (answer neg (i * 10 ^ length ds + horner 10 ds) rest).
Proof.
  intros [Hi Hds Hs] Hl Hn. unfold read_j, INIT_CNT.
  pose proof (horner10_bound ds (length ds) Hds ltac:(lia)) as Hb.
  pose proof (pow10_mono _ _ Hl) as Hp. change (10 ^ 9%nat) with 1000000000 in Hp.
  destruct (decide (k = 0)%nat) as [->|Hk].
  - rewrite Nat.min_r by lia. rewrite Nat.add_0_r.
    rewrite read_digits_all by (done || lia). cbn [Nat.eqb]. rewrite Nat.sub_0_r.
    replace (0 * 10 ^ length ds + horner 10 ds) with (horner 10 ds) by lia.
    destruct (Nat.eqb_spec (length ds) 9) as [H9|H9]; cbn [negb].
    + rewrite H9 in *. by rewrite end3_ok.
    + apply end_i_and_j_ok; [done|done|lia].
  - destruct (decide (length ds = 9)%nat) as [H9|H9].
    + rewrite Nat.min_l by lia. rewrite (read_digits_full _ ds rest k) by (done || lia).
      rewrite drop_ge, take_ge, H9 by lia. cbn [map app Nat.sub Nat.add].
      rewrite (proj2 (Nat.eqb_neq k 0) Hk).
      destruct Hs as [|(c & r & -> & Hc & Hd)]; [done|]. destruct k as [|k]; [done|].
      unfold read_k. rewrite digit_of_other by done. rewrite H9 in *. rewrite end3_ok; [|done|lia].
      done.
    + rewrite read_digits_stop by (done || lia). rewrite Nat.add_sub.
      replace (0 * 10 ^ length ds + horner 10 ds) with (horner 10 ds) by lia.
      apply end_i_and_j_ok; [done|done|lia].
Qed.

Lemma read_j_long neg c1 c2 c3 i ds rest k :
  at_digits i ds rest k -> (9 < length ds)%nat ->
  read_j neg c1 c2 c3 i (chars ds ++ rest) (length ds + k)
  = read_k neg c1 c2 c3 i (horner 10 (take 9 ds)) (chars (drop 9 ds) ++ rest) (length (drop 9 ds) + k).
Proof.
  intros [Hi Hds Hs] Hl. unfold read_j, INIT_CNT. rewrite Nat.min_l by lia.
  rewrite (read_digits_full _ ds rest k) by (done || lia).
  rewrite (proj2 (Nat.eqb_neq (length ds - 9 + k) 0)) by lia.
  by rewrite length_drop.
Qed.

Lemma read_i_short neg c1 c2 c3 m i ds rest k :
  at_digits i ds rest k -> (length ds <= m)%nat -> (m <= 9)%nat -> (i + 1) * 10 ^ m <= 10 ^ 9 ->
  read_i neg c1 c2 c3 m i (chars ds ++ rest) (length ds + k)
  = Some (answer neg (i * 10 ^ length ds + horner 10 ds) rest).
Proof.
  intros [Hi Hds Hs] Hl Hm Hb. unfold read_i.
  pose proof (pow10_mono _ _ Hl) as Hp.
  pose proof (horner10_bound ds (length ds) Hds ltac:(lia)) as Hh.
  destruct (decide (k = 0)%nat) as [->|Hk].
  - rewrite Nat.min_r by lia. rewrite Nat.add_0_r.
    by rewrite read_digits_all by (done || lia || nia).
  - destruct (decide (length ds = m)%nat) as [<-|Hne].
    + rewrite Nat.min_l by lia. rewrite (read_digits_full _ ds rest k) by (done || lia || nia).
      rewrite drop_ge, take_ge, Nat.sub_diag by lia. cbn [map app Nat.add].
      rewrite (proj2 (Nat.eqb_neq k 0) Hk).
      rewrite (read_j_short _ _ _ _ _ [] rest k); [|split; [nia|done|done]|simpl; lia|simpl; lia].
      do 2 f_equal. cbn [horner length]. change (10 ^ 0%nat) with 1. lia.
    + rewrite read_digits_stop by (done || lia || nia). done.
Qed.

Lemma read_i_long neg c1 c2 c3 m i ds rest k :
  at_digits i ds rest k -> (m < length ds)%nat -> (i + 1) * 10 ^ m <= 10 ^ 9 ->
  read_i neg c1 c2 c3 m i (chars ds ++ rest) (length ds + k)
  = read_j neg c1 c2 c3 (i * 10 ^ m + horner 10 (take m ds)) (chars (drop m ds) ++ rest) (length (drop m ds) + k).
Proof.
  intros [Hi Hds Hs] Hl Hb. unfold read_i. rewrite Nat.min_l by lia.
  rewrite (read_digits_full _ ds rest k) by (done || lia).
  rewrite (proj2 (Nat.eqb_neq (length ds - m + k) 0)) by lia.
  by rewrite length_drop.
Qed.

Lemma s64_min : s64 (2 ^ 63) = - 2 ^ 63.
Proof. done. Qed.

Lemma answer_outcome neg v s : 0 <= v < 2 ^ 63 -> answer neg v s = outcome neg v s.
Proof.
  intros Hv. unfold answer, outcome. destruct neg.
  - rewrite (proj2 (Z.leb_le v _)) by lia. by nowrap.
  - rewrite (proj2 (Z.ltb_lt v _)) by lia. done.
Qed.

Lemma end4_outcome neg i j k s :
  0 <= i < 10 ^ 9 -> 0 <= j < 10 ^ 9 -> 0 <= k < 10 ->
  end4 neg i j k s = outcome neg ((i * 10 ^ 9 + j) * 10 + k) s.
Proof.
  intros Hi Hj Hk. unfold end4, outcome, LFACTOR1. cbv zeta.
  rewrite (u64_small (i * _)), (u64_small (j * _)), (u64_small (_ + j * _)), (u64_small (_ + k)) by lia.
  replace (i * 10000000000 + j * 10 + k) with ((i * 10 ^ 9 + j) * 10 + k) by lia.
  remember ((i * 10 ^ 9 + j) * 10 + k) as v eqn:Hv. destruct neg.
  - unfold MAX_NEGATIVE_NUMBER. rewrite Z.gtb_ltb, Z.ltb_antisym.
    destruct (Z.leb_spec v (2 ^ 63)) as [Hle|]; [|done]. cbn [negb].
    destruct (decide (v = 2 ^ 63)) as [->|]; [done|]. by rewrite (s64_small v), s64_small by lia.
  - by rewrite (proj2 (Z.ltb_lt v _)) by lia.
Qed.

(** The cutoffs for a sign. *)
Definition limit (negative : bool) : Z := if negative then MAX_NEGATIVE_NUMBER else ULONGLONG_MAX.
Abbreviation cut1 neg := (limit neg / LFACTOR2).
Abbreviation cut2 neg := (limit neg mod LFACTOR2 / 100).
Abbreviation cut3 neg := (limit neg mod 100).

Lemma last_digits_end neg i j k s n :
  10 ^ 8 <= i < 10 ^ 9 -> 0 <= j < 10 ^ 9 -> 0 <= k < 100 -> stops s n ->
  last_digits neg (cut1 neg) (cut2 neg) (cut3 neg) i j k s n
  = Some (outcome neg ((i * 10 ^ 9 + j) * 100 + k) s).
Proof.
  intros Hi Hj Hk Hs. unfold last_digits.
  assert ((if (n =? 0)%nat then Some false else c ← head s; Some (digit_of c <=? 9)) = Some false) as ->.
  { destruct Hs as [->|(c & r & -> & Hc & Hd)]; [done|]. destruct n; [done|]. cbn.
    pose proof (digit_of_other c Hc Hd) as H. rewrite Z.gtb_ltb in H. f_equal. b2p. bsolve. }
  obind. unfold outcome, overflow, LFACTOR2. rewrite !Z.gtb_ltb. destruct neg; cbn [limit].
  - replace (MAX_NEGATIVE_NUMBER / 100000000000) with 92233720 by done.
    rewrite (proj2 (Z.ltb_lt _ i)) by lia. cbn [orb].
    by rewrite (proj2 (Z.leb_gt _ (2 ^ 63))) by lia.
  - replace (ULONGLONG_MAX / 100000000000) with 184467440 by done.
    replace (ULONGLONG_MAX mod 100000000000 / 100) with 737095516 by done.
    replace (ULONGLONG_MAX mod 100) with 15 by done.
    destruct (Z.ltb_spec ((i * 10 ^ 9 + j) * 100 + k) (2 ^ 64)).
    + replace (_ || _) with false by bsolve.
      rewrite (u64_small (i * _)), (u64_small (j * _)), (u64_small (_ + j * _)), (u64_small (_ + k)) by lia.
      do 4 f_equal. lia.
    + replace (_ || _) with true by bsolve. done.
Qed.

Lemma last_digits_more neg c1 c2 c3 i j k d s n :
  is_digit 10 d -> last_digits neg c1 c2 c3 i j k ((48 + d) :: s) (S n) = Some (overflow neg ((48 + d) :: s)).
Proof.
  intros Hd. unfold last_digits. cbn [Nat.eqb head]. obind. rewrite digit_of_char by done.
  unfold is_digit in Hd. by rewrite (proj2 (Z.leb_le d 9)) by lia.
Qed.

(** Behind the eighteenth digit: [ds] are the digits from there on. *)
Lemma read_k_outcome neg i j ds rest k :
  10 ^ 8 <= i < 10 ^ 9 -> 0 <= j < 10 ^ 9 -> Forall (is_digit 10) ds -> ds <> [] -> stops rest k ->
  read_k neg (cut1 neg) (cut2 neg) (cut3 neg) i j (chars ds ++ rest) (length ds + k)
  = Some (outcome neg ((i * 10 ^ 9 + j) * 10 ^ length ds + horner 10 ds) (chars (drop 2 ds) ++ rest)).
Proof.
  intros Hi Hj Hds Hne Hs. destruct Hds as [|d ds Hd Hds]; [done|].
  cbn [map app length Nat.add]. unfold read_k. rewrite digit_of_char by done.
  pose proof Hd as Hd'. unfold is_digit in Hd'. rewrite Z.gtb_ltb, (proj2 (Z.ltb_ge 9 d)) by lia.
  destruct Hds as [|e ds He Hds].
  - cbn [map app length Nat.add horner drop]. rewrite end4_outcome by lia.
    replace ((i * 10 ^ 9 + j) * 10 ^ 1%nat + (d * 10 ^ 0%nat + 0)) with ((i * 10 ^ 9 + j) * 10 + d) by lia.
    destruct Hs as [->|(c & r & -> & Hc & Hn)]; [done|]. destruct k as [|k]; [done|].
    by rewrite digit_of_other.
  - cbn [map app length Nat.add]. rewrite digit_of_char by done.
    pose proof He as He'. unfold is_digit in He'. rewrite Z.gtb_ltb, (proj2 (Z.ltb_ge 9 e)) by lia.
    rewrite u64_small by lia. cbn [skipn].
    destruct Hds as [|f ds Hf Hds].
    + cbn [map app length Nat.add]. rewrite last_digits_end by (done || lia). do 2 f_equal.
      cbn [horner length]. lia.
    + cbn [map app length Nat.add]. rewrite last_digits_more by done. f_equal.
      pose proof (horner10_bound (f :: ds) (length (f :: ds)) ltac:(by constructor) ltac:(lia)) as Hb.
      assert (10 ^ 3 <= 10 ^ length (d :: e :: f :: ds)) as Hp.
      { apply Z.pow_le_mono_r; [lia|]. simpl. lia. }
      assert (2 ^ 64 <= (i * 10 ^ 9 + j) * 10 ^ length (d :: e :: f :: ds) + horner 10 (d :: e :: f :: ds)) as Hbig.
      { assert (0 <= horner 10 (d :: e :: f :: ds)); [|nia].
        apply horner_bound; [lia|]. by do 3 (constructor; [done|]). }
      cbn [length] in Hbig. unfold overflow, outcome. destruct neg.
      * by rewrite (proj2 (Z.leb_gt _ (2 ^ 63))) by lia.
      * by rewrite (proj2 (Z.ltb_ge _ (2 ^ 64))) by lia.
Qed.

(** ** The whole number *)

(** The first nine digits of [pre ++ ds], of which [pre] are read. *)
Lemma first_nine pre ds m :
  (m + length pre = 9)%nat -> (9 <= length (pre ++ ds))%nat ->
  horner 10 pre * 10 ^ m + horner 10 (take m ds) = horner 10 (take 9 (pre ++ ds)) /\
  drop m ds = drop 9 (pre ++ ds).
Proof.
  intros Hm Hl. rewrite length_app in Hl.
  rewrite take_app, (take_ge pre), drop_app, (drop_ge pre) by lia.
  replace (9 - length pre)%nat with m by lia. split; [|done].
  rewrite horner_app, length_take, Nat.min_l by lia. done.
Qed.

Lemma head_digits_lower ds n :
  Forall (is_digit 10) ds -> head ds <> Some 0 -> (S n <= length ds)%nat -> 10 ^ n <= horner 10 (take (S n) ds).
Proof.
  intros Hds Hh Hl. destruct Hds as [|d ds Hd Hds]; [simpl in Hl; lia|]. cbn [firstn]. simpl in Hl.
  eapply Z.le_trans; [|apply horner_lower; [lia|done|by intros ->|by apply Forall_take]].
  rewrite length_take, Nat.min_l by lia. done.
Qed.

Lemma read_i_outcome neg m pre ds rest k :
  (m + length pre = 9)%nat -> Forall (is_digit 10) (pre ++ ds) -> head (pre ++ ds) <> Some 0 -> stops rest k ->
  read_i neg (cut1 neg) (cut2 neg) (cut3 neg) m (horner 10 pre) (chars ds ++ rest) (length ds + k)
  = Some (outcome neg (horner 10 (pre ++ ds)) (chars (drop 20 (pre ++ ds)) ++ rest)).
Proof.
  intros Hm Hsig Hh Hs. apply Forall_app in Hsig as Hp. destruct Hp as [Hpre Hds].
  pose proof (horner10_bound pre (length pre) Hpre ltac:(lia)) as Hbp.
  pose proof (pow_plus 10 (length pre) m) as Hpp.
  replace (length pre + m)%nat with 9%nat in Hpp by lia. change (10 ^ 9%nat) with (10 ^ 9) in Hpp.
  pose proof (pow10_pos m) as Hm0. pose proof (pow10_mono (length pre) 9 ltac:(lia)) as Hp9.
  change (10 ^ 9%nat) with (10 ^ 9) in Hp9.
  destruct (decide (length (pre ++ ds) <= 9)%nat) as [H9|H9].
  { pose proof (horner10_bound (pre ++ ds) 9 Hsig H9). rewrite length_app in H9.
    rewrite read_i_short; [|by split; [lia|..]|lia|lia|nia].
    rewrite <- horner_app, answer_outcome by lia. rewrite drop_ge by (rewrite length_app; lia). done. }
  destruct (first_nine pre ds m Hm ltac:(lia)) as [Hv Hd].
  pose proof (head_digits_lower (pre ++ ds) 8 Hsig Hh ltac:(lia)) as Hlow.
  rewrite read_i_long; [|by split; [lia|..]|rewrite length_app in H9; lia|nia].
  rewrite Hv, Hd. clear Hv Hd Hm Hpre Hds Hbp Hpp Hm0 Hp9.
  remember (pre ++ ds) as sig eqn:Esig. clear Esig pre ds m.
  pose proof (horner10_bound (take 9 sig) 9 ltac:(by apply Forall_take) ltac:(rewrite length_take; lia)) as Hi.
  pose proof (Forall_drop _ 9 _ Hsig) as Hd.
  assert (horner 10 sig = horner 10 (take 9 sig) * 10 ^ length (drop 9 sig) + horner 10 (drop 9 sig)) as Hv.
  { by rewrite <- horner_app, take_drop. }
  destruct (decide (length (drop 9 sig) <= 9)%nat) as [H18|H18].
  { rewrite read_j_short; [|by split|done|rewrite length_drop; lia].
    pose proof (horner10_bound sig 18 Hsig ltac:(rewrite length_drop in H18; lia)).
    rewrite <- Hv, answer_outcome by lia. rewrite (drop_ge sig) by (rewrite length_drop in H18; lia). done. }
  rewrite read_j_long by (by split || lia).
  pose proof (horner10_bound (take 9 (drop 9 sig)) 9 ltac:(by apply Forall_take) ltac:(rewrite length_take; lia)) as Hj.
  rewrite read_k_outcome; [|lia|done|by apply Forall_drop| |done].
  - rewrite (drop_drop sig 9 9), drop_drop. cbn [Nat.add]. f_equal. f_equal. rewrite Hv.
    assert (horner 10 (drop 9 sig)
            = horner 10 (take 9 (drop 9 sig)) * 10 ^ length (drop 18 sig) + horner 10 (drop 18 sig)) as ->.
    { change 18%nat with (9 + 9)%nat. by rewrite <- drop_drop, <- horner_app, take_drop. }
    assert (10 ^ length (drop 9 sig) = 10 ^ 9 * 10 ^ length (drop 18 sig)) as ->.
    { rewrite !length_drop in *. rewrite <- Z.pow_add_r by lia. f_equal. lia. }
    lia.
  - intros E. rewrite length_drop in H18. apply (f_equal length) in E. revert E. solve_len.
Qed.

Lemma leading_zeros ds : exists z sig, ds = replicate z 0 ++ sig /\ head sig <> Some 0.
Proof.
  induction ds as [|d ds (z & sig & -> & Hh)]; [by exists 0%nat, []|].
  destruct (decide (d = 0)) as [->|Hd].
  - by exists (S z), sig.
  - exists 0%nat, (d :: replicate z 0 ++ sig). split; [done|]. simpl. congruence.
Qed.

(** [n] bytes are left and the first of them is not a zero. *)
Definition no_zero (s : list Z) (n : nat) : Prop := n = 0%nat \/ exists c r, s = c :: r /\ c <> 48.

Lemma skip_zeros_ok z s n : no_zero s n -> skip_zeros (replicate z 48 ++ s) (z + n) = Some (s, n).
Proof.
  intros H. induction z as [|z IH]; [|done]. cbn [replicate app Nat.add].
  destruct H as [->|(c & r & -> & Hc)]; [by destruct s|]. destruct n; [done|]. cbn [skip_zeros].
  by rewrite (proj2 (Z.eqb_neq c 48) Hc).
Qed.

Lemma chars_zeros z : chars (replicate z 0) = replicate z 48.
Proof. induction z as [|z IH]; [done|]. cbn [replicate map]. by rewrite IH. Qed.

Lemma no_zero_digits sig rest k :
  Forall (is_digit 10) sig -> head sig <> Some 0 -> stops rest k -> no_zero (chars sig ++ rest) (length sig + k).
Proof.
  intros Hsig Hh Hs. destruct Hsig as [|d sig Hd _].
  - destruct Hs as [->|(c & r & -> & Hc & Hd)]; [by left|]. right. exists c, r. split; [done|]. by intros ->.
  - right. eexists _, _. split; [done|]. intros E. apply Hh. simpl. f_equal. lia.
Qed.

Lemma drop_while_zeros z sig :
  head sig <> Some 0 -> drop_while (Z.eqb 48) (chars (replicate z 0 ++ sig)) = chars sig.
Proof.
  intros Hh. rewrite map_app, drop_while_app.
  - apply drop_while_stop. destruct sig as [|d sig]; [done|]. intros x [= <-]. apply Z.eqb_neq. intros E.
    apply Hh. simpl. f_equal. lia.
  - rewrite chars_zeros. apply Forall_replicate. done.
Qed.

Lemma digit_chars cs :
  Forall (fun c => isdig c = true) cs ->
  exists ds, cs = chars ds /\ Forall (is_digit 10) ds /\ map (fun c => c - 48) cs = ds.
Proof.
  intros H. exists (map (fun c => c - 48) cs). split_and!; [| |done].
  - rewrite map_map. induction cs as [|c cs IH]; [done|]. inversion_clear H. simpl. f_equal; [lia|by apply IH].
  - induction H as [|c cs Hc _ IH]; constructor; [|done]. unfold isdig, is_digit in *. b2p. lia.
Qed.

Lemma after_sign_ok nptr neg cs rest k :
  Forall (fun c => isdig c = true) cs -> stops rest k -> (length cs + k)%nat <> 0%nat ->
  after_sign nptr neg (cut1 neg) (cut2 neg) (cut3 neg) (cs ++ rest) (length cs + k)
  = Some (number_ref past_twenty nptr neg cs rest).
Proof.
  intros Hcs Hs Hn. destruct cs as [|c cs].
  { destruct Hs as [|(c & r & -> & Hc & Hd)]; [done|]. cbn [app after_sign].
    rewrite digit_of_other by done. by destruct (Z.eqb_spec c 48) as [->|]. }
  destruct (digit_chars _ Hcs) as ([|d ds] & [= -> ->] & Hds & Hm).
  unfold number_ref, past_twenty. rewrite Hm. pose proof (Forall_inv Hds) as Hd. pose proof (Forall_inv_tail Hds) as Hds'.
  cbn [app after_sign length Nat.add Nat.pred]. rewrite length_map. destruct (Z.eqb_spec (48 + d) 48).
  - assert (d = 0) as -> by lia. destruct (leading_zeros ds) as (z & sig & -> & Hh).
    apply Forall_app in Hds' as [_ Hsig].
    change (48 + 0 :: chars (replicate z 0 ++ sig)) with (chars (replicate (S z) 0 ++ sig)).
    rewrite drop_while_zeros by done. rewrite map_app, <- app_assoc, chars_zeros, length_app, length_replicate,
      <- Nat.add_assoc, skip_zeros_ok by (by apply no_zero_digits). obind.
    assert (horner 10 (0 :: replicate z 0 ++ sig) = horner 10 sig) as ->.
    { change (0 :: replicate z 0 ++ sig) with (replicate (S z) 0 ++ sig).
      rewrite horner_app, horner_zeros by lia. lia. }
    destruct (Nat.eqb_spec (length sig + k) 0) as [H0|H0].
    + destruct sig; [|simpl in H0; lia]. by destruct neg.
    + pose proof (read_i_outcome neg 9 [] sig rest k ltac:(done) Hsig Hh Hs) as H. cbn [app horner] in H.
      unfold INIT_CNT. rewrite H. by rewrite map_drop || rewrite skipn_map.
  - rewrite digit_of_char by done. pose proof Hd as Hd1. unfold is_digit in Hd1.
    rewrite Z.gtb_ltb, (proj2 (Z.ltb_ge 9 d)) by lia.
    pose proof (read_i_outcome neg 8 [d] ds rest k ltac:(done) Hds ltac:(intros [=]; lia) Hs) as H.
    replace (horner 10 [d]) with d in H by (simpl; lia). cbn [app] in H. unfold INIT_CNT. cbn [Nat.sub].
    rewrite H. pose proof (drop_while_zeros 0 (d :: ds) ltac:(intros [=]; lia)) as Hz.
    cbn [replicate app map] in Hz. rewrite Hz. rewrite <- skipn_map. done.
Qed.

Lemma outcome_app neg v s t : outcome neg v (s ++ t) = followed_by t (outcome neg v s).
Proof. unfold outcome. by destruct neg, (v <=? 2 ^ 63), (v <? 2 ^ 64). Qed.

Lemma number_ref_app nptr neg cs rest t :
  number_ref past_twenty (nptr ++ t) neg cs (rest ++ t) = followed_by t (number_ref past_twenty nptr neg cs rest).
Proof. destruct cs as [|c cs]; [done|]. unfold number_ref. by rewrite app_assoc, outcome_app. Qed.

(** [t] and the number [j] of its bytes up to [end] are behind the string. *)
Lemma stops_drop_while s t j :
  Forall is_byte s -> stops t j -> stops (drop_while isdig s ++ t) (length (drop_while isdig s) + j).
Proof.
  intros Hs Ht. pose proof (drop_while_head isdig s) as Hh. pose proof (take_drop_while isdig s) as He.
  destruct (drop_while isdig s) as [|c r]; [done|]. right. exists c, (r ++ t). split_and!; [done| |by apply Hh].
  rewrite <- He in Hs. apply Forall_app in Hs as [_ Hs]. by inversion Hs.
Qed.

Lemma after_sign_ref nptr neg s t j :
  Forall is_byte s -> stops t j -> (length s + j)%nat <> 0%nat ->
  after_sign (nptr ++ t) neg (cut1 neg) (cut2 neg) (cut3 neg) (s ++ t) (length s + j)
  = Some (followed_by t (digits_ref past_twenty nptr neg s)).
Proof.
  intros Hs Ht Hn. unfold digits_ref. rewrite <- number_ref_app.
  pose proof (after_sign_ok (nptr ++ t) neg (take_while isdig s) (drop_while isdig s ++ t)
                (length (drop_while isdig s) + j) (take_while_all _ _) (stops_drop_while s t j Hs Ht)) as H.
  rewrite app_assoc, Nat.add_assoc, <- length_app, take_drop_while in H. by apply H.
Qed.

Lemma read_number_ref nptr s t j :
  Forall is_byte s -> stops t j -> s <> [] ->
  read_number (nptr ++ t) (s ++ t) (length s + j) = Some (followed_by t (signed_ref past_twenty nptr s)).
Proof.
  intros Hs Ht Hn. destruct s as [|c s]; [done|]. inversion_clear Hs as [|?? Hc Hs'].
  cbn [read_number app length Nat.add Nat.pred signed_ref].
  assert (forall neg, (length s + j)%nat = 0%nat -> Some (no_conv (nptr ++ t)) = Some (followed_by t (digits_ref past_twenty nptr neg s))) as H0.
  { intros neg H. by destruct s; [|simpl in H; lia]. }
  destruct (c =? 45); [|destruct (c =? 43)].
  - destruct (Nat.eqb_spec (length s + j) 0); [by apply H0|]. by apply (after_sign_ref nptr true).
  - destruct (Nat.eqb_spec (length s + j) 0); [by apply H0|]. by apply (after_sign_ref nptr false).
  - apply (after_sign_ref nptr false (c :: s)); [by constructor|done|done].
Qed.

Lemma skip_blanks_ok s t : skip_blanks (s ++ t) (length s) = Some (drop_while blank s ++ t, length (drop_while blank s)).
Proof.
  induction s as [|c s IH]; [by destruct t|]. cbn [skip_blanks app length drop_while]. by destruct (blank c).
Qed.

Lemma skip_blanks_nul_ok s t : skip_blanks_nul (s ++ 0 :: t) = Some (drop_while blank s ++ 0 :: t).
Proof. induction s as [|c s IH]; [done|]. cbn [skip_blanks_nul app drop_while]. by destruct (blank c). Qed.

Lemma Forall_drop_while {A} (P : A -> Prop) p l : Forall P l -> Forall P (drop_while p l).
Proof. intros H. rewrite <- (take_drop_while p l) in H. by apply Forall_app in H as [_ H]. Qed.

Lemma my_strtoll10_ok s t :
  Forall is_byte s ->
  my_strtoll10 (s ++ t) (length s) = Some (followed_by t (strtoll10_ref s)) /\
  (Forall (fun c => c <> 0) s -> Z.of_nat (length s) < 65535 ->
   my_strtoll10_nul (s ++ 0 :: t) = Some ((strtoll10_ref s).1.1, (strtoll10_ref s).2)).
Proof.
  intros Hs. apply (Forall_drop_while _ blank) in Hs as Hs'. unfold strtoll10_ref, strtoll10_with. split.
  - unfold my_strtoll10. rewrite skip_blanks_ok. obind.
    destruct (drop_while blank s) as [|c r] eqn:E; [done|]. cbn [length Nat.eqb].
    pose proof (read_number_ref s (c :: r) t 0 Hs' ltac:(by left) ltac:(done)) as H.
    rewrite Nat.add_0_r in H. by rewrite <- H.
  - intros Hnz Hl. unfold my_strtoll10_nul. rewrite skip_blanks_nul_ok. obind.
    apply (Forall_drop_while _ blank) in Hnz.
    assert (length (drop_while blank s) <= length s)%nat as Hle.
    { rewrite <- (take_drop_while blank s) at 2. rewrite length_app. lia. }
    destruct (drop_while blank s) as [|c r]; [done|]. inversion_clear Hnz as [|?? Hc0 _]. cbn [head app]. obind.
    destruct (Z.eqb_spec c 0); [done|].
    pose proof (read_number_ref s (c :: r) (0 :: t) (Z.to_nat 65535 - length (c :: r)) Hs'
                  ltac:(right; by exists 0, t) ltac:(done)) as H.
    replace (length (c :: r) + (Z.to_nat 65535 - length (c :: r)))%nat with (Z.to_nat 65535) in H by lia.
    change (c :: r ++ 0 :: t) with ((c :: r) ++ 0 :: t). rewrite H. obind.
    by destruct (signed_ref past_twenty s (c :: r)) as [[v stop] e].
Qed.

Lemma outcome_values neg v stop stop' :
  (outcome neg v stop).1.1 = (outcome neg v stop').1.1 /\ (outcome neg v stop).2 = (outcome neg v stop').2 /\
  (outcome neg v stop).1.2 = stop.
Proof. unfold outcome. by destruct neg, (v <=? 2 ^ 63), (v <? 2 ^ 64). Qed.

(** Twenty digits behind the leading zeros are enough for a number that fits. *)
Lemma past_twenty_nil cs neg stop :
  Forall (fun c => isdig c = true) cs ->
  (outcome neg (horner 10 (map (fun c => c - 48) cs)) stop).2 <> MY_ERRNO_ERANGE -> past_twenty cs = [].
Proof.
  intros Hcs He. destruct (digit_chars _ Hcs) as (ds & -> & Hds & Hm). rewrite Hm in He.
  destruct (leading_zeros ds) as (z & sig & -> & Hh). apply Forall_app in Hds as [_ Hsig].
  unfold past_twenty. rewrite drop_while_zeros by done. apply drop_ge. rewrite length_map.
  assert (horner 10 sig < 2 ^ 64) as Hlt.
  { rewrite horner_app, horner_zeros in He by lia. unfold outcome in He.
    destruct neg; [destruct (Z.leb_spec (0 * 10 ^ length sig + horner 10 sig) (2 ^ 63))|
                   destruct (Z.ltb_spec (0 * 10 ^ length sig + horner 10 sig) (2 ^ 64))]; simpl in He; (lia || done). }
  destruct (decide (length sig <= 20)%nat) as [|Hn]; [done|]. exfalso.
  destruct sig as [|d sig]; [simpl in Hn; lia|]. pose proof (Forall_inv Hsig) as Hd. apply Forall_inv_tail in Hsig.
  assert (d <> 0) as Hd0 by (intros ->; by apply Hh). pose proof (horner_lower 10 ltac:(lia) d sig Hd Hd0 Hsig). simpl in Hn.
  assert (10 ^ 20 <= 10 ^ length sig) by (apply Z.pow_le_mono_r; lia). lia.
Qed.

Lemma number_ref_doc nptr neg cs rest :
  Forall (fun c => isdig c = true) cs ->
  let '(v, stop, e) := number_ref (fun _ => []) nptr neg cs rest in
  number_ref past_twenty nptr neg cs rest = (v, past_twenty cs ++ stop, e) /\
  (e <> MY_ERRNO_ERANGE -> past_twenty cs = []).
Proof.
  intros Hcs. destruct cs as [|c cs]; [done|]. unfold number_ref. set (l := c :: cs) in *. cbn [app].
  pose proof (outcome_values neg (horner 10 (map (fun c => c - 48) l)) (past_twenty l ++ rest) rest) as (E1 & E2 & E3).
  pose proof (past_twenty_nil l neg rest Hcs) as Hp.
  pose proof (outcome_values neg (horner 10 (map (fun c => c - 48) l)) rest rest) as (_ & _ & E4).
  destruct (outcome neg _ rest) as [[v stop] e]. destruct (outcome neg _ _) as [[v' stop'] e']. simpl in *. subst.
  by split.
Qed.

Lemma strtoll10_ref_doc s :
  let '(v, stop, e) := strtoll10_doc s in
  strtoll10_ref s = (v, past_twenty (digits_in s) ++ stop, e) /\
  (e <> MY_ERRNO_ERANGE -> past_twenty (digits_in s) = []).
Proof.
  unfold strtoll10_doc, strtoll10_ref, strtoll10_with, digits_in, signed_ref. destruct (drop_while blank s) as [|c r]; [done|].
  destruct (c =? 45); [|destruct (c =? 43)]; cbn [orb]; apply (number_ref_doc s _ _ _ (take_while_all isdig _)).
Qed.

(** C36.  my_strtoll10 on the [length s] bytes [s] in front of any others returns
    the value and the error of the reference [strtoll10_doc]: the value of the
    digits behind the blanks and the sign if it fits, with the error -1 for a
    minus sign and 0 otherwise, the nearest bound with ERANGE if it does not fit,
    and 0 with EDOM if there are no digits.  The stop pointer is at the first
    character behind the digits, as the comment of the function says, whenever
    the error is not ERANGE; with ERANGE it is there if the number has at most
    twenty digits behind its leading zeros, and otherwise behind the twentieth.
    Without an end pointer a string that ends with 0 and is shorter than 65535
    bytes gives the same value and error. *)
Theorem my_strtoll10_correct s t :
  Forall is_byte s ->
  let '(v, stop, e) := strtoll10_doc s in
  (exists digits, my_strtoll10 (s ++ t) (length s) = Some (v, digits ++ stop ++ t, e) /\
     digits = drop 20 (drop_while (Z.eqb 48) (digits_in s)) /\ (e <> MY_ERRNO_ERANGE -> digits = [])) /\
  (Forall (fun c => c <> 0) s -> Z.of_nat (length s) < 65535 -> my_strtoll10_nul (s ++ 0 :: t) = Some (v, e)).
Proof.
  intros Hs. destruct (my_strtoll10_ok s t Hs) as [H1 H2]. pose proof (strtoll10_ref_doc s) as H.
  destruct (strtoll10_doc s) as [[v stop] e]. destruct H as [Hr He]. rewrite Hr in H1, H2. split; [|exact H2].
  eexists. rewrite app_assoc. split; [exact H1|]. by split.
Qed.

Lemma my_strtoll10_correct_witness :
  my_strtoll10 [32; 45; 49; 50; 120] 5 = Some (-12, [120], -1) /\
  my_strtoll10_nul [32; 45; 49; 50; 120; 0] = Some (-12, -1).
Proof.
  pose proof (my_strtoll10_correct [32; 45; 49; 50; 120] [] ltac:(repeat constructor; lia)) as [(digits & H1 & H2 & _) H3].
  split; [subst digits; exact H1|]. apply H3; [repeat constructor; lia|simpl; lia].
Defined.

(** ** Round trip *)

Lemma dig_chars upcase ds : Forall (is_digit 10) ds -> map (dig_char upcase) ds = chars ds.
Proof.
  induction 1 as [|d ds Hd _ IH]; [done|]. cbn [map]. rewrite IH. unfold dig_char, is_digit in *.
  by rewrite (proj2 (Z.ltb_lt d 10)) by lia.
Qed.

Lemma chars_isdig ds : Forall (is_digit 10) ds -> Forall (fun c => isdig c = true) (chars ds).
Proof.
  induction 1 as [|d ds Hd _ IH]; constructor; [|done]. unfold isdig, is_digit in *. bsolve.
Qed.

Lemma numeral_length20 v ds : 0 <= v < 2 ^ 64 -> numeral 10 v ds -> (length ds <= 20)%nat.
Proof.
  intros Hv. unfold numeral. case_if; [intros ->; simpl; lia|]. intros Hn.
  apply (numeral0_length 10 ltac:(lia) v ds Hn). change (10 ^ 20%nat) with (10 ^ 20). lia.
Qed.

Lemma digits_ref_numeral nptr neg v ds :
  0 <= v < 2 ^ 64 -> numeral 10 v ds -> digits_ref past_twenty nptr neg (chars ds) = outcome neg v [].
Proof.
  intros Hv Hn. pose proof (numeral_digits 10 ltac:(lia) v ds Hn) as Hds.
  pose proof (numeral_length20 v ds Hv Hn) as Hl. pose proof (chars_isdig ds Hds) as Hc.
  unfold digits_ref. rewrite <- (app_nil_r (chars ds)).
  rewrite take_while_app, drop_while_app by done. cbn [take_while drop_while]. rewrite app_nil_r.
  unfold number_ref, past_twenty. destruct ds as [|d ds]; [by apply numeral_nonempty in Hn|].
  remember (d :: ds) as l eqn:El. destruct (chars l) as [|c cs] eqn:E; [by subst l|]. rewrite <- E. clear Hc E c cs.
  rewrite map_map, (map_ext _ id) by (intros; unfold id; lia). rewrite map_id.
  rewrite (numeral_value 10 ltac:(lia) v l Hn).
  rewrite drop_ge; [done|]. rewrite <- (length_map (Z.add 48) l) in Hl.
  rewrite <- (take_drop_while (Z.eqb 48) (chars l)), length_app in Hl. lia.
Qed.

Lemma strtoll10_ref_printed v ds :
  - 2 ^ 63 <= v < 2 ^ 64 -> numeral 10 (Z.abs v) ds ->
  strtoll10_ref (printed true v ds) = (s64 v, [], if v <? 0 then -1 else 0).
Proof.
  intros Hv Hn. pose proof (numeral_digits 10 ltac:(lia) _ ds Hn) as Hds.
  unfold strtoll10_ref, strtoll10_with, printed. rewrite (dig_chars true ds Hds). destruct (Z.ltb_spec v 0).
  - cbn [app drop_while]. change (blank 45) with false. cbn [signed_ref].
    change (45 =? 45) with true. cbv iota. rewrite (digits_ref_numeral _ true (Z.abs v)) by (done || lia).
    unfold outcome. rewrite (proj2 (Z.leb_le _ _)) by lia. rewrite s64_small by lia. do 2 f_equal. lia.
  - cbn [app].
    assert (forall s, signed_ref past_twenty s (drop_while blank (chars ds)) = digits_ref past_twenty s false (chars ds)) as ->.
    { intros s. pose proof (numeral_nonempty 10 _ ds Hn). inversion Hds as [|d ds' Hd]; [done|].
      unfold is_digit in Hd. cbn [map drop_while].
      replace (blank (48 + d)) with false by (unfold blank; bsolve). cbn [signed_ref].
      by rewrite (proj2 (Z.eqb_neq (48 + d) 45)), (proj2 (Z.eqb_neq (48 + d) 43)) by lia. }
    rewrite (digits_ref_numeral _ false (Z.abs v)) by (done || lia).
    unfold outcome. rewrite (proj2 (Z.ltb_lt _ _)) by lia. by rewrite Z.abs_eq.
Qed.

Lemma s64_u64 z : s64 (u64 z) = s64 z.
Proof. unfold s64, u64, sgn_wrap. by rewrite Z.mod_mod. Qed.

Lemma printed_bytes v ds : Forall (is_digit 10) ds -> Forall is_byte (printed true v ds).
Proof.
  intros Hds. unfold printed. rewrite dig_chars by done. apply Forall_app. split.
  - unfold is_byte. destruct (v <? 0); repeat constructor; lia.
  - induction Hds as [|d ds Hd _ IH]; constructor; [|done]. unfold is_byte, is_digit in *. lia.
Qed.

(** What longlong10_to_str writes for any 64 bit value, signed or unsigned,
    my_strtoll10 reads back: the same value, the stop pointer at the NUL, and
    -1 as the error exactly for a number printed with a minus sign.  The same
    holds without an end pointer. *)
Theorem int10_roundtrip LONG_MAX val radix dst :
  0 <= LONG_MAX -> - 2 ^ 63 <= val < 2 ^ 63 -> (65 < length dst)%nat ->
  exists dst' d, longlong10_to_str LONG_MAX val dst radix = Some (dst', d) /\
    let e := if (radix <? 0) && (val <? 0) then -1 else 0 in
    my_strtoll10 dst' d = Some (val, drop d dst', e) /\ my_strtoll10_nul dst' = Some (val, e) /\
    dst' !! d = Some 0.
Proof.
  intros HL Hv Hd. destruct (longlong10_to_str_ok LONG_MAX val dst radix HL Hv) as (ds & Hn & Hl & ->); [|lia].
  pose proof (numeral_digits 10 ltac:(lia) _ ds Hn) as Hds.
  set (v := printed_value val radix) in *. set (out := printed true v ds) in *.
  assert (- 2 ^ 63 <= v < 2 ^ 64 /\ s64 v = val /\ (v <? 0) = (radix <? 0) && (val <? 0)) as (Hr & Hs & He).
  { unfold v, printed_value. destruct (radix <? 0); [rewrite s64_small by lia; split_and!; [lia..|done|done]|].
    pose proof (u64_range val). rewrite s64_u64, s64_small by lia. split_and!; [lia..|].
    by rewrite (proj2 (Z.ltb_ge _ _)) by lia. }
  pose proof (strtoll10_ref_printed v ds Hr Hn) as Href. rewrite He in Href. fold out in Href. rewrite Hs in Href.
  assert (Forall is_byte out /\ Forall (fun c => c <> 0) out) as [Hb Hz].
  { split; [by apply printed_bytes|]. unfold out, printed. apply Forall_app. split.
    - destruct (v <? 0); repeat constructor; lia.
    - by eapply map_dig_nonzero. }
  eexists _, _. split; [reflexivity|]. cbv zeta. unfold write_str.
  destruct (my_strtoll10_ok out (0 :: drop (S (length out)) dst) Hb) as [H1 _]. rewrite H1, Href.
  destruct (my_strtoll10_ok out (drop (S (length out)) dst) Hb) as [_ H2]. rewrite H2, Href by (done || lia).
  rewrite drop_app_length, lookup_app_r, Nat.sub_diag by lia. done.
Qed.

Lemma int10_roundtrip_witness :
  exists dst' d, longlong10_to_str (2 ^ 31 - 1) (- 2 ^ 63) (replicate 66 0) (-10) = Some (dst', d) /\
    my_strtoll10 dst' d = Some (- 2 ^ 63, drop d dst', -1).
Proof.
  destruct (int10_roundtrip (2 ^ 31 - 1) (- 2 ^ 63) (-10) (replicate 66 0)) as (dst' & d & H & H1 & _);
    [lia|lia|simpl; lia|].
  exists dst', d. split; [exact H|exact H1].
Defined.
