(* ===== verification/Decimal.v ===== *)
(** * Fixed point numbers: the data, sums and differences

    The first part of strings/decimal.c.  A decimal_t has a buffer of words of
    nine decimal digits: ROUND_UP(intg) words before the point, of which the
    first may have less than nine digits, and ROUND_UP(frac) words behind it, of
    which the last may have less.  A pointer into a buffer is an index, which is
    a [Z] since some loops move it in front of the buffer, and a read or write
    outside of the buffer is [None].  A loop over a range of indices recurs on
    the length of the range, so that no fuel is chosen.

    Digits are 32 bit and products 64 bit signed integers; sums that could leave
    their width are reduced ([s32], [s64]).  The lengths intg, frac and len are
    small in comparison and are integers without a bound. *)

From stdpp Require Import prelude list list_numbers numbers.
From Stdlib Require Import ZArith Lia ZifyNat Bool.
From S2P Require Import Prelude.

(** ** The data: include/decimal.h *)

Inductive decimal_round_mode := TRUNCATE | HALF_EVEN | HALF_UP | CEILING | FLOOR.

Record decimal_t := mk_dec {
  intg : Z;
  frac : Z;
  len : Z;
  sign : bool;
  buf : list Z
}.

Definition E_DEC_OK : Z := 0.
Definition E_DEC_TRUNCATED : Z := 1.
Definition E_DEC_OVERFLOW : Z := 2.
Definition E_DEC_DIV_ZERO : Z := 4.
Definition E_DEC_BAD_NUM : Z := 8.
Definition E_DEC_OOM : Z := 16.

Definition DIG_PER_DEC1 : Z := 9.
Definition DIG_MASK : Z := 100000000.
Definition DIG_BASE : Z := 1000000000.
Definition DIG_MAX : Z := DIG_BASE - 1.
Definition ROUND_UP (x : Z) : Z := Z.quot (x + DIG_PER_DEC1 - 1) DIG_PER_DEC1.

Definition powers10 : list Z :=
  [1; 10; 100; 1000; 10000; 100000; 1000000; 10000000; 100000000; 1000000000].
Definition dig2bytes : list Z := [0; 1; 1; 2; 2; 3; 3; 4; 4; 4].
Definition frac_max : list Z :=
  [900000000; 990000000; 999000000; 999900000; 999990000; 999999000; 999999900; 999999990].

(** A truth value as an integer. *)
Definition b2z (b : bool) : Z := if b then 1 else 0.

(** [p[i]] and [p[i] = v]. *)
Definition get (p : list Z) (i : Z) : option Z := if i <? 0 then None else p !! Z.to_nat i.
Definition put (p : list Z) (i v : Z) : option (list Z) :=
  if (0 <=? i) && (i <? Z.of_nat (length p)) then Some (<[Z.to_nat i := v]> p) else None.

Definition set_buf (d : decimal_t) (b : list Z) : decimal_t :=
  mk_dec (intg d) (frac d) (len d) (sign d) b.
Definition set_sign (d : decimal_t) (s : bool) : decimal_t :=
  mk_dec (intg d) (frac d) (len d) s (buf d).
Definition set_intg (d : decimal_t) (i : Z) : decimal_t :=
  mk_dec i (frac d) (len d) (sign d) (buf d).
Definition set_frac (d : decimal_t) (f : Z) : decimal_t :=
  mk_dec (intg d) f (len d) (sign d) (buf d).

Definition decimal_make_zero (d : decimal_t) : option decimal_t :=
  b ← put (buf d) 0 0; Some (mk_dec 1 0 (len d) false b).

Definition decimal_neg (d : decimal_t) : decimal_t := set_sign d (negb (sign d)).

(** FIX_INTG_FRAC_ERROR: the new intg1, frac1 and the error. *)
Definition FIX_INTG_FRAC_ERROR (len intg1 frac1 : Z) : Z * Z * Z :=
  if intg1 + frac1 >? len then
    if intg1 >? len then (len, 0, E_DEC_OVERFLOW) else (intg1, len - intg1, E_DEC_TRUNCATED)
  else (intg1, frac1, E_DEC_OK).

(** ADD, ADD2, SUB and SUB2: the word and the new carry. *)
Definition ADD (from1 from2 carry : Z) : Z * Z :=
  let a := s32 (from1 + from2 + carry) in
  if a >=? DIG_BASE then (s32 (a - DIG_BASE), 1) else (a, 0).

Definition ADD2 (from1 from2 carry : Z) : Z * Z :=
  let a := s64 (from1 + from2 + carry) in
  let '(a, carry) := if a >=? DIG_BASE then (s64 (a - DIG_BASE), 1) else (a, 0) in
  let '(a, carry) := if a >=? DIG_BASE then (s64 (a - DIG_BASE), s32 (carry + 1)) else (a, carry) in
  (s32 a, carry).

Definition SUB (from1 from2 carry : Z) : Z * Z :=
  let a := s32 (from1 - from2 - carry) in
  if a <? 0 then (s32 (a + DIG_BASE), 1) else (a, 0).

Definition SUB2 (from1 from2 carry : Z) : Z * Z :=
  let a := s32 (from1 - from2 - carry) in
  let '(a, carry) := if a <? 0 then (s32 (a + DIG_BASE), 1) else (a, 0) in
  if a <? 0 then (s32 (a + DIG_BASE), s32 (carry + 1)) else (a, carry).

(** ** max_decimal, remove_leading_zeroes, decimal_actual_fraction *)

(** [for (; n; n--) *buf++= v]. *)
Fixpoint fill (n : nat) (v : Z) (b : list Z) (i : Z) : option (list Z * Z) :=
  match n with
  | O => Some (b, i)
  | S n => b ← put b i v; fill n v b (i + 1)
  end.

Definition max_decimal (precision frac : Z) (to : decimal_t) : option decimal_t :=
  let intpart := precision - frac in
  '(b, i) ← (if negb (intpart =? 0) then
               let firstdigits := Z.rem intpart DIG_PER_DEC1 in
               '(b, i) ← (if negb (firstdigits =? 0)
                          then p ← get powers10 firstdigits; b ← put (buf to) 0 (p - 1); Some (b, 1)
                          else Some (buf to, 0));
               fill (Z.to_nat (Z.quot intpart DIG_PER_DEC1)) DIG_MAX b i
             else Some (buf to, 0));
  b ← (if negb (frac =? 0) then
         let lastdigits := Z.rem frac DIG_PER_DEC1 in
         '(b, i) ← fill (Z.to_nat (Z.quot frac DIG_PER_DEC1)) DIG_MAX b i;
         if negb (lastdigits =? 0) then m ← get frac_max (lastdigits - 1); put b i m else Some b
       else Some b);
  Some (mk_dec intpart frac (len to) false b).

(** The loop over the leading words that are zero; [n] bounds the words that
    are left.  The result is intg and the place in the buffer. *)
Fixpoint skip_zero_words (n : nat) (b : list Z) (i : Z) (intg buf0 : Z) : option (Z * Z) :=
  if intg >? 0 then
    match n with
    | O => None
    | S n =>
      w ← get b buf0;
      if w =? 0 then skip_zero_words n b DIG_PER_DEC1 (intg - i) (buf0 + 1) else Some (intg, buf0)
    end
  else Some (intg, buf0).

(** [for (...; w < powers10[i--]; intg--) ;] from the index [i] on. *)
Fixpoint skip_zero_digits (i : nat) (w intg : Z) : option Z :=
  p ← powers10 !! i;
  if w <? p then
    match i with
    | O => None
    | S i => skip_zero_digits i w (intg - 1)
    end
  else Some intg.

Definition remove_leading_zeroes (from : decimal_t) : option (Z * Z) :=
  '(intg, buf0) ← skip_zero_words (S (length (buf from))) (buf from)
                    (Z.rem (intg from - 1) DIG_PER_DEC1 + 1) (intg from) 0;
  if intg >? 0 then
    w ← get (buf from) buf0;
    intg ← skip_zero_digits (Z.to_nat (Z.rem (intg - 1) DIG_PER_DEC1)) w intg;
    Some (buf0, intg)
  else Some (buf0, 0).

Definition decimal_intg (from : decimal_t) : option Z :=
  '(_, res) ← remove_leading_zeroes from; Some res.

(** The loop over the last words that are zero. *)
Fixpoint skip_last_words (n : nat) (b : list Z) (i : Z) (frac buf0 : Z) : option (Z * Z) :=
  if frac >? 0 then
    match n with
    | O => None
    | S n =>
      w ← get b buf0;
      if w =? 0 then skip_last_words n b DIG_PER_DEC1 (frac - i) (buf0 - 1) else Some (frac, buf0)
    end
  else Some (frac, buf0).

(** [for (i= ...; w % powers10[i++] == 0; frac--) ;]. *)
Fixpoint skip_last_digits (n : nat) (i w frac : Z) : option Z :=
  match n with
  | O => None
  | S n =>
    p ← get powers10 i;
    if Z.rem w p =? 0 then skip_last_digits n (i + 1) w (frac - 1) else Some frac
  end.

Definition decimal_actual_fraction (from : decimal_t) : option Z :=
  if frac from =? 0 then Some 0
  else
    '(frac, buf0) ← skip_last_words (S (length (buf from))) (buf from)
                      (Z.rem (frac from - 1) DIG_PER_DEC1 + 1) (frac from)
                      (ROUND_UP (intg from) + ROUND_UP (frac from) - 1);
    if frac >? 0 then
      w ← get (buf from) buf0;
      skip_last_digits 10 (DIG_PER_DEC1 - Z.rem (frac - 1) DIG_PER_DEC1) w frac
    else Some frac.

(** ** Integers *)

(** [for (intg1=1; from >= DIG_BASE; intg1++, from/=DIG_BASE) ;]. *)
Fixpoint count_words (n : nat) (from intg1 : Z) : option Z :=
  if from >=? DIG_BASE then
    match n with
    | O => None
    | S n => count_words n (from / DIG_BASE) (intg1 + 1)
    end
  else Some intg1.

(** [for (buf=to->buf+intg1; intg1; intg1--)]. *)
Fixpoint store_words (n : nat) (x : Z) (b : list Z) : option (list Z) :=
  match n with
  | O => Some b
  | S n =>
    let y := x / DIG_BASE in
    b ← put b (Z.of_nat n) (s32 (u64 (x - u64 (y * DIG_BASE))));
    store_words n y b
  end.

Definition ull2dec (from : Z) (to : decimal_t) : option (Z * decimal_t) :=
  intg1 ← count_words 8 from 1;
  let '(intg1, error) := if intg1 >? len to then (len to, E_DEC_OVERFLOW) else (intg1, E_DEC_OK) in
  b ← store_words (Z.to_nat intg1) from (buf to);
  Some (error, mk_dec (intg1 * DIG_PER_DEC1) 0 (len to) (sign to) b).

Definition ulonglong2decimal (from : Z) (to : decimal_t) : option (Z * decimal_t) :=
  ull2dec from (set_sign to false).

Definition longlong2decimal (from : Z) (to : decimal_t) : option (Z * decimal_t) :=
  if from <? 0 then ull2dec (u64 (s64 (- from))) (set_sign to true)
  else ull2dec (u64 from) (set_sign to false).

(** [for (frac=from->frac; frac > 0; frac-=DIG_PER_DEC1) if ( *buf++) ...]. *)
Fixpoint any_word (n : nat) (b : list Z) (i : Z) : option bool :=
  match n with
  | O => Some false
  | S n => w ← get b i; if negb (w =? 0) then Some true else any_word n b (i + 1)
  end.

(** The loop over the integer words; [inl] is the overflow return. *)
Fixpoint ull_words (n : nat) (b : list Z) (i x : Z) : option (Z + Z) :=
  match n with
  | O => Some (inr x)
  | S n =>
    let y := x in
    w ← get b i;
    let x := u64 (u64 (x * DIG_BASE) + u64 w) in
    if (y >? (2 ^ 64 - 1) / DIG_BASE) || (x <? y) then Some (inl (2 ^ 64 - 1))
    else ull_words n b (i + 1) x
  end.

(** The value and the error. *)
Definition decimal2ulonglong (from : decimal_t) : option (Z * Z) :=
  if sign from then Some (0, E_DEC_OVERFLOW)
  else
    let n := ROUND_UP (intg from) in
    r ← ull_words (Z.to_nat n) (buf from) 0 0;
    match r with
    | inl x => Some (x, E_DEC_OVERFLOW)
    | inr x =>
      t ← any_word (Z.to_nat (ROUND_UP (frac from))) (buf from) n;
      Some (x, if (t : bool) then E_DEC_TRUNCATED else E_DEC_OK)
    end.

(** The product and the difference are computed before the range is checked;
    the overflow, which C leaves undefined, wraps here, as the test for [x > y]
    expects. *)
Fixpoint ll_words (n : nat) (b : list Z) (i x : Z) : option (option Z) :=
  match n with
  | O => Some (Some x)
  | S n =>
    let y := x in
    w ← get b i;
    let x := s64 (s64 (x * DIG_BASE) - w) in
    if (y <? Z.quot (- 2 ^ 63) DIG_BASE) || (x >? y) then Some None
    else ll_words n b (i + 1) x
  end.

Definition decimal2longlong (from : decimal_t) : option (Z * Z) :=
  let n := ROUND_UP (intg from) in
  r ← ll_words (Z.to_nat n) (buf from) 0 0;
  match r with
  | None => Some (if sign from then - 2 ^ 63 else 2 ^ 63 - 1, E_DEC_OVERFLOW)
  | Some x =>
    if negb (sign from) && (x =? - 2 ^ 63) then Some (2 ^ 63 - 1, E_DEC_OVERFLOW)
    else
      t ← any_word (Z.to_nat (ROUND_UP (frac from))) (buf from) n;
      Some (if sign from then x else s64 (- x), if (t : bool) then E_DEC_TRUNCATED else E_DEC_OK)
  end.

(** ** Sums *)

Definition decimal_result_size (from1 from2 : decimal_t) (op : Z) (param : Z) : Z :=
  if op =? 45 then
    ROUND_UP (Z.max (intg from1) (intg from2)) + ROUND_UP (Z.max (frac from1) (frac from2))
  else if op =? 43 then
    ROUND_UP (Z.max (intg from1) (intg from2) + 1) + ROUND_UP (Z.max (frac from1) (frac from2))
  else if op =? 42 then
    ROUND_UP (intg from1 + intg from2) + ROUND_UP (frac from1) + ROUND_UP (frac from2)
  else if op =? 47 then
    ROUND_UP (intg from1 + intg from2 + 1 + frac from1 + frac from2 + param)
  else -1.

(** [while (...) *--buf0=*--buf1] for [n] words. *)
Fixpoint copy_down (n : nat) (b1 : list Z) (i1 : Z) (b0 : list Z) (i0 : Z) : option (list Z * Z) :=
  match n with
  | O => Some (b0, i0)
  | S n => w ← get b1 (i1 - 1); b0 ← put b0 (i0 - 1) w; copy_down n b1 (i1 - 1) b0 (i0 - 1)
  end.

(** [while (...) *--buf0=0] for [n] words. *)
Fixpoint zero_down (n : nat) (b0 : list Z) (i0 : Z) : option (list Z * Z) :=
  match n with
  | O => Some (b0, i0)
  | S n => b0 ← put b0 (i0 - 1) 0; zero_down n b0 (i0 - 1)
  end.

(** [while (...) ADD( *--buf0, *--buf1, *--buf2, carry)] for [n] words. *)
Fixpoint add_down (n : nat) (b1 : list Z) (i1 : Z) (b2 : list Z) (i2 : Z) (b0 : list Z) (i0 carry : Z)
  : option (list Z * Z * Z) :=
  match n with
  | O => Some (b0, i0, carry)
  | S n =>
    x ← get b1 (i1 - 1); y ← get b2 (i2 - 1);
    let '(a, carry) := ADD x y carry in
    b0 ← put b0 (i0 - 1) a;
    add_down n b1 (i1 - 1) b2 (i2 - 1) b0 (i0 - 1) carry
  end.

(** [while (...) ADD( *--buf0, *--buf1, 0, carry)] for [n] words. *)
Fixpoint carry_down (n : nat) (b1 : list Z) (i1 : Z) (b0 : list Z) (i0 carry : Z) : option (list Z * Z * Z) :=
  match n with
  | O => Some (b0, i0, carry)
  | S n =>
    x ← get b1 (i1 - 1);
    let '(a, carry) := ADD x 0 carry in
    b0 ← put b0 (i0 - 1) a;
    carry_down n b1 (i1 - 1) b0 (i0 - 1) carry
  end.

(** The three loops of do_add: [b1] has the longer fraction. *)
Definition add_loops (b1 : list Z) (intg1 frac1 : Z) (b2 : list Z) (intg2 frac2 : Z) (b0 : list Z) (i0 : Z)
  : option (list Z * Z * Z) :=
  let stop := intg1 + frac2 in
  let stop2 := if intg1 >? intg2 then intg1 - intg2 else 0 in
  '(b0, i0) ← copy_down (Z.to_nat (intg1 + frac1 - stop)) b1 (intg1 + frac1) b0 i0;
  '(b0, i0, carry) ← add_down (Z.to_nat (stop - stop2)) b1 stop b2 (intg2 + frac2) b0 i0 0;
  if intg1 >? intg2 then carry_down (Z.to_nat (intg1 - intg2)) b1 (intg1 - intg2) b0 i0 carry
  else carry_down (Z.to_nat (intg2 - intg1)) b2 (intg2 - intg1) b0 i0 carry.

Definition do_add (from1 from2 to : decimal_t) : option (Z * decimal_t) :=
  let intg1 := ROUND_UP (intg from1) in
  let intg2 := ROUND_UP (intg from2) in
  let frac1 := ROUND_UP (frac from1) in
  let frac2 := ROUND_UP (frac from2) in
  let frac0 := Z.max frac1 frac2 in
  let intg0 := Z.max intg1 intg2 in
  x ← (if intg1 >? intg2 then get (buf from1) 0
       else if intg2 >? intg1 then get (buf from2) 0
       else x ← get (buf from1) 0; y ← get (buf from2) 0; Some (s32 (x + y)));
  '(intg0, b0) ← (if x >? DIG_MAX - 1 then b0 ← put (buf to) 0 0; Some (intg0 + 1, b0)
                  else Some (intg0, buf to));
  let '(intg0, frac0, error) := FIX_INTG_FRAC_ERROR (len to) intg0 frac0 in
  if error =? E_DEC_OVERFLOW then
    to ← max_decimal (len to * DIG_PER_DEC1) 0 (set_buf to b0);
    Some (error, to)
  else
    let tofrac := Z.max (frac from1) (frac from2) in
    let '(tofrac, frac1, frac2, intg1, intg2) :=
      if negb (error =? 0) then
        (Z.min tofrac (frac0 * DIG_PER_DEC1), Z.min frac1 frac0, Z.min frac2 frac0,
         Z.min intg1 intg0, Z.min intg2 intg0)
      else (tofrac, frac1, frac2, intg1, intg2) in
    '(b0, i0, carry) ← (if frac1 >? frac2
                        then add_loops (buf from1) intg1 frac1 (buf from2) intg2 frac2 b0 (intg0 + frac0)
                        else add_loops (buf from2) intg2 frac2 (buf from1) intg1 frac1 b0 (intg0 + frac0));
    b0 ← (if negb (carry =? 0) then put b0 (i0 - 1) 1 else Some b0);
    Some (error, mk_dec (intg0 * DIG_PER_DEC1) tofrac (len to) (sign from1) b0).

(** ** Differences and comparison *)

(** [while (buf1 < stop1 && *buf1 == 0) buf1++]. *)
Fixpoint first_nonzero (n : nat) (b : list Z) (i : Z) : option Z :=
  match n with
  | O => Some i
  | S n => w ← get b i; if w =? 0 then first_nonzero n b (i + 1) else Some i
  end.

(** [while ((buf1 <= end1) && ( *end1 == 0)) end1--]. *)
Fixpoint last_nonzero (n : nat) (b : list Z) (i : Z) : option Z :=
  match n with
  | O => Some i
  | S n => w ← get b i; if w =? 0 then last_nonzero n b (i - 1) else Some i
  end.

(** [while (buf1 <=end1 && buf2 <= end2 && *buf1 == *buf2) buf1++, buf2++]
    and the comparison behind it: [None] if the numbers are equal, and
    otherwise the carry. *)
Fixpoint compare_words (n : nat) (b1 : list Z) (i1 end1 : Z) (b2 : list Z) (i2 end2 : Z)
  : option (option bool) :=
  match n with
  | O => None
  | S n =>
    if (i1 <=? end1) && (i2 <=? end2) then
      x ← get b1 i1; y ← get b2 i2;
      if x =? y then compare_words n b1 (i1 + 1) end1 b2 (i2 + 1) end2 else Some (Some (y >? x))
    else if i1 <=? end1 then Some (Some false)
    else if i2 <=? end2 then Some (Some true)
    else Some None
  end.

(** The leading words that are zero: the start and the number of words. *)
Definition strip_front (b : list Z) (intg : Z) : option (Z * Z) :=
  w ← get b 0;
  if w =? 0 then s ← first_nonzero (Z.to_nat intg) b 0; Some (s, intg - s) else Some (0, intg).

(** The first half of do_sub: [None] if the numbers are equal, and otherwise
    the carry, start1, intg1, frac1, start2, intg2 and frac2. *)
Definition sub_compare (from1 from2 : decimal_t) : option (option (bool * (Z * Z * Z) * (Z * Z * Z))) :=
  let stop1 := ROUND_UP (intg from1) in
  let stop2 := ROUND_UP (intg from2) in
  let frac1 := ROUND_UP (frac from1) in
  let frac2 := ROUND_UP (frac from2) in
  '(start1, intg1) ← strip_front (buf from1) stop1;
  '(start2, intg2) ← strip_front (buf from2) stop2;
  if intg2 >? intg1 then Some (Some (true, (start1, intg1, frac1), (start2, intg2, frac2)))
  else if intg2 =? intg1 then
    end1 ← last_nonzero (Z.to_nat (stop1 + frac1 - start1)) (buf from1) (stop1 + (frac1 - 1));
    end2 ← last_nonzero (Z.to_nat (stop2 + frac2 - start2)) (buf from2) (stop2 + (frac2 - 1));
    c ← compare_words (S (length (buf from1))) (buf from1) start1 end1 (buf from2) start2 end2;
    match c with
    | None => Some None
    | Some carry =>
      Some (Some (carry, (start1, intg1, end1 - stop1 + 1), (start2, intg2, end2 - stop2 + 1)))
    end
  else Some (Some (false, (start1, intg1, frac1), (start2, intg2, frac2))).

(** [while (...) SUB( *--buf0, 0, *--buf2, carry)] for [n] words. *)
Fixpoint neg_down (n : nat) (b2 : list Z) (i2 : Z) (b0 : list Z) (i0 carry : Z) : option (list Z * Z * Z) :=
  match n with
  | O => Some (b0, i0, carry)
  | S n =>
    y ← get b2 (i2 - 1);
    let '(a, carry) := SUB 0 y carry in
    b0 ← put b0 (i0 - 1) a;
    neg_down n b2 (i2 - 1) b0 (i0 - 1) carry
  end.

(** [while (...) SUB( *--buf0, *--buf1, *--buf2, carry)] for [n] words. *)
Fixpoint sub_down (n : nat) (b1 : list Z) (i1 : Z) (b2 : list Z) (i2 : Z) (b0 : list Z) (i0 carry : Z)
  : option (list Z * Z * Z * Z) :=
  match n with
  | O => Some (b0, i0, i1, carry)
  | S n =>
    x ← get b1 (i1 - 1); y ← get b2 (i2 - 1);
    let '(a, carry) := SUB x y carry in
    b0 ← put b0 (i0 - 1) a;
    sub_down n b1 (i1 - 1) b2 (i2 - 1) b0 (i0 - 1) carry
  end.

(** [while (carry && buf1 > start1) SUB( *--buf0, *--buf1, 0, carry)], where
    [n] words are left. *)
Fixpoint borrow_down (n : nat) (b1 : list Z) (i1 : Z) (b0 : list Z) (i0 carry : Z)
  : option (list Z * Z * Z * Z) :=
  match n with
  | O => Some (b0, i0, i1, carry)
  | S n =>
    if negb (carry =? 0) then
      x ← get b1 (i1 - 1);
      let '(a, carry) := SUB x 0 carry in
      b0 ← put b0 (i0 - 1) a;
      borrow_down n b1 (i1 - 1) b0 (i0 - 1) carry
    else Some (b0, i0, i1, carry)
  end.

(** The loops of do_sub; the first operand is the greater one. *)
Definition sub_loops (b1 : list Z) (start1 intg1 frac1 : Z) (b2 : list Z) (start2 intg2 frac2 : Z)
  (b0 : list Z) (i0 frac0 : Z) : option (list Z) :=
  let p1 := start1 + intg1 + frac1 in
  let p2 := start2 + intg2 + frac2 in
  '(b0, i0, p1, p2, carry) ←
    (if frac1 >? frac2 then
       '(b0, i0) ← zero_down (Z.to_nat (frac0 - frac1)) b0 i0;
       '(b0, i0) ← copy_down (Z.to_nat (frac1 - frac2)) b1 p1 b0 i0;
       Some (b0, i0, start1 + intg1 + frac2, p2, 0)
     else
       '(b0, i0) ← zero_down (Z.to_nat (frac0 - frac2)) b0 i0;
       '(b0, i0, carry) ← neg_down (Z.to_nat (frac2 - frac1)) b2 p2 b0 i0 0;
       Some (b0, i0, p1, start2 + intg2 + frac1, carry));
  '(b0, i0, p1, carry) ← sub_down (Z.to_nat (p2 - start2)) b1 p1 b2 p2 b0 i0 carry;
  '(b0, i0, p1, _) ← borrow_down (Z.to_nat (p1 - start1)) b1 p1 b0 i0 carry;
  '(b0, i0) ← copy_down (Z.to_nat (p1 - start1)) b1 p1 b0 i0;
  '(b0, _) ← zero_down (Z.to_nat i0) b0 i0;
  Some b0.

(** The second half of do_sub; [sgn] is the sign of the result. *)
Definition sub_greater (from1 from2 to : decimal_t) (sgn : bool) (p1 p2 : Z * Z * Z) (frac0 : Z)
  : option (Z * decimal_t) :=
  let '(start1, intg1, frac1) := p1 in
  let '(start2, intg2, frac2) := p2 in
  let '(intg1, frac0, error) := FIX_INTG_FRAC_ERROR (len to) intg1 frac0 in
  let tofrac := Z.max (frac from1) (frac from2) in
  let '(tofrac, frac1, frac2, intg2) :=
    if negb (error =? 0) then
      (Z.min tofrac (frac0 * DIG_PER_DEC1), Z.min frac1 frac0, Z.min frac2 frac0, Z.min intg2 intg1)
    else (tofrac, frac1, frac2, intg2) in
  b0 ← sub_loops (buf from1) start1 intg1 frac1 (buf from2) start2 intg2 frac2
         (buf to) (intg1 + frac0) frac0;
  Some (error, mk_dec (intg1 * DIG_PER_DEC1) tofrac (len to) sgn b0).

Definition do_sub (from1 from2 to : decimal_t) : option (Z * decimal_t) :=
  let frac0 := Z.max (ROUND_UP (frac from1)) (ROUND_UP (frac from2)) in
  c ← sub_compare from1 from2;
  match c with
  | None => to ← decimal_make_zero to; Some (E_DEC_OK, to)
  | Some (carry, p1, p2) =>
    if (carry : bool) then sub_greater from2 from1 to (negb (sign from1)) p2 p1 frac0
    else sub_greater from1 from2 to (sign from1) p1 p2 frac0
  end.

(** do_sub with a null [to]. *)
Definition do_cmp (from1 from2 : decimal_t) : option Z :=
  c ← sub_compare from1 from2;
  match c with
  | None => Some 0
  | Some (carry, _, _) => Some (if eqb carry (sign from1) then 1 else -1)
  end.

Definition decimal_add (from1 from2 to : decimal_t) : option (Z * decimal_t) :=
  if eqb (sign from1) (sign from2) then do_add from1 from2 to else do_sub from1 from2 to.

Definition decimal_sub (from1 from2 to : decimal_t) : option (Z * decimal_t) :=
  if eqb (sign from1) (sign from2) then do_sub from1 from2 to else do_add from1 from2 to.

Definition decimal_cmp (from1 from2 : decimal_t) : option Z :=
  if eqb (sign from1) (sign from2) then do_cmp from1 from2
  else Some (if sign from1 then -1 else 1).

Definition decimal_is_zero (from : decimal_t) : option bool :=
  t ← any_word (Z.to_nat (ROUND_UP (intg from) + ROUND_UP (frac from))) (buf from) 0;
  Some (negb t).
