(* ===== verification/DecMul.v ===== *)
(** * Fixed point numbers: products

    decimal_mul of strings/decimal.c. *)

From stdpp Require Import prelude list list_numbers numbers.
From Stdlib Require Import ZArith Lia ZifyNat Bool.
From S2P Require Import Prelude Decimal.

Definition NOT_FIXED_DEC : Z := 31.

(** The inner loop, over [n] words of the second factor from [i2] down; [x] is
    the word of the first factor. *)
Fixpoint mul_inner (n : nat) (x : Z) (b2 : list Z) (i2 : Z) (b0 : list Z) (i0 carry : Z)
  : option (list Z * Z * Z) :=
  match n with
  | O => Some (b0, i0, carry)
  | S n =>
    y ← get b2 i2;
    let p := s64 (x * y) in
    let hi := s32 (Z.quot p DIG_BASE) in
    let lo := s32 (s64 (p - s64 (hi * DIG_BASE))) in
    w ← get b0 i0;
    let '(a, carry) := ADD2 w lo carry in
    b0 ← put b0 i0 a;
    mul_inner n x b2 (i2 - 1) b0 (i0 - 1) (s32 (carry + hi))
  end.

(** [for (buf0--; carry; buf0--)]; [inl] is the overflow return. *)
Fixpoint mul_carry (n : nat) (b0 : list Z) (i0 carry : Z) : option (list Z + list Z) :=
  if negb (carry =? 0) then
    if i0 <? 0 then Some (inl b0)
    else
      match n with
      | O => None
      | S n =>
        w ← get b0 i0;
        let '(a, carry) := ADD w 0 carry in
        b0 ← put b0 i0 a;
        mul_carry n b0 (i0 - 1) carry
      end
  else Some (inr b0).

(** What follows the inner loop. *)
Definition mul_carries (b0 : list Z) (i0 carry : Z) : option (list Z + list Z) :=
  if negb (carry =? 0) then
    if i0 <? 0 then Some (inl b0)
    else
      w ← get b0 i0;
      let '(a, carry) := ADD2 w 0 carry in
      b0 ← put b0 i0 a;
      mul_carry (length b0) b0 (i0 - 1) carry
  else Some (inr b0).

(** The outer loop, over [n1] words of the first factor from [i1] down. *)
Fixpoint mul_outer (n1 : nat) (b1 : list Z) (i1 : Z) (n2 : nat) (b2 : list Z) (start2 : Z)
  (b0 : list Z) (start0 : Z) : option (list Z + list Z) :=
  match n1 with
  | O => Some (inr b0)
  | S n1 =>
    (* the word is read in the inner loop *)
    '(b0, i0, carry) ← (match n2 with
                        | O => Some (b0, start0, 0)
                        | S _ => x ← get b1 i1; mul_inner n2 x b2 start2 b0 start0 0
                        end);
    r ← mul_carries b0 i0 carry;
    match r with
    | inl b0 => Some (inl b0)
    | inr b0 => mul_outer n1 b1 (i1 - 1) n2 b2 start2 b0 (start0 - 1)
    end
  end.

(** The loop that removes leading zero words: the place, intg and d_to_move. *)
Fixpoint mul_skip (n : nat) (b0 : list Z) (i intg d : Z) : option (Z * Z * Z) :=
  w ← get b0 i;
  if (w =? 0) && (intg >? DIG_PER_DEC1) then
    match n with
    | O => None
    | S n => mul_skip n b0 (i + 1) (intg - DIG_PER_DEC1) (d - 1)
    end
  else Some (i, intg, d).

(** [for (; d_to_move--; cur_d++, buf1++) *cur_d= *buf1]. *)
Fixpoint move_up (n : nat) (b0 : list Z) (cur_d i : Z) : option (list Z) :=
  match n with
  | O => Some b0
  | S n => w ← get b0 i; b0 ← put b0 cur_d w; move_up n b0 (cur_d + 1) (i + 1)
  end.

(** The numbers of words that are used when the result does not fit: intg1,
    frac1, intg2 and frac2. *)
Definition mul_bounded (intg1 frac1 intg2 frac2 iii jjj intg0 frac0 : Z) : Z * Z * Z * Z :=
  if iii >? intg0 then
    let iii := iii - intg0 in
    let jjj := iii .>> 1 in
    (intg1 - jjj, 0, intg2 - (iii - jjj), 0)
  else
    let jjj := jjj - frac0 in
    let iii := jjj .>> 1 in
    if frac1 <=? frac2 then (intg1, frac1 - iii, intg2, frac2 - (jjj - iii))
    else (intg1, frac1 - (jjj - iii), intg2, frac2 - iii).

(** What follows the multiplication. *)
Definition mul_finish (to : decimal_t) (intg0 frac0 : Z) : option decimal_t :=
  to ← (if sign to then
          t ← any_word (Z.to_nat (intg0 + frac0)) (buf to) 0;
          if (t : bool) then Some to else decimal_make_zero to
        else Some to);
  '(i, intg', d_to_move) ← mul_skip (length (buf to)) (buf to) 0 (intg to) (intg0 + ROUND_UP (frac to));
  let to := set_intg to intg' in
  if 0 <? i then b0 ← move_up (Z.to_nat d_to_move) (buf to) 0 i; Some (set_buf to b0) else Some to.

Definition decimal_mul (from1 from2 to : decimal_t) : option (Z * decimal_t) :=
  let intg1 := ROUND_UP (intg from1) in
  let intg2 := ROUND_UP (intg from2) in
  let frac1 := ROUND_UP (frac from1) in
  let frac2 := ROUND_UP (frac from2) in
  let iii := ROUND_UP (intg from1 + intg from2) in
  let jjj := frac1 + frac2 in
  let '(intg0, frac0, error) := FIX_INTG_FRAC_ERROR (len to) iii jjj in
  let tofrac := Z.min (frac from1 + frac from2) NOT_FIXED_DEC in
  let '(tofrac, (intg1', frac1', intg2', frac2')) :=
    if negb (error =? 0)
    then (Z.min tofrac (frac0 * DIG_PER_DEC1), mul_bounded intg1 frac1 intg2 frac2 iii jjj intg0 frac0)
    else (tofrac, (intg1, frac1, intg2, frac2)) in
  let to := mk_dec (intg0 * DIG_PER_DEC1) tofrac (len to) (xorb (sign from1) (sign from2)) (buf to) in
  '(b0, _) ← fill (Z.to_nat (intg0 + frac0)) 0 (buf to) 0;
  r ← mul_outer (Z.to_nat (intg1' + frac1')) (buf from1) (intg1 + frac1' - 1)
        (Z.to_nat (intg2' + frac2')) (buf from2) (intg2 + frac2' - 1) b0 (intg0 + frac0 - 1);
  match r with
  | inl b0 => Some (E_DEC_OVERFLOW, set_buf to b0)
  | inr b0 => to ← mul_finish (set_buf to b0) intg0 frac0; Some (error, to)
  end.
