(* ===== verification/DecBin.v ===== *)
(** * Fixed point numbers: the binary format

    decimal2bin, bin2decimal, decimal_size and decimal_bin_size of
    strings/decimal.c, and the byte order macros they use of
    include/myisampack.h.  A number is stored in a fixed number of bytes that
    only depends on the precision and the scale. *)

From stdpp Require Import prelude list list_numbers numbers.
From Stdlib Require Import ZArith Lia ZifyNat Bool.
From S2P Require Import Prelude Decimal.

(** ** Big-endian integers: include/myisampack.h *)

Definition mi_int1store (a : Z) : list Z := [u8 a].
Definition mi_int2store (a : Z) : list Z := [u8 (u32 a .>> 8); u8 (u32 a)].
Definition mi_int3store (a : Z) : list Z := [u8 (u64 a .>> 16); u8 (u64 a .>> 8); u8 (u64 a)].
Definition mi_int4store (a : Z) : list Z :=
  [u8 (u64 a .>> 24); u8 (u64 a .>> 16); u8 (u64 a .>> 8); u8 (u64 a)].

Definition mi_sint1korr (p : list Z) : option Z :=
  match p with a :: _ => Some (s8 a) | _ => None end.
Definition mi_sint2korr (p : list Z) : option Z :=
  match p with a :: b :: _ => Some (s16 (b + s8 a * 2 ^ 8)) | _ => None end.
Definition mi_sint3korr (p : list Z) : option Z :=
  match p with
  | a :: b :: c :: _ =>
    Some (s32 (if test (a .& 128) then (255 .<< 24) .| (a .<< 16) .| (b .<< 8) .| c
               else (a .<< 16) .| (b .<< 8) .| c))
  | _ => None
  end.
Definition mi_sint4korr (p : list Z) : option Z :=
  match p with
  | a :: b :: c :: d :: _ => Some (s32 (d + b * 2 ^ 16 + c * 2 ^ 8 + s8 a * 2 ^ 24))
  | _ => None
  end.

(** [switch (i)] around a store or a read of [i] bytes. *)
Definition store_int (i x : Z) : option (list Z) :=
  if i =? 1 then Some (mi_int1store x)
  else if i =? 2 then Some (mi_int2store x)
  else if i =? 3 then Some (mi_int3store x)
  else if i =? 4 then Some (mi_int4store x)
  else None.

Definition read_int (i : Z) (p : list Z) : option Z :=
  if i =? 1 then mi_sint1korr p
  else if i =? 2 then mi_sint2korr p
  else if i =? 3 then mi_sint3korr p
  else if i =? 4 then mi_sint4korr p
  else None.

(** ** Sizes *)

Definition sizeof_dec1 : Z := 4.

(** The bytes for [n] digits. *)
Definition digits_size (n : Z) : option Z :=
  let n0 := Z.quot n DIG_PER_DEC1 in
  d ← get dig2bytes (n - n0 * DIG_PER_DEC1);
  Some (n0 * sizeof_dec1 + d).

Definition decimal_size (precision scale : Z) : Z := ROUND_UP (precision - scale) + ROUND_UP scale.

Definition decimal_bin_size (precision scale : Z) : option Z :=
  a ← digits_size (precision - scale); b ← digits_size scale; Some (a + b).

(** ** decimal2bin *)

(** The bytes at [to], which moves behind them. *)
Fixpoint put_bytes (bs : list Z) (out : list Z) (to : Z) : option (list Z * Z) :=
  match bs with
  | [] => Some (out, to)
  | x :: bs => out ← put out to x; put_bytes bs out (to + 1)
  end.

(** [while (frac1x < lim && dig2bytes[frac1x] == i) frac1x++]. *)
Fixpoint widen (n : nat) (frac1x lim i : Z) : option Z :=
  if frac1x <? lim then
    d ← get dig2bytes frac1x;
    if d =? i then
      match n with
      | O => None
      | S n => widen n (frac1x + 1) lim i
      end
    else Some frac1x
  else Some frac1x.

(** The loop over the [n] full words. *)
Fixpoint store_full (n : nat) (b1 : list Z) (buf1 mask : Z) (out : list Z) (to : Z)
  : option (list Z * Z * Z) :=
  match n with
  | O => Some (out, to, buf1)
  | S n =>
    w ← get b1 buf1;
    '(out, to) ← put_bytes (mi_int4store (w .^ mask)) out to;
    store_full n b1 (buf1 + 1) mask out to
  end.

(** The intg1x part. *)
Definition store_first (intg1x : Z) (b1 : list Z) (buf1 mask : Z) (out : list Z) (to : Z)
  : option (list Z * Z * Z) :=
  if negb (intg1x =? 0) then
    i ← get dig2bytes intg1x; w ← get b1 buf1; p ← get powers10 intg1x;
    bs ← store_int i (Z.rem w p .^ mask);
    '(out, to) ← put_bytes bs out to;
    Some (out, to, buf1 + 1)
  else Some (out, to, buf1).

(** The frac1x part. *)
Definition store_last (frac1x frac1 frac0 frac0x : Z) (b1 : list Z) (buf1 mask : Z) (out : list Z) (to : Z)
  : option (list Z * Z) :=
  if negb (frac1x =? 0) then
    i ← get dig2bytes frac1x;
    frac1x ← widen 10 frac1x (if frac1 <? frac0 then DIG_PER_DEC1 else frac0x) i;
    w ← get b1 buf1; p ← get powers10 (DIG_PER_DEC1 - frac1x);
    bs ← store_int i (Z.quot w p .^ mask);
    put_bytes bs out to
  else Some (out, to).

(** frac1, frac1x, fsize0 and the error after the fraction is fitted. *)
Definition fit_frac (frac0 frac0x fsize0 frac1 frac1x fsize1 error : Z) : Z * Z * Z * Z :=
  if fsize0 <? fsize1 then (frac0, frac0x, fsize0, E_DEC_TRUNCATED)
  else if (fsize0 >? fsize1) && negb (frac1x =? 0) then
    if frac0 =? frac1 then (frac1, frac0x, fsize1, error) else (frac1 + 1, 0, fsize0, error)
  else (frac1, frac1x, fsize0, error).

(** The error and the bytes at [to]. *)
Definition decimal2bin (from : decimal_t) (to : list Z) (precision scale : Z) : option (Z * list Z) :=
  let mask := if sign from then -1 else 0 in
  let intg' := precision - scale in
  let intg0 := Z.quot intg' DIG_PER_DEC1 in
  let frac0 := Z.quot scale DIG_PER_DEC1 in
  let intg0x := intg' - intg0 * DIG_PER_DEC1 in
  let frac0x := scale - frac0 * DIG_PER_DEC1 in
  let frac1 := Z.quot (frac from) DIG_PER_DEC1 in
  let frac1x := frac from - frac1 * DIG_PER_DEC1 in
  isize0 ← digits_size intg'; fsize0 ← digits_size scale; fsize1 ← digits_size (frac from);
  '(buf1, from_intg) ← remove_leading_zeroes from;
  let '(mask, intg', b1, buf1) :=
    if from_intg + fsize1 =? 0 then (0, 1, [0], 0) else (mask, intg', buf from, buf1) in
  let intg1 := Z.quot from_intg DIG_PER_DEC1 in
  let intg1x := from_intg - intg1 * DIG_PER_DEC1 in
  isize1 ← digits_size from_intg;
  '(out, t, buf1, intg1, intg1x, error) ←
    (if intg' <? from_intg then
       Some (to, 0, buf1 + (intg1 - intg0 + b2z (intg1x >? 0) - b2z (intg0x >? 0)), intg0, intg0x, E_DEC_OVERFLOW)
     else
       '(out, t) ← fill (Z.to_nat (isize0 - isize1)) (u8 mask) to 0;
       Some (out, t, buf1, intg1, intg1x, E_DEC_OK));
  let '(frac1, frac1x, fsize0', error) := fit_frac frac0 frac0x fsize0 frac1 frac1x fsize1 error in
  '(out, t, buf1) ← store_first intg1x b1 buf1 mask out t;
  '(out, t, buf1) ← store_full (Z.to_nat (intg1 + frac1)) b1 buf1 mask out t;
  '(out, t) ← store_last frac1x frac1 frac0 frac0x b1 buf1 mask out t;
  '(out, _) ← fill (Z.to_nat (Z.min (fsize0' - fsize1) (fsize0 + isize0 - t))) (u8 mask) out t;
  c ← get out 0;
  out ← put out 0 (c .^ 128);
  Some (error, out).

(** ** bin2decimal *)

(** Words are read at [from] and stored at the place [i] of [b]; [lead] is
    [true] in the integer part, where leading zero words are left out, [drop]
    digits each.  The error return is [inl]. *)
Definition keep_word (lead : bool) (b : list Z) (i intg drop w : Z) : Z * Z :=
  if negb lead || (i >? 0) || negb (w =? 0) then (i + 1, intg) else (i, intg - drop).

Fixpoint read_full (n : nat) (lead : bool) (from : list Z) (mask : Z) (b : list Z) (i intg : Z)
  : option (list Z + (list Z * list Z * Z * Z)) :=
  match n with
  | O => Some (inr (from, b, i, intg))
  | S n =>
    x ← mi_sint4korr from;
    let w := x .^ mask in
    b ← put b i w;
    if u32 w >? DIG_MAX then Some (inl b)
    else
      let '(i, intg) := keep_word lead b i intg DIG_PER_DEC1 w in
      read_full n lead (drop 4 from) mask b i intg
  end.

Definition read_first (intg0x : Z) (from : list Z) (mask : Z) (b : list Z) (intg : Z)
  : option (list Z + (list Z * list Z * Z * Z)) :=
  if negb (intg0x =? 0) then
    i ← get dig2bytes intg0x;
    x ← read_int i from;
    let w := x .^ mask in
    b ← put b 0 w;
    p ← get powers10 (intg0x + 1);
    if u64 w >=? p then Some (inl b)
    else
      let '(j, intg) := keep_word true b 0 intg intg0x w in
      Some (inr (drop (Z.to_nat i) from, b, j, intg))
  else Some (inr (from, b, 0, intg)).

Definition read_last (frac0x : Z) (from : list Z) (mask : Z) (b : list Z) (i : Z) : option (list Z + list Z) :=
  if negb (frac0x =? 0) then
    n ← get dig2bytes frac0x;
    x ← read_int n from;
    p ← get powers10 (DIG_PER_DEC1 - frac0x);
    let w := s32 ((x .^ mask) * p) in
    b ← put b i w;
    if u32 w >? DIG_MAX then Some (inl b) else Some (inr b)
  else Some (inr b).

(** The error return. *)
Definition bin_error (to : decimal_t) (b : list Z) : option (Z * decimal_t) :=
  to ← decimal_make_zero (set_buf to b); Some (E_DEC_BAD_NUM, to).

Definition bin2decimal (from : list Z) (to : decimal_t) (precision scale : Z) : option (Z * decimal_t) :=
  let intg' := precision - scale in
  let intg0 := Z.quot intg' DIG_PER_DEC1 in
  let frac0 := Z.quot scale DIG_PER_DEC1 in
  let intg0x := intg' - intg0 * DIG_PER_DEC1 in
  let frac0x := scale - frac0 * DIG_PER_DEC1 in
  let words := intg0 + b2z (intg0x >? 0) in
  c ← get from 0;
  let mask := if test (c .& 128) then 0 else -1 in
  bin_size ← decimal_bin_size precision scale;
  (* the copy of the bytes *)
  d_copy ← (if bin_size <=? Z.of_nat (length from) then put (take (Z.to_nat bin_size) from) 0 (c .^ 128) else None);
  let '(intg1, frac1, error) := FIX_INTG_FRAC_ERROR (len to) words (frac0 + b2z (frac0x >? 0)) in
  '(d_copy, intg0, intg0x, frac0, frac0x) ←
    (if negb (error =? 0) then
       if intg1 <? words then
         d ← get dig2bytes intg0x;
         Some (drop (Z.to_nat (d + sizeof_dec1 * (intg0 - intg1))) d_copy, intg1, 0, 0, 0)
       else Some (d_copy, intg0, intg0x, frac1, 0)
     else Some (d_copy, intg0, intg0x, frac0, frac0x));
  let to := mk_dec (intg0 * DIG_PER_DEC1 + intg0x) (frac0 * DIG_PER_DEC1 + frac0x) (len to)
              (negb (mask =? 0)) (buf to) in
  r ← read_first intg0x d_copy mask (buf to) (intg to);
  match r with
  | inl b => bin_error to b
  | inr (p, b, i, intg') =>
    r ← read_full (Z.to_nat intg0) true p mask b i intg';
    match r with
    | inl b => bin_error to b
    | inr (p, b, i, intg') =>
      r ← read_full (Z.to_nat frac0) false p mask b i intg';
      match r with
      | inl b => bin_error to b
      | inr (p, b, i, intg') =>
        r ← read_last frac0x p mask b i;
        match r with
        | inl b => bin_error to b
        | inr b =>
          let to := set_intg (set_buf to b) intg' in
          if (intg' =? 0) && (frac to =? 0) then to ← decimal_make_zero to; Some (error, to)
          else Some (error, to)
        end
      end
    end
  end.
