(* ===== verification/DecRound.v ===== *)
(** * Fixed point numbers: rounding

    decimal_round of strings/decimal.c.  The result may be stored over the
    operand: [same] says whether [to] is [from]. *)

From stdpp Require Import prelude list list_numbers numbers.
From Stdlib Require Import ZArith Lia ZifyNat Bool.
From S2P Require Import Prelude Decimal.

Definition mode_eqb (a b : decimal_round_mode) : bool :=
  match a, b with
  | TRUNCATE, TRUNCATE | HALF_EVEN, HALF_EVEN | HALF_UP, HALF_UP | CEILING, CEILING | FLOOR, FLOOR => true
  | _, _ => false
  end.

Definition round_digit_of (mode : decimal_round_mode) (sign : bool) : Z :=
  match mode with
  | HALF_UP | HALF_EVEN => 5
  | CEILING => if sign then 10 else 0
  | FLOOR => if sign then 0 else 10
  | TRUNCATE => 10
  end.

(** [for (; p0 > buf0; p0--)]: is one of the [n] words up to [p0] not zero? *)
Fixpoint any_above (n : nat) (b : list Z) (p0 : Z) : option bool :=
  match n with
  | O => Some false
  | S n => w ← get b p0; if negb (w =? 0) then Some true else any_above n b (p0 - 1)
  end.

(** do_inc: is the number cut behind the word [i] to be incremented? *)
Definition round_inc (mode : decimal_round_mode) (round_digit : Z) (b : list Z) (i : Z) (frac0 frac1 intg0 : Z)
  : option bool :=
  if round_digit =? 0 then any_above (Z.to_nat (frac1 - frac0)) b (i + (frac1 - frac0))
  else if round_digit =? 5 then
    x ← get b (i + 1);
    let x := Z.quot x DIG_MASK in
    if x >? 5 then Some true
    else if x =? 5 then
      if mode_eqb mode HALF_UP then Some true
      else if frac0 + intg0 >? 0 then w ← get b i; Some (test (w .& 1)) else Some false
    else Some false
  else Some false.

(** The word [w] cut at a digit inside of it. *)
Definition round_word (mode : decimal_round_mode) (round_digit w p : Z) : Z :=
  let x := Z.quot w p in
  let y := Z.rem x 10 in
  let up := (y >? round_digit) ||
            ((round_digit =? 5) && (y =? 5) && (mode_eqb mode HALF_UP || test (Z.quot x 10 .& 1))) in
  s32 (p * ((if up then x + 10 else x) - y)).

(** The increment at the cut: the buffer and the place of the last word, or the
    return of zero ([None] inside). *)
Definition round_cut (mode : decimal_round_mode) (round_digit : Z) (b : list Z) (scale frac0 frac1 intg0 : Z)
  : option (option (list Z * Z)) :=
  let i := intg0 + frac0 - 1 in
  if scale =? frac0 * DIG_PER_DEC1 then
    do_inc ← round_inc mode round_digit b i frac0 frac1 intg0;
    if (do_inc : bool) then
      if frac0 + intg0 >? 0 then w ← get b i; b ← put b i (s32 (w + 1)); Some (Some (b, i))
      else b ← put b (i + 1) DIG_BASE; Some (Some (b, i + 1))
    else if frac0 + intg0 =? 0 then Some None
    else Some (Some (b, i))
  else
    p ← get powers10 (frac0 * DIG_PER_DEC1 - scale - 1);
    w ← get b i;
    b ← put b i (round_word mode round_digit w p);
    Some (Some (b, i)).

(** [while (carry && --buf1 >= to->buf) ADD( *buf1, *buf1, 0, carry)], with [n]
    words in front: the buffer, the place and the carry. *)
Fixpoint round_carry (n : nat) (b : list Z) (i : Z) : option (list Z * Z * Z) :=
  match n with
  | O => Some (b, i - 1, 1)
  | S n =>
    w ← get b (i - 1);
    let '(a, carry) := ADD w 0 1 in
    b ← put b (i - 1) a;
    if negb (carry =? 0) then round_carry n b (i - 1) else Some (b, i - 1, 0)
  end.

(** [for (; buf1 > to->buf; buf1--) buf1[0]=buf1[-1]] from the place [n]. *)
Fixpoint shift_right (n : nat) (b : list Z) : option (list Z) :=
  match n with
  | O => Some b
  | S m => w ← get b (Z.of_nat m); b ← put b (Z.of_nat n) w; shift_right m b
  end.

(** [for (;;)]: the last word that is not zero, from [i] down; [None] inside if
    there is none. *)
Fixpoint last_word (n : nat) (b : list Z) (i : Z) : option (option Z) :=
  match n with
  | O => None
  | S n =>
    w ← get b i;
    if negb (w =? 0) then Some (Some i)
    else if i =? 0 then Some None
    else last_word n b (i - 1)
  end.

(** The end: [buf1] is at [i]. *)
Definition round_done (to : decimal_t) (b : list Z) (i intg' scale error : Z) : option (Z * decimal_t) :=
  let first_dig := Z.rem intg' DIG_PER_DEC1 in
  intg' ← (if negb (first_dig =? 0) then
             w ← get b i; p ← get powers10 first_dig; Some (if w >=? p then intg' + 1 else intg')
           else Some intg');
  Some (error, mk_dec intg' (if scale <? 0 then 0 else scale) (len to) (sign to) b).

(** What follows the increment. *)
Definition round_finish (to : decimal_t) (b : list Z) (i scale frac0 frac1 intg0 error : Z)
  : option (Z * decimal_t) :=
  b ← (if frac0 <? frac1 then
         let s := if (scale =? 0) && (intg0 =? 0) then 1 else intg0 + frac0 in
         '(b, _) ← fill (Z.to_nat (len to - s)) 0 b s; Some b
       else Some b);
  w ← get b i;
  if w >=? DIG_BASE then
    b ← put b i (w - DIG_BASE);
    '(b, i, carry) ← round_carry (Z.to_nat i) b i;
    if negb (carry =? 0) then
      let '(frac0, scale, error) :=
        if frac0 + intg0 >=? len to then (frac0 - 1, (frac0 - 1) * DIG_PER_DEC1, E_DEC_TRUNCATED)
        else (frac0, scale, error) in
      b ← shift_right (Z.to_nat (intg0 + Z.max frac0 0)) b;
      b ← put b 0 1;
      round_done to b 0 (intg to + 1) scale error
    else round_done to b i (intg to) scale error
  else
    r ← last_word (S (length b)) b i;
    match r with
    | Some i => round_done to b i (intg to) scale error
    | None =>
      '(b, _) ← fill (Z.to_nat (frac0 + 1)) 0 b 0;
      Some (E_DEC_OK, mk_dec 1 (Z.max scale 0) (len to) false b)
    end.

(** [while (buf0 < p0) *(--p1) = *(--p0)]. *)
Definition round_copy (from to : decimal_t) (n intg0 : Z) : option decimal_t :=
  '(b, _) ← copy_down (Z.to_nat n) (buf from) n (buf to) n;
  Some (mk_dec (Z.min intg0 (len to) * DIG_PER_DEC1) (frac to) (len to) (sign from) b).

Definition decimal_round (same : bool) (from to : decimal_t) (scale : Z) (mode : decimal_round_mode)
  : option (Z * decimal_t) :=
  let to := if same then from else to in
  let frac0 := if scale >? 0 then ROUND_UP scale else Z.quot scale DIG_PER_DEC1 in
  let frac1 := ROUND_UP (frac from) in
  let intg0 := ROUND_UP (intg from) in
  let round_digit := round_digit_of mode (sign from) in
  let '(frac0, scale, error) :=
    if frac0 + intg0 >? len to then (len to - intg0, (len to - intg0) * DIG_PER_DEC1, E_DEC_TRUNCATED)
    else (frac0, scale, E_DEC_OK) in
  if scale + intg from <? 0 then to ← decimal_make_zero to; Some (E_DEC_OK, to)
  else
    to ← (if same then Some to else round_copy from to (intg0 + Z.max frac1 frac0) intg0);
    if frac0 >? frac1 then
      '(b, _) ← fill (Z.to_nat (frac0 - frac1)) 0 (buf to) (intg0 + frac1);
      Some (error, set_frac (set_buf to b) scale)
    else if scale >=? frac from then Some (error, set_frac to scale)
    else
      r ← round_cut mode round_digit (buf to) scale frac0 frac1 intg0;
      match r with
      | None => to ← decimal_make_zero to; Some (E_DEC_OK, to)
      | Some (b, i) => round_finish to b i scale frac0 frac1 intg0 error
      end.
