(* ===== verification/DecText.v ===== *)
(** * Fixed point numbers: strings and shifts

    decimal2string, internal_str2dec, digits_bounds, the mini shifts and
    decimal_shift of strings/decimal.c.  A text is a list of bytes; the text
    that decimal2string writes goes to a buffer, in which a write outside is
    [None]. *)

From stdpp Require Import prelude list list_numbers numbers.
From Stdlib Require Import ZArith Lia ZifyNat Bool.
From S2P Require Import Prelude Ctype IntConv Decimal DecRound.

(** ** decimal2string *)

(** [for (i=n; i; i--) *s1++= the next digit of x]. *)
Fixpoint frac_digits (n : nat) (x : Z) (out : list Z) (s1 : Z) : option (list Z * Z) :=
  match n with
  | O => Some (out, s1)
  | S n =>
    let y := Z.quot x DIG_MASK in
    out ← put out s1 (u8 (48 + u8 y));
    frac_digits n (s32 (s32 (x - s32 (y * DIG_MASK)) * 10)) out (s1 + 1)
  end.

(** [for (; frac>0; frac-=DIG_PER_DEC1)] over [n] words. *)
Fixpoint frac_words (n : nat) (frac : Z) (b : list Z) (i : Z) (out : list Z) (s1 : Z) : option (list Z * Z) :=
  match n with
  | O => Some (out, s1)
  | S n =>
    x ← get b i;
    '(out, s1) ← frac_digits (Z.to_nat (Z.min frac DIG_PER_DEC1)) x out s1;
    frac_words n (frac - DIG_PER_DEC1) b (i + 1) out s1
  end.

(** [for (i=n; i; i--) *--s= the last digit of x]. *)
Fixpoint intg_digits (n : nat) (x : Z) (out : list Z) (s : Z) : option (list Z * Z) :=
  match n with
  | O => Some (out, s)
  | S n =>
    let y := Z.quot x 10 in
    out ← put out (s - 1) (u8 (48 + u8 (x - y * 10)));
    intg_digits n y out (s - 1)
  end.

(** [for (buf=...; intg>0; intg-=DIG_PER_DEC1)] over [n] words. *)
Fixpoint intg_words (n : nat) (intg : Z) (b : list Z) (i : Z) (out : list Z) (s : Z) : option (list Z * Z) :=
  match n with
  | O => Some (out, s)
  | S n =>
    x ← get b (i - 1);
    '(out, s) ← intg_digits (Z.to_nat (Z.min intg DIG_PER_DEC1)) x out s;
    intg_words n (intg - DIG_PER_DEC1) b (i - 1) out s
  end.

(** [for(; fill; fill--) *s++=filler]; a negative count does not end. *)
Definition fill_chars (n filler : Z) (out : list Z) (s : Z) : option (list Z * Z) :=
  if n <? 0 then None else fill (Z.to_nat n) filler out s.

(** The widths: intg, frac, len, the error, and [*to_len] if it is set. *)
Definition string_widths (sgn intg frac intg_len frac_len to_len fixed_precision fixed_decimals fixed_intg : Z)
  : Z * Z * Z * Z :=
  let len := sgn + intg_len + b2z (test frac) + frac_len in
  if test fixed_precision then
    let '(error, frac) := if frac >? fixed_decimals then (E_DEC_TRUNCATED, fixed_decimals) else (E_DEC_OK, frac) in
    let '(error, intg) := if intg >? fixed_intg then (E_DEC_OVERFLOW, fixed_intg) else (error, intg) in
    (intg, frac, len, error)
  else if len >? to_len - 1 then
    let j := len - (to_len - 1) in
    let error := if test frac && (j <=? frac + 1) then E_DEC_TRUNCATED else E_DEC_OVERFLOW in
    let j := if test frac && (j >=? frac + 1) then j - 1 else j in
    let '(intg, frac) := if j >? frac then (intg - (j - frac), 0) else (intg, frac - j) in
    (intg, frac, sgn + intg_len + b2z (test frac) + frac_len, error)
  else (intg, frac, len, E_DEC_OK).

(** The error, the buffer and [*to_len]. *)
Definition decimal2string (from : decimal_t) (to : list Z) (to_len fixed_precision fixed_decimals filler : Z)
  : option (Z * list Z * Z) :=
  let fixed_intg := if test fixed_precision then fixed_precision - fixed_decimals else 0 in
  let sgn := b2z (sign from) in
  '(buf0, intg) ← remove_leading_zeroes from;
  let '(intg, b, buf0) := if intg + frac from =? 0 then (1, [0], 0) else (intg, buf from, buf0) in
  let intg_len := if test fixed_precision then fixed_intg else intg in
  let intg_len := if intg_len =? 0 then 1 else intg_len in
  let frac_len := if test fixed_precision then fixed_decimals else frac from in
  let '(intg, frac, len, error) :=
    string_widths sgn intg (frac from) intg_len frac_len to_len fixed_precision fixed_decimals fixed_intg in
  out ← put to len 0;
  '(out, s) ← (if sign from then out ← put out 0 45; Some (out, 1) else Some (out, 0));
  out ← (if test frac then
           out ← put out (s + intg_len) 46;
           '(out, s1) ← frac_words (Z.to_nat (ROUND_UP frac)) frac b (buf0 + ROUND_UP intg) out (s + intg_len + 1);
           '(out, _) ← fill_chars (frac_len - frac) filler out s1;
           Some out
         else Some out);
  let n := if intg =? 0 then intg_len - intg - 1 else intg_len - intg in
  '(out, s) ← fill_chars n filler out s;
  out ← (if test intg then
           '(out, _) ← intg_words (Z.to_nat (ROUND_UP intg)) intg b (buf0 + ROUND_UP intg) out (s + intg);
           Some out
         else put out s 48);
  Some (error, out, len).

(** ** Shifts *)

(** The index of the first word that is not zero, or [e]. *)
Fixpoint bounds_first (n : nat) (b : list Z) (i : Z) : option Z :=
  match n with
  | O => Some i
  | S n => w ← get b i; if w =? 0 then bounds_first n b (i + 1) else Some i
  end.

(** [while (buf_end > buf_beg && *buf_end == 0) buf_end--]. *)
Fixpoint bounds_last (n : nat) (b : list Z) (i : Z) : option Z :=
  match n with
  | O => Some i
  | S n => w ← get b i; if w =? 0 then bounds_last n b (i - 1) else Some i
  end.

(** [for (; *buf_beg < powers10[i--]; start++) ;]. *)
Fixpoint bounds_start (i : nat) (w start : Z) : option Z :=
  p ← powers10 !! i;
  if w <? p then
    match i with
    | O => None
    | S i => bounds_start i w (start + 1)
    end
  else Some start.

(** [for (; *buf_end % powers10[i++] == 0; stop--) ;]. *)
Fixpoint bounds_stop (n : nat) (i w stop : Z) : option Z :=
  match n with
  | O => None
  | S n => p ← get powers10 i; if Z.rem w p =? 0 then bounds_stop n (i + 1) w (stop - 1) else Some stop
  end.

Definition digits_bounds (from : decimal_t) : option (Z * Z) :=
  let e := ROUND_UP (intg from) + ROUND_UP (frac from) in
  buf_beg ← bounds_first (Z.to_nat e) (buf from) 0;
  if buf_beg >=? e then Some (0, 0)
  else
    let '(start, i) :=
      if (buf_beg =? 0) && test (intg from) then
        let i := Z.rem (intg from - 1) DIG_PER_DEC1 + 1 in (DIG_PER_DEC1 - i, i - 1)
      else (buf_beg * DIG_PER_DEC1, DIG_PER_DEC1 - 1) in
    w ← get (buf from) buf_beg;
    start ← bounds_start (Z.to_nat i) w start;
    buf_end ← bounds_last (Z.to_nat (e - 1 - buf_beg)) (buf from) (e - 1);
    let '(stop, i) :=
      if (buf_end =? e - 1) && test (frac from) then
        let i := Z.rem (frac from - 1) DIG_PER_DEC1 + 1 in (buf_end * DIG_PER_DEC1 + i, DIG_PER_DEC1 - i + 1)
      else ((buf_end + 1) * DIG_PER_DEC1, 1) in
    w ← get (buf from) buf_end;
    stop ← bounds_stop 10 i w stop;
    Some (start, stop).

(** The loop of do_mini_left_shift, over the [n] words from [i] on; [p] and
    [c] are the powers of the shift and of its complement. *)
Fixpoint left_words (n : nat) (b : list Z) (i p c : Z) : option (list Z) :=
  match n with
  | O => w ← get b i; put b i (s32 (Z.rem w c * p))
  | S n =>
    w ← get b i; v ← get b (i + 1);
    b ← put b i (s32 (Z.rem w c * p + Z.quot v c));
    left_words n b (i + 1) p c
  end.

Definition do_mini_left_shift (b : list Z) (shift beg last : Z) : option (list Z) :=
  let from := ROUND_UP (beg + 1) - 1 in
  let e := ROUND_UP last - 1 in
  p ← get powers10 shift; c ← get powers10 (DIG_PER_DEC1 - shift);
  b ← (if Z.rem beg DIG_PER_DEC1 <? shift then w ← get b from; put b (from - 1) (Z.quot w c) else Some b);
  left_words (Z.to_nat (e - from)) b from p c.

(** The loop of do_mini_right_shift, over the [n] words from [i] down. *)
Fixpoint right_words (n : nat) (b : list Z) (i p c : Z) : option (list Z) :=
  match n with
  | O => w ← get b i; put b i (Z.quot w p)
  | S n =>
    w ← get b i; v ← get b (i - 1);
    b ← put b i (s32 (Z.quot w p + Z.rem v p * c));
    right_words n b (i - 1) p c
  end.

Definition do_mini_right_shift (b : list Z) (shift beg last : Z) : option (list Z) :=
  let from := ROUND_UP last - 1 in
  let e := ROUND_UP (beg + 1) - 1 in
  p ← get powers10 shift; c ← get powers10 (DIG_PER_DEC1 - shift);
  b ← (if DIG_PER_DEC1 - (Z.rem (last - 1) DIG_PER_DEC1 + 1) <? shift
       then w ← get b from; put b (from + 1) (s32 (Z.rem w p * c)) else Some b);
  right_words (Z.to_nat (from - e)) b from p c.

(** [for(; to <= barier; to++) *to= *(to + d_shift)] for [n] words. *)
Fixpoint move_left (n : nat) (b : list Z) (to d_shift : Z) : option (list Z * Z) :=
  match n with
  | O => Some (b, to)
  | S n => w ← get b (to + d_shift); b ← put b to w; move_left n b (to + 1) d_shift
  end.

(** [for(; to >= barier; to--) *to= *(to - d_shift)] for [n] words. *)
Fixpoint move_right (n : nat) (b : list Z) (to d_shift : Z) : option (list Z * Z) :=
  match n with
  | O => Some (b, to)
  | S n => w ← get b (to - d_shift); b ← put b to w; move_right n b (to - 1) d_shift
  end.

(** [for(; to >= barier; to--) *to= 0] for [n] words. *)
Fixpoint clear_down (n : nat) (b : list Z) (to : Z) : option (list Z) :=
  match n with
  | O => Some b
  | S n => b ← put b to 0; clear_down n b (to - 1)
  end.

(** The words are moved: the buffer and d_shift with its sign. *)
Definition move_words (b : list Z) (new_front beg e : Z) : option (list Z * Z) :=
  if new_front >? 0 then
    let d_shift := Z.quot new_front DIG_PER_DEC1 in
    let to := ROUND_UP (beg + 1) - 1 - d_shift in
    let barier := ROUND_UP e - 1 - d_shift in
    '(b, to) ← move_left (Z.to_nat (barier - to + 1)) b to d_shift;
    '(b, _) ← fill (Z.to_nat (barier + d_shift - to + 1)) 0 b to;
    Some (b, - d_shift)
  else
    let d_shift := Z.quot (1 - new_front) DIG_PER_DEC1 in
    let to := ROUND_UP e - 1 + d_shift in
    let barier := ROUND_UP (beg + 1) - 1 + d_shift in
    '(b, to) ← move_right (Z.to_nat (to - barier + 1)) b to d_shift;
    b ← clear_down (Z.to_nat (to - (barier - d_shift) + 1)) b to;
    Some (b, d_shift).

(** The gaps are filled. *)
Definition fill_gaps (b : list Z) (new_point beg e : Z) : option (list Z) :=
  let beg := ROUND_UP (beg + 1) - 1 in
  let e := ROUND_UP e - 1 in
  let new_point := if negb (new_point =? 0) then ROUND_UP new_point - 1 else new_point in
  if new_point >? e then clear_down (Z.to_nat (new_point - e)) b new_point
  else '(b, _) ← fill (Z.to_nat (beg - new_point)) 0 b new_point; Some b.

(** The end of decimal_shift, from the alignment of the digits on. *)
Definition shift_words (dec : decimal_t) (shift beg e new_point digits_int digits_frac err : Z)
  : option (Z * decimal_t) :=
  let done b := Some (err, mk_dec digits_int digits_frac (len dec) (sign dec) b) in
  let rest b beg e new_point :=
    let new_front := new_point - digits_int in
    '(b, beg, e, new_point) ←
      (if (new_front >=? DIG_PER_DEC1) || (new_front <? 0) then
         '(b, d_shift) ← move_words b new_front beg e;
         let d := d_shift * DIG_PER_DEC1 in
         Some (b, beg + d, e + d, new_point + d)
       else Some (b, beg, e, new_point));
    b ← fill_gaps b new_point beg e;
    done b in
  if test (Z.rem shift DIG_PER_DEC1) then
    let '(l_mini_shift, r_mini_shift, do_left) :=
      if shift >? 0 then
        let l := Z.rem shift DIG_PER_DEC1 in (l, DIG_PER_DEC1 - l, l <=? beg)
      else
        let r := Z.rem (- shift) DIG_PER_DEC1 in
        (DIG_PER_DEC1 - r, r, negb (len dec * DIG_PER_DEC1 - e >=? r)) in
    '(b, mini_shift) ←
      (if do_left then b ← do_mini_left_shift (buf dec) l_mini_shift beg e; Some (b, - l_mini_shift)
       else b ← do_mini_right_shift (buf dec) r_mini_shift beg e; Some (b, r_mini_shift));
    let new_point := new_point + mini_shift in
    if (shift + mini_shift =? 0) && (new_point - digits_int <? DIG_PER_DEC1) then done b
    else rest b (beg + mini_shift) (e + mini_shift) new_point
  else rest (buf dec) beg e new_point.

Definition decimal_shift (dec : decimal_t) (shift : Z) : option (Z * decimal_t) :=
  let point := ROUND_UP (intg dec) * DIG_PER_DEC1 in
  let new_point := point + shift in
  if shift =? 0 then Some (E_DEC_OK, dec)
  else
    '(beg, e) ← digits_bounds dec;
    if beg =? e then dec ← decimal_make_zero dec; Some (E_DEC_OK, dec)
    else
      let digits_int := Z.max (new_point - beg) 0 in
      let digits_frac := Z.max (e - new_point) 0 in
      let new_frac_len := ROUND_UP digits_frac in
      let new_len := ROUND_UP digits_int + new_frac_len in
      if new_len >? len dec then
        let lack := new_len - len dec in
        if new_frac_len <? lack then Some (E_DEC_OVERFLOW, dec)
        else
          let new_frac_len := new_frac_len - lack in
          let diff := digits_frac - new_frac_len * DIG_PER_DEC1 in
          '(_, dec) ← decimal_round true dec dec (e - point - diff) HALF_UP;
          let e := e - diff in
          if e <=? beg then dec ← decimal_make_zero dec; Some (E_DEC_TRUNCATED, dec)
          else shift_words dec shift beg e new_point digits_int (new_frac_len * DIG_PER_DEC1) E_DEC_TRUNCATED
      else shift_words dec shift beg e new_point digits_int digits_frac E_DEC_OK.

(** ** internal_str2dec *)

Definition INT_MAX : Z := 2 ^ 31 - 1.
Definition INT_MIN : Z := - 2 ^ 31.

(** [while (s < end_of_string && p( *s)) s++]: the bytes passed and the rest. *)
Fixpoint span (p : Z -> bool) (s : list Z) : list Z * list Z :=
  match s with
  | [] => ([], [])
  | c :: s' => if p c then let '(a, r) := span p s' in (c :: a, r) else ([], s)
  end.

(** The loop over the integer digits, from the last one on: [s] are the digits
    in this order. *)
Fixpoint int_digits (n : nat) (s : list Z) (x : Z) (i : Z) (b : list Z) (p : Z) : option (list Z) :=
  match n with
  | O => if negb (i =? 0) then put b (p - 1) x else Some b
  | S n =>
    match s with
    | [] => None
    | c :: s =>
      w ← get powers10 i;
      let x := s32 (x + s32 ((c - 48) * w)) in
      if i + 1 =? DIG_PER_DEC1 then b ← put b (p - 1) x; int_digits n s 0 0 b (p - 1)
      else int_digits n s x (i + 1) b p
    end
  end.

(** The loop over the digits of the fraction. *)
Fixpoint fra_digits (n : nat) (s : list Z) (x : Z) (i : Z) (b : list Z) (p : Z) : option (list Z) :=
  match n with
  | O =>
    if negb (i =? 0) then w ← get powers10 (DIG_PER_DEC1 - i); put b p (s32 (x * w)) else Some b
  | S n =>
    match s with
    | [] => None
    | c :: s =>
      let x := s32 ((c - 48) + s32 (x * 10)) in
      if i + 1 =? DIG_PER_DEC1 then b ← put b p x; fra_digits n s 0 0 b (p + 1)
      else fra_digits n s x (i + 1) b p
    end
  end.

(** fatal_error: *)
Definition str_fatal (error : Z) (to : decimal_t) (e : list Z) : option (Z * decimal_t * list Z) :=
  to ← decimal_make_zero to; Some (error, to, e).

(** The numbers of digits and words that fit: intg, frac, intg1 and the error. *)
Definition str_fit (fixed : bool) (to : decimal_t) (intg' frac' : Z) : Z * Z * Z * Z :=
  if fixed then
    let '(error, frac') := if frac' >? frac to then (E_DEC_TRUNCATED, frac to) else (0, frac') in
    let '(error, intg') := if intg' >? intg to then (E_DEC_OVERFLOW, intg to) else (error, intg') in
    if ROUND_UP intg' + ROUND_UP frac' >? len to then (intg', frac', ROUND_UP intg', E_DEC_OOM)
    else (intg', frac', ROUND_UP intg', error)
  else
    let '(intg1, frac1, error) := FIX_INTG_FRAC_ERROR (len to) (ROUND_UP intg') (ROUND_UP frac') in
    if negb (error =? 0) then
      (if error =? E_DEC_OVERFLOW then intg1 * DIG_PER_DEC1 else intg', frac1 * DIG_PER_DEC1, intg1, error)
    else (intg', frac', intg1, error).

(** The exponent, if there is one at [endp]. *)
Definition str_exponent (error : Z) (to : decimal_t) (endp : list Z) : option (Z * decimal_t * list Z) :=
  match endp with
  | c :: nptr =>
    if (0 <? length nptr)%nat && ((c =? 101) || (c =? 69)) then
      '(exponent, stop, str_error) ← my_strtoll10 nptr (length nptr);
      if negb (length stop =? length nptr)%nat then
        if str_error >? 0 then str_fatal E_DEC_BAD_NUM to stop
        else if (exponent >? Z.quot INT_MAX 2) || ((str_error =? 0) && (exponent <? 0))
        then str_fatal E_DEC_OVERFLOW to stop
        else if (exponent <? Z.quot INT_MIN 2) && negb (error =? E_DEC_OVERFLOW)
        then str_fatal E_DEC_TRUNCATED to stop
        else if negb (error =? E_DEC_OVERFLOW)
        then '(error, to) ← decimal_shift to exponent; Some (error, to, stop)
        else Some (error, to, stop)
      else Some (error, to, endp)
    else Some (error, to, endp)
  | [] => Some (error, to, endp)
  end.

(** The error, the number and the bytes from [*end] on; [from] are the bytes up
    to [*end]. *)
Definition internal_str2dec (from : list Z) (to : decimal_t) (fixed : bool) : option (Z * decimal_t * list Z) :=
  let '(_, s) := span my_isspace from in
  match s with
  | [] => str_fatal E_DEC_BAD_NUM to []
  | c :: s' =>
    let to := set_sign to (c =? 45) in
    let s := if c =? 45 then s' else if c =? 43 then s' else s in
    let '(ds, s) := span my_isdigit s in
    let '(fs, endp) :=
      match s with
      | c :: s' => if c =? 46 then span my_isdigit s' else ([], s)
      | [] => ([], s)
      end in
    let intg' := Z.of_nat (length ds) in
    let frac' := Z.of_nat (length fs) in
    if frac' + intg' =? 0 then str_fatal E_DEC_BAD_NUM to endp
    else
      let '(intg', frac', intg1, error) := str_fit fixed to intg' frac' in
      if error =? E_DEC_OOM then str_fatal E_DEC_OOM to endp
      else
        b ← int_digits (Z.to_nat intg') (rev ds) 0 0 (buf to) intg1;
        b ← fra_digits (Z.to_nat frac') fs 0 0 b intg1;
        str_exponent error (mk_dec intg' frac' (len to) (sign to) b) endp
  end.

Definition string2decimal (from : list Z) (to : decimal_t) := internal_str2dec from to false.
Definition string2decimal_fixed (from : list Z) (to : decimal_t) := internal_str2dec from to true.
