(* ===== verification/DecDiv.v ===== *)
(** * Fixed point numbers: quotients and remainders

    do_div_mod, decimal_div and decimal_mod of strings/decimal.c: long division
    with a guess for each word of the quotient. *)

From stdpp Require Import prelude list list_numbers numbers.
From Stdlib Require Import ZArith Lia ZifyNat Bool.
From S2P Require Import Prelude Decimal.

(** The leading zeros are removed: the precision and the place, [None] inside
    if the number is zero. *)
Definition strip_number (b : list Z) (prec : Z) : option (option (Z * Z)) :=
  '(prec, i) ← skip_zero_words (S (length b)) b (Z.rem (prec - 1) DIG_PER_DEC1 + 1) prec 0;
  if prec <=? 0 then Some None
  else
    w ← get b i;
    prec ← skip_zero_digits (Z.to_nat (Z.rem (prec - 1) DIG_PER_DEC1)) w prec;
    Some (Some (prec, i)).

(** [while ( *stop2 == 0 && stop2 >= start2) stop2--]. *)
Fixpoint drop_last_zeros (n : nat) (b : list Z) (stop2 start2 : Z) : option Z :=
  w ← get b stop2;
  if (w =? 0) && (stop2 >=? start2) then
    match n with
    | O => None
    | S n => drop_last_zeros n b (stop2 - 1) start2
    end
  else Some stop2.

(** The divisor: its buffer, the first word, the number of words behind the
    first one, and the normalized first words. *)
Record divisor := mk_divisor {
  dbuf : list Z;
  start2 : Z;
  len2 : Z;
  norm_factor : Z;
  norm2 : Z
}.

Definition make_divisor (b : list Z) (start2 prec2 : Z) : option divisor :=
  stop2 ← drop_last_zeros (S (length b)) b (start2 + ROUND_UP prec2 - 1) start2;
  let len2 := stop2 - start2 in
  d0 ← get b start2;
  let norm_factor := Z.quot DIG_BASE (s32 (d0 + 1)) in
  let norm2 := s32 (s64 (norm_factor * d0)) in
  norm2 ← (if len2 >? 0 then
             d1 ← get b (start2 + 1);
             Some (s32 (norm2 + s32 (Z.quot (s64 (norm_factor * d1)) DIG_BASE)))
           else Some norm2);
  Some (mk_divisor b start2 len2 norm_factor norm2).

(** D3: the guess for the next word, from the carry and the first two words of
    what is left. *)
Definition div_guess (dv : divisor) (dcarry w0 y : Z) : option Z :=
  let x := s64 (w0 + s64 (dcarry * DIG_BASE)) in
  d0 ← get (dbuf dv) (start2 dv);
  let guess := Z.quot (s64 (s64 (norm_factor dv * x) + Z.quot (s64 (norm_factor dv * y)) DIG_BASE)) (norm2 dv) in
  let guess := if guess >=? DIG_BASE then DIG_BASE - 1 else guess in
  if len2 dv >? 0 then
    d1 ← get (dbuf dv) (start2 dv + 1);
    let too_big g := s64 (d1 * g) >? s64 (s64 (s64 (x - s64 (g * d0)) * DIG_BASE) + y) in
    let guess := if too_big guess then guess - 1 else guess in
    Some (if too_big guess then guess - 1 else guess)
  else Some guess.

(** D4: multiply and subtract, over [n] words of the divisor up to [i2]. *)
Fixpoint mul_sub (n : nat) (guess : Z) (b2 : list Z) (i2 : Z) (b1 : list Z) (i1 carry : Z) : option (list Z * Z) :=
  match n with
  | O => Some (b1, carry)
  | S n =>
    d ← get b2 (i2 - 1);
    let x := s64 (guess * d) in
    let hi := s32 (Z.quot x DIG_BASE) in
    let lo := s32 (s64 (x - s64 (hi * DIG_BASE))) in
    w ← get b1 i1;
    let '(a, carry) := SUB2 w lo carry in
    b1 ← put b1 i1 a;
    mul_sub n guess b2 (i2 - 1) b1 (i1 - 1) (s32 (carry + hi))
  end.

(** D6: add back. *)
Fixpoint add_back (n : nat) (b2 : list Z) (i2 : Z) (b1 : list Z) (i1 carry : Z) : option (list Z) :=
  match n with
  | O => Some b1
  | S n =>
    w ← get b1 i1; d ← get b2 (i2 - 1);
    let '(a, carry) := ADD w d carry in
    b1 ← put b1 i1 a;
    add_back n b2 (i2 - 1) b1 (i1 - 1) carry
  end.

(** One word of the quotient: the word and what is left. *)
Definition div_step (dv : divisor) (tmp1 : list Z) (start1 dcarry : Z) : option (Z * list Z) :=
  w0 ← get tmp1 start1;
  d0 ← get (dbuf dv) (start2 dv);
  if (dcarry =? 0) && (w0 <? d0) then Some (0, tmp1)
  else
    y ← get tmp1 (start1 + 1);
    guess ← div_guess dv dcarry w0 y;
    let n := Z.to_nat (len2 dv + 1) in
    let stop2 := start2 dv + len2 dv + 1 in
    '(tmp1, carry) ← mul_sub n guess (dbuf dv) stop2 tmp1 (start1 + len2 dv) 0;
    if dcarry <? carry then
      tmp1 ← add_back n (dbuf dv) stop2 tmp1 (start1 + len2 dv) 0;
      Some (guess - 1, tmp1)
    else Some (guess, tmp1).

(** The main loop, for [n] words of the quotient, which are stored if
    [div_mod]. *)
Fixpoint div_loop (n : nat) (div_mod : bool) (dv : divisor) (tmp1 : list Z) (start1 dcarry : Z) (b0 : list Z) (i0 : Z)
  : option (list Z * Z * Z * list Z) :=
  match n with
  | O => Some (tmp1, start1, dcarry, b0)
  | S n =>
    '(guess, tmp1) ← div_step dv tmp1 start1 dcarry;
    b0 ← (if div_mod then put b0 i0 (s32 guess) else Some b0);
    dcarry ← get tmp1 start1;
    div_loop n div_mod dv tmp1 (start1 + 1) dcarry b0 (i0 + 1)
  end.

(** [while (start1 < stop1) *buf0++=*start1++], for [n] words. *)
Fixpoint copy_up (n : nat) (b1 : list Z) (i1 : Z) (b0 : list Z) (i0 : Z) : option (list Z) :=
  match n with
  | O => Some b0
  | S n => w ← get b1 i1; b0 ← put b0 i0 w; copy_up n b1 (i1 + 1) b0 (i0 + 1)
  end.

(** The remainder is in [tmp1]; [to] has its sign and frac. *)
Definition mod_result (from2 to : decimal_t) (tmp1 : list Z) (start1 dcarry prec_intg : Z) : option (Z * decimal_t) :=
  '(tmp1, start1) ← (if negb (dcarry =? 0) then t ← put tmp1 (start1 - 1) dcarry; Some (t, start1 - 1)
                     else Some (tmp1, start1));
  let intg0 := ROUND_UP prec_intg - start1 in
  let frac0 := ROUND_UP (frac to) in
  let copy (intg0 frac0 stop1 i0 : Z) (to : decimal_t) :=
    let '(frac', stop1, error) :=
      if intg0 + frac0 >? len to
      then ((len to - intg0) * DIG_PER_DEC1, stop1 - (frac0 + intg0 - len to), E_DEC_TRUNCATED)
      else (frac to, stop1, E_DEC_OK) in
    b ← copy_up (Z.to_nat (stop1 - start1)) tmp1 start1 (buf to) i0;
    Some (error, set_frac (set_buf to b) frac') in
  if (frac0 =? 0) && (intg0 =? 0) then to ← decimal_make_zero to; Some (E_DEC_OK, to)
  else if intg0 <=? 0 then
    if - intg0 >=? len to then to ← decimal_make_zero to; Some (E_DEC_TRUNCATED, to)
    else
      '(b, i0) ← fill (Z.to_nat (- intg0)) 0 (buf to) 0;
      (* the loop that fills leaves 1 in intg0 *)
      copy 1 (frac0 + intg0) (start1 + frac0 + intg0) i0 (set_intg (set_buf to b) 0)
  else if intg0 >? len to then Some (E_DEC_OVERFLOW, to)
  else copy intg0 frac0 (start1 + frac0 + intg0) 0 (set_intg to (Z.min (intg0 * DIG_PER_DEC1) (intg from2))).

(** [is_mod] says whether the remainder is asked for. *)
Definition do_div_mod (from1 from2 to : decimal_t) (is_mod : bool) (scale_incr : Z) : option (Z * decimal_t) :=
  let frac1 := ROUND_UP (frac from1) * DIG_PER_DEC1 in
  let frac2 := ROUND_UP (frac from2) * DIG_PER_DEC1 in
  s2 ← strip_number (buf from2) (intg from2 + frac2);
  match s2 with
  | None => Some (E_DEC_DIV_ZERO, to)
  | Some (prec2, start2) =>
    s1 ← strip_number (buf from1) (intg from1 + frac1);
    match s1 with
    | None => to ← decimal_make_zero to; Some (E_DEC_OK, to)
    | Some (prec1, buf1) =>
      let scale_incr := Z.max (scale_incr - (frac1 - frac from1 + frac2 - frac from2)) 0 in
      w1 ← get (buf from1) buf1; w2 ← get (buf from2) start2;
      let dintg := (prec1 - frac1) - (prec2 - frac2) + b2z (w1 >=? w2) in
      let '(dintg, intg0) :=
        if dintg <? 0 then (Z.quot dintg DIG_PER_DEC1, 0) else (dintg, ROUND_UP dintg) in
      let '(to, intg0, frac0, error) :=
        if is_mod then (mk_dec (intg to) (Z.max (frac from1) (frac from2)) (len to) (sign from1) (buf to), intg0, 0, E_DEC_OK)
        else
          let '(intg0, frac0, error) := FIX_INTG_FRAC_ERROR (len to) intg0 (ROUND_UP (frac1 + frac2 + scale_incr)) in
          (mk_dec (intg0 * DIG_PER_DEC1) (frac0 * DIG_PER_DEC1) (len to) (xorb (sign from1) (sign from2)) (buf to),
           intg0, frac0, error) in
      '(b0, i0) ← (if is_mod then Some (buf to, 0)
                   else fill (Z.to_nat (Z.min (- dintg) (len to))) 0 (buf to) 0);
      let i := ROUND_UP prec1 in
      let len1 := Z.max (i + ROUND_UP (2 * frac2 + scale_incr + 1) + 1) 3 in
      (* memcpy and bzero *)
      tmp1 ← (if buf1 + i <=? Z.of_nat (length (buf from1))
              then Some (take (Z.to_nat i) (drop (Z.to_nat buf1) (buf from1)) ++ replicate (Z.to_nat (len1 - i)) 0)
              else None);
      dv ← make_divisor (buf from2) start2 prec2;
      let '(start1, dcarry) := if w1 <? w2 then (1, w1) else (0, 0) in
      '(tmp1, start1, dcarry, b0) ←
        div_loop (Z.to_nat (intg0 + frac0 - i0)) (negb is_mod) dv tmp1 start1 dcarry b0 i0;
      if is_mod then mod_result from2 (set_buf to b0) tmp1 start1 dcarry (prec1 - frac1)
      else Some (error, set_buf to b0)
    end
  end.

Definition decimal_div (from1 from2 to : decimal_t) (scale_incr : Z) : option (Z * decimal_t) :=
  do_div_mod from1 from2 to false scale_incr.

Definition decimal_mod (from1 from2 to : decimal_t) : option (Z * decimal_t) :=
  do_div_mod from1 from2 to true 0.
