(* ===== verification/DecBase.v ===== *)
(** * Fixed point numbers: values and buffers

    The value of a decimal_t as a rational number, its well-formedness, and
    what reads and writes in a buffer do.  A loop that writes [n] words down
    from an index replaces a segment of its buffer ([splice]); the loops of
    [Decimal] are specified by the value of that segment. *)

From stdpp Require Import prelude list list_numbers numbers.
From Stdlib Require Import ZArith QArith Lia ZifyNat Bool.
From S2P Require Import Prelude Horner Decimal.
Open Scope Z_scope.

#[local] Coercion Z.of_nat : nat >-> Z.

Abbreviation wordsval := (horner DIG_BASE).
Abbreviation is_word := (is_digit DIG_BASE).

(** ** Values *)

(** The numbers of words before and behind the point. *)
Definition iw (d : decimal_t) : nat := Z.to_nat (ROUND_UP (intg d)).
Definition fw (d : decimal_t) : nat := Z.to_nat (ROUND_UP (frac d)).

(** The words of the number, and its magnitude in units of the last word. *)
Definition dwords (d : decimal_t) : list Z := take (iw d + fw d) (buf d).
Definition mag (d : decimal_t) : Z := wordsval (dwords d).

Definition signed (s : bool) (m : Z) : Z := if s then - m else m.
Definition dnum (d : decimal_t) : Z := signed (sign d) (mag d).

Definition dval (d : decimal_t) : Q := dnum d # Z.to_pos (DIG_BASE ^ fw d).

(** A well-formed number: the words are in the buffer and are words. *)
Record dec_ok (d : decimal_t) : Prop := {
  ok_intg : 0 <= intg d;
  ok_frac : 0 <= frac d;
  ok_some : 0 < intg d + frac d;
  ok_len : len d = length (buf d);
  ok_room : (iw d + fw d <= length (buf d))%nat;
  ok_words : Forall is_word (dwords d)
}.

Definition dec_okb (d : decimal_t) : bool :=
  (0 <=? intg d) && (0 <=? frac d) && (0 <? intg d + frac d) && (len d =? length (buf d)) &&
  (iw d + fw d <=? length (buf d))%nat && forallb (fun w => (0 <=? w) && (w <? DIG_BASE)) (dwords d).

Lemma dec_okb_ok d : dec_okb d = true -> dec_ok d.
Proof.
  unfold dec_okb. intros [[[[[H1 H2]%andb_prop H3]%andb_prop H4]%andb_prop H5]%andb_prop H6]%andb_prop. b2p.
  split; try lia. apply list.Forall_forall. intros w Hw. apply list_elem_of_In in Hw. rewrite forallb_forall in H6.
  specialize (H6 w Hw). b2p. done.
Qed.

(** There is room in a destination. *)
Definition dest_ok (d : decimal_t) : Prop := 0 < len d /\ len d = length (buf d).

(** The number has at most intg digits before and frac digits behind the
    point. *)
Definition tight (d : decimal_t) : Prop :=
  mag d < 10 ^ intg d * DIG_BASE ^ fw d /\ (10 ^ (9 * fw d - frac d) | mag d).

Lemma round_up_div x : 0 <= x -> ROUND_UP x = (x + 8) / 9.
Proof. intros H. unfold ROUND_UP, DIG_PER_DEC1. rewrite Z.quot_div_nonneg by lia. f_equal. lia. Qed.

Lemma round_up_bounds x : 0 <= x -> 0 <= ROUND_UP x /\ 9 * ROUND_UP x - 8 <= x <= 9 * ROUND_UP x.
Proof. intros H. rewrite round_up_div by done. zdiv. Qed.

Lemma round_up_words x : 0 <= x -> ROUND_UP (x * 9) = x.
Proof. intros H. rewrite round_up_div by lia. zdiv. Qed.

Lemma round_up_mono x y : 0 <= x <= y -> ROUND_UP x <= ROUND_UP y.
Proof. intros H. rewrite !round_up_div by lia. zdiv. Qed.

Lemma round_up_max x y : 0 <= x -> 0 <= y -> ROUND_UP (Z.max x y) = Z.max (ROUND_UP x) (ROUND_UP y).
Proof.
  intros Hx Hy. destruct (Z.max_spec x y) as [[H ->]|[H ->]].
  - pose proof (round_up_mono x y). lia.
  - pose proof (round_up_mono y x). lia.
Qed.

Lemma Z_iw d : dec_ok d -> ROUND_UP (intg d) = iw d.
Proof. intros H. pose proof (round_up_bounds (intg d) (ok_intg d H)). unfold iw. lia. Qed.

Lemma Z_fw d : dec_ok d -> ROUND_UP (frac d) = fw d.
Proof. intros H. pose proof (round_up_bounds (frac d) (ok_frac d H)). unfold fw. lia. Qed.

Lemma words_nonempty d : dec_ok d -> (0 < iw d + fw d)%nat.
Proof.
  intros H. pose proof (Z_iw d H). pose proof (Z_fw d H). pose proof (ok_some d H).
  pose proof (round_up_bounds (intg d) (ok_intg d H)). pose proof (round_up_bounds (frac d) (ok_frac d H)). lia.
Qed.

Lemma base_ge2 : 2 <= DIG_BASE.
Proof. done. Qed.
#[export] Hint Resolve base_ge2 : core.

Lemma bpow_pos (n : nat) : 0 < DIG_BASE ^ n.
Proof. apply Z.pow_pos_nonneg; unfold DIG_BASE; lia. Qed.

Lemma bpow_S (n : nat) : DIG_BASE ^ S n = DIG_BASE * DIG_BASE ^ n.
Proof. by apply pow_S. Qed.

Lemma bpow_plus (m n : nat) : DIG_BASE ^ (m + n)%nat = DIG_BASE ^ m * DIG_BASE ^ n.
Proof. by apply pow_plus. Qed.

Lemma mag_bound d : dec_ok d -> 0 <= mag d < DIG_BASE ^ (iw d + fw d)%nat.
Proof.
  intros H. pose proof (horner_bound DIG_BASE base_ge2 _ (ok_words d H)) as Hb.
  unfold dwords in Hb at 3. rewrite length_take, Nat.min_l in Hb by apply H. done.
Qed.

(** The magnitude when the fraction is cut to [n] words, in units of the last
    of them. *)
Definition cut (n : nat) (d : decimal_t) : Z :=
  wordsval (take (iw d + Nat.min (fw d) n) (buf d)) * DIG_BASE ^ (n - Nat.min (fw d) n)%nat.

Lemma cut_exact n d : (fw d <= n)%nat -> cut n d = mag d * DIG_BASE ^ (n - fw d)%nat.
Proof. intros H. unfold cut. by rewrite Nat.min_l. Qed.

(** What is cut off is less than a unit. *)
Lemma cut_floor n d : dec_ok d -> (n <= fw d)%nat ->
  cut n d * DIG_BASE ^ (fw d - n)%nat <= mag d < (cut n d + 1) * DIG_BASE ^ (fw d - n)%nat.
Proof.
  intros H Hn. unfold cut, mag, dwords. rewrite Nat.min_r, Nat.sub_diag by done. change (DIG_BASE ^ 0%nat) with 1.
  pose proof (ok_room d H). pose proof (ok_words d H) as Hw. unfold dwords in Hw.
  rewrite <- (take_drop (iw d + n) (take (iw d + fw d) (buf d))) in Hw |- *.
  rewrite take_take, Nat.min_l in Hw |- * by lia. apply Forall_app in Hw as [_ Hw].
  rewrite horner_app by done. pose proof (horner_bound DIG_BASE base_ge2 _ Hw) as Hb.
  rewrite length_drop, length_take, Nat.min_l in Hb |- * by lia.
  replace (iw d + fw d - (iw d + n))%nat with (fw d - n)%nat in * by lia. lia.
Qed.

Lemma cut_bound n d : dec_ok d -> 0 <= cut n d < DIG_BASE ^ (iw d + n)%nat.
Proof.
  intros H. unfold cut. pose proof (ok_room d H).
  assert (Forall is_word (take (iw d + Nat.min (fw d) n) (buf d))) as Hw.
  { pose proof (ok_words d H) as Hw. unfold dwords in Hw. apply (Forall_take _ (iw d + Nat.min (fw d) n)) in Hw.
    by rewrite take_take, Nat.min_l in Hw by lia. }
  pose proof (horner_bound DIG_BASE base_ge2 _ Hw) as Hb. rewrite length_take_le in Hb by lia.
  replace (iw d + n)%nat with (iw d + Nat.min (fw d) n + (n - Nat.min (fw d) n))%nat by lia.
  rewrite (bpow_plus _ (n - _)). pose proof (bpow_pos (n - Nat.min (fw d) n)). nia.
Qed.

(** *** Rationals with a common power of the base *)

Definition bpos (n : nat) : positive := Z.to_pos (DIG_BASE ^ n).

Lemma bpos_Z n : Zpos (bpos n) = DIG_BASE ^ n.
Proof. unfold bpos. rewrite Z2Pos.id; [done|apply bpow_pos]. Qed.

(** The numerator of a number over [DIG_BASE ^ n]. *)
Definition at_scale (n : nat) (d : decimal_t) : Z := dnum d * DIG_BASE ^ (n - fw d)%nat.

Lemma dval_scale n d : (fw d <= n)%nat -> (dval d == at_scale n d # bpos n)%Q.
Proof.
  intros H. unfold dval, Qeq, at_scale. cbn [Qnum Qden]. fold (bpos (fw d)). rewrite !bpos_Z.
  replace n with (fw d + (n - fw d))%nat at 1 by lia. rewrite bpow_plus. lia.
Qed.

Lemma dval_cmp n a b : (fw a <= n)%nat -> (fw b <= n)%nat ->
  (dval a ?= dval b)%Q = (at_scale n a ?= at_scale n b).
Proof.
  intros Ha Hb. rewrite (Qcompare_comp _ _ (dval_scale n a Ha) _ _ (dval_scale n b Hb)).
  unfold Qcompare. cbn [Qnum Qden]. symmetry. apply Zmult_compare_compat_r. lia.
Qed.

Lemma signed_opp s m : signed (negb s) m = - signed s m.
Proof. destruct s; simpl; lia. Qed.

Lemma signed_mul s m k : signed s m * k = signed s (m * k).
Proof. destruct s; simpl; lia. Qed.

Lemma signed_add s m k : signed s m + signed s k = signed s (m + k).
Proof. destruct s; simpl; lia. Qed.

(** ** Reads and writes *)

Lemma get_nat p (n : nat) : get p n = p !! n.
Proof. unfold get. rewrite (proj2 (Z.ltb_ge n 0)) by lia. by rewrite Nat2Z.id. Qed.

Lemma put_nat p (n : nat) v : (n < length p)%nat -> put p n v = Some (<[n := v]> p).
Proof.
  intros H. unfold put. rewrite (proj2 (Z.leb_le 0 n)), (proj2 (Z.ltb_lt n (length p))) by lia.
  by rewrite Nat2Z.id.
Qed.

Lemma put_inv p i v q : put p i v = Some q ->
  exists n : nat, i = n /\ (n < length p)%nat /\ q = <[n := v]> p.
Proof.
  unfold put. destruct (_ && _) eqn:E; [|done]. b2p. intros [= <-]. exists (Z.to_nat i). split_and!; [lia|lia|done].
Qed.

(** [n] words from the index [i] on, and the replacement of words. *)
Definition seg (b : list Z) (i n : nat) : list Z := take n (drop i b).
Definition splice (b : list Z) (i : nat) (l : list Z) : list Z := take i b ++ l ++ drop (i + length l) b.

Lemma seg_length b i n : (i + n <= length b)%nat -> length (seg b i n) = n.
Proof. intros H. unfold seg. rewrite length_take, length_drop. lia. Qed.

Lemma seg_app b i m n : seg b i (m + n) = seg b i m ++ seg b (i + m) n.
Proof. unfold seg. rewrite <- drop_drop. symmetry. apply take_take_drop. Qed.

Lemma seg_snoc b i n w : b !! (i + n)%nat = Some w -> seg b i (S n) = seg b i n ++ [w].
Proof.
  intros H. replace (S n) with (n + 1)%nat by lia. rewrite seg_app. f_equal. unfold seg.
  rewrite (drop_S _ w) by done. done.
Qed.

Lemma seg_cons b i n w : b !! i = Some w -> seg b i (S n) = w :: seg b (S i) n.
Proof. intros H. unfold seg. by rewrite (drop_S _ w). Qed.

Lemma seg_0 b n : seg b 0 n = take n b.
Proof. unfold seg. by rewrite drop_0. Qed.

Lemma seg_nil b i : seg b i 0 = [].
Proof. done. Qed.

Lemma seg_Forall P b i n j m :
  Forall P (seg b i n) -> (i <= j)%nat -> (j + m <= i + n)%nat -> Forall P (seg b j m).
Proof.
  intros H Hi Hj. replace n with ((j - i) + (m + (n - (j - i) - m)))%nat in H by lia.
  rewrite !seg_app in H. apply Forall_app in H as [_ H]. apply Forall_app in H as [H _].
  by replace (i + (j - i))%nat with j in H by lia.
Qed.

Lemma splice_length b i l : (i + length l <= length b)%nat -> length (splice b i l) = length b.
Proof. intros H. unfold splice. rewrite !length_app, length_take, length_drop. lia. Qed.

Lemma splice_nil b i : splice b i [] = b.
Proof. unfold splice. simpl. rewrite Nat.add_0_r. apply take_drop. Qed.

Lemma splice_insert b i v : (i < length b)%nat -> splice b i [v] = <[i := v]> b.
Proof. intros H. rewrite insert_take_drop by done. unfold splice. simpl. by rewrite Nat.add_1_r. Qed.

Lemma take_splice b i l : (i <= length b)%nat -> take i (splice b i l) = take i b.
Proof. intros H. unfold splice. rewrite take_app_le by (rewrite length_take; lia). by rewrite take_take, Nat.min_id. Qed.

Lemma drop_splice b i l : (i + length l <= length b)%nat -> drop (i + length l) (splice b i l) = drop (i + length l) b.
Proof.
  intros H. unfold splice. rewrite app_assoc.
  rewrite drop_app_ge by (rewrite length_app, length_take; lia).
  rewrite length_app, length_take, Nat.min_l by lia. by rewrite Nat.sub_diag, drop_0.
Qed.

(** A write in front of a segment that was written. *)
Lemma splice_splice b i l l' j :
  (i + length l <= length b)%nat -> (j + length l' = i)%nat -> splice (splice b i l) j l' = splice b j (l' ++ l).
Proof.
  intros Hl Hj. unfold splice at 1. rewrite Hj. unfold splice.
  rewrite take_app_le by (rewrite length_take; lia). rewrite take_take, Nat.min_l by lia.
  rewrite drop_app_ge by (rewrite length_take; lia). rewrite length_take, Nat.min_l, Nat.sub_diag, drop_0 by lia.
  by rewrite <- !app_assoc, length_app, Nat.add_assoc, Hj.
Qed.

(** A write behind a segment that was written. *)
Lemma splice_behind b i l l' j :
  (j + length l' <= length b)%nat -> (j = i + length l)%nat -> splice (splice b i l) j l' = splice b i (l ++ l').
Proof.
  intros Hl ->. unfold splice at 1. unfold splice.
  rewrite (app_assoc (take i b)). rewrite take_app_le by (rewrite length_app, length_take; lia).
  rewrite take_ge by (rewrite length_app, length_take; lia).
  rewrite drop_app_ge by (rewrite length_app, length_take; lia).
  rewrite drop_drop, length_app, length_app, length_take, Nat.min_l by lia.
  rewrite <- !app_assoc. by replace (i + length l + _)%nat with (i + (length l + length l'))%nat by lia.
Qed.

(** Words in front of a segment that was written. *)
Lemma seg_before b i l j m : (i <= length b)%nat -> (j + m <= i)%nat -> seg (splice b i l) j m = seg b j m.
Proof.
  intros Hi Hj. unfold seg, splice. rewrite skipn_app, take_app_le by (rewrite length_drop, length_take; lia).
  rewrite skipn_firstn_comm, take_take. f_equal. lia.
Qed.

Lemma seg_splice b i l : (i + length l <= length b)%nat -> seg (splice b i l) i (length l) = l.
Proof.
  intros H. unfold seg, splice. rewrite drop_app_ge by (rewrite length_take; lia).
  rewrite length_take, Nat.min_l, Nat.sub_diag, drop_0 by lia. by rewrite take_app_length.
Qed.

(** ** Loops over words *)

(** One word of a loop that goes down. *)
Lemma get_down (b : list Z) (i : nat) : (0 < i <= length b)%nat ->
  exists w, get b (i - 1) = Some w /\ b !! (i - 1)%nat = Some w.
Proof.
  intros H. destruct (lookup_lt_is_Some_2 b (i - 1)%nat) as [w Hw]; [lia|]. exists w.
  replace (Z.of_nat i - 1) with (Z.of_nat (i - 1)) by lia. by rewrite get_nat.
Qed.

Lemma put_down (b : list Z) (i : nat) v : (0 < i <= length b)%nat ->
  put b (i - 1) v = Some (splice b (i - 1) [v]).
Proof.
  intros H. replace (Z.of_nat i - 1) with (Z.of_nat (i - 1)) by lia.
  rewrite put_nat by lia. by rewrite splice_insert by lia.
Qed.

(** The last word of a segment. *)
Lemma seg_last b i n w :
  (S n <= i)%nat -> b !! (i - 1)%nat = Some w -> seg b (i - S n) (S n) = seg b (i - 1 - n) n ++ [w].
Proof.
  intros Hn Hw. replace (i - S n)%nat with (i - 1 - n)%nat by lia. apply seg_snoc.
  by replace (i - 1 - n + n)%nat with (i - 1)%nat by lia.
Qed.

Lemma Z_down (i : nat) : (0 < i)%nat -> Z.of_nat i - 1 = (i - 1)%nat.
Proof. lia. Qed.

Lemma copy_down_ok n : forall b1 (i1 : nat) b0 (i0 : nat),
  (n <= i1 <= length b1)%nat -> (n <= i0 <= length b0)%nat ->
  copy_down n b1 i1 b0 i0 = Some (splice b0 (i0 - n) (seg b1 (i1 - n) n), Z.of_nat (i0 - n)).
Proof.
  induction n as [|n IH]; intros b1 i1 b0 i0 H1 H0.
  - cbn [copy_down]. by rewrite seg_nil, splice_nil, Nat.sub_0_r.
  - cbn [copy_down]. destruct (get_down b1 i1) as (w & -> & Hw); [lia|]. obind.
    rewrite put_down by lia. obind. rewrite !Z_down by lia.
    rewrite IH by (rewrite ?splice_length; simpl; lia).
    rewrite (seg_last b1 i1 n w) by (done || lia). do 2 f_equal; [|lia].
    rewrite splice_splice by (rewrite ?seg_length; simpl; lia).
    by replace (i0 - 1 - n)%nat with (i0 - S n)%nat by lia.
Qed.

Lemma zero_down_ok n : forall b0 (i0 : nat), (n <= i0 <= length b0)%nat ->
  zero_down n b0 i0 = Some (splice b0 (i0 - n) (replicate n 0), Z.of_nat (i0 - n)).
Proof.
  induction n as [|n IH]; intros b0 i0 H0.
  - cbn [zero_down]. by rewrite splice_nil, Nat.sub_0_r.
  - cbn [zero_down]. rewrite put_down by lia. obind. rewrite !Z_down by lia.
    rewrite IH by (rewrite ?splice_length; simpl; lia). do 2 f_equal; [|lia].
    rewrite splice_splice by (rewrite ?length_replicate; simpl; lia).
    rewrite (replicate_S_end n). by replace (i0 - 1 - n)%nat with (i0 - S n)%nat by lia.
Qed.

Lemma fill_ok n v : forall b (i : nat), (i + n <= length b)%nat ->
  fill n v b i = Some (splice b i (replicate n v), Z.of_nat (i + n)).
Proof.
  induction n as [|n IH]; intros b i H.
  - cbn [fill]. by rewrite splice_nil, Nat.add_0_r.
  - cbn [fill]. rewrite put_nat by lia. obind. rewrite <- splice_insert by lia.
    replace (Z.of_nat i + 1) with (Z.of_nat (S i)) by lia.
    rewrite IH by (rewrite splice_length; simpl; lia). do 2 f_equal; [|lia].
    rewrite splice_behind by (rewrite ?length_replicate; simpl; lia). done.
Qed.

Lemma any_word_ok n : forall b (i : nat), (i + n <= length b)%nat ->
  any_word n b i = Some (bool_decide (Exists (fun w => w <> 0) (seg b i n))).
Proof.
  induction n as [|n IH]; intros b i H; cbn [any_word].
  - rewrite seg_nil, bool_decide_false; [done|]. by intros ?%Exists_nil.
  - destruct (lookup_lt_is_Some_2 b i) as [w Hw]; [lia|]. rewrite get_nat, Hw. obind.
    rewrite (seg_cons b i n w Hw). destruct (Z.eqb_spec w 0) as [->|Hne]; cbn [negb].
    + replace (Z.of_nat i + 1) with (Z.of_nat (S i)) by lia. rewrite IH by lia. f_equal.
      apply bool_decide_ext. rewrite Exists_cons. naive_solver.
    + rewrite bool_decide_true; [done|]. by constructor.
Qed.

Lemma words_nonzero W : Forall is_word W -> Exists (fun w => w <> 0) W <-> wordsval W <> 0.
Proof.
  intros HW. split.
  - intros He H0. rewrite (horner_zero DIG_BASE base_ge2 W HW H0) in He.
    apply list.Exists_exists in He as (w & Hw & Hne). by apply elem_of_replicate in Hw as [-> _].
  - intros Hne. apply not_Forall_Exists; [solve_decision|]. intros H. apply Hne. induction H as [|w l -> _ IH]; [done|].
    cbn [horner]. rewrite IH; [lia|by inversion HW|]. intros E. apply Hne. cbn [horner]. lia.
Qed.
