(* ===== verification/DecAdd.v ===== *)
(** * Fixed point numbers: proofs about sums

    do_add adds the magnitudes of its operands, cut to the fraction words that
    the result has room for. *)

From stdpp Require Import prelude list list_numbers numbers.
From Stdlib Require Import ZArith QArith Lia ZifyNat Bool.
From S2P Require Import Prelude Horner Decimal DecBase.
Open Scope Z_scope.

#[local] Coercion Z.of_nat : nat >-> Z.

Lemma ADD_ok x y c : is_word x -> is_word y -> 0 <= c <= 1 ->
  exists a c', ADD x y c = (a, c') /\ is_word a /\ 0 <= c' <= 1 /\ a + c' * DIG_BASE = x + y + c.
Proof.
  unfold is_digit, ADD, DIG_BASE. intros Hx Hy Hc. rewrite (s32_small (x + y + c)) by lia.
  rewrite Z.geb_leb. case_if; eexists _, _; (split; [done|]); nowrap; lia.
Qed.

Lemma zero_word : is_word 0.
Proof. done. Qed.

Lemma Forall_snoc_1 {A} (P : A -> Prop) l x : Forall P l -> P x -> Forall P (l ++ [x]).
Proof. intros. apply Forall_app. by repeat constructor. Qed.

(** A segment of [n] words was written below [i0], with the carry [c]. *)
Definition wrote (n : nat) (b0 : list Z) (i0 : nat) (W : list Z) (c : Z) (res : option (list Z * Z * Z)) : Prop :=
  res = Some (splice b0 (i0 - n) W, Z.of_nat (i0 - n), c) /\ length W = n /\ Forall is_word W /\ 0 <= c <= 1.

Lemma wrote_step n b0 i0 a W c (res : option (list Z * Z * Z)) :
  (S n <= i0 <= length b0)%nat -> is_word a ->
  wrote n (splice b0 (i0 - 1) [a]) (i0 - 1) W c res -> wrote (S n) b0 i0 (W ++ [a]) c res.
Proof.
  intros Hi Ha (-> & Hl & HW & Hc). split_and!; [|rewrite length_app; simpl; lia|by apply Forall_snoc_1|lia..].
  rewrite splice_splice by (simpl; lia). by replace (i0 - 1 - n)%nat with (i0 - S n)%nat by lia.
Qed.

Lemma add_down_ok n : forall b1 (i1 : nat) b2 (i2 : nat) b0 (i0 : nat) c,
  (n <= i1 <= length b1)%nat -> (n <= i2 <= length b2)%nat -> (n <= i0 <= length b0)%nat -> 0 <= c <= 1 ->
  Forall is_word (seg b1 (i1 - n) n) -> Forall is_word (seg b2 (i2 - n) n) ->
  exists W c', wrote n b0 i0 W c' (add_down n b1 i1 b2 i2 b0 i0 c) /\
    wordsval W + c' * DIG_BASE ^ n = wordsval (seg b1 (i1 - n) n) + wordsval (seg b2 (i2 - n) n) + c.
Proof.
  induction n as [|n IH]; intros b1 i1 b2 i2 b0 i0 c H1 H2 H0 Hc W1 W2.
  - exists [], c. cbn [add_down]. split; [split_and!; try done; [by rewrite splice_nil, Nat.sub_0_r|lia..]|].
    rewrite !seg_nil. simpl. lia.
  - cbn [add_down]. destruct (get_down b1 i1) as (x & -> & Hx); [lia|]. obind.
    destruct (get_down b2 i2) as (y & -> & Hy); [lia|]. obind.
    rewrite (seg_last b1 i1 n x) in * by (done || lia). rewrite (seg_last b2 i2 n y) in * by (done || lia).
    apply Forall_app in W1 as [W1 Hx1]. apply Forall_app in W2 as [W2 Hy1].
    destruct (ADD_ok x y c) as (a & c1 & -> & Ha & Hc1 & E); [by inversion Hx1|by inversion Hy1|done|].
    rewrite put_down by lia. obind. rewrite !Z_down by lia.
    destruct (IH b1 (i1 - 1)%nat b2 (i2 - 1)%nat (splice b0 (i0 - 1) [a]) (i0 - 1)%nat c1)
      as (W & c' & HW & Hv); try (done || lia); [rewrite splice_length; simpl; lia|].
    exists (W ++ [a]), c'. split; [by apply wrote_step|].
    rewrite !horner_snoc, bpow_S. lia.
Qed.

Lemma carry_down_ok n : forall b1 (i1 : nat) b0 (i0 : nat) c,
  (n <= i1 <= length b1)%nat -> (n <= i0 <= length b0)%nat -> 0 <= c <= 1 ->
  Forall is_word (seg b1 (i1 - n) n) ->
  exists W c', wrote n b0 i0 W c' (carry_down n b1 i1 b0 i0 c) /\
    wordsval W + c' * DIG_BASE ^ n = wordsval (seg b1 (i1 - n) n) + c.
Proof.
  induction n as [|n IH]; intros b1 i1 b0 i0 c H1 H0 Hc W1.
  - exists [], c. cbn [carry_down]. split; [split_and!; try done; [by rewrite splice_nil, Nat.sub_0_r|lia..]|].
    rewrite !seg_nil. simpl. lia.
  - cbn [carry_down]. destruct (get_down b1 i1) as (x & -> & Hx); [lia|]. obind.
    rewrite (seg_last b1 i1 n x) in * by (done || lia). apply Forall_app in W1 as [W1 Hx1].
    destruct (ADD_ok x 0 c) as (a & c1 & -> & Ha & Hc1 & E); [by inversion Hx1|done|done|].
    rewrite put_down by lia. obind. rewrite !Z_down by lia.
    destruct (IH b1 (i1 - 1)%nat (splice b0 (i0 - 1) [a]) (i0 - 1)%nat c1)
      as (W & c' & HW & Hv); try (done || lia); [rewrite splice_length; simpl; lia|].
    exists (W ++ [a]), c'. split; [by apply wrote_step|].
    rewrite !horner_snoc, bpow_S. lia.
Qed.

(** A segment is written in front of another one. *)
Lemma wrote_app n m b0 i0 W V c (res : option (list Z * Z * Z)) :
  (n + m <= i0 <= length b0)%nat -> length V = m -> Forall is_word V ->
  wrote n (splice b0 (i0 - m) V) (i0 - m) W c res -> wrote (n + m) b0 i0 (W ++ V) c res.
Proof.
  intros Hi Hm HV (-> & Hl & HW & Hc). split_and!; [|rewrite length_app; lia|by apply Forall_app|lia..].
  rewrite splice_splice by lia. by replace (i0 - m - n)%nat with (i0 - (n + m))%nat by lia.
Qed.

(** The value of the first words of a buffer, when the words are split. *)
Lemma take_val b (m n k : nat) :
  (m + n + k <= length b)%nat ->
  wordsval (take (m + n + k) b)
  = wordsval (seg b 0 m) * DIG_BASE ^ (n + k)%nat + wordsval (seg b m n) * DIG_BASE ^ k + wordsval (seg b (m + n) k).
Proof.
  intros H. rewrite <- seg_0, !seg_app, !horner_app by done. rewrite !seg_length by lia.
  rewrite bpow_plus. simpl. lia.
Qed.

(** The three parts of the loops: [V1] was copied, [k] words are added, and the
    carry runs through the first [n] words of [b]. *)
Lemma add_parts b1 b2 b b0 (p1 p2 k d n j : nat) V1 :
  (p1 + k <= length b1)%nat -> (p2 + k <= length b2)%nat -> (n <= length b)%nat -> (j + n + k + d <= length b0)%nat ->
  length V1 = d -> Forall is_word V1 -> Forall is_word (seg b1 p1 k) -> Forall is_word (seg b2 p2 k) ->
  Forall is_word (seg b 0 n) ->
  exists W c, wrote (n + k + d) b0 (j + n + k + d) W c
      ('(b0, i0, c) ← add_down k b1 (p1 + k)%nat b2 (p2 + k)%nat (splice b0 (j + n + k) V1) (j + n + k)%nat 0;
       carry_down n b n b0 i0 c) /\
    wordsval W + c * DIG_BASE ^ (n + k + d)%nat
    = (wordsval (seg b 0 n) * DIG_BASE ^ k + wordsval (seg b1 p1 k) + wordsval (seg b2 p2 k)) * DIG_BASE ^ d + wordsval V1.
Proof.
  intros H1 H2 Hb H0 HV1 WV1 W1 W2 Wb.
  destruct (add_down_ok k b1 (p1 + k) b2 (p2 + k) (splice b0 (j + n + k) V1) (j + n + k) 0)
    as (V2 & c2 & (-> & HV2 & WV2 & Hc2) & E2); rewrite ?Nat.add_sub; try (done || lia).
  { rewrite splice_length; lia. }
  obind. rewrite !Nat.add_sub in *. rewrite splice_splice by lia.
  destruct (carry_down_ok n b n (splice b0 (j + n) (V2 ++ V1)) (j + n) c2) as (V3 & c3 & HV3 & E3);
    rewrite ?Nat.sub_diag in *; try (done || lia).
  { rewrite splice_length; rewrite ?length_app; lia. }
  exists (V3 ++ V2 ++ V1), c3. split.
  - rewrite <- Nat.add_assoc. apply wrote_app; [lia|rewrite length_app; lia|by apply Forall_app|].
    by replace (j + n + k + d - (k + d))%nat with (j + n)%nat by (clear; lia).
  - rewrite !horner_app, !length_app, HV1, HV2, !bpow_plus by done. clear - E2 E3.
    assert (wordsval (seg b 0 n) = wordsval V3 + c3 * DIG_BASE ^ n - c2) as -> by lia.
    assert (wordsval (seg b2 p2 k) = wordsval V2 + c2 * DIG_BASE ^ k - wordsval (seg b1 p1 k)) as -> by lia. ring.
Qed.

(** The first number has more words before the point. *)
Lemma add_loops_longer b1 b2 b0 (n m f d j : nat) :
  (n + m + f + d <= length b1)%nat -> (m + f <= length b2)%nat -> (j + n + (m + f) + d <= length b0)%nat ->
  Forall is_word (seg b1 0 (n + (m + f) + d)) -> Forall is_word (seg b2 0 (m + f)) -> (0 < n)%nat ->
  exists W c, wrote (n + (m + f) + d) b0 (j + n + (m + f) + d) W c
      (add_loops b1 (n + m)%nat (f + d)%nat b2 m f b0 (j + n + (m + f) + d)%nat) /\
    wordsval W + c * DIG_BASE ^ (n + (m + f) + d)%nat
    = wordsval (seg b1 0 (n + (m + f) + d)) + wordsval (seg b2 0 (m + f)) * DIG_BASE ^ d.
Proof.
  intros H1 H2 H0 W1 W2 Hn. unfold add_loops. rewrite Z.gtb_ltb, (proj2 (Z.ltb_lt _ _)) by lia. cbv zeta.
  replace (Z.to_nat ((n + m)%nat + (f + d)%nat - ((n + m)%nat + f))) with d by lia.
  replace ((n + m)%nat + (f + d)%nat) with (Z.of_nat (n + (m + f) + d)) by lia.
  rewrite copy_down_ok by lia. obind. rewrite !Nat.add_sub.
  replace ((n + m)%nat + f) with (Z.of_nat (n + (m + f))) by lia.
  replace (Z.of_nat m + f) with (Z.of_nat (0 + (m + f))) by lia.
  replace ((n + m)%nat - m) with (Z.of_nat n) by lia.
  replace (Z.to_nat ((n + (m + f))%nat - n)) with (m + f)%nat by lia. rewrite Nat2Z.id.
  destruct (add_parts b1 b2 b1 b0 n 0 (m + f) d n j (seg b1 (n + (m + f)) d)) as (W & c & HW & Hv); try (done || lia).
  - apply seg_length; lia.
  - eapply seg_Forall; [exact W1|lia|lia].
  - eapply seg_Forall; [exact W1|lia|lia].
  - eapply seg_Forall; [exact W1|lia|lia].
  - exists W, c. split; [done|].
    rewrite Hv, (seg_app b1 0 (n + (m + f)) d), (seg_app b1 0 n (m + f)), !horner_app, !seg_length by (done || lia).
    clear. simpl. ring.
Qed.

(** The second one has. *)
Lemma add_loops_shorter b1 b2 b0 (n m f d j : nat) :
  (m + f + d <= length b1)%nat -> (n + m + f <= length b2)%nat -> (j + n + (m + f) + d <= length b0)%nat ->
  Forall is_word (seg b1 0 (m + f + d)) -> Forall is_word (seg b2 0 (n + (m + f))) ->
  exists W c, wrote (n + (m + f) + d) b0 (j + n + (m + f) + d) W c
      (add_loops b1 m (f + d)%nat b2 (n + m)%nat f b0 (j + n + (m + f) + d)%nat) /\
    wordsval W + c * DIG_BASE ^ (n + (m + f) + d)%nat
    = wordsval (seg b1 0 (m + f + d)) + wordsval (seg b2 0 (n + (m + f))) * DIG_BASE ^ d.
Proof.
  intros H1 H2 H0 W1 W2. unfold add_loops. rewrite Z.gtb_ltb, (proj2 (Z.ltb_ge _ _)) by lia. cbv zeta.
  replace (Z.to_nat (m + (f + d)%nat - (Z.of_nat m + f))) with d by lia.
  replace (m + (f + d)%nat) with (Z.of_nat (m + f + d)) by lia.
  rewrite copy_down_ok by lia. obind. rewrite !Nat.add_sub.
  replace (Z.of_nat m + f) with (Z.of_nat (0 + (m + f))) by lia.
  replace ((n + m)%nat + f) with (Z.of_nat (n + (m + f))) by lia.
  replace ((n + m)%nat - m) with (Z.of_nat n) by lia. rewrite Z.sub_0_r, !Nat2Z.id.
  destruct (add_parts b1 b2 b2 b0 0 n (m + f) d n j (seg b1 (m + f) d)) as (W & c & HW & Hv); try (done || lia).
  - apply seg_length; lia.
  - eapply seg_Forall; [exact W1|lia|lia].
  - eapply seg_Forall; [exact W1|lia|lia].
  - eapply seg_Forall; [exact W2|lia|lia].
  - eapply seg_Forall; [exact W2|lia|lia].
  - exists W, c. split; [done|].
    rewrite Hv, (seg_app b1 0 (m + f) d), (seg_app b2 0 n (m + f)), !horner_app, !seg_length by (done || lia). clear. simpl. ring.
Qed.

Lemma add_loops_ok b1 (I1 F1 : nat) b2 (I2 F2 : nat) b0 (i0 : nat) :
  (F2 <= F1)%nat -> (I1 + F1 <= length b1)%nat -> (I2 + F2 <= length b2)%nat ->
  (Nat.max I1 I2 + F1 <= i0 <= length b0)%nat ->
  Forall is_word (take (I1 + F1) b1) -> Forall is_word (take (I2 + F2) b2) ->
  exists W c, wrote (Nat.max I1 I2 + F1) b0 i0 W c (add_loops b1 I1 F1 b2 I2 F2 b0 i0) /\
    wordsval W + c * DIG_BASE ^ (Nat.max I1 I2 + F1)%nat
    = wordsval (take (I1 + F1) b1) + wordsval (take (I2 + F2) b2) * DIG_BASE ^ (F1 - F2)%nat.
Proof.
  intros HF H1 H2 H0. rewrite <- !seg_0.
  assert (exists d, F1 = (F2 + d)%nat) as [d ->] by (exists (F1 - F2)%nat; lia).
  replace (F2 + d - F2)%nat with d by lia. destruct (Nat.lt_ge_cases I2 I1) as [Hlt|Hge].
  - assert (exists n, I1 = (n + I2)%nat) as [n ->] by (exists (I1 - I2)%nat; lia).
    assert (exists j, i0 = (j + n + (I2 + F2) + d)%nat) as [j ->] by (exists (i0 - (n + (I2 + F2) + d))%nat; lia).
    rewrite Nat.max_l by lia. replace (n + I2 + (F2 + d))%nat with (n + (I2 + F2) + d)%nat by lia.
    intros. apply add_loops_longer; (done || lia).
  - assert (exists n, I2 = (n + I1)%nat) as [n ->] by (exists (I2 - I1)%nat; lia).
    assert (exists j, i0 = (j + n + (I1 + F2) + d)%nat) as [j ->] by (exists (i0 - (n + (I1 + F2) + d))%nat; lia).
    rewrite Nat.max_r by lia. replace (n + I1 + (F2 + d))%nat with (n + (I1 + F2) + d)%nat by lia.
    rewrite Nat.add_assoc. replace (n + I1 + F2)%nat with (n + (I1 + F2))%nat by lia.
    intros. apply add_loops_shorter; (done || lia).
Qed.

(** ** do_add *)

Lemma max_decimal_all (to : decimal_t) :
  dest_ok to ->
  max_decimal (len to * DIG_PER_DEC1) 0 to
  = Some (mk_dec (len to * DIG_PER_DEC1) 0 (len to) false (replicate (length (buf to)) DIG_MAX)).
Proof.
  intros [Hl He]. unfold max_decimal, DIG_PER_DEC1. rewrite Z.sub_0_r.
  rewrite (proj2 (Z.eqb_neq (len to * 9) 0)) by lia. cbn [negb].
  rewrite Z.rem_mul, Z.quot_mul by lia. cbn [Z.eqb negb]. obind.
  pose proof (fill_ok (length (buf to)) DIG_MAX (buf to) 0 ltac:(lia)) as Hf.
  rewrite He, Nat2Z.id. change (Z.of_nat 0) with 0 in Hf. rewrite Hf. obind. cbn [Z.eqb negb]. obind.
  do 2 f_equal. unfold splice. rewrite take_0, length_replicate, drop_ge by lia. by rewrite app_nil_r.
Qed.

Lemma horner_nines n : wordsval (replicate n DIG_MAX) = DIG_BASE ^ n - 1.
Proof.
  induction n as [|n IH]; [done|]. cbn [replicate horner]. rewrite IH, length_replicate, bpow_S.
  unfold DIG_MAX. lia.
Qed.

(** The first word bounds the value. *)
Lemma first_word_bound w l : Forall is_word (w :: l) ->
  w * DIG_BASE ^ length l <= wordsval (w :: l) < (w + 1) * DIG_BASE ^ length l.
Proof.
  intros H. apply Forall_inv_tail in H as Hl. pose proof (horner_bound DIG_BASE base_ge2 l Hl). cbn [horner]. lia.
Qed.

Lemma cut_first_word n d w : dec_ok d -> buf d !! 0%nat = Some w -> (0 < iw d + n)%nat ->
  w * DIG_BASE ^ (iw d + n - 1)%nat <= cut n d < (w + 1) * DIG_BASE ^ (iw d + n - 1)%nat.
Proof.
  intros H Hw Hn. unfold cut. pose proof (ok_room d H) as Hr. pose proof (words_nonempty d H) as Hne.
  set (k := Nat.min (fw d) n). assert (0 < iw d + k)%nat as Hk by lia.
  assert (Forall is_word (take (iw d + k) (buf d))) as HF.
  { pose proof (ok_words d H) as HF. unfold dwords in HF. apply (Forall_take _ (iw d + k)) in HF.
    by rewrite take_take, Nat.min_l in HF by lia. }
  destruct (buf d) as [|w' l]; [done|]. injection Hw as ->. simpl in Hr.
  destruct (iw d + k)%nat as [|j] eqn:Ej; [lia|]. cbn [firstn] in *.
  pose proof (first_word_bound w (take j l) HF) as Hb. rewrite length_take, Nat.min_l in Hb by lia.
  replace (iw d + n - 1)%nat with (j + (n - k))%nat by lia. rewrite bpow_plus.
  pose proof (bpow_pos (n - k)). nia.
Qed.

Lemma first_word d : dec_ok d -> exists w, buf d !! 0%nat = Some w /\ is_word w.
Proof.
  intros H. pose proof (ok_room d H). pose proof (words_nonempty d H).
  destruct (buf d) as [|w l] eqn:E; [simpl in *; lia|]. exists w. split; [done|].
  pose proof (ok_words d H) as HF. unfold dwords in HF. rewrite E in HF.
  destruct (iw d + fw d)%nat; [lia|]. cbn [firstn] in HF. by inversion HF.
Qed.

(** The word that decides whether a word for a carry is needed. *)
Definition top (a b : decimal_t) : Z :=
  let x := default 0 (buf a !! 0%nat) in
  let y := default 0 (buf b !! 0%nat) in
  if (iw b <? iw a)%nat then x else if (iw a <? iw b)%nat then y else x + y.

Lemma bpow_mono (m n : nat) : (m <= n)%nat -> DIG_BASE ^ m <= DIG_BASE ^ n.
Proof. intros. apply Z.pow_le_mono_r; [done|lia]. Qed.

(** Without that word the sum fits, with it the sum is close to the bound. *)
Lemma top_bounds a b n : dec_ok a -> dec_ok b -> (0 < Nat.max (iw a) (iw b) + n)%nat ->
  let k := (Nat.max (iw a) (iw b) + n - 1)%nat in
  top a b * DIG_BASE ^ k <= cut n a + cut n b < (top a b + 2) * DIG_BASE ^ k.
Proof.
  intros Ha Hb Hn k. destruct (first_word a Ha) as (x & Hx & Wx), (first_word b Hb) as (y & Hy & Wy).
  unfold top. rewrite Hx, Hy. cbn [default from_option id].
  pose proof (cut_bound n a Ha) as Ca. pose proof (cut_bound n b Hb) as Cb.
  destruct (Nat.ltb_spec (iw b) (iw a)); [|destruct (Nat.ltb_spec (iw a) (iw b))].
  - pose proof (cut_first_word n a x Ha Hx ltac:(lia)) as Hf.
    replace (iw a + n - 1)%nat with k in Hf by lia.
    pose proof (bpow_mono (iw b + n) k ltac:(lia)). lia.
  - pose proof (cut_first_word n b y Hb Hy ltac:(lia)) as Hf.
    replace (iw b + n - 1)%nat with k in Hf by lia.
    pose proof (bpow_mono (iw a + n) k ltac:(lia)). lia.
  - pose proof (cut_first_word n a x Ha Hx ltac:(lia)) as Hf.
    pose proof (cut_first_word n b y Hb Hy ltac:(lia)) as Hg.
    replace (iw a + n - 1)%nat with k in Hf by lia. replace (iw b + n - 1)%nat with k in Hg by lia. lia.
Qed.

Lemma cut_words n d : dec_ok d ->
  Forall is_word (take (iw d + Nat.min (fw d) n) (buf d)) /\ (iw d + Nat.min (fw d) n <= length (buf d))%nat.
Proof.
  intros H. pose proof (ok_room d H). split; [|lia]. pose proof (ok_words d H) as HF. unfold dwords in HF.
  apply (Forall_take _ (iw d + Nat.min (fw d) n)) in HF. by rewrite take_take, Nat.min_l in HF by lia.
Qed.

(** The loops, with the operands in the order of their fractions. *)
Lemma add_order_ok a b n b0 (i0 : nat) :
  dec_ok a -> dec_ok b -> (n <= Nat.max (fw a) (fw b))%nat ->
  (Nat.max (iw a) (iw b) + n <= i0 <= length b0)%nat ->
  let fa := Nat.min (fw a) n in let fb := Nat.min (fw b) n in
  exists W c, wrote (Nat.max (iw a) (iw b) + n) b0 i0 W c
      (if Z.of_nat fa >? fb then add_loops (buf a) (iw a) fa (buf b) (iw b) fb b0 i0
       else add_loops (buf b) (iw b) fb (buf a) (iw a) fa b0 i0) /\
    wordsval W + c * DIG_BASE ^ (Nat.max (iw a) (iw b) + n)%nat = cut n a + cut n b.
Proof.
  intros Ha Hb Hn Hi fa fb. destruct (cut_words n a Ha) as [Wa La], (cut_words n b Hb) as [Wb Lb].
  unfold cut. fold fa fb. fold fa in Wa, La. fold fb in Wb, Lb. rewrite Z.gtb_ltb. destruct (Z.ltb_spec fb fa).
  - assert (fa = n) as E by lia. rewrite E in Wa, La |- *.
    destruct (add_loops_ok (buf a) (iw a) n (buf b) (iw b) fb b0 i0) as (W & c & HW & Hv); try (done || lia).
    exists W, c. split; [done|]. rewrite Hv, Nat.sub_diag. change (DIG_BASE ^ 0%nat) with 1. lia.
  - assert (fb = n) as E by lia. rewrite E in Wb, Lb |- *. rewrite Nat.max_comm in Hi |- *.
    destruct (add_loops_ok (buf b) (iw b) n (buf a) (iw a) fa b0 i0) as (W & c & HW & Hv); try (done || lia).
    exists W, c. split; [done|]. rewrite Hv, Nat.sub_diag. change (DIG_BASE ^ 0%nat) with 1. lia.
Qed.

(** The loops and the carry: [e] is 1 if there is a word for it. *)
Lemma add_core a b n e b0 :
  dec_ok a -> dec_ok b -> (n <= Nat.max (fw a) (fw b))%nat ->
  (e + Nat.max (iw a) (iw b) + n <= length b0)%nat ->
  (if (e =? 0)%nat then top a b <= DIG_MAX - 1 else e = 1%nat /\ b0 !! 0%nat = Some 0) ->
  (0 < Nat.max (iw a) (iw b) + n \/ e = 1)%nat ->
  let fa := Nat.min (fw a) n in let fb := Nat.min (fw b) n in
  let i0 := (e + Nat.max (iw a) (iw b) + n)%nat in
  exists V,
    ('(b0, i0, carry) ← (if Z.of_nat fa >? fb then add_loops (buf a) (iw a) fa (buf b) (iw b) fb b0 i0
                         else add_loops (buf b) (iw b) fb (buf a) (iw a) fa b0 i0);
     if negb (carry =? 0) then put b0 (i0 - 1) 1 else Some b0) = Some (splice b0 0 V) /\
    length V = i0 /\ Forall is_word V /\ wordsval V = cut n a + cut n b.
Proof.
  intros Ha Hb Hn Hl He Hp fa fb i0. subst fa fb.
  destruct (add_order_ok a b n b0 i0 Ha Hb Hn ltac:(lia)) as (W & c & (-> & HlW & HW & Hc) & Hv). obind.
  replace (i0 - (Nat.max (iw a) (iw b) + n))%nat with e by lia.
  pose proof (horner_bound DIG_BASE base_ge2 W HW) as HbW. rewrite HlW in HbW.
  pose proof (bpow_pos (Nat.max (iw a) (iw b) + n)) as Hpp.
  destruct (Nat.eqb_spec e 0) as [->|Hne].
  - pose proof (top_bounds a b n Ha Hb ltac:(lia)) as Ht. cbv zeta in Ht. rewrite <- Hv in Ht.
    assert (c = 0) as ->.
    { remember (Nat.max (iw a) (iw b) + n - 1)%nat as k eqn:Hk.
      replace (Nat.max (iw a) (iw b) + n)%nat with (S k) in HbW, Ht by lia.
      rewrite bpow_S in *. pose proof (bpow_pos k). unfold DIG_MAX in He.
      assert ((top a b + 2) * DIG_BASE ^ k <= DIG_BASE * DIG_BASE ^ k) by (apply Z.mul_le_mono_nonneg_r; lia).
      destruct (decide (c = 1)) as [->|]; lia. }
    cbn [Z.eqb negb]. exists W. split_and!; [done|lia|done|lia].
  - destruct He as [-> H0]. destruct b0 as [|z b0]; [done|]. injection H0 as ->. exists (c :: W).
    assert (is_word c) by (unfold is_digit, DIG_BASE; lia). split_and!; [|simpl; lia|by constructor|].
    + destruct (Z.eqb_spec c 0) as [->|Hc1]; cbn [negb].
      * unfold splice. simpl. done.
      * assert (c = 1) as -> by lia. rewrite put_nat || rewrite (put_down _ 1) by (rewrite splice_length; simpl in *; lia).
        rewrite splice_splice by (simpl in *; lia). done.
    + cbn [horner]. rewrite HlW. lia.
Qed.

Lemma take_splice_0 b V : (length V <= length b)%nat -> take (length V) (splice b 0 V) = V.
Proof. intros H. unfold splice. rewrite take_0. cbn [app]. apply take_app_length. Qed.

(** A number made of [i] and [n] words at the start of a buffer. *)
Lemma mk_dec_ok (i n : nat) (f l : Z) s b V :
  ROUND_UP f = n -> 0 <= f -> (0 < i + n)%nat -> length V = (i + n)%nat -> (i + n <= length b)%nat ->
  Forall is_word V -> l = length b ->
  let d := mk_dec (i * DIG_PER_DEC1) f l s (splice b 0 V) in
  dec_ok d /\ iw d = i /\ fw d = n /\ mag d = wordsval V.
Proof.
  intros Hf Hf0 Hp HV Hl HW -> d. assert (iw d = i) as Hi.
  { unfold iw. simpl. unfold DIG_PER_DEC1. rewrite round_up_words by lia. lia. }
  assert (fw d = n) as Hn by (unfold fw; simpl; lia).
  assert (dwords d = V) as Hd.
  { unfold dwords. rewrite Hi, Hn, <- HV. simpl. apply take_splice_0. lia. }
  split_and!; [|done|done|by unfold mag; rewrite Hd]. split; simpl; unfold DIG_PER_DEC1.
  - lia.
  - done.
  - pose proof (round_up_bounds f Hf0). lia.
  - by rewrite splice_length by lia.
  - rewrite Hi, Hn, splice_length; lia.
  - by rewrite Hd.
Qed.

(** The number of fraction words of a sum: all of them, or those that fit. *)
Lemma sum_frac a b (n : nat) : dec_ok a -> dec_ok b ->
  (n = Nat.max (fw a) (fw b) -> ROUND_UP (Z.max (frac a) (frac b)) = n) /\
  ((n < Nat.max (fw a) (fw b))%nat -> Z.min (Z.max (frac a) (frac b)) (n * DIG_PER_DEC1) = n * DIG_PER_DEC1).
Proof.
  intros Ha Hb. pose proof (Z_fw a Ha) as Fa. pose proof (Z_fw b Hb) as Fb.
  pose proof (ok_frac a Ha). pose proof (ok_frac b Hb). split.
  - intros ->. rewrite round_up_max by done. lia.
  - intros Hn. pose proof (round_up_bounds (frac a)). pose proof (round_up_bounds (frac b)). unfold DIG_PER_DEC1. lia.
Qed.

(** How do_add and do_sub store a number with the sign [s] whose magnitude is
    [m n] if [n] fraction words are kept: all fraction words of the operands,
    or, with E_DEC_TRUNCATED, those that fit. *)
Definition stored (a b : decimal_t) (s : bool) (m : nat -> Z) (e : Z) (to to' : decimal_t) : Prop :=
  dec_ok to' /\ len to' = len to /\ sign to' = s /\ (9 | intg to') /\ mag to' = m (fw to') /\
  if e =? E_DEC_OK then frac to' = Z.max (frac a) (frac b)
  else e = E_DEC_TRUNCATED /\ (fw to' < Nat.max (fw a) (fw b))%nat /\ frac to' = 9 * fw to'.

(** The fraction words and the new frac for an error. *)
Definition frac_kept (a b : decimal_t) (n : nat) (e tofrac : Z) : Prop :=
  if e =? E_DEC_OK then n = Nat.max (fw a) (fw b) /\ tofrac = Z.max (frac a) (frac b)
  else e = E_DEC_TRUNCATED /\ (n < Nat.max (fw a) (fw b))%nat /\ tofrac = n * DIG_PER_DEC1.

Lemma mk_stored a b s m e to (i n : nat) tofrac V b0 :
  dec_ok a -> dec_ok b -> len to = length b0 -> frac_kept a b n e tofrac -> (0 < i + n <= length b0)%nat ->
  length V = (i + n)%nat -> Forall is_word V -> wordsval V = m n ->
  stored a b s m e to (mk_dec (i * DIG_PER_DEC1) tofrac (len to) s (splice b0 0 V)).
Proof.
  unfold frac_kept. intros Ha Hb Hlen Hfr Hi HlV WV Hv. destruct (sum_frac a b n Ha Hb) as [Hs1 Hs2].
  assert (ROUND_UP tofrac = n /\ 0 <= tofrac) as [Hf1 Hf2].
  { pose proof (ok_frac a Ha). pose proof (ok_frac b Hb). destruct (e =? E_DEC_OK).
    - destruct Hfr as [-> ->]. split; [by apply Hs1|lia].
    - destruct Hfr as (_ & _ & ->). unfold DIG_PER_DEC1. rewrite round_up_words by lia. lia. }
  destruct (mk_dec_ok i n tofrac (len to) s b0 V) as (Hok & Hi' & Hn' & Hm); try (done || lia).
  split_and!; [done|done|done| |by rewrite Hm, Hn'|].
  - simpl. unfold DIG_PER_DEC1. by exists i.
  - destruct (e =? E_DEC_OK); [apply Hfr|]. rewrite Hn'. destruct Hfr as (-> & Hlt & ->).
    simpl. unfold DIG_PER_DEC1. split_and!; [done|done|lia].
Qed.

(** What do_add stores when it does not overflow. *)
Definition sum_stored (a b : decimal_t) (e : Z) (to to' : decimal_t) : Prop :=
  stored a b (sign a) (fun n => cut n a + cut n b) e to to'.

(** The end of do_add, for the word of the carry and the words that fit. *)
Lemma do_add_end a b to e n b0 :
  dec_ok a -> dec_ok b -> (n <= Nat.max (fw a) (fw b))%nat -> length b0 = length (buf to) -> dest_ok to ->
  (e + Nat.max (iw a) (iw b) + n <= length b0)%nat ->
  (if (e =? 0)%nat then top a b <= DIG_MAX - 1 else e = 1%nat /\ b0 !! 0%nat = Some 0) ->
  (0 < Nat.max (iw a) (iw b) + n \/ e = 1)%nat ->
  forall err tofrac, frac_kept a b n err tofrac ->
  let fa := Nat.min (fw a) n in let fb := Nat.min (fw b) n in
  let i0 := (e + Nat.max (iw a) (iw b))%nat in
  exists to',
    ('(b0, i, carry) ← (if Z.of_nat fa >? fb then add_loops (buf a) (iw a) fa (buf b) (iw b) fb b0 (i0 + n)%nat
                        else add_loops (buf b) (iw b) fb (buf a) (iw a) fa b0 (i0 + n)%nat);
     b0 ← (if negb (carry =? 0) then put b0 (i - 1) 1 else Some b0);
     Some (err, mk_dec (i0 * DIG_PER_DEC1) tofrac (len to) (sign a) b0)) = Some (err, to') /\
    sum_stored a b err to to'.
Proof.
  intros Ha Hb Hn Hlb [Hl0 Hlen] Hl He Hp err tofrac Hfr fa fb i0.
  destruct (add_core a b n e b0 Ha Hb Hn Hl He Hp) as (V & HV & HlV & WV & Hv). cbv zeta in HV. fold fa fb in HV.
  destruct (if Z.of_nat fa >? fb then _ else _) as [[[b1 i1] c1]|]; [|done]. cbn in HV |- *. rewrite HV. obind.
  eexists. split; [reflexivity|]. apply (mk_stored _ _ _ _ _ _ i0 n); (done || lia).
Qed.

(** The largest number of a buffer. *)
Definition max_number (l : Z) : decimal_t := mk_dec (l * DIG_PER_DEC1) 0 l false (replicate (Z.to_nat l) DIG_MAX).

Lemma max_number_ok l : 0 < l ->
  let d := max_number l in dec_ok d /\ iw d = Z.to_nat l /\ fw d = 0%nat /\ mag d = DIG_BASE ^ l - 1.
Proof.
  intros Hl d. set (n := Z.to_nat l).
  assert (d = mk_dec (n * DIG_PER_DEC1) 0 l false (splice (replicate n DIG_MAX) 0 (replicate n DIG_MAX))) as ->.
  { unfold d, max_number. fold n. replace (Z.of_nat n) with l by lia. f_equal. unfold splice.
    rewrite take_0, length_replicate, drop_ge by (rewrite length_replicate; lia). by rewrite app_nil_r. }
  destruct (mk_dec_ok n 0 0 l false (replicate n DIG_MAX) (replicate n DIG_MAX)) as (? & ? & ? & Hm);
    rewrite ?length_replicate; try (done || lia); [by apply Forall_replicate|].
  split_and!; try done. rewrite Hm, horner_nines. f_equal. f_equal. lia.
Qed.

Lemma top_code a b : dec_ok a -> dec_ok b ->
  (if Z.of_nat (iw a) >? iw b then get (buf a) 0
   else if Z.of_nat (iw b) >? iw a then get (buf b) 0
   else x ← get (buf a) 0; y ← get (buf b) 0; Some (s32 (x + y))) = Some (top a b).
Proof.
  intros Ha Hb. destruct (first_word a Ha) as (x & Hx & Wx), (first_word b Hb) as (y & Hy & Wy).
  unfold is_digit, DIG_BASE in Wx, Wy. unfold top. change 0 with (Z.of_nat 0%nat). rewrite !get_nat, Hx, Hy.
  cbn [default from_option id]. rewrite !Z.gtb_ltb.
  destruct (Nat.ltb_spec (iw b) (iw a)).
  - by rewrite (proj2 (Z.ltb_lt _ _)) by lia.
  - rewrite (proj2 (Z.ltb_ge _ _)) by lia. destruct (Nat.ltb_spec (iw a) (iw b)).
    + by rewrite (proj2 (Z.ltb_lt _ _)) by lia.
    + rewrite (proj2 (Z.ltb_ge _ _)) by lia. obind. by rewrite s32_small by lia.
Qed.

(** The overflow of do_add: the integer part with the word for a carry does not
    fit. *)
Definition sum_overflow (a b to : decimal_t) : Prop :=
  len to < Nat.max (iw a) (iw b) + b2z (top a b >? DIG_MAX - 1).

Lemma do_add_ok a b to :
  dec_ok a -> dec_ok b -> dest_ok to ->
  exists e to', do_add a b to = Some (e, to') /\
    if e =? E_DEC_OVERFLOW then sum_overflow a b to /\ to' = max_number (len to)
    else ~ sum_overflow a b to /\ sum_stored a b e to to'.
Proof.
  intros Ha Hb Hto. pose proof Hto as [Hl0 Hlen]. unfold do_add, sum_overflow.
  rewrite (Z_iw a Ha), (Z_iw b Hb), (Z_fw a Ha), (Z_fw b Hb). cbv zeta. rewrite top_code by done. obind.
  set (x := top a b >? DIG_MAX - 1).
  assert (exists e b0, (if x then b0 ← put (buf to) 0 0; Some (Z.max (iw a) (iw b) + 1, b0)
                        else Some (Z.max (iw a) (iw b), buf to))
                       = Some (Z.of_nat (e + Nat.max (iw a) (iw b)), b0) /\ b2z x = e /\
      length b0 = length (buf to) /\
      (if (e =? 0)%nat then top a b <= DIG_MAX - 1 else e = 1%nat /\ b0 !! 0%nat = Some 0))
    as (e & b0 & -> & Hx & Hlb & He).
  { unfold x. rewrite Z.gtb_ltb. destruct (Z.ltb_spec (DIG_MAX - 1) (top a b)).
    - exists 1%nat, (<[0%nat := 0]> (buf to)). change 0 with (Z.of_nat 0) at 1. rewrite put_nat by lia. obind.
      split_and!; [do 2 f_equal; lia|done|by rewrite length_insert|]. split; [done|]. apply list_lookup_insert_eq. lia.
    - exists 0%nat, (buf to). split_and!; [do 2 f_equal; lia|done|done|done]. }
  obind. unfold FIX_INTG_FRAC_ERROR. rewrite !Z.gtb_ltb, Hx. pose proof (words_nonempty a Ha).
  assert (e <= 1)%nat as He1 by (unfold b2z in Hx; destruct x; lia).
  replace (Z.max (fw a) (fw b)) with (Z.of_nat (Nat.max (fw a) (fw b))) by lia.
  destruct (Z.ltb_spec (len to) ((e + Nat.max (iw a) (iw b))%nat + Nat.max (fw a) (fw b))) as [H1|H1];
    [destruct (Z.ltb_spec (len to) ((e + Nat.max (iw a) (iw b))%nat)) as [H2|H2]|].
  - cbn. assert (dest_ok (set_buf to b0)) as Hd by (split; simpl; [done|by rewrite Hlb]).
    pose proof (max_decimal_all (set_buf to b0) Hd) as Hm. cbn in Hm. rewrite Hm. obind.
    eexists _, _. split; [reflexivity|]. cbn. split; [lia|]. unfold max_number. do 2 f_equal. lia.
  - remember (length (buf to) - (e + Nat.max (iw a) (iw b)))%nat as n eqn:En.
    replace (len to - (e + Nat.max (iw a) (iw b))%nat) with (Z.of_nat n) by lia.
    change (E_DEC_TRUNCATED =? E_DEC_OVERFLOW) with false. change (negb (E_DEC_TRUNCATED =? 0)) with true. cbv iota beta.
    replace (Z.min (fw a) n) with (Z.of_nat (Nat.min (fw a) n)) by lia.
    replace (Z.min (fw b) n) with (Z.of_nat (Nat.min (fw b) n)) by lia.
    replace (Z.min (iw a) (e + Nat.max (iw a) (iw b))%nat) with (Z.of_nat (iw a)) by lia.
    replace (Z.min (iw b) (e + Nat.max (iw a) (iw b))%nat) with (Z.of_nat (iw b)) by lia.
    rewrite <- Nat2Z.inj_add. rewrite (proj2 (sum_frac a b n Ha Hb)) by lia.
    destruct (do_add_end a b to e n b0 Ha Hb ltac:(lia) Hlb Hto ltac:(lia) He ltac:(lia) E_DEC_TRUNCATED (n * DIG_PER_DEC1))
      as (to' & -> & Hs); [cbn; split_and!; [done|lia|done]|].
    eexists _, _. split; [reflexivity|]. cbn. split; [lia|done].
  - remember (Nat.max (fw a) (fw b)) as n eqn:En. change (E_DEC_OK =? E_DEC_OVERFLOW) with false. change (negb (E_DEC_OK =? 0)) with false.
    cbv iota beta. rewrite <- Nat2Z.inj_add.
    destruct (do_add_end a b to e n b0 Ha Hb ltac:(lia) Hlb Hto ltac:(lia) He ltac:(lia) E_DEC_OK (Z.max (frac a) (frac b)))
      as (to' & Hr & Hs); [cbn; by split_and!|].
    cbv zeta in Hr. rewrite (Nat.min_l (fw a) n), (Nat.min_l (fw b) n) in Hr by lia. rewrite Hr.
    eexists _, _. split; [reflexivity|]. cbn. split; [lia|done].
Qed.
