(* ===== verification/DecSub.v ===== *)
(** * Fixed point numbers: proofs about differences and comparison

    do_sub first compares the magnitudes and then subtracts the lesser one
    from the greater one, cut to the fraction words that the result has room
    for. *)

From stdpp Require Import prelude list list_numbers numbers.
From Stdlib Require Import ZArith QArith Lia ZifyNat Bool.
From S2P Require Import Prelude Horner Decimal DecBase DecAdd.
Open Scope Z_scope.

#[local] Coercion Z.of_nat : nat >-> Z.

Lemma SUB_ok x y c : is_word x -> is_word y -> 0 <= c <= 1 ->
  exists a c', SUB x y c = (a, c') /\ is_word a /\ 0 <= c' <= 1 /\ a - c' * DIG_BASE = x - y - c.
Proof.
  unfold is_digit, SUB, DIG_BASE. intros Hx Hy Hc. rewrite (s32_small (x - y - c)) by lia.
  case_if; eexists _, _; (split; [done|]); nowrap; lia.
Qed.

(** ** The loops *)

Lemma neg_down_ok n : forall b2 (i2 : nat) b0 (i0 : nat) c,
  (n <= i2 <= length b2)%nat -> (n <= i0 <= length b0)%nat -> 0 <= c <= 1 ->
  Forall is_word (seg b2 (i2 - n) n) ->
  exists W c', wrote n b0 i0 W c' (neg_down n b2 i2 b0 i0 c) /\
    wordsval W - c' * DIG_BASE ^ n = - wordsval (seg b2 (i2 - n) n) - c.
Proof.
  induction n as [|n IH]; intros b2 i2 b0 i0 c H2 H0 Hc W2.
  - exists [], c. cbn [neg_down]. split; [split_and!; try done; [by rewrite splice_nil, Nat.sub_0_r|lia..]|].
    rewrite !seg_nil. simpl. lia.
  - cbn [neg_down]. destruct (get_down b2 i2) as (y & -> & Hy); [lia|]. obind.
    rewrite (seg_last b2 i2 n y) in * by (done || lia). apply Forall_app in W2 as [W2 Hy1].
    destruct (SUB_ok 0 y c) as (a & c1 & -> & Ha & Hc1 & E); [done|by inversion Hy1|done|].
    rewrite put_down by lia. obind. rewrite !Z_down by lia.
    destruct (IH b2 (i2 - 1)%nat (splice b0 (i0 - 1) [a]) (i0 - 1)%nat c1)
      as (W & c' & HW & Hv); try (done || lia); [rewrite splice_length; simpl; lia|].
    exists (W ++ [a]), c'. split; [by apply wrote_step|].
    rewrite !horner_snoc, bpow_S. lia.
Qed.

(** The same for loops that also return the place in the first operand. *)
Definition wrote1 (n : nat) (b0 : list Z) (i0 : nat) (i1 : nat) (W : list Z) (c : Z)
  (res : option (list Z * Z * Z * Z)) : Prop :=
  res = Some (splice b0 (i0 - n) W, Z.of_nat (i0 - n), Z.of_nat (i1 - n), c) /\
  length W = n /\ Forall is_word W /\ 0 <= c <= 1.

Lemma wrote1_step n b0 i0 i1 a W c (res : option (list Z * Z * Z * Z)) :
  (S n <= i0 <= length b0)%nat -> is_word a ->
  wrote1 n (splice b0 (i0 - 1) [a]) (i0 - 1) (i1 - 1) W c res -> wrote1 (S n) b0 i0 i1 (W ++ [a]) c res.
Proof.
  intros Hi Ha (-> & Hl & HW & Hc). split_and!; [|rewrite length_app; simpl; lia|by apply Forall_snoc_1|lia..].
  rewrite splice_splice by (simpl; lia). replace (i0 - 1 - n)%nat with (i0 - S n)%nat by lia.
  by replace (i1 - 1 - n)%nat with (i1 - S n)%nat by lia.
Qed.

Lemma sub_down_ok n : forall b1 (i1 : nat) b2 (i2 : nat) b0 (i0 : nat) c,
  (n <= i1 <= length b1)%nat -> (n <= i2 <= length b2)%nat -> (n <= i0 <= length b0)%nat -> 0 <= c <= 1 ->
  Forall is_word (seg b1 (i1 - n) n) -> Forall is_word (seg b2 (i2 - n) n) ->
  exists W c', wrote1 n b0 i0 i1 W c' (sub_down n b1 i1 b2 i2 b0 i0 c) /\
    wordsval W - c' * DIG_BASE ^ n = wordsval (seg b1 (i1 - n) n) - wordsval (seg b2 (i2 - n) n) - c.
Proof.
  induction n as [|n IH]; intros b1 i1 b2 i2 b0 i0 c H1 H2 H0 Hc W1 W2.
  - exists [], c. cbn [sub_down]. split; [split_and!; try done; [by rewrite splice_nil, !Nat.sub_0_r|lia..]|].
    rewrite !seg_nil. simpl. lia.
  - cbn [sub_down]. destruct (get_down b1 i1) as (x & -> & Hx); [lia|]. obind.
    destruct (get_down b2 i2) as (y & -> & Hy); [lia|]. obind.
    rewrite (seg_last b1 i1 n x) in * by (done || lia). rewrite (seg_last b2 i2 n y) in * by (done || lia).
    apply Forall_app in W1 as [W1 Hx1]. apply Forall_app in W2 as [W2 Hy1].
    destruct (SUB_ok x y c) as (a & c1 & -> & Ha & Hc1 & E); [by inversion Hx1|by inversion Hy1|done|].
    rewrite put_down by lia. obind. rewrite !Z_down by lia.
    destruct (IH b1 (i1 - 1)%nat b2 (i2 - 1)%nat (splice b0 (i0 - 1) [a]) (i0 - 1)%nat c1)
      as (W & c' & HW & Hv); try (done || lia); [rewrite splice_length; simpl; lia|].
    exists (W ++ [a]), c'. split; [by apply wrote1_step|].
    rewrite !horner_snoc, bpow_S. lia.
Qed.

(** The borrow is propagated and the words in front of it are copied; [n]
    words are left in front of [s + n]. *)
Lemma borrow_copy_ok n : forall b1 (s : nat) b0 (i0 : nat) c,
  (s + n <= length b1)%nat -> (n <= i0 <= length b0)%nat -> 0 <= c <= 1 -> Forall is_word (seg b1 s n) ->
  exists W c',
    ('(b0, i0, p1, _) ← borrow_down n b1 (s + n)%nat b0 i0 c;
     copy_down (Z.to_nat (p1 - s)) b1 p1 b0 i0) = Some (splice b0 (i0 - n) W, Z.of_nat (i0 - n)) /\
    length W = n /\ Forall is_word W /\ 0 <= c' <= 1 /\ wordsval W - c' * DIG_BASE ^ n = wordsval (seg b1 s n) - c.
Proof.
  induction n as [|n IH]; intros b1 s b0 i0 c H1 H0 Hc W1.
  - exists [], c. cbn [borrow_down]. obind. rewrite Nat.add_0_r, Z.sub_diag. cbn [Z.to_nat copy_down].
    split_and!; try (done || lia); [by rewrite splice_nil, Nat.sub_0_r|]. rewrite seg_nil. simpl. lia.
  - cbn [borrow_down]. destruct (Z.eqb_spec c 0) as [->|Hne]; cbn [negb].
    + obind. replace (Z.to_nat ((s + S n)%nat - s)) with (S n) by lia.
      rewrite copy_down_ok by lia. replace (s + S n - S n)%nat with s by lia.
      exists (seg b1 s (S n)), 0. split_and!; try (done || lia). by apply seg_length.
    + assert (c = 1) as -> by lia. destruct (get_down b1 (s + S n)) as (x & -> & Hx); [lia|]. obind.
      replace (s + S n - 1)%nat with (s + n)%nat in Hx by lia. rewrite (seg_snoc b1 s n x Hx) in *.
      apply Forall_app in W1 as [W1 Hx1].
      destruct (SUB_ok x 0 1) as (a & c1 & -> & Ha & Hc1 & E); [by inversion Hx1|done|lia|].
      rewrite put_down by lia. obind. rewrite !Z_down by lia. replace (s + S n - 1)%nat with (s + n)%nat by lia.
      destruct (IH b1 s (splice b0 (i0 - 1) [a]) (i0 - 1)%nat c1) as (W & c' & HW & Hl & HF & Hc' & Hv);
        try (done || lia); [rewrite splice_length; simpl; lia|].
      exists (W ++ [a]), c'. split_and!; [|rewrite length_app; simpl; lia|by apply Forall_snoc_1|lia..|].
      * revert HW. destruct (borrow_down n b1 (s + n)%nat (splice b0 (i0 - 1) [a]) (i0 - 1)%nat c1)
          as [[[[? ?] ?] ?]|]; [|done]. obind. intros ->.
        rewrite splice_splice by (simpl; lia). by replace (i0 - 1 - n)%nat with (i0 - S n)%nat by lia.
      * rewrite !horner_snoc, bpow_S. lia.
Qed.

(** The carry that is left over a difference that is not negative is zero. *)
Lemma no_borrow (W : list Z) c X (N : nat) :
  Forall is_word W -> length W = N -> 0 <= c <= 1 -> 0 <= X -> wordsval W = X + c * DIG_BASE ^ N -> wordsval W = X.
Proof.
  intros HW Hl Hc HX E. pose proof (horner_bound DIG_BASE base_ge2 W HW) as Hb. rewrite Hl in Hb.
  destruct (decide (c = 1)) as [->|]; [lia|]. assert (c = 0) as -> by lia. lia.
Qed.

(** Loops that follow what was written before. *)
Lemma finish_sub b1 (s n : nat) b0 (i0 : nat) c V :
  (s + n <= length b1)%nat -> (n = i0)%nat -> (i0 + length V <= length b0)%nat -> 0 <= c <= 1 ->
  Forall is_word (seg b1 s n) ->
  exists W c',
    ('(b0, i0, p1, _) ← borrow_down (Z.to_nat ((s + n)%nat - s)) b1 (s + n)%nat (splice b0 i0 V) i0 c;
     '(b0, i0) ← copy_down (Z.to_nat (p1 - s)) b1 p1 b0 i0;
     '(b0, _) ← zero_down (Z.to_nat i0) b0 i0;
     Some b0) = Some (splice b0 0 (W ++ V)) /\
    length W = n /\ Forall is_word W /\ 0 <= c' <= 1 /\ wordsval W - c' * DIG_BASE ^ n = wordsval (seg b1 s n) - c.
Proof.
  intros H1 -> H0 Hc W1. replace (Z.to_nat ((s + i0)%nat - s)) with i0 by lia.
  destruct (borrow_copy_ok i0 b1 s (splice b0 i0 V) i0 c) as (W & c' & HW & Hl & HF & Hc' & Hv); try (done || lia).
  { rewrite splice_length; lia. }
  exists W, c'. split_and!; try done; [|lia..].
  destruct (borrow_down i0 b1 (s + i0)%nat (splice b0 i0 V) i0 c) as [[[[? ?] ?] ?]|]; [|done]. revert HW. obind.
  intros ->. obind. rewrite Nat.sub_diag. cbn [Z.of_nat Z.to_nat zero_down]. obind.
  by rewrite splice_splice by lia.
Qed.

Lemma seg3 b s (n m k : nat) : (s + (n + m + k) <= length b)%nat ->
  wordsval (seg b s (n + m + k))
  = wordsval (seg b s n) * DIG_BASE ^ (m + k)%nat + wordsval (seg b (s + n) m) * DIG_BASE ^ k
    + wordsval (seg b (s + (n + m)) k).
Proof.
  intros H. rewrite seg_app, (seg_app b s n m), !horner_app by done. rewrite !seg_length by lia.
  rewrite bpow_plus. lia.
Qed.

Lemma Forall_zeros n : Forall is_word (replicate n 0).
Proof. by apply Forall_replicate. Qed.

(** The loops subtract: [m1] words from [s1] on, with [z1] words behind them,
    and the same for the second number. *)
Definition subtracts (b1 : list Z) (s1 m1 z1 : nat) (b2 : list Z) (s2 m2 z2 : nat) (b0 : list Z)
  (res : option (list Z)) : Prop :=
  let A := wordsval (seg b1 s1 m1) * DIG_BASE ^ z1 in
  let B := wordsval (seg b2 s2 m2) * DIG_BASE ^ z2 in
  B <= A ->
  exists V, res = Some (splice b0 0 V) /\ length V = (m1 + z1)%nat /\ Forall is_word V /\ wordsval V = A - B.

(** The second number has the shorter fraction, by [d] words. *)
Lemma sub_loops_longer b1 s1 b2 s2 b0 (n m2 d z1 : nat) (I1 f1 I2 f2 f0 : Z) :
  (s1 + (n + m2 + d) <= length b1)%nat -> (s2 + m2 <= length b2)%nat -> (n + m2 + d + z1 <= length b0)%nat ->
  Forall is_word (seg b1 s1 (n + m2 + d)) -> Forall is_word (seg b2 s2 m2) -> (0 < d)%nat ->
  I1 + f1 = (n + m2 + d)%nat -> I2 + f2 = m2 -> f0 - f1 = z1 -> f1 - f2 = d ->
  subtracts b1 s1 (n + m2 + d) z1 b2 s2 m2 (d + z1) b0 (sub_loops b1 s1 I1 f1 b2 s2 I2 f2 b0 (I1 + f0) f0).
Proof.
  intros H1 H2 HN W1 W2 Hd E1 E2 E3 E4. unfold subtracts, sub_loops. cbv zeta. intros HAB.
  rewrite Z.gtb_ltb, (proj2 (Z.ltb_lt f2 f1)) by lia.
  replace (I1 + f0) with (Z.of_nat (n + m2 + d + z1)) by lia. replace (Z.to_nat (f0 - f1)) with z1 by lia.
  replace (Z.to_nat (f1 - f2)) with d by lia.
  replace (Z.of_nat s1 + I1 + f1) with (Z.of_nat (s1 + (n + m2) + d)) by lia.
  replace (Z.of_nat s1 + I1 + f2) with (Z.of_nat (s1 + n + m2)) by lia.
  replace (Z.of_nat s2 + I2 + f2) with (Z.of_nat (s2 + m2)) by lia.
  rewrite zero_down_ok by lia. obind. rewrite Nat.add_sub.
  rewrite copy_down_ok by (rewrite ?splice_length; rewrite ?length_replicate; lia). obind. rewrite !Nat.add_sub.
  set (C := seg b1 (s1 + (n + m2)) d).
  assert (length C = d) as HC by (apply seg_length; lia).
  assert (Forall is_word C) as WC by (eapply seg_Forall; [exact W1|lia|lia]).
  rewrite splice_splice by (rewrite ?length_replicate; lia).
  replace (Z.to_nat ((s2 + m2)%nat - s2)) with m2 by lia.
  destruct (sub_down_ok m2 b1 (s1 + n + m2) b2 (s2 + m2) (splice b0 (n + m2) (C ++ replicate z1 0)) (n + m2) 0)
    as (S & c & (-> & HlS & WS & Hc) & ES); rewrite ?Nat.add_sub in *; try lia.
  { rewrite splice_length; rewrite ?length_app, ?length_replicate; lia. }
  { eapply seg_Forall; [exact W1|lia|lia]. } { done. }
  obind. rewrite splice_splice by (rewrite ?length_app, ?length_replicate; lia).
  destruct (finish_sub b1 s1 n b0 n c (S ++ C ++ replicate z1 0)) as (R & c' & -> & HlR & WR & Hc' & ER);
    try (done || lia).
  { rewrite !length_app, length_replicate. lia. } { eapply seg_Forall; [exact W1|lia|lia]. }
  pose proof (seg3 b1 s1 n m2 d ltac:(lia)) as E. fold C in E. rewrite E in *. clear E.
  assert (Forall is_word (R ++ S ++ C ++ replicate z1 0)) as WV by (repeat (apply Forall_app; split; [done|]); apply Forall_zeros).
  assert (length (R ++ S ++ C ++ replicate z1 0) = (n + m2 + d + z1)%nat) as HV by (clear - HlR HlS HC; rewrite !length_app, length_replicate; lia).
  exists (R ++ S ++ C ++ replicate z1 0). split_and!; [done|done|done|].
  apply (no_borrow _ c' _ (n + m2 + d + z1)); [done|done|done|lia|].
  rewrite !horner_app, horner_zeros, !length_app, length_replicate, HlS, HC, !bpow_plus by done.
  clear - ES ER.
  assert (wordsval (seg b1 (s1 + n) m2) = wordsval S - c * DIG_BASE ^ m2 + wordsval (seg b2 s2 m2)) as -> by lia.
  assert (wordsval (seg b1 s1 n) = wordsval R - c' * DIG_BASE ^ n + c) as -> by lia. ring.
Qed.

(** The second number has the longer fraction, by [d] words. *)
Lemma sub_loops_shorter b1 s1 b2 s2 b0 (n k d z2 : nat) (I1 f1 I2 f2 f0 : Z) :
  (s1 + (n + k) <= length b1)%nat -> (s2 + (k + d) <= length b2)%nat -> (n + k + (d + z2) <= length b0)%nat ->
  Forall is_word (seg b1 s1 (n + k)) -> Forall is_word (seg b2 s2 (k + d)) ->
  I1 + f1 = (n + k)%nat -> I2 + f2 = (k + d)%nat -> f0 - f2 = z2 -> f2 - f1 = d ->
  subtracts b1 s1 (n + k) (d + z2) b2 s2 (k + d) z2 b0 (sub_loops b1 s1 I1 f1 b2 s2 I2 f2 b0 (I1 + f0) f0).
Proof.
  intros H1 H2 HN W1 W2 E1 E2 E3 E4. unfold subtracts, sub_loops. cbv zeta. intros HAB.
  rewrite Z.gtb_ltb, (proj2 (Z.ltb_ge f2 f1)) by lia.
  replace (I1 + f0) with (Z.of_nat (n + k + d + z2)) by lia. replace (Z.to_nat (f0 - f2)) with z2 by lia.
  replace (Z.to_nat (f2 - f1)) with d by lia. replace (Z.of_nat s1 + I1 + f1) with (Z.of_nat (s1 + n + k)) by lia.
  replace (Z.of_nat s2 + I2 + f1) with (Z.of_nat (s2 + k)) by lia.
  replace (Z.of_nat s2 + I2 + f2) with (Z.of_nat (s2 + k + d)) by lia.
  rewrite zero_down_ok by lia. obind. rewrite Nat.add_sub.
  destruct (neg_down_ok d b2 (s2 + k + d) (splice b0 (n + k + d) (replicate z2 0)) (n + k + d) 0)
    as (C & c0 & (-> & HC & WC & Hc0) & EC); rewrite ?Nat.add_sub in *; try lia.
  { rewrite splice_length; rewrite ?length_replicate; lia. } { eapply seg_Forall; [exact W2|lia|lia]. }
  obind. rewrite splice_splice by (rewrite ?length_replicate; lia).
  replace (Z.to_nat ((s2 + k)%nat - s2)) with k by lia.
  destruct (sub_down_ok k b1 (s1 + n + k) b2 (s2 + k) (splice b0 (n + k) (C ++ replicate z2 0)) (n + k) c0)
    as (S & c & (-> & HlS & WS & Hc) & ES); rewrite ?Nat.add_sub in *; try lia.
  { rewrite splice_length; rewrite ?length_app, ?length_replicate; lia. }
  { eapply seg_Forall; [exact W1|lia|lia]. } { eapply seg_Forall; [exact W2|lia|lia]. }
  obind. rewrite splice_splice by (rewrite ?length_app, ?length_replicate; lia).
  destruct (finish_sub b1 s1 n b0 n c (S ++ C ++ replicate z2 0)) as (R & c' & -> & HlR & WR & Hc' & ER);
    try (done || lia).
  { rewrite !length_app, length_replicate. lia. } { eapply seg_Forall; [exact W1|lia|lia]. }
  rewrite (seg_app b1 s1 n k), (seg_app b2 s2 k d), !horner_app, !seg_length in * by (done || lia).
  assert (Forall is_word (R ++ S ++ C ++ replicate z2 0)) as WV by (repeat (apply Forall_app; split; [done|]); apply Forall_zeros).
  assert (length (R ++ S ++ C ++ replicate z2 0) = (n + k + (d + z2))%nat) as HV by (clear - HlR HlS HC; rewrite !length_app, length_replicate; lia).
  exists (R ++ S ++ C ++ replicate z2 0). split_and!; [done|done|done|].
  apply (no_borrow _ c' _ (n + k + (d + z2))); [done|done|done|lia|].
  rewrite !horner_app, horner_zeros, !length_app, length_replicate, HlS, HC, !bpow_plus by done.
  clear - ES ER EC.
  assert (wordsval (seg b2 (s2 + k) d) = - wordsval C + c0 * DIG_BASE ^ d) as -> by lia.
  assert (wordsval (seg b1 (s1 + n) k) = wordsval S - c * DIG_BASE ^ k + wordsval (seg b2 s2 k) + c0) as -> by lia.
  assert (wordsval (seg b1 s1 n) = wordsval R - c' * DIG_BASE ^ n + c) as -> by lia. ring.
Qed.

Lemma sub_loops_ok b1 s1 m1 z1 b2 s2 m2 z2 b0 (I1 f1 I2 f2 f0 : Z) :
  (s1 + m1 <= length b1)%nat -> (s2 + m2 <= length b2)%nat -> (m1 + z1 <= length b0)%nat ->
  (m2 + z2 <= m1 + z1)%nat -> (z1 <= z2 + m2)%nat ->
  Forall is_word (seg b1 s1 m1) -> Forall is_word (seg b2 s2 m2) ->
  I1 + f1 = m1 -> I2 + f2 = m2 -> f0 - f1 = z1 -> f0 - f2 = z2 ->
  subtracts b1 s1 m1 z1 b2 s2 m2 z2 b0 (sub_loops b1 s1 I1 f1 b2 s2 I2 f2 b0 (I1 + f0) f0).
Proof.
  intros. destruct (Nat.lt_ge_cases z1 z2) as [Hz|Hz].
  - assert (exists d, z2 = (d + z1)%nat) as [d ->] by (exists (z2 - z1)%nat; lia).
    assert (exists n, m1 = (n + m2 + d)%nat) as [n ->] by (exists (m1 - m2 - d)%nat; lia).
    apply sub_loops_longer; (done || lia).
  - assert (exists d, z1 = (d + z2)%nat) as [d ->] by (exists (z1 - z2)%nat; lia).
    assert (exists k, m2 = (k + d)%nat) as [k ->] by (exists (m2 - d)%nat; lia).
    assert (exists n, m1 = (n + k)%nat) as [n ->] by (exists (m1 - k)%nat; lia).
    apply sub_loops_shorter; (done || lia).
Qed.

(** ** The comparison *)

Lemma Forall_zero_seg b s n : Forall (fun w => w = 0) (seg b s n) -> wordsval (seg b s n) = 0.
Proof. intros H. induction H as [|w l -> _ IH]; [done|]. cbn [horner]. rewrite IH. lia. Qed.

Lemma first_nonzero_ok n : forall b (i : nat), (i + n <= length b)%nat ->
  exists k, (k <= n)%nat /\ first_nonzero n b i = Some (Z.of_nat (i + k)) /\
    Forall (fun w => w = 0) (seg b i k) /\ ((k < n)%nat -> exists w, b !! (i + k)%nat = Some w /\ w <> 0).
Proof.
  induction n as [|n IH]; intros b i H; cbn [first_nonzero].
  - exists 0%nat. rewrite Nat.add_0_r. split_and!; [lia|done|done|lia].
  - destruct (lookup_lt_is_Some_2 b i) as [w Hw]; [lia|]. rewrite get_nat, Hw. obind.
    destruct (Z.eqb_spec w 0) as [->|Hne].
    + replace (Z.of_nat i + 1) with (Z.of_nat (S i)) by lia.
      destruct (IH b (S i)) as (k & Hk & -> & HF & Hn); [lia|]. exists (S k).
      replace (i + S k)%nat with (S i + k)%nat by lia. split_and!; [lia|done| |intros; apply Hn; lia].
      rewrite (seg_cons b i k 0 Hw). by constructor.
    + exists 0%nat. rewrite Nat.add_0_r. split_and!; [lia|done|done|]. intros _. by exists w.
Qed.

Lemma last_nonzero_ok n : forall b (i : nat), (n <= i <= length b)%nat ->
  exists k, (k <= n)%nat /\ last_nonzero n b (i - 1) = Some (Z.of_nat (i - k) - 1) /\
    Forall (fun w => w = 0) (seg b (i - k) k) /\
    ((k < n)%nat -> exists w, b !! (i - k - 1)%nat = Some w /\ w <> 0).
Proof.
  induction n as [|n IH]; intros b i H; cbn [last_nonzero].
  - exists 0%nat. rewrite Nat.sub_0_r. split_and!; [lia|done|done|lia].
  - destruct (get_down b i) as (w & -> & Hw); [lia|]. obind.
    destruct (Z.eqb_spec w 0) as [->|Hne].
    + rewrite Z_down by lia. destruct (IH b (i - 1)%nat) as (k & Hk & -> & HF & Hn); [lia|]. exists (S k).
      replace (i - S k)%nat with (i - 1 - k)%nat by lia. split_and!; [lia|done| |intros; apply Hn; lia].
      replace (i - 1 - k)%nat with (i - S k)%nat by lia. rewrite (seg_last b i k 0) by (done || lia).
      by apply Forall_snoc_1.
    + exists 0%nat. rewrite !Nat.sub_0_r. split_and!; [lia|done|done|]. intros _. by exists w.
Qed.

(** The comparison of two lists of words behind the point: [None] if they are
    equal, otherwise whether the second one is greater. *)
Fixpoint list_compare (l1 l2 : list Z) : option bool :=
  match l1, l2 with
  | [], [] => None
  | _ :: _, [] => Some false
  | [], _ :: _ => Some true
  | x :: l1, y :: l2 => if x =? y then list_compare l1 l2 else Some (y >? x)
  end.

Lemma compare_words_ok n : forall b1 (i1 e1 : nat) b2 (i2 e2 : nat),
  (e1 <= length b1)%nat -> (e2 <= length b2)%nat -> (i1 <= e1)%nat -> (i2 <= e2)%nat -> (e1 - i1 < n)%nat ->
  compare_words n b1 i1 (e1 - 1) b2 i2 (e2 - 1)
  = Some (list_compare (seg b1 i1 (e1 - i1)) (seg b2 i2 (e2 - i2))).
Proof.
  induction n as [|n IH]; intros b1 i1 e1 b2 i2 e2 H1 H2 Hi1 Hi2 Hn; [lia|]. cbn [compare_words].
  destruct (decide (i1 < e1)%nat) as [L1|L1], (decide (i2 < e2)%nat) as [L2|L2].
  - rewrite (proj2 (Z.leb_le i1 _)), (proj2 (Z.leb_le i2 _)) by lia. cbn [andb].
    destruct (lookup_lt_is_Some_2 b1 i1) as [x Hx]; [lia|]. destruct (lookup_lt_is_Some_2 b2 i2) as [y Hy]; [lia|].
    rewrite !get_nat, Hx, Hy. obind.
    replace (e1 - i1)%nat with (S (e1 - S i1)) by lia. replace (e2 - i2)%nat with (S (e2 - S i2)) by lia.
    rewrite (seg_cons b1 i1 _ x Hx), (seg_cons b2 i2 _ y Hy). cbn [list_compare].
    destruct (x =? y); [|done]. replace (Z.of_nat i1 + 1) with (Z.of_nat (S i1)) by lia.
    replace (Z.of_nat i2 + 1) with (Z.of_nat (S i2)) by lia. apply IH; lia.
  - replace i2 with e2 by lia. rewrite Nat.sub_diag, seg_nil, (proj2 (Z.leb_le i1 _)), (proj2 (Z.leb_gt e2 _)) by lia.
    destruct (lookup_lt_is_Some_2 b1 i1) as [x Hx]; [lia|]. replace (e1 - i1)%nat with (S (e1 - S i1)) by lia.
    by rewrite (seg_cons b1 i1 _ x Hx).
  - replace i1 with e1 by lia. rewrite Nat.sub_diag, seg_nil, (proj2 (Z.leb_gt e1 _)), (proj2 (Z.leb_le i2 _)) by lia.
    destruct (lookup_lt_is_Some_2 b2 i2) as [y Hy]; [lia|]. replace (e2 - i2)%nat with (S (e2 - S i2)) by lia.
    by rewrite (seg_cons b2 i2 _ y Hy).
  - replace i1 with e1 by lia. replace i2 with e2 by lia. rewrite !Nat.sub_diag, !seg_nil.
    by rewrite (proj2 (Z.leb_gt e1 _)), (proj2 (Z.leb_gt e2 _)) by lia.
Qed.

(** The last word is not zero. *)
Definition trimmed (l : list Z) : Prop := list.last l <> Some 0.

Lemma trimmed_tail x l : trimmed (x :: l) -> trimmed l.
Proof. unfold trimmed. by destruct l. Qed.

Lemma trimmed_pos l : Forall is_word l -> trimmed l -> l <> [] -> 0 < wordsval l.
Proof.
  induction 1 as [|x l Hx Hl IH]; [done|]. intros Ht _. destruct l as [|y l].
  - cbn. unfold is_digit in Hx. assert (x <> 0) by (intros ->; by apply Ht). lia.
  - specialize (IH (trimmed_tail _ _ Ht) ltac:(done)). cbn [horner] in *. unfold is_digit in Hx.
    pose proof (bpow_pos (length (y :: l))). cbn [horner] in *. nia.
Qed.

Lemma bpow_split (m n : nat) : (m <= n)%nat -> DIG_BASE ^ n = DIG_BASE ^ m * DIG_BASE ^ (n - m)%nat.
Proof. intros. rewrite <- bpow_plus. do 2 f_equal. lia. Qed.

(** Lists of words behind the point, as numbers with [K] words. *)
Definition fracval (K : nat) (l : list Z) : Z := wordsval l * DIG_BASE ^ (K - length l)%nat.

Lemma fracval_cons K x l : (S (length l) <= S K)%nat -> fracval (S K) (x :: l) = x * DIG_BASE ^ K + fracval K l.
Proof.
  intros H. unfold fracval. cbn [horner length Nat.sub]. rewrite (bpow_split (length l) K) by lia. lia.
Qed.

Lemma fracval_bound K l : Forall is_word l -> (length l <= K)%nat -> 0 <= fracval K l < DIG_BASE ^ K.
Proof.
  intros Hl HK. unfold fracval. pose proof (horner_bound DIG_BASE base_ge2 l Hl).
  rewrite (bpow_split (length l) K) by done. pose proof (bpow_pos (K - length l)). nia.
Qed.

Lemma list_compare_ok l1 : forall l2 K, Forall is_word l1 -> Forall is_word l2 -> trimmed l1 -> trimmed l2 ->
  (length l1 <= K)%nat -> (length l2 <= K)%nat ->
  match list_compare l1 l2 with
  | None => fracval K l1 = fracval K l2
  | Some true => fracval K l1 < fracval K l2
  | Some false => fracval K l2 < fracval K l1
  end.
Proof.
  assert (forall x l K, Forall is_word (x :: l) -> trimmed (x :: l) -> 0 < fracval K (x :: l)) as Hpos.
  { intros x l K Hw Ht. unfold fracval. pose proof (bpow_pos (K - length (x :: l))).
    pose proof (trimmed_pos _ Hw Ht ltac:(done)). nia. }
  induction l1 as [|x l1 IH]; intros [|y l2] K H1 H2 T1 T2 L1 L2; cbn [list_compare].
  - done.
  - by apply Hpos.
  - by apply Hpos.
  - simpl in L1, L2. destruct K as [|K]; [lia|]. rewrite !fracval_cons by lia.
    apply Forall_inv_tail in H1 as H1'. apply Forall_inv_tail in H2 as H2'.
    destruct (Z.eqb_spec x y) as [->|Hne].
    + specialize (IH l2 K H1' H2' (trimmed_tail _ _ T1) (trimmed_tail _ _ T2) ltac:(lia) ltac:(lia)).
      destruct (list_compare l1 l2) as [[]|]; lia.
    + pose proof (fracval_bound K l1 H1' ltac:(lia)). pose proof (fracval_bound K l2 H2' ltac:(lia)).
      rewrite Z.gtb_ltb. destruct (Z.ltb_spec x y); nia.
Qed.

(** ** do_sub *)

(** The words of [d] without zero words in front, [n] of them before the point
    from [s] on, and without zero words from [e] on. *)
Record stripped (d : decimal_t) (s n e : nat) : Prop := {
  st_sum : (s + n = iw d)%nat;
  st_end : (s <= e <= iw d + fw d)%nat;
  st_front : Forall (fun w => w = 0) (seg (buf d) 0 s);
  st_back : Forall (fun w => w = 0) (seg (buf d) e (iw d + fw d - e))
}.

Lemma seg_take b n i k : (i + k <= n)%nat -> seg (take n b) i k = seg b i k.
Proof. intros H. unfold seg. rewrite skipn_firstn_comm, take_take. f_equal. lia. Qed.

Lemma stripped_cut d s n e F : dec_ok d -> stripped d s n e ->
  let e' := Nat.min e (iw d + F) in
  cut F d = wordsval (seg (buf d) s (e' - s)) * DIG_BASE ^ (iw d + F - e')%nat /\ (s <= e')%nat /\
  (e' <= length (buf d))%nat /\ Forall is_word (seg (buf d) s (e' - s)).
Proof.
  intros Hd [Hs He Hf Hb] e'. pose proof (ok_room d Hd) as Hr. set (k := Nat.min (fw d) F).
  assert (Forall is_word (seg (buf d) s (e' - s))) as HW.
  { apply (seg_Forall _ _ 0 (iw d + fw d)); [|lia|lia]. rewrite seg_0. apply Hd. }
  split_and!; [|lia|lia|done]. unfold cut. fold k.
  replace (iw d + k)%nat with (s + (e' - s) + (iw d + k - e'))%nat at 1 by lia.
  rewrite take_val by lia. rewrite (Forall_zero_seg _ _ _ Hf).
  assert (wordsval (seg (buf d) (s + (e' - s)) (iw d + k - e')) = 0) as ->.
  { apply Forall_zero_seg. destruct (decide (e' = e)) as [E|E].
    - apply (seg_Forall _ _ e (iw d + fw d - e)); [done|lia|lia].
    - replace (iw d + k - e')%nat with 0%nat by lia. done. }
  rewrite Z.mul_0_l, Z.add_0_l, Z.add_0_r, <- Z.mul_assoc, <- bpow_plus. do 3 f_equal. lia.
Qed.

(** The magnitude over the power of a common number of fraction words. *)
Lemma stripped_mag d s n e F : dec_ok d -> stripped d s n e -> (fw d <= F)%nat ->
  cut F d = fracval (n + F) (seg (buf d) s (e - s)).
Proof.
  intros Hd Hs HF. destruct (stripped_cut d s n e F Hd Hs) as (-> & _). destruct Hs as [Hs He _ _].
  pose proof (ok_room d Hd). unfold fracval. rewrite seg_length by lia.
  rewrite Nat.min_l by lia. do 3 f_equal. lia.
Qed.

Lemma stripped_words d s n e : dec_ok d -> stripped d s n e -> Forall is_word (seg (buf d) s (e - s)).
Proof.
  intros Hd [Hs He _ _]. apply (seg_Forall _ _ 0 (iw d + fw d)); [|lia|lia]. rewrite seg_0. apply Hd.
Qed.

Lemma strip_front_ok d : dec_ok d ->
  exists s n, strip_front (buf d) (iw d) = Some (Z.of_nat s, Z.of_nat n) /\
    stripped d s n (iw d + fw d) /\ ((0 < n)%nat -> exists w, buf d !! s = Some w /\ w <> 0).
Proof.
  intros Hd. pose proof (ok_room d Hd). destruct (first_word d Hd) as (w & Hw & Ww). unfold strip_front.
  change (get (buf d) 0) with (get (buf d) 0%nat). rewrite get_nat, Hw. obind. destruct (Z.eqb_spec w 0) as [->|Hne].
  - rewrite Nat2Z.id. destruct (first_nonzero_ok (iw d) (buf d) 0) as (k & Hk & Hf & HF & Hn); [lia|].
    change (first_nonzero (iw d) (buf d) 0) with (first_nonzero (iw d) (buf d) 0%nat). rewrite Hf. obind. exists k, (iw d - k)%nat. split_and!; [do 2 f_equal; lia| |].
    + split; [lia|lia|done|by rewrite Nat.sub_diag].
    + intros. apply Hn. lia.
  - exists 0%nat, (iw d). split_and!; [done| |].
    + split; [lia|lia|done|by rewrite Nat.sub_diag].
    + intros _. by exists w.
Qed.

(** The number of words before the point bounds the magnitude. *)
Lemma stripped_bound d s n e F : dec_ok d -> stripped d s n e -> (fw d <= F)%nat -> cut F d < DIG_BASE ^ (n + F)%nat.
Proof.
  intros Hd Hs HF. rewrite (stripped_mag d s n e F Hd Hs HF). apply fracval_bound; [by eapply stripped_words|].
  destruct Hs as [Hs He _ _]. pose proof (ok_room d Hd). rewrite seg_length; lia.
Qed.

Lemma stripped_lower d s n F w : dec_ok d -> stripped d s n (iw d + fw d) -> (fw d <= F)%nat -> (0 < n)%nat ->
  buf d !! s = Some w -> w <> 0 -> DIG_BASE ^ (n + F - 1)%nat <= cut F d.
Proof.
  intros Hd Hs HF Hn Hw H0. rewrite (stripped_mag d s n _ F Hd Hs HF).
  pose proof (stripped_words d s n _ Hd Hs) as HW. destruct Hs as [Hs He _ _]. pose proof (ok_room d Hd).
  replace (iw d + fw d - s)%nat with (S (iw d + fw d - S s)) in * by lia.
  rewrite (seg_cons _ s _ w Hw) in *. replace (n + F)%nat with (S (n + F - 1)) by lia.
  rewrite fracval_cons by (rewrite seg_length; lia).
  pose proof (fracval_bound (n + F - 1) (seg (buf d) (S s) (iw d + fw d - S s)) (Forall_inv_tail HW)
                ltac:(rewrite seg_length; lia)).
  pose proof (Forall_inv HW) as Hww. unfold is_digit in Hww. replace (S (n + F - 1) - 1)%nat with (n + F - 1)%nat by lia.
  pose proof (bpow_pos (n + F - 1)). nia.
Qed.

(** The first number is greater, and the start, the words before the point and
    the words behind it that do_sub takes for the two. *)
Definition greater (a b : decimal_t) (p1 p2 : Z * Z * Z) : Prop :=
  exists s1 n1 e1 s2 n2 e2 : nat,
    stripped a s1 n1 e1 /\ p1 = (Z.of_nat s1, Z.of_nat n1, Z.of_nat e1 - iw a) /\
    stripped b s2 n2 e2 /\ p2 = (Z.of_nat s2, Z.of_nat n2, Z.of_nat e2 - iw b) /\
    (n2 <= n1)%nat /\ 0 <= n2 + (Z.of_nat e1 - iw a) /\
    forall G, (fw a <= G)%nat -> (fw b <= G)%nat -> cut G b < cut G a.

Lemma more_words a b s1 n1 s2 n2 w : dec_ok a -> dec_ok b -> (n2 < n1)%nat ->
  stripped a s1 n1 (iw a + fw a) -> stripped b s2 n2 (iw b + fw b) -> buf a !! s1 = Some w -> w <> 0 ->
  greater a b (Z.of_nat s1, Z.of_nat n1, Z.of_nat (fw a)) (Z.of_nat s2, Z.of_nat n2, Z.of_nat (fw b)).
Proof.
  intros Ha Hb Hn H1 H2 Hw H0. exists s1, n1, (iw a + fw a)%nat, s2, n2, (iw b + fw b)%nat.
  split_and!; [done|f_equal; lia|done|f_equal; lia|lia|lia|]. intros G Ga Gb.
  pose proof (stripped_lower a s1 n1 G w Ha H1 Ga ltac:(lia) Hw H0).
  pose proof (stripped_bound b s2 n2 _ G Hb H2 Gb). pose proof (bpow_mono (n2 + G) (n1 + G - 1) ltac:(lia)). lia.
Qed.

Lemma seg_trimmed b s e w : (s < e)%nat -> b !! (e - 1)%nat = Some w -> w <> 0 -> trimmed (seg b s (e - s)).
Proof.
  intros He Hw H0. replace (e - s)%nat with (S (e - 1 - s)) by lia. rewrite (seg_snoc _ _ _ w).
  - unfold trimmed. rewrite last_snoc. congruence.
  - by replace (s + (e - 1 - s))%nat with (e - 1)%nat by lia.
Qed.

(** The zero words behind the number are dropped. *)
Lemma strip_back_ok d s n : dec_ok d -> stripped d s n (iw d + fw d) ->
  exists e, last_nonzero (Z.to_nat (iw d + fw d - s)) (buf d) (iw d + (fw d - 1)) = Some (Z.of_nat e - 1) /\
    stripped d s n e /\ trimmed (seg (buf d) s (e - s)).
Proof.
  intros Hd [Hs He Hf Hb]. pose proof (ok_room d Hd).
  replace (Z.to_nat (iw d + fw d - s)) with (iw d + fw d - s)%nat by lia.
  replace (Z.of_nat (iw d) + (Z.of_nat (fw d) - 1)) with (Z.of_nat (iw d + fw d) - 1) by lia.
  destruct (last_nonzero_ok (iw d + fw d - s) (buf d) (iw d + fw d)) as (k & Hk & Hl & HF & Hn); [lia|].
  exists (iw d + fw d - k)%nat. split_and!; [done| |].
  - split; [done|lia|done|]. by replace (iw d + fw d - (iw d + fw d - k))%nat with k by lia.
  - destruct (decide (k = (iw d + fw d - s)%nat)) as [->|Hne].
    + by replace (iw d + fw d - (iw d + fw d - s) - s)%nat with 0%nat by lia.
    + destruct Hn as (w & Hw & H0); [lia|]. apply (seg_trimmed _ _ _ w); [lia|done|done].
Qed.

Lemma trimmed_pos_seg d s n e G : dec_ok d -> stripped d s n e -> trimmed (seg (buf d) s (e - s)) ->
  (fw d <= G)%nat -> 0 < cut G d -> (s < e)%nat.
Proof.
  intros Hd Hs Ht HG Hp. destruct (decide (s < e)%nat) as [|Hge]; [done|].
  rewrite (stripped_mag d s n e G Hd Hs HG) in Hp. replace (e - s)%nat with 0%nat in Hp by lia. by cbn in Hp.
Qed.

Lemma greater_trimmed a b s1 n e1 s2 e2 : dec_ok a -> dec_ok b ->
  stripped a s1 n e1 -> trimmed (seg (buf a) s1 (e1 - s1)) -> stripped b s2 n e2 ->
  (forall G, (fw a <= G)%nat -> (fw b <= G)%nat -> cut G b < cut G a) ->
  greater a b (Z.of_nat s1, Z.of_nat n, Z.of_nat e1 - 1 - iw a + 1) (Z.of_nat s2, Z.of_nat n, Z.of_nat e2 - 1 - iw b + 1).
Proof.
  intros Ha Hb H1 T1 H2 HG. exists s1, n, e1, s2, n, e2.
  split_and!; [done|f_equal; lia|done|f_equal; lia|lia| |done].
  pose proof (trimmed_pos_seg a s1 n e1 (Nat.max (fw a) (fw b)) Ha H1 T1 ltac:(lia)) as Hlt.
  pose proof (HG (Nat.max (fw a) (fw b)) ltac:(lia) ltac:(lia)). pose proof (cut_bound (Nat.max (fw a) (fw b)) b Hb).
  specialize (Hlt ltac:(lia)). destruct H1. lia.
Qed.

Lemma stripped_compare a b s1 n e1 s2 e2 G : dec_ok a -> dec_ok b -> stripped a s1 n e1 -> stripped b s2 n e2 ->
  trimmed (seg (buf a) s1 (e1 - s1)) -> trimmed (seg (buf b) s2 (e2 - s2)) -> (fw a <= G)%nat -> (fw b <= G)%nat ->
  match list_compare (seg (buf a) s1 (e1 - s1)) (seg (buf b) s2 (e2 - s2)) with
  | None => cut G a = cut G b
  | Some true => cut G a < cut G b
  | Some false => cut G b < cut G a
  end.
Proof.
  intros Ha Hb S1 S2 T1 T2 Ga Gb. rewrite (stripped_mag a s1 n e1), (stripped_mag b s2 n e2) by done.
  pose proof (st_end _ _ _ _ S1). pose proof (st_end _ _ _ _ S2). pose proof (ok_room a Ha). pose proof (ok_room b Hb).
  pose proof (st_sum _ _ _ _ S1). pose proof (st_sum _ _ _ _ S2).
  apply list_compare_ok; try done; try (by eapply stripped_words); rewrite seg_length; lia.
Qed.

Lemma sub_compare_ok a b : dec_ok a -> dec_ok b ->
  exists r, sub_compare a b = Some r /\
    match r with
    | None => forall G, (fw a <= G)%nat -> (fw b <= G)%nat -> cut G a = cut G b
    | Some (true, p1, p2) => greater b a p2 p1
    | Some (false, p1, p2) => greater a b p1 p2
    end.
Proof.
  intros Ha Hb. unfold sub_compare. rewrite !Z_iw, !Z_fw by done.
  destruct (strip_front_ok a Ha) as (s1 & n1 & -> & H1 & W1). obind.
  destruct (strip_front_ok b Hb) as (s2 & n2 & -> & H2 & W2). obind. rewrite Z.gtb_ltb.
  destruct (Z.ltb_spec n1 n2).
  { eexists. split; [done|]. destruct W2 as (w & ? & ?); [lia|]. eapply more_words; (done || lia). }
  destruct (Z.eqb_spec n2 n1) as [E|E].
  2:{ eexists. split; [done|]. destruct W1 as (w & ? & ?); [lia|]. eapply more_words; (done || lia). }
  apply Nat2Z.inj in E as ->.
  destruct (strip_back_ok a s1 n1 Ha H1) as (e1 & -> & S1 & T1). obind.
  destruct (strip_back_ok b s2 n1 Hb H2) as (e2 & -> & S2 & T2). obind.
  pose proof (st_end _ _ _ _ S1). pose proof (st_end _ _ _ _ S2). pose proof (ok_room a Ha). pose proof (ok_room b Hb).
  pose proof (st_sum _ _ _ _ S1). pose proof (st_sum _ _ _ _ S2).
  rewrite compare_words_ok by lia. obind.
  pose proof (fun G => stripped_compare a b s1 n1 e1 s2 e2 G Ha Hb S1 S2 T1 T2) as HC.
  destruct (list_compare _ _) as [[]|]; (eexists; split; [done|]); simpl; try done.
  - apply greater_trimmed; try done. intros. by apply HC.
  - by apply greater_trimmed.
Qed.

Lemma cut_div F G d : dec_ok d -> (F <= G)%nat -> (fw d <= G)%nat -> cut F d = cut G d / DIG_BASE ^ (G - F)%nat.
Proof.
  intros Hd HF HG. rewrite (cut_exact G) by done. pose proof (bpow_pos (G - F)). destruct (Nat.le_ge_cases (fw d) F) as [Hle|Hle].
  - rewrite cut_exact by done. rewrite (bpow_split (F - fw d) (G - fw d)) by lia.
    replace (G - fw d - (F - fw d))%nat with (G - F)%nat by lia. rewrite Z.mul_assoc, Z.div_mul; lia.
  - pose proof (cut_floor F d Hd Hle) as Hc. rewrite (bpow_split (G - fw d) (G - F)) by lia.
    replace (G - F - (G - fw d))%nat with (fw d - F)%nat by lia. pose proof (bpow_pos (fw d - F)). pose proof (bpow_pos (G - fw d)).
    rewrite (Z.mul_comm (DIG_BASE ^ _)). rewrite Z.div_mul_cancel_r by lia.
    apply (Z.div_unique _ _ _ (mag d - cut F d * DIG_BASE ^ (fw d - F)%nat)); lia.
Qed.

Lemma cut_le F a b : dec_ok a -> dec_ok b ->
  (forall G, (fw a <= G)%nat -> (fw b <= G)%nat -> cut G b < cut G a) -> cut F b <= cut F a.
Proof.
  intros Ha Hb HG. set (G := Nat.max F (Nat.max (fw a) (fw b))).
  rewrite (cut_div F G a), (cut_div F G b) by (done || lia). specialize (HG G ltac:(lia) ltac:(lia)).
  apply Z.div_le_mono; [apply bpow_pos|lia].
Qed.

(** What the second half of do_sub stores. *)
Definition diff_stored (a b : decimal_t) (s : bool) (e : Z) (to to' : decimal_t) : Prop :=
  stored a b s (fun n => cut n a - cut n b) e to to'.

Lemma cut_seg d s n e F m z : dec_ok d -> stripped d s n e -> (m + s)%nat = Nat.min e (iw d + F) -> (m + z = n + F)%nat ->
  cut F d = wordsval (seg (buf d) s m) * DIG_BASE ^ z /\ (s + m <= length (buf d))%nat /\ Forall is_word (seg (buf d) s m).
Proof.
  intros Hd Hs Hm Hz. destruct (stripped_cut d s n e F Hd Hs) as (-> & H1 & H2 & H3). destruct Hs as [Hs _ _ _].
  replace (Nat.min e (iw d + F) - s)%nat with m in * by lia. split_and!; [|lia|done]. do 3 f_equal. lia.
Qed.

(** The loops of do_sub, for [F] fraction words. *)
Lemma sub_greater_loops a b s1 n1 e1 s2 n2 e2 (F : nat) b0 (f1 f2 : Z) : dec_ok a -> dec_ok b ->
  stripped a s1 n1 e1 -> stripped b s2 n2 e2 -> (n2 <= n1)%nat -> 0 <= n2 + (Z.of_nat e1 - iw a) ->
  f1 = Z.min (Z.of_nat e1 - iw a) F -> f2 = Z.min (Z.of_nat e2 - iw b) F ->
  (n1 + F <= length b0)%nat -> cut F b <= cut F a ->
  exists V, sub_loops (buf a) s1 n1 f1 (buf b) s2 n2 f2 b0 (n1 + F) F = Some (splice b0 0 V) /\
    length V = (n1 + F)%nat /\ Forall is_word V /\ wordsval V = cut F a - cut F b.
Proof.
  intros Ha Hb H1 H2 Hn Hz -> -> Hl Hc. pose proof (st_sum _ _ _ _ H1). pose proof (st_sum _ _ _ _ H2).
  pose proof (st_end _ _ _ _ H1). pose proof (st_end _ _ _ _ H2).
  remember (Nat.min e1 (iw a + F) - s1)%nat as m1 eqn:E1. remember (Nat.min e2 (iw b + F) - s2)%nat as m2 eqn:E2.
  remember (n1 + F - m1)%nat as z1 eqn:F1. remember (n2 + F - m2)%nat as z2 eqn:F2.
  assert (n1 + F = m1 + z1)%nat as Hm1 by lia. assert (n2 + F = m2 + z2)%nat as Hm2 by lia.
  assert (z1 <= z2 + m2)%nat as Hz12 by lia.
  assert (Z.min (Z.of_nat e1 - iw a) F = Z.of_nat m1 - n1) as -> by lia.
  assert (Z.min (Z.of_nat e2 - iw b) F = Z.of_nat m2 - n2) as -> by lia.
  destruct (cut_seg a s1 n1 e1 F m1 z1) as (C1 & L1 & W1); [done|done|lia|lia|].
  destruct (cut_seg b s2 n2 e2 F m2 z2) as (C2 & L2 & W2); [done|done|lia|lia|].
  rewrite C1, C2 in *.   rewrite Hm1 in *. clear - L1 L2 Hn Hl W1 W2 Hc Hm1 Hm2 Hz12. apply sub_loops_ok; (done || lia).
Qed.

Lemma greater_words a b s1 n1 e1 : dec_ok a -> dec_ok b -> stripped a s1 n1 e1 ->
  (forall G, (fw a <= G)%nat -> (fw b <= G)%nat -> cut G b < cut G a) -> (0 < n1 + Nat.max (fw a) (fw b))%nat.
Proof.
  intros Ha Hb H1 HG. destruct (decide (n1 + Nat.max (fw a) (fw b) = 0)%nat) as [E|]; [|lia].
  specialize (HG (Nat.max (fw a) (fw b)) ltac:(lia) ltac:(lia)).
  pose proof (stripped_bound a s1 n1 e1 (Nat.max (fw a) (fw b)) Ha H1 ltac:(lia)) as HB.
  rewrite E in HB. change (DIG_BASE ^ 0%nat) with 1 in HB. pose proof (cut_bound (Nat.max (fw a) (fw b)) b Hb). lia.
Qed.

Lemma sub_greater_ok a b to s p1 p2 : dec_ok a -> dec_ok b -> dest_ok to -> greater a b p1 p2 -> iw a <= len to ->
  exists e to', sub_greater a b to s p1 p2 (Z.max (fw a) (fw b)) = Some (e, to') /\ diff_stored a b s e to to'.
Proof.
  intros Ha Hb [Hl0 Hlen] (s1 & n1 & e1 & s2 & n2 & e2 & H1 & -> & H2 & -> & Hn & Hz & HG) Hla.
  pose proof (st_sum _ _ _ _ H1). pose proof (st_sum _ _ _ _ H2).
  pose proof (st_end _ _ _ _ H1). pose proof (st_end _ _ _ _ H2). pose proof (greater_words a b s1 n1 e1 Ha Hb H1 HG) as Hpos.
  assert (forall (F : nat) err tofrac, frac_kept a b F err tofrac -> (0 < n1 + F <= length (buf to))%nat ->
    exists to', (b0 ← sub_loops (buf a) s1 n1 (Z.min (Z.of_nat e1 - iw a) F) (buf b) s2 n2 (Z.min (Z.of_nat e2 - iw b) F)
                        (buf to) (n1 + F) F;
                 Some (err, mk_dec (n1 * DIG_PER_DEC1) tofrac (len to) s b0)) = Some (err, to') /\
      diff_stored a b s err to to') as Hend.
  { intros F err tofrac Hfr HF.
    destruct (sub_greater_loops a b s1 n1 e1 s2 n2 e2 F (buf to) _ _ Ha Hb H1 H2 Hn Hz eq_refl eq_refl ltac:(lia)
                (cut_le F a b Ha Hb HG)) as (V & -> & HlV & WV & Hv). obind.
    eexists. split; [reflexivity|]. apply (mk_stored _ _ _ _ _ _ n1 F); (done || lia). }
  unfold sub_greater, FIX_INTG_FRAC_ERROR. replace (Z.max (fw a) (fw b)) with (Z.of_nat (Nat.max (fw a) (fw b))) by lia.
  rewrite !Z.gtb_ltb. destruct (Z.ltb_spec (len to) (n1 + Nat.max (fw a) (fw b))).
  - rewrite (proj2 (Z.ltb_ge _ _)) by lia. change (negb (E_DEC_TRUNCATED =? 0)) with true. cbv iota beta.
    remember (length (buf to) - n1)%nat as F eqn:EF. replace (len to - n1) with (Z.of_nat F) by lia.
    rewrite (proj2 (sum_frac a b F Ha Hb)) by lia. rewrite (Z.min_l n2 n1) by lia.
    destruct (Hend F E_DEC_TRUNCATED (F * DIG_PER_DEC1)) as (to' & -> & Hst); [cbn; split_and!; [done|lia|done]|lia|].
    by eexists _, _.
  - change (negb (E_DEC_OK =? 0)) with false. cbv iota beta.
    destruct (Hend (Nat.max (fw a) (fw b)) E_DEC_OK (Z.max (frac a) (frac b))) as (to' & Hr & Hst); [done|lia|].
    rewrite !Z.min_l in Hr by lia. rewrite Hr. by eexists _, _.
Qed.

(** ** The outcome of do_sub *)

Lemma make_zero_ok to : dest_ok to ->
  exists to', decimal_make_zero to = Some to' /\ dec_ok to' /\ len to' = len to /\ sign to' = false /\
    fw to' = 0%nat /\ intg to' = 1 /\ frac to' = 0 /\ mag to' = 0.
Proof.
  intros [Hl0 Hlen]. destruct to as [i f l s b]. simpl in *. destruct b as [|w b]; [simpl in *; lia|].
  eexists. split; [reflexivity|]. assert (Forall is_word [0]) by (by repeat constructor).
  split_and!; try done. split; [done|done|done|done| |done]. simpl. change (1 <= S (length b))%nat. lia.
Qed.

Lemma do_sub_ok a b to : dec_ok a -> dec_ok b -> dest_ok to -> iw a <= len to -> iw b <= len to ->
  exists e to', do_sub a b to = Some (e, to') /\
    ((forall G, (fw a <= G)%nat -> (fw b <= G)%nat -> cut G a = cut G b) /\
       e = E_DEC_OK /\ decimal_make_zero to = Some to' \/
     (forall G, (fw a <= G)%nat -> (fw b <= G)%nat -> cut G b < cut G a) /\ diff_stored a b (sign a) e to to' \/
     (forall G, (fw a <= G)%nat -> (fw b <= G)%nat -> cut G a < cut G b) /\
       diff_stored b a (negb (sign a)) e to to').
Proof.
  intros Ha Hb Hto La Lb. unfold do_sub. destruct (sub_compare_ok a b Ha Hb) as (r & -> & Hr). obind.
  rewrite (Z_fw a Ha), (Z_fw b Hb). destruct r as [[[[] p1] p2]|].
  - rewrite Z.max_comm. destruct (sub_greater_ok b a to (negb (sign a)) p2 p1 Hb Ha Hto Hr Lb) as (e & to' & -> & Hs).
    exists e, to'. split; [done|]. right. right. split; [|done]. intros.
    destruct Hr as (? & ? & ? & ? & ? & ? & ? & ? & ? & ? & ? & ? & HG). by apply HG.
  - destruct (sub_greater_ok a b to (sign a) p1 p2 Ha Hb Hto Hr La) as (e & to' & -> & Hs).
    exists e, to'. split; [done|]. right. left. split; [|done]. intros.
    destruct Hr as (? & ? & ? & ? & ? & ? & ? & ? & ? & ? & ? & ? & HG). by apply HG.
  - destruct (make_zero_ok to Hto) as (to' & -> & _). obind. exists E_DEC_OK, to'. split; [done|]. by left.
Qed.

Lemma do_cmp_ok a b : dec_ok a -> dec_ok b ->
  let G := Nat.max (fw a) (fw b) in
  do_cmp a b = Some (if cut G a =? cut G b then 0 else if eqb (cut G a <? cut G b) (sign a) then 1 else -1).
Proof.
  intros Ha Hb G. unfold do_cmp. destruct (sub_compare_ok a b Ha Hb) as (r & -> & Hr). obind.
  destruct r as [[[[] p1] p2]|].
  - destruct Hr as (? & ? & ? & ? & ? & ? & ? & ? & ? & ? & ? & ? & HG). specialize (HG G ltac:(lia) ltac:(lia)).
    rewrite (proj2 (Z.eqb_neq _ _)), (proj2 (Z.ltb_lt _ _)) by lia. done.
  - destruct Hr as (? & ? & ? & ? & ? & ? & ? & ? & ? & ? & ? & ? & HG). specialize (HG G ltac:(lia) ltac:(lia)).
    rewrite (proj2 (Z.eqb_neq _ _)), (proj2 (Z.ltb_ge _ _)) by lia. done.
  - rewrite (Hr G ltac:(lia) ltac:(lia)). by rewrite Z.eqb_refl.
Qed.
