(* ===== verification/DecArith.v ===== *)
(** * Fixed point numbers: sums, differences and comparison

    decimal_add, decimal_sub and decimal_cmp of [Decimal] against the
    arithmetic of rational numbers, from the outcomes of do_add and do_sub
    proved in [DecAdd] and [DecSub]. *)

From stdpp Require Import prelude list list_numbers numbers.
From Stdlib Require Import ZArith QArith Qabs Lia ZifyNat Bool.
From S2P Require Import Prelude Horner Decimal DecBase DecAdd DecSub.
Open Scope Z_scope.

#[local] Coercion Z.of_nat : nat >-> Z.

(** ** Results *)

(** [to'] holds [q]: exactly, or, with E_DEC_TRUNCATED, up to two units of the
    last fraction word that is kept. *)
Definition holds (q : Q) (e : Z) (to to' : decimal_t) : Prop :=
  dec_ok to' /\ len to' = len to /\
  if e =? E_DEC_OK then (dval to' == q)%Q
  else e = E_DEC_TRUNCATED /\ frac to' = 9 * fw to' /\ (Qabs (dval to' - q) < 2 # bpos (fw to'))%Q.

Lemma dval_cut n d : (fw d <= n)%nat -> (dval d == signed (sign d) (cut n d) # bpos n)%Q.
Proof.
  intros H. rewrite (dval_scale n d H). unfold at_scale, dnum. by rewrite signed_mul, <- cut_exact.
Qed.

Lemma cut_zero n d : (fw d <= n)%nat -> cut n d = 0 <-> mag d = 0.
Proof. intros H. rewrite cut_exact, Z.mul_eq_0 by done. pose proof (bpow_pos (n - fw d)). intuition lia. Qed.

Lemma Q_same_den (x y : Z) p : ((x # p) + (y # p) == x + y # p)%Q.
Proof. unfold Qeq, Qplus. cbn [Qnum Qden]. rewrite Pos2Z.inj_mul. ring. Qed.

Lemma Q_sub_den (x y : Z) p : ((x # p) - (y # p) == x - y # p)%Q.
Proof. unfold Qeq, Qminus, Qplus, Qopp. cbn [Qnum Qden]. rewrite Pos2Z.inj_mul. ring. Qed.

(** A difference of numbers with fewer and more fraction words. *)
Lemma Q_close (x y : Z) (n G : nat) : (n <= G)%nat ->
  Z.abs (x * DIG_BASE ^ (G - n)%nat - y) < 2 * DIG_BASE ^ (G - n)%nat ->
  (Qabs ((x # bpos n) - (y # bpos G)) < 2 # bpos n)%Q.
Proof.
  intros Hn H. assert (x # bpos n == x * DIG_BASE ^ (G - n)%nat # bpos G)%Q as ->.
  { unfold Qeq. cbn [Qnum Qden]. rewrite !bpos_Z, (bpow_split n G) by done. ring. }
  assert (2 # bpos n == 2 * DIG_BASE ^ (G - n)%nat # bpos G)%Q as ->.
  { unfold Qeq. cbn [Qnum Qden]. rewrite !bpos_Z, (bpow_split n G) by done. ring. }
  rewrite Q_sub_den. unfold Qlt. cbn [Qabs Qnum Qden]. pose proof (bpow_pos G). rewrite bpos_Z. nia.
Qed.

Lemma stored_holds a b s m e to to' : let G := Nat.max (fw a) (fw b) in
  (forall n, (n < G)%nat -> Z.abs (m n * DIG_BASE ^ (G - n)%nat - m G) < 2 * DIG_BASE ^ (G - n)%nat) ->
  dec_ok a -> dec_ok b -> stored a b s m e to to' -> holds (signed s (m G) # bpos G) e to to'.
Proof.
  intros G Hm Ha Hb (Hok & Hl & Hs & _ & Hmag & He). split_and!; [done|done|].
  assert (dval to' == signed s (m (fw to')) # bpos (fw to'))%Q as Hv.
  { rewrite (dval_cut (fw to')) by done. rewrite cut_exact, Nat.sub_diag, Z.mul_1_r, Hs, Hmag by done. done. }
  destruct (e =? E_DEC_OK).
  - replace G with (fw to'); [done|]. unfold G, fw. rewrite He, round_up_max by apply ok_frac, Ha || apply ok_frac, Hb.
    lia.
  - destruct He as (-> & Hlt & Hf). split_and!; [done|done|]. rewrite Hv. apply (Q_close _ _ _ G); [lia|].
    specialize (Hm _ Hlt). destruct s; simpl; lia.
Qed.

Lemma cut_close n G d : dec_ok d -> (n <= G)%nat -> (fw d <= G)%nat ->
  cut n d * DIG_BASE ^ (G - n)%nat <= cut G d < (cut n d + 1) * DIG_BASE ^ (G - n)%nat.
Proof.
  intros Hd Hn HG. rewrite (cut_div n G d Hd Hn HG). pose proof (bpow_pos (G - n)).
  pose proof (Z.div_mod (cut G d) (DIG_BASE ^ (G - n)%nat)). pose proof (Z.mod_pos_bound (cut G d) (DIG_BASE ^ (G - n)%nat)). lia.
Qed.

(** do_add and do_sub for numbers whose signs are the same, and are not. *)
Lemma do_add_holds a b to s : dec_ok a -> dec_ok b -> dest_ok to ->
  exists e to', do_add a b to = Some (e, to') /\
    (sign a = s ->
     if e =? E_DEC_OVERFLOW then sum_overflow a b to /\ to' = max_number (len to)
     else ~ sum_overflow a b to /\
          holds (signed s (cut (Nat.max (fw a) (fw b)) a + cut (Nat.max (fw a) (fw b)) b) # bpos (Nat.max (fw a) (fw b))) e to to').
Proof.
  intros Ha Hb Hto. destruct (do_add_ok a b to Ha Hb Hto) as (e & to' & -> & Hr). exists e, to'. split; [done|].
  intros <-. destruct (e =? E_DEC_OVERFLOW); [done|]. destruct Hr as [Hr Hs]. split; [done|].
  refine (stored_holds a b (sign a) (fun n => cut n a + cut n b) e to to' _ Ha Hb Hs). intros n Hn. cbv beta.
  pose proof (cut_close n (Nat.max (fw a) (fw b)) a Ha ltac:(lia) ltac:(lia)).
  pose proof (cut_close n (Nat.max (fw a) (fw b)) b Hb ltac:(lia) ltac:(lia)). lia.
Qed.

#[export] Instance holds_Proper : Proper (Qeq ==> eq ==> eq ==> eq ==> iff) holds.
Proof.
  intros q q' Hq e _ <- to _ <- to' _ <-. unfold holds. destruct (e =? E_DEC_OK); by rewrite Hq.
Qed.

Lemma do_sub_holds a b to : dec_ok a -> dec_ok b -> dest_ok to -> iw a <= len to -> iw b <= len to ->
  let G := Nat.max (fw a) (fw b) in
  exists e to', do_sub a b to = Some (e, to') /\ e <> E_DEC_OVERFLOW /\
    holds (signed (sign a) (cut G a - cut G b) # bpos G) e to to'.
Proof.
  intros Ha Hb Hto La Lb G. destruct (do_sub_ok a b to Ha Hb Hto La Lb) as (e & to' & -> & Hr). exists e, to'. split; [done|].
  assert (forall a b s, stored a b s (fun n => cut n a - cut n b) e to to' -> e <> E_DEC_OVERFLOW) as He.
  { intros ? ? ? (_ & _ & _ & _ & _ & H). destruct (Z.eqb_spec e E_DEC_OK) as [->|]; [done|]. by destruct H as [-> _]. }
  pose proof (fun n H => cut_close n G a Ha H ltac:(lia)) as Ca. pose proof (fun n H => cut_close n G b Hb H ltac:(lia)) as Cb.
  destruct Hr as [(HG & -> & Hz)|[(HG & Hs)|(HG & Hs)]].
  - split; [done|]. destruct (make_zero_ok to Hto) as (to'' & Hz' & Hok & Hl & Hs & Hf & _ & _ & Hm).
    rewrite Hz in Hz'. injection Hz' as <-. split_and!; [done|done|]. cbn. rewrite (HG G), Z.sub_diag by lia.
    unfold dval, dnum. rewrite Hm, Hs. destruct (sign a); reflexivity.
  - split; [by eapply He|]. refine (stored_holds a b _ _ e to to' _ Ha Hb Hs). intros n Hn. fold G.
    specialize (Ca n ltac:(lia)). specialize (Cb n ltac:(lia)). lia.
  - split; [by eapply He|]. pose proof (stored_holds b a (negb (sign a)) (fun n => cut n b - cut n a) e to to') as Hh.
    rewrite (Nat.max_comm (fw b)) in Hh. fold G in Hh. cbv beta zeta in Hh.
    replace (signed (sign a) (cut G a - cut G b)) with (signed (negb (sign a)) (cut G b - cut G a)) by (destruct (sign a); simpl; lia).
    apply Hh; try done. intros n Hn. specialize (Ca n ltac:(lia)). specialize (Cb n ltac:(lia)). lia.
Qed.

(** The sum and the difference over the common number of fraction words. *)
Lemma dval_add a b (same : bool) : let G := Nat.max (fw a) (fw b) in
  sign b = (if same then sign a else negb (sign a)) ->
  (dval a + dval b == signed (sign a) (if same then cut G a + cut G b else cut G a - cut G b) # bpos G)%Q.
Proof.
  intros G Hs. rewrite (dval_cut G a), (dval_cut G b), Q_same_den by lia. rewrite Hs.
  assert (forall x y, x = y -> x # bpos G == y # bpos G)%Q as Heq by (by intros ? ? ->).
  apply Heq. destruct same, (sign a); simpl; lia.
Qed.

Lemma dval_sub a b (same : bool) : let G := Nat.max (fw a) (fw b) in
  sign b = (if same then sign a else negb (sign a)) ->
  (dval a - dval b == signed (sign a) (if same then cut G a - cut G b else cut G a + cut G b) # bpos G)%Q.
Proof.
  intros G Hs. rewrite (dval_cut G a), (dval_cut G b), Q_sub_den by lia. rewrite Hs.
  assert (forall x y, x = y -> x # bpos G == y # bpos G)%Q as Heq by (by intros ? ? ->).
  apply Heq. destruct same, (sign a); simpl; lia.
Qed.

(** ** decimal_add, decimal_sub and decimal_cmp *)

Lemma decimal_add_ok a b to : dec_ok a -> dec_ok b -> dest_ok to -> iw a <= len to -> iw b <= len to ->
  exists e to', decimal_add a b to = Some (e, to') /\
    if e =? E_DEC_OVERFLOW then sign a = sign b /\ sum_overflow a b to /\ to' = max_number (len to)
    else ~ (sign a = sign b /\ sum_overflow a b to) /\ holds (dval a + dval b) e to to'.
Proof.
  intros Ha Hb Hto La Lb. unfold decimal_add. destruct (eqb (sign a) (sign b)) eqn:Es.
  - apply eqb_prop in Es. destruct (do_add_holds a b to (sign a) Ha Hb Hto) as (e & to' & -> & Hr). exists e, to'.
    split; [done|]. specialize (Hr eq_refl). destruct (e =? E_DEC_OVERFLOW); [done|].
    destruct Hr as [Hn Hr]. split; [naive_solver|]. by rewrite (dval_add a b true).
  - apply eqb_false_iff in Es. destruct (do_sub_holds a b to Ha Hb Hto La Lb) as (e & to' & -> & He & Hr). exists e, to'.
    split; [done|]. rewrite (proj2 (Z.eqb_neq _ _) He). split; [naive_solver|].
    rewrite (dval_add a b false); [done|]. by destruct (sign a), (sign b).
Qed.

(** C30. decimal_add stores the sum of two numbers in a buffer that holds the
    integer part of either: the exact sum with E_DEC_OK, the sum up to two
    units of the last fraction word with E_DEC_TRUNCATED, and with
    E_DEC_OVERFLOW the largest number of the buffer.  It overflows when and
    only when the signs are the same and the words before the point, with one
    for a possible carry, are more than the buffer has. *)
Theorem decimal_add_correct a b to : dec_ok a -> dec_ok b -> dest_ok to -> iw a <= len to -> iw b <= len to ->
  exists e to', decimal_add a b to = Some (e, to') /\
    if e =? E_DEC_OVERFLOW then sign a = sign b /\ sum_overflow a b to /\ to' = max_number (len to)
    else ~ (sign a = sign b /\ sum_overflow a b to) /\ holds (dval a + dval b) e to to'.
Proof. apply decimal_add_ok. Qed.

(** decimal_sub stores the difference of two numbers, with the same cases
    as decimal_add; it overflows only if the signs are not the same. *)
Theorem decimal_sub_correct a b to : dec_ok a -> dec_ok b -> dest_ok to -> iw a <= len to -> iw b <= len to ->
  exists e to', decimal_sub a b to = Some (e, to') /\
    if e =? E_DEC_OVERFLOW then sign a <> sign b /\ sum_overflow a b to /\ to' = max_number (len to)
    else ~ (sign a <> sign b /\ sum_overflow a b to) /\ holds (dval a - dval b) e to to'.
Proof.
  intros Ha Hb Hto La Lb. unfold decimal_sub. destruct (eqb (sign a) (sign b)) eqn:Es.
  - apply eqb_prop in Es. destruct (do_sub_holds a b to Ha Hb Hto La Lb) as (e & to' & -> & He & Hr). exists e, to'.
    split; [done|]. rewrite (proj2 (Z.eqb_neq _ _) He). split; [naive_solver|]. by rewrite (dval_sub a b true).
  - apply eqb_false_iff in Es. destruct (do_add_holds a b to (sign a) Ha Hb Hto) as (e & to' & -> & Hr). exists e, to'.
    split; [done|]. specialize (Hr eq_refl). destruct (e =? E_DEC_OVERFLOW); [naive_solver|].
    destruct Hr as [Hn Hr]. split; [naive_solver|]. rewrite (dval_sub a b false); [done|]. by destruct (sign a), (sign b).
Qed.

Definition cmp_code (c : comparison) : Z := match c with Eq => 0 | Lt => -1 | Gt => 1 end.

(** C40.  decimal_cmp orders numbers by their values, whatever the numbers of
    digits they are written with are, unless the two are a zero and a negative
    zero. *)
Theorem decimal_cmp_correct a b : dec_ok a -> dec_ok b -> (mag a = 0 -> mag b = 0 -> sign a = sign b) ->
  decimal_cmp a b = Some (cmp_code (dval a ?= dval b)%Q).
Proof.
  intros Ha Hb Hz. set (G := Nat.max (fw a) (fw b)). unfold decimal_cmp.
  rewrite (Qcompare_comp _ _ (dval_cut G a ltac:(lia)) _ _ (dval_cut G b ltac:(lia))).
  assert (forall x y, (x # bpos G ?= y # bpos G)%Q = (x ?= y)) as ->.
  { intros x y. unfold Qcompare. cbn [Qnum Qden]. symmetry. apply Zmult_compare_compat_r. lia. }
  pose proof (cut_bound G a Ha) as Ba. pose proof (cut_bound G b Hb) as Bb.
  destruct (eqb (sign a) (sign b)) eqn:Es.
  - apply eqb_prop in Es. rewrite do_cmp_ok by done. fold G. rewrite <- Es. f_equal.
    destruct (Z.eqb_spec (cut G a) (cut G b)) as [->|Hne]; [by rewrite Z.compare_refl|].
    destruct (Z.ltb_spec (cut G a) (cut G b)), (sign a); simpl;
      (rewrite (proj2 (Z.compare_lt_iff _ _)) by lia) || (rewrite (proj2 (Z.compare_gt_iff _ _)) by lia); done.
  - apply eqb_false_iff in Es. assert (0 < cut G a \/ 0 < cut G b) as Hp.
    { pose proof (cut_zero G a ltac:(lia)). pose proof (cut_zero G b ltac:(lia)).
      destruct (decide (mag a = 0)) as [Ea|]; [|lia]. destruct (decide (mag b = 0)) as [Eb|]; [|lia]. by destruct Es; apply Hz. }
    f_equal. destruct (sign a), (sign b); simpl; try done.
    + rewrite (proj2 (Z.compare_lt_iff _ _)) by lia. done.
    + rewrite (proj2 (Z.compare_gt_iff _ _)) by lia. done.
Qed.

(** A zero and a negative zero are the same number, and decimal_cmp does
    not return 0 for them. *)
Theorem decimal_cmp_negative_zero a b : mag a = 0 -> mag b = 0 -> sign a <> sign b ->
  (dval a == dval b)%Q /\ decimal_cmp a b = Some (if sign a then -1 else 1).
Proof.
  intros Ha Hb Hs. split.
  - unfold dval, dnum. rewrite Ha, Hb. by destruct (sign a), (sign b).
  - unfold decimal_cmp. by rewrite (proj2 (eqb_false_iff _ _) Hs).
Qed.

(** ** Witnesses *)

(** 12.5, -3.25, 999999999 and -0, in buffers of two words and of one. *)
Definition d12_5 : decimal_t := mk_dec 2 1 2 false [12; 500000000].
Definition dm3_25 : decimal_t := mk_dec 1 2 2 true [3; 250000000].
Definition dzero : decimal_t := mk_dec 1 0 2 false [0; 0].
Definition dnegzero : decimal_t := mk_dec 1 0 2 true [0; 0].

Lemma d12_5_ok : dec_ok d12_5.
Proof. by apply dec_okb_ok. Qed.

Lemma dm3_25_ok : dec_ok dm3_25.
Proof. by apply dec_okb_ok. Qed.

Lemma dzero_ok : dec_ok dzero.
Proof. by apply dec_okb_ok. Qed.

Lemma dest_ok_dzero : dest_ok dzero.
Proof. by split. Qed.

Lemma decimal_add_correct_witness : exists e to', decimal_add d12_5 dm3_25 dzero = Some (e, to') /\
  e = E_DEC_OK /\ (dval to' == 37 # 4)%Q.
Proof.
  destruct (decimal_add_correct d12_5 dm3_25 dzero d12_5_ok dm3_25_ok dest_ok_dzero ltac:(done) ltac:(done))
    as (e & to' & He & Hr).
  exists e, to'. split; [done|]. assert (e = E_DEC_OK) as -> by (vm_compute in He |- *; congruence).
  split; [done|]. destruct Hr as (_ & _ & _ & Hr). cbn in Hr. rewrite Hr. by vm_compute.
Defined.

Lemma decimal_sub_correct_witness : exists e to', decimal_sub d12_5 dm3_25 dzero = Some (e, to') /\
  e = E_DEC_OK /\ (dval to' == 63 # 4)%Q.
Proof.
  destruct (decimal_sub_correct d12_5 dm3_25 dzero d12_5_ok dm3_25_ok dest_ok_dzero ltac:(done) ltac:(done))
    as (e & to' & He & Hr).
  exists e, to'. split; [done|]. assert (e = E_DEC_OK) as -> by (vm_compute in He |- *; congruence).
  split; [done|]. destruct Hr as (_ & _ & _ & Hr). cbn in Hr. rewrite Hr. by vm_compute.
Defined.

Lemma decimal_cmp_correct_witness : decimal_cmp dm3_25 dzero = Some (-1).
Proof. rewrite (decimal_cmp_correct dm3_25 dzero dm3_25_ok dzero_ok ltac:(done)). by vm_compute. Defined.

Lemma decimal_cmp_negative_zero_witness : (dval dnegzero == dval dzero)%Q /\ decimal_cmp dnegzero dzero = Some (-1).
Proof. exact (decimal_cmp_negative_zero dnegzero dzero eq_refl eq_refl ltac:(done)). Defined.
