(* ===== verification/DecInt.v ===== *)
(** * Fixed point numbers: conversion from and to integers

    ull2dec and the conversions of signed and unsigned 64-bit integers, and
    decimal2ulonglong and decimal2longlong: the stored value, the truncation
    of the fraction, and the limits of the integer types. *)

From stdpp Require Import prelude list list_numbers numbers.
From Stdlib Require Import ZArith QArith Lia ZifyNat Bool.
From S2P Require Import Prelude Horner Decimal DecBase DecAdd DecSub DecArith.
Open Scope Z_scope.

#[local] Coercion Z.of_nat : nat >-> Z.

(** ** Integers to numbers *)

Lemma count_words_ok from : 0 <= from < 2 ^ 64 ->
  exists k : nat, count_words 8 from 1 = Some (Z.of_nat k) /\ (1 <= k <= 3)%nat /\
    from < DIG_BASE ^ k /\ (k = 1%nat \/ DIG_BASE ^ (k - 1)%nat <= from).
Proof.
  intros H. cbn [count_words]. rewrite !Z.geb_leb. unfold DIG_BASE. destruct (Z.leb_spec 1000000000 from).
  - destruct (Z.leb_spec 1000000000 (from / 1000000000)).
    + rewrite (proj2 (Z.leb_gt _ (from / 1000000000 / 1000000000))) by zdiv.
      exists 3%nat. split_and!; [done|lia|lia|lia|]. right. simpl. zdiv.
    + exists 2%nat. split_and!; [done|lia|lia|zdiv|]. right. simpl. lia.
  - exists 1%nat. split_and!; [done|lia|lia|lia|]. by left.
Qed.

Lemma store_words_ok n : forall x b, 0 <= x < 2 ^ 64 -> (n <= length b)%nat ->
  exists W, store_words n x b = Some (splice b 0 W) /\ length W = n /\ Forall is_word W /\
    wordsval W = x mod DIG_BASE ^ n.
Proof.
  induction n as [|n IH]; intros x b Hx Hn; cbn [store_words].
  - exists []. rewrite splice_nil. split_and!; try done. cbn. by rewrite Z.mod_1_r.
  - assert (0 <= x mod DIG_BASE < DIG_BASE) as Hm by (apply Z.mod_pos_bound; done).
    assert (s32 (u64 (x - u64 (x / DIG_BASE * DIG_BASE))) = x mod DIG_BASE) as ->.
    { rewrite Z.mod_eq in * by done. unfold DIG_BASE in *.
      rewrite (u64_small (x / 1000000000 * 1000000000)) by (split; zdiv). rewrite u64_small, s32_small by lia. lia. }
    rewrite put_nat by lia. obind. rewrite <- splice_insert by lia.
    destruct (IH (x / DIG_BASE) (splice b n [x mod DIG_BASE])) as (W & -> & HlW & HW & Hv).
    { unfold DIG_BASE. zdiv. } { rewrite splice_length; simpl; lia. }
    exists (W ++ [x mod DIG_BASE]). split_and!.
    + rewrite splice_splice by (simpl; lia). done.
    + rewrite length_app. simpl. lia.
    + by apply Forall_snoc_1.
    + rewrite horner_snoc, Hv, bpow_S, Z.rem_mul_r by (done || apply bpow_pos). lia.
Qed.

Lemma ull2dec_ok from to : 0 <= from < 2 ^ 64 -> dest_ok to ->
  exists e to', ull2dec from to = Some (e, to') /\ dec_ok to' /\ len to' = len to /\ sign to' = sign to /\ frac to' = 0 /\
    if e =? E_DEC_OK then mag to' = from
    else e = E_DEC_OVERFLOW /\ DIG_BASE ^ len to <= from /\ mag to' = from mod DIG_BASE ^ len to.
Proof.
  intros Hf [Hl0 Hlen]. unfold ull2dec. destruct (count_words_ok from Hf) as (k & -> & Hk & Hlt & Hge). obind.
  assert (exists j e, (if Z.of_nat k >? len to then (len to, E_DEC_OVERFLOW) else (Z.of_nat k, E_DEC_OK)) = (Z.of_nat j, e) /\
    (0 < j <= length (buf to))%nat /\
    if e =? E_DEC_OK then from < DIG_BASE ^ j else e = E_DEC_OVERFLOW /\ DIG_BASE ^ j <= from /\ len to = j) as (j & e & -> & Hj & He).
  { rewrite Z.gtb_ltb. destruct (Z.ltb_spec (len to) k).
    - exists (length (buf to)), E_DEC_OVERFLOW. split_and!; [by rewrite Hlen|lia|lia|]. cbn. split_and!; [done| |done].
      destruct Hge as [->|Hge]; [lia|]. pose proof (bpow_mono (length (buf to)) (k - 1) ltac:(lia)). lia.
    - exists k, E_DEC_OK. split_and!; [done|lia|lia|done]. }
  rewrite Nat2Z.id. destruct (store_words_ok j from (buf to) Hf ltac:(lia)) as (W & -> & HlW & HW & Hv). obind.
  destruct (mk_dec_ok j 0 0 (len to) (sign to) (buf to) W) as (Hok & Hi & Hn & Hm); try (done || lia).
  eexists _, _. split; [reflexivity|]. split_and!; try done. rewrite Hm, Hv. destruct (e =? E_DEC_OK).
  - apply Z.mod_small. lia.
  - destruct He as (-> & Hj' & ->). split_and!; done.
Qed.

Lemma dval_int d : frac d = 0 -> (dval d == dnum d # 1)%Q.
Proof. intros Hf. unfold dval, fw. by rewrite Hf. Qed.

(** What the conversion of [n] stores: [n] itself, or, when it has more digits
    than the buffer, its last digits. *)
Definition int_stored (n : Z) (e : Z) (to to' : decimal_t) : Prop :=
  dec_ok to' /\ len to' = len to /\ frac to' = 0 /\ sign to' = (n <? 0) /\
  if e =? E_DEC_OK then (dval to' == n # 1)%Q
  else e = E_DEC_OVERFLOW /\ DIG_BASE ^ len to <= Z.abs n /\ mag to' = Z.abs n mod DIG_BASE ^ len to.

Lemma longlong2decimal_ok from to : - 2 ^ 63 <= from < 2 ^ 63 -> dest_ok to ->
  exists e to', longlong2decimal from to = Some (e, to') /\ int_stored from e to to'.
Proof.
  intros Hf Hto. unfold longlong2decimal.
  assert (exists s, (from <? 0) = s) as [s Hs] by eauto. rewrite Hs.
  assert ((if s then ull2dec (u64 (s64 (- from))) (set_sign to true) else ull2dec (u64 from) (set_sign to false))
          = ull2dec (Z.abs from) (set_sign to s)) as ->.
  { destruct s; b2p.
    - rewrite Z.abs_neq by lia. destruct (decide (from = - 2 ^ 63)) as [->|]; [done|]. by rewrite s64_small, u64_small by lia.
    - by rewrite Z.abs_eq, u64_small by lia. }
  destruct (ull2dec_ok (Z.abs from) (set_sign to s)) as (e & to' & -> & Hok & Hl & Hsg & Hfr & He); [lia|done|].
  exists e, to'. split; [done|]. split_and!; try done; [by rewrite Hs|]. destruct (e =? E_DEC_OK); [|done].
  rewrite dval_int by done. unfold dnum. rewrite Hsg, He. simpl. destruct s; b2p; unfold signed.
  - by rewrite Z.abs_neq, Z.opp_involutive by lia.
  - by rewrite Z.abs_eq by lia.
Qed.

(** ** Numbers to integers *)

Lemma cut_0 d : cut 0 d = wordsval (seg (buf d) 0 (iw d)).
Proof. unfold cut. rewrite Nat.min_0_r, Nat.add_0_r, seg_0, Nat.sub_0_r. simpl. lia. Qed.

Lemma ull_words_ok n : forall b (i : nat) x, (i + n <= length b)%nat -> Forall is_word (seg b i n) -> 0 <= x < 2 ^ 64 ->
  let v := x * DIG_BASE ^ n + wordsval (seg b i n) in
  ull_words n b i x = Some (if v <? 2 ^ 64 then inr v else inl (2 ^ 64 - 1)).
Proof.
  induction n as [|n IH]; intros b i x Hi HW Hx v; cbn [ull_words]; subst v.
  - rewrite seg_nil. simpl. rewrite Z.mul_1_r, Z.add_0_r. by rewrite (proj2 (Z.ltb_lt _ _)) by lia.
  - destruct (lookup_lt_is_Some_2 b i) as [w Hw]; [lia|]. rewrite get_nat, Hw. obind.
    rewrite (seg_cons b i n w Hw) in *. pose proof (Forall_inv HW) as Hww. apply Forall_inv_tail in HW.
    cbn [horner]. rewrite seg_length by lia. rewrite bpow_S.
    pose proof (bpow_pos n). pose proof (horner_bound DIG_BASE base_ge2 _ HW).
    replace (x * (DIG_BASE * DIG_BASE ^ n) + (w * DIG_BASE ^ n + wordsval (seg b (S i) n)))
      with ((x * DIG_BASE + w) * DIG_BASE ^ n + wordsval (seg b (S i) n)) by ring.
    unfold is_digit in Hww. rewrite Z.gtb_ltb. set (t := (2 ^ 64 - 1) / DIG_BASE).
    change ((2 ^ 64 - 1) / DIG_BASE) with 18446744073 in t.
    destruct (decide (x * DIG_BASE + w < 2 ^ 64)) as [Hlt|Hge].
    + assert (u64 (u64 (x * DIG_BASE) + u64 w) = x * DIG_BASE + w) as ->.
      { unfold DIG_BASE in *. rewrite (u64_small (x * _)), (u64_small w), u64_small by lia. done. }
      assert ((t <? x) || (x * DIG_BASE + w <? x) = false) as ->.
      { unfold t, DIG_BASE in *. apply orb_false_iff. split; [apply Z.ltb_ge|apply Z.ltb_ge]; lia. }
      replace (Z.of_nat i + 1) with (Z.of_nat (S i)) by lia. apply IH; [lia|done|unfold DIG_BASE in *; lia].
    + assert ((t <? x) || (u64 (u64 (x * DIG_BASE) + u64 w) <? x) = true) as ->.
      { apply orb_true_iff. destruct (decide (t < x)); [left; by apply Z.ltb_lt|right]. apply Z.ltb_lt.
        unfold t, DIG_BASE in *. rewrite (u64_small (x * _)), (u64_small w) by lia.
        assert (u64 (x * 1000000000 + w) = x * 1000000000 + w - 2 ^ 64) as ->; [|lia].
        unfold u64. rewrite <- (Z_mod_plus_full _ (-1)). apply Z.mod_small. lia. }
      rewrite (proj2 (Z.ltb_ge _ _)); [done|]. nia.
Qed.

Lemma s64_wrap z k : s64 (z + k * 2 ^ 64) = s64 z.
Proof. unfold s64, sgn_wrap. by rewrite Z_mod_plus_full. Qed.

Lemma ll_words_ok n : forall b (i : nat) x, (i + n <= length b)%nat -> Forall is_word (seg b i n) -> 0 <= x <= 2 ^ 63 ->
  let v := x * DIG_BASE ^ n + wordsval (seg b i n) in
  ll_words n b i (- x) = Some (if v <=? 2 ^ 63 then Some (- v) else None).
Proof.
  induction n as [|n IH]; intros b i x Hi HW Hx v; cbn [ll_words]; subst v.
  - rewrite seg_nil. simpl. rewrite Z.mul_1_r, Z.add_0_r. by rewrite (proj2 (Z.leb_le _ _)) by lia.
  - destruct (lookup_lt_is_Some_2 b i) as [w Hw]; [lia|]. rewrite get_nat, Hw. obind.
    rewrite (seg_cons b i n w Hw) in *. pose proof (Forall_inv HW) as Hww. apply Forall_inv_tail in HW.
    cbn [horner]. rewrite seg_length by lia. rewrite bpow_S.
    pose proof (bpow_pos n). pose proof (horner_bound DIG_BASE base_ge2 _ HW).
    replace (x * (DIG_BASE * DIG_BASE ^ n) + (w * DIG_BASE ^ n + wordsval (seg b (S i) n)))
      with ((x * DIG_BASE + w) * DIG_BASE ^ n + wordsval (seg b (S i) n)) by ring.
    unfold is_digit in Hww. rewrite Z.gtb_ltb. set (t := Z.quot (- 2 ^ 63) DIG_BASE).
    change (Z.quot (- 2 ^ 63) DIG_BASE) with (-9223372036) in t.
    destruct (decide (x * DIG_BASE + w <= 2 ^ 63)) as [Hlt|Hge].
    + assert (s64 (s64 (- x * DIG_BASE) - w) = - (x * DIG_BASE + w)) as ->.
      { unfold DIG_BASE in *. rewrite (s64_small (- x * _)), s64_small by lia. lia. }
      assert ((- x <? t) || (- x <? - (x * DIG_BASE + w)) = false) as ->.
      { unfold t, DIG_BASE in *. apply orb_false_iff. split; [apply Z.ltb_ge|apply Z.ltb_ge]; lia. }
      replace (Z.of_nat i + 1) with (Z.of_nat (S i)) by lia. apply IH; [lia|done|unfold DIG_BASE in *; lia].
    + assert ((- x <? t) || (- x <? s64 (s64 (- x * DIG_BASE) - w)) = true) as ->.
      { apply orb_true_iff. destruct (decide (- x < t)); [left; by apply Z.ltb_lt|right]. apply Z.ltb_lt.
        unfold t, DIG_BASE in *. rewrite (s64_small (- x * _)) by lia.
        assert (s64 (- x * 1000000000 - w) = - x * 1000000000 - w + 2 ^ 64) as ->; [|lia].
        rewrite <- (s64_wrap _ 1). apply s64_small. lia. }
      rewrite (proj2 (Z.leb_gt _ _)); [done|]. nia.
Qed.

(** The fraction is not zero. *)
Lemma frac_nonzero d : dec_ok d ->
  Exists (fun w => w <> 0) (seg (buf d) (iw d) (fw d)) <-> Z.rem (dnum d) (DIG_BASE ^ fw d) <> 0.
Proof.
  intros Hd. pose proof (ok_room d Hd). pose proof (bpow_pos (fw d)).
  assert (Forall is_word (seg (buf d) (iw d) (fw d))) as HW.
  { pose proof (ok_words d Hd) as HW. unfold dwords in HW. rewrite <- seg_0 in HW. eapply seg_Forall; [exact HW|lia|lia]. }
  assert (Z.rem (dnum d) (DIG_BASE ^ fw d) = signed (sign d) (wordsval (seg (buf d) (iw d) (fw d)))) as ->.
  { assert (Z.rem (mag d) (DIG_BASE ^ fw d) = wordsval (seg (buf d) (iw d) (fw d))) as <-.
    { rewrite Z.rem_mod_nonneg by (pose proof (mag_bound d Hd); lia). unfold mag, dwords.
      rewrite <- seg_0, seg_app, horner_app, seg_length by (done || lia). rewrite Z.add_comm, Z_mod_plus_full. simpl.
      apply Z.mod_small. pose proof (horner_bound DIG_BASE base_ge2 _ HW) as Hb. by rewrite seg_length in Hb by lia. }
    unfold dnum. destruct (sign d); simpl; [|done]. apply Z.rem_opp_l. lia. }
  rewrite (words_nonzero _ HW). destruct (sign d); simpl; lia.
Qed.

(** The integer part, rounded towards zero. *)
Definition truncated (d : decimal_t) : Z := Z.quot (dnum d) (DIG_BASE ^ fw d).

Lemma truncated_cut d : dec_ok d -> truncated d = signed (sign d) (cut 0 d).
Proof.
  intros Hd. pose proof (mag_bound d Hd). pose proof (bpow_pos (fw d)).
  assert (cut 0 d = Z.quot (mag d) (DIG_BASE ^ fw d)) as ->.
  { rewrite (cut_div 0 (fw d) d) by (done || lia). rewrite cut_exact, Nat.sub_diag, Nat.sub_0_r, Z.mul_1_r by done.
    symmetry. apply Z.quot_div_nonneg; lia. }
  unfold truncated, dnum. destruct (sign d); simpl; [|done]. apply Z.quot_opp_l. lia.
Qed.

(** What the conversion to an integer type with the limits [lo] and [hi]
    returns: the number without its fraction, or the limit it is beyond. *)
Definition saturated (lo hi : Z) (d : decimal_t) : Z * Z :=
  if truncated d <? lo then (lo, E_DEC_OVERFLOW)
  else if hi <? truncated d then (hi, E_DEC_OVERFLOW)
  else (truncated d, if Z.rem (dnum d) (DIG_BASE ^ fw d) =? 0 then E_DEC_OK else E_DEC_TRUNCATED).

Lemma iw_words d : dec_ok d -> Forall is_word (seg (buf d) 0 (iw d)).
Proof.
  intros Hd. pose proof (ok_words d Hd) as HW. unfold dwords in HW. rewrite <- seg_0 in HW.
  eapply seg_Forall; [exact HW|lia|lia].
Qed.

Lemma any_frac d : dec_ok d ->
  any_word (Z.to_nat (fw d)) (buf d) (iw d) = Some (negb (Z.rem (dnum d) (DIG_BASE ^ fw d) =? 0)).
Proof.
  intros Hd. rewrite Nat2Z.id, any_word_ok by apply (ok_room d Hd). f_equal.
  destruct (Z.eqb_spec (Z.rem (dnum d) (DIG_BASE ^ fw d)) 0); simpl.
  - apply bool_decide_false. rewrite (frac_nonzero d Hd). lia.
  - apply bool_decide_true. by rewrite (frac_nonzero d Hd).
Qed.

Lemma decimal2longlong_ok d : dec_ok d -> decimal2longlong d = Some (saturated (- 2 ^ 63) (2 ^ 63 - 1) d).
Proof.
  intros Hd. unfold decimal2longlong, saturated. cbv zeta. rewrite (Z_iw d Hd), (Z_fw d Hd), (truncated_cut d Hd), (Nat2Z.id (iw d)).
  pose proof (ok_room d Hd). pose proof (cut_bound 0 d Hd) as Hc.
  pose proof (ll_words_ok (iw d) (buf d) 0 0 ltac:(lia) (iw_words d Hd) ltac:(lia)) as Hw. cbv zeta in Hw.
  change (- 0) with 0 in Hw. change (Z.of_nat 0) with 0 in Hw. rewrite Z.mul_0_l, Z.add_0_l, <- cut_0 in Hw. rewrite Hw. obind.
  destruct (Z.leb_spec (cut 0 d) (2 ^ 63)).
  - destruct (sign d) eqn:Es; simpl negb; cbn [andb signed].
    + rewrite (proj2 (Z.ltb_ge _ (- 2 ^ 63))), (proj2 (Z.ltb_ge (2 ^ 63 - 1) _)), any_frac by (done || lia). obind.
      by destruct (_ =? 0).
    + rewrite (proj2 (Z.ltb_ge _ (- 2 ^ 63))) by lia.
      destruct (Z.eqb_spec (- cut 0 d) (- 2 ^ 63)).
      * by rewrite (proj2 (Z.ltb_lt (2 ^ 63 - 1) _)) by lia.
      * rewrite (proj2 (Z.ltb_ge (2 ^ 63 - 1) _)), any_frac by (done || lia). obind. rewrite s64_small, Z.opp_involutive by lia.
        by destruct (_ =? 0).
  - destruct (sign d); simpl signed.
    + by rewrite (proj2 (Z.ltb_lt _ (- 2 ^ 63))) by lia.
    + by rewrite (proj2 (Z.ltb_ge _ (- 2 ^ 63))), (proj2 (Z.ltb_lt (2 ^ 63 - 1) _)) by lia.
Qed.

(** C37.  decimal2longlong drops the fraction, reports E_DEC_TRUNCATED if it was
    not zero, and returns the nearest limit of the type with E_DEC_OVERFLOW for
    a number beyond it. *)
Theorem decimal2longlong_correct d : dec_ok d -> decimal2longlong d = Some (saturated (- 2 ^ 63) (2 ^ 63 - 1) d).
Proof. apply decimal2longlong_ok. Qed.

(** decimal2ulonglong does the same for an unsigned integer, and returns 0
    with E_DEC_OVERFLOW for a number with a sign. *)
Theorem decimal2ulonglong_correct d : dec_ok d ->
  decimal2ulonglong d = Some (if sign d then (0, E_DEC_OVERFLOW) else saturated 0 (2 ^ 64 - 1) d).
Proof.
  intros Hd. unfold decimal2ulonglong, saturated. cbv zeta. destruct (sign d) eqn:Es; [done|].
  rewrite (Z_iw d Hd), (Z_fw d Hd), (truncated_cut d Hd), Es, (Nat2Z.id (iw d)). cbn [signed].
  pose proof (ok_room d Hd). pose proof (cut_bound 0 d Hd) as Hc.
  pose proof (ull_words_ok (iw d) (buf d) 0 0 ltac:(lia) (iw_words d Hd) ltac:(lia)) as Hw. cbv zeta in Hw.
  change (Z.of_nat 0) with 0 in Hw. rewrite Z.mul_0_l, Z.add_0_l, <- cut_0 in Hw. rewrite Hw. obind.
  rewrite (proj2 (Z.ltb_ge _ 0)) by lia. destruct (Z.ltb_spec (cut 0 d) (2 ^ 64)).
  - rewrite (proj2 (Z.ltb_ge (2 ^ 64 - 1) _)), any_frac by (done || lia). obind. by destruct (_ =? 0).
  - by rewrite (proj2 (Z.ltb_lt (2 ^ 64 - 1) _)) by lia.
Qed.

(** longlong2decimal stores any 64-bit integer exactly in a buffer that has
    room for it, and its last digits with E_DEC_OVERFLOW in a smaller one. *)
Theorem longlong2decimal_correct from to : - 2 ^ 63 <= from < 2 ^ 63 -> dest_ok to ->
  exists e to', longlong2decimal from to = Some (e, to') /\ int_stored from e to to'.
Proof. apply longlong2decimal_ok. Qed.

(** A 64-bit integer that is converted to a decimal_t of at least three
    words and back is the same integer, without an error. *)
Theorem longlong_roundtrip from to : - 2 ^ 63 <= from < 2 ^ 63 -> dest_ok to -> 3 <= len to ->
  exists to', longlong2decimal from to = Some (E_DEC_OK, to') /\ decimal2longlong to' = Some (from, E_DEC_OK).
Proof.
  intros Hf Hto Hl. destruct (longlong2decimal_ok from to Hf Hto) as (e & to' & -> & Hok & Hl' & Hfr & Hs & He).
  exists to'. destruct (Z.eqb_spec e E_DEC_OK) as [->|Hne].
  - split; [done|]. rewrite decimal2longlong_ok by done. rewrite dval_int in He by done.
    unfold Qeq in He. cbn [Qnum Qden] in He. rewrite !Z.mul_1_r in He. unfold saturated, truncated, fw. rewrite Hfr, He.
    change (DIG_BASE ^ Z.to_nat (ROUND_UP 0)) with 1. rewrite Z.quot_1_r, Z.rem_1_r.
    by rewrite (proj2 (Z.ltb_ge _ _)), (proj2 (Z.ltb_ge _ _)) by lia.
  - destruct He as (_ & Hge & _). pose proof (Z.pow_le_mono_r DIG_BASE 3 (len to) ltac:(done) Hl) as Hp.
    change (DIG_BASE ^ 3) with (10 ^ 27) in Hp. lia.
Qed.

(** ** Witnesses *)

Definition dfull : decimal_t := mk_dec 27 0 3 false [9; 223372036; 854775808].
Definition dbuf3 : decimal_t := mk_dec 1 0 3 false [0; 0; 0].

Lemma decimal2longlong_correct_witness : decimal2longlong dfull = Some (2 ^ 63 - 1, E_DEC_OVERFLOW).
Proof. rewrite (decimal2longlong_correct dfull ltac:(by apply dec_okb_ok)). by vm_compute. Defined.

Lemma decimal2ulonglong_correct_witness : decimal2ulonglong d12_5 = Some (12, E_DEC_TRUNCATED).
Proof. rewrite (decimal2ulonglong_correct d12_5 d12_5_ok). by vm_compute. Defined.

Lemma longlong2decimal_correct_witness : exists e to',
  longlong2decimal (- 2 ^ 63) dbuf3 = Some (e, to') /\ int_stored (- 2 ^ 63) e dbuf3 to'.
Proof. exact (longlong2decimal_correct (- 2 ^ 63) dbuf3 ltac:(lia) ltac:(by split)). Defined.

Lemma longlong_roundtrip_witness : exists to',
  longlong2decimal (- 2 ^ 63) dbuf3 = Some (E_DEC_OK, to') /\ decimal2longlong to' = Some (- 2 ^ 63, E_DEC_OK).
Proof. exact (longlong_roundtrip (- 2 ^ 63) dbuf3 ltac:(lia) ltac:(by split) ltac:(done)). Defined.
