(* ===== verification/DecProd.v ===== *)
(** * Fixed point numbers: proofs about products

    decimal_mul multiplies word by word into a buffer of zero words and adds
    the partial products there.  The loops compute the product of the words
    when it fits the words of the result, and report an overflow otherwise. *)

From stdpp Require Import prelude list list_numbers numbers.
From Stdlib Require Import ZArith QArith Lia ZifyNat Bool.
From S2P Require Import Prelude Horner Decimal DecMul DecBase DecAdd DecSub DecArith.
Open Scope Z_scope.

#[local] Coercion Z.of_nat : nat >-> Z.

(** ** The loops *)

Lemma ADD2_ok x y c : is_word x -> is_word y -> 0 <= c < DIG_BASE ->
  exists a c', ADD2 x y c = (a, c') /\ is_word a /\ 0 <= c' <= 2 /\ a + c' * DIG_BASE = x + y + c.
Proof.
  unfold is_digit, DIG_BASE, ADD2. intros Hx Hy Hc. cbv zeta. unfold DIG_BASE.
  rewrite (s64_small (x + y + c)) by lia. rewrite Z.geb_leb.
  destruct (Z.leb_spec 1000000000 (x + y + c)).
  - rewrite (s64_small (x + y + c - _)) by lia. rewrite Z.geb_leb.
    destruct (Z.leb_spec 1000000000 (x + y + c - 1000000000)).
    + rewrite !s64_small, ?s32_small by lia. eexists _, _. split; [reflexivity|]. lia.
    + rewrite ?s32_small by lia. eexists _, _. split; [reflexivity|]. lia.
  - rewrite Z.geb_leb, (proj2 (Z.leb_gt _ _)) by lia. rewrite ?s32_small by lia. eexists _, _. split; [reflexivity|]. lia.
Qed.

(** The product of two words, in two words. *)
Lemma mul_words x y : is_word x -> is_word y ->
  let p := s64 (x * y) in let hi := s32 (Z.quot p DIG_BASE) in let lo := s32 (s64 (p - s64 (hi * DIG_BASE))) in
  is_word lo /\ 0 <= hi < DIG_BASE - 1 /\ hi * DIG_BASE + lo = x * y.
Proof.
  unfold is_digit. intros Hx Hy. cbv zeta. assert (0 <= x * y <= (DIG_BASE - 1) * (DIG_BASE - 1)) as Hp by nia.
  rewrite (s64_small (x * y)) by (unfold DIG_BASE in *; lia). rewrite Z.quot_div_nonneg by (unfold DIG_BASE; lia).
  pose proof (Z.div_mod (x * y) DIG_BASE ltac:(done)) as Hd. pose proof (Z.mod_pos_bound (x * y) DIG_BASE ltac:(done)) as Hm.
  assert (0 <= x * y / DIG_BASE < DIG_BASE - 1) as Hq by (unfold DIG_BASE in *; zdiv).
  rewrite (s32_small (x * y / DIG_BASE)) by (unfold DIG_BASE in *; lia).
  rewrite (s64_small (x * y / DIG_BASE * DIG_BASE)) by (unfold DIG_BASE in *; lia).
  rewrite (s64_small (x * y - _)), s32_small by (unfold DIG_BASE in *; lia). lia.
Qed.

Lemma mul_inner_ok x n : is_word x -> forall b2 (e2 : nat) b0 (e0 : nat) c,
  (n <= e2 <= length b2)%nat -> (n <= e0 <= length b0)%nat -> 0 <= c < DIG_BASE ->
  Forall is_word (seg b2 (e2 - n) n) -> Forall is_word (seg b0 (e0 - n) n) ->
  exists W c', mul_inner n x b2 (e2 - 1) b0 (e0 - 1) c = Some (splice b0 (e0 - n) W, Z.of_nat (e0 - n) - 1, c') /\
    length W = n /\ Forall is_word W /\ 0 <= c' < DIG_BASE /\
    wordsval W + c' * DIG_BASE ^ n = wordsval (seg b0 (e0 - n) n) + x * wordsval (seg b2 (e2 - n) n) + c.
Proof.
  intros Hx. induction n as [|n IH]; intros b2 e2 b0 e0 c H2 H0 Hc W2 W0; cbn [mul_inner].
  - exists [], c. rewrite splice_nil, Nat.sub_0_r, !seg_nil. split_and!; try done; [lia..|]. simpl. lia.
  - destruct (get_down b2 e2) as (y & -> & Hy); [lia|]. obind. destruct (get_down b0 e0) as (w & -> & Hw); [lia|]. obind.
    rewrite (seg_last b2 e2 n y) in * by (done || lia). rewrite (seg_last b0 e0 n w) in * by (done || lia).
    apply Forall_app in W2 as [W2 Wy]. apply Forall_app in W0 as [W0 Ww]. apply Forall_inv in Wy, Ww.
    destruct (mul_words x y Hx Wy) as (Hlo & Hhi & Hp). cbv zeta in *.
    set (hi := s32 (Z.quot (s64 (x * y)) DIG_BASE)) in *. set (lo := s32 (s64 (s64 (x * y) - s64 (hi * DIG_BASE)))) in *.
    destruct (ADD2_ok w lo c Ww Hlo Hc) as (a & c1 & -> & Ha & Hc1 & E). rewrite put_down by lia. obind.
    assert (0 <= c1 + hi < DIG_BASE) as Hc'.
    { unfold is_digit in *. clearbody lo hi. clear - Hx Wy Ww Hc Hp E Ha Hc1 Hhi. nia. }
    rewrite s32_small by (unfold DIG_BASE in *; lia). rewrite (Z_down e2), (Z_down e0) by lia.
    destruct (IH b2 (e2 - 1)%nat (splice b0 (e0 - 1) [a]) (e0 - 1)%nat (c1 + hi)) as (W & c' & -> & HlW & HW & Hc2 & Hv);
      [lia|rewrite splice_length; simpl; lia|done|done|by rewrite seg_before by lia|].
    rewrite seg_before in Hv by lia. exists (W ++ [a]), c'. split_and!; [|rewrite length_app; simpl; lia|by apply Forall_snoc_1|lia..|].
    + rewrite splice_splice by (simpl; lia). by replace (e0 - 1 - n)%nat with (e0 - S n)%nat by lia.
    + rewrite !horner_snoc, bpow_S. clearbody lo hi. clear - Hv E Hp.
      replace ((wordsval W * DIG_BASE + a) + c' * (DIG_BASE * DIG_BASE ^ n)) with ((wordsval W + c' * DIG_BASE ^ n) * DIG_BASE + a) by ring.
      rewrite Hv. lia.
Qed.

(** A number below [B ^ e] plus a carry: the words of the sum, or an overflow. *)
Definition carried (b0 : list Z) (e : nat) (v : Z) (res : option (list Z + list Z)) : Prop :=
  if v <? DIG_BASE ^ e then
    exists W, res = Some (inr (splice b0 0 W)) /\ length W = e /\ Forall is_word W /\ wordsval W = v
  else exists b, res = Some (inl b).

Lemma take_splice_id b e : (e <= length b)%nat -> splice b 0 (seg b 0 e) = b.
Proof. intros H. unfold splice. rewrite take_0, seg_length by lia. rewrite seg_0. apply take_drop. Qed.

(** The carry goes into the last of [S e] words. *)
Lemma carried_step b0 e w v c a res : (S e <= length b0)%nat -> b0 !! e = Some w -> is_word a ->
  a + c * DIG_BASE = w + v -> Forall is_word (seg b0 0 e) ->
  carried (splice b0 e [a]) e (wordsval (seg b0 0 e) + c) res ->
  carried b0 (S e) (wordsval (seg b0 0 (S e)) + v) res.
Proof.
  intros He Hw Ha E HW. unfold carried. rewrite (seg_snoc b0 0 e w) by done. rewrite horner_snoc, bpow_S. unfold is_digit in Ha.
  destruct (Z.ltb_spec (wordsval (seg b0 0 e) + c) (DIG_BASE ^ e)).
  - rewrite (proj2 (Z.ltb_lt _ _)) by nia. intros (W & -> & HlW & HWW & Hv). exists (W ++ [a]).
    split_and!; [|rewrite length_app; simpl; lia|by apply Forall_snoc_1|rewrite horner_snoc; lia].
    by rewrite splice_splice by (simpl; lia).
  - by rewrite (proj2 (Z.ltb_ge _ _)) by nia.
Qed.

Lemma carried_none b0 e : (e <= length b0)%nat -> Forall is_word (seg b0 0 e) ->
  carried b0 e (wordsval (seg b0 0 e) + 0) (Some (inr b0)).
Proof.
  intros He HW. unfold carried. pose proof (horner_bound DIG_BASE base_ge2 _ HW) as Hb. rewrite seg_length in Hb by lia.
  rewrite (proj2 (Z.ltb_lt _ _)) by lia. exists (seg b0 0 e). rewrite take_splice_id by done.
  split_and!; [done|by apply seg_length|done|lia].
Qed.

Lemma mul_carry_ok n : forall b0 (e : nat) c, (e <= n)%nat -> (e <= length b0)%nat -> 0 <= c <= 1 ->
  Forall is_word (seg b0 0 e) -> carried b0 e (wordsval (seg b0 0 e) + c) (mul_carry n b0 (e - 1) c).
Proof.
  induction n as [|n IH]; intros b0 e c Hn He Hc HW; cbn [mul_carry].
  - replace e with 0%nat in * by lia. destruct (Z.eqb_spec c 0) as [->|]; cbn [negb]; [by apply carried_none|].
    rewrite (proj2 (Z.ltb_lt _ _)) by lia. unfold carried. rewrite seg_nil. simpl. rewrite (proj2 (Z.ltb_ge _ _)) by lia. eauto.
  - destruct (Z.eqb_spec c 0) as [->|]; cbn [negb]; [by apply carried_none|]. destruct e as [|e].
    + rewrite (proj2 (Z.ltb_lt _ _)) by lia. unfold carried. rewrite seg_nil. simpl. rewrite (proj2 (Z.ltb_ge _ _)) by lia. eauto.
    + rewrite (proj2 (Z.ltb_ge _ _)) by lia. replace (Z.of_nat (S e) - 1) with (Z.of_nat e) by lia.
      destruct (lookup_lt_is_Some_2 b0 e) as [w Hw]; [lia|]. rewrite get_nat, Hw. obind.
      pose proof HW as HW'. rewrite (seg_snoc b0 0 e w) in HW' by done. apply Forall_app in HW' as [HWe Ww]. apply Forall_inv in Ww.
      destruct (ADD_ok w 0 c Ww ltac:(done) Hc) as (a & c1 & -> & Ha & Hc1 & E). rewrite put_nat by lia. obind.
      rewrite <- splice_insert by lia. rewrite Z.add_0_r in E. apply (carried_step b0 e w c c1 a); try done.
      rewrite <- (seg_before b0 e [a] 0 e) by lia. apply IH; [lia|rewrite splice_length; simpl; lia|done|].
      by rewrite seg_before by lia.
Qed.

Lemma mul_carries_ok b0 (e : nat) c : (e <= length b0)%nat -> 0 <= c < DIG_BASE -> Forall is_word (seg b0 0 e) ->
  carried b0 e (wordsval (seg b0 0 e) + c) (mul_carries b0 (e - 1) c).
Proof.
  intros He Hc HW. unfold mul_carries. destruct (Z.eqb_spec c 0) as [->|]; cbn [negb]; [by apply carried_none|].
  destruct e as [|e].
  - rewrite (proj2 (Z.ltb_lt _ _)) by lia. unfold carried. rewrite seg_nil. simpl. rewrite (proj2 (Z.ltb_ge _ _)) by lia. eauto.
  - rewrite (proj2 (Z.ltb_ge _ _)) by lia. replace (Z.of_nat (S e) - 1) with (Z.of_nat e) by lia.
    destruct (lookup_lt_is_Some_2 b0 e) as [w Hw]; [lia|]. rewrite get_nat, Hw. obind.
    pose proof HW as HW'. rewrite (seg_snoc b0 0 e w) in HW' by done. apply Forall_app in HW' as [HWe Ww]. apply Forall_inv in Ww.
    destruct (ADD2_ok w 0 c Ww ltac:(done) Hc) as (a & c1 & -> & Ha & Hc1 & E). rewrite put_nat by lia. obind.
    assert (0 <= c1 <= 1) as Hc2 by (unfold is_digit, DIG_BASE in *; lia).
    rewrite <- splice_insert by lia. rewrite Z.add_0_r in E. apply (carried_step b0 e w c c1 a); try done.
    rewrite <- (seg_before b0 e [a] 0 e) by lia.
    apply mul_carry_ok; [rewrite splice_length; simpl; lia|rewrite splice_length; simpl; lia|done|]. by rewrite seg_before by lia.
Qed.

(** One word of the first factor: its product with the second factor is added
    to the first [e0] words. *)
Lemma mul_row_ok x n b2 (e2 : nat) b0 (e0 : nat) :
  is_word x -> (n <= e2 <= length b2)%nat -> (n <= e0 <= length b0)%nat ->
  Forall is_word (seg b2 (e2 - n) n) -> Forall is_word (seg b0 0 e0) ->
  carried b0 e0 (wordsval (seg b0 0 e0) + x * wordsval (seg b2 (e2 - n) n))
    ('(b0, i0, carry) ← mul_inner n x b2 (e2 - 1) b0 (e0 - 1) 0; mul_carries b0 i0 carry).
Proof.
  intros Hx H2 H0 W2 W0.
  destruct (mul_inner_ok x n Hx b2 e2 b0 e0 0) as (W & c & -> & HlW & HW & Hc & Hv); try (done || lia).
  { eapply seg_Forall; [exact W0|lia|lia]. }
  obind. pose proof (mul_carries_ok (splice b0 (e0 - n) W) (e0 - n) c) as Hk.
  rewrite seg_before, splice_length in Hk by lia.
  specialize (Hk ltac:(lia) Hc ltac:(eapply seg_Forall; [exact W0|lia|lia])).
  assert (wordsval (seg b0 0 e0) = wordsval (seg b0 0 (e0 - n)) * DIG_BASE ^ n + wordsval (seg b0 (e0 - n) n)) as Es.
  { replace e0 with (e0 - n + n)%nat at 1 by lia. rewrite seg_app, horner_app by done. rewrite seg_length by lia. done. }
  assert (wordsval (seg b0 0 e0) + x * wordsval (seg b2 (e2 - n) n)
          = (wordsval (seg b0 0 (e0 - n)) + c) * DIG_BASE ^ n + wordsval W) as -> by lia.
  pose proof (horner_bound DIG_BASE base_ge2 W HW) as HbW. rewrite HlW in HbW. clear Hv Es.
  unfold carried in *. rewrite (bpow_split n e0) by lia. pose proof (bpow_pos n) as Hp.
  destruct (Z.ltb_spec (wordsval (seg b0 0 (e0 - n)) + c) (DIG_BASE ^ (e0 - n)%nat)).
  - rewrite (proj2 (Z.ltb_lt _ _)) by nia. destruct Hk as (V & -> & HlV & HV & Hv). exists (V ++ W).
    rewrite splice_splice by lia.
    split_and!; [done|rewrite length_app; lia|by apply Forall_app|]. rewrite horner_app, HlW, Hv by done. done.
  - rewrite (proj2 (Z.ltb_ge _ _)) by nia. done.
Qed.

Lemma splice_over b V l W : length W = length V -> splice (splice b 0 (V ++ l)) 0 W = splice b 0 (W ++ l).
Proof.
  intros H. unfold splice. rewrite !take_0, !app_nil_l, !Nat.add_0_l, !length_app, <- !app_assoc, H.
  by rewrite drop_app_length.
Qed.

(** The next row goes into all words but the last one. *)
Lemma carried_next b0 e V r k res : (S e <= length b0)%nat -> length V = e -> Forall is_word V -> is_word r ->
  carried (splice b0 0 (V ++ [r])) e (wordsval V + k) res -> carried b0 (S e) (wordsval (V ++ [r]) + k * DIG_BASE) res.
Proof.
  intros He HV WV Wr. unfold carried. rewrite horner_snoc, bpow_S. unfold is_digit in Wr.
  destruct (Z.ltb_spec (wordsval V + k) (DIG_BASE ^ e)).
  - rewrite (proj2 (Z.ltb_lt _ _)) by nia. intros (W & -> & HlW & HW & Hv). exists (W ++ [r]).
    rewrite splice_over by lia.
    split_and!; [done|rewrite length_app; simpl; lia|by apply Forall_snoc_1|rewrite horner_snoc; lia].
  - by rewrite (proj2 (Z.ltb_ge _ _)) by nia.
Qed.

(** The loops store the product of the words, added to the first words of the
    result. *)
Lemma mul_outer_ok n2 n1 : forall b1 (e1 : nat) b2 (e2 : nat) b0 (e0 : nat),
  (n1 <= e1 <= length b1)%nat -> (0 < n2 <= e2)%nat -> (e2 <= length b2)%nat -> (n1 + n2 <= e0 + 1)%nat -> (e0 <= length b0)%nat ->
  Forall is_word (seg b1 (e1 - n1) n1) -> Forall is_word (seg b2 (e2 - n2) n2) -> Forall is_word (seg b0 0 e0) ->
  carried b0 e0 (wordsval (seg b0 0 e0) + wordsval (seg b1 (e1 - n1) n1) * wordsval (seg b2 (e2 - n2) n2))
    (mul_outer n1 b1 (e1 - 1) n2 b2 (e2 - 1) b0 (e0 - 1)).
Proof.
  induction n1 as [|n1 IH]; intros b1 e1 b2 e2 b0 e0 H1 H2 H2' Hs H0 W1 W2 W0; cbn [mul_outer].
  - rewrite seg_nil. by apply carried_none.
  - destruct (get_down b1 e1) as (x & -> & Hx); [lia|]. rewrite (seg_last b1 e1 n1 x) in * by (done || lia).
    apply Forall_app in W1 as [W1 Wx]. apply Forall_inv in Wx.
    pose proof (mul_row_ok x n2 b2 e2 b0 e0 Wx ltac:(lia) ltac:(lia) W2 W0) as Hrow.
    destruct n2 as [|n2]; [lia|]. obind.
    destruct (mul_inner (S n2) x b2 (e2 - 1) b0 (e0 - 1) 0) as [[[b0' i0] c]|] eqn:Ei;
      [|unfold carried in Hrow; simpl in Hrow; by destruct (_ <? _); naive_solver].
    cbn in Hrow |- *. pose proof (horner_bound DIG_BASE base_ge2 _ W1) as HX. pose proof (horner_bound DIG_BASE base_ge2 _ W2) as HY.
    rewrite horner_snoc. set (X := wordsval (seg b1 _ _)) in *. set (Y := wordsval (seg b2 _ _)) in *.
    set (P := wordsval (seg b0 0 e0)) in *. unfold carried in Hrow. destruct (Z.ltb_spec (P + x * Y) (DIG_BASE ^ e0)).
    + destruct Hrow as (W & -> & HlW & HW & Hv). obind. destruct e0 as [|e]; [lia|].
      destruct (exists_last (l := W)) as (V & r & ->); [by intros ->|]. rewrite length_app in HlW. cbn in HlW.
      apply Forall_app in HW as [WV Wr]. apply Forall_inv in Wr.
      replace (P + (X * DIG_BASE + x) * Y) with (wordsval (V ++ [r]) + X * Y * DIG_BASE) by (rewrite Hv; ring).
      apply carried_next; try (done || lia).
      rewrite (Z_down e1) by lia. replace (Z.of_nat (S e) - 1) with (Z.of_nat e) by lia.
      assert (seg (splice b0 0 (V ++ [r])) 0 e = V) as EV.
      { rewrite seg_0. unfold splice. rewrite take_0. cbn [app]. rewrite <- app_assoc. replace e with (length V) by lia. apply take_app_length. }
      pose proof (IH b1 (e1 - 1)%nat b2 e2 (splice b0 0 (V ++ [r])) e) as Hi. rewrite EV in Hi. fold X Y in Hi.
      apply Hi; try (done || lia). rewrite splice_length; rewrite ?length_app; simpl; lia.
    + destruct Hrow as (b & ->). obind. unfold carried. rewrite (proj2 (Z.ltb_ge _ _)); [eauto|].
      assert (0 <= X * DIG_BASE * Y) by (apply Z.mul_nonneg_nonneg; [|lia]; unfold DIG_BASE; lia). lia.
Qed.

(** ** The end of decimal_mul *)

Lemma mul_skip_ok n : forall b0 (i k : nat) d, (k <= n)%nat -> (i + k <= length b0)%nat -> (i < length b0)%nat ->
  exists j : nat, mul_skip n b0 i (k * DIG_PER_DEC1) d = Some (Z.of_nat (i + j), (k - j)%nat * DIG_PER_DEC1, d - j) /\
    (j < k \/ j = 0)%nat /\ Forall (fun w => w = 0) (seg b0 i j).
Proof.
  unfold DIG_PER_DEC1. induction n as [|n IH]; intros b0 i k d Hn Hi Hlt; cbn [mul_skip];
    (destruct (lookup_lt_is_Some_2 b0 i Hlt) as [w Hw]; rewrite get_nat, Hw; obind; rewrite Z.gtb_ltb).
  - replace k with 0%nat by lia. rewrite andb_false_r. exists 0%nat. split_and!; [f_equal; f_equal; [f_equal; lia|lia]|lia|done].
  - destruct (Z.eqb_spec w 0) as [->|Hne]; cbn [andb].
    + unfold DIG_PER_DEC1. destruct (Z.ltb_spec 9 (k * 9)).
      * destruct (IH b0 (S i) (k - 1)%nat (d - 1)) as (j & Hj & Hle & HF); [lia..|].
        replace (Z.of_nat i + 1) with (Z.of_nat (S i)) by lia.
        replace (k * 9 - 9) with ((k - 1)%nat * 9) by lia. rewrite Hj. exists (S j).
        split_and!; [f_equal; f_equal; [f_equal; lia|lia]|lia|]. rewrite (seg_cons b0 i j 0 Hw). by constructor.
      * exists 0%nat. split_and!; [f_equal; f_equal; [f_equal; lia|lia]|lia|done].
    + exists 0%nat. split_and!; [f_equal; f_equal; [f_equal; lia|lia]|lia|done].
Qed.

Lemma seg_behind b i l j m : (i + length l <= j)%nat -> (i + length l <= length b)%nat ->
  seg (splice b i l) j m = seg b j m.
Proof.
  intros Hj Hl. unfold seg. replace j with (i + length l + (j - (i + length l)))%nat by lia.
  by rewrite <- !(drop_drop _ (j - (i + length l)) (i + length l)), drop_splice by lia.
Qed.

Lemma move_up_ok n : forall b (c i : nat), (c < i)%nat -> (i + n <= length b)%nat ->
  move_up n b c i = Some (splice b c (seg b i n)).
Proof.
  induction n as [|n IH]; intros b c i Hc Hi; cbn [move_up].
  - by rewrite seg_nil, splice_nil.
  - destruct (lookup_lt_is_Some_2 b i) as [w Hw]; [lia|]. rewrite get_nat, Hw. obind. rewrite put_nat by lia. obind.
    rewrite <- splice_insert by lia. replace (Z.of_nat c + 1) with (Z.of_nat (S c)) by lia.
    replace (Z.of_nat i + 1) with (Z.of_nat (S i)) by lia.
    rewrite IH by (rewrite ?splice_length; simpl; lia). rewrite seg_behind by (simpl; lia).
    rewrite splice_behind by (rewrite ?seg_length; simpl; lia). by rewrite (seg_cons b i n w Hw).
Qed.

Lemma mul_skip_short n b0 intg d : (0 < length b0)%nat -> intg <= 9 -> mul_skip n b0 0 intg d = Some (0, intg, d).
Proof.
  intros Hb Hi. destruct (lookup_lt_is_Some_2 b0 0 Hb) as [w Hw].
  destruct n; cbn [mul_skip]; (change (get b0 0) with (get b0 0%nat); rewrite get_nat, Hw; obind;
    rewrite Z.gtb_ltb, (proj2 (Z.ltb_ge _ _)) by (unfold DIG_PER_DEC1; lia); by rewrite andb_false_r).
Qed.

(** The leading words that are zero are dropped; [F] of the [F0] fraction words
    stay. *)
Lemma mul_strip_ok (I F0 F : nat) (f l : Z) s b V :
  ROUND_UP f = F -> 0 <= f -> (F <= F0)%nat -> (0 < I + F)%nat -> length V = (I + F0)%nat -> (I + F0 <= length b)%nat ->
  Forall is_word V -> l = length b ->
  exists to', ('(i, intg', d) ← mul_skip (length (splice b 0 V)) (splice b 0 V) 0 (I * DIG_PER_DEC1) (I + F);
       if 0 <? i then b0 ← move_up (Z.to_nat d) (splice b 0 V) 0 i; Some (mk_dec intg' f l s b0)
       else Some (mk_dec intg' f l s (splice b 0 V))) = Some to' /\
    dec_ok to' /\ len to' = l /\ sign to' = s /\ fw to' = F /\ frac to' = f /\ mag to' = wordsval V / DIG_BASE ^ (F0 - F)%nat.
Proof.
  intros Hf Hf0 HF HI HV Hb WV Hl. assert (length (splice b 0 V) = length b) as Hlb by (apply splice_length; lia).
  set (B := splice b 0 V) in *.
  destruct (mul_skip_ok (length B) B 0 I (Z.of_nat I + F)) as (j & Hsk & Hj & HZ); [lia..|].
  change (Z.of_nat 0) with 0 in Hsk. rewrite Hsk. obind. rewrite Nat.add_0_l.
  assert ((if 0 <? Z.of_nat j then b0 ← move_up (Z.to_nat (Z.of_nat I + F - j)) B 0 j; Some (mk_dec ((I - j)%nat * DIG_PER_DEC1) f l s b0)
           else Some (mk_dec ((I - j)%nat * DIG_PER_DEC1) f l s B))
          = Some (mk_dec ((I - j)%nat * DIG_PER_DEC1) f l s (splice B 0 (seg B j (I - j + F))))) as ->.
  { replace (Z.to_nat (Z.of_nat I + F - j)) with (I - j + F)%nat by lia. destruct (Z.ltb_spec 0 j).
    - change (move_up _ B 0 j) with (move_up (I - j + F) B 0%nat j). by rewrite move_up_ok by lia.
    - replace j with 0%nat by lia. by rewrite take_splice_id by lia. }
  assert (seg B 0 (I + F0) = V) as EV by (unfold B; rewrite <- HV; apply seg_splice; lia).
  assert (Forall is_word (seg B j (I - j + F))) as HW by (eapply seg_Forall; [rewrite EV; exact WV|lia|lia]).
  destruct (mk_dec_ok (I - j) F f l s B (seg B j (I - j + F))) as (Hok & Hi & Hn & Hm); try (done || lia).
  { apply seg_length; lia. }
  eexists. split; [reflexivity|]. split_and!; try done. rewrite Hm, <- EV.
  replace (I + F0)%nat with (j + (I - j + F) + (F0 - F))%nat by lia. rewrite (seg_app B 0 (j + (I - j + F))), (seg_app B 0 j), !horner_app by done.
  rewrite (Forall_zero_seg _ _ _ HZ), Z.mul_0_l, Z.add_0_l. rewrite !seg_length by lia. rewrite !Nat.add_0_l.
  apply Z.div_unique_pos with (wordsval (seg B (j + (I - j + F)) (F0 - F))); [|ring].
  assert (Forall is_word (seg B (j + (I - j + F)) (F0 - F))) as HW' by (eapply seg_Forall; [rewrite EV; exact WV|lia|lia]).
  pose proof (horner_bound DIG_BASE base_ge2 _ HW') as Hbd. by rewrite seg_length in Hbd by lia.
Qed.

Lemma mul_finish_ok (I F0 F : nat) (f l : Z) s b V :
  ROUND_UP f = F -> 0 <= f -> (F <= F0)%nat -> (0 < I + F)%nat -> length V = (I + F0)%nat -> (I + F0 <= length b)%nat ->
  Forall is_word V -> l = length b ->
  exists to', mul_finish (mk_dec (I * DIG_PER_DEC1) f l s (splice b 0 V)) I F0 = Some to' /\
    dec_ok to' /\ len to' = l /\ sign to' = s && negb (wordsval V =? 0) /\ (fw to' <= F0)%nat /\
    mag to' = wordsval V / DIG_BASE ^ (F0 - fw to')%nat /\ (wordsval V <> 0 \/ s = false -> frac to' = f).
Proof.
  intros Hf Hf0 HF HI HV Hb WV Hl. unfold mul_finish. cbn [sign buf frac intg len].
  replace (Z.to_nat (Z.of_nat I + F0)) with (length V) by lia.
  change (any_word (length V) (splice b 0 V) 0) with (any_word (length V) (splice b 0 V) 0%nat).
  rewrite any_word_ok, seg_splice by (rewrite ?splice_length; lia).
  assert (bool_decide (Exists (fun w => w <> 0) V) = negb (wordsval V =? 0)) as ->.
  { destruct (Z.eqb_spec (wordsval V) 0); [apply bool_decide_false|apply bool_decide_true]; rewrite (words_nonzero V WV); lia. }
  obind. destruct (mul_strip_ok I F0 F f l s b V) as (to' & Hr & Hok & Hl' & Hs & Hfw & Hfr & Hm); try done.
  destruct s; cbn [andb] in *; [destruct (Z.eqb_spec (wordsval V) 0) as [E0|E0]; cbn [negb] in *|].
  - clear Hr Hok Hl' Hs Hfw Hfr Hm to'.
    destruct (make_zero_ok (mk_dec (I * DIG_PER_DEC1) f l true (splice b 0 V))) as (z & -> & Hok & Hlz & Hs & Hfw & Hi & Hfr & Hm).
    { split; cbn; rewrite ?splice_length; lia. }
    obind. rewrite mul_skip_short; [|pose proof (ok_room z Hok); pose proof (words_nonempty z Hok); lia|lia].
    obind. cbn. exists z. split; [destruct z; simpl in *; by subst|].
    split_and!; try done; [lia|by rewrite E0, Hm, Z.div_0_l by (pose proof (bpow_pos (F0 - fw z)); lia)|naive_solver].
  - obind. cbn [buf intg frac]. rewrite Hf. exists to'. rewrite Hfw. split_and!; try done.
  - obind. cbn [buf intg frac]. rewrite Hf. exists to'. rewrite Hfw. split_and!; try done.
Qed.

(** ** decimal_mul *)

(** The words before the point of a product. *)
Definition mul_intg (a b : decimal_t) : nat := Z.to_nat (ROUND_UP (intg a + intg b)).

Lemma mul_intg_bounds a b : dec_ok a -> dec_ok b ->
  ROUND_UP (intg a + intg b) = mul_intg a b /\ (iw a + iw b <= mul_intg a b + 1)%nat /\ (mul_intg a b <= iw a + iw b)%nat.
Proof.
  intros Ha Hb. pose proof (ok_intg a Ha). pose proof (ok_intg b Hb). unfold mul_intg, iw.
  pose proof (round_up_bounds (intg a) ltac:(lia)). pose proof (round_up_bounds (intg b) ltac:(lia)).
  pose proof (round_up_bounds (intg a + intg b) ltac:(lia)). lia.
Qed.

Lemma seg_replicate n (x : Z) i k : (i + k <= n)%nat -> seg (replicate n x) i k = replicate k x.
Proof. intros H. unfold seg. rewrite drop_replicate, take_replicate. f_equal. lia. Qed.

(** The fraction digits that are kept. *)
Lemma mul_frac_words a b : dec_ok a -> dec_ok b ->
  exists F : nat, ROUND_UP (Z.min (frac a + frac b) NOT_FIXED_DEC) = F /\ (F <= fw a + fw b)%nat /\
    (0 < mul_intg a b + F)%nat /\ 0 <= Z.min (frac a + frac b) NOT_FIXED_DEC.
Proof.
  intros Ha Hb. pose proof (ok_frac a Ha). pose proof (ok_frac b Hb). unfold NOT_FIXED_DEC.
  pose proof (round_up_bounds (Z.min (frac a + frac b) 31) ltac:(lia)). exists (Z.to_nat (ROUND_UP (Z.min (frac a + frac b) 31))).
  pose proof (round_up_bounds (frac a) ltac:(lia)). pose proof (round_up_bounds (frac b) ltac:(lia)).
  pose proof (ok_intg a Ha). pose proof (ok_intg b Hb). pose proof (ok_some a Ha).
  pose proof (round_up_bounds (intg a + intg b) ltac:(lia)). unfold mul_intg, fw. lia.
Qed.

Lemma dec_seg d : dec_ok d -> Forall is_word (seg (buf d) 0 (iw d + fw d)) /\ wordsval (seg (buf d) 0 (iw d + fw d)) = mag d.
Proof. intros Hd. rewrite seg_0. split; [apply (ok_words d Hd)|done]. Qed.

Lemma decimal_mul_ok a b to : dec_ok a -> dec_ok b -> dest_ok to -> mul_intg a b + fw a + fw b <= len to ->
  exists e to', decimal_mul a b to = Some (e, to') /\
    if mag a * mag b <? DIG_BASE ^ (mul_intg a b + (fw a + fw b))%nat then
      e = E_DEC_OK /\ dec_ok to' /\ len to' = len to /\
      sign to' = xorb (sign a) (sign b) && negb (mag a * mag b =? 0) /\ (fw to' <= fw a + fw b)%nat /\
      mag to' = mag a * mag b / DIG_BASE ^ (fw a + fw b - fw to')%nat /\
      (mag a * mag b <> 0 \/ xorb (sign a) (sign b) = false -> frac to' = Z.min (frac a + frac b) NOT_FIXED_DEC)
    else e = E_DEC_OVERFLOW.
Proof.
  intros Ha Hb [Hl0 Hlen] Hr. unfold decimal_mul. destruct (mul_intg_bounds a b Ha Hb) as (HI & HI1 & HI2).
  destruct (mul_frac_words a b Ha Hb) as (F & HF & HFle & HFp & HF0).
  rewrite HI, (Z_iw a Ha), (Z_iw b Hb), (Z_fw a Ha), (Z_fw b Hb). unfold FIX_INTG_FRAC_ERROR.
  rewrite Z.gtb_ltb, (proj2 (Z.ltb_ge _ _)) by lia. cbn [Z.eqb negb E_DEC_OK]. cbv zeta. cbn [buf].
  set (I := mul_intg a b) in *. set (N := (I + (fw a + fw b))%nat).
  replace (Z.to_nat (Z.of_nat I + (Z.of_nat (fw a) + fw b))) with N by lia.
  change (fill N 0 (buf to) 0) with (fill N 0 (buf to) 0%nat). rewrite fill_ok by lia. obind.
  set (b0 := splice (buf to) 0 (replicate N 0)). assert (length b0 = length (buf to)) as Hlb.
  { apply splice_length. rewrite length_replicate. lia. }
  assert (seg b0 0 N = replicate N 0) as E0.
  { unfold b0. rewrite <- (length_replicate N 0) at 2. apply seg_splice. rewrite length_replicate. lia. }
  destruct (dec_seg a Ha) as [Wa Va], (dec_seg b Hb) as [Wb Vb]. pose proof (ok_room a Ha). pose proof (ok_room b Hb).
  pose proof (words_nonempty a Ha). pose proof (words_nonempty b Hb).
  pose proof (mul_outer_ok (iw b + fw b) (iw a + fw a) (buf a) (iw a + fw a) (buf b) (iw b + fw b) b0 N
    ltac:(lia) ltac:(lia) ltac:(lia) ltac:(lia) ltac:(lia)) as Hm.
  rewrite !Nat.sub_diag, E0, Va, Vb, horner_zeros, Z.add_0_l in Hm by done.
  specialize (Hm Wa Wb (Forall_zeros N)). unfold carried in Hm.
  replace (Z.to_nat (Z.of_nat (iw a) + fw a)) with (iw a + fw a)%nat by lia.
  replace (Z.to_nat (Z.of_nat (iw b) + fw b)) with (iw b + fw b)%nat by lia.
  replace (Z.of_nat (iw a) + fw a - 1) with (Z.of_nat (iw a + fw a) - 1) by lia.
  replace (Z.of_nat (iw b) + fw b - 1) with (Z.of_nat (iw b + fw b) - 1) by lia.
  replace (Z.of_nat I + (Z.of_nat (fw a) + fw b) - 1) with (Z.of_nat N - 1) by lia.
  destruct (Z.ltb_spec (mag a * mag b) (DIG_BASE ^ N)).
  - destruct Hm as (W & -> & HlW & HW & Hv). obind. cbn [set_buf buf].
    destruct (mul_finish_ok I (fw a + fw b) F (Z.min (frac a + frac b) NOT_FIXED_DEC) (len to) (xorb (sign a) (sign b)) b0 W)
      as (to' & Hfin & Hok & Hl' & Hs & Hfw & Hmag & Hfr); try (done || lia).
    rewrite <- Nat2Z.inj_add. unfold set_buf. cbn [intg frac len sign]. rewrite Hfin. obind. rewrite Hv in *.
    eexists _, _. split; [reflexivity|]. split_and!; done.
  - destruct Hm as (b' & ->). obind. eexists _, _. by split.
Qed.

(** ** The value of a product *)

Lemma base_pow10 (n : nat) : DIG_BASE ^ n = 10 ^ (9 * n).
Proof. rewrite Z.pow_mul_r by lia. done. Qed.

Lemma tight_fits a b : dec_ok a -> dec_ok b -> tight a -> tight b ->
  mag a * mag b < DIG_BASE ^ (mul_intg a b + (fw a + fw b))%nat.
Proof.
  intros Ha Hb [Ta _] [Tb _]. pose proof (mag_bound a Ha). pose proof (mag_bound b Hb).
  pose proof (ok_intg a Ha). pose proof (ok_intg b Hb). destruct (mul_intg_bounds a b Ha Hb) as (HI & _).
  pose proof (round_up_bounds (intg a + intg b) ltac:(lia)) as Hr. rewrite HI in Hr. rewrite !bpow_plus.
  assert (10 ^ intg a * 10 ^ intg b <= DIG_BASE ^ mul_intg a b) as Hp.
  { rewrite base_pow10, <- Z.pow_add_r by lia. apply Z.pow_le_mono_r; lia. }
  pose proof (bpow_pos (fw a)). pose proof (bpow_pos (fw b)).
  assert (mag a * mag b < (10 ^ intg a * DIG_BASE ^ fw a) * (10 ^ intg b * DIG_BASE ^ fw b)) by (apply Z.mul_lt_mono_nonneg; lia).
  assert (10 ^ intg a * 10 ^ intg b * (DIG_BASE ^ fw a * DIG_BASE ^ fw b) <= DIG_BASE ^ mul_intg a b * (DIG_BASE ^ fw a * DIG_BASE ^ fw b))
    by (apply Z.mul_le_mono_nonneg_r; [apply Z.mul_nonneg_nonneg|]; lia). lia.
Qed.

(** The digits behind those of the two fractions are zero. *)
Lemma tight_divides a b (F : nat) : dec_ok a -> dec_ok b -> tight a -> tight b ->
  (F <= fw a + fw b)%nat -> frac a + frac b <= 9 * F -> (DIG_BASE ^ (fw a + fw b - F)%nat | mag a * mag b).
Proof.
  intros Ha Hb [_ Ta] [_ Tb] HF Hf. pose proof (ok_frac a Ha). pose proof (ok_frac b Hb).
  pose proof (Z_fw a Ha). pose proof (Z_fw b Hb). pose proof (round_up_bounds (frac a) ltac:(lia)). pose proof (round_up_bounds (frac b) ltac:(lia)).
  apply (Z.divide_trans _ (10 ^ (9 * fw a - frac a) * 10 ^ (9 * fw b - frac b))); [|destruct Ta as [u ->], Tb as [v ->]; exists (u * v); ring].
  rewrite base_pow10, <- Z.pow_add_r by lia.
  exists (10 ^ (9 * fw a - frac a + (9 * fw b - frac b) - 9 * (fw a + fw b - F)%nat)).
  rewrite <- Z.pow_add_r by lia. f_equal. lia.
Qed.

Lemma signed_xorb s t x y : signed s x * signed t y = signed (xorb s t) (x * y).
Proof. destruct s, t; simpl; lia. Qed.

(** The product is stored without a loss. *)
Lemma mul_exact a b (F : nat) : dec_ok a -> dec_ok b -> tight a -> tight b -> (F <= fw a + fw b)%nat ->
  mag a * mag b = 0 \/ frac a + frac b <= 9 * F ->
  mag a * mag b / DIG_BASE ^ (fw a + fw b - F)%nat * DIG_BASE ^ (fw a + fw b - F)%nat = mag a * mag b.
Proof.
  intros Ha Hb Ta Tb HF Hf. pose proof (bpow_pos (fw a + fw b - F)). destruct (decide (mag a * mag b = 0)) as [->|E].
  - rewrite Z.div_0_l; lia.
  - rewrite Z.mul_comm. symmetry. apply Znumtheory.Zdivide_Zdiv_eq; [done|]. apply tight_divides; try done. lia.
Qed.

Lemma dval_product a b d s : (fw d <= fw a + fw b)%nat ->
  mag d * DIG_BASE ^ (fw a + fw b - fw d)%nat = mag a * mag b -> sign d = s && negb (mag a * mag b =? 0) ->
  s = xorb (sign a) (sign b) -> (dval d == dval a * dval b)%Q.
Proof.
  intros HF He Hs Hx. unfold dval, Qeq, Qmult. cbn [Qnum Qden]. fold (bpos (fw a)) (bpos (fw b)) (bpos (fw d)).
  rewrite Pos2Z.inj_mul, !bpos_Z. unfold dnum. rewrite signed_xorb, <- bpow_plus, (bpow_split (fw d) (fw a + fw b)), <- Hx by done.
  assert (signed (sign d) (mag d) * DIG_BASE ^ (fw a + fw b - fw d)%nat = signed s (mag a * mag b)) as Hsg.
  { rewrite signed_mul, He, Hs. destruct (Z.eqb_spec (mag a * mag b) 0) as [->|]; [by destruct s|by rewrite andb_true_r]. }
  rewrite <- Hsg. ring.
Qed.

(** C31. decimal_mul stores the exact product of two numbers that have no more
    digits than their intg and frac say, if the buffer has room for it and the
    fractions have no more than 31 digits together; the result is never a
    negative zero. *)
Theorem decimal_mul_correct a b to :
  dec_ok a -> dec_ok b -> tight a -> tight b -> dest_ok to ->
  mul_intg a b + fw a + fw b <= len to -> frac a + frac b <= NOT_FIXED_DEC ->
  exists to', decimal_mul a b to = Some (E_DEC_OK, to') /\ dec_ok to' /\ len to' = len to /\
    (dval to' == dval a * dval b)%Q /\ (mag to' = 0 -> sign to' = false).
Proof.
  intros Ha Hb Ta Tb Hto Hr Hf. destruct (decimal_mul_ok a b to Ha Hb Hto Hr) as (e & to' & -> & Hp).
  rewrite (proj2 (Z.ltb_lt _ _)) in Hp by (by apply tight_fits).
  destruct Hp as (-> & Hok & Hl & Hs & Hfw & Hm & Hfr). exists to'.
  assert (mag to' * DIG_BASE ^ (fw a + fw b - fw to')%nat = mag a * mag b) as He.
  { rewrite Hm. apply mul_exact; try done. destruct (decide (mag a * mag b = 0)) as [E|E]; [by left|right].
    specialize (Hfr (or_introl E)). pose proof (round_up_bounds (frac to') (ok_frac to' Hok)). rewrite (Z_fw to' Hok) in *. lia. }
  split_and!; [done|done|done|by eapply dval_product|].
  intros H0. rewrite Hs, <- He, H0. apply andb_false_r.
Qed.

(** When the product does not fit, decimal_mul drops words of the factors
    before it multiplies them, also words before the point: the result that is
    returned with E_DEC_TRUNCATED can be wrong by more than ten to the 24, with
    all its 18 fraction digits zero. *)
Theorem decimal_mul_drops_integer_words :
  let a := mk_dec 55 0 9 false [1; 0; 0; 0; 0; 0; 123456789; 0; 0] in
  let b := mk_dec 0 30 9 false [500000000; 0; 0; 1000000; 0; 0; 0; 0; 0] in
  exists to', decimal_mul a b (mk_dec 0 0 9 false (replicate 9 0)) = Some (E_DEC_TRUNCATED, to') /\
    frac to' = 18 /\ (10 ^ 24 < dval a * dval b - dval to')%Q.
Proof. eexists. split; [vm_compute; reflexivity|]. by split. Qed.

Lemma d12_5_tight : tight d12_5.
Proof. split; [by vm_compute|]. exists 125. by vm_compute. Qed.

Lemma dm3_25_tight : tight dm3_25.
Proof. split; [by vm_compute|]. exists 325. by vm_compute. Qed.

Definition dbuf4 : decimal_t := mk_dec 1 0 4 false [0; 0; 0; 0].

Lemma dest_ok_dbuf4 : dest_ok dbuf4.
Proof. by split. Qed.

Lemma decimal_mul_correct_witness : exists to', decimal_mul d12_5 dm3_25 dbuf4 = Some (E_DEC_OK, to') /\ (dval to' == - 325 # 8)%Q.
Proof.
  destruct (decimal_mul_correct d12_5 dm3_25 dbuf4 d12_5_ok dm3_25_ok d12_5_tight dm3_25_tight dest_ok_dbuf4
    ltac:(by vm_compute) ltac:(by vm_compute)) as (to' & He & _ & _ & Hv & _).
  exists to'. split; [done|]. rewrite Hv. by vm_compute.
Defined.
