(* ===== verification/DecBytes.v ===== *)
(** * Fixed point numbers: big-endian bytes

    The byte order macros of include/myisampack.h as big-endian encodings of
    signed integers: what is stored can be read again, a shorter field is the
    longer one without its first bytes, and the order of the bytes is the
    order of the numbers. *)

From stdpp Require Import prelude list list_numbers numbers.
From Stdlib Require Import ZArith Lia ZifyNat Bool.
From S2P Require Import Prelude Ctype Decimal DecBin.
Open Scope Z_scope.

#[local] Coercion Z.of_nat : nat >-> Z.

(** The last [k] bytes of [x], in two's complement. *)
Fixpoint be (k : nat) (x : Z) : list Z :=
  match k with
  | O => []
  | S k => (x / 2 ^ (8 * k)) mod 2 ^ 8 :: be k x
  end.

Lemma be_length k x : length (be k x) = k.
Proof. induction k; simpl; lia. Qed.

Lemma be_byte k x : Forall (fun c => 0 <= c < 2 ^ 8) (be k x).
Proof. induction k; constructor; [apply Z.mod_pos_bound; lia|done]. Qed.

Lemma pow2_plus (m n : nat) : 2 ^ (8 * (m + n)%nat) = 2 ^ (8 * m) * 2 ^ (8 * n).
Proof. rewrite <- Z.pow_add_r by lia. f_equal. lia. Qed.

Lemma pow2_8_pos (n : nat) : 0 < 2 ^ (8 * n).
Proof. apply Z.pow_pos_nonneg; lia. Qed.

(** A field is its first bytes and the field of the last ones. *)
Lemma be_app j k x : be (j + k) x = be j (x / 2 ^ (8 * k)) ++ be k x.
Proof.
  induction j as [|j IH]; [done|]. cbn [be Nat.add app]. f_equal; [|done].
  rewrite Z.div_div, <- Z.pow_add_r by (try lia; pose proof (pow2_8_pos k); lia). do 3 f_equal. lia.
Qed.

Lemma be_zero j : be j 0 = replicate j 0.
Proof. induction j as [|j IH]; [done|]. cbn [be replicate]. by rewrite IH, Z.div_0_l, Z.mod_0_l by (pose proof (pow2_8_pos j); lia). Qed.

Lemma be_minus_one j : be j (-1) = replicate j 255.
Proof.
  induction j as [|j IH]; [done|]. cbn [be replicate]. rewrite IH. f_equal.
  assert (-1 / 2 ^ (8 * j) = -1) as ->; [|done]. pose proof (pow2_8_pos j). symmetry.
  apply Z.div_unique_pos with (2 ^ (8 * j) - 1); lia.
Qed.

(** ** Masks *)

(** The mask of a sign, and the bytes of zero under it. *)
Definition mask_of (s : bool) : Z := if s then -1 else 0.

Lemma lxor_mask s x : x .^ mask_of s = if s then - x - 1 else x.
Proof. destruct s; simpl; [|by rewrite Z.lxor_0_r]. rewrite Z.lxor_m1_r. unfold Z.lnot. lia. Qed.

Lemma mask_involutive s x : (x .^ mask_of s) .^ mask_of s = x.
Proof. rewrite !lxor_mask. destruct s; lia. Qed.

Lemma be_mask0 s j : be j (0 .^ mask_of s) = replicate j (u8 (mask_of s)).
Proof. destruct s; [apply be_minus_one|apply be_zero]. Qed.

(** A number that fits fewer bytes starts with bytes of the mask. *)
Lemma be_pad s (j k : nat) v : 0 <= v < 2 ^ (8 * k) ->
  be (j + k) (v .^ mask_of s) = replicate j (u8 (mask_of s)) ++ be k (v .^ mask_of s).
Proof.
  intros Hv. rewrite be_app, <- be_mask0. do 2 f_equal. rewrite !lxor_mask. pose proof (pow2_8_pos k). destruct s.
  - symmetry. apply Z.div_unique_pos with (2 ^ (8 * k) - v - 1); lia.
  - by apply Z.div_small.
Qed.

(** ** The stores *)

Lemma byte_wrap a n m : 0 <= m -> m + 8 <= n -> ((a mod 2 ^ n) / 2 ^ m) mod 2 ^ 8 = (a / 2 ^ m) mod 2 ^ 8.
Proof.
  intros Hm Hn. rewrite (Z.mod_eq a (2 ^ n)) by (apply Z.pow_nonzero; lia).
  replace (2 ^ n) with (2 ^ m * (2 ^ (n - m - 8) * 2 ^ 8)) at 1 by (rewrite <- !Z.pow_add_r by lia; f_equal; lia).
  replace (a - 2 ^ m * (2 ^ (n - m - 8) * 2 ^ 8) * (a / 2 ^ n))
    with (a + - (2 ^ (n - m - 8) * 2 ^ 8 * (a / 2 ^ n)) * 2 ^ m) by ring.
  rewrite Z.div_add by (apply Z.pow_nonzero; lia).
  replace (- (2 ^ (n - m - 8) * 2 ^ 8 * (a / 2 ^ n))) with (- (2 ^ (n - m - 8) * (a / 2 ^ n)) * 2 ^ 8) by ring.
  apply Z_mod_plus_full.
Qed.

Lemma store_int_be (i : nat) x : (1 <= i <= 4)%nat -> store_int i x = Some (be i x).
Proof.
  intros Hi. assert (forall n m, 0 <= m -> m + 8 <= n -> u8 ((x mod 2 ^ n) .>> m) = (x / 2 ^ m) mod 2 ^ 8) as Hb.
  { intros n m Hm Hn. rewrite Z.shiftr_div_pow2 by done. by apply byte_wrap. }
  assert (forall n, 8 <= n -> u8 (x mod 2 ^ n) = (x / 2 ^ 0) mod 2 ^ 8) as H0.
  { intros n Hn. rewrite <- (byte_wrap x n 0), Z.div_1_r by lia. done. }
  destruct i as [|[|[|[|[|]]]]]; try lia; unfold store_int; simpl Z.eqb; cbv iota; f_equal; unfold u32, u64.
  - unfold mi_int1store. cbn [be]. by rewrite Z.div_1_r.
  - unfold mi_int2store, u32. by rewrite Hb, H0 by lia.
  - unfold mi_int3store, u64. by rewrite !Hb, H0 by lia.
  - unfold mi_int4store, u64. by rewrite !Hb, H0 by lia.
Qed.

(** ** The reads *)

(** The number that is read from bytes, without a sign. *)
Lemma be_split (k : nat) x : x mod 2 ^ (8 * S k) = (x / 2 ^ (8 * k)) mod 2 ^ 8 * 2 ^ (8 * k) + x mod 2 ^ (8 * k).
Proof.
  replace (8 * S k) with (8 * k + 8) by lia. rewrite Z.pow_add_r by lia. rewrite Z.rem_mul_r; [ring| |lia].
  pose proof (pow2_8_pos k). lia.
Qed.

Lemma be_splits x :
  x mod 2 ^ 16 = (x / 2 ^ 8) mod 2 ^ 8 * 2 ^ 8 + x mod 2 ^ 8 /\
  x mod 2 ^ 24 = (x / 2 ^ 16) mod 2 ^ 8 * 2 ^ 16 + x mod 2 ^ 16 /\
  x mod 2 ^ 32 = (x / 2 ^ 24) mod 2 ^ 8 * 2 ^ 24 + x mod 2 ^ 24.
Proof. exact (conj (be_split 1 x) (conj (be_split 2 x) (be_split 3 x))). Qed.

Lemma be_bytes x :
  be 1 x = [x mod 2 ^ 8] /\ be 2 x = [(x / 2 ^ 8) mod 2 ^ 8; x mod 2 ^ 8] /\
  be 3 x = [(x / 2 ^ 16) mod 2 ^ 8; (x / 2 ^ 8) mod 2 ^ 8; x mod 2 ^ 8] /\
  be 4 x = [(x / 2 ^ 24) mod 2 ^ 8; (x / 2 ^ 16) mod 2 ^ 8; (x / 2 ^ 8) mod 2 ^ 8; x mod 2 ^ 8].
Proof. rewrite <- (Z.div_1_r x) at 2 5 9 14. split_and!; reflexivity. Qed.

Lemma sgn_wrap_mod w x y : 0 < w -> - 2 ^ (w - 1) <= x < 2 ^ (w - 1) -> y mod 2 ^ w = x mod 2 ^ w -> sgn_wrap w y = x.
Proof. intros Hw Hx Hy. unfold sgn_wrap. rewrite Hy. change (sgn_wrap w x = x). by apply sgn_wrap_small. Qed.

(** A number whose low bits are those of [x]. *)
Lemma sgn_wrap_low w x y e : 0 < w -> - 2 ^ (w - 1) <= x < 2 ^ (w - 1) -> y = x mod 2 ^ w + e * 2 ^ w -> sgn_wrap w y = x.
Proof.
  intros Hw Hx ->. apply sgn_wrap_mod; [done|done|]. rewrite Z_mod_plus_full. apply Z.mod_mod. apply Z.pow_nonzero; lia.
Qed.

(** The highest bit of a byte. *)
Lemma high_bit c : 0 <= c < 256 -> test (c .& 128) = (128 <=? c).
Proof. exact (all_bytes_eq (fun c => test (c .& 128)) (fun c => 128 <=? c) c eq_refl). Qed.

Lemma read_3 x : - 2 ^ 23 <= x < 2 ^ 23 ->
  mi_sint3korr [(x / 2 ^ 16) mod 2 ^ 8; (x / 2 ^ 8) mod 2 ^ 8; x mod 2 ^ 8] = Some x.
Proof.
  intros Hx. assert (forall n, 0 <= (x / n) mod 2 ^ 8 < 2 ^ 8) as Hb by (intros; by apply Z.mod_pos_bound).
  destruct (be_splits x) as (E1 & E2 & _).
  pose proof (Hb (2 ^ 8)) as B1. pose proof (Hb (2 ^ 16)) as B2. pose proof (Z.mod_pos_bound x (2 ^ 8) ltac:(done)) as B0.
  assert ((((x / 2 ^ 16) mod 2 ^ 8) .<< 16) .| (((x / 2 ^ 8) mod 2 ^ 8) .<< 8) .| (x mod 2 ^ 8) = x mod 2 ^ 24) as E.
  { rewrite <- Z.lor_assoc, (lor_shift _ (x mod 2 ^ 8)), lor_shift by lia. rewrite E2, E1. ring. }
  unfold mi_sint3korr. rewrite high_bit by done. rewrite <- (Z.lor_assoc (255 .<< 24)), <- (Z.lor_assoc (255 .<< 24)), E.
  assert (0 <= x mod 2 ^ 24 < 2 ^ 24) as B by (by apply Z.mod_pos_bound). f_equal. unfold s32.
  destruct (Z.leb_spec 128 ((x / 2 ^ 16) mod 2 ^ 8)).
  - rewrite lor_shift by lia. assert (x < 0) by (destruct (Z.lt_ge_cases x 0); [done|]; rewrite Z.mod_small in E2 by lia; lia).
    apply (sgn_wrap_mod 32); [lia|lia|]. assert (x mod 2 ^ 24 = x + 2 ^ 24) as ->.
    { symmetry. apply Z.mod_unique_pos with (-1); lia. }
    replace (255 * 2 ^ 24 + (x + 2 ^ 24)) with (x + 1 * 2 ^ 32) by lia. apply Z_mod_plus_full.
  - assert (0 <= x).
    { destruct (Z.lt_ge_cases x 0); [|done]. assert (x mod 2 ^ 24 = x + 2 ^ 24) as Em by (symmetry; apply Z.mod_unique_pos with (-1); lia). lia. }
    rewrite Z.mod_small by lia. apply sgn_wrap_small; lia.
Qed.

Lemma read_int_be (i : nat) x r : (1 <= i <= 4)%nat -> - 2 ^ (8 * i - 1) <= x < 2 ^ (8 * i - 1) ->
  read_int i (be i x ++ r) = Some x.
Proof.
  intros Hi Hx. assert (forall n, exists e, s8 ((x / n) mod 2 ^ 8) = (x / n) mod 2 ^ 8 + e * 2 ^ 8) as Hs.
  { intros n. unfold s8, sgn_wrap. rewrite Z.mod_mod by done. case_if; [exists 0|exists (-1)]; lia. }
  destruct (be_splits x) as (E1 & E2 & E3).
  destruct (be_bytes x) as (X1 & X2 & X3 & X4).
  destruct i as [|[|[|[|[|]]]]]; try lia; rewrite ?X1, ?X2, ?X3, ?X4; unfold read_int; cbn [app Z.eqb Pos.eqb Z.of_nat Pos.of_succ_nat Pos.succ].
  - unfold mi_sint1korr, s8. f_equal. apply (sgn_wrap_low 8 _ _ 0); [lia|done|lia].
  - unfold mi_sint2korr. f_equal. destruct (Hs (2 ^ 8)) as [e ->]. apply (sgn_wrap_low 16 _ _ e); [lia|done|]. rewrite E1. ring.
  - exact (read_3 x Hx).
  - unfold mi_sint4korr. f_equal. destruct (Hs (2 ^ 24)) as [e ->]. apply (sgn_wrap_low 32 _ _ e); [lia|done|]. rewrite E3, E2, E1. ring.
Qed.

(** ** The order *)

(** memcmp of arrays of the same length, as a comparison. *)
Fixpoint bytes_cmp (a b : list Z) : comparison :=
  match a, b with
  | x :: a, y :: b => match x ?= y with Eq => bytes_cmp a b | c => c end
  | _, _ => Eq
  end.

(** The second comparison decides when the first one does not. *)
Definition then_cmp (a b : comparison) : comparison := match a with Eq => b | Lt => Lt | Gt => Gt end.

Lemma bytes_cmp_app a a' b b' : length a = length a' ->
  bytes_cmp (a ++ b) (a' ++ b') = then_cmp (bytes_cmp a a') (bytes_cmp b b').
Proof.
  revert a'. induction a as [|x a IH]; intros [|y a'] Hl; try done. cbn [app bytes_cmp].
  destruct (x ?= y); [|done|done]. apply IH. simpl in Hl. lia.
Qed.

Lemma bytes_cmp_refl a : bytes_cmp a a = Eq.
Proof. induction a as [|x a IH]; [done|]. cbn. by rewrite Z.compare_refl. Qed.

Lemma be_cmp (k : nat) x y : bytes_cmp (be k x) (be k y) = (x mod 2 ^ (8 * k) ?= y mod 2 ^ (8 * k)).
Proof.
  induction k as [|k IH]; [by rewrite !Z.mod_1_r|]. cbn [be bytes_cmp]. rewrite IH, !be_split.
  pose proof (Z.mod_pos_bound x (2 ^ (8 * k)) (pow2_8_pos k)). pose proof (Z.mod_pos_bound y (2 ^ (8 * k)) (pow2_8_pos k)).
  pose proof (pow2_8_pos k). set (a := (x / _) mod _). set (b := (y / _) mod _).
  destruct (Z.compare_spec a b) as [->|Hlt|Hgt].
  - symmetry. apply Z.add_compare_mono_l.
  - symmetry. apply Z.compare_lt_iff. nia.
  - symmetry. apply Z.compare_gt_iff. nia.
Qed.
