(* ===== verification/DecStrip.v ===== *)
(** * Fixed point numbers: leading zeroes

    remove_leading_zeroes finds the first digit that is not zero: what is left
    has exactly the digits of the integer part. *)

From stdpp Require Import prelude list list_numbers numbers.
From Stdlib Require Import ZArith QArith Lia ZifyNat Bool.
From S2P Require Import Prelude Horner Decimal DecBase DecAdd DecSub DecArith DecInt DecProd.
Open Scope Z_scope.

#[local] Coercion Z.of_nat : nat >-> Z.

(** The digits of the first word of a number with [n] digits. *)
Definition group (n : Z) : Z := (n - 1) mod 9 + 1.

Lemma group_bounds n : 0 < n -> 1 <= group n <= 9 /\ 9 * ROUND_UP n = n + 9 - group n.
Proof. intros Hn. unfold group. rewrite round_up_div by lia. zdiv. Qed.

Lemma group_full (k : nat) : (0 < k)%nat -> group (9 * k) = 9 /\ ROUND_UP (9 * k) = k.
Proof. intros Hk. unfold group. rewrite round_up_div by lia. zdiv. Qed.

Lemma powers10_lookup (i : nat) : (i <= 9)%nat -> powers10 !! i = Some (10 ^ i).
Proof. intros H. do 10 (destruct i as [|i]; [done|]). lia. Qed.

(** The words that are zero are skipped. *)
Lemma skip_zero_words_ok n : forall b (k z : nat) intg, (k <= n)%nat -> (z + k <= length b)%nat ->
  0 <= intg -> ROUND_UP intg = k ->
  exists j : nat, skip_zero_words n b (group intg) intg z
      = Some (if (j =? 0)%nat then intg else 9 * (k - j)%nat, Z.of_nat (z + j)) /\
    (j <= k)%nat /\ Forall (fun w => w = 0) (seg b z j) /\ ((j < k)%nat -> exists w, b !! (z + j)%nat = Some w /\ w <> 0).
Proof.
  induction n as [|n IH]; intros b k z intg Hn Hz Hi Hk; cbn [skip_zero_words]; rewrite Z.gtb_ltb;
    pose proof (round_up_bounds intg Hi) as Hr.
  - rewrite (proj2 (Z.ltb_ge 0 intg)) by lia. exists 0%nat. rewrite Nat.add_0_r. split_and!; [done|lia|done|lia].
  - destruct (Z.ltb_spec 0 intg) as [Hp|Hp].
    + destruct (lookup_lt_is_Some_2 b z) as [w Hw]; [lia|]. rewrite get_nat, Hw. obind.
      destruct (group_bounds intg Hp) as [Hg Hgk]. destruct (Z.eqb_spec w 0) as [->|Hne].
      * replace (Z.of_nat z + 1) with (Z.of_nat (S z)) by lia. assert (intg - group intg = 9 * (k - 1)%nat) as Hi' by lia.
        destruct (decide (k = 1%nat)) as [->|Hk1].
        -- exists 1%nat. rewrite Hi'. split_and!; [|lia| |lia].
           ++ change (9 * (1 - 1)%nat) with 0. destruct n; cbn; do 2 f_equal; lia.
           ++ rewrite (seg_cons b z 0 0 Hw). by repeat constructor.
        -- destruct (group_full (k - 1) ltac:(lia)) as [Hg1 Hk'].
           destruct (IH b (k - 1)%nat (S z) (intg - group intg)) as (j & Hj & Hjk & HF & Hw');
             [lia|lia|lia|by rewrite Hi'|].
           rewrite Hi', Hg1 in Hj. rewrite Hi'. unfold DIG_PER_DEC1. rewrite Hj. exists (S j).
           replace (z + S j)%nat with (S z + j)%nat by lia. split_and!; [|lia| |intros; apply Hw'; lia].
           ++ cbn [Nat.eqb]. do 2 f_equal. destruct (Nat.eqb_spec j 0); lia.
           ++ rewrite (seg_cons b z j 0 Hw). by constructor.
      * exists 0%nat. rewrite Nat.add_0_r. split_and!; [done|lia|done|]. intros _. by exists w.
    + exists 0%nat. rewrite Nat.add_0_r. split_and!; [done|lia|done|lia].
Qed.

(** The digits of the first word. *)
Lemma skip_zero_digits_ok i : forall w intg, (i <= 9)%nat -> 0 < w < 10 ^ S i ->
  exists g : nat, (1 <= g <= S i)%nat /\ skip_zero_digits i w intg = Some (intg - (S i - g)%nat) /\
    10 ^ (g - 1)%nat <= w < 10 ^ g.
Proof.
  induction i as [|i IH]; intros w intg Hi Hw; cbn [skip_zero_digits]; rewrite powers10_lookup by done; obind.
  - rewrite (proj2 (Z.ltb_ge _ _)) by (simpl in *; lia). exists 1%nat. split_and!; [lia|lia|f_equal; lia|simpl; lia|exact (proj2 Hw)].
  - destruct (Z.ltb_spec w (10 ^ S i)).
    + destruct (IH w (intg - 1)) as (g & Hg & -> & Hb); [lia|lia|]. exists g. split_and!; [lia|lia|f_equal; lia|lia|lia].
    + exists (S (S i)). split_and!; [lia|lia|f_equal; lia| |lia]. by replace (S (S i) - 1)%nat with (S i) by lia.
Qed.

(** Words and digits in front of the point: [n] digits in the words from [z]
    on. *)
Record leading (d : decimal_t) (z : nat) (n : Z) : Prop := {
  ld_n : 0 <= n;
  ld_words : ROUND_UP n = (iw d - z)%nat;
  ld_z : (z <= iw d)%nat;
  ld_zero : Forall (fun w => w = 0) (seg (buf d) 0 z);
  ld_upper : cut 0 d < 10 ^ n;
  ld_lower : 0 < n -> 10 ^ (n - 1) <= cut 0 d
}.

Lemma cut_leading d z : dec_ok d -> (z <= iw d)%nat -> Forall (fun w => w = 0) (seg (buf d) 0 z) ->
  cut 0 d = wordsval (seg (buf d) z (iw d - z)).
Proof.
  intros Hd Hz HF. rewrite cut_0. replace (iw d) with (z + (iw d - z))%nat at 1 by lia.
  rewrite seg_app, horner_app by done. by rewrite (Forall_zero_seg _ _ _ HF).
Qed.

(** The value of words of which the first has [g] digits. *)
Lemma first_digits w l (g : Z) : Forall is_word (w :: l) -> 0 <= g -> w < 10 ^ g ->
  wordsval (w :: l) < 10 ^ (9 * length l + g) /\ (0 < g -> 10 ^ (g - 1) <= w -> 10 ^ (9 * length l + g - 1) <= wordsval (w :: l)).
Proof.
  intros HF Hg Hw. pose proof (first_word_bound w l HF) as Hb. rewrite base_pow10 in Hb.
  assert (0 < 10 ^ (9 * length l)) by (apply Z.pow_pos_nonneg; lia). split.
  - rewrite Z.pow_add_r by lia. nia.
  - intros Hg1 Hw1. replace (9 * length l + g - 1) with (9 * length l + (g - 1)) by lia. rewrite Z.pow_add_r by lia. nia.
Qed.

Lemma tight_cut d : dec_ok d -> tight d -> cut 0 d < 10 ^ intg d.
Proof.
  intros Hd [Ht _]. pose proof (cut_close 0 (fw d) d Hd ltac:(lia) ltac:(lia)) as Hc.
  rewrite (cut_exact (fw d)), Nat.sub_diag, Z.mul_1_r, Nat.sub_0_r in Hc by done. pose proof (bpow_pos (fw d)). nia.
Qed.

(** The first word of a tight number. *)
Lemma tight_first d w : dec_ok d -> tight d -> 0 < intg d -> buf d !! 0%nat = Some w -> w < 10 ^ group (intg d).
Proof.
  intros Hd Ht Hi Hw. pose proof (tight_cut d Hd Ht) as Hc. destruct (group_bounds (intg d) Hi) as [Hg Hk].
  rewrite (Z_iw d Hd) in Hk. pose proof (ok_room d Hd). pose proof (iw_words d Hd) as HF.
  rewrite cut_0 in Hc. replace (iw d) with (S (iw d - 1)) in Hc, HF by lia. rewrite (seg_cons _ 0 _ w Hw) in Hc, HF.
  pose proof (first_word_bound _ _ HF) as Hb. rewrite seg_length, base_pow10 in Hb by lia.
  replace (intg d) with (group (intg d) + 9 * (iw d - 1)%nat) in Hc by lia. rewrite Z.pow_add_r in Hc by lia.
  assert (0 < 10 ^ (9 * (iw d - 1)%nat)) by (apply Z.pow_pos_nonneg; lia). nia.
Qed.

Lemma remove_leading_zeroes_ok d : dec_ok d -> tight d ->
  exists z n, remove_leading_zeroes d = Some (Z.of_nat z, n) /\ leading d z n.
Proof.
  intros Hd Ht. pose proof (ok_room d Hd). pose proof (ok_intg d Hd) as Hi0. unfold remove_leading_zeroes.
  assert (skip_zero_words (S (length (buf d))) (buf d) (Z.rem (intg d - 1) DIG_PER_DEC1 + 1) (intg d) 0
          = skip_zero_words (S (length (buf d))) (buf d) (group (intg d)) (intg d) 0%nat) as ->.
  { destruct (decide (intg d = 0)) as [->|]; [done|]. unfold group, DIG_PER_DEC1. by rewrite Z.rem_mod_nonneg by lia. }
  destruct (skip_zero_words_ok (S (length (buf d))) (buf d) (iw d) 0 (intg d)) as (j & -> & Hj & HF & Hw);
    [lia|lia|lia|by apply Z_iw|]. obind. cbn [Nat.add] in *. rewrite Z.gtb_ltb.
  set (n' := if (j =? 0)%nat then intg d else 9 * (iw d - j)%nat).
  assert (0 <= n' /\ ROUND_UP n' = (iw d - j)%nat) as [Hn0 Hn'].
  { unfold n'. destruct (Nat.eqb_spec j 0) as [->|]; [rewrite Z_iw by done; lia|]. rewrite Z.mul_comm, round_up_words by lia. lia. }
  pose proof (round_up_bounds n' Hn0) as Hr. destruct (Z.ltb_spec 0 n') as [Hp|Hp].
  - destruct Hw as (w & Hw & Hne); [lia|]. rewrite get_nat, Hw. obind. destruct (group_bounds n' Hp) as [Hg Hgk].
    pose proof (iw_words d Hd) as HW. apply (seg_Forall _ _ _ _ j (iw d - j)) in HW; [|lia|lia].
    pose proof (cut_leading d j Hd ltac:(lia) HF) as Hc. replace (iw d - j)%nat with (S (iw d - j - 1)) in HW, Hc by lia.
    rewrite (seg_cons _ j _ w Hw) in HW, Hc. pose proof (Forall_inv HW) as Ww. unfold is_digit in Ww.
    assert (w < 10 ^ group n') as Hwg.
    { unfold n'. destruct (Nat.eqb_spec j 0) as [->|]; [apply (tight_first d); (done || lia)|].
      rewrite (proj1 (group_full (iw d - j) ltac:(lia))). apply Ww. }
    assert (Z.to_nat (Z.rem (n' - 1) DIG_PER_DEC1) = Z.to_nat (group n' - 1)) as ->.
    { unfold group, DIG_PER_DEC1. rewrite Z.rem_mod_nonneg by lia. f_equal. lia. }
    destruct (skip_zero_digits_ok (Z.to_nat (group n' - 1)) w n') as (g & Hg' & -> & Hb); [lia| |].
    { split; [lia|]. by replace (Z.of_nat (S (Z.to_nat (group n' - 1)))) with (group n') by lia. }
    obind. destruct (first_digits w (seg (buf d) (S j) (iw d - j - 1)) g HW ltac:(lia) ltac:(lia)) as [Hu Hl].
    rewrite seg_length in Hu, Hl by lia. eexists j, _. split; [reflexivity|].
    replace (n' - (S (Z.to_nat (group n' - 1)) - g)%nat) with (9 * (iw d - j - 1)%nat + g) by lia.
    split; [lia| |lia|done|lia|].
    + rewrite round_up_div by lia. zdiv.
    + intros _. rewrite Hc. apply Hl; [lia|]. replace (Z.of_nat g - 1) with (Z.of_nat (g - 1)) by lia. apply Hb.
  - assert (j = iw d) as -> by lia. eexists (iw d), 0. split; [reflexivity|]. split; [lia| |lia|done| |lia].
    + by rewrite Nat.sub_diag.
    + rewrite (cut_leading d (iw d)), Nat.sub_diag by (done || lia). done.
Qed.
