(* ===== verification/DecStore.v ===== *)
(** * Fixed point numbers: the binary format of a number

    The bytes that decimal2bin stores.  The format is given by an encoding of
    the words of a number with a fixed number of digits before and behind the
    point: the first word and the last one take the bytes their digits need,
    the others take four, all bytes are complemented if the number is negative,
    and the highest bit of the first byte is inverted. *)

From stdpp Require Import prelude list list_numbers numbers.
From Stdlib Require Import ZArith QArith Lia ZifyNat Bool.
From S2P Require Import Prelude Horner Decimal DecBin DecBase DecAdd DecSub DecArith DecInt DecProd DecBytes DecStrip.
Open Scope Z_scope.

#[local] Coercion Z.of_nat : nat >-> Z.

(** ** The format *)

(** The bytes of [n] digits, at most 9 and more. *)
Definition gb (n : Z) : nat := Z.to_nat (default 0 (dig2bytes !! Z.to_nat n)).
Definition dsize (n : Z) : nat := (4 * Z.to_nat (n / 9) + gb (n mod 9))%nat.

Definition enc_full (s : bool) (ws : list Z) : list Z := ws ≫= fun w => be 4 (w .^ mask_of s).

Definition enc_int (n : Z) (s : bool) (ws : list Z) : list Z :=
  match ws with
  | [] => []
  | w :: ws => be (gb (group n)) (w .^ mask_of s) ++ enc_full s ws
  end.

Definition enc_frac (n : Z) (s : bool) (ws : list Z) : list Z :=
  enc_full s (take (Z.to_nat (n / 9)) ws) ++
  (if n mod 9 =? 0 then []
   else be (gb (n mod 9)) (default 0 (ws !! Z.to_nat (n / 9)) / 10 ^ (9 - n mod 9) .^ mask_of s)).

Definition flip_first (l : list Z) : list Z :=
  match l with
  | [] => []
  | c :: l => (c .^ 128) :: l
  end.

(** The bytes of a number with [i] digits before the point and [f] behind it,
    whose words are [W]. *)
Definition bin_image (i f : Z) (s : bool) (W : list Z) : list Z :=
  let k := Z.to_nat (ROUND_UP i) in
  flip_first (enc_int i s (take k W) ++ enc_frac f s (drop k W)).

(** ** Sizes *)

Lemma gb_cases n : 0 <= n <= 9 ->
  get dig2bytes n = Some (Z.of_nat (gb n)) /\ (gb n <= 4)%nat /\ (0 < n -> (1 <= gb n)%nat /\ 10 ^ n <= 2 ^ (8 * gb n - 1)).
Proof.
  intros Hn. rewrite <- (Z2Nat.id n) by lia. assert (Z.to_nat n <= 9)%nat as H by lia. revert H.
  generalize (Z.to_nat n). intros k Hk. do 10 (destruct k as [|k];
    [split; [done|]; split; [vm_compute; lia|]; intros; split; [vm_compute; lia|by vm_compute]|]). lia.
Qed.

Lemma gb_mono m n : 0 <= m <= n -> n <= 9 -> (gb m <= gb n)%nat.
Proof.
  intros Hm Hn. assert (forall a b, (a <= b)%nat -> (b <= 9)%nat -> (gb a <= gb b)%nat) as H.
  { intros a b Hab Hb. do 10 (destruct b as [|b]; [do 10 (destruct a as [|a]; [vm_compute; lia|]); lia|]). lia. }
  specialize (H (Z.to_nat m) (Z.to_nat n) ltac:(lia) ltac:(lia)). by rewrite !Z2Nat.id in H by lia.
Qed.

Lemma digits_size_ok n : 0 <= n -> digits_size n = Some (Z.of_nat (dsize n)).
Proof.
  intros Hn. unfold digits_size, dsize, DIG_PER_DEC1, sizeof_dec1. rewrite Z.quot_div_nonneg by lia.
  replace (n - n / 9 * 9) with (n mod 9) by (rewrite Z.mod_eq; lia).
  destruct (gb_cases (n mod 9)) as [-> _]; [zdiv|]. obind. f_equal. pose proof (Z.div_pos n 9 Hn ltac:(lia)). lia.
Qed.

Lemma dsize_group n : 0 < n -> (dsize n + 4 = 4 * Z.to_nat (ROUND_UP n) + gb (group n))%nat.
Proof.
  intros Hn. destruct (group_bounds n Hn) as [Hg Hr]. unfold dsize.
  destruct (decide (group n = 9)) as [E|E].
  - rewrite E in *. change (gb 9) with 4%nat. assert (n mod 9 = 0) as -> by (unfold group in *; zdiv). change (gb 0) with 0%nat.
    assert (n / 9 = ROUND_UP n) by zdiv. lia.
  - assert (n mod 9 = group n) as -> by (unfold group in *; zdiv). assert (n / 9 = ROUND_UP n - 1) by zdiv.
    pose proof (Z.div_pos n 9 ltac:(lia) ltac:(lia)). lia.
Qed.

Lemma enc_full_length s ws : length (enc_full s ws) = (4 * length ws)%nat.
Proof. induction ws as [|w ws IH]; [done|]. unfold enc_full in *. rewrite bind_cons, length_app, be_length, IH. simpl. lia. Qed.

Lemma enc_full_app s a b : enc_full s (a ++ b) = enc_full s a ++ enc_full s b.
Proof. apply bind_app. Qed.

Lemma enc_full_zeros s n : enc_full s (replicate n 0) = replicate (4 * n) (u8 (mask_of s)).
Proof.
  induction n as [|n IH]; [done|]. unfold enc_full in *. cbn [replicate]. rewrite bind_cons, IH, be_mask0, <- replicate_add. f_equal. lia.
Qed.

Lemma enc_int_length n s ws : 0 <= n -> length ws = Z.to_nat (ROUND_UP n) -> length (enc_int n s ws) = dsize n.
Proof.
  intros Hn Hl. destruct (decide (n = 0)) as [->|]; [by destruct ws|]. pose proof (dsize_group n ltac:(lia)).
  destruct (group_bounds n ltac:(lia)) as [Hg Hr]. destruct ws as [|w ws]; [simpl in Hl; lia|].
  cbn [enc_int]. rewrite length_app, be_length, enc_full_length. simpl in Hl. lia.
Qed.

Lemma round_up_split n : 0 <= n -> ROUND_UP n = n / 9 + (if n mod 9 =? 0 then 0 else 1).
Proof. intros Hn. rewrite round_up_div by done. destruct (Z.eqb_spec (n mod 9) 0); zdiv. Qed.

Lemma enc_frac_length n s ws : 0 <= n -> length ws = Z.to_nat (ROUND_UP n) -> length (enc_frac n s ws) = dsize n.
Proof.
  intros Hn Hl. unfold enc_frac, dsize. rewrite round_up_split in Hl by done. pose proof (Z.div_pos n 9 Hn ltac:(lia)).
  rewrite length_app, enc_full_length, length_take_le by (destruct (n mod 9 =? 0); lia).
  destruct (Z.eqb_spec (n mod 9) 0) as [->|]; [done|]. by rewrite be_length.
Qed.

(** ** Padding *)

Lemma be4_pad s g w : 0 <= g <= 9 -> 0 <= w < 10 ^ g ->
  be 4 (w .^ mask_of s) = replicate (4 - gb g) (u8 (mask_of s)) ++ be (gb g) (w .^ mask_of s).
Proof.
  intros Hg Hw. destruct (gb_cases g Hg) as (_ & H4 & Hp). replace 4%nat with (4 - gb g + gb g)%nat at 1 by lia.
  apply be_pad. destruct (decide (g = 0)) as [->|]; [simpl in *; lia|]. destruct Hp as [H1 Hp]; [lia|].
  pose proof (Z.pow_le_mono_r 2 (8 * gb g - 1) (8 * gb g) ltac:(lia) ltac:(lia)). lia.
Qed.

(** The first word of the integer part has the digits it should have. *)
Definition fits_first (n : Z) (ws : list Z) : Prop :=
  match ws with
  | [] => True
  | w :: _ => 0 <= w < 10 ^ group n
  end.

Lemma group_le n m : 0 < n <= m -> ROUND_UP n = ROUND_UP m -> group n <= group m.
Proof. intros Hn Hr. destruct (group_bounds n), (group_bounds m); lia. Qed.

Lemma be_group_pad s m n w : 1 <= m <= n -> n <= 9 -> 0 <= w < 10 ^ m ->
  be (gb n) (w .^ mask_of s) = replicate (gb n - gb m) (u8 (mask_of s)) ++ be (gb m) (w .^ mask_of s).
Proof.
  intros Hm Hn Hw. pose proof (gb_mono m n ltac:(lia) Hn). replace (gb n) with (gb n - gb m + gb m)%nat at 1 by lia.
  apply be_pad. destruct (gb_cases m) as (_ & _ & Hp); [lia|]. destruct Hp as [H1 Hp]; [lia|].
  pose proof (Z.pow_le_mono_r 2 (8 * gb m - 1) (8 * gb m) ltac:(lia) ltac:(lia)). lia.
Qed.

(** A number with fewer digits before the point. *)
Lemma enc_int_pad n m s ws : 0 <= n <= m -> length ws = Z.to_nat (ROUND_UP n) -> fits_first n ws ->
  enc_int m s (replicate (Z.to_nat (ROUND_UP m) - length ws) 0 ++ ws)
  = replicate (dsize m - dsize n) (u8 (mask_of s)) ++ enc_int n s ws.
Proof.
  intros Hn Hl Hf. pose proof (round_up_mono n m Hn) as Hr. pose proof (round_up_bounds n ltac:(lia)) as Hrn.
  pose proof (round_up_bounds m ltac:(lia)) as Hrm. destruct (Z.to_nat (ROUND_UP m) - length ws)%nat as [|c] eqn:Ec.
  - cbn [replicate app]. destruct ws as [|w ws].
    + simpl in Hl, Ec. assert (m = 0) as -> by lia. done.
    + assert (0 < n) as Hp by (simpl in Hl; lia). cbn [enc_int fits_first] in *.
      pose proof (dsize_group n Hp). pose proof (dsize_group m ltac:(lia)).
      pose proof (group_le n m ltac:(lia) ltac:(simpl in *; lia)). destruct (group_bounds n Hp) as [Hg _]. destruct (group_bounds m ltac:(lia)) as [Hg' _].
      rewrite (be_group_pad s (group n) (group m)) by lia. rewrite <- app_assoc. do 2 f_equal. simpl in *. lia.
  - pose proof (dsize_group m ltac:(lia)). destruct (group_bounds m ltac:(lia)) as [Hg' _].
    cbn [replicate app enc_int]. rewrite enc_full_app, enc_full_zeros, be_mask0, app_assoc, <- replicate_add.
    destruct ws as [|w ws].
    + simpl in Hl. assert (n = 0) as -> by lia. change (dsize 0) with 0%nat. cbn [enc_int enc_full]. rewrite app_nil_r.
      change (enc_full s []) with (@nil Z). rewrite app_nil_r. f_equal. simpl in Ec. lia.
    + assert (0 < n) as Hp by (simpl in Hl; lia). pose proof (dsize_group n Hp). cbn [enc_int fits_first] in *.
      destruct (group_bounds n Hp) as [Hg _]. unfold enc_full at 1. rewrite bind_cons. fold (enc_full s ws).
      rewrite (be4_pad s (group n) w) by lia. destruct (gb_cases (group n)) as (_ & H4 & _); [lia|].
      rewrite !app_assoc, <- replicate_add. do 3 f_equal. simpl in *. lia.
Qed.

(** The fraction ends in a word that is stored in full. *)
Lemma enc_frac_full n s ws : 0 <= n -> (length ws <= Z.to_nat (n / 9))%nat ->
  enc_frac n s (ws ++ replicate (Z.to_nat (ROUND_UP n) - length ws) 0)
  = enc_full s ws ++ replicate (dsize n - 4 * length ws) (u8 (mask_of s)).
Proof.
  intros Hn Hl. unfold enc_frac, dsize. rewrite round_up_split by done. pose proof (Z.div_pos n 9 Hn ltac:(lia)).
  rewrite take_app_ge, take_replicate, enc_full_app, enc_full_zeros, <- app_assoc by lia. f_equal.
  destruct (Z.eqb_spec (n mod 9) 0) as [->|E].
  - change (gb 0) with 0%nat. rewrite app_nil_r. f_equal. lia.
  - rewrite lookup_app_r, lookup_replicate_2 by lia. cbn [default from_option id].
    rewrite Z.div_0_l by (apply Z.pow_nonzero; [done|zdiv]). rewrite be_mask0, <- replicate_add. f_equal. lia.
Qed.

(** ** The loops *)

(** Bytes behind those that were written. *)
Lemma put_bytes_ok bs : forall out (t : nat), (t + length bs <= length out)%nat ->
  put_bytes bs out t = Some (splice out t bs, Z.of_nat (t + length bs)).
Proof.
  induction bs as [|x bs IH]; intros out t Ht; cbn [put_bytes].
  - by rewrite splice_nil, Nat.add_0_r.
  - simpl in Ht. rewrite put_nat by lia. obind. rewrite <- splice_insert by lia.
    replace (Z.of_nat t + 1) with (Z.of_nat (S t)) by lia. rewrite IH by (rewrite splice_length; simpl; lia).
    rewrite splice_behind by (simpl; lia). do 2 f_equal. simpl. lia.
Qed.

Lemma put_more o a bs : (length a + length bs <= length o)%nat ->
  put_bytes bs (splice o 0 a) (length a) = Some (splice o 0 (a ++ bs), Z.of_nat (length (a ++ bs))).
Proof.
  intros H. rewrite put_bytes_ok by (rewrite splice_length; lia). rewrite splice_behind by lia.
  by rewrite length_app.
Qed.

Lemma fill_more o a n v : (length a + n <= length o)%nat ->
  fill n v (splice o 0 a) (length a) = Some (splice o 0 (a ++ replicate n v), Z.of_nat (length (a ++ replicate n v))).
Proof.
  intros H. rewrite fill_ok by (rewrite splice_length; lia). rewrite splice_behind by (rewrite ?length_replicate; lia).
  by rewrite length_app, length_replicate.
Qed.

Lemma store_full_ok n : forall b (i : nat) s o a, (i + n <= length b)%nat -> (length a + 4 * n <= length o)%nat ->
  store_full n b i (mask_of s) (splice o 0 a) (length a)
  = Some (splice o 0 (a ++ enc_full s (seg b i n)), Z.of_nat (length (a ++ enc_full s (seg b i n))), Z.of_nat (i + n)).
Proof.
  induction n as [|n IH]; intros b i s o a Hi Ha; cbn [store_full].
  - by rewrite seg_nil, app_nil_r, Nat.add_0_r.
  - destruct (lookup_lt_is_Some_2 b i) as [w Hw]; [lia|]. rewrite get_nat, Hw. obind.
    assert (mi_int4store (w .^ mask_of s) = be 4 (w .^ mask_of s)) as ->.
    { pose proof (store_int_be 4 (w .^ mask_of s) ltac:(lia)) as H. by apply (inj Some). }
    rewrite put_more by (rewrite be_length; lia). obind. replace (Z.of_nat i + 1) with (Z.of_nat (S i)) by lia.
    rewrite IH by (rewrite ?length_app, ?be_length; lia). rewrite (seg_cons b i n w Hw). unfold enc_full at 3 4.
    rewrite bind_cons, <- !app_assoc. do 3 f_equal. lia.
Qed.

Lemma pow10_lookup n : 0 <= n <= 9 -> get powers10 n = Some (10 ^ n).
Proof. intros Hn. unfold get. rewrite (proj2 (Z.ltb_ge n 0)) by lia. rewrite powers10_lookup, Z2Nat.id by lia. done. Qed.

Lemma store_int_part b (z F : nat) n s o a : 0 <= n -> let k := Z.to_nat (ROUND_UP n) in
  (z + k + F <= length b)%nat -> (length a + dsize n + 4 * F <= length o)%nat -> fits_first n (seg b z k) ->
  let r := a ++ enc_int n s (seg b z k) ++ enc_full s (seg b (z + k) F) in
  ('(out, t, buf1) ← store_first (n mod 9) b z (mask_of s) (splice o 0 a) (length a);
   store_full (Z.to_nat (n / 9) + F) b buf1 (mask_of s) out t)
  = Some (splice o 0 r, Z.of_nat (length r), Z.of_nat (z + k + F)).
Proof.
  intros Hn k Hb Ha Hf r. unfold store_first. pose proof (Z.div_pos n 9 Hn ltac:(lia)).
  pose proof (round_up_split n Hn) as Hr. destruct (Z.eqb_spec (n mod 9) 0) as [E|E]; cbn [negb].
  - obind. assert (k = Z.to_nat (n / 9)) as Ek by lia. assert (dsize n = 4 * k)%nat as Ed.
    { unfold dsize. rewrite E. change (gb 0) with 0%nat. lia. }
    rewrite <- Ek, store_full_ok by lia. subst r. replace (z + (k + F))%nat with (z + k + F)%nat by lia. rewrite seg_app, enc_full_app.
    assert (enc_int n s (seg b z k) = enc_full s (seg b z k)) as ->; [|done].
    destruct (decide (n = 0)) as [->|]; [by replace k with 0%nat by (unfold k; done)|].
    destruct (seg b z k) as [|w ws]; [done|]. unfold enc_full. rewrite bind_cons. cbn [enc_int]. by assert (group n = 9) as -> by (unfold group; zdiv).
  - assert (0 < n) as Hp by (destruct (decide (n = 0)) as [->|]; [done|lia]). assert (k = S (Z.to_nat (n / 9))) as Ek by lia.
    destruct (gb_cases (n mod 9)) as (-> & H4 & H1); [zdiv|]. obind. destruct H1 as [H1 _]; [zdiv|].
    destruct (lookup_lt_is_Some_2 b z) as [w Hw]; [lia|]. rewrite get_nat, Hw. obind. rewrite pow10_lookup by zdiv. obind.
    subst r. rewrite Ek in *. rewrite (seg_cons b z _ w Hw) in *. cbn [enc_int fits_first] in *.
    assert (group n = n mod 9) as Eg by (unfold group; zdiv). rewrite Eg in *. rewrite Z.rem_small by lia.
    rewrite store_int_be by lia. obind. unfold dsize in Ha. rewrite put_more by (rewrite be_length; lia). obind.
    replace (Z.of_nat z + 1) with (Z.of_nat (S z)) by lia. rewrite store_full_ok by (rewrite ?length_app, ?be_length; lia).
    rewrite seg_app, enc_full_app, <- !app_assoc. replace (S z + Z.to_nat (n / 9))%nat with (z + S (Z.to_nat (n / 9)))%nat by lia.
    do 3 f_equal. lia.
Qed.

Lemma widen_ok (n : nat) : forall x lim, 0 <= x <= lim -> lim <= 9 -> lim - x <= n -> gb x = gb lim ->
  widen n x lim (gb x) = Some lim.
Proof.
  assert (forall y lim, 0 <= y <= lim -> lim <= 9 -> gb y = gb lim -> y + 1 <= lim -> gb (y + 1) = gb lim) as Hm.
  { intros y lim Hy Hl Hg Hle. pose proof (gb_mono y (y + 1) ltac:(lia) ltac:(lia)). pose proof (gb_mono (y + 1) lim ltac:(lia) ltac:(lia)). lia. }
  induction n as [|n IH]; intros x lim Hx Hl Hn Hg; cbn [widen]; destruct (Z.ltb_spec x lim); try (f_equal; lia); try lia.
  destruct (gb_cases x) as (-> & _); [lia|]. obind. rewrite Z.eqb_refl. pose proof (Hm x lim Hx Hl Hg ltac:(lia)).
  replace (gb x) with (gb (x + 1)) by lia. apply IH; lia.
Qed.

(** What is left after the whole words of the fraction: nothing, or the last
    word with [g] digits. *)
Lemma fit_frac_ok f S err : 0 <= f <= S ->
  exists F1 x1 fs, fit_frac (S / 9) (S mod 9) (dsize S) (f / 9) (f mod 9) (dsize f) err = (F1, x1, fs, err) /\
    ((x1 = 0 /\ F1 = ROUND_UP f /\ F1 <= S / 9 /\ Z.min (fs - dsize f) (dsize S - 4 * F1) = dsize S - 4 * F1) \/
     (1 <= x1 <= 8 /\ (0 <= F1 /\ F1 = ROUND_UP f - 1) /\ fs = dsize f /\
      exists g, widen 10 x1 (if F1 <? S / 9 then 9 else S mod 9) (gb x1) = Some g /\ gb g = gb x1 /\
        (g = 9 /\ ROUND_UP f = S / 9 /\ S mod 9 = 0 \/ g = S mod 9 /\ ROUND_UP f = S / 9 + 1))).
Proof.
  intros Hf. unfold fit_frac, dsize. rewrite (round_up_split f) by lia.
  assert (0 <= f / 9) by zdiv. assert (0 <= f mod 9 <= 8) as Hx by zdiv. assert (0 <= S mod 9 <= 8) as HX by zdiv.
  assert (f / 9 < S / 9 \/ f / 9 = S / 9 /\ f mod 9 <= S mod 9) as Hle by zdiv.
  destruct (gb_cases (f mod 9)) as (_ & G4 & G1); [lia|]. destruct (gb_cases (S mod 9)) as (_ & K4 & _); [lia|].
  assert (f / 9 = S / 9 -> (gb (f mod 9) <= gb (S mod 9))%nat) as Hm by (intros; apply gb_mono; lia).
  rewrite (proj2 (Z.ltb_ge _ _)) by lia. rewrite Z.gtb_ltb. destruct (Z.eqb_spec (f mod 9) 0) as [E|E].
  - rewrite E in *. change (gb 0) with 0%nat in *. cbn [negb]. rewrite andb_false_r. eexists _, _, _. split; [reflexivity|].
    left. split_and!; lia.
  - cbn [negb]. rewrite andb_true_r. specialize (G1 ltac:(lia)) as [G1 _]. destruct (Z.ltb_spec (4 * Z.to_nat (f / 9) + gb (f mod 9))%nat (4 * Z.to_nat (S / 9) + gb (S mod 9))%nat).
    + destruct (Z.eqb_spec (S / 9) (f / 9)) as [E9|E9]; eexists _, _, _; (split; [reflexivity|]).
      * right. split_and!; [lia|lia|lia|lia|done|]. exists (S mod 9). rewrite (proj2 (Z.ltb_ge _ _)) by lia.
        split_and!; [apply widen_ok; lia|done|]. right. lia.
      * left. split_and!; lia.
    + eexists _, _, _. split; [reflexivity|]. right. split_and!; [lia|lia|lia|lia|lia|].
      destruct (decide (f / 9 = S / 9)) as [E9|E9].
      * exists (S mod 9). specialize (Hm E9). rewrite (proj2 (Z.ltb_ge _ _)) by lia. split_and!; [apply widen_ok; lia|lia|]. right. lia.
      * exists 9. rewrite (proj2 (Z.ltb_lt _ _)) by lia. assert (gb (f mod 9) = 4%nat) as E4 by lia. change (gb 9) with 4%nat.
        split_and!; [|done|].
        -- apply widen_ok; [lia|lia|lia|done].
        -- left. assert (gb (S mod 9) = 0%nat) as E0 by lia. split_and!; [done|lia|].
           destruct (decide (S mod 9 = 0)) as [|Hne]; [done|]. destruct (gb_cases (S mod 9)) as (_ & _ & K1); [lia|]. destruct K1; lia.
Qed.

(** ** decimal2bin *)

(** The part of decimal2bin that stores the words of the fraction and fills the
    buffer; [x] words and digits as fit_frac returns them. *)
Definition store_rest (b : list Z) (z n f i S : Z) (s : bool) (out : list Z) (t F1 x1 fs : Z) : option (list Z) :=
  '(out, t, buf1) ← store_first (n mod 9) b z (mask_of s) out t;
  '(out, t, buf1) ← store_full (Z.to_nat (n / 9 + F1)) b buf1 (mask_of s) out t;
  '(out, t) ← store_last x1 F1 (S / 9) (S mod 9) b buf1 (mask_of s) out t;
  '(out, _) ← fill (Z.to_nat (Z.min (fs - dsize f) (dsize S + dsize i - t))) (u8 (mask_of s)) out t;
  Some out.

Lemma dsize_mono n i : 0 <= n <= i -> (dsize n <= dsize i)%nat.
Proof.
  intros Hn. destruct (decide (n = 0)) as [->|]; [change (dsize 0) with 0%nat; lia|].
  pose proof (dsize_group n ltac:(lia)). pose proof (dsize_group i ltac:(lia)). pose proof (round_up_mono n i ltac:(lia)).
  destruct (group_bounds n ltac:(lia)) as [? ?]. destruct (group_bounds i ltac:(lia)) as [? ?].
  destruct (decide (ROUND_UP n = ROUND_UP i)) as [E|]; [pose proof (gb_mono (group n) (group i) ltac:(lia) ltac:(lia)); lia|].
  destruct (gb_cases (group n)) as (_ & ? & _); lia.
Qed.

(** The last word of the fraction and the fill. *)
Lemma store_tail_ok b (p : nat) f i S s o a F1 x1 fs err : 0 <= f <= S ->
  let F := Z.to_nat (ROUND_UP f) in (p + F <= length b)%nat -> Forall is_word (seg b p F) -> (length a = dsize i)%nat -> (dsize i + dsize S <= length o)%nat ->
  fit_frac (S / 9) (S mod 9) (dsize S) (f / 9) (f mod 9) (dsize f) err = (F1, x1, fs, err) ->
  exists G : nat, F1 = G /\ (G <= F)%nat /\ (4 * G <= dsize S)%nat /\
  let a' := a ++ enc_full s (seg b p G) in
  ('(out, t) ← store_last x1 F1 (S / 9) (S mod 9) b (p + G)%nat (mask_of s) (splice o 0 a') (length a');
   '(out, _) ← fill (Z.to_nat (Z.min (fs - dsize f) (dsize S + dsize i - t))) (u8 (mask_of s)) out t;
   Some out)
  = Some (splice o 0 (a ++ enc_frac S s (seg b p F ++ replicate (Z.to_nat (ROUND_UP S) - F) 0))).
Proof.
  intros Hf F Hb HW Ha Ho Hfit. destruct (fit_frac_ok f S err Hf) as (F1' & x1' & fs' & Hfit' & Hc). rewrite Hfit in Hfit'. injection Hfit' as <- <- <-.
  assert (length (seg b p F) = F) as HlF by (apply seg_length; lia). pose proof (round_up_bounds f ltac:(lia)) as HF.
  assert (0 <= S / 9) by (apply Z.div_pos; lia). assert (dsize S = 4 * Z.to_nat (S / 9) + gb (S mod 9))%nat as HS by done.
  destruct Hc as [(-> & HF1 & Hle & Hmin)|(Hx & HF1 & -> & g & Hw & Hg & Hc)].
  - exists F. split_and!; [lia|lia|lia|]. cbv zeta. unfold store_last. cbn [Z.eqb negb]. obind.
    assert (length (a ++ enc_full s (seg b p F)) = dsize i + 4 * F)%nat as Hla by (rewrite length_app, enc_full_length; lia).
    replace (Z.to_nat (Z.min (fs - dsize f) (dsize S + dsize i - length (a ++ enc_full s (seg b p F))))) with (dsize S - 4 * F)%nat by lia.
    rewrite fill_more by lia. obind. do 2 f_equal. rewrite <- app_assoc. f_equal.
    pose proof (enc_frac_full S s (seg b p F) ltac:(lia)) as He. rewrite HlF in He. symmetry. apply He. lia.
  - destruct (gb_cases x1) as (Hgx & Hx4 & Hx1); [lia|]. destruct Hx1 as [Hx1 _]; [lia|].
    assert (exists G, F = Datatypes.S G) as [G EF] by (exists (F - 1)%nat; lia). exists G.
    assert (4 * G + gb x1 <= dsize S)%nat as HG.
    { destruct Hc as [(-> & Hr & H0)|(-> & Hr)]; [change (gb 9) with 4%nat in Hg; rewrite H0 in HS; change (gb 0) with 0%nat in HS; lia|lia]. }
    split_and!; [lia|lia|lia|]. cbv zeta. unfold store_last, DIG_PER_DEC1.
    rewrite (proj2 (Z.eqb_neq x1 0)) by lia. cbn [negb]. rewrite Hgx. obind. rewrite Hw. obind.
    destruct (lookup_lt_is_Some_2 b (p + G)) as [w Hlw]; [lia|]. rewrite get_nat, Hlw. obind.
    assert (1 <= g <= 9) as Hg9.
    { destruct Hc as [(-> & _)|(-> & _)]; [lia|]. destruct (decide (S mod 9 = 0)) as [E|]; [rewrite E in Hg; change (gb 0) with 0%nat in Hg; lia|zdiv]. }
    rewrite pow10_lookup by lia. obind. rewrite store_int_be by lia. obind.
    rewrite put_more by (rewrite length_app, be_length, enc_full_length, seg_length; lia). obind.
    assert (forall t, Z.to_nat (Z.min (dsize f - dsize f) t) = 0%nat) as -> by (clear; lia). cbn [fill]. obind.
    rewrite EF in *. rewrite (seg_snoc b p G w) in * by done. apply Forall_app in HW as [_ HW]. apply Forall_inv in HW. unfold is_digit in HW.
    rewrite Z.quot_div_nonneg by (try apply Z.pow_pos_nonneg; lia). do 2 f_equal. rewrite <- app_assoc. f_equal.
    destruct Hc as [(-> & Hr & H0)|(-> & Hr)].
    + pose proof (enc_frac_full S s (seg b p G ++ [w]) ltac:(lia)) as He. rewrite HlF in He. rewrite He by lia.
      replace (dsize S - 4 * Datatypes.S G)%nat with 0%nat by (rewrite HS, H0; change (gb 0) with 0%nat; lia).
      rewrite Z.div_1_r, <- Hg, app_nil_r, enc_full_app. unfold enc_full at 3. by rewrite bind_singleton || cbn.
    + pose proof (round_up_split S ltac:(lia)) as HrS. replace (Z.to_nat (ROUND_UP S) - Datatypes.S G)%nat with 0%nat by (destruct (S mod 9 =? 0); lia).
      rewrite app_nil_r. unfold enc_frac. replace (Z.to_nat (S / 9)) with G by lia.
      assert (length (seg b p G) = G) as HlG by (rewrite seg_length; lia).
      rewrite take_app_le, take_ge, lookup_app_r, HlG, Nat.sub_diag by lia. cbn [lookup list_lookup default from_option id].
      rewrite (proj2 (Z.eqb_neq _ _)) by lia. by rewrite Hg.
Qed.

Lemma store_rest_ok b (z : nat) n f i S s o err F1 x1 fs : 0 <= n <= i -> 0 <= f <= S ->
  let k := Z.to_nat (ROUND_UP n) in let F := Z.to_nat (ROUND_UP f) in
  (z + k + F <= length b)%nat -> Forall is_word (seg b (z + k) F) -> (dsize i + dsize S <= length o)%nat -> fits_first n (seg b z k) ->
  fit_frac (S / 9) (S mod 9) (dsize S) (f / 9) (f mod 9) (dsize f) err = (F1, x1, fs, err) ->
  let pad := replicate (dsize i - dsize n) (u8 (mask_of s)) in
  store_rest b z n f i S s (splice o 0 pad) (length pad) F1 x1 fs
  = Some (splice o 0 (enc_int i s (replicate (Z.to_nat (ROUND_UP i) - k) 0 ++ seg b z k) ++
                      enc_frac S s (seg b (z + k) F ++ replicate (Z.to_nat (ROUND_UP S) - F) 0))).
Proof.
  intros Hn Hf k F Hb HW Ho Hfit Hc pad.
  assert (length (seg b z k) = k) as Hlk by (apply seg_length; lia). assert (0 <= n / 9) by (apply Z.div_pos; lia).
  pose proof (dsize_mono n i Hn) as Hd. assert (length pad = dsize i - dsize n)%nat as Hp by apply length_replicate.
  pose proof (enc_int_length n s (seg b z k) ltac:(lia) Hlk) as Hli.
  pose proof (enc_int_pad n i s (seg b z k) Hn Hlk Hfit) as Hpad. rewrite Hlk in Hpad. rewrite Hpad. fold pad. clear Hpad.
  destruct (store_tail_ok b (z + k) f i S s o (pad ++ enc_int n s (seg b z k)) F1 x1 fs err Hf Hb HW) as (G & -> & HGF & HG & Ht);
    [rewrite length_app; lia|done|done|].
  pose proof (store_int_part b z G n s o pad ltac:(lia) ltac:(lia) ltac:(lia) Hfit) as Hs. fold k in Hs. cbv zeta in Hs, Ht.
  unfold store_rest. replace (Z.to_nat (n / 9 + G)) with (Z.to_nat (n / 9) + G)%nat by lia.
  destruct (store_first _ _ _ _ _ _) as [[[o1 t1] p1]|]; [|done]. cbn in Hs |- *. rewrite Hs. cbn.
  rewrite <- app_assoc in Ht. exact Ht.
Qed.

(** The words of a number with [i] digits before and [S] behind the point. *)
Record digits_of (i S : Z) (W : list Z) : Prop := {
  do_length : length W = (Z.to_nat (ROUND_UP i) + Z.to_nat (ROUND_UP S))%nat;
  do_words : Forall is_word W;
  do_value : wordsval W < 10 ^ i * DIG_BASE ^ Z.to_nat (ROUND_UP S);
  do_last : (10 ^ (9 * ROUND_UP S - S) | wordsval W)
}.

(** The sign that is stored: a zero without fraction digits has none. *)
Definition bin_sign (d : decimal_t) : bool := sign d && negb ((cut 0 d =? 0) && (frac d =? 0)).

Definition bin_words (d : decimal_t) (z : nat) (i S : Z) : list Z :=
  (replicate (Z.to_nat (ROUND_UP i) - (iw d - z)) 0 ++ seg (buf d) z (iw d - z)) ++
  (seg (buf d) (iw d) (fw d) ++ replicate (Z.to_nat (ROUND_UP S) - fw d) 0).

Lemma wordsval_zeros_l n l : wordsval (replicate n 0 ++ l) = wordsval l.
Proof. rewrite horner_app, horner_zeros by done. lia. Qed.

Lemma bin_words_value d z i S : dec_ok d -> (z <= iw d)%nat -> Forall (fun w => w = 0) (seg (buf d) 0 z) ->
  (iw d - z <= Z.to_nat (ROUND_UP i))%nat -> (fw d <= Z.to_nat (ROUND_UP S))%nat ->
  let W := bin_words d z i S in
  length W = (Z.to_nat (ROUND_UP i) + Z.to_nat (ROUND_UP S))%nat /\ Forall is_word W /\
  wordsval W = cut (Z.to_nat (ROUND_UP S)) d.
Proof.
  intros Hd Hz HF Hi HS W. pose proof (ok_room d Hd). destruct (dec_seg d Hd) as [Wd Vd]. split_and!.
  - unfold W, bin_words. rewrite !length_app, !length_replicate, !seg_length; lia.
  - unfold W, bin_words. apply Forall_app. split.
    + apply Forall_app. split; [apply Forall_zeros|]. eapply seg_Forall; [exact Wd|lia|lia].
    + apply Forall_app. split; [|apply Forall_zeros]. eapply seg_Forall; [exact Wd|lia|lia].
  - rewrite cut_exact by done. rewrite <- Vd. unfold W, bin_words.
    rewrite <- app_assoc, wordsval_zeros_l, app_assoc, horner_app, horner_zeros, length_replicate by done.
    rewrite Z.add_0_r. f_equal. replace (iw d + fw d)%nat with (z + (iw d - z) + fw d)%nat by lia.
    rewrite (seg_app _ 0 (z + (iw d - z))), (seg_app _ 0 z). rewrite <- app_assoc.
    rewrite (horner_app DIG_BASE (seg (buf d) 0 z)), (Forall_zero_seg _ _ _ HF), Z.mul_0_l, Z.add_0_l.
    cbn [Nat.add]. do 3 f_equal. lia.
Qed.

Lemma bin_words_digits d z i S : dec_ok d -> tight d -> (z <= iw d)%nat -> Forall (fun w => w = 0) (seg (buf d) 0 z) ->
  (iw d - z <= Z.to_nat (ROUND_UP i))%nat -> 0 <= i -> frac d <= S -> cut 0 d < 10 ^ i ->
  digits_of i S (bin_words d z i S).
Proof.
  intros Hd [_ Ht] Hz HF Hi Hi0 HS Hc. pose proof (ok_frac d Hd) as Hf0. pose proof (Z_fw d Hd) as Hfw.
  pose proof (round_up_bounds (frac d) Hf0). pose proof (round_up_bounds S ltac:(lia)). pose proof (round_up_mono (frac d) S ltac:(lia)).
  destruct (bin_words_value d z i S Hd Hz HF Hi ltac:(lia)) as (Hl & HW & Hv). split; [done|done| |]; rewrite Hv.
  - pose proof (cut_close 0 (Z.to_nat (ROUND_UP S)) d Hd ltac:(lia) ltac:(lia)) as Hcc. rewrite Nat.sub_0_r in Hcc.
    pose proof (bpow_pos (Z.to_nat (ROUND_UP S))). nia.
  - rewrite cut_exact by lia. destruct Ht as [u ->]. exists (u * 10 ^ (S - frac d)). rewrite base_pow10.
    rewrite <- !Z.mul_assoc, <- !Z.pow_add_r by lia. do 2 f_equal. lia.
Qed.

Lemma flip_put (e : Z) o L : (0 < length L <= length o)%nat ->
  (c ← get (splice o 0 L) 0; out ← put (splice o 0 L) 0 (c .^ 128); Some (e, out)) = Some (e, splice o 0 (flip_first L)).
Proof.
  intros H. destruct L as [|c L]; [simpl in H; lia|]. cbn [flip_first].
  assert (forall x, splice o 0 (x :: L) = x :: (L ++ drop (length (x :: L)) o)) as Hs by done. rewrite !Hs. cbn. done.
Qed.

(** What decimal2bin does with the place of the first word and the digits that
    are left. *)
Definition store_body (b : list Z) (z n f i S mask : Z) (out : list Z) : option (Z * list Z) :=
  '(out, t) ← fill (Z.to_nat (dsize i - dsize n)) (u8 mask) out 0;
  let '(frac1, frac1x, fsize0', error) :=
    fit_frac (S / 9) (S mod 9) (dsize S) (f / 9) (f mod 9) (dsize f) E_DEC_OK in
  '(out, t, buf1) ← store_first (n mod 9) b z mask out t;
  '(out, t, buf1) ← store_full (Z.to_nat (n / 9 + frac1)) b buf1 mask out t;
  '(out, t) ← store_last frac1x frac1 (S / 9) (S mod 9) b buf1 mask out t;
  '(out, _) ← fill (Z.to_nat (Z.min (fsize0' - dsize f) (dsize S + dsize i - t))) (u8 mask) out t;
  c ← get out 0;
  out ← put out 0 (c .^ 128);
  Some (error, out).

Lemma store_body_ok b (z : nat) n f i S s o : 0 <= n <= i -> 0 <= f <= S -> 0 < i + S ->
  let k := Z.to_nat (ROUND_UP n) in let F := Z.to_nat (ROUND_UP f) in
  (z + k + F <= length b)%nat -> Forall is_word (seg b (z + k) F) -> (dsize i + dsize S <= length o)%nat -> fits_first n (seg b z k) ->
  store_body b z n f i S (mask_of s) o
  = Some (E_DEC_OK, splice o 0 (flip_first (
      enc_int i s (replicate (Z.to_nat (ROUND_UP i) - k) 0 ++ seg b z k) ++
      enc_frac S s (seg b (z + k) F ++ replicate (Z.to_nat (ROUND_UP S) - F) 0)))).
Proof.
  intros Hn Hf Hp k F Hb HW Ho Hfit. destruct (fit_frac_ok f S E_DEC_OK Hf) as (F1 & x1 & fs & Hff & _).
  pose proof (store_rest_ok b z n f i S s o E_DEC_OK F1 x1 fs Hn Hf Hb HW Ho Hfit Hff) as Hr. fold k F in Hr. cbv zeta in Hr.
  pose proof (dsize_mono n i Hn) as Hd. unfold store_body.
  replace (Z.to_nat (dsize i - dsize n)) with (dsize i - dsize n)%nat by lia.
  pose proof (fill_more o [] (dsize i - dsize n) (u8 (mask_of s))) as Hfl. rewrite splice_nil in Hfl.
  change (Z.of_nat (length (@nil Z))) with 0 in Hfl. rewrite Hfl by (simpl; lia). obind.
  rewrite app_nil_l, Hff. unfold store_rest in Hr. set (L := enc_int _ _ _ ++ enc_frac _ _ _) in *.
  assert (0 < length L <= length o)%nat as HL.
  { pose proof (round_up_mono n i Hn). pose proof (round_up_mono f S Hf). pose proof (round_up_bounds n ltac:(lia)). pose proof (round_up_bounds f ltac:(lia)).
    assert (length L = dsize i + dsize S)%nat as ->.
    { unfold L. rewrite length_app, enc_int_length, enc_frac_length; [lia|lia| |lia|]; rewrite length_app, length_replicate, seg_length; lia. }
    assert (forall m, 0 < m -> (0 < dsize m)%nat) as Hs.
    { intros m Hm. pose proof (dsize_group m Hm). destruct (group_bounds m Hm). destruct (gb_cases (group m)) as (_ & _ & Hg); [lia|]. destruct Hg; lia. }
    destruct (decide (0 < i)) as [Hi|]; [specialize (Hs i Hi)|specialize (Hs S ltac:(lia))]; lia. }
  pose proof (flip_put E_DEC_OK o L HL) as Hfp.
  destruct (store_first _ _ _ _ _ _) as [[[o1 t1] p1]|]; [|done]. cbn in Hr |- *.
  destruct (store_full _ _ _ _ _ _) as [[[o2 t2] p2]|]; [|done]. cbn in Hr |- *.
  destruct (store_last _ _ _ _ _ _ _ _ _) as [[o3 t3]|]; [|done]. cbn in Hr |- *.
  destruct (fill _ _ o3 t3) as [[o4 t4]|]; [|done]. cbn in Hr |- *. injection Hr as ->. exact Hfp.
Qed.

Lemma fits_first_leading d z n : dec_ok d -> leading d z n -> fits_first n (seg (buf d) z (iw d - z)).
Proof.
  intros Hd [Hn Hk Hz HF Hu _]. pose proof (ok_room d Hd). pose proof (iw_words d Hd) as HW.
  apply (seg_Forall _ _ _ _ z (iw d - z)) in HW; [|lia|lia]. pose proof (cut_leading d z Hd Hz HF) as Hc.
  pose proof (seg_length (buf d) z (iw d - z) ltac:(lia)) as Hlen.
  destruct (seg (buf d) z (iw d - z)) as [|w ws]; [done|]. cbn [fits_first]. pose proof (Forall_inv HW) as Ww. unfold is_digit in Ww.
  split; [lia|]. cbn [length] in Hlen. pose proof (first_word_bound w ws HW) as Hb. rewrite base_pow10 in Hb.
  pose proof (round_up_bounds n Hn). destruct (group_bounds n ltac:(lia)) as [Hg Hr].
  assert (n = 9 * length ws + group n) as E by lia. rewrite E, Z.pow_add_r in Hu by lia.
  assert (0 < 10 ^ (9 * length ws)) by (apply Z.pow_pos_nonneg; lia). nia.
Qed.

Lemma decimal2bin_ok d out precision S : dec_ok d -> tight d -> 0 <= S <= precision -> 0 < precision ->
  cut 0 d < 10 ^ (precision - S) -> frac d <= S -> (dsize (precision - S) + dsize S <= length out)%nat ->
  exists W, digits_of (precision - S) S W /\ wordsval W = cut (Z.to_nat (ROUND_UP S)) d /\
    decimal2bin d out precision S = Some (E_DEC_OK, splice out 0 (bin_image (precision - S) S (bin_sign d) W)).
Proof.
  intros Hd Ht HS Hp Hc Hf Hout. set (i := precision - S) in *. pose proof (ok_frac d Hd) as Hf0. pose proof (ok_room d Hd).
  destruct (remove_leading_zeroes_ok d Hd Ht) as (z & n & Hrl & HL).
  pose proof (fits_first_leading d z n Hd HL) as Hfit. destruct HL as [Hn Hk Hz HF Hu Hl].
  assert (n <= i) as Hni.
  { destruct (Z.le_gt_cases n i); [done|]. pose proof (Z.pow_le_mono_r 10 i (n - 1) ltac:(lia) ltac:(lia)). specialize (Hl ltac:(lia)). lia. }
  pose proof (round_up_mono n i ltac:(lia)) as Hmi. pose proof (Z_fw d Hd) as Hfw. pose proof (round_up_mono (frac d) S ltac:(lia)) as Hms.
  destruct (bin_words_value d z i S Hd Hz HF ltac:(lia) ltac:(lia)) as (HlW & HW & HV).
  exists (bin_words d z i S). split_and!; [apply bin_words_digits; (done || lia)|done|].
  assert (n = 0 <-> cut 0 d = 0) as Hn0.
  { pose proof (cut_bound 0 d Hd). split; [intros ->; change (10 ^ 0) with 1 in Hu; lia|]. intros E.
    destruct (Z.lt_ge_cases 0 n); [|lia]. specialize (Hl ltac:(lia)). assert (0 < 10 ^ (n - 1)) by (apply Z.pow_pos_nonneg; lia). lia. }
  assert (frac d = 0 <-> dsize (frac d) = 0%nat) as Hf00.
  { split; [by intros ->|]. intros E. destruct (decide (frac d = 0)); [done|]. pose proof (dsize_group (frac d) ltac:(lia)).
    destruct (group_bounds (frac d) ltac:(lia)). destruct (gb_cases (group (frac d))) as (_ & _ & Hg); [lia|]. destruct Hg; lia. }
  unfold decimal2bin. fold i. rewrite !digits_size_ok by lia. obind. rewrite Hrl. obind.
  unfold DIG_PER_DEC1. rewrite !Z.quot_div_nonneg, digits_size_ok by lia.
  assert (forall m, m - m / 9 * 9 = m mod 9) as Hmod by (intros; rewrite Z.mod_eq; lia). rewrite !Hmod.
  assert (Z.to_nat (ROUND_UP n) = iw d - z)%nat as Hkn by lia. assert (Z.to_nat (ROUND_UP (frac d)) = fw d) as HFn by lia.
  destruct (dec_seg d Hd) as [Wd _]. assert (Forall is_word (seg (buf d) (iw d) (fw d))) as Wf by (eapply seg_Forall; [exact Wd|lia|lia]).
  assert (Hbody : forall b (z' : nat) s, (z' + (iw d - z) + fw d <= length b)%nat -> seg b z' (iw d - z) = seg (buf d) z (iw d - z) ->
     seg b (z' + (iw d - z)) (fw d) = seg (buf d) (iw d) (fw d) ->
     store_body b z' n (frac d) i S (mask_of s) out = Some (E_DEC_OK, splice out 0 (bin_image i S s (bin_words d z i S)))).
  { intros b z' s Hb E1 E2. pose proof (store_body_ok b z' n (frac d) i S s out ltac:(lia) ltac:(lia) ltac:(lia)) as Hsb.
    cbv zeta in Hsb. rewrite Hkn, HFn, E1, E2 in Hsb. rewrite Hsb by (done || lia). unfold bin_image, bin_words.
    set (A := replicate (Z.to_nat (ROUND_UP i) - (iw d - z)) 0 ++ _). assert (length A = Z.to_nat (ROUND_UP i)) as HA.
    { unfold A. rewrite length_app, length_replicate, seg_length; lia. }
    rewrite take_app_le, take_ge, drop_app_ge, HA, Nat.sub_diag, drop_0 by lia. done. }
  unfold bin_sign. destruct (Z.eqb_spec (n + dsize (frac d)) 0) as [E|E].
  - assert (cut 0 d = 0) as Ec by (apply Hn0; lia). assert (frac d = 0) as Ef by (apply Hf00; lia). assert (n = 0) as En by lia.
    assert (fw d = 0%nat) as Efw by (rewrite Ef in Hfw; change (ROUND_UP 0) with 0 in Hfw; lia).
    assert (iw d - z = 0)%nat as Ek by (rewrite <- Hkn, En; done).
    rewrite (proj2 (Z.ltb_ge 1 n)) by lia. rewrite Ec, Ef. cbn [Z.eqb andb negb]. rewrite andb_false_r.
    rewrite <- (Hbody [0] 0%nat false); [|rewrite Ek, Efw; simpl; lia|by rewrite Ek|by rewrite Ek, Efw].
    unfold store_body. rewrite Ef. obind. by destruct (fill _ _ out 0) as [[? ?]|].
  - assert ((cut 0 d =? 0) && (frac d =? 0) = false) as ->.
    { apply andb_false_iff. destruct (Z.eqb_spec (cut 0 d) 0); [right|by left]. apply Z.eqb_neq. intros Ef. apply E. apply Hn0 in e. apply Hf00 in Ef. lia. }
    cbn [negb]. rewrite andb_true_r, (proj2 (Z.ltb_ge i n)) by lia.
    rewrite <- (Hbody (buf d) z (sign d)); [|lia|done|by replace (z + (iw d - z))%nat with (iw d) by lia].
    unfold store_body. obind. fold (mask_of (sign d)). by destruct (fill _ _ out 0) as [[? ?]|].
Qed.
