(* ===== verification/DecLoad.v ===== *)
(** * Fixed point numbers: reading the binary format

    bin2decimal reads what decimal2bin stores: a number survives the round
    trip, and memcmp of the stored bytes orders numbers by value. *)

From stdpp Require Import prelude list list_numbers numbers.
From Stdlib Require Import ZArith QArith Lia ZifyNat Bool.
From S2P Require Import Prelude Ctype Horner Decimal DecBin DecBase DecAdd DecSub DecArith DecInt DecProd DecBytes DecStrip DecStore.
Open Scope Z_scope.

#[local] Coercion Z.of_nat : nat >-> Z.

(** ** The fields *)

(** The first byte of a signed field has the sign. *)
Lemma be_sign (k : nat) x : - 2 ^ (8 * S k - 1) <= x < 2 ^ (8 * S k - 1) ->
  (128 <=? (x / 2 ^ (8 * k)) mod 2 ^ 8) = (x <? 0).
Proof.
  intros Hx. pose proof (pow2_8_pos k) as Hp. replace (8 * S k - 1) with (8 * k + 7) in Hx by lia.
  rewrite Z.pow_add_r in Hx by lia. change (2 ^ 7) with 128 in Hx.
  assert (-128 <= x / 2 ^ (8 * k) < 128) as Hq.
  { split; [apply Z.div_le_lower_bound; lia|apply Z.div_lt_upper_bound; lia]. }
  pose proof (Z.div_mod x (2 ^ (8 * k)) ltac:(lia)). pose proof (Z.mod_pos_bound x (2 ^ (8 * k)) Hp).
  destruct (Z.ltb_spec x 0).
  - assert (x / 2 ^ (8 * k) < 0) by (apply Z.div_lt_upper_bound; lia).
    assert ((x / 2 ^ (8 * k)) mod 2 ^ 8 = x / 2 ^ (8 * k) + 2 ^ 8) as ->; [|apply Z.leb_le; lia].
    symmetry. apply Z.mod_unique_pos with (-1); lia.
  - assert (0 <= x / 2 ^ (8 * k)) by (apply Z.div_pos; lia). rewrite Z.mod_small by lia. apply Z.leb_gt. lia.
Qed.

Lemma flip_bit c : 0 <= c < 256 -> test ((c .^ 128) .& 128) = negb (128 <=? c) /\ (c .^ 128) .^ 128 = c.
Proof.
  intros Hc. split.
  - exact (all_bytes_eq (fun c => test ((c .^ 128) .& 128)) (fun c => negb (128 <=? c)) c eq_refl Hc).
  - by rewrite Z.lxor_assoc, Z.lxor_nilpotent, Z.lxor_0_r.
Qed.

(** A masked word fits its field with its sign. *)
Lemma mask_range s (k : nat) v g : 1 <= g <= 9 -> k = gb g -> 0 <= v < 10 ^ g ->
  (1 <= k <= 4)%nat /\ - 2 ^ (8 * k - 1) <= v .^ mask_of s < 2 ^ (8 * k - 1).
Proof.
  intros Hg -> Hv. destruct (gb_cases g) as (_ & H4 & Hp); [lia|]. destruct Hp as [H1 Hp]; [lia|]. split; [lia|].
  rewrite lxor_mask. destruct s; lia.
Qed.

Lemma read_word s v r : is_word v -> mi_sint4korr (be 4 (v .^ mask_of s) ++ r) = Some (v .^ mask_of s).
Proof.
  intros Hv. destruct (mask_range s 4 v 9 ltac:(lia) eq_refl Hv) as [_ Hr]. exact (read_int_be 4 (v .^ mask_of s) r ltac:(lia) Hr).
Qed.

Lemma drop_be (k : nat) x r : drop k (be k x ++ r) = r.
Proof. rewrite <- (be_length k x) at 1. apply drop_app_length. Qed.

(** ** The loops *)

(** The words that were kept, at the start of the buffer. *)
Definition kept (b : list Z) (l : list Z) : Prop := take (length l) b = l.

Lemma kept_put b l w : kept b l -> (length l < length b)%nat ->
  put b (length l) w = Some (<[length l := w]> b) /\ kept (<[length l := w]> b) l /\ kept (<[length l := w]> b) (l ++ [w]) /\
  length (<[length l := w]> b) = length b.
Proof.
  intros Hk Hl. split_and!; [by apply put_nat|by unfold kept; rewrite take_insert_ge| |apply length_insert].
  unfold kept. rewrite length_app, Nat.add_1_r. rewrite (take_S_r _ _ w) by (by apply list_lookup_insert_eq).
  rewrite take_insert_ge by lia. by rewrite Hk.
Qed.

Lemma word_u32 v : is_word v -> (u32 v >? DIG_MAX) = false.
Proof. unfold is_digit, DIG_BASE, DIG_MAX. intros Hv. rewrite u32_small, Z.gtb_ltb by lia. apply Z.ltb_ge. unfold DIG_BASE. lia. Qed.

Lemma enc_full_cons s w ws r : enc_full s (w :: ws) ++ r = be 4 (w .^ mask_of s) ++ (enc_full s ws ++ r).
Proof. unfold enc_full. rewrite bind_cons. by rewrite app_assoc. Qed.

(** The words of the fraction. *)
Lemma read_frac_words s ws : forall r b l intg, Forall is_word ws -> kept b l -> (length l + length ws <= length b)%nat ->
  exists b', read_full (length ws) false (enc_full s ws ++ r) (mask_of s) b (length l) intg
      = Some (inr (r, b', Z.of_nat (length (l ++ ws)), intg)) /\ kept b' (l ++ ws) /\ length b' = length b.
Proof.
  induction ws as [|w ws IH]; intros r b l intg HW Hk Hl; cbn [length read_full].
  - rewrite app_nil_r. eauto.
  - simpl in Hl. pose proof (Forall_inv HW) as Ww. apply Forall_inv_tail in HW.
    rewrite enc_full_cons, read_word by done. obind. rewrite mask_involutive.
    destruct (kept_put b l w Hk ltac:(lia)) as (-> & _ & Hk' & Hlb). obind. rewrite word_u32 by done.
    unfold keep_word. cbn [negb orb]. rewrite drop_be.
    replace (Z.of_nat (length l) + 1) with (Z.of_nat (length (l ++ [w]))) by (rewrite length_app; simpl; lia).
    destruct (IH r (<[length l := w]> b) (l ++ [w]) intg) as (b' & Hr & Hkb & Hlb'); [done|done|rewrite length_app; simpl; lia|].
    rewrite Hr. exists b'. rewrite <- app_assoc in *. split_and!; [done|done|lia].
Qed.

(** The words of the integer part, without those that are zero in front. *)
Lemma read_int_words s ws : forall r b l intg, Forall is_word ws -> Forall is_word l -> kept b l ->
  (length l + length ws <= length b)%nat -> 0 <= intg -> ROUND_UP intg = (length l + length ws)%nat ->
  (l = [] -> intg = 9 * length ws) ->
  exists b' l' intg', read_full (length ws) true (enc_full s ws ++ r) (mask_of s) b (length l) intg
      = Some (inr (r, b', Z.of_nat (length l'), intg')) /\ kept b' l' /\ length b' = length b /\
    Forall is_word l' /\ wordsval l' = wordsval (l ++ ws) /\ 0 <= intg' /\ ROUND_UP intg' = length l' /\ (length l' <= length l + length ws)%nat.
Proof.
  induction ws as [|w ws IH]; intros r b l intg HW HWl Hk Hl Hi Hr H0; cbn [length read_full].
  - exists b, l, intg. rewrite app_nil_r. split_and!; (done || simpl in *; lia).
  - simpl in Hl, Hr. pose proof (Forall_inv HW) as Ww. apply Forall_inv_tail in HW.
    rewrite enc_full_cons, read_word by done. obind. rewrite mask_involutive.
    destruct (kept_put b l w Hk ltac:(lia)) as (-> & Hk0 & Hk' & Hlb). obind. rewrite word_u32 by done.
    unfold keep_word. cbn [negb orb]. rewrite drop_be, Z.gtb_ltb. unfold DIG_PER_DEC1.
    destruct (decide (l = [] /\ w = 0)) as [[-> ->]|Hne].
    + cbn [length Z.of_nat]. rewrite Z.ltb_irrefl. cbn [Z.eqb negb orb]. specialize (H0 eq_refl). cbn [length] in *.
      destruct (IH r (<[0%nat := 0]> b) [] (intg - 9)) as (b' & l' & intg' & Hrd & Hkb & Hlb' & Hwl & Hv & Hi' & Hr' & Hle);
        try (done || simpl; lia).
      { simpl. replace (intg - 9) with (length ws * 9) by lia. rewrite round_up_words by lia. lia. }
      cbn [length Z.of_nat] in Hrd. rewrite Hrd. exists b', l', intg'. cbn [app horner length] in *. split_and!; try (done || lia).
    + assert ((0 <? Z.of_nat (length l)) || negb (w =? 0) = true) as ->.
      { apply orb_true_iff. destruct l as [|y l]; [right|left; apply Z.ltb_lt; simpl; lia].
        destruct (Z.eqb_spec w 0) as [->|]; [destruct Hne; by split|done]. }
      replace (Z.of_nat (length l) + 1) with (Z.of_nat (length (l ++ [w]))) by (rewrite length_app; simpl; lia).
      destruct (IH r (<[length l := w]> b) (l ++ [w]) intg) as (b' & l' & intg' & Hrd & Hkb & Hlb' & Hwl & Hv & Hi' & Hr' & Hle);
        try (done || (rewrite ?length_app; simpl; lia)); [by apply Forall_snoc_1|intros E; by destruct l|].
      rewrite Hrd. exists b', l', intg'. rewrite <- app_assoc in Hv. rewrite length_app in Hle. simpl in Hle |- *. split_and!; (done || lia).
Qed.

(** ** The digits of the words *)

Lemma digits_split i S W : digits_of i S W ->
  let k := Z.to_nat (ROUND_UP i) in
  length (take k W) = k /\ length (drop k W) = Z.to_nat (ROUND_UP S) /\ Forall is_word (take k W) /\ Forall is_word (drop k W).
Proof.
  intros [Hl HW _ _] k. rewrite length_take, length_drop. split_and!; [lia|lia|by apply Forall_take|by apply Forall_drop].
Qed.

Lemma digits_first i S W : 0 <= i -> digits_of i S W -> fits_first i (take (Z.to_nat (ROUND_UP i)) W).
Proof.
  intros Hi HD. destruct (digits_split i S W HD) as (Hlt & Hld & HWt & HWd). destruct HD as [Hl HW Hv _].
  rewrite <- (take_drop (Z.to_nat (ROUND_UP i)) W) in Hv. rewrite horner_app, Hld in Hv by done.
  pose proof (horner_bound DIG_BASE base_ge2 _ HWd) as Hb. pose proof (bpow_pos (Z.to_nat (ROUND_UP S))).
  destruct (take (Z.to_nat (ROUND_UP i)) W) as [|w ws]; [done|]. cbn [fits_first length] in *.
  pose proof (Forall_inv HWt) as Ww. unfold is_digit in Ww. split; [lia|].
  pose proof (first_word_bound w ws HWt) as Hw. rewrite base_pow10 in Hw.
  pose proof (round_up_bounds i Hi). destruct (group_bounds i ltac:(lia)) as [Hg Hr].
  assert (i = 9 * length ws + group i) as E by lia. assert (wordsval (w :: ws) < 10 ^ i) as Hlt' by nia.
  rewrite E, Z.pow_add_r in Hlt' by lia. assert (0 < 10 ^ (9 * length ws)) by (apply Z.pow_pos_nonneg; lia). nia.
Qed.

(** The digits behind the point that are not stored are zero. *)
Lemma digits_last i S W w : 0 <= S -> S mod 9 <> 0 -> digits_of i S W -> list.last W = Some w ->
  (10 ^ (9 - S mod 9) | w).
Proof.
  intros HS Hm [_ _ _ Hd] Hw. apply last_Some in Hw as [V ->]. rewrite horner_snoc in Hd.
  rewrite round_up_split, (proj2 (Z.eqb_neq _ _)) in Hd by done.
  replace (9 * (S / 9 + 1) - S) with (9 - S mod 9) in Hd by zdiv.
  apply (Z.divide_add_cancel_r _ (wordsval V * DIG_BASE)); [|done]. apply Z.divide_mul_r.
  exists (10 ^ (S mod 9)). rewrite <- Z.pow_add_r by zdiv. replace (S mod 9 + (9 - S mod 9)) with 9 by lia. done.
Qed.

(** The first byte is not part of a number with another sign. *)
Lemma enc_sign i S s W : 0 <= i -> 0 <= S -> 0 < i + S -> digits_of i S W ->
  exists c L, enc_int i s (take (Z.to_nat (ROUND_UP i)) W) ++ enc_frac S s (drop (Z.to_nat (ROUND_UP i)) W) = c :: L /\
    0 <= c < 256 /\ (128 <=? c) = s.
Proof.
  intros Hi HS Hp HD. destruct (digits_split i S W HD) as (Hlt & Hld & HWt & HWd). pose proof (digits_first i S W Hi HD) as Hf.
  assert (forall g v r, 1 <= g <= 9 -> 0 <= v < 10 ^ g -> exists c L, be (gb g) (v .^ mask_of s) ++ r = c :: L /\ 0 <= c < 256 /\ (128 <=? c) = s) as Hbe.
  { intros g v r Hg Hv. destruct (mask_range s (gb g) v g Hg eq_refl Hv) as [Hk Hr]. destruct (gb g) as [|k]; [lia|].
    eexists _, _. split; [cbn; reflexivity|]. split; [by apply Z.mod_pos_bound|]. rewrite be_sign by done. rewrite lxor_mask.
    destruct s; [apply Z.ltb_lt; lia|apply Z.ltb_ge; lia]. }
  pose proof (round_up_split i Hi) as Hri. pose proof (round_up_split S HS) as Hrs.
  pose proof (round_up_bounds i Hi). pose proof (round_up_bounds S HS). destruct (decide (0 < i)) as [Hi0|Hi0].
  - destruct (take _ W) as [|w ws]; [simpl in Hlt; lia|]. cbn [enc_int fits_first] in *. rewrite <- app_assoc. apply Hbe; [|done].
    apply group_bounds. lia.
  - assert (i = 0) as -> by lia. destruct (take _ W) as [|? ?]; [|simpl in Hlt; lia]. cbn [enc_int app].
    destruct (drop _ W) as [|w ws]; [simpl in Hld; lia|]. pose proof (Forall_inv HWd) as Ww. unfold is_digit in Ww. unfold enc_frac.
    destruct (Z.to_nat (S / 9)) as [|n] eqn:En.
    + assert (S mod 9 <> 0) as Hm by zdiv. rewrite (proj2 (Z.eqb_neq _ _)) by done. cbn [firstn lookup list_lookup default from_option id].
      change (enc_full s []) with (@nil Z). cbn [app]. rewrite <- (app_nil_r (be _ _)). apply Hbe; [zdiv|].
      split; [apply Z.div_pos; [lia|apply Z.pow_pos_nonneg; zdiv]|]. apply Z.div_lt_upper_bound; [apply Z.pow_pos_nonneg; zdiv|].
      rewrite <- Z.pow_add_r by zdiv. replace (9 - S mod 9 + S mod 9) with 9 by lia. apply Ww.
    + cbn [firstn]. rewrite enc_full_cons. apply (Hbe 9); [lia|done].
Qed.

(** ** bin2decimal *)

(** The first word, of fewer than nine digits. *)
Lemma read_first_ok i s W r b : 0 <= i -> length W = Z.to_nat (ROUND_UP i) -> Forall is_word W -> fits_first i W -> (0 < length b)%nat ->
  exists b' l intg W', read_first (i mod 9) (enc_int i s W ++ r) (mask_of s) b i
      = Some (inr (enc_full s W' ++ r, b', Z.of_nat (length l), intg)) /\ kept b' l /\ length b' = length b /\
    length W' = Z.to_nat (i / 9) /\ Forall is_word W' /\ Forall is_word l /\ (length l <= length W - length W')%nat /\
    wordsval (l ++ W') = wordsval W /\ 0 <= intg /\ ROUND_UP intg = (length l + length W')%nat /\ (l = [] -> intg = 9 * length W').
Proof.
  intros Hi Hl HW Hf Hb. unfold read_first. pose proof (round_up_split i Hi) as Hr. pose proof (Z.div_pos i 9 Hi ltac:(lia)).
  destruct (Z.eqb_spec (i mod 9) 0) as [E|E]; cbn [negb].
  - exists b, [], i, W. assert (enc_int i s W = enc_full s W) as ->.
    { destruct W as [|w ws]; [done|]. assert (0 < i) by (destruct (decide (i = 0)) as [->|]; [done|lia]). unfold enc_full. rewrite bind_cons.
      cbn [enc_int]. by assert (group i = 9) as -> by (unfold group; zdiv). }
    cbn [length app]. split_and!; (done || lia || (intros _; rewrite Hl; zdiv)).
  - destruct W as [|w ws]; [simpl in Hl; lia|]. cbn [enc_int fits_first] in *. pose proof (Forall_inv HW) as Ww. apply Forall_inv_tail in HW.
    assert (group i = i mod 9) as Eg by (unfold group; zdiv). rewrite Eg in *. assert (0 <= i mod 9 < 9) as Hm by zdiv.
    destruct (mask_range s (gb (i mod 9)) w (i mod 9) ltac:(lia) eq_refl Hf) as [Hk Hrg].
    destruct (gb_cases (i mod 9)) as (-> & _); [lia|]. obind. rewrite <- app_assoc, read_int_be by done. obind. rewrite mask_involutive.
    destruct (kept_put b [] w) as (Hput & Hk0 & Hk1 & Hlb); [done|simpl; lia|]. cbn [length] in *. change (Z.of_nat 0) with 0 in Hput. rewrite Hput. obind.
    rewrite pow10_lookup by lia. obind. assert (10 ^ (i mod 9) <= 10 ^ (i mod 9 + 1)) by (apply Z.pow_le_mono_r; lia).
    assert (is_word w) as [Hw0 Hw1] by done. unfold DIG_BASE in Hw1.
    rewrite u64_small, Z.geb_leb, (proj2 (Z.leb_gt _ _)) by lia. unfold keep_word. cbn [negb orb]. rewrite Z.gtb_ltb, Z.ltb_irrefl.
    rewrite Nat2Z.id, drop_be. cbn [orb]. destruct (Z.eqb_spec w 0) as [->|Hne]; cbn [negb].
    + exists (<[0%nat := 0]> b), [], (i - i mod 9), ws. cbn [length app horner]. cbn [length] in Hl.
      split_and!; try (done || lia).
      replace (i - i mod 9) with (i / 9 * 9) by zdiv. rewrite round_up_words by lia. lia.
    + exists (<[0%nat := w]> b), [w], i, ws. cbn [length app] in *. split_and!; try (done || lia). by repeat constructor.
Qed.

(** The last word, of fewer than nine digits. *)
Lemma read_last_ok S s W (l b : list Z) r : 0 <= S -> length W = Z.to_nat (ROUND_UP S) -> Forall is_word W ->
  (S mod 9 <> 0 -> forall w, list.last W = Some w -> (10 ^ (9 - S mod 9) | w)) ->
  let W' := take (Z.to_nat (S / 9)) W in
  kept b (l ++ W') -> (length l + length W <= length b)%nat ->
  exists b', read_last (S mod 9) (drop (length (enc_full s W')) (enc_frac S s W) ++ r) (mask_of s) b (length (l ++ W')) = Some (inr b') /\
    kept b' (l ++ W) /\ length b' = length b.
Proof.
  intros HS Hl HW Hd W' Hk Hb. unfold read_last, enc_frac. pose proof (round_up_split S HS) as Hr. pose proof (Z.div_pos S 9 HS ltac:(lia)).
  fold W'. rewrite drop_app_length. destruct (Z.eqb_spec (S mod 9) 0) as [E|E]; cbn [negb].
  - exists b. split_and!; [done| |done]. unfold W' in Hk. by rewrite take_ge in Hk by lia.
  - specialize (Hd E). destruct (lookup_lt_is_Some_2 W (Z.to_nat (S / 9))) as [w Hw]; [lia|].
    assert (W = W' ++ [w]) as EW.
    { unfold W'. rewrite <- (take_S_r _ _ w) by done. symmetry. apply take_ge. lia. }
    rewrite Hw. cbn [default from_option id]. assert (0 <= S mod 9 < 9) as Hm by zdiv.
    assert (is_word w) as Ww by (rewrite EW in HW; apply Forall_app in HW as [_ HW]; by apply Forall_inv in HW).
    assert (0 < 10 ^ (9 - S mod 9)) as Hp by (apply Z.pow_pos_nonneg; lia).
    destruct (Hd w) as [v Hv]; [rewrite EW; apply last_snoc|]. rewrite Hv, Z.div_mul by lia.
    assert (0 <= v < 10 ^ (S mod 9)) as Hvr.
    { unfold is_digit in Ww. rewrite Hv in Ww. split; [nia|]. apply (Z.mul_lt_mono_pos_r (10 ^ (9 - S mod 9))); [done|].
      rewrite <- Z.pow_add_r by lia. replace (S mod 9 + (9 - S mod 9)) with 9 by lia. apply Ww. }
    destruct (mask_range s (gb (S mod 9)) v (S mod 9) ltac:(lia) eq_refl Hvr) as [Hk4 Hrg].
    destruct (gb_cases (S mod 9)) as (-> & _); [lia|]. obind. rewrite read_int_be by done. obind. unfold DIG_PER_DEC1.
    rewrite pow10_lookup by lia. obind. rewrite mask_involutive, <- Hv.
    rewrite s32_small by (unfold is_digit, DIG_BASE in Ww; lia).
    destruct (kept_put b (l ++ W') w Hk) as (-> & _ & Hk' & Hlb).
    { rewrite length_app. assert (length W = Datatypes.S (length W'))%nat by (rewrite EW at 1; rewrite length_app; simpl; lia). lia. }
    obind. rewrite word_u32 by done. eexists. split; [reflexivity|]. rewrite <- app_assoc, <- EW in Hk'. by split.
Qed.

Lemma bin_size_ok i S precision : precision = i + S -> 0 <= i -> 0 <= S -> decimal_bin_size precision S = Some (Z.of_nat (dsize i + dsize S)).
Proof.
  intros -> Hi HS. unfold decimal_bin_size. replace (i + S - S) with i by lia. rewrite !digits_size_ok by done. obind. f_equal. lia.
Qed.

(** The number that is read: the value of the words [W] with the sign [s]. *)
Definition loaded (S : Z) (s : bool) (W : list Z) (to to' : decimal_t) : Prop :=
  dec_ok to' /\ len to' = len to /\ (dval to' == signed s (wordsval W) # bpos (Z.to_nat (ROUND_UP S)))%Q.

Lemma mk_kept_ok S s (l Wf b : list Z) intg W to : 0 <= S -> len to = length b -> (length l + length Wf <= length b)%nat -> 0 < intg + S ->
  kept b (l ++ Wf) -> Forall is_word (l ++ Wf) -> length Wf = Z.to_nat (ROUND_UP S) -> wordsval (l ++ Wf) = wordsval W ->
  0 <= intg -> ROUND_UP intg = length l -> loaded S s W to (mk_dec intg S (len to) s b).
Proof.
  intros HS Hlen Hl Hp Hk HW HlW Hv Hi Hr. set (d := mk_dec intg S (len to) s b).
  assert (iw d = length l) as Ei by (unfold iw; simpl; lia). assert (fw d = length Wf) as Ef by done.
  assert (dwords d = l ++ Wf) as Ed by (unfold dwords; rewrite Ei, Ef, <- length_app; exact Hk).
  split_and!; [split; simpl; try (done || lia); by rewrite Ed|done|].
  unfold dval, dnum, mag. by rewrite Ed, Hv.
Qed.

Lemma bin2decimal_end S s (l Wf b : list Z) intg W to : 0 <= S -> len to = length b -> (length l + length Wf <= length b)%nat -> (0 < length b)%nat ->
  kept b (l ++ Wf) -> Forall is_word (l ++ Wf) -> length Wf = Z.to_nat (ROUND_UP S) -> wordsval (l ++ Wf) = wordsval W ->
  0 <= intg -> ROUND_UP intg = length l ->
  exists to', (if (intg =? 0) && (S =? 0) then to ← decimal_make_zero (mk_dec intg S (len to) s b); Some (E_DEC_OK, to)
               else Some (E_DEC_OK, mk_dec intg S (len to) s b)) = Some (E_DEC_OK, to') /\ loaded S s W to to'.
Proof.
  intros HS Hlen Hl Hb Hk HW HlW Hv Hi Hr. pose proof (round_up_bounds intg Hi).
  destruct (decide (0 < intg + S)) as [Hp|Hp].
  - assert ((intg =? 0) && (S =? 0) = false) as ->.
    { apply andb_false_iff. destruct (Z.eqb_spec intg 0); [right; apply Z.eqb_neq; lia|by left]. }
    eexists. split; [reflexivity|]. by apply (mk_kept_ok S s l Wf).
  - assert (intg = 0) as -> by lia. assert (S = 0) as -> by lia. cbn [Z.eqb andb].
    destruct (make_zero_ok (mk_dec 0 0 (len to) s b)) as (to' & -> & Hok & Hl' & Hs & Hfw & _ & _ & Hm); [split; simpl; lia|].
    obind. exists to'. split; [done|]. split_and!; [done|done|]. unfold dval, dnum. rewrite Hm, Hs, Hfw, <- Hv.
    change (ROUND_UP 0) with 0 in *. destruct l; [|simpl in Hr; lia]. destruct Wf; [|simpl in HlW; lia]. by destruct s.
Qed.

Lemma bin2decimal_ok i S s W r to precision : precision = i + S -> 0 <= i -> 0 <= S -> 0 < i + S -> digits_of i S W ->
  dest_ok to -> ROUND_UP i + ROUND_UP S <= len to ->
  exists to', bin2decimal (bin_image i S s W ++ r) to precision S = Some (E_DEC_OK, to') /\ loaded S s W to to'.
Proof.
  intros Hpr Hi HS Hp HD [Hl0 Hlen] Hroom. pose proof (bin_size_ok i S precision Hpr Hi HS) as Hsz.
  destruct (digits_split i S W HD) as (Hlt & Hld & HWt & HWd). pose proof (digits_first i S W Hi HD) as Hff.
  destruct (enc_sign i S s W Hi HS Hp HD) as (c & L & HcL & Hc & Hcs). unfold bin_image. cbv zeta.
  pose proof (round_up_bounds i Hi). pose proof (round_up_bounds S HS). pose proof (do_length _ _ _ HD) as HlW.
  assert (length (c :: L) = dsize i + dsize S)%nat as HLl.
  { rewrite <- HcL, length_app, enc_int_length, enc_frac_length by (done || lia). done. }
  pose proof (HcL) as HcL'. set (k := Z.to_nat (ROUND_UP i)) in *. rewrite HcL. cbn [flip_first].
  unfold bin2decimal. replace (precision - S) with i by lia. unfold DIG_PER_DEC1. rewrite !Z.quot_div_nonneg by lia.
  assert (forall m, m - m / 9 * 9 = m mod 9) as Hmod by (intros; rewrite Z.mod_eq; lia). rewrite !Hmod.
  destruct (flip_bit c Hc) as [Hf1 Hf2]. cbn [app]. change (get ((c .^ 128) :: L ++ r) 0) with (Some (c .^ 128)). obind.
  rewrite Hf1, Hcs, Hsz. obind.
  assert ((if negb s then 0 else -1) = mask_of s) as -> by (by destruct s).
  rewrite (proj2 (Z.leb_le _ _)) by (rewrite <- HLl; cbn [length]; rewrite length_app; lia).
  rewrite Nat2Z.id, <- HLl. cbn [length take firstn]. rewrite (take_app_length L r).
  rewrite Hf2. change (put ((c .^ 128) :: L) 0 c) with (Some (c :: L)). obind. rewrite <- HcL.
  pose proof (round_up_split i Hi) as Hri. pose proof (round_up_split S HS) as Hrs. pose proof (Z.div_pos i 9 Hi ltac:(lia)). pose proof (Z.div_pos S 9 HS ltac:(lia)).
  assert (forall m, 0 <= m -> m / 9 + b2z (m mod 9 >? 0) = ROUND_UP m) as Hb2.
  { intros m Hm. rewrite round_up_split, Z.gtb_ltb by done. destruct (Z.ltb_spec 0 (m mod 9)), (Z.eqb_spec (m mod 9) 0); simpl; zdiv. }
  rewrite !Hb2 by done. unfold FIX_INTG_FRAC_ERROR. rewrite Z.gtb_ltb, (proj2 (Z.ltb_ge _ _)) by lia. cbn [Z.eqb negb E_DEC_OK]. obind.
  assert (forall m, m / 9 * 9 + m mod 9 = m) as Hdm by (intros; rewrite Z.mod_eq; lia). rewrite !Hdm.
  assert (negb (mask_of s =? 0) = s) as -> by (by destruct s). cbn [buf intg].
  destruct (read_first_ok i s (take k W) (enc_frac S s (drop k W)) (buf to)) as (b1 & l1 & intg1 & W1 & -> & Hk1 & Hlb1 & HlW1 & HW1 & Hwl1 & Hle1 & Hv1 & Hi1 & Hr1 & Hn1);
    try (done || lia). obind.
  rewrite <- HlW1.
  destruct (read_int_words s W1 (enc_frac S s (drop k W)) b1 l1 intg1) as (b2 & l2 & intg2 & -> & Hk2 & Hlb2 & Hwl2 & Hv2 & Hi2 & Hr2 & Hle2);
    try (done || lia). obind.
  set (Wf := drop k W) in *. set (W' := take (Z.to_nat (S / 9)) Wf).
  assert (enc_frac S s Wf = enc_full s W' ++ (drop (length (enc_full s W')) (enc_frac S s Wf) ++ [])) as Henc.
  { rewrite app_nil_r. unfold enc_frac. fold W'. by rewrite drop_app_length. }
  rewrite Henc. assert (length W' = Z.to_nat (S / 9)) as HlW'.
  { unfold W'. rewrite length_take_le; [done|]. rewrite Hld, Hrs. destruct (_ =? 0); lia. }
  assert (Z.to_nat (S / 9) <= length Wf)%nat as HleW by (unfold W' in HlW'; rewrite length_take in HlW'; lia).
  rewrite <- HlW'.
  destruct (read_frac_words s W' (drop (length (enc_full s W')) (enc_frac S s Wf) ++ []) b2 l2 intg2) as (b3 & -> & Hk3 & Hlb3);
    [by apply Forall_take|done|lia|]. obind.
  destruct (read_last_ok S s Wf l2 b3 []) as (b4 & Hrl & Hk4 & Hlb4); try (done || lia).
  { intros Hm w Hw. apply (digits_last i S W); try done. rewrite <- (take_drop k W), last_app. fold Wf. by rewrite Hw. }
  fold W' in Hrl. rewrite Hrl. obind. cbn [set_buf set_intg frac sign len buf intg].
  destruct (bin2decimal_end S s l2 Wf b4 intg2 W to) as (to' & He & Hld'); try (done || lia).
  - by apply Forall_app.
  - rewrite horner_app by done. rewrite Hv2, Hv1, <- horner_app by done. unfold Wf. by rewrite take_drop.
  - exists to'. by split.
Qed.
