(* ===== verification/DecOrder.v ===== *)
(** * Fixed point numbers: the binary format of columns

    What the storage of decimal columns relies on: decimal2bin and bin2decimal
    are inverse to each other, and memcmp of two stored numbers orders them by
    value. *)

From stdpp Require Import prelude list list_numbers numbers.
From Stdlib Require Import ZArith QArith Lia ZifyNat Bool.
From S2P Require Import Prelude Ctype Horner Decimal DecBin DecBase DecAdd DecSub DecArith DecInt DecProd DecBytes DecStrip DecStore DecLoad.
Open Scope Z_scope.

#[local] Coercion Z.of_nat : nat >-> Z.

(** ** The round trip *)

(** A number that a column with [precision] digits, [S] of them behind the
    point, can hold. *)
Record column_fits (d : decimal_t) (precision S : Z) : Prop := {
  cf_scale : 0 <= S <= precision;
  cf_some : 0 < precision;
  cf_intg : cut 0 d < 10 ^ (precision - S);
  cf_frac : frac d <= S
}.

Lemma bin_sign_value d n : dec_ok d -> (fw d <= n)%nat -> signed (bin_sign d) (cut n d) = signed (sign d) (cut n d).
Proof.
  intros Hd Hn. unfold bin_sign. destruct (Z.eqb_spec (cut 0 d) 0) as [E|E]; [|by rewrite andb_true_r].
  destruct (Z.eqb_spec (frac d) 0) as [Ef|Ef]; cbn [andb negb]; [|by rewrite andb_true_r]. rewrite andb_false_r.
  assert (fw d = 0%nat) as Ew by (unfold fw; by rewrite Ef).
  assert (cut n d = 0) as ->; [|by destruct (sign d)].
  pose proof (cut_close 0 n d Hd ltac:(lia) Hn) as Hc. rewrite (cut_exact 0) in E by lia. rewrite Ew, Nat.sub_diag, Z.mul_1_r in E.
  rewrite cut_exact by done. lia.
Qed.

(** C29. decimal2bin stores a number that the column can hold without an error,
    and bin2decimal reads the same number back. *)
Theorem decimal_bin_roundtrip d out to precision S :
  dec_ok d -> tight d -> column_fits d precision S -> (dsize (precision - S) + dsize S <= length out)%nat ->
  dest_ok to -> ROUND_UP (precision - S) + ROUND_UP S <= len to ->
  exists bytes to', decimal2bin d out precision S = Some (E_DEC_OK, bytes) /\
    bin2decimal bytes to precision S = Some (E_DEC_OK, to') /\ dec_ok to' /\ (dval to' == dval d)%Q.
Proof.
  intros Hd Ht [HS Hp Hi Hf] Hout Hto Hroom.
  destruct (decimal2bin_ok d out precision S Hd Ht HS Hp Hi Hf Hout) as (W & HD & HV & ->).
  eexists. destruct (bin2decimal_ok (precision - S) S (bin_sign d) W (drop (0 + length (bin_image (precision - S) S (bin_sign d) W)) out) to precision)
    as (to' & Hb & Hok & _ & Hv); try (done || lia).
  exists to'. split_and!; [done|exact Hb|done|].
  pose proof (ok_frac d Hd). pose proof (round_up_mono (frac d) S ltac:(lia)). pose proof (Z_fw d Hd).
  rewrite Hv, HV, bin_sign_value by (done || lia). rewrite <- dval_cut by lia. done.
Qed.

(** ** The order *)

Definition dir (s : bool) (c : comparison) : comparison := if s then CompOpp c else c.

Lemma dir_then s a b : dir s (then_cmp a b) = then_cmp (dir s a) (dir s b).
Proof. by destruct s, a. Qed.

Lemma be_mask_cmp s (k : nat) v w : 0 <= v < 2 ^ (8 * k) -> 0 <= w < 2 ^ (8 * k) ->
  bytes_cmp (be k (v .^ mask_of s)) (be k (w .^ mask_of s)) = dir s (v ?= w).
Proof.
  intros Hv Hw. rewrite be_cmp, !lxor_mask. destruct s; simpl dir; [|by rewrite !Z.mod_small by done].
  assert (forall x, 0 <= x < 2 ^ (8 * k) -> (- x - 1) mod 2 ^ (8 * k) = 2 ^ (8 * k) - 1 - x) as Hm.
  { intros x Hx. symmetry. apply Z.mod_unique_pos with (-1); lia. }
  rewrite !Hm, <- Z.compare_antisym by done. destruct (Z.compare_spec w v) as [->|H|H]; [by rewrite Z.compare_refl| |].
  - apply Z.compare_lt_iff. lia.
  - apply Z.compare_gt_iff. lia.
Qed.

(** Numbers that are written in two parts. *)
Lemma horner_cmp_app a a' b b' : Forall is_word b -> Forall is_word b' -> length b = length b' ->
  (wordsval (a ++ b) ?= wordsval (a' ++ b')) = then_cmp (wordsval a ?= wordsval a') (wordsval b ?= wordsval b').
Proof.
  intros Hb Hb' Hl. rewrite !horner_app, Hl by done. pose proof (horner_bound DIG_BASE base_ge2 b Hb) as B. rewrite Hl in B.
  pose proof (horner_bound DIG_BASE base_ge2 b' Hb') as B'. destruct (Z.compare_spec (wordsval a) (wordsval a')) as [->|H|H].
  - apply Z.add_compare_mono_l.
  - apply Z.compare_lt_iff. nia.
  - apply Z.compare_gt_iff. nia.
Qed.

Lemma word_field w : is_word w -> 0 <= w < 2 ^ (8 * 4%nat).
Proof. unfold is_digit, DIG_BASE. lia. Qed.

Lemma enc_full_cmp s a : forall a', Forall is_word a -> Forall is_word a' -> length a = length a' ->
  bytes_cmp (enc_full s a) (enc_full s a') = dir s (wordsval a ?= wordsval a').
Proof.
  induction a as [|x a IH]; intros [|y a'] Ha Ha' Hl; try done; [by destruct s|]. simpl in Hl.
  change (x :: a) with ([x] ++ a). change (y :: a') with ([y] ++ a'). rewrite horner_cmp_app by (try (by eapply Forall_inv_tail); lia).
  rewrite !enc_full_app, bytes_cmp_app by (by rewrite !enc_full_length). rewrite dir_then, IH by (try (by eapply Forall_inv_tail); lia).
  assert (bytes_cmp (enc_full s [x]) (enc_full s [y]) = dir s (wordsval [x] ?= wordsval [y])) as ->; [|done].
  unfold enc_full. cbn [mbind list_bind]. rewrite !app_nil_r, be_mask_cmp by (apply word_field; by eapply Forall_inv).
  cbn [horner length]. by rewrite !Z.mul_1_r, !Z.add_0_r.
Qed.

Lemma gb_field g v : 1 <= g <= 9 -> 0 <= v < 10 ^ g -> 0 <= v < 2 ^ (8 * gb g).
Proof.
  intros Hg Hv. destruct (gb_cases g) as (_ & _ & Hp); [lia|]. destruct Hp as [H1 Hp]; [lia|].
  pose proof (Z.pow_le_mono_r 2 (8 * gb g - 1) (8 * gb g) ltac:(lia) ltac:(lia)). lia.
Qed.

Lemma enc_int_cmp s i a a' : 0 <= i -> Forall is_word a -> Forall is_word a' -> length a = Z.to_nat (ROUND_UP i) -> length a' = length a ->
  fits_first i a -> fits_first i a' -> bytes_cmp (enc_int i s a) (enc_int i s a') = dir s (wordsval a ?= wordsval a').
Proof.
  intros Hi Ha Ha' Hl Hl' Hf Hf'. destruct a as [|x a], a' as [|y a']; try done; [by destruct s|]. cbn [enc_int fits_first length] in *.
  pose proof (round_up_bounds i Hi). destruct (group_bounds i ltac:(lia)) as [Hg _].
  rewrite bytes_cmp_app by (by rewrite !be_length). rewrite be_mask_cmp by (by apply gb_field).
  change (x :: a) with ([x] ++ a). change (y :: a') with ([y] ++ a'). rewrite horner_cmp_app by (try (by eapply Forall_inv_tail); lia).
  rewrite dir_then, enc_full_cmp by (try (by eapply Forall_inv_tail); lia). cbn [horner length]. by rewrite !Z.mul_1_r, !Z.add_0_r.
Qed.

(** The last word of a fraction. *)
Lemma frac_last S (a : list Z) : 0 <= S -> S mod 9 <> 0 -> length a = Z.to_nat (ROUND_UP S) ->
  exists p w, a = p ++ [w] /\ length p = Z.to_nat (S / 9).
Proof.
  intros HS Hm Hl. pose proof (round_up_split S HS) as Hr. rewrite (proj2 (Z.eqb_neq _ _)) in Hr by done.
  pose proof (Z.div_pos S 9 HS ltac:(lia)). destruct (lookup_lt_is_Some_2 a (Z.to_nat (S / 9))) as [w Hw]; [lia|].
  exists (take (Z.to_nat (S / 9)) a), w. rewrite <- (take_S_r _ _ w) by done. split; [symmetry; apply take_ge; lia|apply length_take_le; lia].
Qed.

Lemma enc_frac_cmp s S a a' : 0 <= S -> Forall is_word a -> Forall is_word a' -> length a = Z.to_nat (ROUND_UP S) -> length a' = length a ->
  (S mod 9 <> 0 -> forall w, list.last a = Some w -> (10 ^ (9 - S mod 9) | w)) ->
  (S mod 9 <> 0 -> forall w, list.last a' = Some w -> (10 ^ (9 - S mod 9) | w)) ->
  bytes_cmp (enc_frac S s a) (enc_frac S s a') = dir s (wordsval a ?= wordsval a').
Proof.
  intros HS Ha Ha' Hl Hl' Hd Hd'. unfold enc_frac. pose proof (round_up_split S HS) as Hr. pose proof (Z.div_pos S 9 HS ltac:(lia)).
  destruct (Z.eqb_spec (S mod 9) 0) as [E|E].
  - rewrite !app_nil_r, !take_ge by lia. by apply enc_full_cmp.
  - destruct (frac_last S a HS E Hl) as (p & w & -> & Hq), (frac_last S a' HS E ltac:(lia)) as (p' & w' & -> & Hq').
    rewrite <- Hq, take_app_length, lookup_app_r, Nat.sub_diag by lia. rewrite Hq, <- Hq', take_app_length, lookup_app_r, Nat.sub_diag by lia.
    cbn [lookup list_lookup default from_option id].
    destruct (Hd E w) as [v Hv]; [apply last_snoc|]. destruct (Hd' E w') as [v' Hv']; [apply last_snoc|].
    apply Forall_app in Ha as [Ha Hww], Ha' as [Ha' Hww'].
    rewrite horner_cmp_app, dir_then by done. rewrite bytes_cmp_app, enc_full_cmp by (rewrite ?enc_full_length; (done || lia)). f_equal.
    apply Forall_inv in Hww, Hww'. assert (0 <= S mod 9 < 9) as Hm by zdiv. assert (0 < 10 ^ (9 - S mod 9)) as Hp by (apply Z.pow_pos_nonneg; lia).
    assert (forall x, is_word (x * 10 ^ (9 - S mod 9)) -> 0 <= x < 10 ^ (S mod 9)) as Hx.
    { intros x Hx. unfold is_digit in Hx. split; [nia|]. apply (Z.mul_lt_mono_pos_r (10 ^ (9 - S mod 9))); [done|].
      rewrite <- Z.pow_add_r by lia. replace (S mod 9 + (9 - S mod 9)) with 9 by lia. apply Hx. }
    rewrite Hv, Hv' in *. rewrite !Z.div_mul by lia. rewrite be_mask_cmp by (apply gb_field; [lia|by apply Hx]).
    cbn [horner length]. rewrite !Z.mul_1_r, !Z.add_0_r. f_equal. by rewrite <- Zmult_compare_compat_r by lia.
Qed.

Lemma bin_image_length i S s W : 0 <= i -> 0 <= S -> digits_of i S W -> length (bin_image i S s W) = (dsize i + dsize S)%nat.
Proof.
  intros Hi HS HD. destruct (digits_split i S W HD) as (Hlt & Hld & _). unfold bin_image. cbv zeta.
  rewrite <- (enc_int_length i s _ Hi Hlt), <- (enc_frac_length S s _ HS Hld), <- length_app. by destruct (_ ++ _).
Qed.

Lemma flip_cmp c c' : 0 <= c < 256 -> 0 <= c' < 256 ->
  (c .^ 128 ?= c' .^ 128) = if Bool.eqb (128 <=? c) (128 <=? c') then c ?= c' else if 128 <=? c then Lt else Gt.
Proof.
  intros Hc Hc'. assert (forall c, 0 <= c < 256 -> c .^ 128 = if 128 <=? c then c - 128 else c + 128) as Hx.
  { clear. intros c Hc. apply Z.eqb_eq. exact (all_bytes_spec (fun c => c .^ 128 =? (if 128 <=? c then c - 128 else c + 128)) c eq_refl Hc). }
  rewrite !Hx by done. destruct (Z.leb_spec 128 c), (Z.leb_spec 128 c'); cbn [Bool.eqb].
  - destruct (Z.compare_spec c c') as [->|H'|H']; [apply Z.compare_refl|apply Z.compare_lt_iff; lia|apply Z.compare_gt_iff; lia].
  - apply Z.compare_lt_iff. lia.
  - apply Z.compare_gt_iff. lia.
  - destruct (Z.compare_spec c c') as [->|H'|H']; [apply Z.compare_refl|apply Z.compare_lt_iff; lia|apply Z.compare_gt_iff; lia].
Qed.

Lemma digits_drop_last i S W : 0 <= S -> digits_of i S W -> S mod 9 <> 0 ->
  forall w, list.last (drop (Z.to_nat (ROUND_UP i)) W) = Some w -> (10 ^ (9 - S mod 9) | w).
Proof.
  intros HS HD Hm w Hw. apply (digits_last i S W); try done. rewrite <- (take_drop (Z.to_nat (ROUND_UP i)) W), last_app. by rewrite Hw.
Qed.

(** Where two values are equal, the stored signs decide. *)
Definition then_sign (c : comparison) (s s' : bool) : comparison :=
  match c, s, s' with Eq, true, false => Lt | Eq, false, true => Gt | _, _, _ => c end.

Lemma then_sign_same c s : then_sign c s s = c.
Proof. by destruct c, s. Qed.

Lemma image_cmp i S s W s' W' : 0 <= i -> 0 <= S -> 0 < i + S -> digits_of i S W -> digits_of i S W' ->
  bytes_cmp (bin_image i S s W) (bin_image i S s' W') = then_sign (signed s (wordsval W) ?= signed s' (wordsval W')) s s'.
Proof.
  intros Hi HS Hp HD HD'. unfold bin_image. cbv zeta. set (k := Z.to_nat (ROUND_UP i)).
  destruct (enc_sign i S s W Hi HS Hp HD) as (c & L & HL & Hc & Hs). destruct (enc_sign i S s' W' Hi HS Hp HD') as (c' & L' & HL' & Hc' & Hs').
  fold k in HL, HL'. destruct (digits_split i S W HD) as (Hlt & Hld & HWt & HWd). destruct (digits_split i S W' HD') as (Hlt' & Hld' & HWt' & HWd').
  fold k in Hlt, Hld, HWt, HWd, Hlt', Hld', HWt', HWd'. pose proof (horner_bound DIG_BASE base_ge2 W (do_words _ _ _ HD)) as HB. pose proof (horner_bound DIG_BASE base_ge2 W' (do_words _ _ _ HD')) as HB'.
  destruct (decide (s = s')) as [<-|Hne].
  - assert (bytes_cmp (c :: L) (c' :: L') = dir s (wordsval W ?= wordsval W')) as He.
    { rewrite <- HL, <- HL', bytes_cmp_app by (rewrite !enc_int_length by done; done).
      rewrite (enc_int_cmp s i (take k W) (take k W')), (enc_frac_cmp s S (drop k W) (drop k W'));
        try (done || lia || by eapply digits_first || by eapply digits_drop_last).
      rewrite <- dir_then, <- horner_cmp_app by (done || lia). by rewrite !take_drop. }
    rewrite HL, HL'. cbn [flip_first bytes_cmp] in He |- *. rewrite flip_cmp, Hs, Hs', eqb_reflx by done. rewrite He, then_sign_same.
    destruct s; simpl; [|done]. by rewrite <- Z.compare_antisym, Z.compare_opp.
  - rewrite HL, HL'. cbn [flip_first bytes_cmp]. rewrite flip_cmp, Hs, Hs' by done. rewrite (proj2 (eqb_false_iff _ _) Hne).
    destruct s, s'; try done; simpl signed.
    + destruct (Z.compare_spec (- wordsval W) (wordsval W')); [done|done|lia].
    + destruct (Z.compare_spec (wordsval W) (- wordsval W')); [done|lia|done].
Qed.

(** Equal values that are no negative zero have equal signs. *)
Lemma same_sign n d d' : dec_ok d -> dec_ok d' -> (fw d <= n)%nat -> (fw d' <= n)%nat ->
  (mag d = 0 -> sign d = false) -> (mag d' = 0 -> sign d' = false) ->
  then_sign (signed (sign d) (cut n d) ?= signed (sign d') (cut n d')) (bin_sign d) (bin_sign d') =
    (signed (sign d) (cut n d) ?= signed (sign d') (cut n d')).
Proof.
  intros Hd Hd' Hn Hn' Hz Hz'. pose proof (bin_sign_value d n Hd Hn) as E. pose proof (bin_sign_value d' n Hd' Hn') as E'.
  rewrite <- E, <- E'. pose proof (cut_zero n d Hn). pose proof (cut_zero n d' Hn').
  assert (cut n d = 0 -> bin_sign d = false) as H1 by (intros H1; unfold bin_sign; rewrite Hz; [done|tauto]).
  assert (cut n d' = 0 -> bin_sign d' = false) as H2 by (intros H2; unfold bin_sign; rewrite Hz'; [done|tauto]).
  pose proof (cut_bound n d Hd). pose proof (cut_bound n d' Hd').
  destruct (bin_sign d), (bin_sign d'); try (by destruct (_ ?= _)); simpl signed.
  - destruct (Z.compare_spec (- cut n d) (cut n d')); [|done|done]. specialize (H1 ltac:(lia)). done.
  - destruct (Z.compare_spec (cut n d) (- cut n d')); [|done|done]. specialize (H2 ltac:(lia)). done.
Qed.

(** C28. memcmp of two numbers that are stored for the same column orders them by
    value, if none of them is a negative zero.  In general it orders them by value
    and equal values by the sign that is stored: decimal2bin stores a negative
    zero that has fraction digits as less than zero. *)
Theorem decimal_bin_order d d' out out' precision S :
  dec_ok d -> tight d -> column_fits d precision S -> (dsize (precision - S) + dsize S <= length out)%nat ->
  dec_ok d' -> tight d' -> column_fits d' precision S -> (dsize (precision - S) + dsize S <= length out')%nat ->
  exists bytes bytes', decimal2bin d out precision S = Some (E_DEC_OK, bytes) /\
    decimal2bin d' out' precision S = Some (E_DEC_OK, bytes') /\
    let c := bytes_cmp (take (dsize (precision - S) + dsize S) bytes) (take (dsize (precision - S) + dsize S) bytes') in
    c = then_sign (dval d ?= dval d')%Q (bin_sign d) (bin_sign d') /\
    ((mag d = 0 -> sign d = false) -> (mag d' = 0 -> sign d' = false) -> c = (dval d ?= dval d')%Q).
Proof.
  intros Hd Ht [HS Hp Hi Hf] Hout Hd' Ht' [_ _ Hi' Hf'] Hout'.
  destruct (decimal2bin_ok d out precision S Hd Ht HS Hp Hi Hf Hout) as (W & HD & HV & ->).
  destruct (decimal2bin_ok d' out' precision S Hd' Ht' HS Hp Hi' Hf' Hout') as (W' & HD' & HV' & ->).
  eexists _, _. split_and!; [reflexivity|reflexivity|]. cbv zeta.
  assert (forall s V o, digits_of (precision - S) S V -> take (dsize (precision - S) + dsize S) (splice o 0 (bin_image (precision - S) S s V))
          = bin_image (precision - S) S s V) as Htk.
  { intros s V o HV0. assert (length (bin_image (precision - S) S s V) = dsize (precision - S) + dsize S)%nat as <- by (apply bin_image_length; (done || lia)).
    unfold splice. rewrite take_0, app_nil_l. apply take_app_length. }
  rewrite !Htk by done. clear Htk. set (n := Z.to_nat (ROUND_UP S)) in *.
  pose proof (ok_frac d Hd). pose proof (ok_frac d' Hd'). pose proof (Z_fw d Hd). pose proof (Z_fw d' Hd').
  pose proof (round_up_mono (frac d) S ltac:(lia)). pose proof (round_up_mono (frac d') S ltac:(lia)).
  assert (fw d <= n)%nat as Hn by lia. assert (fw d' <= n)%nat as Hn' by lia.
  rewrite image_cmp, HV, HV', !bin_sign_value by (done || lia).
  assert ((dval d ?= dval d')%Q = (signed (sign d) (cut n d) ?= signed (sign d') (cut n d'))) as ->.
  { rewrite (Qcompare_comp _ _ (dval_cut n d Hn) _ _ (dval_cut n d' Hn')). unfold Qcompare. cbn [Qnum Qden].
    symmetry. apply Zmult_compare_compat_r. lia. }
  split; [done|]. by apply same_sign.
Qed.

(** decimal2bin compares numbers of bytes, not of digits, to find out whether
    the fraction fits: 0.25 is stored for a column with one digit behind the
    point without an error, and bin2decimal refuses the bytes. *)
Theorem decimal2bin_scale_unchecked :
  let d := mk_dec 1 2 2 false [0; 250000000] in
  exists bytes, decimal2bin d [0; 0] 2 1 = Some (E_DEC_OK, bytes) /\
    exists to', bin2decimal bytes d 2 1 = Some (E_DEC_BAD_NUM, to').
Proof. eexists. split; [vm_compute; reflexivity|]. eexists. vm_compute. reflexivity. Qed.

(** ** Witnesses *)

Lemma d12_5_fits : column_fits d12_5 5 2.
Proof. by split; vm_compute. Qed.

Lemma dm3_25_fits : column_fits dm3_25 5 2.
Proof. by split; vm_compute. Qed.

Definition bytes4 : list Z := [0; 0; 0; 0].

Lemma decimal_bin_roundtrip_witness : exists bytes to', decimal2bin dm3_25 bytes4 5 2 = Some (E_DEC_OK, bytes) /\
  bin2decimal bytes dzero 5 2 = Some (E_DEC_OK, to') /\ dec_ok to' /\ (dval to' == dval dm3_25)%Q.
Proof.
  exact (decimal_bin_roundtrip dm3_25 bytes4 dzero 5 2 dm3_25_ok dm3_25_tight dm3_25_fits
    ltac:(vm_compute; lia) dest_ok_dzero ltac:(by vm_compute)).
Defined.

Lemma decimal_bin_order_witness : exists bytes bytes', decimal2bin dm3_25 bytes4 5 2 = Some (E_DEC_OK, bytes) /\
  decimal2bin d12_5 bytes4 5 2 = Some (E_DEC_OK, bytes') /\
  bytes_cmp (take (dsize (5 - 2) + dsize 2) bytes) (take (dsize (5 - 2) + dsize 2) bytes') = (dval dm3_25 ?= dval d12_5)%Q.
Proof.
  destruct (decimal_bin_order dm3_25 d12_5 bytes4 bytes4 5 2 dm3_25_ok dm3_25_tight dm3_25_fits ltac:(vm_compute; lia)
    d12_5_ok d12_5_tight d12_5_fits ltac:(vm_compute; lia)) as (bytes & bytes' & H1 & H2 & _ & H3).
  exists bytes, bytes'. split; [exact H1|]. split; [exact H2|]. apply H3; by vm_compute.
Defined.
