(* ===== verification/LikeSpec.v ===== *)
(** * LIKE: the meaning of a pattern

    A pattern is a list of elements over any type of characters; [like] says
    what it matches.  The files [Like] and [LikeUni] prove that the comparisons
    of strings/ctype-simple.c, ctype-bin.c and ctype-utf8.c decide it. *)

From stdpp Require Import prelude list.
From Stdlib Require Import ZArith Lia ZifyNat Bool.
From S2P Require Import Prelude.

(** An element of a pattern, over any type of characters. *)
Inductive tok (A : Type) := One | Many | Lit (c : A).
Arguments One {A}.
Arguments Many {A}.
Arguments Lit {A}.

(** The elements of a pattern: a wildcard is recognised before an escape, and
    an escape in the last place stands for itself.  [key] is the integer that is
    compared with the wildcards and the escape character. *)
Section pattern.
Context (key : Z -> Z) (escape w_one w_many : Z).

Fixpoint pattern (w : list Z) : list (tok Z) :=
  match w with
  | [] => []
  | c :: w =>
    if key c =? w_many then Many :: pattern w
    else if key c =? w_one then One :: pattern w
    else
      match w with
      | [] => [Lit c]
      | d :: w' => if key c =? escape then Lit d :: pattern w' else Lit c :: pattern w
      end
  end.
End pattern.

Section like.
Context {A : Type} (same_char : A -> A -> bool).

(** [w_many] matches any characters, [w_one] any one. *)
Fixpoint like (p : list (tok A)) (s : list A) : bool :=
  match p with
  | [] => match s with [] => true | _ => false end
  | One :: p => match s with [] => false | _ :: s => like p s end
  | Lit c :: p => match s with [] => false | d :: s => same_char c d && like p s end
  | Many :: p => (fix any (s : list A) : bool := like p s || match s with [] => false | _ :: s => any s end) s
  end.

(** Some end of [s] matches. *)
Fixpoint like_any (p : list (tok A)) (s : list A) : bool :=
  like p s || match s with [] => false | _ :: s => like_any p s end.

Lemma like_many p s : like (Many :: p) s = like_any p s.
Proof. simpl. induction s as [|c s IH]; simpl; [done|]. by rewrite IH. Qed.

Lemma like_any_suffix p s t : like_any p t = true -> like_any p (s ++ t) = true.
Proof. induction s as [|c s IH]; simpl; [done|]. intros H. rewrite (IH H). apply orb_true_r. Qed.

Lemma like_any_true p s : like_any p s = true <-> exists a b, s = a ++ b /\ like p b = true.
Proof.
  split.
  - induction s as [|c s IH]; simpl.
    + rewrite orb_false_r. by exists [], [].
    + intros [H|H]%orb_true_iff; [by exists [], (c :: s)|]. destruct (IH H) as (a & b & -> & Hb). by exists (c :: a), b.
  - intros (a & b & -> & Hb). apply like_any_suffix. destruct b; simpl; by rewrite Hb.
Qed.

Lemma like_any_many p s : like_any (Many :: p) s = like_any p s.
Proof.
  apply eq_true_iff_eq. rewrite !like_any_true. split.
  - intros (a & b & -> & H). rewrite like_many in H. apply like_any_true in H as (a' & b' & -> & H).
    exists (a ++ a'), b'. by rewrite app_assoc.
  - intros (a & b & -> & H). exists a, b. split; [done|]. rewrite like_many. destruct b; simpl; by rewrite H.
Qed.

(** If no end of [s] matches, none of [d :: s] matches with one more element
    that takes a character. *)
Lemma like_any_step p t d s : t <> Many -> like_any p s = false -> like_any (t :: p) (d :: s) = false.
Proof.
  intros Hc Hf. apply not_true_is_false. intros (a & b & E & H)%like_any_true.
  assert (exists e b', b = e :: b' /\ like p b' = true) as (e & b' & -> & Hb).
  { destruct t; simpl in H; [|done|]; destruct b as [|e b']; try done; exists e, b'; [done|].
    by apply andb_true_iff in H as [_ ?]. }
  assert (like_any p s = true); [|congruence]. apply like_any_true.
  destruct a as [|x a]; simplify_eq/=; [by exists [], b'|]. exists (a ++ [e]), b'. by rewrite <- app_assoc.
Qed.

(** What is known when a comparison returns [r]: 0 for a match, and -1 only if
    no end of the string matches. *)
Definition like_result (p : list (tok A)) (s : list A) (r : Z) : Prop :=
  (r = 0 /\ like p s = true) \/ (r = 1 /\ like p s = false) \/ (r = -1 /\ like_any p s = false).

Lemma like_any_like p s : like_any p s = false -> like p s = false.
Proof. destruct s; simpl; by intros [H _]%orb_false_iff. Qed.

Lemma like_any_nil p : like_any p [] = like p [].
Proof. simpl. apply orb_false_r. Qed.

Lemma like_any_tail p d s : like p (d :: s) = false -> like_any p s = false -> like_any p (d :: s) = false.
Proof. intros H1 H2. simpl. by rewrite H1, H2. Qed.

Lemma like_result_zero p s r : like_result p s r -> r = 0 <-> like p s = true.
Proof.
  intros [[-> ->]|[[-> ->]|[-> H]]]; [done|done|]. rewrite (like_any_like _ _ H). done.
Qed.

(** The same when the negative results can be relied on only if [X] holds. *)
Definition like_if (X : Prop) (p : list (tok A)) (s : list A) (r : Z) : Prop :=
  (r = 0 /\ like p s = true) \/ (r = 1 /\ (X -> like p s = false)) \/ (r = -1 /\ (X -> like_any p s = false)).

Lemma like_if_result X p s r : X -> like_if X p s r -> like_result p s r.
Proof. unfold like_if, like_result. tauto. Qed.

Lemma like_if_match X p s : like_if X p s 0 -> like p s = true.
Proof. intros [[_ H]|[[? _]|[? _]]]; done. Qed.

Lemma like_if_end X s : like_if X [] s (if bool_decide (s = []) then 0 else 1).
Proof. case_bool_decide; destruct s; try done; [left|right; left]; by split. Qed.

(** A step over an element that takes a character. *)
Lemma like_if_step X p t d s r : t <> Many -> like (t :: p) (d :: s) = like p s -> like_if X p s r ->
  like_if X (t :: p) (d :: s) r.
Proof.
  intros Ht He [[-> H]|[[-> H]|[-> H]]]; unfold like_if.
  - left. by rewrite He.
  - right; left. by rewrite He.
  - right; right. split; [done|]. intros x. apply like_any_step; auto.
Qed.

(** [w_one] behind [w_many] takes the first character. *)
Lemma like_any_one p s : like_any (One :: p) s = match s with [] => false | _ :: s => like_any p s end.
Proof.
  induction s as [|d s IH]; [done|]. change (like p s || like_any (One :: p) s = like_any p s). rewrite IH.
  destruct s as [|e s]; [by rewrite orb_false_r, like_any_nil|done].
Qed.

(** If a pattern that begins with [w_many] does not match, no end matches. *)
Lemma like_many_false p s : like (Many :: p) s = false -> like_any (Many :: p) s = false.
Proof. by rewrite like_many, like_any_many. Qed.
End like.
