(* ===== verification/Like.v ===== *)
(** * LIKE: comparison with wildcards, one byte per character

    my_wildcmp_8bit of strings/ctype-simple.c and my_wildcmp_bin of
    strings/ctype-bin.c, which have the same text with another macro likeconv,
    and my_like_range_simple of strings/ctype-simple.c, which gives the range of
    an index in which a pattern can match.

    A string is the list of its bytes (0 to 255); a pointer and its end are the
    list of the bytes between them.  A [char] is signed, so that a byte is
    compared with the int arguments as [s8] of it. *)

From stdpp Require Import prelude list list_numbers numbers.
From Stdlib Require Import ZArith Lia ZifyNat Bool.
From S2P Require Import Prelude LikeSpec.

(** The elements of a pattern of bytes. *)
Abbreviation tokens := (pattern s8).

(** ** The comparison *)

Section wildcmp.
Context (conv : Z -> Z) (guard : Z -> bool) (escape w_one w_many : Z).
(** The byte behind the end of the pattern. *)
Context (behind : Z).

(** [if ( *wildstr == escape && wildstr+1 != wildend) wildstr++], and the byte
    there: the byte and the pattern behind it. *)
Definition unescape (escaped : bool) (c : Z) (w : list Z) : Z * list Z :=
  match w with
  | d :: w' => if escaped then (d, w') else (c, w)
  | [] => (c, w)
  end.

Definition is_wild (c : Z) : bool := (s8 c =? w_many) || (s8 c =? w_one).

(** [while ( *wildstr != w_many && *wildstr != w_one)]: the return value, or the
    string, the pattern and [result]. *)
Fixpoint literals (n : nat) (str wild : list Z) (result : Z) : option (Z + list Z * list Z * Z) :=
  match wild with
  | [] => None
  | c :: w =>
    if is_wild c then Some (inr (str, wild, result))
    else
      match n with
      | O => None
      | S n =>
        let '(c, w) := unescape (s8 c =? escape) c w in
        match str with
        | [] => Some (inl 1)
        | d :: s =>
          if negb (conv c =? conv d) then Some (inl 1)
          else
            match w with
            | [] => Some (inl (match s with [] => 0 | _ => 1 end))
            | _ => literals n s w 1
            end
        end
      end
  end.

(** [do ... while (++wildstr < wildend && *wildstr == w_one)]: [None] inside is
    the return when the string is at its end. *)
Fixpoint skip_ones (str wild : list Z) {struct wild} : option (list Z * list Z) :=
  match wild with
  | [] => Some (str, wild)
  | c :: w => if s8 c =? w_one then match str with [] => None | _ :: s => skip_ones s w end else Some (str, wild)
  end.

(** [for (; wildstr != wildend ; wildstr++)] behind [w_many]. *)
Fixpoint skip_wild (str wild : list Z) : option (list Z * list Z) :=
  match wild with
  | [] => Some (str, wild)
  | c :: w =>
    if s8 c =? w_many then skip_wild str w
    else if s8 c =? w_one then match str with [] => None | _ :: s => skip_wild s w end
    else Some (str, wild)
  end.

(** [do ... while (str != str_end && wildstr[0] != w_many)] and the return
    behind it; [rec] is the recursive call with the rest of the string. *)
Fixpoint search (rec : list Z -> option Z) (cmp : Z) (wild str : list Z) : option Z :=
  match str with
  | [] => Some (-1)
  | d :: s =>
    if negb (u8 (conv d) =? cmp) then search rec cmp wild s
    else
      tmp ← rec s;
      if tmp <=? 0 then Some tmp
      else
        match s with
        | [] => Some (-1)
        | _ => if negb (s8 (match wild with c :: _ => c | [] => behind end) =? w_many) then search rec cmp wild s
               else Some (-1)
        end
  end.

(** The part behind [w_many]. *)
Definition many (rec : list Z -> list Z -> option Z) (str wild : list Z) : option Z :=
  match skip_wild str wild with
  | None => Some (-1)
  | Some (str, wild) =>
    match wild with
    | [] => Some 0
    | c :: w =>
      match str with
      | [] => Some (-1)
      | _ =>
        let '(cmp, w) := unescape (u8 c =? escape) c w in
        search (fun s => rec s w) (u8 (conv cmp)) w str
      end
    end
  end.

(** [while (wildstr != wildend)]. *)
Fixpoint wild_loop (rec : list Z -> list Z -> option Z) (n : nat) (str wild : list Z) (result : Z) : option Z :=
  match wild with
  | [] => Some (match str with [] => 0 | _ => 1 end)
  | _ =>
    match n with
    | O => None
    | S n =>
      r ← literals (length wild) str wild result;
      match r with
      | inl r => Some r
      | inr (str, wild, result) =>
        match skip_ones str wild with
        | None => Some result
        | Some (str, wild) =>
          match wild with
          | [] => Some (match str with [] => 0 | _ => 1 end)
          | c :: w => if s8 c =? w_many then many rec str w else wild_loop rec n str wild result
          end
        end
      end
    end
  end.

(** A call needs one unit of fuel more than the pattern has bytes. *)
Fixpoint my_wildcmp_8bit_impl (n : nat) (str wild : list Z) (recurse_level : Z) : option Z :=
  match n with
  | O => None
  | S n =>
    if guard recurse_level then Some 1
    else wild_loop (fun s w => my_wildcmp_8bit_impl n s w (recurse_level + 1)) (length wild) str wild (-1)
  end.

Definition my_wildcmp_8bit (str wild : list Z) : option Z := my_wildcmp_8bit_impl (S (length wild)) str wild 1.

End wildcmp.

(** likeconv is the table sort_order in ctype-simple.c and the byte itself in
    ctype-bin.c. *)
Definition my_wildcmp_bin := my_wildcmp_8bit (fun c => c).

(** ** The range of a pattern *)

Section range.
Context (max_sort_char mbmaxlen : Z) (binsort : bool) (escape w_one w_many : Z).

(** The loop: [room] are the bytes left in [min_str] and [max_str].  The result
    are the bytes that are stored in both, the number of them, and whether the
    function returns inside of the loop. *)
Fixpoint range_loop (ptr : list Z) (room : nat) (charlen : Z) {struct room} : list (Z * Z) * bool :=
  match ptr, room with
  | c :: p, S room =>
    if charlen >? 0 then
      match (if s8 c =? escape then p else []) with
      | d :: p' => let '(l, b) := range_loop p' room (charlen - 1) in ((d, d) :: l, b)
      | [] =>
        if s8 c =? w_one then
          let '(l, b) := range_loop p room (charlen - 1) in ((0, u8 max_sort_char) :: l, b)
        else if s8 c =? w_many then ([], true)
        else let '(l, b) := range_loop p room (charlen - 1) in ((c, c) :: l, b)
      end
    else ([], false)
  | _, _ => ([], false)
  end.

(** The bytes at min_str and max_str, *min_length and *max_length. *)
Definition my_like_range_simple (ptr : list Z) (res_length : nat) : list Z * list Z * nat * nat :=
  let '(l, is_many) := range_loop ptr res_length (Z.of_nat res_length / mbmaxlen) in
  let n := length l in
  let rest := (res_length - n)%nat in
  if is_many then
    (l.*1 ++ replicate rest 0, l.*2 ++ replicate rest (u8 max_sort_char),
     if binsort then n else res_length, res_length)
  else (l.*1 ++ replicate rest 32, l.*2 ++ replicate rest 32, n, n).
End range.

(** set_max_sort_char, with which the collations with a table sort_order (here
    [conv]) are initialised: the loop [for (i= 0; i < 256; i++)] with [n] turns
    left. *)
Fixpoint max_loop (conv : Z -> Z) (n : nat) (i max_char max_sort_char : Z) : Z :=
  match n with
  | O => max_sort_char
  | S n =>
    if conv i >? max_char then max_loop conv n (i + 1) (conv i) i
    else max_loop conv n (i + 1) max_char max_sort_char
  end.

Definition set_max_sort_char (conv : Z -> Z) (max_sort_char : Z) : Z :=
  max_loop conv 256 0 (conv (u8 max_sort_char)) max_sort_char.

(** ** Proofs *)

Section proofs.
Context (conv : Z -> Z) (guard : Z -> bool) (escape w_one w_many behind : Z).
Context (conv_byte : forall c, is_byte c -> is_byte (conv c)) .
Context (X : Prop) (behind_ok : X -> s8 behind <> w_many) (guard_ok : X -> forall l, guard l = false) (wild_neq : w_one <> w_many).

Abbreviation toks := (tokens escape w_one w_many).
Abbreviation same := (fun c d => conv c =? conv d).

(** A byte of a pattern: the two comparisons with the escape character, of the
    [char] and of the [uchar], agree. *)
Definition wild_byte (c : Z) : Prop := is_byte c /\ (s8 c =? escape) = (u8 c =? escape).

(** The first element of a pattern that does not begin with a wildcard. *)
Lemma tokens_literal c w : is_wild w_one w_many c = false ->
  exists d w', unescape (s8 c =? escape) c w = (d, w') /\ toks (c :: w) = Lit d :: toks w' /\
    (length w' <= length w)%nat /\ (Forall wild_byte (c :: w) -> wild_byte d /\ Forall wild_byte w').
Proof.
  intros [H1 H2]%orb_false_iff. unfold unescape. simpl. rewrite H1, H2.
  destruct w as [|d w']; [|destruct (s8 c =? escape)]; eexists _, _; (split; [done|]); (split; [done|]);
    (split; [simpl; lia|]); intros; decompose_Forall_hyps; auto.
Qed.

Lemma literals_ok n str wild result : Forall wild_byte wild -> wild <> [] -> (length wild <= n)%nat ->
  exists r, literals conv escape w_one w_many n str wild result = Some r /\
    match r with
    | inl v => like_if same X (toks wild) str v
    | inr (str', wild', result') =>
      (exists a, str = a ++ str') /\ Forall wild_byte wild' /\ (length wild' <= length wild)%nat /\
      (result' = 1 \/ result' = result) /\ (exists c w, wild' = c :: w /\ is_wild w_one w_many c = true) /\
      forall v, like_if same X (toks wild') str' v -> like_if same X (toks wild) str v
    end.
Proof.
  revert str wild result. induction n as [|n IH]; intros str [|c w] result Hw Hne Hn; simpl in Hn; try done; [lia|].
  cbn [literals]. destruct (is_wild w_one w_many c) eqn:Hc.
  { eexists; split; [done|]. split_and!; [by exists []|done|done|by right|by exists c, w|done]. }
  destruct (tokens_literal c w Hc) as (d & w' & -> & -> & Hl & Hb). destruct (Hb Hw) as [Hd Hw'].
  destruct str as [|e s]; [eexists; split; [done|]; right; left; by split|].
  destruct (conv d =? conv e) eqn:E; simpl; [|eexists; split; [done|]; right; left; simpl; by rewrite E].
  assert (forall v, like_if same X (toks w') s v -> like_if same X (Lit d :: toks w') (e :: s) v) as Hs.
  { intros v. apply like_if_step; [done|]. simpl. by rewrite E. }
  destruct w' as [|c' w'']; [eexists; split; [done|]; apply Hs; destruct s; [left|right; left]; by split|].
  destruct (IH s (c' :: w'') 1 Hw' ltac:(done) ltac:(lia)) as (r & -> & Hr). exists r. split; [done|].
  destruct r as [v|[[str' wild'] result']]; [by apply Hs|].
  destruct Hr as ([a ->] & H2 & H3 & H4 & H5 & H6).
  split_and!; [by exists (e :: a)|done|simpl in *; lia|by destruct H4; left|done|auto].
Qed.

Lemma tokens_one c w : s8 c = w_one -> toks (c :: w) = One :: toks w.
Proof. intros H. simpl. by rewrite (proj2 (Z.eqb_neq (s8 c) w_many)), (proj2 (Z.eqb_eq _ _) H) by congruence. Qed.

Lemma tokens_many c w : s8 c = w_many -> toks (c :: w) = Many :: toks w.
Proof. intros H. simpl. by rewrite (proj2 (Z.eqb_eq _ _) H). Qed.

Lemma like_nil_one p v : v = 1 \/ v = -1 -> like_if same X (One :: p) [] v.
Proof. intros [-> | ->]; [right; left|right; right]; done. Qed.

Lemma skip_ones_ok str wild : Forall wild_byte wild ->
  match skip_ones w_one str wild with
  | None => forall v, v = 1 \/ v = -1 -> like_if same X (toks wild) str v
  | Some (str', wild') =>
    (exists a, str = a ++ str') /\ Forall wild_byte wild' /\ (length wild' <= length wild)%nat /\
    (forall c w, wild = c :: w -> s8 c = w_one -> (length wild' < length wild)%nat) /\
    forall v, like_if same X (toks wild') str' v -> like_if same X (toks wild) str v
  end.
Proof.
  revert str. induction wild as [|c w IH]; intros str Hw; cbn [skip_ones];
    [split_and!; [by exists []|done|done|done|done]|].
  inversion Hw as [|? ? Hc Hw']; subst. destruct (Z.eqb_spec (s8 c) w_one) as [E|E].
  - rewrite (tokens_one c w E).
    destruct str as [|d s]; [apply like_nil_one|]. specialize (IH s Hw').
    assert (forall v, like_if same X (toks w) s v -> like_if same X (One :: toks w) (d :: s) v) as Hs.
    { intros v. by apply like_if_step. }
    destruct (skip_ones w_one s w) as [[str' wild']|]; [|auto].
    destruct IH as ([a ->] & H2 & H3 & H4 & H5). split_and!; [by exists (d :: a)|done|simpl; lia|intros; simpl; lia|auto].
  - split_and!; [by exists []|done|done| |done]. intros c' w' [= -> ->] ?. done.
Qed.

Lemma skip_wild_ok str wild : Forall wild_byte wild ->
  match skip_wild w_one w_many str wild with
  | None => like_any same (toks wild) str = false
  | Some (str', wild') =>
    (exists a, str = a ++ str') /\ Forall wild_byte wild' /\ (length wild' <= length wild)%nat /\
    (forall c w, wild' = c :: w -> is_wild w_one w_many c = false) /\
    like_any same (toks wild) str = like_any same (toks wild') str'
  end.
Proof.
  revert str. induction wild as [|c w IH]; intros str Hw; cbn [skip_wild]; [split_and!; [by exists []|done|done|done|done]|].
  inversion Hw as [|? ? Hc Hw']; subst. destruct (Z.eqb_spec (s8 c) w_many) as [E|E].
  { rewrite (tokens_many c w E), like_any_many. specialize (IH str Hw').
    destruct (skip_wild w_one w_many str w) as [[str' wild']|]; [|done]. simpl. intuition lia. }
  destruct (Z.eqb_spec (s8 c) w_one) as [E'|E'].
  - rewrite (tokens_one c w E'), like_any_one. destruct str as [|d s]; [done|]. specialize (IH s Hw').
    destruct (skip_wild w_one w_many s w) as [[str' wild']|]; [|done].
    destruct IH as ([a ->] & H2 & H3 & H4 & H5). split_and!; [by exists (d :: a)|done|simpl; lia|done|done].
  - split_and!; [by exists []|done|done| |done]. intros c' w' [= -> ->]. unfold is_wild.
    by rewrite (proj2 (Z.eqb_neq _ _) E), (proj2 (Z.eqb_neq _ _) E').
Qed.

(** A search for the literal behind [w_many]. *)
Lemma search_ok rec c wild str : is_byte c -> Forall is_byte str ->
  (forall a s, str = a ++ s -> exists r, rec s = Some r /\ like_if same X (toks wild) s r) ->
  exists r, search conv w_many behind rec (u8 (conv c)) wild str = Some r /\
    ((r = 0 /\ like_any same (Lit c :: toks wild) str = true) \/
     (r = -1 /\ (X -> like_any same (Lit c :: toks wild) str = false))).
Proof.
  intros Hc Hs Hrec. rewrite (u8_byte _ (conv_byte c Hc)). induction str as [|d s IH]; simpl; [by eexists; split; [|right]|].
  inversion Hs as [|? ? Hd Hs']; subst. rewrite (u8_byte _ (conv_byte d Hd)).
  specialize (IH Hs'). assert (forall a t, s = a ++ t -> exists r, rec t = Some r /\ like_if same X (toks wild) t r) as Hrec'.
  { intros a t ->. by apply (Hrec (d :: a)). }
  specialize (IH Hrec'). rewrite (Z.eqb_sym (conv c)). destruct (Z.eqb_spec (conv d) (conv c)) as [E|E]; simpl; [|done].
  destruct (Hrec [d] s eq_refl) as (r & -> & Hr). simpl. destruct Hr as [[-> H]|[[-> H]|[-> H]]]; simpl.
  - eexists; split; [done|]. left. by rewrite H.
  - destruct s as [|e s]; [eexists; split; [done|]; right; split; [done|]; intros x; by rewrite (H x)|].
    destruct (Z.eqb_spec (s8 (match wild with [] => behind | c :: _ => c end)) w_many) as [Em|Em]; simpl.
    + eexists; split; [done|]. right. split; [done|]. intros x. specialize (H x). rewrite H.
      destruct wild as [|c' w']; [by destruct (behind_ok x)|].
      rewrite (tokens_many c' w' Em) in *. apply like_many_false in H.
      by apply like_any_step with (t := Lit c) (d := d) in H as [_ ?]%orb_false_iff.
    + destruct IH as (r & Hr & IH). exists r. split; [done|]. destruct IH as [[-> IH]|[-> IH]].
      * left. split; [done|]. apply orb_true_iff. by right.
      * right. split; [done|]. intros x. apply orb_false_iff. split; [apply (H x)|apply (IH x)].
  - eexists; split; [done|]. right. split; [done|]. intros x. specialize (H x). rewrite (like_any_like _ _ _ H). simpl.
    by apply like_any_step with (t := Lit c) (d := d) in H as [_ ?]%orb_false_iff.
Qed.

Lemma many_ok rec str wild : Forall is_byte str -> Forall wild_byte wild ->
  (forall s w, Forall is_byte s -> Forall wild_byte w -> (length w < length wild)%nat ->
     exists r, rec s w = Some r /\ like_if same X (toks w) s r) ->
  exists r, many conv escape w_one w_many behind rec str wild = Some r /\
    like_if same X (Many :: toks wild) str r.
Proof.
  intros Hs Hw Hrec. unfold many. pose proof (skip_wild_ok str wild Hw) as Hk.
  destruct (skip_wild w_one w_many str wild) as [[str' wild']|].
  2: { eexists; split; [done|]. right; right. by rewrite like_any_many. }
  destruct Hk as ([a ->] & Hw' & Hl & Hnw & Heq). apply Forall_app in Hs as [_ Hs].
  destruct wild' as [|c w].
  { eexists; split; [done|]. left. split; [done|]. rewrite like_many, Heq. apply like_any_true. exists str', []. by rewrite app_nil_r. }
  inversion Hw' as [|? ? Hc Hw'']; subst. specialize (Hnw c w eq_refl). rewrite <- (proj2 Hc).
  destruct (tokens_literal c w Hnw) as (d & w' & -> & Ht & Hl' & Hb). rewrite Ht in Heq.
  destruct (Hb Hw') as [Hd Hwd]. destruct str' as [|e s].
  { eexists; split; [done|]. right; right. by rewrite like_any_many, Heq. }
  destruct (search_ok (fun s => rec s w') d w' (e :: s) (proj1 Hd) Hs) as (r & -> & Hr).
  { intros b t Hbt. simpl in Hl. apply Hrec; [|done|lia]. rewrite Hbt in Hs. by apply Forall_app in Hs as [_ ?]. }
  exists r. split; [done|]. unfold like_if. rewrite like_many, like_any_many, Heq. tauto.
Qed.

Lemma wild_loop_ok rec n str wild result : Forall is_byte str -> Forall wild_byte wild -> (length wild <= n)%nat ->
  result = 1 \/ result = -1 ->
  (forall s w, Forall is_byte s -> Forall wild_byte w -> (length w < length wild)%nat ->
     exists r, rec s w = Some r /\ like_if same X (toks w) s r) ->
  exists r, wild_loop conv escape w_one w_many behind rec n str wild result = Some r /\
    like_if same X (toks wild) str r.
Proof.
  revert str wild result. induction n as [|n IH]; intros str [|c w] result Hs Hw Hn Hres Hrec; simpl in Hn; try lia;
    try (eexists; split; [done|]; destruct str; [left|right; left]; by split).
  cbn [wild_loop]. destruct (literals_ok (length (c :: w)) str (c :: w) result Hw ltac:(done) ltac:(lia)) as (r & -> & Hr).
  simpl. destruct r as [v|[[str1 wild1] result1]]; [by eexists|].
  destruct Hr as ([a ->] & Hw1 & Hl1 & Hres1 & (c1 & w1 & -> & Hc1) & Hback). apply Forall_app in Hs as [_ Hs].
  assert (result1 = 1 \/ result1 = -1) as Hres1' by intuition congruence.
  pose proof (skip_ones_ok str1 (c1 :: w1) Hw1) as Ho.
  destruct (skip_ones w_one str1 (c1 :: w1)) as [[str2 wild2]|] eqn:Eo; [|by eexists; split; [done|]; auto].
  destruct Ho as ([b ->] & Hw2 & Hl2 & Hprog & Hback2). apply Forall_app in Hs as [_ Hs].
  destruct wild2 as [|c2 w2].
  { eexists; split; [done|]. apply Hback, Hback2. destruct str2; [left|right; left]; by split. }
  inversion Hw2 as [|? ? _ Hw2']; subst. simpl in Hl1, Hl2. destruct (Z.eqb_spec (s8 c2) w_many) as [E|E].
  - destruct (many_ok rec str2 w2 Hs Hw2') as (r & -> & Hr).
    { intros s' w' ? ? ?. apply Hrec; [done|done|simpl; lia]. }
    eexists; split; [done|]. apply Hback, Hback2. by rewrite (tokens_many c2 w2 E).
  - assert (length w2 < length w1)%nat as Hlt.
    { destruct (Z.eqb_spec (s8 c1) w_one) as [E1|E1]; [specialize (Hprog c1 w1 eq_refl E1); simpl in Hprog; lia|].
      unfold is_wild in Hc1. rewrite (proj2 (Z.eqb_neq _ _) E1), orb_false_r in Hc1. apply Z.eqb_eq in Hc1.
      simpl in Eo. rewrite (proj2 (Z.eqb_neq _ _) E1) in Eo. congruence. }
    destruct (IH str2 (c2 :: w2) result1 Hs Hw2 ltac:(simpl; lia) Hres1') as (r & Hr & Hlr).
    { intros s' w' ? ? Hx. simpl in Hx. apply Hrec; [done|done|simpl; lia]. }
    exists r. split; [exact Hr|auto].
Qed.

Lemma my_wildcmp_8bit_impl_ok n str wild level : Forall is_byte str -> Forall wild_byte wild -> (length wild < n)%nat ->
  exists r, my_wildcmp_8bit_impl conv guard escape w_one w_many behind n str wild level = Some r /\
    like_if same X (toks wild) str r.
Proof.
  revert str wild level. induction n as [|n IH]; intros str wild level Hs Hw Hn; [lia|].
  cbn [my_wildcmp_8bit_impl]. destruct (guard level) eqn:Eg.
  { eexists; split; [done|]. right; left. split; [done|]. intros x. by rewrite (guard_ok x) in Eg. }
  apply wild_loop_ok; [done|done|done|by right|].
  intros. apply IH; [done|done|lia].
Qed.
End proofs.

(** The two comparisons with the escape character agree on a byte of the pattern
    if the escape character is below 128 or the byte is another one. *)
Lemma wild_bytes escape wild :
  -128 <= escape < 128 -> 0 <= escape \/ Forall (fun c => s8 c <> escape) wild -> Forall is_byte wild ->
  Forall (wild_byte escape) wild.
Proof.
  intros He Hor Hw. rewrite Forall_forall in Hw |- *. intros c Hc. split; [by apply Hw|]. specialize (Hw c Hc).
  assert (u8 c = c) as -> by (by apply u8_byte). unfold is_byte in Hw. destruct Hor as [Hor|Hor].
  - unfold s8, sgn_wrap. rewrite Z.mod_small by (simpl; lia). change (2 ^ (8 - 1)) with 128. change (2 ^ 8) with 256.
    destruct (Z.ltb_spec c 128); lia.
  - rewrite Forall_forall in Hor. specialize (Hor c Hc). rewrite (proj2 (Z.eqb_neq _ _) Hor). symmetry. apply Z.eqb_neq. intros <-.
    apply Hor. unfold s8, sgn_wrap. rewrite Z.mod_small by (simpl; lia). change (2 ^ (8 - 1)) with 128.
    destruct (Z.ltb_spec c 128); lia.
Qed.

(** C17. my_wildcmp_8bit ends.  If the stack guard does not fire and the byte
    behind the pattern, which is read, is not [w_many], it returns 0 if and only
    if the string matches the pattern character by character under the weights of
    the collation, where a wildcard is recognised before the escape character,
    and -1 only when no end of the string matches either.  Whatever the guard and
    that byte are, 0 is only returned for a match.  The escape character is below
    128, or it does not occur in the pattern; the two wildcards are different. *)
Theorem my_wildcmp_8bit_correct conv guard escape w_one w_many behind str wild :
  (forall c, is_byte c -> is_byte (conv c)) ->
  -128 <= escape < 128 -> 0 <= escape \/ Forall (fun c => s8 c <> escape) wild ->
  w_one <> w_many -> Forall is_byte str -> Forall is_byte wild ->
  let same c d := conv c =? conv d in
  exists r, my_wildcmp_8bit conv guard escape w_one w_many behind str wild = Some r /\
    (r = 0 -> like same (tokens escape w_one w_many wild) str = true) /\
    (s8 behind <> w_many -> (forall l, guard l = false) -> like_result same (tokens escape w_one w_many wild) str r).
Proof.
  intros Hc He Hor Hn Hs Hw same.
  destruct (my_wildcmp_8bit_impl_ok conv guard escape w_one w_many behind Hc
    (s8 behind <> w_many /\ forall l, guard l = false) ltac:(tauto) ltac:(tauto) Hn (S (length wild)) str wild 1 Hs) as (r & Hr & Hl);
    [by apply wild_bytes|lia|].
  exists r. split; [exact Hr|]. split; [intros ->; by apply like_if_match in Hl|]. intros H1 H2. by apply (like_if_result _ _ _ _ _ (conj H1 H2)).
Qed.

(** With an escape character above 127, which is negative as a [char], the code
    recognises it in front of the first [w_many] and not behind one, where the
    byte is compared as [uchar]: under [ESCAPE] 233 the string of an [a] and a
    [%] matches the pattern of [%], 233 and [%], and my_wildcmp_8bit returns
    -1, and it takes the string of 233 alone as a match, which it is not. *)
Example my_wildcmp_8bit_escape_above_127 :
  like Z.eqb (tokens (-23) 95 37 [37; 233; 37]) [97; 37] = true /\
  my_wildcmp_bin (fun _ => false) (-23) 95 37 0 [97; 37] [37; 233; 37] = Some (-1) /\
  like Z.eqb (tokens (-23) 95 37 [37; 233; 37]) [233] = false /\
  my_wildcmp_bin (fun _ => false) (-23) 95 37 0 [233] [37; 233; 37] = Some 0.
Proof. done. Qed.

(** The byte behind the end of the pattern is read and has an influence: the
    string [aba] matches the pattern [%a], and if a [%] follows the pattern in
    memory, my_wildcmp_8bit returns -1. *)
Theorem my_wildcmp_8bit_reads_behind behind :
  like Z.eqb (tokens 92 95 37 [37; 97]) [97; 98; 97] = true /\
  my_wildcmp_bin (fun _ => false) 92 95 37 behind [97; 98; 97] [37; 97] =
    Some (if s8 behind =? 37 then -1 else 0).
Proof. split; [done|]. cbv -[s8 Z.eqb]. change (s8 97 =? 37) with false. simpl. by destruct (s8 behind =? 37). Qed.

(** ** The range of a pattern *)

(** The first [n] bytes of a string, filled up with spaces, as in an index. *)
Definition index_key (n : nat) (s : list Z) : list Z := take n s ++ replicate (n - length s) 32.

Lemma key_length n s : length (index_key n s) = n.
Proof. unfold index_key. rewrite length_app, length_take, length_replicate. lia. Qed.

Lemma key_byte n s : Forall is_byte s -> Forall is_byte (index_key n s).
Proof. intros H. apply Forall_app. split; [by apply Forall_take|]. apply Forall_replicate. by unfold is_byte. Qed.

Section range_proofs.
Context (conv : Z -> Z) (max_sort_char escape w_one w_many : Z).
Context (max_ok : is_byte max_sort_char) (conv_bounds : forall c, is_byte c -> conv 0 <= conv c <= conv max_sort_char).
Context (wild_neq : w_one <> w_many) (escape_neq : escape <> w_one /\ escape <> w_many).

Abbreviation same := (fun c d => conv c =? conv d).
(** [c] is between the two bytes. *)
Definition between (b : Z * Z) (c : Z) : Prop := conv b.1 <= conv c <= conv b.2.

Lemma index_key_cons n c s : index_key (S n) (c :: s) = c :: index_key n s.
Proof. done. Qed.

Lemma index_key_nil n : index_key n [] = replicate n 32.
Proof. unfold index_key. by rewrite take_nil, Nat.sub_0_r. Qed.

(** The bytes that the loop stores are around the first bytes of the key, and
    behind them the key has spaces if the loop did not stop at [w_many]. *)
Definition covers (l : list (Z * Z)) (b : bool) (room : nat) (str : list Z) : Prop :=
  (length l <= room)%nat /\ Forall2 between l (take (length l) (index_key room str)) /\
  (b = false -> drop (length l) (index_key room str) = replicate (room - length l) 32).

Lemma covers_cons x y l b room d s : between (x, y) d -> covers l b room s -> covers ((x, y) :: l) b (S room) (d :: s).
Proof. intros Hb (H1 & H2 & H3). unfold covers. rewrite index_key_cons. simpl. split; [lia|]. split; [by constructor|done]. Qed.

Lemma between_lit c d : conv c = conv d -> between (c, c) d.
Proof. intros E. unfold between. simpl. lia. Qed.

Lemma between_fst l k : Forall2 between l k -> Forall2 (fun c d => conv c <= conv d) l.*1 k.
Proof. induction 1 as [|[x y] d l k [H _] _ IH]; simpl; by constructor. Qed.

Lemma between_snd l k : Forall2 between l k -> Forall2 (fun c d => conv c <= conv d) k l.*2.
Proof. induction 1 as [|[x y] d l k [_ H] _ IH]; simpl; by constructor. Qed.

(** The bounds of all bytes. *)
Lemma bounds_all k : Forall is_byte k ->
  Forall2 (fun c d => conv c <= conv d) (replicate (length k) 0) k /\
  Forall2 (fun c d => conv c <= conv d) k (replicate (length k) (u8 max_sort_char)).
Proof.
  rewrite u8_byte by done. induction 1 as [|c k Hc _ IH]; simpl; [by split|]. destruct IH. pose proof (conv_bounds c Hc).
  split; constructor; (done || lia).
Qed.

Lemma range_loop_ok ptr room charlen str : Z.of_nat room <= charlen -> Forall is_byte str ->
  like same (tokens escape w_one w_many ptr) str = true ->
  let '(l, b) := range_loop max_sort_char escape w_one w_many ptr room charlen in covers l b room str.
Proof.
  revert ptr charlen str. induction room as [|room IH]; intros ptr charlen str Hc Hs Hl.
  { destruct ptr; simpl; (split; [simpl; lia|]); split; by constructor. }
  destruct ptr as [|c p].
  { simpl in Hl. destruct str; [|done]. unfold covers. rewrite index_key_nil. simpl. split; [lia|]. by split. }
  assert (forall x y p' d s, Forall is_byte (d :: s) -> between (x, y) d -> like same (tokens escape w_one w_many p') s = true ->
    let '(l, b) := let '(l, b) := range_loop max_sort_char escape w_one w_many p' room (charlen - 1) in ((x, y) :: l, b) in
    covers l b (S room) (d :: s)) as Hstep.
  { intros x y p' d s Hds Hb Hl'. inversion Hds as [|? ? _ Hs']; subst. specialize (IH p' (charlen - 1) s ltac:(lia) Hs' Hl').
    destruct (range_loop _ _ _ _ _ _ _) as [l b]. by apply covers_cons. }
  cbn [range_loop]. rewrite (proj2 (Z.gtb_lt _ _)) by lia. cbn [pattern] in Hl.
  destruct escape_neq as [N1 N2]. destruct (Z.eqb_spec (s8 c) escape) as [E|E].
  - rewrite (proj2 (Z.eqb_neq (s8 c) w_many)), (proj2 (Z.eqb_neq (s8 c) w_one)) in * by congruence.
    destruct p as [|e p]; destruct str as [|d s]; try done; apply andb_true_iff in Hl as [He Hl]; apply Z.eqb_eq in He;
      apply Hstep; try done; by apply between_lit.
  - destruct (Z.eqb_spec (s8 c) w_one) as [E1|E1].
    + rewrite (proj2 (Z.eqb_neq (s8 c) w_many)) in Hl by congruence. destruct str as [|d s]; [done|].
      apply Hstep; [done| |done]. unfold between. simpl. rewrite u8_byte by done. apply conv_bounds. by inversion Hs.
    + destruct (Z.eqb_spec (s8 c) w_many) as [E2|E2].
      { split; [simpl; lia|]. split; [constructor|done]. }
      destruct p as [|e p]; destruct str as [|d s]; try done; apply andb_true_iff in Hl as [He Hl]; apply Z.eqb_eq in He;
        apply Hstep; try done; by apply between_lit.
Qed.
End range_proofs.

Lemma like_range_simple_ok conv max_sort_char binsort escape w_one w_many ptr res_length str :
  is_byte max_sort_char -> (forall c, is_byte c -> conv 0 <= conv c <= conv max_sort_char) ->
  w_one <> w_many -> escape <> w_one /\ escape <> w_many -> Forall is_byte str ->
  like (fun c d => conv c =? conv d) (tokens escape w_one w_many ptr) str = true ->
  let '(min_str, max_str, min_length, max_length) :=
    my_like_range_simple max_sort_char 1 binsort escape w_one w_many ptr res_length in
  length min_str = res_length /\ length max_str = res_length /\
  (min_length <= max_length <= res_length)%nat /\
  Forall2 (fun c d => conv c <= conv d) min_str (index_key res_length str) /\
  Forall2 (fun c d => conv c <= conv d) (index_key res_length str) max_str.
Proof.
  intros Hm Hb Hn He Hs Hl. unfold my_like_range_simple. rewrite Z.div_1_r.
  pose proof (range_loop_ok conv max_sort_char escape w_one w_many Hm Hb Hn He ptr res_length (Z.of_nat res_length) str ltac:(lia) Hs Hl) as Hr.
  destruct (range_loop _ _ _ _ _ _ _) as [l b]. destruct Hr as (H1 & H2 & H3).
  pose proof (key_byte res_length str Hs) as Hk. pose proof (key_length res_length str) as Hkl.
  rewrite <- (take_drop (length l) (index_key res_length str)) in Hk |- *. apply Forall_app in Hk as [_ Hk].
  destruct b; rewrite !length_app, !length_replicate, !length_fmap.
  - split_and!; [lia|lia|destruct binsort; lia|lia| |]; (apply Forall2_app; [by apply between_fst || by apply between_snd|]).
    + pose proof (bounds_all conv max_sort_char Hm Hb _ Hk) as [H _]. by rewrite length_drop, Hkl in H.
    + pose proof (bounds_all conv max_sort_char Hm Hb _ Hk) as [_ H]. by rewrite length_drop, Hkl in H.
  - rewrite (H3 eq_refl). split_and!; [lia|lia|lia|lia| |];
      (apply Forall2_app; [by apply between_fst || by apply between_snd|by apply Forall2_replicate]).
Qed.

Lemma max_loop_ok conv n : forall i m, is_byte m -> 0 <= i -> i + Z.of_nat n = 256 ->
  (forall c, 0 <= c < i -> conv c <= conv m) ->
  is_byte (max_loop conv n i (conv m) m) /\ forall c, is_byte c -> conv c <= conv (max_loop conv n i (conv m) m).
Proof.
  induction n as [|n IH]; intros i m Hm Hi Hn Hb; cbn [max_loop].
  { split; [done|]. intros c Hc. unfold is_byte in Hc. apply Hb. lia. }
  unfold is_byte in *. destruct (Z.gtb_spec (conv i) (conv m)) as [H|H]; (apply IH; [lia|lia|lia|]).
  - intros c Hc. destruct (decide (c = i)) as [->|]; [lia|]. specialize (Hb c ltac:(lia)). lia.
  - intros c Hc. destruct (decide (c = i)) as [->|]; [lia|]. apply Hb. lia.
Qed.

(** max_sort_char is a byte with the greatest weight. *)
Lemma set_max_sort_char_ok conv m : is_byte m ->
  is_byte (set_max_sort_char conv m) /\ forall c, is_byte c -> conv c <= conv (set_max_sort_char conv m).
Proof. intros Hm. unfold set_max_sort_char. rewrite (u8_byte m Hm). apply max_loop_ok; [done|lia|done|]. intros c Hc. lia. Qed.

(** C21. my_like_range_simple of a pattern gives two keys of the length of the
    index such that the key of every string that matches (the first bytes of it,
    filled up with spaces) is between them, byte by byte under the weights of the
    collation.  The lengths it returns are lengths inside of the keys.  The
    character set has one byte for a character (mbmaxlen 1), max_sort_char is the
    one that set_max_sort_char has found, no weight is less than that of the byte
    0, and the escape character is not one of the two wildcards, which are
    different. *)
Theorem my_like_range_simple_sound conv m binsort escape w_one w_many ptr res_length str :
  is_byte m -> (forall c, is_byte c -> conv 0 <= conv c) ->
  w_one <> w_many -> escape <> w_one /\ escape <> w_many -> Forall is_byte str ->
  like (fun c d => conv c =? conv d) (tokens escape w_one w_many ptr) str = true ->
  let '(min_str, max_str, min_length, max_length) :=
    my_like_range_simple (set_max_sort_char conv m) 1 binsort escape w_one w_many ptr res_length in
  length min_str = res_length /\ length max_str = res_length /\
  (min_length <= max_length <= res_length)%nat /\
  Forall2 (fun c d => conv c <= conv d) min_str (index_key res_length str) /\
  Forall2 (fun c d => conv c <= conv d) (index_key res_length str) max_str.
Proof.
  intros Hm H0. destruct (set_max_sort_char_ok conv m Hm) as [Hb Hmax]. apply like_range_simple_ok; [done|]. auto.
Qed.

(** With an escape character that is a wildcard the two functions differ:
    my_wildcmp_8bit takes it as a wildcard and my_like_range_simple as an escape.
    The string [hakan] matches the pattern [ha%%an] with the escape character
    [%], and the range of the pattern is [ha%an] alone. *)
Example my_like_range_simple_escape_wildcard :
  my_wildcmp_bin (fun _ => false) 37 95 37 0 [104; 97; 107; 97; 110] [104; 97; 37; 37; 97; 110] = Some 0 /\
  my_like_range_simple 255 1 true 37 95 37 [104; 97; 37; 37; 97; 110] 5 =
    ([104; 97; 37; 97; 110], [104; 97; 37; 97; 110], 5%nat, 5%nat).
Proof. done. Qed.

(** ** Witnesses *)

(** The string [aba], the pattern [%_a] with one more [%] at its front, and
    [a] before [%]. *)
Definition s_aba : list Z := [97; 98; 97].
Definition w_many_one_a : list Z := [37; 37; 95; 97].
Definition w_a_many : list Z := [97; 37].

Lemma my_wildcmp_8bit_correct_witness : exists r,
  my_wildcmp_bin (fun _ => false) 92 95 37 0 s_aba w_many_one_a = Some r /\
  like_result Z.eqb (tokens 92 95 37 w_many_one_a) s_aba r.
Proof.
  destruct (my_wildcmp_8bit_correct (fun c => c) (fun _ => false) 92 95 37 0 s_aba w_many_one_a) as (r & H1 & _ & H2);
    try done; [by left|by apply bytes_ok|by apply bytes_ok|].
  exists r. split; [exact H1|]. by apply H2.
Defined.

Lemma my_like_range_simple_sound_witness :
  my_like_range_simple 255 1 true 92 95 37 w_a_many 4 = ([97; 0; 0; 0], [97; 255; 255; 255], 1%nat, 4%nat) /\
  Forall2 (fun c d => c <= d) (index_key 4 [97; 98]) [97; 255; 255; 255].
Proof.
  split; [done|].
  pose proof (my_like_range_simple_sound (fun c => c) 255 true 92 95 37 w_a_many 4 [97; 98]
    ltac:(by split) ltac:(unfold is_byte; lia) ltac:(done) ltac:(done) ltac:(by apply bytes_ok) ltac:(done)) as H.
  exact (proj2 (proj2 (proj2 (proj2 H)))).
Defined.
