(* ===== verification/Utf8.v ===== *)
(** * UTF-8

    The coding of characters of strings/ctype-utf8.c for the character sets utf8
    (at most three bytes) and utf8mb4 (at most four): my_utf8_uni, my_uni_utf8,
    my_mb_wc_utf8mb4, my_wc_mb_utf8mb4, the lengths of characters and the well
    formed part of a string.  UNICODE_32BIT is not defined.

    A string is the list of its bytes up to the end pointer.  A decoder returns
    the code and the length, [inr], or the error code, [inl], which is not
    positive. *)

From stdpp Require Import prelude list list_numbers numbers.
From Stdlib Require Import ZArith Lia ZifyNat Bool.
From S2P Require Import Prelude.

Open Scope c_scope.

(** ** include/m_ctype.h *)

Definition MY_CS_ILSEQ : Z := 0.
Definition MY_CS_ILUNI : Z := 0.
Definition MY_CS_TOOSMALL : Z := -101.
Definition MY_CS_TOOSMALL2 : Z := -102.
Definition MY_CS_TOOSMALL3 : Z := -103.
Definition MY_CS_TOOSMALL4 : Z := -104.
Definition MY_CS_TOOSMALLN (n : Z) : Z := -100 - n.

(** ** Decoding *)

Definition IS_CONTINUATION_BYTE (c : Z) : bool := (c .^ 128) <? 64.

(** The codes of two, three and four bytes. *)
Definition uni2 (c s1 : Z) : Z := ((c .& 31) .<< 6) .| (s1 .^ 128).
Definition uni3 (c s1 s2 : Z) : Z := ((c .& 15) .<< 12) .| ((s1 .^ 128) .<< 6) .| (s2 .^ 128).
Definition uni4 (c s1 s2 s3 : Z) : Z :=
  ((c .& 7) .<< 18) .| ((s1 .^ 128) .<< 12) .| ((s2 .^ 128) .<< 6) .| (s3 .^ 128).

(** The conditions on the bytes behind the first. *)
Definition seq3 (c s1 s2 : Z) : bool :=
  IS_CONTINUATION_BYTE s1 && IS_CONTINUATION_BYTE s2 && ((c >=? 225) || (s1 >=? 160)).
Definition seq4 (c s1 s2 s3 : Z) : bool :=
  IS_CONTINUATION_BYTE s1 && IS_CONTINUATION_BYTE s2 && IS_CONTINUATION_BYTE s3 &&
  ((c >=? 241) || (s1 >=? 144)) && ((c <=? 243) || (s1 <=? 143)).

Definition my_utf8_uni (s : list Z) : Z + Z * nat :=
  match s with
  | [] => inl MY_CS_TOOSMALL
  | c :: s =>
    if c <? 128 then inr (c, 1%nat)
    else if c <? 194 then inl MY_CS_ILSEQ
    else if c <? 224 then
      match s with
      | s1 :: _ => if IS_CONTINUATION_BYTE s1 then inr (uni2 c s1, 2%nat) else inl MY_CS_ILSEQ
      | _ => inl MY_CS_TOOSMALL2
      end
    else if c <? 240 then
      match s with
      | s1 :: s2 :: _ => if seq3 c s1 s2 then inr (uni3 c s1 s2, 3%nat) else inl MY_CS_ILSEQ
      | _ => inl MY_CS_TOOSMALL3
      end
    else inl MY_CS_ILSEQ
  end.

Definition my_mb_wc_utf8mb4 (s : list Z) : Z + Z * nat :=
  match s with
  | [] => inl MY_CS_TOOSMALL
  | c :: s =>
    if c <? 128 then inr (c, 1%nat)
    else if c <? 194 then inl MY_CS_ILSEQ
    else if c <? 224 then
      match s with
      | s1 :: _ => if IS_CONTINUATION_BYTE s1 then inr (uni2 c s1, 2%nat) else inl MY_CS_ILSEQ
      | _ => inl MY_CS_TOOSMALL2
      end
    else if c <? 240 then
      match s with
      | s1 :: s2 :: _ => if seq3 c s1 s2 then inr (uni3 c s1 s2, 3%nat) else inl MY_CS_ILSEQ
      | _ => inl MY_CS_TOOSMALL3
      end
    else if c <? 245 then
      match s with
      | s1 :: s2 :: s3 :: _ => if seq4 c s1 s2 s3 then inr (uni4 c s1 s2 s3, 4%nat) else inl MY_CS_ILSEQ
      | _ => inl MY_CS_TOOSMALL4
      end
    else inl MY_CS_ILSEQ
  end.

(** ** Encoding *)

(** [switch (count)], whose cases fall through: the bytes at [r]. *)
Definition last_byte (wc : Z) : Z := u8 (128 .| (wc .& 63)).
Definition store1 (wc : Z) : list Z := [u8 wc].
Definition store2 (wc : Z) : list Z := store1 ((wc .>> 6) .| 192) ++ [last_byte wc].
Definition store3 (wc : Z) : list Z := store2 ((wc .>> 6) .| 2048) ++ [last_byte wc].
Definition store4 (wc : Z) : list Z := store3 ((wc .>> 6) .| 65536) ++ [last_byte wc].

Definition store_char (count wc : Z) : list Z :=
  if count =? 4 then store4 wc else if count =? 3 then store3 wc else if count =? 2 then store2 wc else store1 wc.

(** [room] is the number of bytes between [r] and [e]. *)
Definition my_uni_utf8 (wc room : Z) : Z + list Z :=
  if room <=? 0 then inl MY_CS_TOOSMALL
  else
    let put_char count := if count >? room then inl (MY_CS_TOOSMALLN count) else inr (store_char count wc) in
    if wc <? 128 then put_char 1
    else if wc <? 2048 then put_char 2
    else if wc <? 65536 then put_char 3
    else inl MY_CS_ILUNI.

Definition my_wc_mb_utf8mb4 (wc room : Z) : Z + list Z :=
  if room <=? 0 then inl MY_CS_TOOSMALL
  else
    let put_char count := if count >? room then inl (MY_CS_TOOSMALLN count) else inr (store_char count wc) in
    if wc <? 128 then put_char 1
    else if wc <? 2048 then put_char 2
    else if wc <? 65536 then put_char 3
    else if wc <? 2097152 then put_char 4
    else inl MY_CS_ILUNI.

(** ** Lengths *)

Definition my_valid_mbcharlen_utf8mb3 (s : list Z) : Z :=
  match s with
  | [] => MY_CS_TOOSMALL
  | c :: s =>
    if c <? 128 then 1
    else if c <? 194 then MY_CS_ILSEQ
    else if c <? 224 then
      match s with
      | s1 :: _ => if IS_CONTINUATION_BYTE s1 then 2 else MY_CS_ILSEQ
      | _ => MY_CS_TOOSMALL2
      end
    else
      match s with
      | s1 :: s2 :: _ => if seq3 c s1 s2 then 3 else MY_CS_ILSEQ
      | _ => MY_CS_TOOSMALL3
      end
  end.

Definition my_valid_mbcharlen_utf8 (s : list Z) : Z :=
  match s with
  | [] => MY_CS_TOOSMALL
  | c :: _ => if c <? 240 then my_valid_mbcharlen_utf8mb3 s else MY_CS_ILSEQ
  end.

Definition my_valid_mbcharlen_utf8mb4 (s : list Z) : Z :=
  match s with
  | [] => MY_CS_TOOSMALL
  | c :: s' =>
    if c <? 240 then my_valid_mbcharlen_utf8mb3 s
    else if c <? 245 then
      match s' with
      | s1 :: s2 :: s3 :: _ => if seq4 c s1 s2 s3 then 4 else MY_CS_ILSEQ
      | _ => MY_CS_TOOSMALL4
      end
    else MY_CS_ILSEQ
  end.

(** The loop of my_well_formed_len_utf8, over [pos] characters: the length and
    *error. *)
Fixpoint well_formed_len (charlen : list Z -> Z) (pos : nat) (b : list Z) : Z * Z :=
  match pos with
  | O => (0, 0)
  | S pos =>
    let mb_len := charlen b in
    if mb_len <=? 0 then (0, match b with [] => 0 | _ => 1 end)
    else let '(n, error) := well_formed_len charlen pos (drop (Z.to_nat mb_len) b) in (mb_len + n, error)
  end.

Definition my_well_formed_len_utf8 (b : list Z) (pos : nat) : Z * Z := well_formed_len my_valid_mbcharlen_utf8 pos b.
Definition my_well_formed_len_utf8mb4 (b : list Z) (pos : nat) : Z * Z :=
  well_formed_len my_valid_mbcharlen_utf8mb4 pos b.

Definition my_ismbchar_utf8 (b : list Z) : Z :=
  let res := my_valid_mbcharlen_utf8 b in if res >? 1 then res else 0.
Definition my_ismbchar_utf8mb4 (b : list Z) : Z :=
  let res := my_valid_mbcharlen_utf8mb4 b in if res >? 1 then res else 0.

Definition my_mbcharlen_utf8 (c : Z) : Z :=
  if c <? 128 then 1 else if c <? 194 then 0 else if c <? 224 then 2 else if c <? 240 then 3 else 0.
Definition my_mbcharlen_utf8mb4 (c : Z) : Z :=
  if c <? 128 then 1 else if c <? 194 then 0 else if c <? 224 then 2 else if c <? 240 then 3
  else if c <? 248 then 4 else 0.

(** ** The values *)

Lemma cont_spec b : is_byte b -> IS_CONTINUATION_BYTE b = (128 <=? b) && (b <? 192).
Proof.
  intros Hb. apply eqb_prop. revert b Hb.
  apply (byte_check (fun b => eqb (IS_CONTINUATION_BYTE b) ((128 <=? b) && (b <? 192)))). by vm_compute.
Qed.

(** The bits of a first byte and of a continuation byte. *)
Lemma lead_bits c : is_byte c ->
  (192 <= c < 224 -> c .& 31 = c - 192) /\ (224 <= c < 240 -> c .& 15 = c - 224) /\
  (240 <= c < 248 -> c .& 7 = c - 240) /\ (128 <= c -> c .^ 128 = c - 128).
Proof.
  intros Hc.
  pose proof (byte_check (fun c =>
    (negb ((192 <=? c) && (c <? 224)) || (c .& 31 =? c - 192)) &&
    (negb ((224 <=? c) && (c <? 240)) || (c .& 15 =? c - 224)) &&
    (negb ((240 <=? c) && (c <? 248)) || (c .& 7 =? c - 240)) &&
    (negb (128 <=? c) || (c .^ 128 =? c - 128))) ltac:(by vm_compute) c Hc) as H.
  cbv beta in H. rewrite !andb_true_iff, !orb_true_iff, !negb_true_iff, !andb_false_iff in H.
  rewrite !Z.eqb_eq, !Z.leb_gt, !Z.ltb_ge in H. lia.
Qed.

Lemma uni2_val c s1 : is_byte c -> is_byte s1 -> 192 <= c < 224 -> 128 <= s1 < 192 ->
  uni2 c s1 = (c - 192) * 64 + (s1 - 128).
Proof.
  intros Hc H1 ? ?. destruct (lead_bits c Hc) as (E & _). destruct (lead_bits s1 H1) as (_ & _ & _ & E1).
  unfold uni2. rewrite E, E1, lor_shift by lia. done.
Qed.

Lemma uni3_val c s1 s2 : is_byte c -> is_byte s1 -> is_byte s2 -> 224 <= c < 240 -> 128 <= s1 < 192 -> 128 <= s2 < 192 ->
  uni3 c s1 s2 = (c - 224) * 4096 + (s1 - 128) * 64 + (s2 - 128).
Proof.
  intros Hc H1 H2 ? ? ?. destruct (lead_bits c Hc) as (_ & E & _). destruct (lead_bits s1 H1) as (_ & _ & _ & E1).
  destruct (lead_bits s2 H2) as (_ & _ & _ & E2). unfold uni3.
  rewrite E, E1, E2, <- Z.lor_assoc, (lor_shift (s1 - 128)), (lor_shift (c - 224)) by lia. lia.
Qed.

Lemma uni4_val c s1 s2 s3 : is_byte c -> is_byte s1 -> is_byte s2 -> is_byte s3 ->
  240 <= c < 248 -> 128 <= s1 < 192 -> 128 <= s2 < 192 -> 128 <= s3 < 192 ->
  uni4 c s1 s2 s3 = (c - 240) * 262144 + (s1 - 128) * 4096 + (s2 - 128) * 64 + (s3 - 128).
Proof.
  intros Hc H1 H2 H3 ? ? ? ?. destruct (lead_bits c Hc) as (_ & _ & E & _). destruct (lead_bits s1 H1) as (_ & _ & _ & E1).
  destruct (lead_bits s2 H2) as (_ & _ & _ & E2). destruct (lead_bits s3 H3) as (_ & _ & _ & E3). unfold uni4.
  rewrite E, E1, E2, E3, <- !Z.lor_assoc, (lor_shift (s2 - 128)) by lia. change (2 ^ 6) with 64.
  rewrite (lor_shift (s1 - 128)) by lia. change (2 ^ 12) with 4096. rewrite (lor_shift (c - 240)) by lia. change (2 ^ 18) with 262144. lia.
Qed.

Lemma last_byte_val wc : last_byte wc = 128 + wc mod 64.
Proof.
  unfold last_byte. change 63 with (Z.ones 6). rewrite Z.land_ones by lia. change (2 ^ 6) with 64.
  pose proof (Z.mod_pos_bound wc 64 ltac:(lia)). change 128 with (1 .<< 7) at 1.
  rewrite lor_shift by lia. change (1 * 2 ^ 7) with 128. apply u8_small. lia.
Qed.

Lemma store2_val wc : 0 <= wc < 4096 -> store2 wc = [192 + wc / 64; 128 + wc mod 64].
Proof.
  intros H. unfold store2, store1. rewrite last_byte_val, Z.shiftr_div_pow2 by lia. change (2 ^ 6) with 64.
  change 192 with (3 .<< 6) at 1. rewrite Z.lor_comm, lor_shift by zdiv. change (3 * 2 ^ 6) with 192. rewrite u8_small by zdiv. done.
Qed.

Lemma store3_val wc : 0 <= wc < 131072 ->
  store3 wc = [192 + (2048 + wc / 64) / 64; 128 + (wc / 64) mod 64; 128 + wc mod 64].
Proof.
  intros H. unfold store3. rewrite last_byte_val, Z.shiftr_div_pow2 by lia. change (2 ^ 6) with 64.
  change 2048 with (1 .<< 11) at 1. rewrite Z.lor_comm, lor_shift by zdiv. change (1 * 2 ^ 11) with 2048.
  rewrite store2_val by zdiv. simpl. do 2 f_equal. f_equal. zdiv.
Qed.

Lemma store4_val wc : 0 <= wc < 2097152 ->
  store4 wc = [192 + (2048 + (65536 + wc / 64) / 64) / 64; 128 + (wc / 4096) mod 64; 128 + (wc / 64) mod 64; 128 + wc mod 64].
Proof.
  intros H. unfold store4. rewrite last_byte_val, Z.shiftr_div_pow2 by lia. change (2 ^ 6) with 64.
  change 65536 with (1 .<< 16) at 1. rewrite Z.lor_comm, lor_shift by zdiv. change (1 * 2 ^ 16) with 65536.
  rewrite store3_val by zdiv. simpl. do 2 f_equal; [zdiv|]. f_equal. f_equal. zdiv.
Qed.

(** ** The code *)

(** UTF-8 as the standard defines it, for codes up to 0x1FFFFF. *)
Definition utf8 (wc : Z) : list Z :=
  if wc <? 128 then [wc]
  else if wc <? 2048 then [192 + wc / 64; 128 + wc mod 64]
  else if wc <? 65536 then [224 + wc / 4096; 128 + (wc / 64) mod 64; 128 + wc mod 64]
  else [240 + wc / 262144; 128 + (wc / 4096) mod 64; 128 + (wc / 64) mod 64; 128 + wc mod 64].

Lemma utf8_length wc : (1 <= length (utf8 wc) <= 4)%nat /\ (wc < 65536 -> (length (utf8 wc) <= 3)%nat).
Proof. unfold utf8. repeat case_if; simpl; lia. Qed.

Lemma store_char_utf8 wc : 0 <= wc < 2097152 -> store_char (Z.of_nat (length (utf8 wc))) wc = utf8 wc.
Proof.
  intros H. unfold utf8. repeat case_if; simpl; cbv [store_char Z.eqb Pos.eqb]; b2p.
  - unfold store1. by rewrite u8_small by lia.
  - apply store2_val. lia.
  - rewrite store3_val by lia. f_equal. zdiv.
  - rewrite store4_val by lia. f_equal. zdiv.
Qed.

(** The encoders store the code, if there is room and it is in their range. *)
Lemma my_wc_mb_utf8mb4_val wc room : 0 <= wc -> 0 < room ->
  my_wc_mb_utf8mb4 wc room =
    if wc <? 2097152 then
      if Z.of_nat (length (utf8 wc)) >? room then inl (MY_CS_TOOSMALLN (Z.of_nat (length (utf8 wc)))) else inr (utf8 wc)
    else inl MY_CS_ILUNI.
Proof.
  intros H Hr. unfold my_wc_mb_utf8mb4. rewrite (proj2 (Z.leb_gt _ _)) by lia. destruct (Z.ltb_spec wc 2097152).
  - rewrite <- store_char_utf8 at 3 by lia. unfold utf8. destruct (wc <? 128), (wc <? 2048), (wc <? 65536); reflexivity.
  - by rewrite !(proj2 (Z.ltb_ge wc _)) by lia.
Qed.

Lemma my_uni_utf8_val wc room : 0 <= wc -> 0 < room ->
  my_uni_utf8 wc room = if wc <? 65536 then my_wc_mb_utf8mb4 wc room else inl MY_CS_ILUNI.
Proof.
  intros H Hr. unfold my_uni_utf8, my_wc_mb_utf8mb4. rewrite (proj2 (Z.leb_gt _ _)) by lia. repeat case_if; b2p; (done || lia).
Qed.

(** What the decoders accept: the four forms of a character. *)
Definition form2 (c s1 : Z) : Prop := 194 <= c < 224 /\ 128 <= s1 < 192.
Definition form3 (c s1 s2 : Z) : Prop :=
  224 <= c < 240 /\ 128 <= s1 < 192 /\ 128 <= s2 < 192 /\ (c = 224 -> 160 <= s1).
Definition form4 (c s1 s2 s3 : Z) : Prop :=
  240 <= c < 245 /\ 128 <= s1 < 192 /\ 128 <= s2 < 192 /\ 128 <= s3 < 192 /\ (c = 240 -> 144 <= s1) /\ (c = 244 -> s1 < 144).

Lemma seq3_form c s1 s2 : is_byte s1 -> is_byte s2 -> 224 <= c < 240 -> seq3 c s1 s2 = true <-> form3 c s1 s2.
Proof.
  intros H1 H2 Hc. unfold seq3, form3. rewrite !cont_spec, !andb_true_iff, orb_true_iff by done.
  rewrite !Z.leb_le, !Z.ltb_lt, !Z.geb_le. lia.
Qed.

Lemma seq4_form c s1 s2 s3 : is_byte s1 -> is_byte s2 -> is_byte s3 -> 240 <= c < 245 ->
  seq4 c s1 s2 s3 = true <-> form4 c s1 s2 s3.
Proof.
  intros H1 H2 H3 Hc. unfold seq4, form4. rewrite !cont_spec, !andb_true_iff, !orb_true_iff by done.
  rewrite !Z.leb_le, !Z.ltb_lt, !Z.geb_le. lia.
Qed.

(** The number of bytes, the code and the bytes of a character. *)
Inductive char_of : list Z -> Z -> nat -> Prop :=
  | char1 c s : 0 <= c < 128 -> char_of (c :: s) c 1
  | char2 c s1 s : form2 c s1 -> char_of (c :: s1 :: s) ((c - 192) * 64 + (s1 - 128)) 2
  | char3 c s1 s2 s : form3 c s1 s2 ->
    char_of (c :: s1 :: s2 :: s) ((c - 224) * 4096 + (s1 - 128) * 64 + (s2 - 128)) 3
  | char4 c s1 s2 s3 s : form4 c s1 s2 s3 ->
    char_of (c :: s1 :: s2 :: s3 :: s) ((c - 240) * 262144 + (s1 - 128) * 4096 + (s2 - 128) * 64 + (s3 - 128)) 4.

Lemma mb4_char s wc n : Forall is_byte s -> my_mb_wc_utf8mb4 s = inr (wc, n) <-> char_of s wc n.
Proof.
  intros Hs. split.
  - destruct s as [|c s]; [done|]. inversion Hs as [|? ? Hc Hs1]; subst. simpl.
    destruct (Z.ltb_spec c 128); [intros [= <- <-]; constructor; unfold is_byte in Hc; lia|].
    destruct (Z.ltb_spec c 194); [done|]. destruct (Z.ltb_spec c 224).
    { destruct s as [|s1 s]; [done|]. inversion Hs1 as [|? ? B1 _]; subst. rewrite cont_spec by done.
      destruct (_ && _) eqn:E; [|done]. b2p. intros [= <- <-]. rewrite uni2_val by (done || lia). constructor. split; lia. }
    destruct (Z.ltb_spec c 240).
    { destruct s as [|s1 [|s2 s]]; [done|done|]. inversion Hs1 as [|? ? B1 Hs2]; subst. inversion Hs2 as [|? ? B2 _]; subst.
      destruct (seq3 c s1 s2) eqn:E; [|done]. apply seq3_form in E; [|done|done|lia]. intros [= <- <-].
      rewrite uni3_val by (done || (unfold form3 in E; lia)). by constructor. }
    destruct (Z.ltb_spec c 245); [|done]. destruct s as [|s1 [|s2 [|s3 s]]]; [done|done|done|].
    inversion Hs1 as [|? ? B1 Hs2]; subst. inversion Hs2 as [|? ? B2 Hs3]; subst. inversion Hs3 as [|? ? B3 _]; subst.
    destruct (seq4 c s1 s2 s3) eqn:E; [|done]. apply seq4_form in E; [|done|done|done|lia]. intros [= <- <-].
    rewrite uni4_val by (done || (unfold form4 in E; lia)). by constructor.
  - destruct 1 as [c s Hc|c s1 s F|c s1 s2 s F|c s1 s2 s3 s F]; simpl.
    + by rewrite (proj2 (Z.ltb_lt _ _)) by lia.
    + destruct F. rewrite (proj2 (Z.ltb_ge c 128)), (proj2 (Z.ltb_ge c 194)), (proj2 (Z.ltb_lt c 224)) by lia.
      inversion Hs as [|? ? B Hs1]; subst. inversion Hs1 as [|? ? B1 _]; subst.
      rewrite cont_spec, uni2_val by (done || lia). by rewrite (proj2 (Z.leb_le _ _)), (proj2 (Z.ltb_lt s1 _)) by lia.
    + pose proof F as (? & ? & ? & _).
      rewrite (proj2 (Z.ltb_ge c 128)), (proj2 (Z.ltb_ge c 194)), (proj2 (Z.ltb_ge c 224)), (proj2 (Z.ltb_lt c 240)) by lia.
      inversion Hs as [|? ? B Hs1]; subst. inversion Hs1 as [|? ? B1 Hs2]; subst. inversion Hs2 as [|? ? B2 _]; subst.
      apply seq3_form in F; [|done|done|done]. rewrite F, uni3_val by done. done.
    + pose proof F as (? & ? & ? & ? & _).
      rewrite (proj2 (Z.ltb_ge c 128)), (proj2 (Z.ltb_ge c 194)), (proj2 (Z.ltb_ge c 224)), (proj2 (Z.ltb_ge c 240)),
        (proj2 (Z.ltb_lt c 245)) by lia.
      inversion Hs as [|? ? B Hs1]; subst. inversion Hs1 as [|? ? B1 Hs2]; subst. inversion Hs2 as [|? ? B2 Hs3]; subst.
      inversion Hs3 as [|? ? B3 _]; subst. apply seq4_form in F; [|done|done|done|done]. rewrite F, uni4_val by (done || lia). done.
Qed.

Lemma mb3_char s wc n : Forall is_byte s -> my_utf8_uni s = inr (wc, n) <-> char_of s wc n /\ (n <= 3)%nat.
Proof.
  intros Hs. rewrite <- mb4_char by done. destruct s as [|c s]; [naive_solver|]. simpl.
  destruct (c <? 128); [naive_solver lia|]. destruct (c <? 194); [naive_solver|]. destruct (c <? 224).
  { destruct s as [|s1 s]; [naive_solver|]. destruct (IS_CONTINUATION_BYTE s1); naive_solver lia. }
  destruct (c <? 240).
  { destruct s as [|s1 [|s2 s]]; [naive_solver|naive_solver|]. destruct (seq3 c s1 s2); naive_solver lia. }
  destruct (c <? 245); [|naive_solver]. destruct s as [|s1 [|s2 [|s3 s]]]; [naive_solver|naive_solver|naive_solver|].
  destruct (seq4 c s1 s2 s3); naive_solver lia.
Qed.


Lemma char_utf8 wc rest : 0 <= wc <= 1114111 -> char_of (utf8 wc ++ rest) wc (length (utf8 wc)).
Proof.
  intros H. unfold utf8. repeat case_if; b2p; simpl.
  - constructor. lia.
  - pose proof (char2 (192 + wc / 64) (128 + wc mod 64) rest ltac:(split; zdiv)) as F.
    by replace ((192 + wc / 64 - 192) * 64 + (128 + wc mod 64 - 128)) with wc in F by zdiv.
  - pose proof (char3 (224 + wc / 4096) (128 + (wc / 64) mod 64) (128 + wc mod 64) rest ltac:(split_and!; zdiv)) as F.
    by replace (_ + _ + (128 + wc mod 64 - 128)) with wc in F by zdiv.
  - pose proof (char4 (240 + wc / 262144) (128 + (wc / 4096) mod 64) (128 + (wc / 64) mod 64) (128 + wc mod 64) rest
      ltac:(split_and!; zdiv)) as F.
    by replace (_ + _ + _ + (128 + wc mod 64 - 128)) with wc in F by zdiv.
Qed.

Lemma char_inv s wc n : char_of s wc n ->
  0 <= wc <= 1114111 /\ take n s = utf8 wc /\ n = length (utf8 wc) /\ s = utf8 wc ++ drop n s.
Proof.
  intros H. cut (0 <= wc <= 1114111 /\ take n s = utf8 wc /\ (n <= length s)%nat).
  { intros (H1 & H2 & H3). split; [done|]. split_and!; [done| |by rewrite <- H2, take_drop]. by rewrite <- H2, length_take, Nat.min_l. }
  destruct H as [c s Hc|c s1 s F|c s1 s2 s F|c s1 s2 s3 s F]; simpl.
  - unfold utf8. rewrite (proj2 (Z.ltb_lt _ _)) by lia. by split_and!; [lia|lia| |lia].
  - destruct F. unfold utf8. rewrite (proj2 (Z.ltb_ge _ 128)), (proj2 (Z.ltb_lt _ 2048)) by lia.
    split_and!; [lia|lia| |lia]. f_equal; [zdiv|]. f_equal. zdiv.
  - unfold form3 in F. unfold utf8. rewrite (proj2 (Z.ltb_ge _ 128)), (proj2 (Z.ltb_ge _ 2048)), (proj2 (Z.ltb_lt _ 65536)) by lia.
    split_and!; [lia|lia| |lia]. do 2 (f_equal; [zdiv|]). f_equal. zdiv.
  - unfold form4 in F. unfold utf8. rewrite (proj2 (Z.ltb_ge _ 128)), (proj2 (Z.ltb_ge _ 2048)), (proj2 (Z.ltb_ge _ 65536)) by lia.
    split_and!; [lia|lia| |lia]. do 3 (f_equal; [zdiv|]). f_equal. zdiv.
Qed.

Lemma utf8_bytes wc : 0 <= wc <= 1114111 -> Forall is_byte (utf8 wc).
Proof. intros H. unfold utf8, is_byte. repeat case_if; b2p; repeat constructor; zdiv. Qed.

Lemma utf8_short wc : (length (utf8 wc) <= 3)%nat -> wc < 65536.
Proof. unfold utf8. repeat case_if; b2p; simpl; lia. Qed.

(** ** The interface

    What the comparisons of a character set use of its decoder. *)

Class MultiByte (mb_wc : list Z -> Z + Z * nat) (max : Z) : Prop := {
  mb_nil : exists e, mb_wc [] = inl e;
  mb_error s e : mb_wc s = inl e -> e <= 0;
  mb_len s wc n : Forall is_byte s -> mb_wc s = inr (wc, n) -> (1 <= n <= length s)%nat;
  mb_prefix s t wc n : Forall is_byte s -> Forall is_byte t -> mb_wc s = inr (wc, n) -> mb_wc (take n s ++ t) = inr (wc, n);
  mb_ascii c s : 0 <= c < 128 -> Forall is_byte s -> mb_wc (c :: s) = inr (c, 1%nat);
  mb_multi s wc n : Forall is_byte s -> mb_wc s = inr (wc, n) -> n <> 1%nat ->
    128 <= wc /\ Forall (fun b => 128 <= b) (take n s);
  mb_code s wc n : Forall is_byte s -> mb_wc s = inr (wc, n) -> 0 <= wc <= max /\ take n s = utf8 wc;
  mb_utf8 wc s : 0 <= wc <= max -> Forall is_byte s -> mb_wc (utf8 wc ++ s) = inr (wc, length (utf8 wc))
}.

Lemma char_multi s wc n : char_of s wc n -> n <> 1%nat -> 128 <= wc /\ Forall (fun b => 128 <= b) (take n s).
Proof.
  destruct 1 as [c s Hc|c s1 s F|c s1 s2 s F|c s1 s2 s3 s F]; simpl; intros Hn; [done|..];
    unfold form2, form3, form4 in F; (split; [lia|]); repeat constructor; lia.
Qed.

Lemma char_prefix s t wc n : char_of s wc n -> char_of (take n s ++ t) wc n.
Proof. destruct 1; simpl; by constructor. Qed.

#[export] Instance utf8mb4_multibyte : MultiByte my_mb_wc_utf8mb4 1114111.
Proof.
  split.
  - by eexists.
  - intros s e. unfold my_mb_wc_utf8mb4. repeat (case_match; try done); by intros [= <-].
  - intros s wc n Hs (_ & _ & -> & E)%mb4_char%char_inv; [|done]. rewrite E, length_app. pose proof (utf8_length wc). lia.
  - intros s t wc n Hs Ht H. apply mb4_char; [by apply Forall_app_2; [apply Forall_take|]|].
    apply char_prefix. by apply mb4_char in H.
  - intros c s Hc Hs. apply mb4_char; [constructor; [unfold is_byte; lia|done]|]. by constructor.
  - intros s wc n Hs H%mb4_char; [|done]. by apply char_multi.
  - intros s wc n Hs (? & ? & _)%mb4_char%char_inv; [|done]. split; [lia|done].
  - intros wc s Hw Hs. apply mb4_char; [by apply Forall_app_2; [apply utf8_bytes|]|]. by apply char_utf8.
Qed.

#[export] Instance utf8_multibyte : MultiByte my_utf8_uni 65535.
Proof.
  split.
  - by eexists.
  - intros s e. unfold my_utf8_uni. repeat (case_match; try done); by intros [= <-].
  - intros s wc n Hs [(_ & _ & -> & E)%char_inv _]%mb3_char; [|done]. rewrite E, length_app. pose proof (utf8_length wc). lia.
  - intros s t wc n Hs Ht H. apply mb3_char; [by apply Forall_app_2; [apply Forall_take|]|].
    apply mb3_char in H as [H Hn]; [|done]. split; [by apply char_prefix|done].
  - intros c s Hc Hs. apply mb3_char; [constructor; [unfold is_byte; lia|done]|]. split; [by constructor|lia].
  - intros s wc n Hs [H _]%mb3_char; [|done]. by apply char_multi.
  - intros s wc n Hs [(? & ? & -> & _)%char_inv H3%utf8_short]%mb3_char; [|done]. split; [lia|done].
  - intros wc s Hw Hs. apply mb3_char; [apply Forall_app_2; [apply utf8_bytes; lia|done]|].
    split; [apply char_utf8; lia|]. apply utf8_length. lia.
Qed.

(** What the encoder of four bytes stores above 0x10FFFF is no character. *)
Lemma mb4_beyond wc rest : 1114111 < wc < 2097152 -> my_mb_wc_utf8mb4 (utf8 wc ++ rest) = inl MY_CS_ILSEQ.
Proof.
  intros H. unfold utf8. rewrite !(proj2 (Z.ltb_ge wc _)) by lia. cbn [app my_mb_wc_utf8mb4].
  assert (244 <= 240 + wc / 262144) as Hc by zdiv.
  rewrite (proj2 (Z.ltb_ge _ 128)), (proj2 (Z.ltb_ge _ 194)), (proj2 (Z.ltb_ge _ 224)), (proj2 (Z.ltb_ge _ 240)) by lia.
  destruct (Z.ltb_spec (240 + wc / 262144) 245); [|done]. unfold seq4.
  rewrite (proj2 (Z.leb_gt _ 243)), (proj2 (Z.leb_gt _ 143)) by zdiv. by rewrite !andb_false_r.
Qed.

(** C22. Every code up to 0x10FFFF is stored by my_wc_mb_utf8mb4 and read back by
    my_mb_wc_utf8mb4, whatever follows it, and every code below 0x10000 by
    my_uni_utf8 and my_utf8_uni.  No other code is: my_uni_utf8 refuses the codes
    from 0x10000 on and my_wc_mb_utf8mb4 those from 0x200000 on; the codes from
    0x110000 to 0x1FFFFF it stores, and my_mb_wc_utf8mb4 refuses the bytes. *)
Theorem utf8_roundtrip wc rest : 0 <= wc -> Forall is_byte rest ->
  (wc <= 1114111 ->
   exists bytes, my_wc_mb_utf8mb4 wc 4 = inr bytes /\ my_mb_wc_utf8mb4 (bytes ++ rest) = inr (wc, length bytes)) /\
  (wc < 65536 -> exists bytes, my_uni_utf8 wc 3 = inr bytes /\ my_utf8_uni (bytes ++ rest) = inr (wc, length bytes)) /\
  (65536 <= wc -> my_uni_utf8 wc 3 = inl MY_CS_ILUNI) /\
  (2097152 <= wc -> my_wc_mb_utf8mb4 wc 4 = inl MY_CS_ILUNI) /\
  (1114111 < wc < 2097152 ->
   exists bytes, my_wc_mb_utf8mb4 wc 4 = inr bytes /\ my_mb_wc_utf8mb4 (bytes ++ rest) = inl MY_CS_ILSEQ).
Proof.
  intros H Hr. pose proof (utf8_length wc) as [Hl Hl3].
  assert (wc <= 1114111 -> Forall is_byte (utf8 wc ++ rest)) as Hb.
  { intros Hw. apply Forall_app_2; [by apply utf8_bytes|done]. }
  assert (wc < 2097152 -> my_wc_mb_utf8mb4 wc 4 = inr (utf8 wc)) as H4.
  { intros Hw. rewrite my_wc_mb_utf8mb4_val, (proj2 (Z.ltb_lt _ _)) by lia. by destruct (Z.gtb_spec (Z.of_nat (length (utf8 wc))) 4); [lia|]. }
  split_and!.
  - intros Hw. exists (utf8 wc). split; [apply H4; lia|]. apply mb4_char; [by apply Hb|by apply char_utf8].
  - intros H3. exists (utf8 wc). specialize (Hl3 H3). split.
    + rewrite my_uni_utf8_val, my_wc_mb_utf8mb4_val, !(proj2 (Z.ltb_lt _ _)) by lia.
      by destruct (Z.gtb_spec (Z.of_nat (length (utf8 wc))) 3); [lia|].
    + apply mb3_char; [apply Hb; lia|]. split; [apply char_utf8; lia|done].
  - intros Hw. by rewrite my_uni_utf8_val, (proj2 (Z.ltb_ge _ _)) by lia.
  - intros Hw. by rewrite my_wc_mb_utf8mb4_val, (proj2 (Z.ltb_ge _ _)) by lia.
  - intros Hw. exists (utf8 wc). split; [apply H4; lia|by apply mb4_beyond].
Qed.

(** C23. A character has one representation only: what a decoder accepts is a
    code in its range, and the encoder stores the same bytes for it. *)
Theorem utf8_canonical s wc n : Forall is_byte s ->
  (my_mb_wc_utf8mb4 s = inr (wc, n) -> 0 <= wc <= 1114111 /\ my_wc_mb_utf8mb4 wc (Z.of_nat n) = inr (take n s)) /\
  (my_utf8_uni s = inr (wc, n) -> 0 <= wc < 65536 /\ my_uni_utf8 wc (Z.of_nat n) = inr (take n s)).
Proof.
  intros Hs. split.
  - intros (H & -> & -> & _)%mb4_char%char_inv; [|done]. split; [done|]. pose proof (utf8_length wc).
    rewrite my_wc_mb_utf8mb4_val, (proj2 (Z.ltb_lt _ _)) by lia. by rewrite Z.gtb_ltb, (proj2 (Z.ltb_ge _ _)) by lia.
  - intros [(H & -> & -> & _)%char_inv H3]%mb3_char; [|done]. pose proof (utf8_length wc) as [Hl _].
    apply utf8_short in H3.
    split; [lia|]. rewrite my_uni_utf8_val, my_wc_mb_utf8mb4_val, !(proj2 (Z.ltb_lt _ _)) by lia.
    by rewrite Z.gtb_ltb, (proj2 (Z.ltb_ge _ _)) by lia.
Qed.

(** The lengths agree with the decoders. *)
Lemma mbcharlen_mb4 s : my_valid_mbcharlen_utf8mb4 s = match my_mb_wc_utf8mb4 s with inl e => e | inr (_, n) => Z.of_nat n end.
Proof.
  destruct s as [|c s]; [done|]. simpl. destruct (Z.ltb_spec c 240).
  - destruct (c <? 128); [done|]. destruct (c <? 194); [done|]. destruct (c <? 224).
    { destruct s as [|s1 s]; [done|]. by destruct (IS_CONTINUATION_BYTE s1). }
    destruct s as [|s1 [|s2 s]]; [done|done|]. by destruct (seq3 c s1 s2).
  - rewrite (proj2 (Z.ltb_ge c 128)), (proj2 (Z.ltb_ge c 194)), (proj2 (Z.ltb_ge c 224)), ?(proj2 (Z.ltb_ge c 240)) by lia. destruct (c <? 245); [|done].
    destruct s as [|s1 [|s2 [|s3 s]]]; [done|done|done|]. by destruct (seq4 c s1 s2 s3).
Qed.

Lemma mbcharlen_mb3 s : my_valid_mbcharlen_utf8 s = match my_utf8_uni s with inl e => e | inr (_, n) => Z.of_nat n end.
Proof.
  destruct s as [|c s]; [done|]. simpl. destruct (Z.ltb_spec c 240).
  - destruct (c <? 128); [done|]. destruct (c <? 194); [done|]. destruct (c <? 224).
    { destruct s as [|s1 s]; [done|]. by destruct (IS_CONTINUATION_BYTE s1). }
    destruct s as [|s1 [|s2 s]]; [done|done|]. by destruct (seq3 c s1 s2).
  - by rewrite !(proj2 (Z.ltb_ge c _)) by lia.
Qed.

(** ** Well-formed strings *)

(** The bytes of a string of characters. *)
Definition utf8s (l : list Z) : list Z := concat (utf8 <$> l).

Lemma utf8s_cons wc l : utf8s (wc :: l) = utf8 wc ++ utf8s l.
Proof. done. Qed.

Lemma utf8_cons wc : exists c b, utf8 wc = c :: b.
Proof. destruct (utf8 wc) as [|c b] eqn:E; [|by eexists _, _]. pose proof (utf8_length wc) as [H _]. rewrite E in H. simpl in H. lia. Qed.

Lemma utf8s_nil l : utf8s l = [] -> l = [].
Proof. destruct l as [|wc l]; [done|]. rewrite utf8s_cons. by destruct (utf8_cons wc) as (c & b & ->). Qed.

Lemma utf8s_length l : (length l <= length (utf8s l))%nat.
Proof. induction l as [|wc l IH]; [done|]. rewrite utf8s_cons, length_app. pose proof (utf8_length wc). simpl. lia. Qed.

Section well_formed.
Context (mb_wc : list Z -> Z + Z * nat) (max : Z) `{!MultiByte mb_wc max} (charlen : list Z -> Z).
Context (charlen_ok : forall s, charlen s = match mb_wc s with inl e => e | inr (_, n) => Z.of_nat n end).

(** [n] and [error] are right for at most [pos] characters of [b]. *)
Definition longest_prefix (pos : nat) (b : list Z) (n error : Z) : Prop :=
  exists l rest, b = utf8s l ++ rest /\ n = Z.of_nat (length (utf8s l)) /\ Forall (fun wc => 0 <= wc <= max) l /\
    ((error = 0 /\ (length l = pos \/ ((length l < pos)%nat /\ rest = []))) \/
     (error = 1 /\ (length l < pos)%nat /\ rest <> [] /\ forall wc r, 0 <= wc <= max -> Forall is_byte r -> rest <> utf8 wc ++ r)).

Lemma well_formed_len_ok pos b : Forall is_byte b ->
  let '(n, error) := well_formed_len charlen pos b in longest_prefix pos b n error.
Proof.
  revert b. induction pos as [|pos IH]; intros b Hb; simpl.
  { exists [], b. split_and!; [done|done|done|]. left. auto. }
  rewrite charlen_ok. destruct (mb_wc b) as [e|[wc n]] eqn:E.
  - pose proof (mb_error _ _ E). rewrite (proj2 (Z.leb_le _ _)) by done. exists [], b. split_and!; [done|done|done|].
    destruct b as [|c b]; [left|right]; simpl; (split; [done|]).
    + right. split; [lia|done].
    + split; [lia|]. split; [done|]. intros wc r Hw Hr Eq. rewrite Eq, (mb_utf8 wc r) in E by done. done.
  - pose proof (mb_len _ _ _ Hb E). destruct (mb_code _ _ _ Hb E) as [Hw Ht].
    rewrite (proj2 (Z.leb_gt _ _)) by lia. rewrite Nat2Z.id.
    specialize (IH (drop n b) ltac:(by apply Forall_drop)). destruct (well_formed_len charlen pos (drop n b)) as [m error].
    destruct IH as (l & rest & E1 & -> & Hl & Hr). exists (wc :: l), rest.
    rewrite utf8s_cons, <- Ht, <- app_assoc, <- E1, take_drop, length_app, length_take_le by lia.
    split_and!; [done|lia|by constructor|]. simpl. destruct Hr as [(-> & Hr)|(-> & Hl' & Hr)]; [left|right]; (split; [done|]).
    + destruct Hr as [->|[? ->]]; [by left|right; split; [lia|done]].
    + split; [lia|done].
Qed.
End well_formed.

(** my_well_formed_len_utf8 and my_well_formed_len_utf8mb4 return the length
    of the longest prefix of at most [pos] characters, and report an error when
    and only when what follows it is neither the end of the string nor the limit
    and is no character. *)
Theorem my_well_formed_len_correct b pos : Forall is_byte b ->
  (let '(n, error) := my_well_formed_len_utf8 b pos in longest_prefix 65535 pos b n error) /\
  (let '(n, error) := my_well_formed_len_utf8mb4 b pos in longest_prefix 1114111 pos b n error).
Proof.
  intros Hb. split.
  - exact (well_formed_len_ok my_utf8_uni 65535 _ mbcharlen_mb3 pos b Hb).
  - exact (well_formed_len_ok my_mb_wc_utf8mb4 1114111 _ mbcharlen_mb4 pos b Hb).
Qed.

(** ** Witnesses *)

(** The euro sign, and a string that ends inside of a character. *)
Definition euro : list Z := [226; 130; 172].
Definition euro_cut : list Z := [65; 226; 130; 172; 226; 130].

Lemma utf8_roundtrip_witness : exists bytes, my_uni_utf8 8364 3 = inr bytes /\ my_utf8_uni (bytes ++ [65]) = inr (8364, length bytes).
Proof. exact (proj1 (proj2 (utf8_roundtrip 8364 [65] ltac:(lia) ltac:(by apply bytes_ok))) ltac:(lia)). Defined.

Lemma utf8_canonical_witness : 0 <= 8364 < 65536 /\ my_uni_utf8 8364 3 = inr euro.
Proof. exact (proj2 (utf8_canonical euro 8364 3 ltac:(by apply bytes_ok)) eq_refl). Defined.

Lemma my_well_formed_len_correct_witness : longest_prefix 1114111 5 euro_cut 4 1.
Proof. exact (proj2 (my_well_formed_len_correct euro_cut 5 ltac:(by apply bytes_ok))). Defined.
