(* ===== verification/Utf8Coll.v ===== *)
(** * UTF-8: collation and hashing

    my_strnncoll_utf8, my_strnncollsp_utf8 and my_hash_sort_utf8 of
    strings/ctype-utf8.c and the same functions of utf8mb4.  They are written
    against the interface [MultiByte] of a decoder: the text of the functions is
    the same for both character sets but for the decoder and the weight of a
    character, which are arguments here. *)

From stdpp Require Import prelude list list_numbers numbers.
From Stdlib Require Import ZArith Lia ZifyNat Bool.
From S2P Require Import Prelude Unicase Utf8.

Open Scope c_scope.

(** ** Weights *)

Definition MY_CS_REPLACEMENT_CHARACTER : Z := 65533.

(** [plane=(wc>>8) & 0xFF; wc= uni_plane[plane] ? uni_plane[plane][wc & 0xFF].sort : wc]. *)
Definition sort_utf8 (uni_plane : uni_plane_t) (wc : Z) : Z :=
  match uni_plane ((wc .>> 8) .& 255) with
  | Some p => sort (p (wc .& 255))
  | None => wc
  end.

Definition my_tosort_unicode (uni_plane : uni_plane_t) (wc : Z) : Z :=
  let page := wc .>> 8 in
  if page <? 256 then
    match uni_plane page with
    | Some p => sort (p (wc .& 255))
    | None => wc
    end
  else MY_CS_REPLACEMENT_CHARACTER.

(** ** Comparison *)

(** The sign that memcmp returns. *)
Fixpoint memcmp (s t : list Z) : Z :=
  match s, t with
  | c :: s, d :: t => if c <? d then -1 else if c >? d then 1 else memcmp s t
  | _, _ => 0
  end.

(** The lengths are [int] in the source; strings are shorter than 2 GB. *)
Definition bincmp (s t : list Z) : Z :=
  let slen := length s in
  let tlen := length t in
  let len := (slen `min` tlen)%nat in
  let cmp := memcmp (take len s) (take len t) in
  if negb (cmp =? 0) then cmp else Z.of_nat slen - Z.of_nat tlen.

Section coll.
Context (mb_wc : list Z -> Z + Z * nat) (weight : Z -> Z).

(** [while ( s < se && t < te )]: the return value or what is left of both. *)
Fixpoint coll_loop (n : nat) (s t : list Z) : option (Z + list Z * list Z) :=
  match s, t with
  | _ :: _, _ :: _ =>
    match n with
    | O => None
    | S n =>
      match mb_wc s, mb_wc t with
      | inr (s_wc, s_res), inr (t_wc, t_res) =>
        let s_wc := weight s_wc in
        let t_wc := weight t_wc in
        if negb (s_wc =? t_wc) then Some (inl (if s_wc >? t_wc then 1 else -1))
        else coll_loop n (drop s_res s) (drop t_res t)
      | _, _ => Some (inl (bincmp s t))
      end
    end
  | _, _ => Some (inr (s, t))
  end.

(** The difference of the lengths is cast to [int], which changes nothing for
    strings shorter than 2 GB. *)
Definition strnncoll (s t : list Z) (t_is_prefix : bool) : option Z :=
  r ← coll_loop (length s) s t;
  match r with
  | inl r => Some r
  | inr (s, t) =>
    Some (if t_is_prefix then - Z.of_nat (length t) else Z.of_nat (length s) - Z.of_nat (length t))
  end.

(** [for ( ; s < se; s++) if ( *s != ' ') return ...; return res], with res 0. *)
Fixpoint end_space (s : list Z) (swap : Z) : Z :=
  match s with
  | [] => 0
  | c :: s => if negb (c =? 32) then if c <? 32 then - swap else swap else end_space s swap
  end.

Definition strnncollsp (s t : list Z) : option Z :=
  r ← coll_loop (length s) s t;
  match r with
  | inl r => Some r
  | inr (s, t) =>
    Some (if negb (length s =? length t)%nat then
            if (length s <? length t)%nat then end_space t (-1) else end_space s 1
          else 0)
  end.

(** ** Hashing *)

(** [while (e > s && e[-1] == ' ') e--]. *)
Fixpoint strip_spaces (s : list Z) : list Z :=
  match s with
  | [] => []
  | c :: s =>
    match strip_spaces s with
    | [] => if c =? 32 then [] else [c]
    | s => c :: s
    end
  end.

(** my_hash_add: n1 and n2. *)
Definition my_hash_add (h : Z * Z) (ch : Z) : Z * Z :=
  let '(n1, n2) := h in
  (n1 .^ u64 (u64 (u64 ((n1 .& 63) + n2) * ch) + u64 (n1 .<< 8)), u64 (n2 + 3)).

(** [while ((res= mb_wc(...)) > 0)]; [add] adds a weight to the hash. *)
Fixpoint hash_loop (add : Z * Z -> Z -> Z * Z) (n : nat) (s : list Z) (h : Z * Z) : option (Z * Z) :=
  match mb_wc s with
  | inr (wc, res) =>
    match n with
    | O => None
    | S n => hash_loop add n (drop res s) (add h (weight wc))
    end
  | inl _ => Some h
  end.

Definition hash_sort (add : Z * Z -> Z -> Z * Z) (s : list Z) (h : Z * Z) : option (Z * Z) :=
  let s := strip_spaces s in hash_loop add (length s) s h.
End coll.

(** ** The character sets *)

Definition hash_add_utf8 (h : Z * Z) (wc : Z) : Z * Z := my_hash_add (my_hash_add h (wc .& 255)) (wc .>> 8).

Definition hash_add_utf8mb4 (h : Z * Z) (wc : Z) : Z * Z :=
  let h := my_hash_add h (wc .& 255) in
  let h := my_hash_add h ((wc .>> 8) .& 255) in
  if wc >? 65535 then my_hash_add h ((wc .>> 16) .& 255) else h.

Section charsets.
Context (uni_plane : uni_plane_t).

Definition my_strnncoll_utf8 := strnncoll my_utf8_uni (sort_utf8 uni_plane).
Definition my_strnncollsp_utf8 := strnncollsp my_utf8_uni (sort_utf8 uni_plane).
Definition my_hash_sort_utf8 := hash_sort my_utf8_uni (sort_utf8 uni_plane) hash_add_utf8.
Definition my_strnncoll_utf8mb4 := strnncoll my_mb_wc_utf8mb4 (my_tosort_unicode uni_plane).
Definition my_strnncollsp_utf8mb4 := strnncollsp my_mb_wc_utf8mb4 (my_tosort_unicode uni_plane).
Definition my_hash_sort_utf8mb4 := hash_sort my_mb_wc_utf8mb4 (my_tosort_unicode uni_plane) hash_add_utf8mb4.
End charsets.

(** ** Proofs *)

Definition cmp_sign (c : comparison) : Z := match c with Eq => 0 | Lt => -1 | Gt => 1 end.

Lemma cmp_sign_opp c : cmp_sign (CompOpp c) = - cmp_sign c.
Proof. by destruct c. Qed.

Lemma memcmp_eq s t : length s = length t -> memcmp s t = 0 -> s = t.
Proof.
  revert t. induction s as [|c s IH]; intros [|d t] Hl H; try done. simpl in *. destruct (Z.ltb_spec c d); [done|].
  rewrite Z.gtb_ltb in H. destruct (Z.ltb_spec d c); [done|]. f_equal; [lia|]. apply IH; [lia|done].
Qed.

Lemma bincmp_eq s t : bincmp s t = 0 -> s = t.
Proof.
  unfold bincmp. destruct (Z.eqb_spec (memcmp (take (length s `min` length t) s) (take (length s `min` length t) t)) 0) as [E|E];
    simpl; [|done]. intros Hl. assert (length s = length t) as El by lia.
  rewrite El, Nat.min_id in E. rewrite (take_ge t), (take_ge s) in E by lia. by apply memcmp_eq.
Qed.

Lemma strip_spaces_app a s :
  strip_spaces (a ++ s) = match strip_spaces s with [] => strip_spaces a | r => a ++ r end.
Proof.
  induction a as [|c a IH]; simpl; [by destruct (strip_spaces s)|]. rewrite IH. destruct (strip_spaces s) as [|d r]; [done|].
  by destruct a.
Qed.

(** A string is its stripped part and spaces. *)
Lemma strip_spaces_split s : exists n, s = strip_spaces s ++ replicate n 32.
Proof.
  induction s as [|c s [n IH]]; [by exists 0%nat|]. simpl. destruct (strip_spaces s) as [|d r] eqn:E.
  - simpl in IH. destruct (Z.eqb_spec c 32) as [->|]; [exists (S n)|exists n]; simpl; congruence.
  - exists n. simpl. f_equal. done.
Qed.

Lemma strip_spaces_high s : Forall (fun b => 128 <= b) s -> strip_spaces s = s.
Proof.
  induction 1 as [|c s Hc _ IH]; [done|]. simpl. rewrite IH. destruct s; [|done].
  by rewrite (proj2 (Z.eqb_neq c 32)) by lia.
Qed.

Lemma end_space_zero s swap : swap <> 0 -> end_space s swap = 0 -> strip_spaces s = [].
Proof.
  intros Hs. induction s as [|c s IH]; simpl; [done|]. destruct (Z.eqb_spec c 32); simpl.
  - intros H. by rewrite IH.
  - destruct (c <? 32); lia.
Qed.

Section proofs.
Context (mb_wc : list Z -> Z + Z * nat) (max : Z) `{!MultiByte mb_wc max} (weight : Z -> Z).
Context (max_ok : 128 <= max <= 1114111).

Definition code (wc : Z) : Prop := 0 <= wc <= max.
Definition undecodable (r : list Z) : Prop := exists e, mb_wc r = inl e.

Lemma code_bytes wc : code wc -> Forall is_byte (utf8 wc).
Proof. unfold code. intros. apply utf8_bytes. lia. Qed.

Lemma utf8s_bytes l : Forall code l -> Forall is_byte (utf8s l).
Proof. induction 1; [constructor|]. rewrite utf8s_cons. apply Forall_app_2; [by apply code_bytes|done]. Qed.

(** Every string is characters and then nothing that can be decoded. *)
Lemma split_codes s : Forall is_byte s -> exists l r, s = utf8s l ++ r /\ Forall code l /\ undecodable r /\ Forall is_byte r.
Proof.
  induction s as [s IH] using (induction_ltof1 _ (@length Z)). unfold ltof in IH. intros Hs.
  destruct (mb_wc s) as [e|[wc n]] eqn:E; [exists [], s; split_and!; [done|constructor|by exists e|done]|].
  pose proof (mb_len _ _ _ Hs E). destruct (mb_code _ _ _ Hs E) as [Hw Ht].
  destruct (IH (drop n s)) as (l & r & E1 & Hl & Hr & Hb); [rewrite length_drop; lia|by apply Forall_drop|].
  exists (wc :: l), r. split_and!; [|by constructor|done|done].
  by rewrite utf8s_cons, <- Ht, <- app_assoc, <- E1, take_drop.
Qed.

Lemma decode_code wc s : code wc -> Forall is_byte s -> mb_wc (utf8 wc ++ s) = inr (wc, length (utf8 wc)).
Proof. intros. by apply mb_utf8. Qed.

(** Spaces at the end do not change what can be decoded. *)
Lemma undecodable_strip r : Forall is_byte r -> undecodable r -> undecodable (strip_spaces r) /\ (strip_spaces r = [] -> r = []).
Proof.
  intros Hb [e He]. destruct (strip_spaces_split r) as [n E]. assert (strip_spaces r = [] -> r = []) as Hn.
  { intros E0. rewrite E0 in E. destruct n as [|n]; [done|]. exfalso. rewrite E in He. simpl in He.
    rewrite mb_ascii in He; [done|lia|]. apply Forall_replicate. unfold is_byte. lia. }
  split; [|done]. destruct (mb_wc (strip_spaces r)) as [e'|[wc m]] eqn:E'; [by exists e'|].
  assert (Forall is_byte (strip_spaces r)) as Hb' by (rewrite E in Hb; by apply Forall_app in Hb as [? _]).
  pose proof (mb_len _ _ _ Hb' E').
  pose proof (mb_prefix (strip_spaces r) (drop m (strip_spaces r) ++ replicate n 32) wc m Hb') as Hp.
  rewrite app_assoc, take_drop, <- E, He in Hp. discriminate Hp; [|done].
  apply Forall_app_2; [by apply Forall_drop|apply Forall_replicate; unfold is_byte; lia].
Qed.

Lemma strip_utf8 wc : code wc -> strip_spaces (utf8 wc) = if wc =? 32 then [] else utf8 wc.
Proof.
  unfold code. intros H. destruct (Z.lt_ge_cases wc 128) as [H1|H1].
  - unfold utf8. rewrite (proj2 (Z.ltb_lt _ _)) by done. simpl. by destruct (wc =? 32).
  - rewrite (proj2 (Z.eqb_neq wc 32)) by lia. apply strip_spaces_high. unfold utf8.
    rewrite (proj2 (Z.ltb_ge wc 128)) by done. repeat case_if; repeat constructor; zdiv.
Qed.

Lemma strip_utf8s l : Forall code l -> strip_spaces (utf8s l) = utf8s (strip_spaces l).
Proof.
  induction 1 as [|wc l Hw _ IH]; [done|]. rewrite utf8s_cons, strip_spaces_app, IH. simpl.
  destruct (strip_spaces l) as [|d r] eqn:E; [rewrite strip_utf8 by done; destruct (wc =? 32); [done|]; by rewrite utf8s_cons, app_nil_r|].
  rewrite (utf8s_cons wc). destruct (utf8s (d :: r)) eqn:E1; [by apply utf8s_nil in E1|done].
Qed.

(** The stripped string, as characters and the rest. *)
Lemma strip_split l r : Forall code l -> Forall is_byte r -> undecodable r ->
  strip_spaces (utf8s l ++ r) = utf8s (if bool_decide (r = []) then strip_spaces l else l) ++ strip_spaces r.
Proof.
  intros Hl Hb Hr. destruct (undecodable_strip r Hb Hr) as [_ Hn]. rewrite strip_spaces_app. case_bool_decide as E.
  - subst r. simpl. by rewrite app_nil_r, strip_utf8s.
  - destruct (strip_spaces r) as [|c r'] eqn:E'; [by destruct E; apply Hn|done].
Qed.

Lemma hash_loop_ok add n l r h : Forall code l -> Forall is_byte r -> undecodable r -> (length l <= n)%nat ->
  hash_loop mb_wc weight add n (utf8s l ++ r) h = Some (foldl add h (weight <$> l)).
Proof.
  intros Hl Hb [e He]. revert n h. induction Hl as [|wc l Hw Hl IH]; intros n h Hn.
  - simpl. destruct n; simpl; by rewrite He.
  - destruct n as [|n]; simpl in Hn; [lia|]. rewrite utf8s_cons, <- app_assoc. cbn [hash_loop].
    rewrite decode_code; [|done|by apply Forall_app_2; [apply utf8s_bytes|]]. rewrite drop_app_length. simpl. apply IH. lia.
Qed.

Lemma hash_sort_ok add l r h : Forall code l -> Forall is_byte r -> undecodable r ->
  hash_sort mb_wc weight add (utf8s l ++ r) h =
    Some (foldl add h (weight <$> (if bool_decide (r = []) then strip_spaces l else l))).
Proof.
  intros Hl Hb Hr. unfold hash_sort. rewrite strip_split by done. destruct (undecodable_strip r Hb Hr) as [Hr' _].
  apply hash_loop_ok; [|by destruct (strip_spaces_split r) as [n E]; rewrite E in Hb; apply Forall_app in Hb as [? _]|done|].
  - case_bool_decide; [|done]. destruct (strip_spaces_split l) as [n E]. rewrite E in Hl. by apply Forall_app in Hl as [? _].
  - rewrite length_app. pose proof (utf8s_length (if bool_decide (r = []) then strip_spaces l else l)). lia.
Qed.

Lemma coll_nil_l n t : coll_loop mb_wc weight n [] t = Some (inr ([], t)).
Proof. by destruct n. Qed.

Lemma coll_nil_r n s : coll_loop mb_wc weight n s [] = Some (inr (s, [])).
Proof. by destruct n, s. Qed.

(** The loop ends. *)
Lemma coll_total n s t : Forall is_byte s -> Forall is_byte t -> (length s <= n)%nat ->
  exists r, coll_loop mb_wc weight n s t = Some r.
Proof.
  revert s t. induction n as [|n IH]; intros [|c s] [|d t] Hs Ht Hn; simpl in Hn |- *; try lia; try by eexists.
  destruct (mb_wc (c :: s)) as [|[x k]] eqn:E; [by eexists|]. destruct (mb_wc (d :: t)) as [|[y k']]; [by eexists|].
  destruct (negb _); [by eexists|]. pose proof (mb_len _ _ _ Hs E).
  apply IH; [by apply Forall_drop|by apply Forall_drop|]. rewrite length_drop. simpl. lia.
Qed.

(** When the loop ends without a result, one of the strings is at its end. *)
Lemma coll_ends n s t : match coll_loop mb_wc weight n s t with Some (inr (s', t')) => s' = [] \/ t' = [] | _ => True end.
Proof.
  revert s t. induction n as [|n IH]; intros [|c s] [|d t]; simpl; auto.
  destruct (mb_wc (c :: s)) as [|[x k]]; [done|]. destruct (mb_wc (d :: t)) as [|[y k']]; [done|].
  destruct (negb _); [done|]. apply IH.
Qed.

(** A step of the comparison over one character of both strings. *)
Lemma coll_step n x l r y m q : code x -> code y -> Forall is_byte (utf8s l ++ r) -> Forall is_byte (utf8s m ++ q) ->
  coll_loop mb_wc weight (S n) (utf8s (x :: l) ++ r) (utf8s (y :: m) ++ q) =
    if negb (weight x =? weight y) then Some (inl (if weight x >? weight y then 1 else -1))
    else coll_loop mb_wc weight n (utf8s l ++ r) (utf8s m ++ q).
Proof.
  intros Hx Hy Hs Ht. pose proof (decode_code x (utf8s l ++ r) Hx Hs) as Ex. pose proof (decode_code y (utf8s m ++ q) Hy Ht) as Ey.
  pose proof (drop_app_length (utf8 x) (utf8s l ++ r)) as Dx. pose proof (drop_app_length (utf8 y) (utf8s m ++ q)) as Dy.
  rewrite !utf8s_cons, <- !app_assoc. destruct (utf8_cons x) as (c & b & E). destruct (utf8_cons y) as (d & b' & E').
  rewrite E, E' in *. simpl app in *. cbn [coll_loop]. rewrite Ex, Ey. by rewrite Dx, Dy.
Qed.

(** The codes that the hash is made of. *)
Definition hashed (l r : list Z) : list Z := if bool_decide (r = []) then strip_spaces l else l.

(** The result of the loop stands for equal strings. *)
Definition loop_zero (o : option (Z + list Z * list Z)) : Prop :=
  match o with
  | Some (inl v) => v = 0
  | Some (inr (s, t)) => strip_spaces s = [] /\ strip_spaces t = []
  | None => False
  end.

Lemma strip_nil l r : Forall code l -> Forall is_byte r -> undecodable r ->
  strip_spaces (utf8s l ++ r) = [] -> r = [] /\ strip_spaces l = [].
Proof.
  intros Hl Hb Hr. rewrite strip_split by done. intros [H1 H2]%app_eq_nil. destruct (undecodable_strip r Hb Hr) as [_ Hn].
  specialize (Hn H2). subst r. apply utf8s_nil in H1. by rewrite bool_decide_true in H1.
Qed.

Lemma undecodable_code x l r : code x -> Forall is_byte (utf8s l ++ r) -> ~ undecodable (utf8s (x :: l) ++ r).
Proof. intros Hx Hb [e He]. rewrite utf8s_cons, <- app_assoc, decode_code in He; done. Qed.

Context (space_weight : forall wc, code wc -> weight wc = weight 32 -> wc = 32).

Lemma hashed_cons x l y m r : code x -> code y -> weight x = weight y ->
  weight <$> hashed l r = weight <$> hashed m r -> weight <$> hashed (x :: l) r = weight <$> hashed (y :: m) r.
Proof.
  unfold hashed. intros Hx Hy Hw IH. case_bool_decide; [|by rewrite !fmap_cons, Hw, IH].
  assert ((x =? 32) = (y =? 32)) as E.
  { destruct (Z.eqb_spec x 32) as [->|Nx], (Z.eqb_spec y 32) as [->|Ny]; try done; exfalso; auto. }
  cbn [strip_spaces]. destruct (strip_spaces l), (strip_spaces m); try done; [|by rewrite !(fmap_cons _ _ (_ :: _)), Hw, IH].
  rewrite E. destruct (y =? 32); [done|]. by rewrite !fmap_cons, Hw.
Qed.

Lemma coll_zero n l r m q : Forall code l -> Forall code m -> Forall is_byte r -> Forall is_byte q ->
  undecodable r -> undecodable q -> loop_zero (coll_loop mb_wc weight n (utf8s l ++ r) (utf8s m ++ q)) ->
  r = q /\ weight <$> hashed l r = weight <$> hashed m q.
Proof.
  intros Hl Hm Hr Hq Ur Uq. revert n m Hm. induction Hl as [|x l Hx Hl IH]; intros n m Hm.
  - simpl. destruct r as [|c r].
    + rewrite coll_nil_l. intros [_ [-> Hs]%strip_nil]; [|done|done|done]. split; [done|].
      unfold hashed. rewrite bool_decide_true by done. by rewrite Hs.
    + destruct (utf8s m ++ q) as [|d t] eqn:Et.
      { rewrite coll_nil_r. by intros [[? _]%(strip_nil []) _]. }
      destruct n as [|n]; [done|]. cbn [coll_loop]. destruct Ur as [e He]. rewrite He. intros Hz%bincmp_eq.
      rewrite Hz in He. rewrite <- Et in He. destruct m as [|y m]; [simpl in Et; subst; by rewrite Hz|].
      exfalso. inversion Hm; subst. apply (undecodable_code y m q); [done| |by exists e].
      apply Forall_app_2; [by apply utf8s_bytes|done].
  - assert (Forall is_byte (utf8s l ++ r)) as Hs by (apply Forall_app_2; [by apply utf8s_bytes|done]).
    destruct Hm as [|y m Hy Hm].
    + change (utf8s [] ++ q) with q. destruct q as [|c q].
      * rewrite coll_nil_r. intros [[-> H]%strip_nil _]; [|by constructor|done|done]. split; [done|].
        unfold hashed. rewrite bool_decide_true by done. by rewrite H.
      * destruct n as [|n]; [by rewrite utf8s_cons; destruct (utf8_cons x) as (? & ? & ->)|].
        destruct (utf8s (x :: l) ++ r) as [|d t] eqn:E; [by apply app_eq_nil in E as [E%utf8s_nil _]|].
        cbn [coll_loop]. destruct Uq as [e He]. rewrite He. destruct (mb_wc (d :: t)) as [e'|[wc k]] eqn:E'.
        { exfalso. apply (undecodable_code x l r); [done|done|]. exists e'. by rewrite E. }
        intros Hz%bincmp_eq. congruence.
    + assert (Forall is_byte (utf8s m ++ q)) as Ht by (apply Forall_app_2; [by apply utf8s_bytes|done]).
      destruct n as [|n].
      { rewrite !utf8s_cons. by destruct (utf8_cons x) as (? & ? & ->), (utf8_cons y) as (? & ? & ->). }
      rewrite coll_step by done. destruct (Z.eqb_spec (weight x) (weight y)) as [E|E]; simpl; [|by destruct (_ >? _)].
      intros Hz. destruct (IH n m Hm Hz) as [-> Hw]. split; [done|]. by apply hashed_cons.
Qed.

Lemma coll_zero_hash add s t h : Forall is_byte s -> Forall is_byte t ->
  strnncollsp mb_wc weight s t = Some 0 \/ strnncoll mb_wc weight s t false = Some 0 ->
  exists h', hash_sort mb_wc weight add s h = Some h' /\ hash_sort mb_wc weight add t h = Some h'.
Proof.
  intros Hs Ht Hz. destruct (split_codes s Hs) as (l & r & -> & Hl & Ur & Hr).
  destruct (split_codes t Ht) as (m & q & -> & Hm & Uq & Hq).
  assert (loop_zero (coll_loop mb_wc weight (length (utf8s l ++ r)) (utf8s l ++ r) (utf8s m ++ q))) as Hl0.
  { unfold strnncollsp, strnncoll in Hz. pose proof (coll_ends (length (utf8s l ++ r)) (utf8s l ++ r) (utf8s m ++ q)) as He.
    destruct (coll_loop _ _ _ _ _) as [[v|[s t]]|]; simpl in *; [naive_solver| |naive_solver].
    destruct Hz as [[= Hz]|[= Hz]].
    - destruct He as [-> | ->]; simpl in *.
      + destruct t; simpl in Hz; [done|]. split; [done|]. by apply (end_space_zero _ (-1)).
      + destruct s; simpl in Hz; [done|]. split; [|done]. by apply (end_space_zero _ 1).
    - destruct s, t; simpl in Hz; try lia; [done|]. by destruct He. }
  destruct (coll_zero _ _ _ _ _ Hl Hm Hr Hq Ur Uq Hl0) as [-> Hw].
  eexists. rewrite !hash_sort_ok by done. split; [done|]. unfold hashed in Hw. by rewrite Hw.
Qed.

(** ** The order *)

(** The order of the weights where the shorter string is followed by spaces. *)
Fixpoint space_cmp (l : list Z) : comparison :=
  match l with
  | [] => Eq
  | x :: l => match weight x ?= weight 32 with Eq => space_cmp l | c => c end
  end.

Fixpoint pad_cmp (l m : list Z) : comparison :=
  match l, m with
  | [], m => CompOpp (space_cmp m)
  | l, [] => space_cmp l
  | x :: l, y :: m => match weight x ?= weight y with Eq => pad_cmp l m | c => c end
  end.

Context (space_order : forall wc, code wc -> (wc < 32 -> weight wc < weight 32) /\ (32 < wc -> weight 32 < weight wc)).

Lemma first_byte wc : code wc -> exists c b, utf8 wc = c :: b /\ (c = 32 <-> wc = 32) /\ (c < 32 <-> wc < 32) /\ (wc = 32 -> b = []).
Proof.
  unfold code, utf8. intros H. repeat case_if; b2p; eexists _, _; (split; [done|]); (split; [|split]); try done; zdiv.
Qed.

Lemma end_space_cmp l swap : Forall code l -> end_space (utf8s l) swap = swap * cmp_sign (space_cmp l).
Proof.
  induction 1 as [|x l Hx _ IH]; simpl; [lia|]. rewrite utf8s_cons. destruct (first_byte x Hx) as (c & b & -> & H1 & H2 & H3).
  destruct (space_order x Hx) as [S1 S2]. simpl. destruct (Z.eqb_spec c 32) as [E|E]; simpl.
  - apply H1 in E. rewrite (H3 E). subst x. by rewrite Z.compare_refl.
  - destruct (Z.ltb_spec c 32) as [L|L].
    + apply H2, S1 in L. rewrite (proj2 (Z.compare_lt_iff _ _) L). simpl. lia.
    + assert (32 < x) as G by lia. apply S2 in G. rewrite (proj2 (Z.compare_gt_iff _ _) G). simpl. lia.
Qed.

Lemma collsp_loop n l m : Forall code l -> Forall code m -> (length l <= n)%nat ->
  (r ← coll_loop mb_wc weight n (utf8s l) (utf8s m);
   match r with
   | inl r => Some r
   | inr (s, t) =>
     Some (if negb (length s =? length t)%nat then
             if (length s <? length t)%nat then end_space t (-1) else end_space s 1
           else 0)
   end) = Some (cmp_sign (pad_cmp l m)).
Proof.
  intros Hl Hm. revert n m Hm. induction Hl as [|x l Hx Hl IH]; intros n m Hm Hn.
  - rewrite coll_nil_l. obind. f_equal. simpl pad_cmp. rewrite cmp_sign_opp.
    pose proof (end_space_cmp m (-1) Hm) as He. destruct (utf8s m) as [|c t] eqn:E; simpl in *.
    + apply utf8s_nil in E. by subst m.
    + rewrite He. lia.
  - destruct Hm as [|y m Hy Hm].
    + rewrite coll_nil_r. obind. f_equal. simpl pad_cmp. pose proof (end_space_cmp (x :: l) 1 ltac:(by constructor)) as He.
      destruct (utf8s (x :: l)) as [|c t] eqn:E; [by apply utf8s_nil in E|]. simpl length. rewrite He.
      change (S (length t) =? 0)%nat with false. change (S (length t) <? length [])%nat with false. simpl. lia.
    + destruct n as [|n]; simpl in Hn; [lia|].
      pose proof (coll_step n x l [] y m [] Hx Hy) as Hc. rewrite !app_nil_r in Hc. rewrite Hc by (by apply utf8s_bytes).
      simpl pad_cmp. destruct (Z.eqb_spec (weight x) (weight y)) as [E|E]; simpl negb; cbv iota.
      * rewrite E, Z.compare_refl. apply IH; [done|lia].
      * obind. rewrite Z.gtb_ltb. destruct (Z.ltb_spec (weight y) (weight x)) as [L|L].
        -- by rewrite (proj2 (Z.compare_gt_iff _ _) L).
        -- by rewrite (proj2 (Z.compare_lt_iff _ _)) by lia.
Qed.
End proofs.

(** ** The character sets *)

Lemma sort_utf8_tosort uni_plane wc : 0 <= wc <= 65535 -> sort_utf8 uni_plane wc = my_tosort_unicode uni_plane wc.
Proof.
  intros H. unfold sort_utf8, my_tosort_unicode. rewrite Z.shiftr_div_pow2 by lia. change (2 ^ 8) with 256.
  change 255 with (Z.ones 8). rewrite (Z.land_ones (wc / 256)) by lia. change (2 ^ 8) with 256.
  rewrite (Z.mod_small (wc / 256)), (proj2 (Z.ltb_lt _ 256)) by zdiv. done.
Qed.

(** Only the space has the weight of the space. *)
Definition space_alone (uni_plane : uni_plane_t) : Prop :=
  forall wc, 0 <= wc <= 1114111 -> my_tosort_unicode uni_plane wc = my_tosort_unicode uni_plane 32 -> wc = 32.

Lemma utf8_equal_hash_ok uni_plane s t h : space_alone uni_plane -> Forall is_byte s -> Forall is_byte t ->
  my_strnncollsp_utf8 uni_plane s t = Some 0 \/ my_strnncoll_utf8 uni_plane s t false = Some 0 ->
  exists h', my_hash_sort_utf8 uni_plane s h = Some h' /\ my_hash_sort_utf8 uni_plane t h = Some h'.
Proof.
  intros Hw Hs Ht Hz. apply (coll_zero_hash my_utf8_uni 65535 (sort_utf8 uni_plane)); try done.
  intros wc Hc Hw'. unfold code in Hc. rewrite !sort_utf8_tosort in Hw' by lia. apply Hw; [lia|done].
Qed.

(** C24. Strings that the collations utf8_general_ci and utf8mb4_general_ci
    compare as equal, with or without the spaces at their ends, have the same
    hash, if only the space has the weight of the space; this also holds for
    strings with bytes that are no characters. *)
Theorem utf8_equal_hash uni_plane s t h : space_alone uni_plane -> Forall is_byte s -> Forall is_byte t ->
  (my_strnncollsp_utf8 uni_plane s t = Some 0 \/ my_strnncoll_utf8 uni_plane s t false = Some 0 ->
   exists h', my_hash_sort_utf8 uni_plane s h = Some h' /\ my_hash_sort_utf8 uni_plane t h = Some h') /\
  (my_strnncollsp_utf8mb4 uni_plane s t = Some 0 \/ my_strnncoll_utf8mb4 uni_plane s t false = Some 0 ->
   exists h', my_hash_sort_utf8mb4 uni_plane s h = Some h' /\ my_hash_sort_utf8mb4 uni_plane t h = Some h').
Proof.
  intros Hw Hs Ht. split; [by apply utf8_equal_hash_ok|].
  intros Hz. by apply (coll_zero_hash my_mb_wc_utf8mb4 1114111 (my_tosort_unicode uni_plane)).
Qed.

(** The weights of characters below and above the space are below and above
    its weight. *)
Definition space_between (uni_plane : uni_plane_t) : Prop :=
  forall wc, 0 <= wc <= 1114111 ->
    (wc < 32 -> my_tosort_unicode uni_plane wc < my_tosort_unicode uni_plane 32) /\
    (32 < wc -> my_tosort_unicode uni_plane 32 < my_tosort_unicode uni_plane wc).

(** C25. The loop over the bytes at the end is right: my_strnncollsp_utf8 and
    my_strnncollsp_utf8mb4 of two strings of characters are the order of their
    weights, where the shorter string is continued with spaces. *)
Theorem my_strnncollsp_utf8_order uni_plane l m : space_between uni_plane ->
  Forall (fun wc => 0 <= wc <= 1114111) l -> Forall (fun wc => 0 <= wc <= 1114111) m ->
  my_strnncollsp_utf8mb4 uni_plane (utf8s l) (utf8s m) =
    Some (cmp_sign (pad_cmp (my_tosort_unicode uni_plane) l m)) /\
  (Forall (fun wc => wc <= 65535) l -> Forall (fun wc => wc <= 65535) m ->
   my_strnncollsp_utf8 uni_plane (utf8s l) (utf8s m) = Some (cmp_sign (pad_cmp (sort_utf8 uni_plane) l m))).
Proof.
  intros Hw Hl Hm. split.
  - apply (collsp_loop my_mb_wc_utf8mb4 1114111); [lia|done|done|done|apply utf8s_length].
  - intros Hl' Hm'. apply (collsp_loop my_utf8_uni 65535); [lia| | | |apply utf8s_length].
    + intros wc Hc. unfold code in Hc. rewrite !sort_utf8_tosort by lia. apply Hw. lia.
    + rewrite Forall_forall in *. intros wc Hin. specialize (Hl wc Hin). specialize (Hl' wc Hin). unfold code. lia.
    + rewrite Forall_forall in *. intros wc Hin. specialize (Hm wc Hin). specialize (Hm' wc Hin). unfold code. lia.
Qed.

(** ** The tables

    The weights of the file: a weight is its own weight, and the space is in
    between. *)

Definition weights_idem (uni_plane : uni_plane_t) : Prop :=
  forall wc, 0 <= wc <= 1114111 ->
    my_tosort_unicode uni_plane (my_tosort_unicode uni_plane wc) = my_tosort_unicode uni_plane wc.

Abbreviation table := (list (option (list MY_UNICASE_INFO))).

(** The checks, on one entry of a plane and on all. *)
Definition entry_ok (l : table) (wc : Z) (e : MY_UNICASE_INFO) : bool :=
  (0 <=? sort e) && (my_tosort_unicode (planes l) (sort e) =? sort e) &&
  (if wc <? 32 then sort e <? 32 else if wc >? 32 then sort e >? 32 else sort e =? 32).

Fixpoint plane_ok (l : table) (wc : Z) (p : list MY_UNICASE_INFO) : bool :=
  match p with
  | [] => true
  | e :: p => entry_ok l wc e && plane_ok l (wc + 1) p
  end.

Fixpoint planes_ok (l : table) (page : Z) (ps : table) : bool :=
  match ps with
  | [] => true
  | None :: ps => planes_ok l (page + 1) ps
  | Some p :: ps => (length p =? 256)%nat && plane_ok l (page * 256) p && planes_ok l (page + 1) ps
  end.

Definition table_ok (l : table) : bool :=
  (length l =? 256)%nat && planes_ok l 0 l && (my_tosort_unicode (planes l) 65533 =? 65533) && (my_tosort_unicode (planes l) 32 =? 32).

Lemma plane_ok_nth l wc p i e : plane_ok l wc p = true -> p !! i = Some e -> entry_ok l (wc + Z.of_nat i) e = true.
Proof.
  revert wc i. induction p as [|e' p IH]; intros wc i H Hi; [done|]. simpl in H. b2p. destruct i as [|i]; simplify_eq/=.
  - by rewrite Z.add_0_r.
  - replace (wc + Z.of_nat (S i)) with (wc + 1 + Z.of_nat i) by lia. by apply IH.
Qed.

Lemma planes_ok_nth l page ps i p : planes_ok l page ps = true -> ps !! i = Some (Some p) ->
  length p = 256%nat /\ plane_ok l ((page + Z.of_nat i) * 256) p = true.
Proof.
  revert page i. induction ps as [|o ps IH]; intros page i H Hi; [done|]. simpl in H. destruct i as [|i]; simplify_eq/=.
  - b2p. by rewrite Z.add_0_r.
  - replace (page + Z.of_nat (S i)) with (page + 1 + Z.of_nat i) by lia. destruct o; b2p; by apply IH.
Qed.

(** The weight of a character is that of a checked entry, the character itself
    or the replacement character. *)
Lemma tosort_cases l wc : table_ok l = true -> 0 <= wc ->
  (exists e, my_tosort_unicode (planes l) wc = sort e /\ entry_ok l wc e = true) \/
  (wc < 65536 /\ my_tosort_unicode (planes l) wc = wc) \/ (65536 <= wc /\ my_tosort_unicode (planes l) wc = 65533).
Proof.
  intros H Hw. unfold table_ok in H. b2p. unfold my_tosort_unicode at 1 2 3. rewrite Z.shiftr_div_pow2 by lia.
  change (2 ^ 8) with 256. change 255 with (Z.ones 8). rewrite Z.land_ones by lia. change (2 ^ 8) with 256.
  destruct (Z.ltb_spec (wc / 256) 256); [|right; right; split; [zdiv|done]]. unfold planes.
  destruct (l !! Z.to_nat (wc / 256)) as [[p|]|] eqn:E; [|right; left; split; [zdiv|done]|right; left; split; [zdiv|done]].
  destruct (planes_ok_nth _ _ _ _ _ H2 E) as [Hl Hp]. pose proof (Z.mod_pos_bound wc 256 ltac:(lia)).
  destruct (lookup_lt_is_Some_2 p (Z.to_nat (wc mod 256))) as [e He]; [lia|]. left. exists e.
  rewrite (nth_lookup_Some _ _ _ _ He). split; [done|]. pose proof (plane_ok_nth _ _ _ _ _ Hp He) as Hok.
  rewrite !Z2Nat.id in Hok by zdiv. by replace ((0 + wc / 256) * 256 + wc mod 256) with wc in Hok by zdiv.
Qed.

Lemma table_idem l : table_ok l = true -> weights_idem (planes l).
Proof.
  intros H wc Hw. destruct (tosort_cases l wc H ltac:(lia)) as [(e & -> & He)|[[? E]|[? E]]].
  - unfold entry_ok in He. b2p. done.
  - by rewrite !E.
  - rewrite E. unfold table_ok in H. b2p. done.
Qed.

Lemma table_between l : table_ok l = true -> space_between (planes l).
Proof.
  intros H wc Hw. assert (my_tosort_unicode (planes l) 32 = 32) as -> by (unfold table_ok in H; b2p; done).
  destruct (tosort_cases l wc H ltac:(lia)) as [(e & -> & He)|[[? ->]|[? ->]]]; [|lia|lia].
  unfold entry_ok in He. apply andb_true_iff in He as [_ He].
  destruct (Z.ltb_spec wc 32); [b2p; lia|]. rewrite !Z.gtb_ltb in He. destruct (Z.ltb_spec 32 wc); b2p; lia.
Qed.

Lemma between_alone up : space_between up -> space_alone up.
Proof. intros H wc Hw E. destruct (H wc Hw). lia. Qed.

Definition tables : list table := [my_unicase_default; my_unicase_mysql500; my_unicase_turkish].

Lemma tables_ok l : l ∈ tables -> table_ok l = true.
Proof.
  unfold tables. intros [-> |[-> |[-> |[]%not_elem_of_nil]%elem_of_cons]%elem_of_cons]%elem_of_cons; by vm_compute.
Qed.

(** C26. The three tables of weights are well formed: 256 planes, 256 entries in
    each plane that is not null, the weight of a weight is the weight itself, and
    the characters below and above the space have weights below and above that of
    the space, so that no other character has its weight. *)
Theorem unicase_tables l : l ∈ tables ->
  length l = 256%nat /\ (forall i p, l !! i = Some (Some p) -> length p = 256%nat) /\
  weights_idem (planes l) /\ space_between (planes l) /\ space_alone (planes l).
Proof.
  intros H%tables_ok. pose proof (table_between l H). split_and!; [|..|by apply table_idem|done|by apply between_alone].
  - unfold table_ok in H. b2p. done.
  - intros i p Hp. unfold table_ok in H. b2p. by eapply planes_ok_nth in Hp as [? _].
Qed.

(** ** Witnesses *)

Definition up_default : uni_plane_t := planes my_unicase_default.

Lemma default_ok : table_ok my_unicase_default = true.
Proof. by vm_compute. Qed.

Lemma default_between : space_between up_default.
Proof. apply table_between, default_ok. Qed.

Lemma default_alone : space_alone up_default.
Proof. apply between_alone, default_between. Qed.

Lemma unicase_tables_witness : space_between (planes my_unicase_turkish).
Proof. apply (unicase_tables my_unicase_turkish). unfold tables. right. right. left. Defined.

(** aBc and ABC followed by a space. *)
Definition s_aBc : list Z := [97; 66; 99].
Definition s_ABC : list Z := [65; 66; 67; 32].

Lemma utf8_equal_hash_witness : exists h',
  my_hash_sort_utf8 up_default s_aBc (1, 4) = Some h' /\ my_hash_sort_utf8 up_default s_ABC (1, 4) = Some h'.
Proof.
  exact (proj1 (utf8_equal_hash up_default s_aBc s_ABC (1, 4) default_alone ltac:(by apply bytes_ok) ltac:(by apply bytes_ok))
    (or_introl eq_refl)).
Defined.

Lemma my_strnncollsp_utf8_order_witness : my_strnncollsp_utf8mb4 up_default (utf8s [97; 8364]) (utf8s [65]) = Some 1.
Proof.
  exact (proj1 (my_strnncollsp_utf8_order up_default [97; 8364] [65] default_between
    ltac:(repeat constructor; lia) ltac:(repeat constructor; lia))).
Defined.
