(* ===== verification/Utf8Case.v ===== *)
(** * strings/ctype-utf8.c: upper and lower case

    my_caseup_utf8, my_casedn_utf8 and their utf8mb4 forms, and the functions
    over strings that end with 0, which convert a string in its own memory.

    The memory is a list of bytes, and a pointer is a position in it, so that the
    two strings of a call can overlap: the callers pass the same memory for both
    when a conversion never makes a string longer (caseup_multiply is 1).  A read
    or write outside of the memory gives [None].

    The result is the string of the converted characters as far as they fit, and
    nothing else is written; in place, because no upper or lower case letter of
    these tables needs more bytes than the letter it is made from.  The Turkish
    table is not one of them, and its collations have caseup_multiply 2. *)

From stdpp Require Import prelude list list_numbers.
From Stdlib Require Import ZArith Lia ZifyNat Bool.
From S2P Require Import Prelude Unicase Utf8 Utf8Coll.

Open Scope Z_scope.

(** ** Characters *)

Definition toupper_utf8 (uni_plane : uni_plane_t) (wc : Z) : Z :=
  let plane := (wc .>> 8) .& 255 in
  match uni_plane plane with Some p => toupper (p (wc .& 255)) | None => wc end.

Definition tolower_utf8 (uni_plane : uni_plane_t) (wc : Z) : Z :=
  let plane := (wc .>> 8) .& 255 in
  match uni_plane plane with Some p => tolower (p (wc .& 255)) | None => wc end.

Definition my_tolower_utf8mb4 (uni_plane : uni_plane_t) (wc : Z) : Z :=
  let page := wc .>> 8 in
  if page <? 256 then match uni_plane page with Some p => tolower (p (wc .& 255)) | None => wc end else wc.

Definition my_toupper_utf8mb4 (uni_plane : uni_plane_t) (wc : Z) : Z :=
  let page := wc .>> 8 in
  if page <? 256 then match uni_plane page with Some p => toupper (p (wc .& 255)) | None => wc end else wc.

(** ** The codecs without a range check

    [None] is a read behind the memory. *)

Definition my_utf8_uni_no_range (s : list Z) : option (Z + Z * nat) :=
  c ← s !! 0%nat;
  if c <? 128 then Some (inr (c, 1%nat))
  else if c <? 194 then Some (inl MY_CS_ILSEQ)
  else if c <? 224 then
    s1 ← s !! 1%nat;
    Some (if (s1 .^ 128) <? 64 then inr (uni2 c s1, 2%nat) else inl MY_CS_ILSEQ)
  else if c <? 240 then
    s1 ← s !! 1%nat;
    if IS_CONTINUATION_BYTE s1 then
      s2 ← s !! 2%nat;
      Some (if IS_CONTINUATION_BYTE s2 && ((c >=? 225) || (s1 >=? 160)) then inr (uni3 c s1 s2, 3%nat) else inl MY_CS_ILSEQ)
    else Some (inl MY_CS_ILSEQ)
  else Some (inl MY_CS_ILSEQ).

Definition my_mb_wc_utf8mb4_no_range (s : list Z) : option (Z + Z * nat) :=
  c ← s !! 0%nat;
  if c <? 128 then Some (inr (c, 1%nat))
  else if c <? 194 then Some (inl MY_CS_ILSEQ)
  else if c <? 224 then
    s1 ← s !! 1%nat;
    Some (if IS_CONTINUATION_BYTE s1 then inr (uni2 c s1, 2%nat) else inl MY_CS_ILSEQ)
  else if c <? 240 then
    s1 ← s !! 1%nat;
    if IS_CONTINUATION_BYTE s1 then
      s2 ← s !! 2%nat;
      Some (if IS_CONTINUATION_BYTE s2 && ((c >=? 225) || (s1 >=? 160)) then inr (uni3 c s1 s2, 3%nat) else inl MY_CS_ILSEQ)
    else Some (inl MY_CS_ILSEQ)
  else if c <? 245 then
    s1 ← s !! 1%nat;
    if IS_CONTINUATION_BYTE s1 then
      s2 ← s !! 2%nat;
      if IS_CONTINUATION_BYTE s2 then
        s3 ← s !! 3%nat;
        Some (if IS_CONTINUATION_BYTE s3 && ((c >=? 241) || (s1 >=? 144)) && ((c <=? 243) || (s1 <=? 143))
              then inr (uni4 c s1 s2 s3, 4%nat) else inl MY_CS_ILSEQ)
      else Some (inl MY_CS_ILSEQ)
    else Some (inl MY_CS_ILSEQ)
  else Some (inl MY_CS_ILSEQ).

Definition my_uni_utf8_no_range (wc : Z) : Z + list Z :=
  if wc <? 128 then inr (store_char 1 wc)
  else if wc <? 2048 then inr (store_char 2 wc)
  else if wc <? 65536 then inr (store_char 3 wc)
  else inl MY_CS_ILUNI.

Definition my_wc_mb_utf8mb4_no_range (wc : Z) : Z + list Z :=
  if wc <? 128 then inr (store_char 1 wc)
  else if wc <? 2048 then inr (store_char 2 wc)
  else if wc <? 65536 then inr (store_char 3 wc)
  else if wc <? 2097152 then inr (store_char 4 wc)
  else inl MY_CS_ILUNI.

(** ** Strings *)

(** Bytes that are stored at [dst]. *)
Definition put_bytes_at (buf : list Z) (dst : nat) (bytes : list Z) : option (list Z) :=
  if (dst + length bytes <=? length buf)%nat then Some (take dst buf ++ bytes ++ drop (dst + length bytes) buf) else None.

Section case.
Context (mb_wc : list Z -> Z + Z * nat) (wc_mb : Z -> Z -> Z + list Z) (conv : Z -> Z).

(** [while ((src < srcend) && (srcres= mb_wc(...)) > 0)]: the memory and dst. *)
Fixpoint case_loop (n : nat) (buf : list Z) (src srcend dst dstend : nat) : option (list Z * nat) :=
  if (src <? srcend)%nat then
    match mb_wc (take (srcend - src) (drop src buf)) with
    | inl _ => Some (buf, dst)
    | inr (wc, srcres) =>
      match n with
      | O => None
      | S n =>
        match wc_mb (conv wc) (Z.of_nat dstend - Z.of_nat dst) with
        | inl _ => Some (buf, dst)
        | inr bytes =>
          buf ← put_bytes_at buf dst bytes;
          case_loop n buf (src + srcres) srcend (dst + length bytes) dstend
        end
      end
    end
  else Some (buf, dst).

(** The memory and the length of the result. *)
Definition convert (buf : list Z) (src srclen dst dstlen : nat) : option (list Z * nat) :=
  '(buf, e) ← case_loop srclen buf src (src + srclen) dst (dst + dstlen);
  Some (buf, (e - dst)%nat).
End case.

Section case_str.
Context (mb_wc_no_range : list Z -> option (Z + Z * nat)) (wc_mb_no_range : Z -> Z + list Z) (conv : Z -> Z).

(** [while ( *src && (srcres= ...) > 0)]. *)
Fixpoint case_str_loop (n : nat) (buf : list Z) (src dst : nat) : option (list Z * nat) :=
  c ← buf !! src;
  if test c then
    r ← mb_wc_no_range (drop src buf);
    match r with
    | inl _ => Some (buf, dst)
    | inr (wc, srcres) =>
      match n with
      | O => None
      | S n =>
        match wc_mb_no_range (conv wc) with
        | inl _ => Some (buf, dst)
        | inr bytes =>
          buf ← put_bytes_at buf dst bytes;
          case_str_loop n buf (src + srcres) (dst + length bytes)
        end
      end
    end
  else Some (buf, dst).

(** The loop and [*dst= 0]: the memory and the length of the result. *)
Definition convert_str (buf : list Z) (src : nat) : option (list Z * nat) :=
  '(buf, dst) ← case_str_loop (length buf) buf src src;
  buf ← put_bytes_at buf dst [0];
  Some (buf, (dst - src)%nat).
End case_str.

Definition my_caseup_utf8 (up : uni_plane_t) := convert my_utf8_uni my_uni_utf8 (toupper_utf8 up).
Definition my_casedn_utf8 (up : uni_plane_t) := convert my_utf8_uni my_uni_utf8 (tolower_utf8 up).
Definition my_caseup_utf8mb4 (up : uni_plane_t) := convert my_mb_wc_utf8mb4 my_wc_mb_utf8mb4 (my_toupper_utf8mb4 up).
Definition my_casedn_utf8mb4 (up : uni_plane_t) := convert my_mb_wc_utf8mb4 my_wc_mb_utf8mb4 (my_tolower_utf8mb4 up).

Definition my_caseup_str_utf8 (up : uni_plane_t) :=
  convert_str my_utf8_uni_no_range my_uni_utf8_no_range (toupper_utf8 up).
Definition my_casedn_str_utf8 (up : uni_plane_t) :=
  convert_str my_utf8_uni_no_range my_uni_utf8_no_range (tolower_utf8 up).
Definition my_caseup_str_utf8mb4 (up : uni_plane_t) :=
  convert_str my_mb_wc_utf8mb4_no_range my_wc_mb_utf8mb4_no_range (my_toupper_utf8mb4 up).
Definition my_casedn_str_utf8mb4 (up : uni_plane_t) :=
  convert_str my_mb_wc_utf8mb4_no_range my_wc_mb_utf8mb4_no_range (my_tolower_utf8mb4 up).

(** ** Memory *)

(** The bytes from [s] up to [e]. *)
Definition slice (s e : nat) (buf : list Z) : list Z := take (e - s) (drop s buf).

(** The memory with [bytes] at [dst]. *)
Definition patch (dst : nat) (bytes buf : list Z) : list Z := take dst buf ++ bytes ++ drop (dst + length bytes) buf.

Section memory.
Local Open Scope nat_scope.
Implicit Types (buf bytes : list Z).

Lemma put_bytes_at_ok buf dst bytes : dst + length bytes <= length buf -> put_bytes_at buf dst bytes = Some (patch dst bytes buf).
Proof. intros H. unfold put_bytes_at. by rewrite (proj2 (Nat.leb_le _ _)). Qed.

Lemma patch_length buf dst bytes : dst + length bytes <= length buf -> length (patch dst bytes buf) = length buf.
Proof. intros H. unfold patch. rewrite !length_app, length_take, length_drop. lia. Qed.

Lemma patch_drop buf dst bytes k : dst + length bytes <= length buf -> dst + length bytes <= k ->
  drop k (patch dst bytes buf) = drop k buf.
Proof.
  intros H Hk. unfold patch. rewrite app_assoc, drop_app_ge by (rewrite length_app, length_take; lia).
  rewrite drop_drop. f_equal. rewrite length_app, length_take. lia.
Qed.

Lemma patch_take buf dst bytes k : dst + length bytes <= length buf -> k <= dst -> take k (patch dst bytes buf) = take k buf.
Proof. intros H Hk. unfold patch. rewrite take_app_le by (rewrite length_take; lia). rewrite take_take. f_equal. lia. Qed.

Lemma patch_patch buf dst b1 b2 : dst + length b1 + length b2 <= length buf ->
  patch (dst + length b1) b2 (patch dst b1 buf) = patch dst (b1 ++ b2) buf.
Proof.
  intros H. unfold patch at 1 3. rewrite patch_drop by lia. rewrite length_app, Nat.add_assoc. rewrite !app_assoc. do 2 f_equal.
  unfold patch. rewrite app_assoc, take_app_length' by (rewrite length_app, length_take; lia). done.
Qed.

Lemma patch_nil buf dst : patch dst [] buf = buf.
Proof. unfold patch. simpl. by rewrite Nat.add_0_r, take_drop. Qed.

(** Bytes that are not written. *)
Lemma slice_patch buf dst bytes s e : dst + length bytes <= length buf -> dst + length bytes <= s \/ e <= dst ->
  slice s e (patch dst bytes buf) = slice s e buf.
Proof.
  intros H Hs. unfold slice. destruct Hs as [Hs|Hs]; [by rewrite patch_drop|].
  rewrite !take_drop_commute. destruct (decide (s <= e)).
  - replace (s + (e - s)) with e by lia. by rewrite patch_take.
  - replace (e - s) with 0 by lia. rewrite Nat.add_0_r, !drop_ge by (rewrite length_take; lia). done.
Qed.

Lemma slice_skip buf s e a b : slice s e buf = a ++ b -> slice (s + length a) e buf = b.
Proof.
  unfold slice. intros H. rewrite <- drop_drop. replace (e - (s + length a)) with (e - s - length a) by lia.
  rewrite <- skipn_firstn_comm, H. apply drop_app_length.
Qed.
End memory.

(** ** The loops *)

Lemma utf8_first c : 0 <= c -> c <> 0 -> exists x b, utf8 c = x :: b /\ x <> 0.
Proof.
  intros H H0. unfold utf8. repeat case_if; b2p; eexists _, _; (split; [done|]); [done|..]; zdiv.
Qed.

Section loops.
Context (mb_wc : list Z -> Z + Z * nat) (max : Z) `{!MultiByte mb_wc max} (wc_mb : Z -> Z -> Z + list Z) (conv : Z -> Z).
Context (conv_code : forall c, code max c -> code max (conv c)).
Context (wc_mb_ok : forall wc room, code max wc -> Z.of_nat (length (utf8 wc)) <= room -> wc_mb wc room = inr (utf8 wc)).
Context (wc_mb_room : forall wc room, code max wc -> room < Z.of_nat (length (utf8 wc)) -> exists e, wc_mb wc room = inl e).

(** The converted characters that fit into [room] bytes. *)
Fixpoint fits (room : nat) (l : list Z) : list Z :=
  match l with
  | [] => []
  | c :: l => if (length (utf8 (conv c)) <=? room)%nat then conv c :: fits (room - length (utf8 (conv c))) l else []
  end.

Lemma fits_all room l : (length (utf8s (conv <$> l)) <= room)%nat -> fits room l = conv <$> l.
Proof.
  revert room. induction l as [|c l IH]; intros room; [done|]. rewrite fmap_cons, utf8s_cons, length_app. intros H. simpl.
  rewrite (proj2 (Nat.leb_le _ _)) by lia. f_equal. apply IH. lia.
Qed.

Lemma fits_room room l : (length (utf8s (fits room l)) <= room)%nat.
Proof.
  revert room. induction l as [|c l IH]; intros room; simpl; [lia|]. destruct (Nat.leb_spec (length (utf8 (conv c))) room); [|simpl; lia].
  rewrite utf8s_cons, length_app. specialize (IH (room - length (utf8 (conv c)))%nat). lia.
Qed.

(** No conversion makes a character longer. *)
Definition not_longer : Prop := forall c, code max c -> (length (utf8 (conv c)) <= length (utf8 c))%nat.

Lemma utf8s_not_longer l : not_longer -> Forall (fun c => code max c /\ c <> 0) l ->
  (length (utf8s (conv <$> l)) <= length (utf8s l))%nat.
Proof.
  intros H. induction 1 as [|c l [Hc _] _ IH]; [done|]. rewrite fmap_cons, !utf8s_cons, !length_app. specialize (H c Hc). lia.
Qed.

(** What is written does not reach what is still to be read. *)
Definition no_clash (src srcend dst dstend : nat) : Prop :=
  ((dst <= src)%nat /\ not_longer) \/ (srcend <= dst)%nat \/ (dstend <= src)%nat.

Lemma case_loop_ok l r n : forall buf src srcend dst dstend,
  Forall (code max) l -> Forall is_byte (utf8s l ++ r) -> undecodable mb_wc r -> slice src srcend buf = utf8s l ++ r ->
  (srcend <= length buf)%nat -> (dst <= dstend <= length buf)%nat -> (length l <= n)%nat -> no_clash src srcend dst dstend ->
  case_loop mb_wc wc_mb conv n buf src srcend dst dstend =
    Some (patch dst (utf8s (fits (dstend - dst) l)) buf, (dst + length (utf8s (fits (dstend - dst) l)))%nat).
Proof.
  revert n. induction l as [|c l IH]; intros n buf src srcend dst dstend Hl Hb Hr Hs He Hd Hn Hc.
  { simpl in Hs |- *. rewrite patch_nil, Nat.add_0_r. unfold slice in Hs. destruct n; cbn [case_loop]; rewrite Hs;
      destruct Hr as [e ->]; by destruct (src <? srcend)%nat. }
  apply Forall_cons in Hl as [Hcc Hl]. rewrite utf8s_cons, <- app_assoc in Hs, Hb.
  destruct n as [|n]; [simpl in Hn; lia|]. cbn [case_loop].
  assert (src < srcend)%nat as Hlt.
  { unfold slice in Hs. destruct (decide (src < srcend)%nat); [done|]. replace (srcend - src)%nat with 0%nat in Hs by lia.
    destruct (utf8_cons c) as (x & b & E). rewrite E in Hs. done. }
  rewrite (proj2 (Nat.ltb_lt _ _)) by done. fold (slice src srcend buf). rewrite Hs.
  apply Forall_app in Hb as [_ Hb]. rewrite (mb_utf8 c) by done.
  set (k := length (utf8 (conv c))) in *. cbn [fits]. fold k.
  pose proof (conv_code c Hcc) as Hcv. destruct (Nat.leb_spec k (dstend - dst)) as [Hk|Hk].
  2:{ destruct (wc_mb_room (conv c) (Z.of_nat dstend - Z.of_nat dst) Hcv) as [e ->]; [lia|]. simpl. by rewrite patch_nil, Nat.add_0_r. }
  rewrite wc_mb_ok by (done || lia). rewrite put_bytes_at_ok by lia. cbn [mbind option_bind]. fold k.
  pose proof (slice_skip _ _ _ _ _ Hs) as Hs'.
  rewrite (IH n (patch dst (utf8 (conv c)) buf)); [..|done|done|done| | | |simpl in Hn; lia|].
  - subst k. rewrite utf8s_cons, length_app. rewrite <- Nat.sub_add_distr in *.
    pose proof (fits_room (dstend - (dst + length (utf8 (conv c)))) l). rewrite patch_patch by lia. f_equal. f_equal. lia.
  - rewrite slice_patch; [done|lia|]. destruct Hc as [[Hc Hnl]|[Hc|Hc]]; [|lia|lia]. specialize (Hnl c Hcc). lia.
  - by rewrite patch_length by lia.
  - rewrite patch_length by lia. lia.
  - unfold no_clash. destruct Hc as [[Hc Hnl]|[Hc|Hc]]; [left; split; [specialize (Hnl c Hcc); lia|done]|lia|lia].
Qed.

Context (nr : list Z -> option (Z + Z * nat)) (wc_mb_nr : Z -> Z + list Z).
Context (nr_ok : forall s wc n, mb_wc s = inr (wc, n) -> nr s = Some (inr (wc, n))).
Context (wc_mb_nr_ok : forall wc, code max wc -> wc_mb_nr wc = inr (utf8 wc)).

Lemma case_str_loop_ok l rest n : forall buf src dst, not_longer ->
  Forall (fun c => code max c /\ c <> 0) l -> Forall is_byte (utf8s l ++ 0 :: rest) -> drop src buf = utf8s l ++ 0 :: rest ->
  (dst <= src)%nat -> (length l <= n)%nat ->
  case_str_loop nr wc_mb_nr conv n buf src dst =
    Some (patch dst (utf8s (conv <$> l)) buf, (dst + length (utf8s (conv <$> l)))%nat).
Proof.
  revert n. induction l as [|c l IH]; intros n buf src dst Hnl Hl Hb Hs Hd Hn.
  { assert (buf !! src = Some 0) as E by (rewrite <- (Nat.add_0_r src), <- lookup_drop, Hs; done).
    simpl. rewrite patch_nil, Nat.add_0_r. by destruct n; simpl; rewrite E. }
  apply Forall_cons in Hl as [[Hcc H0] Hl]. rewrite utf8s_cons, <- app_assoc in Hs, Hb.
  destruct n as [|n]; [simpl in Hn; lia|]. cbn [case_str_loop].
  destruct (utf8_first c) as (x & b & E & Hx); [apply Hcc|done|].
  assert (buf !! src = Some x) as -> by (rewrite <- (Nat.add_0_r src), <- lookup_drop, Hs, E; done).
  cbn [mbind option_bind]. rewrite (proj2 (negb_true_iff (x =? 0)) (proj2 (Z.eqb_neq _ _) Hx) : test x = true).
  apply Forall_app in Hb as [_ Hb]. rewrite Hs, (nr_ok _ c (length (utf8 c))) by (by apply mb_utf8). cbn [mbind option_bind].
  pose proof (Hnl c Hcc) as Hlen. rewrite wc_mb_nr_ok by (by apply conv_code).
  assert (src + length (utf8 c) <= length buf)%nat as Hroom.
  { apply (f_equal length) in Hs. rewrite length_drop, !length_app in Hs. simpl in Hs. lia. }
  rewrite put_bytes_at_ok by lia. cbn [mbind option_bind].
  assert (drop (src + length (utf8 c)) buf = utf8s l ++ 0 :: rest) as Hs' by (by rewrite <- drop_drop, Hs, drop_app_length).
  rewrite (IH n (patch dst (utf8 (conv c)) buf)); [|done|done|done| |lia|simpl in Hn; lia].
  - rewrite fmap_cons, utf8s_cons, length_app. rewrite patch_patch; [f_equal; f_equal; lia|].
    apply (f_equal length) in Hs'. rewrite length_drop, !length_app in Hs'. pose proof (utf8s_not_longer l Hnl Hl). simpl in Hs'. lia.
  - by rewrite patch_drop by lia.
Qed.
End loops.

(** ** The tables *)

(** A check of every entry of a table, with its character. *)
Fixpoint each_entry (f : Z -> MY_UNICASE_INFO -> bool) (wc : Z) (p : list MY_UNICASE_INFO) : bool :=
  match p with [] => true | e :: p => f wc e && each_entry f (wc + 1) p end.

Fixpoint each_plane (f : Z -> MY_UNICASE_INFO -> bool) (page : Z) (ps : table) : bool :=
  match ps with
  | [] => true
  | None :: ps => each_plane f (page + 1) ps
  | Some p :: ps => (length p =? 256)%nat && each_entry f (page * 256) p && each_plane f (page + 1) ps
  end.

Lemma each_entry_nth f wc p i e : each_entry f wc p = true -> p !! i = Some e -> f (wc + Z.of_nat i) e = true.
Proof.
  revert wc i. induction p as [|e' p IH]; intros wc i H Hi; [done|]. simpl in H. b2p. destruct i as [|i]; simplify_eq/=.
  - by rewrite Z.add_0_r.
  - replace (wc + Z.of_nat (S i)) with (wc + 1 + Z.of_nat i) by lia. by apply IH.
Qed.

Lemma each_plane_nth f page ps i p : each_plane f page ps = true -> ps !! i = Some (Some p) ->
  length p = 256%nat /\ each_entry f ((page + Z.of_nat i) * 256) p = true.
Proof.
  revert page i. induction ps as [|o ps IH]; intros page i H Hi; [done|]. simpl in H. destruct i as [|i]; simplify_eq/=.
  - b2p. by rewrite Z.add_0_r.
  - replace (page + Z.of_nat (S i)) with (page + 1 + Z.of_nat i) by lia. destruct o; b2p; by apply IH.
Qed.

Lemma each_plane_entry f l wc : each_plane f 0 l = true -> 0 <= wc < 65536 ->
  match planes l (wc / 256) with Some p => f wc (p (wc mod 256)) = true | None => True end.
Proof.
  intros H Hw. unfold planes. destruct (l !! Z.to_nat (wc / 256)) as [[p|]|] eqn:E; [|done|done].
  destruct (each_plane_nth _ _ _ _ _ H E) as [Hl Hp]. pose proof (Z.mod_pos_bound wc 256 ltac:(lia)).
  destruct (lookup_lt_is_Some_2 p (Z.to_nat (wc mod 256))) as [e He]; [lia|]. rewrite (nth_lookup_Some _ _ _ _ He).
  pose proof (each_entry_nth _ _ _ _ _ Hp He) as Hok.
  rewrite !Z2Nat.id in Hok by zdiv. by replace ((0 + wc / 256) * 256 + wc mod 256) with wc in Hok by zdiv.
Qed.

(** A case that is a code of two bytes and, if [short], not longer in UTF-8 than
    the character of the entry. *)
Definition case_ok (short : bool) (case : MY_UNICASE_INFO -> Z) (wc : Z) (e : MY_UNICASE_INFO) : bool :=
  (0 <=? case e) && (case e <=? 65535) && (negb short || (length (utf8 (case e)) <=? length (utf8 wc))%nat).

(** The tables of the collations with caseup_multiply and casedn_multiply 1; the
    ones with my_unicase_turkish have 2. *)
Definition short_tables : list table := [my_unicase_default; my_unicase_mysql500].

Lemma case_tables_ok l short : l ∈ tables -> (short = true -> l ∈ short_tables) ->
  each_plane (case_ok short toupper) 0 l = true /\ each_plane (case_ok short tolower) 0 l = true.
Proof.
  unfold tables, short_tables. intros Hl Hs.
  apply elem_of_cons in Hl as [-> |[-> |[-> |[]%not_elem_of_nil]%elem_of_cons]%elem_of_cons].
  1,2: destruct short; split; by vm_compute.
  destruct short; [|split; by vm_compute]. exfalso. specialize (Hs eq_refl).
  apply elem_of_cons in Hs as [H|[H|[]%not_elem_of_nil]%elem_of_cons]; by vm_compute in H.
Qed.

(** What a conversion of characters has to promise for strings. *)
Definition case_conv (short : bool) (max : Z) (conv : Z -> Z) : Prop :=
  forall c, code max c -> code max (conv c) /\ (short = true -> (length (utf8 (conv c)) <= length (utf8 c))%nat).

Section tables.
Context (short : bool) (case : MY_UNICASE_INFO -> Z) (l : table) (Hl : each_plane (case_ok short case) 0 l = true).

Lemma case_entry wc : 0 <= wc < 65536 ->
  let c := match planes l (wc / 256) with Some p => case (p (wc mod 256)) | None => wc end in
  0 <= c <= 65535 /\ (short = true -> (length (utf8 c) <= length (utf8 wc))%nat).
Proof.
  intros Hw. pose proof (each_plane_entry _ _ _ Hl Hw) as H. destruct (planes l (wc / 256)) as [p|]; [|simpl; lia].
  unfold case_ok in H. rewrite !andb_true_iff, !Z.leb_le, orb_true_iff, negb_true_iff, Nat.leb_le in H. cbv zeta.
  split; [lia|]. intros ->. by destruct H as [_ [H|H]].
Qed.

Lemma case_conv_mb3 :
  case_conv short 65535 (fun wc => match planes l ((wc .>> 8) .& 255) with Some p => case (p (wc .& 255)) | None => wc end).
Proof.
  intros wc Hw. unfold code in *. rewrite Z.shiftr_div_pow2 by lia. change 255 with (Z.ones 8). rewrite !Z.land_ones by lia.
  change (2 ^ 8) with 256. rewrite (Z.mod_small (wc / 256)) by zdiv. apply case_entry. lia.
Qed.

Lemma case_conv_mb4 :
  case_conv short 1114111 (fun wc => if wc .>> 8 <? 256 then
    match planes l (wc .>> 8) with Some p => case (p (wc .& 255)) | None => wc end else wc).
Proof.
  intros wc Hw. unfold code in *. rewrite Z.shiftr_div_pow2 by lia. change 255 with (Z.ones 8). rewrite !Z.land_ones by lia.
  change (2 ^ 8) with 256. destruct (Z.ltb_spec (wc / 256) 256); [|lia].
  destruct (case_entry wc) as [H1 H2]; [zdiv|]. split; [lia|done].
Qed.
End tables.

Lemma mb3_store wc room : code 65535 wc ->
  (Z.of_nat (length (utf8 wc)) <= room -> my_uni_utf8 wc room = inr (utf8 wc)) /\
  (room < Z.of_nat (length (utf8 wc)) -> exists e, my_uni_utf8 wc room = inl e).
Proof.
  unfold code. intros Hw. pose proof (utf8_length wc). destruct (Z.leb_spec room 0).
  { split; [lia|]. intros _. unfold my_uni_utf8. rewrite (proj2 (Z.leb_le _ _)) by done. by eexists. }
  rewrite my_uni_utf8_val, my_wc_mb_utf8mb4_val, !(proj2 (Z.ltb_lt _ _)) by lia.
  destruct (Z.gtb_spec (Z.of_nat (length (utf8 wc))) room); split; intros; (lia || by eexists || done).
Qed.

Lemma mb4_store wc room : code 1114111 wc ->
  (Z.of_nat (length (utf8 wc)) <= room -> my_wc_mb_utf8mb4 wc room = inr (utf8 wc)) /\
  (room < Z.of_nat (length (utf8 wc)) -> exists e, my_wc_mb_utf8mb4 wc room = inl e).
Proof.
  unfold code. intros Hw. pose proof (utf8_length wc). destruct (Z.leb_spec room 0).
  { split; [lia|]. intros _. unfold my_wc_mb_utf8mb4. rewrite (proj2 (Z.leb_le _ _)) by done. by eexists. }
  rewrite my_wc_mb_utf8mb4_val, !(proj2 (Z.ltb_lt _ _)) by lia.
  destruct (Z.gtb_spec (Z.of_nat (length (utf8 wc))) room); split; intros; (lia || by eexists || done).
Qed.

Lemma no_range_mb3 s wc n : my_utf8_uni s = inr (wc, n) -> my_utf8_uni_no_range s = Some (inr (wc, n)).
Proof.
  unfold my_utf8_uni, my_utf8_uni_no_range, seq3. fold (IS_CONTINUATION_BYTE).
  destruct s as [|c [|s1 [|s2 s]]]; cbn [lookup list_lookup mbind option_bind]; [done|..];
    destruct (c <? 128), (c <? 194), (c <? 224), (c <? 240); try done; try (by intros [= <- <-]); unfold IS_CONTINUATION_BYTE;
    destruct (_ .^ 128 <? 64); simpl; try done; try (by intros [= <- <-]);
    destruct (_ .^ 128 <? 64); simpl; try done; by destruct (_ || _); [intros [= <- <-]|].
Qed.

Lemma no_range_mb4 s wc n : my_mb_wc_utf8mb4 s = inr (wc, n) -> my_mb_wc_utf8mb4_no_range s = Some (inr (wc, n)).
Proof.
  unfold my_mb_wc_utf8mb4, my_mb_wc_utf8mb4_no_range, seq3, seq4.
  destruct s as [|c [|s1 [|s2 [|s3 s]]]]; cbn [lookup list_lookup mbind option_bind]; [done|..];
    destruct (c <? 128), (c <? 194), (c <? 224), (c <? 240), (c <? 245); try done; try (by intros [= <- <-]);
    destruct (IS_CONTINUATION_BYTE s1); simpl; try done; try (by intros [= <- <-]);
    destruct (IS_CONTINUATION_BYTE s2); simpl; try done; try (by destruct (_ || _); [intros [= <- <-]|]);
    destruct (IS_CONTINUATION_BYTE s3); simpl; try done; by destruct (_ && _); [intros [= <- <-]|].
Qed.

Lemma mb3_store_nr wc : code 65535 wc -> my_uni_utf8_no_range wc = inr (utf8 wc).
Proof.
  intros Hw. destruct (mb3_store wc 4 Hw) as [H _]. pose proof (utf8_length wc). specialize (H ltac:(lia)). rewrite <- H.
  unfold my_uni_utf8_no_range, my_uni_utf8. by repeat case_if.
Qed.

Lemma mb4_store_nr wc : code 1114111 wc -> my_wc_mb_utf8mb4_no_range wc = inr (utf8 wc).
Proof.
  intros Hw. destruct (mb4_store wc 4 Hw) as [H _]. pose proof (utf8_length wc). specialize (H ltac:(lia)). rewrite <- H.
  unfold my_wc_mb_utf8mb4_no_range, my_wc_mb_utf8mb4. by repeat case_if.
Qed.

(** ** The theorems *)

(** A conversion of a string of characters, with bytes [r] behind it that are no
    character, to memory that is separate from the string or, if [in_place], that
    begins at or before the string. *)
Definition converts (in_place : bool) (f : list Z -> nat -> nat -> nat -> nat -> option (list Z * nat))
    (mb_wc : list Z -> Z + Z * nat) (max : Z) (conv : Z -> Z) : Prop :=
  forall l r buf src srclen dst dstlen,
    Forall (code max) l -> undecodable mb_wc r -> Forall is_byte (utf8s l ++ r) -> slice src (src + srclen) buf = utf8s l ++ r ->
    (src + srclen <= length buf)%nat -> (dst + dstlen <= length buf)%nat ->
    (in_place = true /\ dst <= src \/ src + srclen <= dst \/ dst + dstlen <= src)%nat ->
    let out := utf8s (fits conv dstlen l) in f buf src srclen dst dstlen = Some (patch dst out buf, length out).

(** A conversion of a string that ends with 0, in place. *)
Definition converts_str (f : list Z -> nat -> option (list Z * nat)) (max : Z) (conv : Z -> Z) : Prop :=
  forall l rest buf src,
    Forall (fun c => code max c /\ c <> 0) l -> Forall is_byte (utf8s l ++ 0 :: rest) -> drop src buf = utf8s l ++ 0 :: rest ->
    let out := utf8s (conv <$> l) in f buf src = Some (patch src (out ++ [0]) buf, length out).

Lemma convert_ok in_place mb_wc max wc_mb conv : MultiByte mb_wc max -> case_conv in_place max conv ->
  (forall wc room, code max wc -> (Z.of_nat (length (utf8 wc)) <= room -> wc_mb wc room = inr (utf8 wc)) /\
    (room < Z.of_nat (length (utf8 wc)) -> exists e, wc_mb wc room = inl e)) ->
  converts in_place (convert mb_wc wc_mb conv) mb_wc max conv.
Proof.
  intros Hmb Hc Hw l r buf src srclen dst dstlen Hl Hr Hb Hs H1 H2 H3 out. unfold convert.
  rewrite (case_loop_ok mb_wc max wc_mb conv) with (l := l) (r := r); try done.
  - cbn [mbind option_bind]. replace (dst + dstlen - dst)%nat with dstlen by lia. fold out. f_equal. f_equal. lia.
  - intros c Hcc. apply (Hc c Hcc).
  - intros wc room Hwc. apply (Hw wc room Hwc).
  - intros wc room Hwc. apply (Hw wc room Hwc).
  - lia.
  - assert (length (utf8s l ++ r) <= srclen)%nat by (rewrite <- Hs; unfold slice; rewrite length_take; lia).
    rewrite length_app in *. pose proof (utf8s_length l). lia.
  - destruct H3 as [[Hi H3]|H3]; [left|by right]. split; [done|]. intros c Hcc. by apply (Hc c Hcc).
Qed.

Lemma convert_str_ok mb_wc max conv nr wc_mb_nr : MultiByte mb_wc max -> case_conv true max conv ->
  (forall s wc n, mb_wc s = inr (wc, n) -> nr s = Some (inr (wc, n))) ->
  (forall wc, code max wc -> wc_mb_nr wc = inr (utf8 wc)) -> converts_str (convert_str nr wc_mb_nr conv) max conv.
Proof.
  intros Hmb Hc Hnr Hw l rest buf src Hl Hb Hs out. unfold convert_str.
  assert (length (utf8s l) + 1 <= length buf - src)%nat as Hlen.
  { rewrite <- length_drop, Hs, length_app. simpl. lia. }
  assert (not_longer max conv) as Hnl by (intros c Hcc; by apply (Hc c Hcc)).
  pose proof (utf8s_not_longer max conv l Hnl Hl). pose proof (utf8s_length l).
  rewrite (case_str_loop_ok mb_wc max conv) with (l := l) (rest := rest); try done; [|intros c Hcc; apply (Hc c Hcc)|lia].
  cbn [mbind option_bind]. fold out. rewrite put_bytes_at_ok by (rewrite patch_length; simpl; fold out in H; lia).
  cbn [mbind option_bind]. rewrite patch_patch by (simpl; fold out in H; lia). f_equal. f_equal. lia.
Qed.

(** C27. With each of the three case tables, the four conversion functions store
    the converted characters of a string as far as they fit, up to the first byte
    that is no character, and return their length; they write nothing else.  The
    memory of the result is separate from the string; with the tables of the
    collations whose caseup_multiply is 1, all but my_unicase_turkish, it may also
    be the memory of the string itself, or begin before it. *)
Theorem utf8_case_correct t in_place : t ∈ tables -> (in_place = true -> t ∈ short_tables) ->
  converts in_place (my_caseup_utf8 (planes t)) my_utf8_uni 65535 (toupper_utf8 (planes t)) /\
  converts in_place (my_casedn_utf8 (planes t)) my_utf8_uni 65535 (tolower_utf8 (planes t)) /\
  converts in_place (my_caseup_utf8mb4 (planes t)) my_mb_wc_utf8mb4 1114111 (my_toupper_utf8mb4 (planes t)) /\
  converts in_place (my_casedn_utf8mb4 (planes t)) my_mb_wc_utf8mb4 1114111 (my_tolower_utf8mb4 (planes t)).
Proof.
  intros Ht Hs. destruct (case_tables_ok t in_place Ht Hs) as [Hu Hd].
  split_and!; apply convert_ok; (apply _ || apply mb3_store || apply mb4_store || by apply case_conv_mb3 || by apply case_conv_mb4).
Qed.

(** With my_unicase_turkish a conversion in place overwrites what it has not read
    yet: the small [i] becomes a capital I with a dot, which has two bytes. *)
Example utf8_case_turkish_in_place :
  my_caseup_utf8 (planes my_unicase_turkish) [105; 97; 98] 0 3 0 3 = Some ([196; 176; 98], 2%nat) /\
  my_caseup_utf8 (planes my_unicase_turkish) [105; 97; 98; 0; 0; 0; 0; 0; 0] 0 3 3 6 =
    Some ([105; 97; 98; 196; 176; 65; 66; 0; 0], 4%nat).
Proof. split; by vm_compute. Qed.

(** The functions over strings that end with 0 convert every character in
    place and end the result with 0; they read and write nothing behind it. *)
Theorem utf8_case_str_correct t : t ∈ tables -> t ∈ short_tables ->
  converts_str (my_caseup_str_utf8 (planes t)) 65535 (toupper_utf8 (planes t)) /\
  converts_str (my_casedn_str_utf8 (planes t)) 65535 (tolower_utf8 (planes t)) /\
  converts_str (my_caseup_str_utf8mb4 (planes t)) 1114111 (my_toupper_utf8mb4 (planes t)) /\
  converts_str (my_casedn_str_utf8mb4 (planes t)) 1114111 (my_tolower_utf8mb4 (planes t)).
Proof.
  intros Ht Hs. destruct (case_tables_ok t true Ht) as [Hu Hd]; [done|]. split_and!.
  - apply (convert_str_ok my_utf8_uni); [apply _|by apply case_conv_mb3|apply no_range_mb3|apply mb3_store_nr].
  - apply (convert_str_ok my_utf8_uni); [apply _|by apply case_conv_mb3|apply no_range_mb3|apply mb3_store_nr].
  - apply (convert_str_ok my_mb_wc_utf8mb4); [apply _|by apply case_conv_mb4|apply no_range_mb4|apply mb4_store_nr].
  - apply (convert_str_ok my_mb_wc_utf8mb4); [apply _|by apply case_conv_mb4|apply no_range_mb4|apply mb4_store_nr].
Qed.

(** ** Witnesses *)

Lemma table_default : my_unicase_default ∈ tables.
Proof. left. Qed.

Lemma short_default : my_unicase_default ∈ short_tables.
Proof. left. Qed.

(** A capital I with a dot, which has two bytes and whose small letter has one,
    and a capital A, in place. *)
Lemma utf8_case_correct_witness :
  my_casedn_utf8 up_default [196; 176; 65; 7] 0 3 0 3 = Some ([105; 97; 65; 7], 2%nat).
Proof.
  destruct (utf8_case_correct my_unicase_default true table_default (fun _ => short_default)) as (_ & H & _).
  exact (H [304; 65] [] [196; 176; 65; 7] 0%nat 3%nat 0%nat 3%nat ltac:(repeat constructor; unfold code; lia)
    ltac:(by eexists) ltac:(repeat constructor; unfold is_byte; lia) eq_refl ltac:(simpl; lia) ltac:(simpl; lia) ltac:(left; split; [reflexivity|lia])).
Defined.

Lemma utf8_case_str_correct_witness :
  my_casedn_str_utf8 up_default [196; 176; 65; 0; 7] 0 = Some ([105; 97; 0; 0; 7], 2%nat).
Proof.
  destruct (utf8_case_str_correct my_unicase_default table_default short_default) as (_ & H & _).
  exact (H [304; 65] [7] [196; 176; 65; 0; 7] 0%nat ltac:(repeat constructor; unfold code; lia)
    ltac:(repeat constructor; unfold is_byte; lia) eq_refl).
Defined.
