(* ===== verification/LikeUni.v ===== *)
(** * LIKE: comparison with wildcards, for Unicode

    my_wildcmp_unicode of strings/ctype-utf8.c, which decodes the string and the
    pattern with the mb_wc function of the character set, here any decoder with
    the interface [MultiByte]. *)

From stdpp Require Import prelude list list_numbers numbers.
From Stdlib Require Import ZArith Lia ZifyNat Bool.
From S2P Require Import Prelude LikeSpec Unicase Utf8 Utf8Coll.

Section wildcmp.
(** [weight] is my_tosort_unicode of the weights, or nothing if they are
    null. *)
Context (mb_wc : list Z -> Z + Z * nat) (weight : Z -> Z) (guard : Z -> bool) (escape w_one w_many : Z).

(** [if (w_wc == escape && wildstr < wildend)]: the next character of the
    pattern, the pattern behind it and escaped; [None] is the return of 1. *)
Definition uni_unescape (w_wc : Z) (wild : list Z) : option (Z * list Z * bool) :=
  if (w_wc =? escape) && negb (bool_decide (wild = [])) then
    match mb_wc wild with
    | inl _ => None
    | inr (w_wc, scan) => Some (w_wc, drop scan wild, true)
    end
  else Some (w_wc, wild, false).

(** [while (1)]: the return value, or the string and the pattern, which is at
    [w_many]. *)
Fixpoint uni_literals (n : nat) (str wild : list Z) : option (Z + list Z * list Z) :=
  match n with
  | O => None
  | S n =>
    match mb_wc wild with
    | inl _ => Some (inl 1)
    | inr (w_wc, scan) =>
      if w_wc =? w_many then Some (inr (str, wild))
      else
        match uni_unescape w_wc (drop scan wild) with
        | None => Some (inl 1)
        | Some (w_wc, wild, escaped) =>
          match mb_wc str with
          | inl _ => Some (inl 1)
          | inr (s_wc, scan) =>
            let str := drop scan str in
            if negb (negb escaped && (w_wc =? w_one)) && negb (weight s_wc =? weight w_wc) then Some (inl 1)
            else if bool_decide (wild = []) then Some (inl (if bool_decide (str = []) then 0 else 1))
            else uni_literals n str wild
          end
        end
    end
  end.

(** [for ( ; wildstr != wildend ; )] at [w_many]. *)
Fixpoint uni_skip (n : nat) (str wild : list Z) : option (Z + list Z * list Z) :=
  match wild with
  | [] => Some (inr (str, wild))
  | _ =>
    match n with
    | O => None
    | S n =>
      match mb_wc wild with
      | inl _ => Some (inl 1)
      | inr (w_wc, scan) =>
        if w_wc =? w_many then uni_skip n str (drop scan wild)
        else if w_wc =? w_one then
          match mb_wc str with
          | inl _ => Some (inl 1)
          | inr (_, scan') => uni_skip n (drop scan' str) (drop scan wild)
          end
        else Some (inr (str, wild))
      end
    end
  end.

(** [while (1)] behind [w_many]; the weight of [w_wc] is taken again for each
    character of the string. *)
Fixpoint uni_search (rec : list Z -> option Z) (n : nat) (w_wc : Z) (str : list Z) : option Z :=
  match str with
  | [] => Some (-1)
  | _ =>
    match n with
    | O => None
    | S n =>
      match mb_wc str with
      | inl _ => Some 1
      | inr (s_wc, scan) =>
        let s_wc := weight s_wc in
        let w_wc := weight w_wc in
        if s_wc =? w_wc then
          result ← rec (drop scan str);
          if result <=? 0 then Some result else uni_search rec n w_wc (drop scan str)
        else uni_search rec n w_wc (drop scan str)
      end
    end
  end.

Definition uni_many (rec : list Z -> list Z -> option Z) (str wild : list Z) : option Z :=
  r ← uni_skip (length wild) str wild;
  match r with
  | inl r => Some r
  | inr (str, wild) =>
    if bool_decide (wild = []) then Some 0
    else if bool_decide (str = []) then Some (-1)
    else
      match mb_wc wild with
      | inl _ => Some 1
      | inr (w_wc, scan) =>
        match uni_unescape w_wc (drop scan wild) with
        | None => Some 1
        | Some (w_wc, wild, _) => uni_search (fun s => rec s wild) (length str) w_wc str
        end
      end
  end.

(** The outer loop is left in its first turn. *)
Fixpoint my_wildcmp_unicode_impl (n : nat) (str wild : list Z) (recurse_level : Z) : option Z :=
  match n with
  | O => None
  | S n =>
    if guard recurse_level then Some 1
    else if bool_decide (wild = []) then Some (if bool_decide (str = []) then 0 else 1)
    else
      r ← uni_literals (length wild) str wild;
      match r with
      | inl r => Some r
      | inr (str, wild) => uni_many (fun s w => my_wildcmp_unicode_impl n s w (recurse_level + 1)) str wild
      end
  end.

Definition my_wildcmp_unicode (str wild : list Z) : option Z := my_wildcmp_unicode_impl (S (length wild)) str wild 1.
End wildcmp.

(** The character sets; the weights of utf8_bin are null. *)
Definition my_wildcmp_utf8 (up : uni_plane_t) := my_wildcmp_unicode my_utf8_uni (my_tosort_unicode up).
Definition my_wildcmp_utf8mb4 (up : uni_plane_t) := my_wildcmp_unicode my_mb_wc_utf8mb4 (my_tosort_unicode up).

(** ** Proofs *)

Section proofs.
Context (mb_wc : list Z -> Z + Z * nat) (max : Z) `{!MultiByte mb_wc max} (max_ok : 128 <= max <= 1114111).
Context (weight : Z -> Z) (guard : Z -> bool) (escape w_one w_many : Z).
Context (X : Prop) (guard_ok : X -> forall l, guard l = false) (wild_neq : w_one <> w_many).
Context (escape_neq : escape <> w_one).
Context (weight_idem : forall c, code max c -> weight (weight c) = weight c).

Abbreviation toks := (pattern (fun c => c) escape w_one w_many).
Abbreviation same := (fun c d => weight c =? weight d).
Abbreviation code := (code max).

(** The first character of a string. *)
Lemma decode_cons x l : code x -> Forall code l ->
  mb_wc (utf8s (x :: l)) = inr (x, length (utf8 x)) /\ drop (length (utf8 x)) (utf8s (x :: l)) = utf8s l.
Proof.
  intros Hx Hl. rewrite utf8s_cons. split; [|apply drop_app_length].
  apply (decode_code mb_wc max x (utf8s l) Hx). by apply (utf8s_bytes max).
Qed.

Lemma utf8s_is_nil l : bool_decide (utf8s l = []) = bool_decide (l = []).
Proof. apply bool_decide_ext. split; [apply utf8s_nil|by intros ->]. Qed.

Lemma decode_nil : exists e, mb_wc (utf8s []) = inl e.
Proof. apply mb_nil. Qed.

(** The first element of a pattern that does not begin with a wildcard. *)
Lemma uni_unescape_ok c m : code c -> Forall code m -> c <> w_one -> c <> w_many ->
  exists d m' e, uni_unescape mb_wc escape c (utf8s m) = Some (d, utf8s m', e) /\ toks (c :: m) = Lit d :: toks m' /\
    code d /\ Forall code m' /\ (length m' <= length m)%nat /\ (d = w_one -> e = true).
Proof.
  intros Hc Hm N1 N2. unfold uni_unescape. rewrite utf8s_is_nil. simpl.
  rewrite (proj2 (Z.eqb_neq c w_many)), (proj2 (Z.eqb_neq c w_one)) by done.
  destruct m as [|d m]; [rewrite bool_decide_true, andb_false_r by done|rewrite bool_decide_false by done].
  { exists c, [], false. by split_and!. }
  inversion Hm as [|? ? Hd Hm']; subst. destruct (c =? escape); simpl.
  - destruct (decode_cons d m Hd Hm') as [E1 E2]. rewrite E1, E2. exists d, m, true. split_and!; try done. lia.
  - exists c, (d :: m), false. by split_and!.
Qed.

Lemma uni_literals_ok n l m : Forall code l -> Forall code m -> m <> [] -> (length m <= n)%nat ->
  exists r, uni_literals mb_wc weight escape w_one w_many n (utf8s l) (utf8s m) = Some r /\
    match r with
    | inl v => like_if same X (toks m) l v
    | inr (str', wild') => exists l' m', str' = utf8s l' /\ wild' = utf8s (w_many :: m') /\
        Forall code l' /\ Forall code (w_many :: m') /\ (length m' < length m)%nat /\
        forall v, like_if same X (toks (w_many :: m')) l' v -> like_if same X (toks m) l v
    end.
Proof.
  revert l m. induction n as [|n IH]; intros l [|c m] Hl Hm Hne Hn; simpl in Hn; try done; [lia|].
  inversion Hm as [|? ? Hc Hm']; subst. destruct (decode_cons c m Hc Hm') as [E1 E2].
  cbn [uni_literals]. rewrite E1, E2. destruct (Z.eqb_spec c w_many) as [->|Nm].
  { eexists; split; [done|]. exists l, m. split_and!; try done. simpl. lia. }
  assert (exists d m' e, uni_unescape mb_wc escape c (utf8s m) = Some (d, utf8s m', e) /\
    code d /\ Forall code m' /\ (length m' <= length m)%nat /\
    exists t, t <> Many /\ toks (c :: m) = t :: toks m' /\ forall x s,
      like same (t :: toks m') (x :: s) = (negb e && (d =? w_one) || (weight x =? weight d)) && like same (toks m') s)
    as (d & m' & e & -> & Hd & Hm1 & Hl1 & t & Ht & -> & Hlike).
  { destruct (Z.eqb_spec c w_one) as [->|No].
    - exists w_one, m, false. unfold uni_unescape. rewrite (proj2 (Z.eqb_neq w_one escape)) by congruence.
      split_and!; try done. exists One. split_and!; [done| |].
      + simpl. rewrite (proj2 (Z.eqb_neq w_one w_many)), Z.eqb_refl by done. done.
      + intros x s. by rewrite Z.eqb_refl.
    - destruct (uni_unescape_ok c m Hc Hm' No Nm) as (d & m' & e & -> & Et & Hd & Hm1 & Hl1 & He).
      exists d, m', e. split_and!; try done. exists (Lit d). split_and!; [done|done|].
      intros x s. simpl. rewrite (Z.eqb_sym (weight d)). destruct (Z.eqb_spec d w_one) as [->|]; [by rewrite He|by rewrite andb_false_r]. }
  destruct l as [|x l].
  { destruct decode_nil as [e' ->]. eexists; split; [done|]. right; left. split; [done|]. by destruct t. }
  inversion Hl as [|? ? Hx Hl']; subst. destruct (decode_cons x l Hx Hl') as [F1 F2]. rewrite F1, F2.
  rewrite <- negb_orb. destruct (negb e && (d =? w_one) || (weight x =? weight d)) eqn:E; simpl.
  2: { eexists; split; [done|]. right; left. by rewrite Hlike, E. }
  assert (forall v, like_if same X (toks m') l v -> like_if same X (t :: toks m') (x :: l) v) as Hs.
  { intros v. apply like_if_step; [done|]. by rewrite Hlike, E. }
  rewrite !utf8s_is_nil. case_bool_decide as Em.
  { subst m'. eexists; split; [done|]. apply Hs. apply like_if_end. }
  destruct (IH l m' Hl' Hm1 Em ltac:(lia)) as (r & -> & Hr). exists r. split; [done|].
  destruct r as [v|[str' wild']]; [by apply Hs|]. destruct Hr as (l1 & m1 & -> & -> & H1 & H2 & H3 & H4).
  exists l1, m1. split_and!; try done; [simpl; lia|auto].
Qed.

Lemma toks_many m : toks (w_many :: m) = Many :: toks m.
Proof. simpl. by rewrite Z.eqb_refl. Qed.

Lemma toks_one m : toks (w_one :: m) = One :: toks m.
Proof. simpl. by rewrite (proj2 (Z.eqb_neq w_one w_many)), Z.eqb_refl by done. Qed.

Lemma uni_skip_ok n l m : Forall code l -> Forall code m -> (length m <= n)%nat ->
  exists r, uni_skip mb_wc w_one w_many n (utf8s l) (utf8s m) = Some r /\
    match r with
    | inl v => v = 1 /\ like_any same (toks m) l = false
    | inr (str', wild') => exists l' m', str' = utf8s l' /\ wild' = utf8s m' /\
        Forall code l' /\ Forall code m' /\ (length m' <= length m)%nat /\
        (forall c w, m' = c :: w -> c <> w_one /\ c <> w_many) /\
        like_any same (toks m) l = like_any same (toks m') l'
    end.
Proof.
  revert l m. induction n as [|n IH]; intros l [|c m] Hl Hm Hn; simpl in Hn; try lia;
    try (eexists; split; [done|]; exists l, []; by split_and!).
  inversion Hm as [|? ? Hc Hm']; subst. destruct (decode_cons c m Hc Hm') as [E1 E2].
  cbn [uni_skip]. rewrite E1, E2. destruct (utf8s (c :: m)) eqn:En; [by apply utf8s_nil in En|]. rewrite <- En. clear En.
  destruct (Z.eqb_spec c w_many) as [->|Nm].
  { rewrite toks_many, like_any_many. destruct (IH l m Hl Hm' ltac:(lia)) as (r & -> & Hr). exists r. split; [done|].
    destruct r as [v|[str' wild']]; [done|]. destruct Hr as (l' & m' & ? & ? & ? & ? & ? & ?). exists l', m'. split_and!; try done; [simpl; lia|naive_solver|naive_solver]. }
  destruct (Z.eqb_spec c w_one) as [->|No].
  2: { eexists; split; [done|]. exists l, (c :: m). split_and!; try done. by intros ? ? [= <- <-]. }
  rewrite toks_one, like_any_one. destruct l as [|x l].
  { destruct decode_nil as [e ->]. by eexists. }
  inversion Hl as [|? ? Hx Hl']; subst. destruct (decode_cons x l Hx Hl') as [F1 F2]. rewrite F1, F2.
  destruct (IH l m Hl' Hm' ltac:(lia)) as (r & -> & Hr). exists r. split; [done|].
  destruct r as [v|[str' wild']]; [done|]. destruct Hr as (l' & m' & ? & ? & ? & ? & ? & ?). exists l', m'. split_and!; try done; [simpl; lia|naive_solver|naive_solver].
Qed.

Lemma uni_search_ok rec n w c p l : code c -> weight w = weight c -> Forall code l -> (length l <= n)%nat ->
  (forall a s, l = a ++ s -> exists r, rec (utf8s s) = Some r /\ like_if same X p s r) ->
  exists r, uni_search mb_wc weight rec n w (utf8s l) = Some r /\
    ((r = 0 /\ like_any same (Lit c :: p) l = true) \/ (r = -1 /\ (X -> like_any same (Lit c :: p) l = false))).
Proof.
  intros Hc Hw Hl. revert n w Hw. induction Hl as [|x l Hx Hl IH]; intros n w Hw Hn Hrec.
  { destruct n; (eexists; split; [done|]; by right). }
  destruct n as [|n]; simpl in Hn; [lia|]. destruct (decode_cons x l Hx Hl) as [F1 F2].
  cbn [uni_search]. rewrite F1, F2. destruct (utf8s (x :: l)) eqn:En; [by apply utf8s_nil in En|]. clear En.
  assert (weight (weight w) = weight c) as Hw2 by (rewrite Hw; by apply weight_idem).
  specialize (IH n (weight w) Hw2 ltac:(lia)). rewrite Hw in IH |- *.
  assert (forall a s, l = a ++ s -> exists r, rec (utf8s s) = Some r /\ like_if same X p s r) as Hrec'.
  { intros a s ->. by apply (Hrec (x :: a)). }
  specialize (IH Hrec'). cbn [like_any like]. rewrite (Z.eqb_sym (weight c)).
  destruct (Z.eqb_spec (weight x) (weight c)) as [E|E]; [|exact IH].
  destruct (Hrec [x] l eq_refl) as (r & -> & Hr). obind. destruct Hr as [[-> H]|[[-> H]|[-> H]]]; simpl.
  - eexists; split; [done|]. left. by rewrite H.
  - destruct IH as (r & Hr & IH). exists r. split; [done|]. destruct IH as [[-> IH]|[-> IH]].
    + left. split; [done|]. apply orb_true_iff. by right.
    + right. split; [done|]. intros y. apply orb_false_iff. split; [apply (H y)|apply (IH y)].
  - eexists; split; [done|]. right. split; [done|]. intros y. specialize (H y). rewrite (like_any_like _ _ _ H). simpl.
    by apply like_any_step with (t := Lit c) (d := x) in H as [_ ?]%orb_false_iff.
Qed.

Lemma uni_many_ok rec l m : Forall code l -> Forall code (w_many :: m) ->
  (forall s w, Forall code s -> Forall code w -> (length w < S (length m))%nat ->
     exists r, rec (utf8s s) (utf8s w) = Some r /\ like_if same X (toks w) s r) ->
  exists r, uni_many mb_wc weight escape w_one w_many rec (utf8s l) (utf8s (w_many :: m)) = Some r /\
    like_if same X (toks (w_many :: m)) l r.
Proof.
  intros Hl Hm Hrec. unfold uni_many.
  destruct (uni_skip_ok (length (utf8s (w_many :: m))) l (w_many :: m) Hl Hm (utf8s_length _)) as (r & -> & Hr). obind.
  rewrite toks_many in *. destruct r as [v|[str' wild']].
  { destruct Hr as [-> Hr]. eexists; split; [done|]. right; left. split; [done|]. intros _. by apply like_any_like. }
  destruct Hr as (l' & m' & -> & -> & Hl' & Hm' & Hlen & Hnw & Heq). rewrite !utf8s_is_nil, like_any_many in *.
  unfold like_if. rewrite like_many, like_any_many, Heq.
  case_bool_decide as Em.
  { subst m'. eexists; split; [done|]. left. split; [done|]. apply like_any_true. exists l', []. by rewrite app_nil_r. }
  destruct m' as [|c w]; [done|]. destruct (Hnw c w eq_refl) as [N1 N2]. inversion Hm' as [|? ? Hc Hw]; subst.
  destruct (uni_unescape_ok c w Hc Hw N1 N2) as (d & w' & e & Eu & -> & Hd & Hw' & Hl1 & _).
  case_bool_decide as El.
  { subst l'. eexists; split; [done|]. by right; right. }
  destruct (decode_cons c w Hc Hw) as [E1 E2]. rewrite E1, E2, Eu.
  destruct (uni_search_ok (fun s => rec s (utf8s w')) (length (utf8s l')) d d (toks w') l' Hd eq_refl Hl' (utf8s_length _))
    as (r & -> & Hr).
  { intros a s ->. apply Forall_app in Hl' as [_ ?]. simpl in Hlen. apply Hrec; [done|done|lia]. }
  exists r. split; [done|]. tauto.
Qed.

Lemma my_wildcmp_unicode_impl_ok n l m level : Forall code l -> Forall code m -> (length m < n)%nat ->
  exists r, my_wildcmp_unicode_impl mb_wc weight guard escape w_one w_many n (utf8s l) (utf8s m) level = Some r /\
    like_if same X (toks m) l r.
Proof.
  revert l m level. induction n as [|n IH]; intros l m level Hl Hm Hn; [lia|].
  cbn [my_wildcmp_unicode_impl]. destruct (guard level) eqn:Eg.
  { eexists; split; [done|]. right; left. split; [done|]. intros x. by rewrite (guard_ok x) in Eg. }
  rewrite !utf8s_is_nil. case_bool_decide as Em.
  { subst m. eexists; split; [done|]. apply like_if_end. }
  destruct (uni_literals_ok (length (utf8s m)) l m Hl Hm Em (utf8s_length m)) as (r & -> & Hr). obind.
  destruct r as [v|[str' wild']]; [by eexists|]. destruct Hr as (l' & m' & -> & -> & Hl' & Hm' & Hlen & Hback).
  destruct (uni_many_ok (fun s w => my_wildcmp_unicode_impl mb_wc weight guard escape w_one w_many n s w (level + 1)) l' m' Hl' Hm')
    as (r & -> & Hr).
  { intros s w Hs Hw Hlw. apply IH; [done|done|lia]. }
  exists r. split; [done|auto].
Qed.

Lemma wildcmp_unicode_if l m : Forall code l -> Forall code m ->
  exists r, my_wildcmp_unicode mb_wc weight guard escape w_one w_many (utf8s l) (utf8s m) = Some r /\ like_if same X (toks m) l r.
Proof. intros Hl Hm. apply my_wildcmp_unicode_impl_ok; [done|done|]. pose proof (utf8s_length m). lia. Qed.
End proofs.

Lemma my_wildcmp_unicode_ok mb_wc max `{!MultiByte mb_wc max} weight guard escape w_one w_many l m :
  128 <= max <= 1114111 -> w_one <> w_many -> escape <> w_one ->
  (forall c, code max c -> weight (weight c) = weight c) -> Forall (code max) l -> Forall (code max) m ->
  let same c d := weight c =? weight d in
  let p := pattern (fun c => c) escape w_one w_many m in
  exists r, my_wildcmp_unicode mb_wc weight guard escape w_one w_many (utf8s l) (utf8s m) = Some r /\
    (r = 0 -> like same p l = true) /\ ((forall k, guard k = false) -> like_result same p l r).
Proof.
  intros Hmax Hw He Hi Hl Hm same p.
  destruct (wildcmp_unicode_if mb_wc max Hmax weight guard escape w_one w_many (forall k, guard k = false)
    ltac:(tauto) Hw He Hi l m Hl Hm) as (r & Hr & H).
  exists r. split; [exact Hr|]. split; [intros ->; by apply like_if_match in H|]. intros Hg. by apply (like_if_result _ _ _ _ _ Hg).
Qed.

(** C20. my_wildcmp_utf8 and my_wildcmp_utf8mb4 of two well-formed strings of
    characters end.  If the stack guard does not fire, they return 0 if and only if
    the string matches the pattern character by character under the weights of one
    of the three tables, and -1 only when no end of the string matches either;
    whatever the guard is, 0 is only returned for a match.  The two wildcards are
    different, and the escape character is not [w_one]; if it is [w_many], it is a
    wildcard. *)
Theorem my_wildcmp_utf8_correct l guard escape w_one w_many str wild :
  l ∈ tables -> w_one <> w_many -> escape <> w_one ->
  Forall (code 1114111) str -> Forall (code 1114111) wild ->
  let same c d := my_tosort_unicode (planes l) c =? my_tosort_unicode (planes l) d in
  let p := pattern (fun c => c) escape w_one w_many wild in
  (exists r, my_wildcmp_utf8mb4 (planes l) guard escape w_one w_many (utf8s str) (utf8s wild) = Some r /\
     (r = 0 -> like same p str = true) /\ ((forall k, guard k = false) -> like_result same p str r)) /\
  (Forall (code 65535) str -> Forall (code 65535) wild ->
   exists r, my_wildcmp_utf8 (planes l) guard escape w_one w_many (utf8s str) (utf8s wild) = Some r /\
     (r = 0 -> like same p str = true) /\ ((forall k, guard k = false) -> like_result same p str r)).
Proof.
  intros Hl%tables_ok%table_idem Hw He Hs Hm same p. split.
  - apply (my_wildcmp_unicode_ok my_mb_wc_utf8mb4 1114111); done.
  - intros Hs3 Hm3. apply (my_wildcmp_unicode_ok my_utf8_uni 65535); try done.
    intros c Hc. apply Hl. unfold code in Hc. lia.
Qed.

(** With [w_one] as the escape character, my_wildcmp_unicode takes it as an escape
    in front of the first [w_many] and as a wildcard behind one: the string [xx]
    matches the pattern [__] as two wildcards, and does not as an escaped [_],
    and the two forms of the pattern with a [%] in front are told apart. *)
Example my_wildcmp_unicode_escape_one :
  my_wildcmp_utf8 up_default (fun _ => false) 95 95 37 [120; 120] [95; 95] = Some 1 /\
  my_wildcmp_utf8 up_default (fun _ => false) 95 95 37 [95] [95; 95] = Some 0 /\
  my_wildcmp_utf8 up_default (fun _ => false) 95 95 37 [120; 120] [37; 95; 95] = Some 0 /\
  my_wildcmp_utf8 up_default (fun _ => false) 95 95 37 [95] [37; 95; 95] = Some 1.
Proof. by vm_compute. Qed.

(** ** Witnesses *)

(** The euro sign, b and a capital A with ring; the pattern is [%b] and a small a
    with ring. *)
Definition u_str : list Z := [8364; 98; 197].
Definition u_wild : list Z := [37; 98; 229].

Lemma my_wildcmp_utf8_correct_witness : exists r,
  my_wildcmp_utf8 up_default (fun _ => false) 92 95 37 (utf8s u_str) (utf8s u_wild) = Some r /\ r = 0.
Proof.
  pose proof (my_wildcmp_utf8_correct my_unicase_default (fun _ => false) 92 95 37 u_str u_wild
    ltac:(left) ltac:(done) ltac:(done) ltac:(repeat constructor; unfold code; lia)
    ltac:(repeat constructor; unfold code; lia)) as [_ H].
  destruct H as (r & H1 & _ & H2); [repeat constructor; unfold code; lia|repeat constructor; unfold code; lia|].
  exists r. split; [exact H1|]. apply (like_result_zero _ _ _ _ (H2 (fun _ => eq_refl))). reflexivity.
Defined.
