(* ===== verification/HashUtf8.v ===== *)
(** * Hash tables with UTF-8 keys

    A HASH whose charset is utf8_general_ci: calc_hash of mysys/hash.c calls
    my_hash_sort_utf8 and hashcmp calls my_strnncoll_utf8.  What the table relies
    on, that equal keys have equal hashes, is proved in [Utf8Coll], so that a
    search finds the records with an equal key. *)

From stdpp Require Import prelude list list_numbers.
From Stdlib Require Import ZArith Lia ZifyNat.
From S2P Require Import Prelude DynArray HashTable HashChains HashSearch Unicase Utf8 Utf8Coll.

Open Scope nat_scope.

(** [ulong nr1=1, nr2=4; hash_sort(..., &nr1, &nr2); return nr1]. *)
Definition utf8_hash_sort (up : uni_plane_t) (key : list Z) : Z :=
  from_option fst 0%Z (my_hash_sort_utf8 up (u8 <$> key) (1, 4)%Z).

(** my_strnncoll of the charset; the loop always ends. *)
Definition utf8_strnncoll (up : uni_plane_t) (a b : list Z) : Z :=
  default 1%Z (my_strnncoll_utf8 up (u8 <$> a) (u8 <$> b) false).

Lemma u8_fmap_bytes l : Forall is_byte (u8 <$> l).
Proof. apply Forall_fmap, Forall_true. intros c. apply u8_range. Qed.

Lemma u8_fmap_id l : Forall is_byte l -> u8 <$> l = l.
Proof. induction 1 as [|c l Hc _ IH]; [done|]. rewrite fmap_cons, IH, u8_byte; done. Qed.

Lemma utf8_strnncoll_total up a b : exists r, my_strnncoll_utf8 up (u8 <$> a) (u8 <$> b) false = Some r.
Proof.
  unfold my_strnncoll_utf8, strnncoll.
  destruct (coll_total my_utf8_uni 65535 (sort_utf8 up) (length (u8 <$> a)) (u8 <$> a) (u8 <$> b)) as [r ->];
    [apply u8_fmap_bytes|apply u8_fmap_bytes|done|]. obind. destruct r as [|[s t]]; by eexists.
Qed.

Lemma utf8_strnncoll_zero up a b : utf8_strnncoll up a b = 0%Z <-> my_strnncoll_utf8 up (u8 <$> a) (u8 <$> b) false = Some 0%Z.
Proof. unfold utf8_strnncoll. destruct (utf8_strnncoll_total up a b) as [r ->]. simpl. naive_solver. Qed.

Lemma utf8_coll_hash up a b : space_alone up -> utf8_strnncoll up a b = 0%Z -> utf8_hash_sort up a = utf8_hash_sort up b.
Proof.
  intros Hs Hz%utf8_strnncoll_zero. unfold utf8_hash_sort.
  destruct (utf8_equal_hash_ok up (u8 <$> a) (u8 <$> b) (1, 4)%Z Hs (u8_fmap_bytes a) (u8_fmap_bytes b)) as (h & -> & ->); [|done].
  by right.
Qed.

Section utf8_table.
Context {T R : Type} `{LinkArrayLaws T (HASH_LINK R)}.
Context (my_hash_key : R -> list Z) (up : uni_plane_t).

(** The record has a key of the length of [key] that is equal in the
    collation. *)
Definition equal_key (key : list Z) (r : R) : Prop :=
  length (my_hash_key r) = length key /\ my_strnncoll_utf8 up (my_hash_key r) key false = Some 0%Z.

#[export] Instance equal_key_dec key r : Decision (equal_key key r).
Proof. unfold equal_key. apply _. Defined.

(** C15. In a well-formed table with UTF-8 keys, my_hash_first and my_hash_next
    visit each record whose key has the length in bytes of the one that is
    searched for and is equal to it under the collation exactly once, and no
    other record; my_hash_search returns the first of them.  (hashcmp refuses keys
    of another length, so that an [e] does not find an [e] with an accent, which
    has two bytes, although the two are equal in the collation.)  The key is not
    empty, and the hash values are those of the collation. *)
Theorem utf8_hash_search h key :
  space_alone up -> hash_ok my_hash_key (utf8_hash_sort up) h -> get_hash h = None ->
  (forall r, Forall is_byte (my_hash_key r)) -> Forall is_byte key -> key <> [] ->
  exists rs, search_all my_hash_key (utf8_hash_sort up) (utf8_strnncoll up) h key (length key) = Some rs /\
    my_hash_search my_hash_key (utf8_hash_sort up) (utf8_strnncoll up) h key (length key) = Some (head rs) /\
    rs ≡ₚ filter (equal_key key) (map data (links h)).
Proof.
  intros Hs Hok Hg Hr Hk Hne. destruct (ok_chains _ _ _ Hok) as [C Hf].
  assert (searchable my_hash_key (utf8_hash_sort up) (utf8_strnncoll up) h (length key)) as Hse.
  { split; [by intros a b; apply utf8_coll_hash|by rewrite Hg|]. by destruct key. }
  eexists. destruct (search_all_spec _ _ _ h C key (length key) Hok Hse Hf) as (H1 & H2 & H3).
  split; [exact H1|]. split; [exact H2|]. rewrite H3. apply reflexive_eq, list_filter_iff.
  intros r. unfold key_is, hashcmp, equal_key. rewrite Z.eqb_eq.
  destruct (decide (length key = length (my_hash_key r))) as [E|E].
  - rewrite (proj2 (Nat.eqb_eq _ _) E), andb_false_r, <- E, take_ge by lia.
    rewrite utf8_strnncoll_zero, !u8_fmap_id by done. naive_solver.
  - rewrite (proj2 (Nat.eqb_neq (length key) (length (my_hash_key r))) E). destruct key; [done|]. simpl. naive_solver.
Qed.
End utf8_table.

(** ** An example: a table with one record *)

Definition utf8_alloc : allocator (HASH_LINK (list Z)) := fun _ => Some (fun _ => mk_link None []).

#[export] Instance utf8_ops : LinkArray (DYNAMIC_ARRAY (HASH_LINK (list Z))) (HASH_LINK (list Z)) :=
  dynamic_array_ops utf8_alloc.
#[export] Instance utf8_laws : LinkArrayLaws (DYNAMIC_ARRAY (HASH_LINK (list Z))) (HASH_LINK (list Z)) :=
  dynamic_array_laws utf8_alloc.

Definition utf8_key (r : list Z) : list Z := u8 <$> r.

Definition utf8_table : HASH (DYNAMIC_ARRAY (HASH_LINK (list Z))) (list Z) :=
  mk_hash 0 2 1 HASH_UNIQUE (mk_array (HeapBuf [mk_link None s_aBc]) 1 1 2 16) false None.

Lemma utf8_table_ok : hash_ok utf8_key (utf8_hash_sort up_default) utf8_table.
Proof.
  split.
  - split; simpl; lia.
  - done.
  - right. exists 0. simpl. lia.
  - exists (fun b => if b =? 0 then [0] else []). split.
    + intros [|b]; [|apply chain_nil]. split; [|by intros p [= <-]|apply NoDup_singleton].
      intros [|k] p Hk; simplify_eq/=. eexists. split; [done|]. by vm_compute.
    + intros [|p] Hp _; [exists 0; left|simpl in Hp; lia].
    + done.
Qed.

Lemma utf8_hash_search_witness : exists rs,
  search_all utf8_key (utf8_hash_sort up_default) (utf8_strnncoll up_default) utf8_table [65; 98; 67]%Z 3 = Some rs /\
  rs ≡ₚ [s_aBc].
Proof.
  destruct (utf8_hash_search utf8_key up_default utf8_table [65; 98; 67]%Z) as (rs & H1 & _ & H3).
  - exact default_alone.
  - exact utf8_table_ok.
  - reflexivity.
  - intros r. apply u8_fmap_bytes.
  - apply bytes_ok. reflexivity.
  - discriminate.
  - exists rs. split; [exact H1|]. exact H3.
Defined.
