(* ===== verification/Qsort.v ===== *)
(** * mysys/mf_qsort.c

    my_qsort and my_qsort2, a quicksort with its own stack of ranges: ranges of
    fewer than ten elements are sorted by insertion, the pivot is the median of
    three elements or of nine, the larger part of a partition is pushed and the
    smaller one is sorted first.

    The array is the list of its elements; a pointer into it is the number of the
    element, so that the difference of two pointers is [size] times the difference
    of the numbers.  [cmp] is the comparison function, with its first argument
    where my_qsort2 passes one.  A pointer can be one element in front of the
    array, where nothing is read.

    The result is a sorted permutation, for arrays of less than 2^31 bytes: the
    sizes of the parts are converted to [int], and larger parts can be forgotten.
    That the result is [Some] says that the scans of a partition stay inside of
    the array, that the stack of 64 ranges does not overflow and that the loops
    end. *)

From stdpp Require Import prelude list sorting.
From Stdlib Require Import ZArith Lia ZifyNat.
From S2P Require Import Prelude.

Open Scope Z_scope.

Section model.
Context {A : Type} (cmp : A -> A -> Z) (size : Z).

Definition elem (a : list A) (i : Z) : option A := if i <? 0 then None else a !! Z.to_nat i.

Definition CMP (a : list A) (i j : Z) : option Z := x ← elem a i; y ← elem a j; Some (cmp x y).

Definition SWAP (a : list A) (i j : Z) : option (list A) :=
  x ← elem a i; y ← elem a j; Some (<[Z.to_nat j := x]> (<[Z.to_nat i := y]> a)).

(** Put the median in the middle argument. *)
Definition MEDIAN (a : list A) (low mid high : Z) : option (list A) :=
  c ← CMP a high low;
  a ← (if c <? 0 then SWAP a high low else Some a);
  c ← CMP a mid low;
  if c <? 0 then SWAP a mid low
  else
    c ← CMP a high mid;
    if c <? 0 then SWAP a mid high else Some a.

Definition STACK_SIZE : Z := 8 * 8.
Definition THRESHOLD_FOR_INSERT_SORT : Z := 10.

(** [for (ptr = low_ptr; ptr > low && CMP(ptr - size, ptr) > 0; ptr -= size)]. *)
Fixpoint insert_down (n : nat) (a : list A) (low ptr : Z) : option (list A) :=
  if ptr >? low then
    c ← CMP a (ptr - 1) ptr;
    if c >? 0 then
      match n with
      | O => None
      | S n => a ← SWAP a ptr (ptr - 1); insert_down n a low (ptr - 1)
      end
    else Some a
  else Some a.

(** [for (low_ptr = low + size; low_ptr <= high; low_ptr += size)]. *)
Fixpoint insert_sort (n : nat) (a : list A) (low low_ptr high : Z) : option (list A) :=
  if low_ptr <=? high then
    match n with
    | O => None
    | S n => a ← insert_down (length a) a low low_ptr; insert_sort n a low (low_ptr + 1) high
    end
  else Some a.

(** [while (CMP(low_ptr, pivot) < 0) low_ptr += size]. *)
Fixpoint scan_up (n : nat) (a : list A) (pivot : A) (low_ptr : Z) : option Z :=
  x ← elem a low_ptr;
  if cmp x pivot <? 0 then
    match n with O => None | S n => scan_up n a pivot (low_ptr + 1) end
  else Some low_ptr.

(** [while (CMP(pivot, high_ptr) < 0) high_ptr -= size]. *)
Fixpoint scan_down (n : nat) (a : list A) (pivot : A) (high_ptr : Z) : option Z :=
  x ← elem a high_ptr;
  if cmp pivot x <? 0 then
    match n with O => None | S n => scan_down n a pivot (high_ptr - 1) end
  else Some high_ptr.

(** [do ... while (low_ptr <= high_ptr)]: the array, low_ptr and high_ptr. *)
Fixpoint part_loop (n : nat) (a : list A) (pivot : A) (low_ptr high_ptr : Z) : option (list A * Z * Z) :=
  match n with
  | O => None
  | S n =>
    low_ptr ← scan_up (length a) a pivot low_ptr;
    high_ptr ← scan_down (length a) a pivot high_ptr;
    if low_ptr <? high_ptr then
      a ← SWAP a low_ptr high_ptr;
      if low_ptr + 1 <=? high_ptr - 1 then part_loop n a pivot (low_ptr + 1) (high_ptr - 1)
      else Some (a, low_ptr + 1, high_ptr - 1)
    else if low_ptr =? high_ptr then Some (a, low_ptr + 1, high_ptr - 1)
    else Some (a, low_ptr, high_ptr)
  end.

(** The pivot and where the scans start. *)
Definition choose_pivot (a : list A) (low high count : Z) : option (list A * Z * Z * Z) :=
  let mid := low + (count .>> 1) in
  if count >? 40 then
    let step := count / 8 in
    a ← MEDIAN a low (low + step) (low + step * 2);
    a ← MEDIAN a (mid - step) mid (mid + step);
    a ← MEDIAN a (high - 2 * step) (high - step) high;
    a ← MEDIAN a (low + step) mid (high - step);
    Some (a, mid, low, high)
  else
    a ← MEDIAN a low mid high;
    Some (a, mid, low + 1, high - 1).

Definition partition (a : list A) (low high : Z) : option (list A * Z * Z) :=
  let count := high - low + 1 in
  '(a, mid, low_ptr, high_ptr) ← choose_pivot a low high count;
  pivot ← elem a mid;
  part_loop (length a) a pivot low_ptr high_ptr.

(** The range to sort next in front of those on the stack.  POP of the last one
    reads stack[0] and ends the loop. *)
Definition PUSH (next pushed : Z * Z) (stack : list (Z * Z)) : option (list (Z * Z)) :=
  if Z.of_nat (length stack) + 1 <? STACK_SIZE then Some (next :: pushed :: stack) else None.

Definition next_range (low high low_ptr high_ptr : Z) (stack : list (Z * Z)) : option (list (Z * Z)) :=
  if s32 (size * (high_ptr - low)) <=? 0 then
    if s32 (size * (high - low_ptr)) <=? 0 then Some stack
    else Some ((low_ptr, high) :: stack)
  else if s32 (size * (high - low_ptr)) <=? 0 then Some ((low, high_ptr) :: stack)
  else if size * (high_ptr - low) >? size * (high - low_ptr) then PUSH (low_ptr, high) (low, high_ptr) stack
  else PUSH (low, high_ptr) (low_ptr, high) stack.

Fixpoint sort_ranges (n : nat) (a : list A) (ranges : list (Z * Z)) : option (list A) :=
  match ranges with
  | [] => Some a
  | (low, high) :: stack =>
    match n with
    | O => None
    | S n =>
      let count := high - low + 1 in
      if count <? THRESHOLD_FOR_INSERT_SORT then
        a ← insert_sort (length a) a low (low + 1) high;
        sort_ranges n a stack
      else
        '(a, low_ptr, high_ptr) ← partition a low high;
        ranges ← next_range low high low_ptr high_ptr stack;
        sort_ranges n a ranges
    end
  end.

Definition my_qsort (a : list A) : option (list A) :=
  let count := Z.of_nat (length a) in
  if count <=? 1 then Some a else sort_ranges (2 * length a) a [(0, count - 1)].
End model.

(** ** Elements *)

(** What the comparison function promises: a total preorder. *)
Class SortOrder {A : Type} (cmp : A -> A -> Z) : Prop := {
  cmp_opp a b : cmp a b < 0 <-> 0 < cmp b a;
  cmp_le_trans a b c : cmp a b <= 0 -> cmp b c <= 0 -> cmp a c <= 0
}.

Section elements.
Context {A : Type}.
Implicit Types (a b c : list A).

Lemma elem_pos a i : 0 <= i -> elem a i = a !! Z.to_nat i.
Proof. intros H. unfold elem. by rewrite (proj2 (Z.ltb_ge _ _)) by lia. Qed.

Lemma elem_some a i : 0 <= i < Z.of_nat (length a) -> is_Some (elem a i).
Proof. intros H. unfold elem. rewrite (proj2 (Z.ltb_ge _ _)) by lia. apply lookup_lt_is_Some. lia. Qed.

Lemma elem_bound a i x : elem a i = Some x -> 0 <= i < Z.of_nat (length a).
Proof. unfold elem. case_if; [done|]. b2p. intros H%lookup_lt_Some. lia. Qed.

Lemma elem_nat a (i : nat) : elem a (Z.of_nat i) = a !! i.
Proof. unfold elem. rewrite (proj2 (Z.ltb_ge _ _)) by lia. by rewrite Nat2Z.id. Qed.

(** [b] is [a] with the elements from [low] to [high] in another order. *)
Record perm_in (low high : Z) a b : Prop := {
  in_perm : b ≡ₚ a;
  in_outside i : i < low \/ high < i -> elem b i = elem a i;
  in_inside i : low <= i <= high -> exists j, low <= j <= high /\ elem b i = elem a j
}.

Lemma perm_in_refl low high a : perm_in low high a a.
Proof. split; [done|done|]. intros i Hi. by exists i. Qed.

Lemma perm_in_trans low high a b c : perm_in low high a b -> perm_in low high b c -> perm_in low high a c.
Proof.
  intros [P1 O1 I1] [P2 O2 I2]. split; [by rewrite P2|intros i Hi; by rewrite O2, O1|].
  intros i (j & Hj & ->)%I2. by apply I1.
Qed.

Lemma perm_in_mono low high low' high' a b :
  perm_in low high a b -> low' <= low -> high <= high' -> perm_in low' high' a b.
Proof.
  intros [P O I] Hl Hh. split; [done|intros i Hi; apply O; lia|]. intros i Hi.
  destruct (decide (low <= i <= high)) as [(j & Hj & E)%I|]; [exists j; split; [lia|done]|].
  exists i. split; [done|]. apply O. lia.
Qed.

Lemma perm_in_length low high a b : perm_in low high a b -> length b = length a.
Proof. intros H. apply Permutation_length, H. Qed.

(** What SWAP does. *)
Record swapped (i j : Z) a b : Prop := {
  sw_first x : elem a i = Some x -> elem b j = Some x;
  sw_second y : elem a j = Some y -> elem b i = Some y;
  sw_other k : k <> i -> k <> j -> elem b k = elem a k;
  sw_perm : b ≡ₚ a
}.

Lemma SWAP_ok a i j : 0 <= i < Z.of_nat (length a) -> 0 <= j < Z.of_nat (length a) ->
  exists b, SWAP a i j = Some b /\ swapped i j a b.
Proof.
  intros Hi Hj. unfold SWAP. destruct (elem_some a i Hi) as [x Ex], (elem_some a j Hj) as [y Ey].
  rewrite Ex, Ey. simpl. eexists. split; [done|]. rewrite elem_pos in Ex, Ey by lia. split.
  - intros x'. rewrite !elem_pos, Ex by lia. intros [= ->]. apply list_lookup_insert_eq. rewrite length_insert. lia.
  - intros y'. rewrite !elem_pos, Ey by lia. intros [= ->].
    destruct (decide (Z.to_nat i = Z.to_nat j)) as [E|E].
    + rewrite E in *. rewrite Ex in Ey. injection Ey as ->. apply list_lookup_insert_eq. rewrite length_insert. lia.
    + rewrite list_lookup_insert_ne by congruence. apply list_lookup_insert_eq. lia.
  - intros k Hki Hkj. unfold elem. case_if; [done|]. b2p. rewrite !list_lookup_insert_ne by lia. done.
  - by apply Permutation_insert_swap.
Qed.

Lemma swapped_in low high i j a b :
  swapped i j a b -> low <= i <= high -> low <= j <= high -> is_Some (elem a i) -> is_Some (elem a j) ->
  perm_in low high a b.
Proof.
  intros [F S O P] Hi Hj [x Ex] [y Ey]. split; [done|intros k Hk; apply O; lia|].
  intros k Hk. destruct (decide (k = j)) as [->|]; [exists i; by rewrite Ex, (F x)|].
  destruct (decide (k = i)) as [->|]; [exists j; by rewrite Ey, (S y)|]. exists k. by rewrite O.
Qed.

Lemma SWAP_in low high a i j : 0 <= low -> high < Z.of_nat (length a) -> low <= i <= high -> low <= j <= high ->
  exists b, SWAP a i j = Some b /\ swapped i j a b /\ perm_in low high a b.
Proof.
  intros Hl Hh Hi Hj. destruct (SWAP_ok a i j) as (b & E & H); [lia|lia|]. exists b. split; [done|]. split; [done|].
  by apply (swapped_in low high i j); [..|apply elem_some; lia|apply elem_some; lia].
Qed.
End elements.

Section sorting.
Context {A : Type} (cmp : A -> A -> Z) `{!SortOrder cmp}.
Implicit Types (a b c : list A).

Definition le (x y : A) : Prop := cmp x y <= 0.
(** The element at [i] is not greater than the one at [j]. *)
Definition le_at a (i j : Z) : Prop := forall x y, elem a i = Some x -> elem a j = Some y -> le x y.

Lemma le_refl x : le x x.
Proof. unfold le. pose proof (cmp_opp x x). lia. Qed.

Lemma le_trans x y z : le x y -> le y z -> le x z.
Proof. apply cmp_le_trans. Qed.

Lemma lt_le x y : cmp x y < 0 -> le x y.
Proof. unfold le. lia. Qed.

Lemma not_lt_le x y : ~ cmp x y < 0 -> le y x.
Proof. unfold le. pose proof (cmp_opp x y). pose proof (cmp_opp y x). lia. Qed.

Lemma gt_le x y : cmp x y > 0 -> le y x.
Proof. intros H. apply lt_le. pose proof (cmp_opp y x). lia. Qed.

Lemma le_at_trans a i j k : is_Some (elem a j) -> le_at a i j -> le_at a j k -> le_at a i k.
Proof. intros [y Ey] H1 H2 x z Ex Ez. eapply le_trans; [by apply H1|by apply H2]. Qed.

Lemma CMP_ok a i j : 0 <= i < Z.of_nat (length a) -> 0 <= j < Z.of_nat (length a) ->
  exists x y, elem a i = Some x /\ elem a j = Some y /\ CMP cmp a i j = Some (cmp x y).
Proof.
  intros [x Ex]%elem_some [y Ey]%elem_some. exists x, y. unfold CMP. by rewrite Ex, Ey.
Qed.

(** ** Medians *)

Lemma le_at_intro a i j x y : elem a i = Some x -> elem a j = Some y -> le x y -> le_at a i j.
Proof. intros E1 E2 H x' y'. rewrite E1, E2. by intros [= <-] [= <-]. Qed.

Lemma swap_if low high a i j x y :
  0 <= low -> high < Z.of_nat (length a) -> low <= i <= high -> low <= j <= high -> i <> j ->
  elem a i = Some x -> elem a j = Some y ->
  exists b, (if cmp y x <? 0 then SWAP a j i else Some a) = Some b /\ perm_in low high a b /\
    exists x' y', elem b i = Some x' /\ elem b j = Some y' /\ le x' y' /\
    forall k, k <> i -> k <> j -> elem b k = elem a k.
Proof.
  intros Hl Hh Hi Hj Hij Ex Ey. case_if; b2p.
  - destruct (SWAP_in low high a j i) as (b & -> & [F S O _] & Hp); [lia..|]. exists b. do 2 (split; [done|]).
    exists y, x. split; [by apply F|]. split; [by apply S|]. split; [by apply lt_le|]. intros k ??. by apply O.
  - exists a. split; [done|]. split; [apply perm_in_refl|]. exists x, y. do 2 (split; [done|]).
    split; [apply not_lt_le; lia|done].
Qed.

Lemma MEDIAN_ok a low mid high : 0 <= low < mid -> mid < high -> high < Z.of_nat (length a) ->
  exists b, MEDIAN cmp a low mid high = Some b /\ perm_in low high a b /\ le_at b low mid /\ le_at b mid high.
Proof.
  intros Hl Hm Hh. unfold MEDIAN.
  destruct (CMP_ok a high low) as (z & x & Ez & Ex & ->); [lia|lia|]. simpl.
  destruct (elem_some a mid) as [y Ey]; [lia|].
  destruct (swap_if low high a low high x z) as (b & -> & Hp & x' & z' & Ex' & Ez' & Hxz & O); [lia..|done|done|].
  simpl. rewrite <- O in Ey by lia. pose proof (perm_in_length _ _ _ _ Hp) as L.
  unfold CMP. rewrite Ex', Ey, Ez'. simpl. destruct (Z.ltb_spec (cmp y x') 0) as [H|H].
  - destruct (SWAP_in low high b mid low) as (c & -> & [F S O' _] & Hp'); [lia..|].
    exists c. split; [done|]. split; [by eapply perm_in_trans|]. split.
    + eapply le_at_intro; [by apply F|by apply S|by apply lt_le].
    + eapply le_at_intro; [by apply S|rewrite O' by lia; done|done].
  - destruct (Z.ltb_spec (cmp z' y) 0) as [H'|H'].
    + destruct (SWAP_in low high b mid high) as (c & -> & [F S O' _] & Hp'); [lia..|].
      exists c. split; [done|]. split; [by eapply perm_in_trans|]. split.
      * eapply le_at_intro; [rewrite O' by lia; done|by apply S|done].
      * eapply le_at_intro; [by apply S|by apply F|by apply lt_le].
    + exists b. split; [done|]. split; [done|].
      split; (eapply le_at_intro; [done|done|apply not_lt_le; lia]).
Qed.

(** ** Insertion *)

Definition sorted_in a (low high : Z) : Prop := forall i j, low <= i < j -> j <= high -> le_at a i j.

Lemma le_at_eq a b i j i' j' : elem b i = elem a i' -> elem b j = elem a j' -> le_at a i' j' -> le_at b i j.
Proof. intros E1 E2 H x y. rewrite E1, E2. apply H. Qed.

(** All is sorted but the element at [ptr], which is not greater than those
    behind it. *)
Lemma insert_down_ok top n : forall a low ptr, 0 <= low <= ptr -> ptr <= top < Z.of_nat (length a) ->
  ptr - low <= Z.of_nat n -> (forall i j, low <= i < j -> j <= top -> j <> ptr -> le_at a i j) ->
  exists b, insert_down cmp n a low ptr = Some b /\ perm_in low top a b /\ sorted_in b low top.
Proof.
  induction n as [|n IH]; intros a low ptr Hl Ht Hn Hs; cbn [insert_down].
  { rewrite Z.gtb_ltb, (proj2 (Z.ltb_ge _ _)) by lia. exists a. split; [done|]. split; [apply perm_in_refl|].
    intros i j ??. apply Hs; lia. }
  destruct (Z.gtb_spec ptr low) as [Hp|Hp].
  2:{ exists a. split; [done|]. split; [apply perm_in_refl|]. intros i j ??. apply Hs; lia. }
  destruct (CMP_ok a (ptr - 1) ptr) as (x & y & Ex & Ey & ->); [lia|lia|]. simpl.
  destruct (Z.gtb_spec (cmp x y) 0) as [H|H].
  - destruct (SWAP_in low top a ptr (ptr - 1)) as (b & -> & [F S O _] & Hp'); [lia..|]. simpl.
    pose proof (perm_in_length _ _ _ _ Hp') as L.
    destruct (IH b low (ptr - 1)) as (c & -> & Hc & Hsc); [lia|lia|lia| |].
    + intros i j Hij Hj Hne. destruct (decide (j = ptr)) as [->|].
      * destruct (decide (i = ptr - 1)) as [->|].
        -- eapply le_at_intro; [by apply F|by apply S|by apply gt_le, Z.lt_gt].
        -- eapply (le_at_eq a _ _ _ i (ptr - 1)); [by apply O; lia|by rewrite Ex; apply S|apply Hs; lia].
      * destruct (decide (i = ptr)) as [->|].
        { eapply (le_at_eq a _ _ _ (ptr - 1) j); [by rewrite Ex; apply S|by apply O; lia|apply Hs; lia]. }
        destruct (decide (i = ptr - 1)) as [->|].
        { eapply (le_at_eq a _ _ _ ptr j); [by rewrite Ey; apply F|by apply O; lia|apply Hs; lia]. }
        eapply (le_at_eq a _ _ _ i j); [by apply O; lia|by apply O; lia|apply Hs; lia].
    + exists c. split; [done|]. split; [by eapply perm_in_trans|done].
  - exists a. split; [done|]. split; [apply perm_in_refl|]. intros i j Hij Hj.
    assert (le_at a (ptr - 1) ptr) by (by eapply le_at_intro).
    destruct (decide (j = ptr)) as [->|]; [|apply Hs; lia].
    destruct (decide (i = ptr - 1)) as [->|]; [done|]. eapply le_at_trans; [by rewrite Ex| |done]. apply Hs; lia.
Qed.

Lemma insert_sort_ok n : forall a low low_ptr high, 0 <= low < low_ptr -> high < Z.of_nat (length a) ->
  high - low_ptr + 1 <= Z.of_nat n -> sorted_in a low (low_ptr - 1) ->
  exists b, insert_sort cmp n a low low_ptr high = Some b /\ perm_in low high a b /\ sorted_in b low high.
Proof.
  induction n as [|n IH]; intros a low low_ptr high Hl Hh Hn Hs; cbn [insert_sort].
  { rewrite (proj2 (Z.leb_gt _ _)) by lia. exists a. split; [done|]. split; [apply perm_in_refl|].
    intros i j ??. apply Hs; lia. }
  destruct (Z.leb_spec low_ptr high).
  2:{ exists a. split; [done|]. split; [apply perm_in_refl|]. intros i j ??. apply Hs; lia. }
  destruct (insert_down_ok low_ptr (length a) a low low_ptr) as (b & -> & Hp & Hsb); [lia|lia|lia| |].
  { intros i j ???. apply Hs; lia. }
  simpl. pose proof (perm_in_length _ _ _ _ Hp) as L.
  destruct (IH b low (low_ptr + 1) high) as (c & -> & Hc & Hsc); [lia|lia|lia| |].
  { by replace (low_ptr + 1 - 1) with low_ptr by lia. }
  exists c. split; [done|]. split; [|done]. eapply perm_in_trans; [|done]. apply (perm_in_mono low low_ptr); [done|lia|lia].
Qed.

(** ** Partitions *)

Lemma scan_up_ok pivot a k z n : forall i, 0 <= i <= k -> elem a k = Some z -> le pivot z -> k - i <= Z.of_nat n ->
  exists i' x, scan_up cmp n a pivot i = Some i' /\ i <= i' <= k /\ elem a i' = Some x /\ le pivot x /\
    forall m y, i <= m < i' -> elem a m = Some y -> le y pivot.
Proof.
  induction n as [|n IH]; intros i Hi Ez Hz Hn; cbn [scan_up].
  - replace i with k by lia. rewrite Ez. simpl. rewrite (proj2 (Z.ltb_ge _ _)).
    + exists k, z. split_and!; [done|lia|lia|done|done|]. intros m y Hm. lia.
    + unfold le in Hz. pose proof (cmp_opp z pivot). lia.
  - destruct (elem_some a i) as [x Ex]; [apply elem_bound in Ez; lia|]. rewrite Ex. simpl.
    destruct (Z.ltb_spec (cmp x pivot) 0) as [H|H].
    + assert (i <> k). { intros ->. rewrite Ez in Ex. injection Ex as <-. unfold le in Hz. pose proof (cmp_opp z pivot). lia. }
      destruct (IH (i + 1)) as (i' & x' & -> & Hi' & Ex' & Hx' & Hm); [lia|done|done|lia|].
      exists i', x'. split_and!; [done|lia|lia|done|done|]. intros m y Hmi Ey.
      destruct (decide (m = i)) as [->|]; [|by apply (Hm m); [lia|]]. rewrite Ex in Ey. injection Ey as <-. by apply lt_le.
    + exists i, x. split_and!; [done|lia|lia|done|apply not_lt_le; lia|]. intros m y Hm. lia.
Qed.

Lemma scan_down_ok pivot a k z n : forall j, k <= j < Z.of_nat (length a) -> elem a k = Some z -> le z pivot ->
  j - k <= Z.of_nat n ->
  exists j' x, scan_down cmp n a pivot j = Some j' /\ k <= j' <= j /\ elem a j' = Some x /\ le x pivot /\
    forall m y, j' < m <= j -> elem a m = Some y -> le pivot y.
Proof.
  induction n as [|n IH]; intros j Hj Ez Hz Hn; cbn [scan_down].
  - replace j with k by lia. rewrite Ez. simpl. rewrite (proj2 (Z.ltb_ge _ _)).
    + exists k, z. split_and!; [done|lia|lia|done|done|]. intros m y Hm. lia.
    + unfold le in Hz. pose proof (cmp_opp pivot z). lia.
  - destruct (elem_some a j) as [x Ex]; [apply elem_bound in Ez; lia|]. rewrite Ex. simpl.
    destruct (Z.ltb_spec (cmp pivot x) 0) as [H|H].
    + assert (j <> k). { intros ->. rewrite Ez in Ex. injection Ex as <-. unfold le in Hz. pose proof (cmp_opp pivot z). lia. }
      destruct (IH (j - 1)) as (j' & x' & -> & Hj' & Ex' & Hx' & Hm); [lia|done|done|lia|].
      exists j', x'. split_and!; [done|lia|lia|done|done|]. intros m y Hmi Ey.
      destruct (decide (m = j)) as [->|]; [|by apply (Hm m); [lia|]]. rewrite Ex in Ey. injection Ey as <-. by apply lt_le.
    + exists j, x. split_and!; [done|lia|lia|done|apply not_lt_le; lia|]. intros m y Hm. lia.
Qed.

(** What is left of [i] and right of [j] is on its side of the pivot. *)
Record parted a pivot (low high i j : Z) : Prop := {
  part_left m x : low <= m < i -> elem a m = Some x -> le x pivot;
  part_right m x : j < m <= high -> elem a m = Some x -> le pivot x
}.

(** Elements at which the scans stop. *)
Record stops a pivot (low high i j : Z) (k1 k2 : Z) : Prop := {
  stop_up : exists x, i <= k1 <= high /\ elem a k1 = Some x /\ le pivot x;
  stop_down : exists x, low <= k2 <= j /\ elem a k2 = Some x /\ le x pivot
}.

Lemma part_swapped pivot low high a b i j x y :
  parted a pivot low high i j -> swapped i j a b -> low <= i < j -> j <= high ->
  elem a i = Some x -> le pivot x -> elem a j = Some y -> le y pivot ->
  parted b pivot low high (i + 1) (j - 1) /\ stops b pivot low high (i + 1) (j - 1) j i.
Proof.
  intros [Hl Hr] [F S O _] Hi Hj Ex Hx Ey Hy. split; split.
  - intros m z Hm. destruct (decide (m = i)) as [->|]; [rewrite (S y Ey); congruence|]. rewrite O by lia. apply Hl. lia.
  - intros m z Hm. destruct (decide (m = j)) as [->|]; [rewrite (F x Ex); congruence|]. rewrite O by lia. apply Hr. lia.
  - exists x. split; [lia|]. auto.
  - exists y. split; [lia|]. auto.
Qed.

Lemma part_loop_ok pivot low high n : forall a i j k1 k2,
  0 <= low <= i -> i <= j -> j <= high < Z.of_nat (length a) -> j - i < Z.of_nat n ->
  parted a pivot low high i j -> stops a pivot low high i j k1 k2 ->
  exists b i' j', part_loop cmp n a pivot i j = Some (b, i', j') /\ perm_in low high a b /\
    parted b pivot low high i' j' /\ j' < i' /\ i <= i' <= high + 1 /\ low - 1 <= j' <= j /\
    (k1 = k2 -> i < i' /\ j' < j).
Proof.
  induction n as [|n IH]; intros a i j k1 k2 Hl Hij Hh Hn Hpart [(z1 & Hk1 & Ez1 & Hz1) (z2 & Hk2 & Ez2 & Hz2)]; [lia|].
  cbn [part_loop].
  destruct (scan_up_ok pivot a k1 z1 (length a) i) as (i1 & x & -> & Hi1 & Ex & Hx & Hmi); [lia|done|done|lia|].
  destruct (scan_down_ok pivot a k2 z2 (length a) j) as (j1 & y & -> & Hj1 & Ey & Hy & Hmj); [lia|done|done|lia|].
  simpl.
  assert (parted a pivot low high i1 j1) as Hp1.
  { destruct Hpart as [L R]. split; intros m w Hm Ew.
    - destruct (decide (m < i)); [by apply (L m); [lia|]|by apply (Hmi m); [lia|]].
    - destruct (decide (j < m)); [by apply (R m); [lia|]|by apply (Hmj m); [lia|]]. }
  destruct (Z.ltb_spec i1 j1).
  - destruct (SWAP_in low high a i1 j1) as (b & -> & Hs & Hp); [lia..|]. simpl.
    pose proof (perm_in_length _ _ _ _ Hp) as L.
    destruct (part_swapped pivot low high a b i1 j1 x y) as [Hpb Hsb]; [done|done|lia|lia|done..|].
    destruct (Z.leb_spec (i1 + 1) (j1 - 1)).
    + destruct (IH b (i1 + 1) (j1 - 1) j1 i1) as (c & i' & j' & -> & Hc & Hpc & Hlt & Hi' & Hj' & _); [lia..|done|done|].
      exists c, i', j'. split; [done|]. split; [by eapply perm_in_trans|]. split; [done|]. lia.
    + exists b, (i1 + 1), (j1 - 1). split_and!; try done; lia.
  - destruct (Z.eqb_spec i1 j1) as [E|E].
    + exists a, (i1 + 1), (j1 - 1). split; [done|]. split; [apply perm_in_refl|]. split; [|lia].
      subst j1. rewrite Ex in Ey. injection Ey as <-. destruct Hp1 as [L R]. split; intros m w Hm Ew.
      * destruct (decide (m = i1)) as [->|]; [congruence|by apply (L m); [lia|]].
      * destruct (decide (m = i1)) as [->|]; [congruence|by apply (R m); [lia|]].
    + exists a, i1, j1. split; [done|]. split; [apply perm_in_refl|]. split; [done|]. lia.
Qed.

Lemma MEDIAN_in low high a i m k : 0 <= low -> high < Z.of_nat (length a) -> low <= i < m -> m < k <= high ->
  exists b, MEDIAN cmp a i m k = Some b /\ perm_in low high a b /\ length b = length a.
Proof.
  intros Hl Hh Hi Hk. destruct (MEDIAN_ok a i m k) as (b & -> & Hp & _); [lia..|]. exists b. split; [done|].
  split; [apply (perm_in_mono i k); [done|lia|lia]|by eapply perm_in_length].
Qed.

(** The scans start inside of the range, and both would stop at the pivot. *)
Lemma choose_pivot_ok a low high : 0 <= low -> 9 <= high - low -> high < Z.of_nat (length a) ->
  exists b mid i j pivot, choose_pivot cmp a low high (high - low + 1) = Some (b, mid, i, j) /\ elem b mid = Some pivot /\
    perm_in low high a b /\ parted b pivot low high i j /\ low <= i <= mid /\ mid <= j <= high.
Proof.
  intros Hl Hc Hh. unfold choose_pivot. rewrite Z.shiftr_div_pow2 by lia. change (2 ^ 1) with 2.
  remember (low + (high - low + 1) / 2) as mid eqn:Hmid. assert (low < mid < high) by (zdiv; lia).
  destruct (Z.gtb_spec (high - low + 1) 40).
  - remember ((high - low + 1) / 8) as step eqn:Hstep.
    assert (0 < step /\ low + 2 * step < mid /\ mid + 2 * step < high) by (zdiv; lia).
    destruct (MEDIAN_in low high a low (low + step) (low + step * 2)) as (b & -> & Hb & Lb); [lia..|]. simpl.
    destruct (MEDIAN_in low high b (mid - step) mid (mid + step)) as (c & -> & Hc' & Lc); [lia..|]. simpl.
    destruct (MEDIAN_in low high c (high - 2 * step) (high - step) high) as (d & -> & Hd & Ld); [lia..|]. simpl.
    destruct (MEDIAN_in low high d (low + step) mid (high - step)) as (e & -> & He & Le); [lia..|]. simpl.
    destruct (elem_some e mid) as [pivot Ep]; [lia|]. exists e, mid, low, high, pivot.
    split; [done|]. split; [done|]. split; [by apply (perm_in_trans _ _ _ d); [apply (perm_in_trans _ _ _ c); [apply (perm_in_trans _ _ _ b)|]|]|].
    split; [split; lia|lia].
  - destruct (MEDIAN_ok a low mid high) as (b & -> & Hb & H1 & H2); [lia..|]. simpl.
    pose proof (perm_in_length _ _ _ _ Hb). destruct (elem_some b mid) as [pivot Ep]; [lia|].
    exists b, mid, (low + 1), (high - 1), pivot. split; [done|]. split; [done|]. split; [done|].
    split; [|lia]. split; intros m x Hm Ex.
    + assert (m = low) as -> by lia. by apply H1.
    + assert (m = high) as -> by lia. by apply H2.
Qed.

Lemma partition_ok a low high : 0 <= low -> 9 <= high - low -> high < Z.of_nat (length a) ->
  exists b i j pivot, partition cmp a low high = Some (b, i, j) /\ perm_in low high a b /\
    parted b pivot low high i j /\ j < i /\ low < i <= high + 1 /\ low - 1 <= j < high.
Proof.
  intros Hl Hc Hh. unfold partition.
  destruct (choose_pivot_ok a low high) as (b & mid & i & j & pivot & -> & Ep & Hb & Hp & Hi & Hj); [lia..|]. simpl.
  rewrite Ep. simpl. pose proof (perm_in_length _ _ _ _ Hb).
  destruct (part_loop_ok pivot low high (length b) b i j mid mid) as (c & i' & j' & -> & Hc' & Hpc & H1 & H2 & H3 & H4);
    [lia..|done| |].
  { split; exists pivot; (split; [lia|]); (split; [done|apply le_refl]). }
  exists c, i', j', pivot. split; [done|]. split; [by eapply perm_in_trans|]. split; [done|].
  specialize (H4 eq_refl). lia.
Qed.

(** ** Ranges *)

Definition apart (r s : Z * Z) : Prop := r.2 < s.1 \/ s.2 < r.1.
Definition inside (r : Z * Z) (i j : Z) : Prop := r.1 <= i /\ j <= r.2.
Definition covered (ranges : list (Z * Z)) (i j : Z) : Prop := Exists (fun r => inside r i j) ranges.

(** Two elements are in order unless they are in one of the ranges. *)
Record pending a (ranges : list (Z * Z)) : Prop := {
  pend_ranges : Forall (fun r => 0 <= r.1 < r.2 /\ r.2 < Z.of_nat (length a)) ranges;
  pend_apart : ForallOrdPairs apart ranges;
  pend_order i j : i < j -> le_at a i j \/ covered ranges i j
}.

(** Where the element at [i] was before a permutation of the range. *)
Lemma perm_in_from low high a b i : perm_in low high a b ->
  exists i', elem b i = elem a i' /\ (i = i' /\ ~ low <= i <= high \/ low <= i <= high /\ low <= i' <= high).
Proof.
  intros [_ O I]. destruct (decide (low <= i <= high)) as [H|H].
  - destruct (I i H) as (i' & Hi' & E). exists i'. split; [done|]. by right.
  - exists i. split; [apply O; lia|]. by left.
Qed.

Lemma pending_order a b low high stack new : pending a ((low, high) :: stack) -> perm_in low high a b ->
  (forall i j, low <= i < j -> j <= high -> le_at b i j \/ covered new i j) ->
  forall i j, i < j -> le_at b i j \/ covered (new ++ stack) i j.
Proof.
  intros [_ Ha Ho] Hp Hn i j Hij. unfold covered in *. rewrite Exists_app.
  destruct (decide (low <= i <= high /\ low <= j <= high)) as [Hin|Hout].
  { destruct (Hn i j) as [?|?]; [lia|lia|by left|by right; left]. }
  destruct (perm_in_from low high a b i Hp) as (i' & Ei & Hi), (perm_in_from low high a b j Hp) as (j' & Ej & Hj).
  destruct (Ho i' j') as [H|H]; [lia|left; by eapply le_at_eq|].
  apply Exists_cons in H as [H|H]; [unfold inside in H; simpl in H; lia|]. right. right.
  inversion Ha as [|?? Ha' _]; subst. apply Exists_exists in H as (r & Hr & H). apply Exists_exists. exists r. split; [done|].
  rewrite Forall_forall in Ha'. specialize (Ha' r Hr). unfold apart, inside in *. simpl in Ha'. lia.
Qed.

Lemma pending_sorted a b low high stack new : pending a ((low, high) :: stack) -> perm_in low high a b ->
  Forall (fun r => low <= r.1 < r.2 /\ r.2 <= high) new -> ForallOrdPairs apart new ->
  (forall i j, low <= i < j -> j <= high -> le_at b i j \/ covered new i j) -> pending b (new ++ stack).
Proof.
  intros Hpend Hp Hr Ha Hn. pose proof (pending_order _ _ _ _ _ _ Hpend Hp Hn) as Ho.
  destruct Hpend as [[Hb Hrs]%Forall_cons Has _]. simpl in Hb. inversion Has as [|?? Hx Hxs]; subst.
  pose proof (perm_in_length _ _ _ _ Hp) as L. split; [..|done].
  - rewrite L. apply Forall_app. split; [|done]. eapply Forall_impl; [exact Hr|]. simpl. lia.
  - clear Ho Hn. induction Ha as [|r l Hl _ IH]; [done|]. apply Forall_cons in Hr as [Hr0 Hr]. constructor; [|by apply IH].
    apply Forall_app. split; [done|]. eapply Forall_impl; [exact Hx|]. unfold apart. simpl. lia.
Qed.

(** The elements of a range, with their iterations. *)
Definition weight (ranges : list (Z * Z)) : Z := foldr (fun r w => 2 * (r.2 - r.1 + 1) - 1 + w) 0 ranges.

(** A range has at most [N] elements divided by two for every range below it. *)
Fixpoint stack_ok (N : Z) (ranges : list (Z * Z)) : Prop :=
  match ranges with
  | [] => True
  | r :: st => (r.2 - r.1 + 1) * 2 ^ Z.of_nat (length st) <= N /\ stack_ok N st
  end.

Lemma stack_depth N r st : stack_ok N (r :: st) -> N < 2 ^ 31 -> 1 <= r.2 - r.1 -> Z.of_nat (length st) < 31.
Proof.
  intros [H _] HN Hr. apply Z.nle_gt. intros Hd.
  assert (2 ^ 31 <= 2 ^ Z.of_nat (length st)) by (apply Z.pow_le_mono_r; lia). nia.
Qed.

Lemma PUSH_ok N next pushed stack low high : N < 2 ^ 31 -> stack_ok N ((low, high) :: stack) -> 9 <= high - low ->
  pushed.2 - pushed.1 <= high - low -> 2 * (next.2 - next.1 + 1) <= high - low + 1 ->
  PUSH next pushed stack = Some (next :: pushed :: stack) /\ stack_ok N (next :: pushed :: stack).
Proof.
  intros HN Hs Hc Hp Hn. pose proof (stack_depth _ _ _ Hs HN) as Hd. simpl in Hd. destruct Hs as [Hs Hst]. simpl in Hs.
  unfold PUSH, STACK_SIZE. rewrite (proj2 (Z.ltb_lt _ _)) by lia. split; [done|]. cbn [stack_ok length].
  rewrite Nat2Z.inj_succ, Z.pow_succ_r by lia. pose proof (Z.pow_pos_nonneg 2 (Z.of_nat (length stack))).
  split; [nia|]. split; [nia|done].
Qed.

(** What is pushed: the parts of at least two elements. *)
Definition parts (low high i j : Z) (new : list (Z * Z)) : Prop :=
  Forall (fun r => low <= r.1 < r.2 /\ r.2 <= high) new /\ ForallOrdPairs apart new /\
  (forall k l, k < l -> low <= k /\ l <= j \/ i <= k /\ l <= high -> covered new k l) /\
  weight new < 2 * (high - low + 1) - 1.

Lemma next_range_ok size N low high i j stack :
  0 < size -> size * N < 2 ^ 31 -> N < 2 ^ 31 -> 0 <= low -> 9 <= high - low -> high < N -> j < i -> low < i <= high + 1 -> low - 1 <= j < high ->
  stack_ok N ((low, high) :: stack) ->
  exists new, next_range size low high i j stack = Some (new ++ stack) /\ parts low high i j new /\
    stack_ok N (new ++ stack).
Proof.
  intros Hs HsN HN Hl Hc Hh Hji Hi Hj Hst. unfold next_range.
  rewrite !(s32_small (size * _)) by nia.
  assert (forall x, (size * x <=? 0) = (x <=? 0)) as Hsgn by (intros x; apply eq_true_iff_eq; rewrite !Z.leb_le; nia).
  assert (forall x y, (size * x >? size * y) = (x >? y)) as Hcmp.
  { intros x y. apply eq_true_iff_eq. rewrite !Z.gtb_lt. nia. }
  rewrite !Hsgn, Hcmp.
  assert (forall r, low <= r.1 < r.2 -> r.2 <= high -> stack_ok N (r :: stack)) as Hone.
  { intros r ??. destruct Hst as [H1 H2]. split; [|done]. simpl in H1.
    pose proof (Z.pow_pos_nonneg 2 (Z.of_nat (length stack))). nia. }
  destruct (Z.leb_spec (j - low) 0), (Z.leb_spec (high - i) 0).
  - exists []. split; [done|]. split; [|by apply Hst]. split_and!; [done|constructor|lia|simpl; lia].
  - exists [(i, high)]. split; [done|]. split; [|apply Hone; simpl; lia].
    split_and!; [repeat constructor; simpl; lia|repeat constructor| |simpl; lia].
    intros k l ??. left. unfold inside. simpl. lia.
  - exists [(low, j)]. split; [done|]. split; [|apply Hone; simpl; lia].
    split_and!; [repeat constructor; simpl; lia|repeat constructor| |simpl; lia].
    intros k l ??. left. unfold inside. simpl. lia.
  - destruct (Z.gtb_spec (j - low) (high - i)).
    + destruct (PUSH_ok N (i, high) (low, j) stack low high) as [-> H']; [done|done|lia|simpl; lia|simpl; lia|].
      exists [(i, high); (low, j)]. split; [done|]. split; [|done].
      split_and!; [repeat constructor; simpl; lia|repeat constructor; unfold apart; simpl; lia| |simpl; lia].
      intros k l ? [?|?]; [right; left|left]; unfold inside; simpl; lia.
    + destruct (PUSH_ok N (low, j) (i, high) stack low high) as [-> H']; [done|done|lia|simpl; lia|simpl; lia|].
      exists [(low, j); (i, high)]. split; [done|]. split; [|done].
      split_and!; [repeat constructor; simpl; lia|repeat constructor; unfold apart; simpl; lia| |simpl; lia].
      intros k l ? [?|?]; [left|right; left]; unfold inside; simpl; lia.
Qed.

(** ** The whole sort *)

Lemma weight_app l m : weight (l ++ m) = weight l + weight m.
Proof. induction l as [|r l IH]; simpl; lia. Qed.

Lemma weight_pending a ranges : Forall (fun r => 0 <= r.1 < r.2 /\ r.2 < Z.of_nat (length a)) ranges -> 0 <= weight ranges.
Proof. induction 1; simpl; lia. Qed.

Lemma sort_ranges_ok size n : forall a ranges, 0 < size -> size * Z.of_nat (length a) < 2 ^ 31 ->
  pending a ranges -> stack_ok (Z.of_nat (length a)) ranges -> weight ranges <= Z.of_nat n ->
  exists b, sort_ranges cmp size n a ranges = Some b /\ b ≡ₚ a /\ pending b [].
Proof.
  induction n as [|n IH]; intros a ranges Hsize HsN Hp Hst Hw; (destruct ranges as [|[low high] stack]; [by exists a|]);
    pose proof (pend_ranges _ _ Hp) as [Hr Hrs]%Forall_cons; pose proof (weight_pending _ _ Hrs); simpl in Hr, Hw; [lia|].
  cbn [sort_ranges]. unfold THRESHOLD_FOR_INSERT_SORT. destruct (Z.ltb_spec (high - low + 1) 10).
  - destruct (insert_sort_ok (length a) a low (low + 1) high) as (b & -> & Hb & Hsort); [lia|lia|lia|intros i j; lia|].
    simpl. pose proof (perm_in_length _ _ _ _ Hb) as L.
    destruct (IH b stack) as (c & E & Hc & Hpc); [done|by rewrite L| |rewrite L; apply Hst|lia|].
    { apply (pending_sorted a b low high stack []); [done|done|done|constructor|]. intros i j ??. left. by apply Hsort. }
    exists c. split; [done|]. split; [|done]. by rewrite Hc, (in_perm _ _ _ _ Hb).
  - destruct (partition_ok a low high) as (b & i & j & pivot & -> & Hb & [HL HR] & Hji & Hi & Hj); [lia..|]. simpl.
    pose proof (perm_in_length _ _ _ _ Hb) as L.
    destruct (next_range_ok size (Z.of_nat (length a)) low high i j stack) as (new & -> & (N1 & N2 & N3 & N4) & N5); [(done || nia)..|].
    simpl. destruct (IH b (new ++ stack)) as (c & E & Hc & Hpc); [done|by rewrite L| |by rewrite L|rewrite weight_app; lia|].
    { apply (pending_sorted a b low high stack new); [done..|]. intros k l Hk Hl.
      destruct (decide (l <= j \/ i <= k)); [right; apply N3; lia|]. left. intros x y Ex Ey.
      apply le_trans with pivot; [apply (HL k); [lia|done]|apply (HR l); [lia|done]]. }
    exists c. split; [done|]. split; [|done]. by rewrite Hc, (in_perm _ _ _ _ Hb).
Qed.

Lemma lookup_sorted a : (forall i j x y, (i < j)%nat -> a !! i = Some x -> a !! j = Some y -> le x y) -> StronglySorted le a.
Proof.
  induction a as [|x a IH]; intros H; constructor.
  - apply IH. intros i j y z Hij Ey Ez. apply (H (S i) (S j)); [lia|done|done].
  - apply Forall_lookup. intros i y Ey. apply (H 0%nat (S i)); [lia|done|done].
Qed.

Lemma my_qsort_ok size a : 0 < size -> size * Z.of_nat (length a) < 2 ^ 31 ->
  exists b, my_qsort cmp size a = Some b /\ b ≡ₚ a /\ StronglySorted le b.
Proof.
  intros Hs HN. unfold my_qsort. destruct (Z.leb_spec (Z.of_nat (length a)) 1).
  { exists a. split; [done|]. split; [done|]. destruct a as [|x [|y a]]; [constructor|by repeat constructor|simpl in *; lia]. }
  destruct (sort_ranges_ok size (2 * length a) a [(0, Z.of_nat (length a) - 1)]) as (b & -> & Hb & [_ _ Ho]); [done|done| | | |].
  - split; [repeat constructor; simpl; lia|repeat constructor|]. intros i j Hij.
    destruct (decide (0 <= i /\ j < Z.of_nat (length a))) as [?|Hn]; [right; left; unfold inside; simpl; lia|].
    left. intros x y Ex%elem_bound Ey%elem_bound. lia.
  - simpl. lia.
  - simpl. lia.
  - exists b. split; [done|]. split; [done|]. apply lookup_sorted. intros i j x y Hij Ex Ey.
    destruct (Ho (Z.of_nat i) (Z.of_nat j)) as [H'|H']; [lia|apply H'; by rewrite elem_nat|].
    by apply Exists_nil in H'.
Qed.
End sorting.

(** ** The theorems *)

(** C13. my_qsort of an array of less than 2^31 bytes, with a comparison that is a
    total preorder, ends without leaving the array or its stack of 64 ranges, and
    the result is a permutation of the array in increasing order. *)
Theorem my_qsort_correct {A} (cmp : A -> A -> Z) size a : SortOrder cmp ->
  0 < size -> size * Z.of_nat (length a) < 2 ^ 31 ->
  exists b, my_qsort cmp size a = Some b /\ b ≡ₚ a /\ StronglySorted (fun x y => cmp x y <= 0) b.
Proof. intros. by apply my_qsort_ok. Qed.

(** The sizes of the parts are converted to [int]: an array of 2^30 + 1
    pointers is taken as sorted when it was partitioned in the middle, since both
    parts have 2^32 - 8 bytes between their ends. *)
Theorem my_qsort_forgets_large_parts :
  next_range 8 0 (2 ^ 30) (2 ^ 29 + 1) (2 ^ 29 - 1) [] = Some [].
Proof. reflexivity. Qed.

(** ** Witnesses *)

#[export] Instance sub_order : SortOrder Z.sub.
Proof. split; intros; lia. Qed.

Definition q_in : list Z := [5; 3; 9; 1; 12; 7; 3; 8; 2; 11; 4; 6].

Lemma my_qsort_correct_witness : exists b, my_qsort Z.sub 8 q_in = Some b /\ b ≡ₚ q_in.
Proof.
  destruct (my_qsort_correct Z.sub 8 q_in sub_order ltac:(lia) ltac:(vm_compute; reflexivity)) as (b & H1 & H2 & _).
  by exists b.
Defined.
