(* ===== verification/StrSort.v ===== *)
(** * mysys/ptr_cmp.c, mf_radix.c and mf_sort.c

    The sort of an array of pointers to strings of one length, which filesort.cc
    calls: my_string_ptr_sort takes a radix sort for short strings if it gets a
    buffer for it, and my_qsort2 otherwise, with a comparison function for the
    length from get_ptr_compare.

    [bytes] gives the string at a pointer.  A read behind the end of a string or
    outside of an array gives [None].  The result of both ways is proved to be
    sorted by the strings. *)

From stdpp Require Import prelude list list_numbers sorting.
From Stdlib Require Import ZArith Lia ZifyNat.
From S2P Require Import Prelude Qsort.

Open Scope Z_scope.

(** ** ptr_cmp.c *)

Section compare.
Context (first last : list Z).

(** [if (first[N] != last[N]) return (int) first[N] - (int) last[N]], and what
    follows. *)
Definition cmp_byte (N : nat) (k : option Z) : option Z :=
  x ← first !! N; y ← last !! N; if negb (x =? y) then Some (x - y) else k.

(** [while (--length) ...] and the return behind it; [pos] is how far first and
    last were advanced, [n] the fuel. *)
Fixpoint compare_bytes (n : nat) (pos : nat) (length : Z) : option Z :=
  match n with
  | O => None
  | S n =>
    let length := length - 1 in
    if length =? 0 then x ← first !! pos; y ← last !! pos; Some (x - y)
    else cmp_byte pos (compare_bytes n (S pos) length)
  end.

Definition ptr_compare (compare_length : Z) : option Z :=
  compare_bytes (length first) 0 (s32 compare_length).

(** [loop: ... if ((length-=4)) ...]. *)
Fixpoint compare_fours (n : nat) (pos : nat) (length : Z) : option Z :=
  match n with
  | O => None
  | S n =>
    cmp_byte pos (cmp_byte (pos + 1) (cmp_byte (pos + 2) (cmp_byte (pos + 3)
      (let length := length - 4 in if negb (length =? 0) then compare_fours n (pos + 4) length else Some 0))))
  end.

Definition ptr_compare_0 (compare_length : Z) : option Z :=
  compare_fours (length first) 0 (s32 compare_length).
Definition ptr_compare_1 (compare_length : Z) : option Z :=
  cmp_byte 0 (compare_fours (length first) 1 (s32 (compare_length - 1))).
Definition ptr_compare_2 (compare_length : Z) : option Z :=
  cmp_byte 0 (cmp_byte 1 (compare_fours (length first) 2 (s32 (compare_length - 2)))).
Definition ptr_compare_3 (compare_length : Z) : option Z :=
  cmp_byte 0 (cmp_byte 1 (cmp_byte 2 (compare_fours (length first) 3 (s32 (compare_length - 3))))).

(** The comparison function for strings of [size] bytes. *)
Definition get_ptr_compare (size : Z) : Z -> option Z :=
  if size <? 4 then ptr_compare
  else
    match size .& 3 with
    | 0 => ptr_compare_0
    | 1 => ptr_compare_1
    | 2 => ptr_compare_2
    | 3 => ptr_compare_3
    | _ => fun _ => None
    end.
End compare.

(** ** mf_radix.c *)

Section radix.
Context {P : Type} (bytes : P -> list Z).

(** [for (ptr= base ; ptr < end ; ptr++) count[ptr[0][pass]]++]. *)
Fixpoint count_bytes (pass : nat) (base : list P) (count : list Z) : option (list Z) :=
  match base with
  | [] => Some count
  | p :: base =>
    b ← bytes p !! pass;
    c ← count !! Z.to_nat b;
    count_bytes pass base (<[Z.to_nat b := u32 (c + 1)]> count)
  end.

(** The loop that adds up the counts, from [i] on: [None] inside is the jump to
    the next pass, when all elements have the same byte. *)
Fixpoint sum_counts (n : nat) (number_of_elements : Z) (i : nat) (count : list Z) : option (option (list Z)) :=
  match n with
  | O => Some (Some count)
  | S n =>
    c ← count !! i;
    if c =? number_of_elements then Some None
    else d ← count !! (i - 1)%nat; sum_counts n number_of_elements (S i) (<[i := u32 (c + d)]> count)
  end.

(** [for (ptr= end ; ptr-- != base ;) buffer[--count[ptr[0][pass]]]= *ptr], over
    the elements in reverse order. *)
Fixpoint scatter (pass : nat) (ptrs : list P) (count : list Z) (buffer : list P) : option (list P) :=
  match ptrs with
  | [] => Some buffer
  | p :: ptrs =>
    b ← bytes p !! pass;
    c ← count !! Z.to_nat b;
    let c := u32 (c - 1) in
    _ ← buffer !! Z.to_nat c;
    scatter pass ptrs (<[Z.to_nat b := c]> count) (<[Z.to_nat c := p]> buffer)
  end.

(** A pass: the array and the buffer. *)
Definition radix_pass (number_of_elements : Z) (pass : nat) (base buffer : list P) : option (list P * list P) :=
  count ← count_bytes pass base (replicate 256 0);
  c0 ← head count;
  if c0 =? number_of_elements then Some (base, buffer)
  else
    sums ← sum_counts 255 number_of_elements 1 count;
    match sums with
    | None => Some (base, buffer)
    | Some count =>
      buffer ← scatter pass (reverse base) count buffer;
      Some (take (length base) buffer, buffer)
    end.

(** [for (pass=(int) size_of_element-1 ; pass >= 0 ; pass--)]. *)
Fixpoint radix_passes (number_of_elements : Z) (passes : nat) (base buffer : list P) : option (list P) :=
  match passes with
  | O => Some base
  | S pass =>
    '(base, buffer) ← radix_pass number_of_elements pass base buffer;
    radix_passes number_of_elements pass base buffer
  end.

Definition radixsort_for_str_ptr (base : list P) (number_of_elements size_of_element : Z) (buffer : list P) :
    option (list P) :=
  radix_passes number_of_elements (Z.to_nat (s32 size_of_element)) base buffer.

(** ** mf_sort.c *)

(** [buffer] is the memory that my_malloc returned, if it did. *)
Definition my_string_ptr_sort (base : list P) (items size : Z) (buffer : option (list P)) : option (list P) :=
  let qsort :=
    if test size && test items then
      my_qsort (fun p q => default 0 (get_ptr_compare (bytes p) (bytes q) size size)) 8 base
    else Some base in
  if (size <=? 20) && (1000 <=? items) && (items <? 100000) then
    match buffer with
    | Some ptr => radixsort_for_str_ptr base items size ptr
    | None => qsort
    end
  else qsort.
End radix.

(** ** Comparison *)

(** The order of strings of unsigned bytes: the first difference. *)
Fixpoint bytes_cmp (s t : list Z) : Z :=
  match s, t with
  | [], [] => 0
  | [], _ => -1
  | _, [] => 1
  | x :: s, y :: t => if x =? y then bytes_cmp s t else x - y
  end.

#[export] Instance bytes_cmp_order : SortOrder bytes_cmp.
Proof.
  split.
  - intros s. induction s as [|x s IH]; intros [|y t]; simpl; [lia..|].
    destruct (Z.eqb_spec x y), (Z.eqb_spec y x); try lia. apply IH.
  - intros s. induction s as [|x s IH]; intros [|y t] [|z u]; simpl; try lia.
    destruct (Z.eqb_spec x y), (Z.eqb_spec y z), (Z.eqb_spec x z); try lia. apply IH.
Qed.

Section compare_proofs.
Context (first last : list Z) (Hlen : length last = length first).

Abbreviation rest N := (bytes_cmp (drop N first) (drop N last)).

Lemma cmp_byte_ok N k : (N < length first)%nat -> k = Some (rest (S N)) -> cmp_byte first last N k = Some (rest N).
Proof.
  intros HN ->. unfold cmp_byte.
  destruct (lookup_lt_is_Some_2 first N) as [x Ex]; [done|]. destruct (lookup_lt_is_Some_2 last N) as [y Ey]; [lia|].
  rewrite Ex, Ey, (drop_S _ _ _ Ex), (drop_S _ _ _ Ey). simpl. by destruct (Z.eqb_spec x y).
Qed.

Lemma rest_end N : (length first <= N)%nat -> rest N = 0.
Proof. intros H. by rewrite !drop_ge by lia. Qed.

Lemma compare_bytes_ok n : forall pos len, 1 <= len -> Z.of_nat pos + len = Z.of_nat (length first) -> len <= Z.of_nat n ->
  compare_bytes first last n pos len = Some (rest pos).
Proof.
  induction n as [|n IH]; intros pos len H1 H2 H3; [lia|]. cbn [compare_bytes]. destruct (Z.eqb_spec (len - 1) 0).
  - rewrite <- (cmp_byte_ok pos (Some 0)); [|lia|by rewrite rest_end by lia]. unfold cmp_byte.
    destruct (first !! pos) as [x|]; [|done]. destruct (last !! pos) as [y|]; [|done]. simpl.
    destruct (Z.eqb_spec x y); [subst; simpl; f_equal; lia|done].
  - apply cmp_byte_ok; [lia|]. apply IH; lia.
Qed.

Lemma compare_fours_ok n : forall pos k, (1 <= k)%nat -> (pos + 4 * k = length first)%nat -> (k <= n)%nat ->
  compare_fours first last n pos (4 * Z.of_nat k) = Some (rest pos).
Proof.
  induction n as [|n IH]; intros pos k H1 H2 H3; [lia|]. cbn [compare_fours].
  apply cmp_byte_ok; [lia|]. replace (pos + 1)%nat with (S pos) by lia.
  apply cmp_byte_ok; [lia|]. replace (pos + 2)%nat with (S (S pos)) by lia.
  apply cmp_byte_ok; [lia|]. replace (pos + 3)%nat with (S (S (S pos))) by lia.
  apply cmp_byte_ok; [lia|]. replace (pos + 4)%nat with (S (S (S (S pos)))) by lia.
  destruct (Z.eqb_spec (4 * Z.of_nat k - 4) 0); simpl; [by rewrite rest_end by lia|].
  replace (4 * Z.of_nat k - 4) with (4 * Z.of_nat (k - 1)) by lia. apply IH; lia.
Qed.

Lemma get_ptr_compare_ok size : size = Z.of_nat (length first) -> 0 < size < 2 ^ 31 ->
  get_ptr_compare first last size size = Some (bytes_cmp first last).
Proof.
  intros -> H. change (bytes_cmp first last) with (rest 0). unfold get_ptr_compare.
  destruct (Z.ltb_spec (Z.of_nat (length first)) 4).
  { unfold ptr_compare. rewrite s32_small by lia. apply compare_bytes_ok; lia. }
  change 3 with (Z.ones 2). rewrite Z.land_ones by lia. change (2 ^ 2) with 4.
  assert (exists k, (1 <= k)%nat /\ Z.of_nat (length first) = 4 * Z.of_nat k + Z.of_nat (length first) mod 4) as (k & Hk & Hm).
  { exists (Z.to_nat (Z.of_nat (length first) / 4)). zdiv; lia. }
  pose proof (Z.mod_pos_bound (Z.of_nat (length first)) 4 eq_refl).
  destruct (Z.of_nat (length first) mod 4) as [|[[]|[]|]|] eqn:E; try lia.
  - unfold ptr_compare_0. rewrite s32_small by lia.
    replace (Z.of_nat (length first)) with (4 * Z.of_nat k) by lia. apply compare_fours_ok; lia.
  - unfold ptr_compare_3. rewrite s32_small by lia. do 3 (apply cmp_byte_ok; [lia|]).
    replace (_ - 3) with (4 * Z.of_nat k) by lia. apply compare_fours_ok; lia.
  - unfold ptr_compare_2. rewrite s32_small by lia. do 2 (apply cmp_byte_ok; [lia|]).
    replace (_ - 2) with (4 * Z.of_nat k) by lia. apply compare_fours_ok; lia.
  - unfold ptr_compare_1. rewrite s32_small by lia. apply cmp_byte_ok; [lia|].
    replace (_ - 1) with (4 * Z.of_nat k) by lia. apply compare_fours_ok; lia.
Qed.
End compare_proofs.

(** ** Buckets *)

Section buckets.
Context {P : Type} (key : P -> nat).
Implicit Types (l : list P) (v m : nat).

(** The elements with a key, those with a smaller key, and all in the order of
    their keys. *)
Definition bucket v l : list P := filter (fun p => key p = v) l.
Definition below v l : nat := length (filter (fun p => (key p < v)%nat) l).
Definition buckets m l : list P := concat (map (fun v => bucket v l) (seq 0 m)).

Lemma buckets_S m l : buckets (S m) l = buckets m l ++ bucket m l.
Proof. unfold buckets. rewrite seq_S, map_app, concat_app. simpl. by rewrite app_nil_r. Qed.

Lemma filter_below_S m l : filter (fun p => (key p < S m)%nat) l ≡ₚ filter (fun p => (key p < m)%nat) l ++ bucket m l.
Proof.
  induction l as [|p l IH]; [done|]. unfold bucket in *. rewrite !filter_cons.
  repeat case_decide; try lia; [by rewrite IH| |done]. by rewrite IH, Permutation_middle.
Qed.

Lemma below_S m l : below (S m) l = (below m l + length (bucket m l))%nat.
Proof. unfold below. by rewrite (filter_below_S m l), length_app. Qed.

Lemma buckets_perm m l : buckets m l ≡ₚ filter (fun p => (key p < m)%nat) l.
Proof.
  induction m as [|m IH].
  - unfold buckets. simpl. induction l as [|p l IHl]; [done|]. rewrite filter_cons. by case_decide; [lia|].
  - by rewrite buckets_S, IH, filter_below_S.
Qed.

Lemma buckets_length m l : length (buckets m l) = below m l.
Proof. by rewrite buckets_perm. Qed.

Lemma filter_below_all m l : Forall (fun p => (key p < m)%nat) l -> filter (fun p => (key p < m)%nat) l = l.
Proof. induction 1 as [|p l Hp _ IH]; [done|]. rewrite filter_cons, IH. by case_decide. Qed.

Lemma below_all m l : Forall (fun p => (key p < m)%nat) l -> below m l = length l.
Proof. intros H. unfold below. by rewrite filter_below_all. Qed.

Lemma below_mono v m l : (v <= m)%nat -> (below v l <= below m l)%nat.
Proof. induction 1 as [|m _ IH]; [done|]. rewrite below_S. lia. Qed.

Lemma below_le v l : (below v l <= length l)%nat.
Proof. unfold below. apply length_filter. Qed.

Lemma bucket_app v l l' : bucket v (l ++ l') = bucket v l ++ bucket v l'.
Proof. apply filter_app. Qed.

Lemma bucket_cons v p l : bucket v (p :: l) = if decide (key p = v) then p :: bucket v l else bucket v l.
Proof. unfold bucket. rewrite filter_cons. by case_decide. Qed.

(** Elements that all have the same key stay where they are. *)
Lemma buckets_same m v l : Forall (fun p => key p = v) l -> (v < m)%nat -> buckets m l = l.
Proof.
  intros H. assert (forall u, bucket u l = if decide (u = v) then l else []) as Hb.
  { intros u. unfold bucket. induction H as [|p l Hp _ IH]; [by case_decide|]. rewrite filter_cons, IH.
    repeat case_decide; (done || congruence). }
  assert (forall m, (m <= v)%nat -> buckets m l = []) as Hl.
  { induction m0 as [|m0 IH]; intros Hm; [done|]. rewrite buckets_S, IH, Hb by lia. case_decide; [lia|done]. }
  induction m as [|m IH]; intros Hm; [lia|]. rewrite buckets_S, Hb. case_decide as Ev.
  - rewrite Hl by lia. done.
  - rewrite IH by lia. apply app_nil_r.
Qed.

Lemma bucket_full v l : length (bucket v l) = length l -> Forall (fun p => key p = v) l.
Proof.
  unfold bucket. induction l as [|p l IH]; [constructor|]. rewrite filter_cons.
  pose proof (length_filter (fun p => key p = v) l). case_decide; simpl; [|lia]. intros E. constructor; [done|]. apply IH. lia.
Qed.

(** The sort by the keys keeps the order of elements with the same key. *)
Lemma buckets_sorted (R : P -> P -> Prop) m l : StronglySorted R l ->
  StronglySorted (fun p q => (key p < key q)%nat \/ key p = key q /\ R p q) (buckets m l).
Proof.
  intros H. induction m as [|m IH]; [constructor|]. rewrite buckets_S.
  assert (StronglySorted (fun p q => (key p < key q)%nat \/ key p = key q /\ R p q) (bucket m l)) as Hm.
  { unfold bucket. clear IH. induction H as [|p l _ IH Hp]; [constructor|]. rewrite filter_cons. case_decide; [|done].
    constructor; [done|]. apply Forall_forall. intros q [Hq Hin]%list_elem_of_filter. right. split; [congruence|].
    rewrite Forall_forall in Hp. by apply Hp. }
  assert (forall p, p ∈ buckets m l -> (key p < m)%nat) as Hlt.
  { intros p Hp. rewrite buckets_perm in Hp. by apply list_elem_of_filter in Hp as [? _]. }
  revert Hlt IH. generalize (buckets m l) as b. induction b as [|p b IHb]; intros Hlt Hb; [done|].
  inversion Hb as [|?? Hb' Hp]; subst. simpl. constructor.
  - apply IHb; [|done]. intros q Hq. apply Hlt. by right.
  - apply Forall_app. split; [done|]. apply Forall_forall. intros q [Hq _]%list_elem_of_filter. left.
    rewrite Hq. apply Hlt. left.
Qed.

(** Positions of different buckets are different. *)
Lemma bucket_apart u v l i j : u <> v -> (i < length (bucket u l))%nat -> (j < length (bucket v l))%nat ->
  (below u l + i <> below v l + j)%nat.
Proof.
  intros Hne Hi Hj. destruct (decide (u < v)%nat).
  - pose proof (below_mono (S u) v l ltac:(lia)). rewrite below_S in *. lia.
  - pose proof (below_mono (S v) u l ltac:(lia)). rewrite below_S in *. lia.
Qed.

(** An array that holds every bucket at its place. *)
Lemma buckets_at m l b : (below m l <= length b)%nat ->
  (forall v i, (v < m)%nat -> (i < length (bucket v l))%nat -> b !! (below v l + i)%nat = bucket v l !! i) ->
  take (below m l) b = buckets m l.
Proof.
  induction m as [|m IH]; intros Hl Hb.
  { pose proof (buckets_length 0 l) as E. simpl in E. by rewrite <- E, take_0. }
  rewrite below_S in *. rewrite buckets_S, <- IH; [|lia|intros v i ?; apply Hb; lia].
  rewrite <- take_take_drop. f_equal. apply list_eq. intros i.
  destruct (decide (i < length (bucket m l))%nat).
  - rewrite lookup_take_lt, lookup_drop by done. apply Hb; lia.
  - rewrite lookup_ge_None_2 by (rewrite length_take; lia). symmetry. apply lookup_ge_None_2. lia.
Qed.
End buckets.

(** ** A pass *)

#[local] Arguments buckets : simpl never.
#[local] Arguments sum_counts : simpl never.

Section passes.
Context {P : Type} (bytes : P -> list Z).
Implicit Types (base pre suf : list P) (count : list Z).

(** The byte of a pass. *)
Definition byte (pass : nat) (p : P) : nat := Z.to_nat (default 0 (bytes p !! pass)).
Definition has_byte (pass : nat) (p : P) : Prop := exists b, bytes p !! pass = Some b /\ is_byte b.

Lemma has_byte_lookup pass p : has_byte pass p ->
  exists b, bytes p !! pass = Some b /\ Z.to_nat b = byte pass p /\ (byte pass p < 256)%nat.
Proof. intros (b & E & Hb). exists b. unfold byte. rewrite E. unfold is_byte in Hb. simpl. split; [done|]. lia. Qed.

Lemma has_byte_lt pass base : Forall (has_byte pass) base -> Forall (fun p => (byte pass p < 256)%nat) base.
Proof. intros H. eapply Forall_impl; [exact H|]. by intros p (b & _ & _ & ?)%has_byte_lookup. Qed.

(** The array [count] holds the numbers [f]. *)
Definition counts count (f : nat -> nat) : Prop :=
  length count = 256%nat /\ forall v, (v < 256)%nat -> count !! v = Some (Z.of_nat (f v)).

Lemma counts_insert count f g v : counts count f -> (forall u, u <> v -> g u = f u) ->
  counts (<[v := Z.of_nat (g v)]> count) g.
Proof.
  intros [Hl H] Hg. split; [by rewrite length_insert|]. intros u Hu. destruct (decide (u = v)) as [->|].
  - apply list_lookup_insert_eq. lia.
  - rewrite list_lookup_insert_ne, Hg by congruence. by apply H.
Qed.

Lemma count_bytes_ok pass base : forall count f, Forall (has_byte pass) base -> counts count f ->
  (forall v, Z.of_nat (f v + length base) < 2 ^ 32) ->
  exists count', count_bytes bytes pass base count = Some count' /\
    counts count' (fun v => (f v + length (bucket (byte pass) v base))%nat).
Proof.
  induction base as [|p base IH]; intros count f Hb Hc Hf; cbn [count_bytes].
  { exists count. split; [done|]. destruct Hc as [Hl Hc]. split; [done|]. intros v Hv. rewrite (Hc v Hv). simpl. do 2 f_equal. lia. }
  apply Forall_cons in Hb as [(b & -> & Eb & Hlt)%has_byte_lookup Hb]. simpl. rewrite Eb, (proj2 Hc) by done. simpl.
  set (g := fun v => if decide (v = byte pass p) then S (f v) else f v).
  destruct (IH (<[byte pass p := Z.of_nat (g (byte pass p))]> count) g) as (count' & E & [Hl' Hc']).
  - done.
  - apply (counts_insert count f); [done|]. intros u Hu. unfold g. by case_decide.
  - intros v. specialize (Hf v). simpl in Hf. unfold g. case_decide; lia.
  - exists count'. split.
    + rewrite <- E. f_equal. f_equal. unfold g. rewrite decide_True by done. specialize (Hf (byte pass p)). simpl in Hf.
      rewrite u32_small by lia. lia.
    + split; [done|]. intros v Hv. rewrite Hc' by done. f_equal. f_equal. unfold g. rewrite bucket_cons.
      destruct (decide (v = byte pass p)); case_decide; simpl; (lia || congruence).
Qed.

(** The counts up to [i] are added up. *)
Definition summed (key : P -> nat) base (i v : nat) : nat :=
  if (v <? i)%nat then below key (S v) base else length (bucket key v base).

Lemma sum_counts_ok key base n : forall i count, Z.of_nat (length base) < 2 ^ 32 -> (1 <= i)%nat -> (i + n = 256)%nat ->
  counts count (summed key base i) ->
  (sum_counts n (Z.of_nat (length base)) i count = Some None /\ exists v, (v < 256)%nat /\ Forall (fun p => key p = v) base) \/
  exists count', sum_counts n (Z.of_nat (length base)) i count = Some (Some count') /\
    counts count' (fun v => below key (S v) base).
Proof.
  induction n as [|n IH]; intros i count HN Hi Hn Hc; unfold sum_counts; fold sum_counts.
  { right. exists count. split; [done|]. destruct Hc as [Hl Hc]. split; [done|]. intros v Hv. rewrite Hc by done.
    unfold summed. by rewrite (proj2 (Nat.ltb_lt v i)) by lia. }
  assert (summed key base i i = length (bucket key i base)) as E1 by (unfold summed; by rewrite Nat.ltb_irrefl).
  assert (summed key base i (i - 1) = below key i base) as E2.
  { unfold summed. rewrite (proj2 (Nat.ltb_lt (i - 1) i)) by lia. f_equal. lia. }
  rewrite (proj2 Hc i), E1 by lia. simpl.
  destruct (Z.eqb_spec (Z.of_nat (length (bucket key i base))) (Z.of_nat (length base))) as [E|E].
  { left. split; [done|]. exists i. split; [lia|]. apply bucket_full. lia. }
  rewrite (proj2 Hc (i - 1)%nat), E2 by lia. simpl. pose proof (below_S key i base) as Eb. pose proof (below_le key (S i) base).
  rewrite u32_small by lia. apply (IH (S i)); [done|lia|lia|].
  replace (Z.of_nat (length (bucket key i base)) + Z.of_nat (below key i base)) with (Z.of_nat (summed key base (S i) i)).
  - apply (counts_insert count (summed key base i)); [done|]. intros u Hu. unfold summed.
    destruct (Nat.ltb_spec u i), (Nat.ltb_spec u (S i)); (done || lia).
  - unfold summed. rewrite (proj2 (Nat.ltb_lt i (S i))) by lia. lia.
Qed.

(** The elements [suf] are at their places, and [count] has the places of the
    last elements of [pre]. *)
Record scattered (key : P -> nat) pre suf count (buffer : list P) : Prop := {
  sc_counts : counts count (fun v => below key v (pre ++ suf) + length (bucket key v pre))%nat;
  sc_room : (length (pre ++ suf) <= length buffer)%nat;
  sc_placed v i : (v < 256)%nat -> (i < length (bucket key v suf))%nat ->
    buffer !! (below key v (pre ++ suf) + length (bucket key v pre) + i)%nat = bucket key v suf !! i
}.

Lemma scattered_step key pre p suf count buffer : (key p < 256)%nat -> scattered key (pre ++ [p]) suf count buffer ->
  let c := (below key (key p) (pre ++ p :: suf) + length (bucket key (key p) pre))%nat in
  count !! key p = Some (Z.of_nat (S c)) /\ (c < length (pre ++ p :: suf))%nat /\
  scattered key pre (p :: suf) (<[key p := Z.of_nat c]> count) (<[c := p]> buffer).
Proof.
  intros Hk [Hc Hr Hp] c. rewrite <- !app_assoc in *. simpl in *.
  assert (forall v, length (bucket key v (pre ++ [p])) = if decide (key p = v) then S (length (bucket key v pre)) else length (bucket key v pre)) as Hb.
  { intros v. rewrite bucket_app, length_app. rewrite bucket_cons. case_decide; simpl; lia. }
  assert (c < length (pre ++ p :: suf))%nat as Hlt.
  { pose proof (below_S key (key p) (pre ++ p :: suf)) as E. pose proof (below_le key (S (key p)) (pre ++ p :: suf)).
    rewrite (bucket_app _ _ pre (p :: suf)), length_app, bucket_cons, decide_True in E by done.
    simpl in E. lia. }
  split; [|split; [done|]].
  - rewrite (proj2 Hc) by done. rewrite Hb, decide_True by done. subst c. do 2 f_equal. lia.
  - split.
    + eapply (counts_insert _ _ (fun v => (below key v (pre ++ p :: suf) + length (bucket key v pre))%nat)); [exact Hc|].
      intros u Hu. cbv beta. rewrite Hb, decide_False by congruence. done.
    + by rewrite length_insert.
    + intros v i Hv Hi. rewrite bucket_cons in Hi |- *.
      destruct (decide (key p = v)) as [<-|Hne].
      * destruct i as [|i].
        { rewrite Nat.add_0_r. apply list_lookup_insert_eq. lia. }
        rewrite list_lookup_insert_ne by lia. simpl in *. rewrite <- (Hp (key p) i) by (done || lia).
        rewrite Hb, decide_True by done. f_equal. lia.
      * rewrite list_lookup_insert_ne.
        -- rewrite <- (Hp v i) by done. rewrite Hb, decide_False by done. done.
        -- subst c. rewrite <- Nat.add_assoc. apply bucket_apart; [done| |]; rewrite bucket_app, length_app, bucket_cons.
           ++ rewrite decide_True by done. simpl. lia.
           ++ rewrite decide_False by done. lia.
Qed.

Lemma scatter_ok pass pre : forall suf count buffer, Forall (has_byte pass) pre -> Z.of_nat (length (pre ++ suf)) < 2 ^ 32 ->
  scattered (byte pass) pre suf count buffer ->
  exists count' buffer', scatter bytes pass (reverse pre) count buffer = Some buffer' /\
    length buffer' = length buffer /\ scattered (byte pass) [] (pre ++ suf) count' buffer'.
Proof.
  induction pre as [|p pre IH] using rev_ind; intros suf count buffer Hb HN Hs.
  { exists count, buffer. done. }
  apply Forall_app in Hb as [Hb [(b & Eb & Ek & Hlt)%has_byte_lookup _]%Forall_cons].
  destruct (scattered_step _ _ _ _ _ _ Hlt Hs) as (Ec & Hc & Hs').
  rewrite reverse_app. cbn [reverse rev_append app scatter]. rewrite Eb. simpl. rewrite Ek, Ec. simpl.
  pose proof (sc_room _ _ _ _ _ Hs) as Hroom. rewrite <- !app_assoc in *. simpl in *.
  match type of Hs' with scattered _ _ _ (<[_ := Z.of_nat ?x]> _) _ => remember x as c eqn:Ec' end.
  replace (u32 (Z.of_nat (S c) - 1)) with (Z.of_nat c) by (rewrite u32_small by lia; lia).
  rewrite Nat2Z.id. destruct (lookup_lt_is_Some_2 buffer c) as [z ->]; [lia|]. simpl.
  destruct (IH (p :: suf) _ _ Hb HN Hs') as (count' & buffer' & E & L & H). exists count', buffer'.
  split; [done|]. split; [by rewrite L, length_insert|done].
Qed.

Lemma radix_pass_ok pass base buffer : Forall (has_byte pass) base -> Z.of_nat (length base) < 2 ^ 32 ->
  (length base <= length buffer)%nat ->
  exists buffer', radix_pass bytes (Z.of_nat (length base)) pass base buffer = Some (buckets (byte pass) 256 base, buffer') /\
    length buffer' = length buffer.
Proof.
  intros Hb HN Hl. unfold radix_pass.
  destruct (count_bytes_ok pass base (replicate 256 0) (fun _ => 0%nat)) as (count & -> & Hc); [done| |done|].
  { split; [done|]. intros v Hv. by rewrite lookup_replicate_2. }
  simpl. rewrite head_lookup, (proj2 Hc) by lia. simpl.
  destruct (Z.eqb_spec (Z.of_nat (length (bucket (byte pass) 0 base))) (Z.of_nat (length base))) as [E|E].
  { exists buffer. split; [|done]. rewrite (buckets_same _ _ 0); [done| |lia]. apply bucket_full. lia. }
  destruct (sum_counts_ok (byte pass) base 255 1 count) as [[-> (v & Hv & Hall)]|(count' & -> & Hc')]; [done|lia|lia| | |].
  { destruct Hc as [Hcl Hc]. split; [done|]. intros v Hv. rewrite Hc by done. unfold summed. f_equal. f_equal.
    destruct (Nat.ltb_spec v 1); [|done]. assert (v = 0%nat) as -> by lia. rewrite below_S.
    pose proof (buckets_length (byte pass) 0 base) as E0. simpl in E0. rewrite <- E0. done. }
  { exists buffer. split; [|done]. simpl. by rewrite (buckets_same _ _ v). }
  simpl. destruct (scatter_ok pass base [] count' buffer) as (count2 & buffer' & -> & L & [_ Hr Hp]).
  - done.
  - by rewrite app_nil_r.
  - split.
    + destruct Hc' as [Hcl Hc']. split; [done|]. intros v Hv. rewrite Hc', below_S, app_nil_r by done. done.
    + by rewrite app_nil_r.
    + intros v i _ Hi. simpl in Hi. lia.
  - exists buffer'. split; [|done]. simpl. do 2 f_equal. rewrite !app_nil_r in *. simpl in *.
    rewrite <- (below_all (byte pass) 256 base) by (by apply has_byte_lt). apply buckets_at.
    + rewrite below_all by (by apply has_byte_lt). lia.
    + intros v i Hv Hi. rewrite <- (Hp v i Hv Hi). f_equal. lia.
Qed.
End passes.

(** ** The sorts *)

Lemma sorted_impl {A} (R R' : A -> A -> Prop) l : (forall x y, R x y -> R' x y) -> StronglySorted R l -> StronglySorted R' l.
Proof. intros H. induction 1 as [|x l _ IH Hx]; constructor; [done|]. eapply Forall_impl; [exact Hx|]. apply H. Qed.

Lemma sorted_all {A} (R : A -> A -> Prop) l : (forall x y, R x y) -> StronglySorted R l.
Proof. intros H. induction l; constructor; [done|]. by apply Forall_true. Qed.

Section sorts.
Context {P : Type} (bytes : P -> list Z) (size : Z).
Context (Hlen : forall p, Z.of_nat (length (bytes p)) = size) (Hbytes : forall p, Forall is_byte (bytes p)).

(** The strings from byte [k] on are in order. *)
Definition le_from (k : nat) (p q : P) : Prop := bytes_cmp (drop k (bytes p)) (drop k (bytes q)) <= 0.

Lemma string_has_byte p pass : (pass < length (bytes p))%nat -> has_byte bytes pass p.
Proof.
  intros H. destruct (lookup_lt_is_Some_2 _ _ H) as [b E]. exists b. split; [done|].
  specialize (Hbytes p). rewrite Forall_lookup in Hbytes. by eapply Hbytes.
Qed.

Lemma le_from_step k p q : (k < length (bytes p))%nat -> (k < length (bytes q))%nat ->
  (byte bytes k p < byte bytes k q)%nat \/ byte bytes k p = byte bytes k q /\ le_from (S k) p q -> le_from k p q.
Proof.
  intros Hp%string_has_byte Hq%string_has_byte. destruct Hp as (b & Eb & Hb), Hq as (c & Ec & Hc).
  unfold byte, le_from, is_byte in *. rewrite Eb, Ec, (drop_S _ _ _ Eb), (drop_S _ _ _ Ec). simpl.
  destruct (Z.eqb_spec b c); lia.
Qed.

Lemma radix_passes_ok passes : forall base buffer, Z.of_nat passes <= size -> Z.of_nat (length base) < 2 ^ 32 ->
  (length base <= length buffer)%nat -> StronglySorted (le_from passes) base ->
  exists base', radix_passes bytes (Z.of_nat (length base)) passes base buffer = Some base' /\
    base' ≡ₚ base /\ StronglySorted (le_from 0) base'.
Proof.
  induction passes as [|pass IH]; intros base buffer Hp HN Hl Hs; cbn [radix_passes]; [by exists base|].
  assert (forall p, (pass < length (bytes p))%nat) as Hin by (intros p; specialize (Hlen p); lia).
  assert (Forall (has_byte bytes pass) base) as Hb by (apply Forall_true; intros p; by apply string_has_byte).
  destruct (radix_pass_ok bytes pass base buffer) as (buffer' & -> & L); [done|done|done|]. simpl.
  assert (buckets (byte bytes pass) 256 base ≡ₚ base) as Hperm.
  { by rewrite buckets_perm, filter_below_all by (by apply has_byte_lt). }
  pose proof (Permutation_length Hperm) as HL.
  destruct (IH (buckets (byte bytes pass) 256 base) buffer') as (base' & E & Hp' & Hs'); [lia|lia|lia| |].
  - eapply sorted_impl; [|by apply buckets_sorted]. intros p q. by apply le_from_step.
  - exists base'. rewrite HL in E. split; [done|]. split; [by rewrite Hp'|done].
Qed.

Lemma radixsort_ok base buffer : size < 2 ^ 31 -> Z.of_nat (length base) < 2 ^ 32 -> (length base <= length buffer)%nat ->
  exists base', radixsort_for_str_ptr bytes base (Z.of_nat (length base)) size buffer = Some base' /\
    base' ≡ₚ base /\ StronglySorted (le_from 0) base'.
Proof.
  intros Hs HN Hl. destruct base as [|p0 base0]; [|set (base := p0 :: base0) in *; pose proof (Hlen p0) as H0].
  { exists []. split; [|split; [done|constructor]]. unfold radixsort_for_str_ptr. clear Hs.
    generalize (Z.to_nat (s32 size)) as n, buffer as b. induction n as [|n IH]; intros b; [done|].
    cbn [radix_passes]. unfold radix_pass. simpl. by apply IH. }
  unfold radixsort_for_str_ptr. rewrite s32_small by lia. apply radix_passes_ok; [lia|done|done|].
  assert (forall p q, le_from (Z.to_nat size) p q) as Hall.
  { intros p q. pose proof (Hlen p). pose proof (Hlen q). unfold le_from. rewrite !drop_ge by lia. simpl. lia. }
  by apply sorted_all.
Qed.

Lemma ptr_qsort_ok base : 0 < size < 2 ^ 31 -> 8 * Z.of_nat (length base) < 2 ^ 31 ->
  exists base', my_qsort (fun p q => default 0 (get_ptr_compare (bytes p) (bytes q) size size)) 8 base = Some base' /\
    base' ≡ₚ base /\ StronglySorted (le_from 0) base'.
Proof.
  intros Hs HN.
  assert (forall p q, default 0 (get_ptr_compare (bytes p) (bytes q) size size) = bytes_cmp (bytes p) (bytes q)) as Hc.
  { intros p q. pose proof (Hlen p). pose proof (Hlen q). by rewrite get_ptr_compare_ok by (done || lia). }
  assert (SortOrder (fun p q => default 0 (get_ptr_compare (bytes p) (bytes q) size size))) as Ho.
  { split; intros *; rewrite !Hc; apply bytes_cmp_order. }
  destruct (my_qsort_ok (fun p q => default 0 (get_ptr_compare (bytes p) (bytes q) size size)) 8 base) as (b & E & Hp & Hsort); [lia|done|].
  exists b. split; [done|]. split; [done|]. eapply sorted_impl; [|exact Hsort]. intros p q. unfold le. by rewrite Hc.
Qed.
End sorts.

(** C14. my_string_ptr_sort sorts the pointers by the strings they point to,
    compared as unsigned bytes, and keeps the pointers, with the radix sort as
    well as with my_qsort2, whether or not there is memory for the buffer.  The
    strings are shorter than 2^31 bytes and have one length, and the array of
    the 8-byte pointers is smaller than 2^31 bytes: my_qsort2 leaves larger arrays
    unsorted. *)
Theorem my_string_ptr_sort_correct {P} (bytes : P -> list Z) base size buffer :
  (forall p, Z.of_nat (length (bytes p)) = size) -> (forall p, Forall is_byte (bytes p)) ->
  0 <= size < 2 ^ 31 -> 8 * Z.of_nat (length base) < 2 ^ 31 ->
  (forall b, buffer = Some b -> length b = length base) ->
  exists base', my_string_ptr_sort bytes base (Z.of_nat (length base)) size buffer = Some base' /\
    base' ≡ₚ base /\ StronglySorted (fun p q => bytes_cmp (bytes p) (bytes q) <= 0) base'.
Proof.
  intros Hlen Hb Hs HN Hbuf. unfold my_string_ptr_sort.
  set (qsort := if test size && _ then _ else _).
  assert (exists base', qsort = Some base' /\ base' ≡ₚ base /\ StronglySorted (le_from bytes 0) base') as Hq.
  { subst qsort. destruct (test size && test (Z.of_nat (length base))) eqn:E.
    - apply ptr_qsort_ok; [done| |done]. unfold test in E. b2p. lia.
    - exists base. split; [done|]. split; [done|]. unfold test in E. destruct (Z.eqb_spec size 0) as [->|]; simpl in E.
      + apply sorted_all. intros p q. unfold le_from. pose proof (Hlen p). pose proof (Hlen q). by rewrite !drop_ge by lia.
      + destruct base; [constructor|]. simpl in E. done. }
  destruct (_ && _ && _); [|done]. destruct buffer as [b|]; [|done].
  apply (radixsort_ok bytes size); [done|done|lia|lia|]. by rewrite (Hbuf b).
Qed.

(** For strings of one length, the comparison functions of get_ptr_compare,
    which look at four bytes at a time, all return the first difference. *)
Theorem get_ptr_compare_correct first last size :
  length last = length first -> size = Z.of_nat (length first) -> 0 < size < 2 ^ 31 ->
  get_ptr_compare first last size size = Some (bytes_cmp first last).
Proof. intros. by apply get_ptr_compare_ok. Qed.

(** ** Witnesses *)

(** Strings of two bytes; a pointer is the number of the string. *)
Definition two_bytes (p : nat) : list Z := [Z.of_nat (p / 256) mod 256; Z.of_nat p mod 256].

Lemma my_string_ptr_sort_correct_witness :
  exists base', my_string_ptr_sort two_bytes [300%nat; 7%nat; 258%nat] 3 2 None = Some base'.
Proof.
  destruct (my_string_ptr_sort_correct two_bytes [300%nat; 7%nat; 258%nat] 2 None) as (b & H & _);
    [done| |lia|simpl; lia|done|exists b; exact H].
  intros p. repeat constructor; unfold is_byte; apply Z.mod_pos_bound; lia.
Defined.

Lemma get_ptr_compare_correct_witness :
  get_ptr_compare [1; 2; 3; 4; 5] [1; 2; 3; 9; 0] 5 5 = Some (-5).
Proof. exact (get_ptr_compare_correct [1; 2; 3; 4; 5] [1; 2; 3; 9; 0] 5 eq_refl eq_refl ltac:(lia)). Defined.
