(* ===== verification/Wcomp.v ===== *)
(** * mysys/mf_wcomp.c: wild_compare

    The comparison of names with patterns of the privilege tables and of SHOW.
    The strings end with 0 and are the lists of the bytes before it.  With
    str_is_pattern the string is a pattern itself, and the question is whether
    everything that it matches is matched by wildstr.

    Without str_is_pattern the function decides whether the string matches.  With
    it, a string without wild_prefix is only accepted if all that it matches is
    matched; this does not hold for a string with wild_prefix. *)

From stdpp Require Import prelude list.
From Stdlib Require Import ZArith Lia ZifyNat Bool.
From S2P Require Import Prelude LikeSpec.

Open Scope Z_scope.

Section model.
Context (wild_many wild_one wild_prefix : Z) (str_is_pattern : bool).

(** [if ( *wildstr == wild_prefix && wildstr[1])]: the byte to compare, the
    pattern behind it and the string; [None] is the return of 1. *)
Definition wild_escape (str : list Z) (c : Z) (wild : list Z) : option (Z * list Z * list Z) :=
  match wild with
  | d :: w =>
    if c =? wild_prefix then
      if str_is_pattern then
        match str with
        | x :: s => if negb (x =? wild_prefix) then None else Some (d, w, s)
        | [] => None
        end
      else Some (d, w, str)
    else Some (c, wild, str)
  | [] => Some (c, wild, str)
  end.

(** [while ( *wildstr && *wildstr != wild_many && *wildstr != wild_one)]: the
    return value, or the string and the pattern. *)
Fixpoint wild_literals (n : nat) (str wild : list Z) : option (Z + list Z * list Z) :=
  match wild with
  | [] => Some (inr (str, wild))
  | c :: w =>
    if negb (c =? wild_many) && negb (c =? wild_one) then
      match n with
      | O => None
      | S n =>
        match wild_escape str c w with
        | None => Some (inl 1)
        | Some (c, w, str) =>
          match str with
          | x :: s => if negb (c =? x) then Some (inl 1) else wild_literals n s w
          | [] => Some (inl 1)
          end
        end
      end
    else Some (inr (str, wild))
  end.

(** [while (str_is_pattern && *str == wild_many) str++]. *)
Fixpoint skip_many (str : list Z) : list Z :=
  match str with
  | x :: s => if str_is_pattern && (x =? wild_many) then skip_many s else str
  | [] => str
  end.

(** wild_one in front of the string: [None] is the return of 1. *)
Definition wild_one_char (str : list Z) : option (list Z) :=
  match str with
  | [] => None
  | x :: s =>
    if str_is_pattern && (x =? wild_many) then None
    else
      match s with
      | _ :: s' => if (x =? wild_prefix) && str_is_pattern then Some s' else Some s
      | [] => Some s
      end
  end.

(** wild_one behind wild_many. *)
Definition wild_one_after (str : list Z) : option (list Z) :=
  match str with
  | [] => None
  | x :: s =>
    match s with
    | _ :: s' => if str_is_pattern && (x =? wild_prefix) then Some s' else Some s
    | [] => Some s
    end
  end.

(** [for (; *wildstr == wild_many || *wildstr == wild_one; wildstr++)]. *)
Fixpoint wild_skip (str wild : list Z) : option (list Z * list Z) :=
  match wild with
  | [] => Some (str, wild)
  | c :: w =>
    if c =? wild_many then wild_skip (skip_many str) w
    else if c =? wild_one then str ← wild_one_after str; wild_skip str w
    else Some (str, wild)
  end.

(** [for (;;str++)]: [rec] is the recursive call with the pattern. *)
Fixpoint wild_search (rec : list Z -> option Z) (cmp : Z) (str : list Z) : option Z :=
  match str with
  | [] => Some 1
  | x :: s =>
    if negb (x =? cmp) then wild_search rec cmp s
    else
      r ← rec str;
      if r =? 0 then Some 0 else wild_search rec cmp s
  end.

(** The character that is searched for. *)
Definition wild_first (c : Z) (wild : list Z) : Z :=
  match wild with
  | d :: _ => if (c =? wild_prefix) && negb str_is_pattern then d else c
  | [] => c
  end.

(** [while ( *wildstr)]; [rec] is the recursive call. *)
Fixpoint wcomp_loop (rec : list Z -> list Z -> option Z) (n : nat) (str wild : list Z) : option Z :=
  match wild with
  | [] => Some (match str with [] => 0 | _ => 1 end)
  | _ =>
    match n with
    | O => None
    | S n =>
      r ← wild_literals (length wild) str wild;
      match r with
      | inl r => Some r
      | inr (str, []) => Some (match str with [] => 0 | _ => 1 end)
      | inr (str, c :: wild) =>
        if c =? wild_one then
          match wild_one_char str with
          | None => Some 1
          | Some str => wcomp_loop rec n str wild
          end
        else
          match wild_skip (skip_many str) wild with
          | None => Some 1
          | Some (str, []) => Some 0
          | Some (str, c :: w) => wild_search (fun s => rec s (c :: w)) (wild_first c w) str
          end
      end
    end
  end.

(** A call needs one unit of fuel more than the pattern has bytes. *)
Fixpoint wild_compare_impl (n : nat) (str wild : list Z) : option Z :=
  match n with
  | O => None
  | S n => wcomp_loop (wild_compare_impl n) (length wild) str wild
  end.

Definition wild_compare (str wild : list Z) : option Z := wild_compare_impl (S (length wild)) str wild.
End model.

(** ** Patterns *)

Section tokens.
Context (wild_many wild_one wild_prefix : Z).
Abbreviation toks := (pattern (fun c => c) wild_prefix wild_one wild_many).

(** The literal that begins with [c], and what follows it. *)
Definition literal (c : Z) (w : list Z) : Z * list Z :=
  match w with d :: w' => if c =? wild_prefix then (d, w') else (c, w) | [] => (c, w) end.

Lemma wtoks_many c w : c = wild_many -> toks (c :: w) = Many :: toks w.
Proof. intros ->. simpl. by rewrite Z.eqb_refl. Qed.

Lemma wtoks_one c w : c <> wild_many -> c = wild_one -> toks (c :: w) = One :: toks w.
Proof. intros Hm ->. simpl. by rewrite (proj2 (Z.eqb_neq _ _) Hm), Z.eqb_refl. Qed.

Lemma wtoks_lit c w : c <> wild_many -> c <> wild_one ->
  toks (c :: w) = Lit (literal c w).1 :: toks (literal c w).2.
Proof.
  intros Hm Ho. simpl. rewrite (proj2 (Z.eqb_neq _ _) Hm), (proj2 (Z.eqb_neq _ _) Ho). unfold literal.
  destruct w; [done|]. by destruct (c =? wild_prefix).
Qed.

Lemma literal_length c w : (length (literal c w).2 <= length w)%nat.
Proof. unfold literal. destruct w; [done|]. destruct (c =? wild_prefix); simpl; lia. Qed.
End tokens.

Lemma like_any_empty u : like_any Z.eqb [] u = true.
Proof. by induction u. Qed.

(** ** Strings that are no patterns *)

Section names.
Context (wild_many wild_one wild_prefix : Z) (wild_neq : wild_one <> wild_many).
Abbreviation toks := (pattern (fun c => c) wild_prefix wild_one wild_many).
Abbreviation like := (like Z.eqb).
Abbreviation like_any := (like_any Z.eqb).
Abbreviation literal := (literal wild_prefix).

(** The return value for a pattern. *)
Definition decides (p : list (tok Z)) (s : list Z) : Z := if like p s then 0 else 1.

Lemma skip_many_false str : skip_many wild_many false str = str.
Proof. by destruct str. Qed.

Lemma wild_escape_false str c w : wild_escape wild_prefix false str c w = Some (literal c w, str).
Proof. unfold wild_escape, Wcomp.literal. destruct w; [done|]. by destruct (c =? wild_prefix). Qed.

Lemma wild_first_false c w : wild_first wild_prefix false c w = (literal c w).1.
Proof. unfold wild_first, Wcomp.literal. destruct w; [done|]. by destruct (c =? wild_prefix). Qed.

(** Behind the literals the pattern is at its end or at a wildcard. *)
Definition at_wild (wild : list Z) : Prop :=
  match wild with [] => True | c :: _ => c = wild_many \/ c = wild_one end.

Lemma wild_literals_false n : forall str wild, (length wild <= n)%nat ->
  exists r, wild_literals wild_many wild_one wild_prefix false n str wild = Some r /\
    match r with
    | inl r => r = 1 /\ like (toks wild) str = false
    | inr (str', wild') => at_wild wild' /\ (length wild' <= length wild)%nat /\ like (toks wild) str = like (toks wild') str'
    end.
Proof.
  induction n as [|n IH]; intros str [|c w] Hn; try (simpl in Hn; lia); try (eexists; split; [done|]; simpl; done).
  cbn [wild_literals].
  destruct (Z.eqb_spec c wild_many) as [Hm|Hm]; [eexists; split; [done|]; simpl; auto|].
  destruct (Z.eqb_spec c wild_one) as [Ho|Ho]; [eexists; split; [done|]; simpl; auto|]. cbn [negb andb].
  rewrite wild_escape_false, wtoks_lit by done. pose proof (literal_length wild_prefix c w) as Hl.
  destruct (literal c w) as [d w']. cbn [fst snd length] in *. destruct str as [|x s]; [eexists; done|].
  cbn [LikeSpec.like]. destruct (Z.eqb_spec d x); cbn [negb andb]; [|eexists; done].
  destruct (IH s w' ltac:(lia)) as (r & E & H). exists r. split; [done|]. destruct r as [r|[str' wild']]; [done|].
  destruct H as (H1 & H2 & H3). split; [done|]. split; [lia|done].
Qed.

Lemma wild_skip_false wild : forall str, 
  match wild_skip wild_many wild_one wild_prefix false str wild with
  | None => like_any (toks wild) str = false
  | Some (str', wild') => ~ (exists c w, wild' = c :: w /\ (c = wild_many \/ c = wild_one)) /\
      (length wild' <= length wild)%nat /\ like_any (toks wild) str = like_any (toks wild') str'
  end.
Proof.
  induction wild as [|c w IH]; intros str; cbn [wild_skip].
  { split; [|done]. by intros (c & w & ? & _). }
  destruct (Z.eqb_spec c wild_many) as [Hm|Hm].
  { rewrite skip_many_false, wtoks_many, like_any_many by done. specialize (IH str).
    destruct (wild_skip _ _ _ _ _ _) as [[str' wild']|]; [|done]. destruct IH as (H1 & H2 & H3). split; [done|]. simpl. split; [lia|done]. }
  destruct (Z.eqb_spec c wild_one) as [Ho|Ho].
  - rewrite wtoks_one, like_any_one by done. destruct str as [|x s]; [done|].
    replace (wild_one_after wild_prefix false (x :: s)) with (Some s) by (by destruct s). cbn [mbind option_bind].
    specialize (IH s). destruct (wild_skip _ _ _ _ _ _) as [[str' wild']|]; [|done].
    destruct IH as (H1 & H2 & H3). split; [done|]. simpl. split; [lia|done].
  - split; [|done]. intros (c' & w' & [= <- <-] & [|]); congruence.
Qed.

Lemma wild_search_false c w rec str : c <> wild_many -> c <> wild_one ->
  (forall s, rec s = Some (decides (toks (c :: w)) s)) ->
  wild_search rec (wild_first wild_prefix false c w) str = Some (if like_any (toks (c :: w)) str then 0 else 1).
Proof.
  intros Hm Ho Hrec. rewrite wild_first_false. rewrite wtoks_lit in Hrec |- * by done.
  induction str as [|x s IH]; [done|]. cbn [wild_search]. rewrite Hrec. unfold decides. simpl.
  rewrite (Z.eqb_sym x). destruct (_ =? x); simpl; [|done]. by destruct (LikeSpec.like _ _ _).
Qed.

Lemma wcomp_loop_false rec n : forall str wild, (length wild <= n)%nat ->
  (forall s w, (length w < length wild)%nat -> rec s w = Some (decides (toks w) s)) ->
  wcomp_loop wild_many wild_one wild_prefix false rec n str wild = Some (decides (toks wild) str).
Proof.
  induction n as [|n IH]; intros str [|c0 w0] Hn Hrec; try (simpl in Hn; lia); try (by destruct str).
  cbn [wcomp_loop]. remember (c0 :: w0) as wild eqn:Ewild. clear c0 w0 Ewild.
  destruct (wild_literals_false (length wild) str wild) as (r & -> & Hr); [done|]. cbn [mbind option_bind].
  destruct r as [r|[str' [|c w]]]; [destruct Hr as [-> Hr]; unfold decides; by rewrite Hr| |].
  { destruct Hr as (_ & _ & Hr). unfold decides. rewrite Hr. by destruct str'. }
  destruct Hr as (Hw & Hl & Hr). simpl in Hl. unfold decides at 1. rewrite Hr. destruct (Z.eqb_spec c wild_one) as [Ho|Ho].
  - rewrite wtoks_one by congruence. destruct str' as [|x s]; [done|].
    replace (wild_one_char wild_many wild_prefix false (x :: s)) with (Some s)
      by (destruct s; simpl; [done|]; by rewrite andb_false_r).
    simpl. apply IH; [lia|]. intros s' w' ?. apply Hrec. lia.
  - destruct Hw as [Hw|Hw]; [|done]. rewrite wtoks_many, like_many, skip_many_false by done.
    pose proof (wild_skip_false w str') as Hs. destruct (wild_skip _ _ _ _ _ _) as [[str2 [|c2 w2]]|]; [| |by rewrite Hs].
    + destruct Hs as (_ & _ & ->). simpl. by rewrite like_any_empty.
    + destruct Hs as (H1 & H2 & ->). apply wild_search_false.
      * intros ->. apply H1. eauto.
      * intros ->. apply H1. eauto.
      * intros s'. apply Hrec. simpl in *. lia.
Qed.

Lemma wild_compare_false n : forall str wild, (length wild < n)%nat ->
  wild_compare_impl wild_many wild_one wild_prefix false n str wild = Some (decides (toks wild) str).
Proof.
  induction n as [|n IH]; intros str wild Hn; [lia|]. cbn [wild_compare_impl]. apply wcomp_loop_false; [done|].
  intros s w Hw. apply IH. lia.
Qed.
End names.

(** ** Strings that are patterns *)

Section patterns.
Context (wild_many wild_one wild_prefix : Z) (wild_neq : wild_one <> wild_many).
Context (prefix_neq : wild_prefix <> wild_one /\ wild_prefix <> wild_many).
Abbreviation toks := (pattern (fun c => c) wild_prefix wild_one wild_many).
Abbreviation like := (like Z.eqb).
Abbreviation like_any := (like_any Z.eqb).

(** All that [p] matches is matched by [q], or has an end that is. *)
Definition covers (p q : list (tok Z)) : Prop := forall t, like p t = true -> like q t = true.
Definition covers_any (p q : list (tok Z)) : Prop := forall t, like p t = true -> like_any q t = true.

Lemma like_cons t p u : t <> Many -> like (t :: p) u = true -> exists e u', u = e :: u' /\ like p u' = true.
Proof.
  intros Ht. destruct t as [| |c]; [|done|]; destruct u as [|e u]; try done; simpl; intros H; exists e, u; split; auto.
  by apply andb_true_iff in H as [_ ?].
Qed.

Lemma covers_one t p q : t <> Many -> covers p q -> covers (t :: p) (One :: q).
Proof. intros Ht H u (e & u' & -> & Hu)%like_cons; [|done]. simpl. by apply H. Qed.

Lemma covers_lit c p q : covers p q -> covers (Lit c :: p) (Lit c :: q).
Proof. intros H [|e u]; [done|]. simpl. intros [-> Hu]%andb_true_iff. by apply H. Qed.

Lemma covers_is_any p q : covers p q -> covers_any p q.
Proof. intros H u Hu%H. apply like_any_true. by exists [], u. Qed.

Lemma covers_many p q : covers_any p q -> covers p (Many :: q).
Proof. intros H u Hu. rewrite like_many. by apply H. Qed.

Lemma like_any_more q a u : like_any q u = true -> like_any q (a :: u) = true.
Proof. intros H. simpl. rewrite H. apply orb_true_r. Qed.

Lemma covers_any_cons t p q : covers_any p q -> covers_any (t :: p) q.
Proof.
  intros H u. assert (t = Many \/ t <> Many) as [->|Ht] by (destruct t; auto).
  - rewrite like_many. intros (a & b & -> & Hb)%like_any_true. by apply like_any_suffix, H.
  - intros (e & u' & -> & Hu)%like_cons; [|done]. by apply like_any_more, H.
Qed.

Lemma covers_any_one t p q : t <> Many -> covers_any p q -> covers_any (t :: p) (One :: q).
Proof. intros Ht H u (e & u' & -> & Hu)%like_cons; [|done]. rewrite like_any_one. by apply H. Qed.

(** No wild_prefix stands behind another one. *)
Definition plain (str : list Z) : Prop := forall a b, str <> a ++ wild_prefix :: wild_prefix :: b.

Lemma plain_tail x s : plain (x :: s) -> plain s.
Proof. intros H a b ->. by apply (H (x :: a) b). Qed.

(** The strings and patterns for which an answer can be relied on. *)
Definition ready (str wild : list Z) : Prop := plain str /\ (One ∉ toks wild \/ Many ∉ toks str).

(** A suffix of the string, and of its tokens. *)
Record part_of (str' str : list Z) : Prop := {
  part_plain : plain str -> plain str';
  part_toks t : t ∈ toks str' -> t ∈ toks str
}.

Lemma part_refl str : part_of str str.
Proof. done. Qed.

Lemma part_trans s1 s2 s3 : part_of s1 s2 -> part_of s2 s3 -> part_of s1 s3.
Proof. intros [A1 B1] [A2 B2]. split; auto. Qed.

Lemma ready_part str str' wild wild' : ready str wild -> part_of str' str -> part_of wild' wild -> ready str' wild'.
Proof. intros [Hp H] [A B] [_ D]. split; [auto|]. destruct H as [H|H]; [left|right]; intros ?; apply H; auto. Qed.

(** The first token of a pattern and the bytes behind it. *)
Lemma toks_cons x s : exists t s', toks (x :: s) = t :: toks s' /\ part_of s' (x :: s) /\
  (length s' <= length s)%nat /\ (t = Many <-> x = wild_many) /\
  ((x = wild_prefix /\ exists d, s = d :: s') \/ ~ (x = wild_prefix /\ s <> []) /\ s' = s).
Proof.
  assert (forall t s', toks (x :: s) = t :: toks s' -> (plain (x :: s) -> plain s') -> part_of s' (x :: s)) as Hpart.
  { intros t s' E H. split; [done|]. intros u Hu. rewrite E. by right. }
  destruct (decide (x = wild_many)) as [->|Hm].
  { exists Many, s. rewrite wtoks_many by done. split_and!; [done|apply (Hpart Many); [by rewrite wtoks_many|apply plain_tail]|done|done|].
    right. split; [|done]. intros []. by destruct prefix_neq. }
  destruct (decide (x = wild_one)) as [->|Ho].
  { exists One, s. rewrite wtoks_one by done. split_and!; [done|apply (Hpart One); [by rewrite wtoks_one|apply plain_tail]|done|split; congruence|].
    right. split; [|done]. intros []. by destruct prefix_neq. }
  rewrite wtoks_lit by done. eexists _, _. split; [done|]. split.
  { eapply Hpart; [by rewrite wtoks_lit|]. unfold literal. intros H. destruct s as [|d s]; [by eapply plain_tail|].
    destruct (x =? wild_prefix); [by do 2 eapply plain_tail|by eapply plain_tail]. }
  split; [apply literal_length|]. split; [split; congruence|]. unfold literal. destruct s as [|d s]; [right; by split; [intros []|]|].
  destruct (Z.eqb_spec x wild_prefix); [left; split; [done|]; by exists d|right; split; [by intros []|done]].
Qed.

Lemma part_cons t x s s' : toks (x :: s) = t :: toks s' -> (plain (x :: s) -> plain s') -> part_of s' (x :: s).
Proof. intros E H. split; [done|]. intros u Hu. rewrite E. by right. Qed.

Lemma prefix_not_wild : wild_prefix <> wild_many /\ wild_prefix <> wild_one.
Proof. by destruct prefix_neq. Qed.

(** An escaped character. *)
Lemma toks_prefix d s : toks (wild_prefix :: d :: s) = Lit d :: toks s /\ part_of s (wild_prefix :: d :: s).
Proof.
  destruct prefix_not_wild. assert (toks (wild_prefix :: d :: s) = Lit d :: toks s) as E.
  { rewrite wtoks_lit by done. unfold literal. by rewrite Z.eqb_refl. }
  split; [done|]. apply (part_cons (Lit d)); [done|]. by intros Hp%plain_tail%plain_tail.
Qed.

(** A character that stands for itself. *)
Lemma toks_self c s : c <> wild_many -> c <> wild_one -> c <> wild_prefix \/ s = [] ->
  toks (c :: s) = Lit c :: toks s /\ part_of s (c :: s).
Proof.
  intros Hm Ho Hp. assert (toks (c :: s) = Lit c :: toks s) as E.
  { rewrite wtoks_lit by done. unfold literal. destruct s; [done|]. destruct (Z.eqb_spec c wild_prefix); [|done].
    by destruct Hp. }
  split; [done|]. apply (part_cons (Lit c)); [done|]. apply plain_tail.
Qed.

(** From the rest of string and pattern to the whole. *)
Definition reduces (str wild str' wild' : list Z) : Prop :=
  part_of str' str /\ part_of wild' wild /\ (covers (toks str') (toks wild') -> covers (toks str) (toks wild)).

Lemma reduces_lit c str wild str1 wild1 str' wild' :
  toks str = Lit c :: toks str1 -> toks wild = Lit c :: toks wild1 -> part_of str1 str -> part_of wild1 wild ->
  reduces str1 wild1 str' wild' -> reduces str wild str' wild'.
Proof.
  intros E1 E2 P1 P2 (Q1 & Q2 & H). split; [by eapply part_trans|]. split; [by eapply part_trans|].
  intros Hc. rewrite E1, E2. by apply covers_lit, H.
Qed.

Lemma reduces_refl str wild : reduces str wild str wild.
Proof. by split. Qed.

Lemma wild_literals_true n : forall str wild, (length wild <= n)%nat ->
  exists r, wild_literals wild_many wild_one wild_prefix true n str wild = Some r /\
    match r with
    | inl r => r = 1
    | inr (str', wild') => at_wild wild_many wild_one wild' /\ (length wild' <= length wild)%nat /\
        ((wild' = [] -> str' = []) -> reduces str wild str' wild')
    end.
Proof.
  induction n as [|n IH]; intros str [|c w] Hn; try (simpl in Hn; lia);
    try (eexists; split; [done|]; simpl; auto using reduces_refl; fail).
  cbn [wild_literals].
  destruct (Z.eqb_spec c wild_many) as [Hm|Hm]; [eexists; split; [done|]; simpl; auto using reduces_refl|].
  destruct (Z.eqb_spec c wild_one) as [Ho|Ho]; [eexists; split; [done|]; simpl; auto using reduces_refl|].
  cbn [negb andb length] in *. destruct (decide (c = wild_prefix /\ w <> [])) as [[-> Hw]|Hself].
  - destruct w as [|d w]; [done|]. cbn [wild_escape]. rewrite Z.eqb_refl. destruct str as [|x str]; [by eexists|].
    destruct (Z.eqb_spec x wild_prefix) as [->|]; [|by eexists]. cbn [negb]. destruct str as [|x s]; [by eexists|].
    destruct (Z.eqb_spec d x) as [<-|]; [|by eexists]. cbn [negb]. simpl in Hn.
    destruct (IH s w ltac:(lia)) as (r & -> & Hr). eexists. split; [done|]. destruct r as [r|[str' wild']]; [done|].
    destruct Hr as (H1 & H2 & H3). split; [done|]. simpl. split; [lia|]. intros Hend.
    destruct (toks_prefix d s), (toks_prefix d w). by eapply reduces_lit; [..|apply H3].
  - assert (wild_escape wild_prefix true str c w = Some (c, w, str)) as ->.
    { unfold wild_escape. destruct w; [done|]. destruct (Z.eqb_spec c wild_prefix); [|done]. exfalso. by apply Hself. }
    destruct str as [|x s]; [by eexists|]. destruct (Z.eqb_spec c x) as [<-|]; [|by eexists]. cbn [negb].
    destruct (IH s w ltac:(lia)) as (r & E & Hr). exists r. split; [done|]. destruct r as [r|[str' wild']]; [done|].
    destruct Hr as (H1 & H2 & H3). split; [done|]. split; [lia|]. intros Hend.
    assert (c <> wild_prefix \/ w = []) as Hc.
    { destruct (decide (c = wild_prefix)); [|by left]. right. destruct w; [done|]. exfalso. by apply Hself. }
    assert (c <> wild_prefix \/ s = []) as Hc'.
    { destruct Hc as [? | ->]; [by left|]. right. destruct n; injection E as <- <-; by apply Hend. }
    destruct (toks_self c s Hm Ho Hc'), (toks_self c w Hm Ho Hc). by eapply reduces_lit; [..|apply H3].
Qed.

(** One character of the string is taken. *)
Definition takes_one (str str' : list Z) : Prop :=
  exists t, toks str = t :: toks str' /\ t <> Many /\ part_of str' str.

Lemma takes_char x s : x <> wild_many ->
  takes_one (x :: s) (match s with _ :: s' => if x =? wild_prefix then s' else s | [] => s end).
Proof.
  intros Hm. destruct (toks_cons x s) as (t & s' & E & Hp & _ & Ht & H). exists t.
  replace (match s with _ :: s' => if x =? wild_prefix then s' else s | [] => s end) with s'; [split; [done|]; split; [naive_solver|done]|].
  destruct H as [[-> (d & ->)]|[Hn ->]]; [by rewrite Z.eqb_refl|]. destruct s; [done|].
  destruct (Z.eqb_spec x wild_prefix); [|done]. exfalso. by apply Hn.
Qed.

Lemma wild_one_char_true str str' : wild_one_char wild_many wild_prefix true str = Some str' -> takes_one str str'.
Proof.
  destruct str as [|x s]; [done|]. cbn [wild_one_char]. destruct (Z.eqb_spec x wild_many); [done|]. intros H.
  pose proof (takes_char x s ltac:(done)) as Ht. destruct s as [|y s]; cbn [andb] in H; [by injection H as <-|].
  rewrite andb_true_r in H. by destruct (x =? wild_prefix); injection H as <-.
Qed.

Lemma wild_one_after_true str str' : Many ∉ toks str ->
  wild_one_after wild_prefix true str = Some str' -> takes_one str str'.
Proof.
  destruct str as [|x s]; [done|]. cbn [wild_one_after andb]. intros Hm H.
  assert (x <> wild_many) as Hx. { intros Hx. apply Hm. rewrite wtoks_many by done. left. }
  pose proof (takes_char x s Hx) as Ht. destruct s as [|y s]; [by injection H as <-|].
  by destruct (x =? wild_prefix); injection H as <-.
Qed.

(** The same for the part of a pattern behind wild_many. *)
Definition reduces_any (str wild str' wild' : list Z) : Prop :=
  part_of str' str /\ part_of wild' wild /\ (covers_any (toks str') (toks wild') -> covers_any (toks str) (toks wild)).

Lemma reduces_any_trans s1 w1 s2 w2 s3 w3 : reduces_any s1 w1 s2 w2 -> reduces_any s2 w2 s3 w3 -> reduces_any s1 w1 s3 w3.
Proof. intros (A1 & B1 & C1) (A2 & B2 & C2). split; [by eapply part_trans|]. split; [by eapply part_trans|auto]. Qed.

Lemma skip_many_true str wild : reduces_any str wild (skip_many wild_many true str) wild.
Proof.
  induction str as [|x s IH]; [by split|]. cbn [skip_many andb]. destruct (Z.eqb_spec x wild_many) as [Hx|]; [|by split].
  eapply reduces_any_trans; [|exact IH]. split; [|split; [done|]].
  - apply (part_cons Many); [by rewrite wtoks_many|apply plain_tail].
  - intros H. rewrite wtoks_many by done. by apply covers_any_cons.
Qed.

Lemma wild_skip_true wild : forall str str' wild', ready str wild ->
  wild_skip wild_many wild_one wild_prefix true str wild = Some (str', wild') ->
  (length wild' <= length wild)%nat /\ reduces_any str wild str' wild' /\
  (forall c w, wild' = c :: w -> c <> wild_many /\ c <> wild_one).
Proof.
  induction wild as [|c w IH]; intros str str' wild' Hr; cbn [wild_skip].
  { intros [= <- <-]. split; [done|]. split; [by split|done]. }
  destruct (Z.eqb_spec c wild_many) as [Hm|Hm]; [|destruct (Z.eqb_spec c wild_one) as [Ho|Ho]].
  - intros H. assert (part_of w (c :: w)) as Hw by (apply (part_cons Many); [by rewrite wtoks_many|apply plain_tail]).
    pose proof (skip_many_true str w) as Hs.
    destruct (IH _ _ _ (ready_part _ _ _ _ Hr (proj1 Hs) Hw) H) as (H1 & H2 & H3). split; [simpl; lia|]. split; [|done].
    eapply reduces_any_trans; [|exact H2]. eapply reduces_any_trans; [|exact Hs]. split; [done|]. split; [done|].
    intros Hc u Hu. rewrite wtoks_many, like_any_many by done. by apply Hc.
  - destruct (wild_one_after wild_prefix true str) as [str1|] eqn:E1; [|done]. cbn [mbind option_bind]. intros H.
    assert (Many ∉ toks str) as Hnm.
    { destruct Hr as [_ [Hr|Hr]]; [|done]. exfalso. apply Hr. rewrite wtoks_one by done. left. }
    destruct (wild_one_after_true str str1 Hnm E1) as (t & Et & Ht & Hp).
    assert (part_of w (c :: w)) as Hw by (apply (part_cons One); [by rewrite wtoks_one|apply plain_tail]).
    destruct (IH _ _ _ (ready_part _ _ _ _ Hr Hp Hw) H) as (H1 & H2 & H3). split; [simpl; lia|]. split; [|done].
    eapply reduces_any_trans; [|exact H2]. split; [done|]. split; [done|]. intros Hc. rewrite wtoks_one, Et by done.
    by apply covers_any_one.
  - intros [= <- <-]. split; [done|]. split; [by split|]. by intros ?? [= <- <-].
Qed.

(** The search behind wild_many; [n] bounds the length of the string. *)
Lemma wild_search_true rec c w n : forall str, (length str <= n)%nat -> c <> wild_many -> c <> wild_one -> ready str (c :: w) ->
  (forall s, ready s (c :: w) -> exists r, rec s = Some r /\ (r = 0 -> covers (toks s) (toks (c :: w)))) ->
  exists r, wild_search rec c str = Some r /\ (r = 0 -> covers_any (toks str) (toks (c :: w))).
Proof.
  induction n as [|n IH]; intros [|x s] Hn Hm Ho Hr Hrec; try (simpl in Hn; lia); try (by exists 1).
  cbn [length] in Hn. destruct (toks_cons x s) as (t & s' & Et & Hp & Hl & _ & Hcase).
  assert (exists r, wild_search rec c s' = Some r /\ (r = 0 -> covers_any (toks (x :: s)) (toks (c :: w)))) as Hrest.
  { destruct (IH s') as (r & E & H); [lia|done|done| |done|].
    - apply (ready_part _ _ _ _ Hr Hp), part_refl.
    - exists r. split; [done|]. intros H0%H. rewrite Et. by apply covers_any_cons. }
  assert (exists r, wild_search rec c s = Some r /\ (r = 0 -> covers_any (toks (x :: s)) (toks (c :: w)))) as Hs.
  { destruct Hcase as [[-> (d & ->)]|[_ ->]]; [|exact Hrest].
    cbn [wild_search length] in *. destruct (Z.eqb_spec d c) as [->|]; cbn [negb]; [|exact Hrest].
    (* inside of an escaped character, which is its own token *)
    assert (c <> wild_prefix) as Hc. { intros ->. destruct Hr as [Hr _]. by apply (Hr [] s'). }
    destruct (toks_self c s' Hm Ho (or_introl Hc)) as [E1 P1]. destruct (toks_prefix c s') as [E2 P2].
    destruct (Hrec (c :: s')) as (r & -> & H).
    { apply (ready_part (wild_prefix :: c :: s') _ (c :: w)); [done| |apply part_refl]. split; [apply plain_tail|]. by rewrite E1, E2. }
    cbn [mbind option_bind]. destruct (Z.eqb_spec r 0) as [->|]; [|exact Hrest].
    exists 0. split; [done|]. intros _. apply covers_is_any. rewrite E2, <- E1. by apply H. }
  cbn [wild_search]. destruct (Z.eqb_spec x c) as [->|]; cbn [negb]; [|done].
  destruct (Hrec (c :: s) Hr) as (r & -> & H). cbn [mbind option_bind]. destruct (Z.eqb_spec r 0) as [->|]; [|done].
  exists 0. split; [done|]. intros _. by apply covers_is_any, H.
Qed.

Lemma wild_first_true c w : wild_first wild_prefix true c w = c.
Proof. unfold wild_first. destruct w; [done|]. by rewrite andb_false_r. Qed.

Lemma reduces_ready str wild str' wild' : reduces str wild str' wild' -> ready str wild -> ready str' wild'.
Proof. intros (H1 & H2 & _) H. by eapply ready_part. Qed.

Lemma wcomp_loop_true rec n : forall str wild, (length wild <= n)%nat -> ready str wild ->
  (forall s w, (length w < length wild)%nat -> ready s w ->
     exists r, rec s w = Some r /\ (r = 0 -> covers (toks s) (toks w))) ->
  exists r, wcomp_loop wild_many wild_one wild_prefix true rec n str wild = Some r /\
    (r = 0 -> covers (toks str) (toks wild)).
Proof.
  induction n as [|n IH]; intros str [|c0 w0] Hn Hr Hrec; try (simpl in Hn; lia);
    try (exists (match str with [] => 0 | _ => 1 end); destruct str; (split; [done|]); [by intros _ u|done]).
  cbn [wcomp_loop]. remember (c0 :: w0) as wild eqn:Ewild. clear c0 w0 Ewild.
  destruct (wild_literals_true (length wild) str wild) as (r & -> & Hlit); [done|]. cbn [mbind option_bind].
  destruct r as [r|[str' [|c w]]]; [by exists r; subst r| |].
  { destruct Hlit as (_ & _ & Hlit). destruct str'; [|by exists 1]. exists 0. split; [done|]. intros _.
    destruct (Hlit ltac:(done)) as (_ & _ & H). apply H. by intros u. }
  destruct Hlit as (Hw & Hl & Hlit). specialize (Hlit ltac:(done)). pose proof (reduces_ready _ _ _ _ Hlit Hr) as Hr'.
  destruct Hlit as (_ & _ & Hlit). cbn [length] in Hl. destruct (Z.eqb_spec c wild_one) as [Ho|Ho].
  - assert (c <> wild_many) as Hm by congruence.
    destruct (wild_one_char wild_many wild_prefix true str') as [s|] eqn:E; [|by exists 1].
    apply wild_one_char_true in E as (t & Et & Ht & Hp).
    assert (part_of w (c :: w)) as Hpw by (apply (part_cons One); [by rewrite wtoks_one|apply plain_tail]).
    destruct (IH s w) as (r & -> & H); [lia|by eapply ready_part|intros; apply Hrec; [lia|done]|].
    exists r. split; [done|]. intros H0%H. apply Hlit. rewrite Et, wtoks_one by done. by apply covers_one.
  - destruct Hw as [Hw|Hw]; [|done].
    assert (part_of w (c :: w)) as Hpw by (apply (part_cons Many); [by rewrite wtoks_many|apply plain_tail]).
    pose proof (skip_many_true str' w) as Hsk.
    destruct (wild_skip _ _ _ _ _ w) as [[str2 wild2]|] eqn:E; [|by exists 1].
    destruct (wild_skip_true w _ _ _ (ready_part _ _ _ _ Hr' (proj1 Hsk) Hpw) E) as (H1 & H2 & H3).
    pose proof (reduces_any_trans _ _ _ _ _ _ Hsk H2) as (P1 & P2 & Hred).
    assert (forall r, (r = 0 -> covers_any (toks str2) (toks wild2)) -> r = 0 -> covers (toks str) (toks wild)) as Hdone.
    { intros r H H0%H. apply Hlit. rewrite wtoks_many by done. by apply covers_many, Hred. }
    destruct wild2 as [|c2 w2].
    + exists 0. split; [done|]. apply Hdone. intros _ u _. apply like_any_empty.
    + destruct (H3 c2 w2 eq_refl). rewrite wild_first_true.
      destruct (wild_search_true (fun s => rec s (c2 :: w2)) c2 w2 (length str2) str2) as (r & -> & Hsr); [done|done|done| | |].
      * eapply ready_part; [exact Hr'|done|]. by eapply part_trans.
      * intros s Hs. apply Hrec; [simpl in *; lia|done].
      * exists r. split; [done|]. by apply Hdone.
Qed.

Lemma wild_compare_true n : forall str wild, (length wild < n)%nat -> ready str wild ->
  exists r, wild_compare_impl wild_many wild_one wild_prefix true n str wild = Some r /\
    (r = 0 -> covers (toks str) (toks wild)).
Proof.
  induction n as [|n IH]; intros str wild Hn Hr; [lia|]. cbn [wild_compare_impl]. apply wcomp_loop_true; [done|done|].
  intros s w Hw Hs. apply IH; [lia|done].
Qed.
End patterns.

(** ** The theorems *)

(** C18. wild_compare of a name and a pattern ends and returns 0 if the name
    matches the pattern and 1 if it does not. *)
Theorem wild_compare_correct wild_many wild_one wild_prefix str wild : wild_one <> wild_many ->
  wild_compare wild_many wild_one wild_prefix false str wild =
    Some (if like Z.eqb (pattern (fun c => c) wild_prefix wild_one wild_many wild) str then 0 else 1).
Proof. intros H. apply wild_compare_false; [done|lia]. Qed.

(** C19. wild_compare of two patterns ends, and if it returns 0 the second pattern
    matches all that the first one matches, provided that the first has no
    wild_prefix behind a wild_prefix, and that the second has no wild_one or the
    first no wild_many. *)
Theorem wild_compare_patterns wild_many wild_one wild_prefix str wild :
  let toks := pattern (fun c => c) wild_prefix wild_one wild_many in
  wild_one <> wild_many -> wild_prefix <> wild_one /\ wild_prefix <> wild_many ->
  (forall a b, str <> a ++ wild_prefix :: wild_prefix :: b) -> One ∉ toks wild \/ Many ∉ toks str ->
  exists r, wild_compare wild_many wild_one wild_prefix true str wild = Some r /\
    (r = 0 -> forall s, like Z.eqb (toks str) s = true -> like Z.eqb (toks wild) s = true).
Proof. intros toks H1 H2 H3 H4. apply wild_compare_true; [done|done|lia|by split]. Qed.

(** The pattern for which a privilege was given does not cover the other one. *)
Definition not_covered (str wild : list Z) : Prop :=
  let toks := pattern (fun c => c) 92 95 37 in
  wild_compare 37 95 92 true str wild = Some 0 /\
  exists s, like Z.eqb (toks str) s = true /\ like Z.eqb (toks wild) s = false.

(** Both conditions are needed: with the characters that the server uses, the
    pattern of a backslash and any characters, [\\%], is taken as covered by the
    names that end with a per cent sign, [%\%]; and the names that begin with an
    a, [a%], by the names of at least two characters, [%__]. *)
Example wild_compare_patterns_unsound :
  not_covered [92; 92; 37] [37; 92; 37] /\ not_covered [97; 37] [37; 95; 95].
Proof. split; (split; [reflexivity|]); [exists [92]|exists [97]]; by split. Qed.

(** ** Witnesses *)

Lemma wild_compare_correct_witness : wild_compare 37 95 92 false [97; 98; 95] [97; 37; 92; 95] = Some 0.
Proof. exact (wild_compare_correct 37 95 92 [97; 98; 95] [97; 37; 92; 95] ltac:(done)). Defined.

Lemma wild_compare_patterns_witness : exists r, wild_compare 37 95 92 true [97; 92; 95; 37] [97; 37] = Some r /\
  (r = 0 -> like Z.eqb (pattern (fun c => c) 92 95 37 [97; 37]) [97; 95] = true).
Proof.
  destruct (wild_compare_patterns 37 95 92 [97; 92; 95; 37] [97; 37]) as (r & H1 & H2); [done|done| | |].
  - intros a b E. do 5 (destruct a as [|? a]; [simplify_eq/=|simplify_eq/=]).
  - left. intros H. by repeat (apply elem_of_cons in H as [H|H]; [done|]); apply elem_of_nil in H.
  - exists r. split; [exact H1|]. intros H0. by apply H2.
Defined.
