(* ===== verification/DList.v ===== *)
(** * mysys/list.c: doubly linked lists

    The memory is a map from addresses to nodes, and a null pointer is [None].
    An access through a pointer that is null or points to no node, a node that
    was freed included, gives [None].

    [dll] is the shape of a list in memory.  The theorems say what the operations
    do to the sequence of the nodes: they are those of a list, also when an
    element is added in the middle, and they leave all other nodes alone. *)

From stdpp Require Import prelude list gmap.
From Stdlib Require Import ZArith Lia ZifyNat.
From S2P Require Import Prelude.

Open Scope Z_scope.

Section model.
Context {D : Type}.
(** The address of a node. *)
Abbreviation loc := Z.

Record LIST := mk_LIST { prev : option loc; next : option loc; data : D }.

Abbreviation mem := (gmap loc LIST).

Definition set_prev (m : mem) (a : loc) (p : option loc) : option mem :=
  x ← m !! a; Some (<[a := mk_LIST p (next x) (data x)]> m).
Definition set_next (m : mem) (a : loc) (n : option loc) : option mem :=
  x ← m !! a; Some (<[a := mk_LIST (prev x) n (data x)]> m).

(** Add an element to the start of the list; the result is the new root. *)
Definition list_add (m : mem) (root : option loc) (element : loc) : option (mem * loc) :=
  m ← match root with
      | Some r =>
        R ← m !! r;
        m ← match prev R with Some q => set_next m q (Some element) | None => Some m end;
        R ← m !! r;
        m ← set_prev m element (prev R);
        set_prev m r (Some element)
      | None => set_prev m element None
      end;
  m ← set_next m element root;
  Some (m, element).

Definition list_delete (m : mem) (root : option loc) (element : loc) : option (mem * option loc) :=
  E ← m !! element;
  '(m, root) ← match prev E with
               | Some q => m ← set_next m q (next E); Some (m, root)
               | None => Some (m, next E)
               end;
  E ← m !! element;
  m ← match next E with
      | Some n => set_prev m n (prev E)
      | None => Some m
      end;
  Some (m, root).

(** [while (root)]: the memory that is left and what was given to my_free for
    the data; [n] is the fuel. *)
Fixpoint list_free (n : nat) (m : mem) (root : option loc) (free_data : bool) : option (mem * list D) :=
  match root with
  | None => Some (m, [])
  | Some r =>
    match n with
    | O => None
    | S n =>
      R ← m !! r;
      '(m, freed) ← list_free n (delete r m) (next R) free_data;
      Some (m, if free_data then data R :: freed else freed)
    end
  end.

(** my_malloc returns the address [node], or null; the contents of the new node
    are [p] and [n]. *)
Definition list_cons (m : mem) (d : D) (root : option loc) (node : option loc) (p n : option loc) :
    option (mem * option loc) :=
  match node with
  | None => Some (m, None)
  | Some a => '(m, r) ← list_add (<[a := mk_LIST p n d]> m) root a; Some (m, Some r)
  end.

(** [while (root)]: the memory and [last]. *)
Fixpoint reverse_loop (n : nat) (m : mem) (root last : option loc) : option (mem * option loc) :=
  match root with
  | None => Some (m, last)
  | Some r =>
    match n with
    | O => None
    | S n =>
      R ← m !! r;
      let root := next R in
      m ← set_next m r (prev R);
      m ← set_prev m r root;
      reverse_loop n m root (Some r)
    end
  end.

Definition list_reverse (n : nat) (m : mem) (root : option loc) : option (mem * option loc) :=
  reverse_loop n m root root.

(** [for (count=0 ; list ; list=list->next, count++)]. *)
Fixpoint length_loop (n : nat) (m : mem) (l : option loc) (count : Z) : option Z :=
  match l with
  | None => Some count
  | Some r =>
    match n with
    | O => None
    | S n => R ← m !! r; length_loop n m (next R) (u32 (count + 1))
    end
  end.

Definition list_length (n : nat) (m : mem) (l : option loc) : option Z := length_loop n m l 0.

(** The action changes a state of its own and returns an error or 0. *)
Fixpoint list_walk {S} (action : D -> S -> S * Z) (n : nat) (m : mem) (l : option loc) (s : S) : option (S * Z) :=
  match l with
  | None => Some (s, 0)
  | Some r =>
    match n with
    | O => None
    | Datatypes.S n =>
      R ← m !! r;
      let '(s, error) := action (data R) s in
      if test error then Some (s, error) else list_walk action n m (next R) s
    end
  end.
End model.
Arguments LIST : clear implicits.

(** ** The shape of a list *)

Section proofs.
Context {D : Type}.
Abbreviation loc := Z.
Abbreviation node := (loc * D)%type.
Implicit Types (m : gmap loc (LIST D)) (l : list node) (p n : option loc).

(** The address of the first node, or [n]. *)
Definition first l n : option loc := match l with [] => n | x :: _ => Some x.1 end.
(** The address of the last node, or [p]. *)
Fixpoint final p l : option loc := match l with [] => p | x :: l => final (Some x.1) l end.

(** A list of nodes between [p] and [n]. *)
Fixpoint dll m p l n : Prop :=
  match l with
  | [] => True
  | (a, d) :: l => m !! a = Some (mk_LIST p (first l n) d) /\ dll m (Some a) l n
  end.

(** A whole list. *)
Definition list_at m l : Prop := NoDup l.*1 /\ dll m None l None.

Lemma final_app p l x : final p (l ++ [x]) = Some x.1.
Proof. revert p. induction l as [|y l IH]; intros p; [done|]. apply IH. Qed.

Lemma dll_app m p l l' n : dll m p (l ++ l') n <-> dll m p l (first l' n) /\ dll m (final p l) l' n.
Proof.
  revert p. induction l as [|[a d] l IH]; intros p; simpl; [naive_solver|]. rewrite IH.
  replace (first (l ++ l') n) with (first l (first l' n)) by (by destruct l). naive_solver.
Qed.

(** Nodes outside of the list can change. *)
Lemma dll_other m m' p l n : (forall a, a ∈ l.*1 -> m' !! a = m !! a) -> dll m p l n -> dll m' p l n.
Proof.
  revert p. induction l as [|[a d] l IH]; intros p Hm; [done|]. simpl. intros [H1 H2]. split.
  - rewrite Hm; [done|]. left.
  - apply IH; [|done]. intros b Hb. apply Hm. by right.
Qed.

Lemma dll_insert m p l n a x : a ∉ l.*1 -> dll m p l n -> dll (<[a := x]> m) p l n.
Proof. intros Ha. apply dll_other. intros b Hb. apply lookup_insert_ne. by intros ->. Qed.

Lemma set_prev_ok m a x p : m !! a = Some x -> set_prev m a p = Some (<[a := mk_LIST p (next x) (data x)]> m).
Proof. intros E. unfold set_prev. by rewrite E. Qed.

Lemma set_next_ok m a x n : m !! a = Some x -> set_next m a n = Some (<[a := mk_LIST (prev x) n (data x)]> m).
Proof. intros E. unfold set_next. by rewrite E. Qed.

(** ** Adding *)

(** The last node gets another successor, the first one another predecessor. *)
Lemma relink_next m p l q dq n n' : NoDup (l ++ [(q, dq)]).*1 -> dll m p (l ++ [(q, dq)]) n ->
  m !! q = Some (mk_LIST (final p l) n dq) /\
  dll (<[q := mk_LIST (final p l) n' dq]> m) p (l ++ [(q, dq)]) n'.
Proof.
  rewrite fmap_app. intros (_ & Hn & _)%NoDup_app [Hl [Hq _]]%dll_app. split; [done|]. apply dll_app. split.
  - apply dll_insert; [|done]. intros H. apply (Hn q H). left.
  - simpl. by rewrite lookup_insert_eq.
Qed.

Lemma relink_prev m p p' r dr l n : NoDup ((r, dr) :: l).*1 -> dll m p ((r, dr) :: l) n ->
  m !! r = Some (mk_LIST p (first l n) dr) /\
  dll (<[r := mk_LIST p' (first l n) dr]> m) p' ((r, dr) :: l) n.
Proof.
  intros [Hr _]%NoDup_cons [Er Hl]. split; [done|]. split; [by rewrite lookup_insert_eq|]. by apply dll_insert.
Qed.

Lemma list_add_front m p q dq bef r dr e d P N aft :
  bef = [] /\ p = None \/ (exists l, bef = l ++ [(q, dq)]) /\ p = Some q ->
  NoDup (bef ++ (r, dr) :: aft).*1 -> e ∉ (bef ++ (r, dr) :: aft).*1 ->
  dll m None (bef ++ (r, dr) :: aft) None -> m !! e = Some (mk_LIST P N d) ->
  exists m', list_add m (Some r) e = Some (m', e) /\ dll m' None (bef ++ (e, d) :: (r, dr) :: aft) None /\
    forall a, a ∉ (e :: (bef ++ (r, dr) :: aft).*1) -> m' !! a = m !! a.
Proof.
  intros Hbef Hnd He Hl Ee. pose proof Hnd as Hnd0. pose proof He as He0.
  rewrite fmap_app in Hnd, He. apply NoDup_app in Hnd as (Hn1 & Hn2 & Hn3). apply not_elem_of_app in He as [He1 He2].
  apply dll_app in Hl as [Hb Ha]. simpl in Hb.
  assert (final None bef = p) as Hp by (destruct Hbef as [[-> ->]|[(l & ->) ->]]; [done|apply final_app]).
  rewrite Hp in Ha. destruct (relink_prev m p (Some e) r dr aft None Hn3 Ha) as [Er Hr].
  assert (e <> r) as Her by (intros ->; apply He2; left).
  unfold list_add. rewrite Er. cbn [mbind option_bind prev].
  assert (exists m1, (match p with Some q => set_next m q (Some e) | None => Some m end) = Some m1 /\
    dll m1 None bef (Some e) /\ (forall a, a ∉ bef.*1 -> m1 !! a = m !! a)) as (m1 & -> & Hb1 & Ho1).
  { destruct Hbef as [[-> ->]|[(l & ->) ->]]; [by exists m|].
    destruct (relink_next m None l q dq (Some r) (Some e) Hn1 Hb) as [Eq Hq].
    rewrite (set_next_ok _ _ _ _ Eq). eexists. split; [done|]. split; [done|]. intros a Hai.
    apply lookup_insert_ne. intros <-. apply Hai. rewrite fmap_app. apply elem_of_app. right. left. }
  cbn [mbind option_bind]. assert (m1 !! r = m !! r) as Er1. { apply Ho1. intros H. apply (Hn2 r H). left. }
  rewrite Er1, Er. cbn [mbind option_bind prev].
  rewrite (set_prev_ok _ e (mk_LIST P N d)) by (by rewrite Ho1). cbn [mbind option_bind].
  rewrite (set_prev_ok _ r (mk_LIST p (first aft None) dr)) by (rewrite lookup_insert_ne by done; congruence).
  cbn [mbind option_bind].
  rewrite (set_next_ok _ e (mk_LIST p N d)) by (by rewrite lookup_insert_ne, lookup_insert_eq by done).
  cbn [mbind option_bind prev next data]. eexists. split; [done|]. split.
  - apply dll_app. split; [|split; [|split]].
    + assert (r ∉ bef.*1) by (intros H; apply (Hn2 r H); left). by repeat apply dll_insert.
    + by rewrite lookup_insert_eq, Hp.
    + simpl. by rewrite lookup_insert_ne, lookup_insert_eq by done.
    + apply NoDup_cons in Hn3 as [Hn3 _]. apply not_elem_of_cons in He2 as [_ He2].
      repeat (apply dll_insert; [done|]). destruct Ha as [_ Ha]. eapply dll_other; [|exact Ha].
      intros a Hai. apply Ho1. intros H. apply (Hn2 a H). by right.
  - intros a [Hae Hai]%not_elem_of_cons. rewrite fmap_app in Hai. apply not_elem_of_app in Hai as [Ha1 Ha2].
    apply not_elem_of_cons in Ha2 as [Har _]. simpl in Har. rewrite !lookup_insert_ne by done. by apply Ho1.
Qed.

Lemma list_snoc l : l = [] \/ exists l' x, l = l' ++ [x].
Proof. destruct l as [|l' x] using rev_ind; eauto. Qed.

Lemma list_add_ok m bef aft e d P N : list_at m (bef ++ aft) -> (aft = [] -> bef = []) ->
  e ∉ (bef ++ aft).*1 -> m !! e = Some (mk_LIST P N d) ->
  exists m', list_add m (first aft None) e = Some (m', e) /\ list_at m' (bef ++ (e, d) :: aft) /\
    forall a, a ∉ (e :: (bef ++ aft).*1) -> m' !! a = m !! a.
Proof.
  intros [Hnd Hl] Hend He Ee.
  assert (NoDup (bef ++ (e, d) :: aft).*1) as Hnd'.
  { rewrite fmap_app in *. rewrite fmap_cons, <- Permutation_middle. by apply NoDup_cons. }
  destruct aft as [|[r dr] aft].
  - rewrite (Hend eq_refl) in *. simpl. unfold list_add. rewrite (set_prev_ok _ _ _ _ Ee). cbn [mbind option_bind].
    rewrite (set_next_ok _ e (mk_LIST None N d)) by (by rewrite lookup_insert_eq). cbn [mbind option_bind prev data].
    eexists. split; [done|]. split; [split; [done|]; simpl; by rewrite lookup_insert_eq|].
    intros a [Ha _]%not_elem_of_cons. by rewrite !lookup_insert_ne by done.
  - destruct (list_snoc bef) as [->|(l & [q dq] & ->)].
    + destruct (list_add_front m None e d [] r dr e d P N aft) as (m' & E & H & Ho); [by left|done..|].
      exists m'. split; [done|]. by split.
    + destruct (list_add_front m (Some q) q dq (l ++ [(q, dq)]) r dr e d P N aft) as (m' & E & H & Ho); [right; eauto|done..|].
      exists m'. split; [done|]. by split.
Qed.

Lemma dll_alloc m p l n a : dll m p l n -> a ∈ l.*1 -> is_Some (m !! a).
Proof.
  revert p. induction l as [|[b e] l IH]; intros p; [by intros _ ?%elem_of_nil|].
  intros [Eb Hl] [->|H]%elem_of_cons; [by eexists|]. by eapply IH.
Qed.

(** list_cons at the start of a list, with a node that was free before. *)
Lemma list_cons_ok m l d a p n : list_at m l -> m !! a = None ->
  exists m', list_cons m d (first l None) (Some a) p n = Some (m', Some a) /\ list_at m' ((a, d) :: l).
Proof.
  intros [Hnd Hl] Ha.
  assert (a ∉ l.*1) as Hal by (intros [x Hx]%(dll_alloc _ _ _ _ _ Hl); congruence).
  destruct (list_add_ok (<[a := mk_LIST p n d]> m) [] l a d p n) as (m' & E & H & _);
    [split; [done|]; by apply dll_insert|done|done|by rewrite lookup_insert_eq|].
  exists m'. unfold list_cons. by rewrite E.
Qed.

(** ** Deleting *)

Lemma list_delete_ok m bef e d aft : list_at m (bef ++ (e, d) :: aft) ->
  exists m', list_delete m (first (bef ++ (e, d) :: aft) None) e = Some (m', first (bef ++ aft) None) /\
    list_at m' (bef ++ aft) /\ forall a, a ∉ (bef ++ aft).*1 -> m' !! a = m !! a.
Proof.
  intros [Hnd Hl]. rewrite fmap_app, fmap_cons in Hnd.
  assert (NoDup (bef ++ aft).*1) as Hnd'.
  { rewrite fmap_app. rewrite <- Permutation_middle in Hnd. by apply NoDup_cons in Hnd as [_ ?]. }
  apply NoDup_app in Hnd as (Hn1 & Hn2 & [Hn3 Hn4]%NoDup_cons). apply dll_app in Hl as [Hb [Ee Ha]]. simpl in Hb.
  assert (e ∉ bef.*1) as Heb by (intros H; apply (Hn2 e H); left).
  set (p := final None bef) in *. set (n := first aft None) in *.
  unfold list_delete. rewrite Ee. cbn [mbind option_bind prev next].
  assert (exists m1, (match p with
      | Some q => m ← set_next m q n; Some (m, first (bef ++ (e, d) :: aft) None)
      | None => Some (m, n) end) = Some (m1, first (bef ++ aft) None) /\
    dll m1 None bef n /\ (forall a, a ∉ bef.*1 -> m1 !! a = m !! a)) as (m1 & -> & Hb1 & Ho1).
  { destruct (list_snoc bef) as [->|(l & [q dq] & ->)]; [by exists m|]. subst p. rewrite final_app. simpl.
    destruct (relink_next m None l q dq (Some e) n Hn1 Hb) as [Eq Hq].
    rewrite (set_next_ok _ _ _ _ Eq). cbn [mbind option_bind prev data]. eexists. split; [by destruct l as [|[]]|].
    split; [done|]. intros a Hai. apply lookup_insert_ne. intros <-. apply Hai. rewrite fmap_app. apply elem_of_app. right. left. }
  cbn [mbind option_bind]. rewrite (Ho1 e Heb), Ee. cbn [mbind option_bind prev next].
  assert (dll m1 (Some e) aft None) as Ha1.
  { eapply dll_other; [|exact Ha]. intros a Hai. apply Ho1. intros H. apply (Hn2 a H). by right. }
  assert (exists m2, (match n with Some n => set_prev m1 n p | None => Some m1 end) = Some m2 /\
    dll m2 p aft None /\ (forall a, a ∉ aft.*1 -> m2 !! a = m1 !! a)) as (m2 & -> & Ha2 & Ho2).
  { destruct aft as [|[r dr] aft]; [by exists m1|]. simpl.
    destruct (relink_prev m1 (Some e) p r dr aft None Hn4 Ha1) as [Er Hr]. rewrite (set_prev_ok _ _ _ _ Er).
    eexists. split; [done|]. split; [done|]. intros a [Har _]%not_elem_of_cons. by apply lookup_insert_ne. }
  cbn [mbind option_bind]. exists m2. split; [done|]. split; [split; [done|]|].
  - apply dll_app. split; [|done]. eapply dll_other; [|exact Hb1]. intros a Hai. apply Ho2. intros H. apply (Hn2 a Hai). by right.
  - rewrite fmap_app. intros a [H1 H2]%not_elem_of_app. by rewrite Ho2, Ho1.
Qed.

(** ** Reversal *)

Lemma reverse_loop_ok l : forall k m done_, (length l <= k)%nat -> NoDup (reverse done_ ++ l).*1 ->
  dll m (first l None) done_ None -> dll m (first done_ None) l None ->
  exists m', reverse_loop k m (first l None) (first done_ None) = Some (m', first (reverse l ++ done_) None) /\
    dll m' None (reverse l ++ done_) None /\ forall a, a ∉ (done_ ++ l).*1 -> m' !! a = m !! a.
Proof.
  induction l as [|[a d] l IH]; intros k m done_ Hk Hnd Hd Hl; [exists m; by destruct k|].
  destruct k as [|k]; [simpl in Hk; lia|]. cbn [reverse_loop first fst]. destruct Hl as [Ea Hl]. rewrite Ea. cbn [mbind option_bind next prev].
  assert ((a ∉ done_.*1) /\ (a ∉ l.*1)) as [Had Hal].
  { rewrite fmap_app, fmap_cons, fmap_reverse, reverse_Permutation in Hnd. rewrite <- Permutation_middle in Hnd.
    apply NoDup_cons in Hnd as [H _]. by apply not_elem_of_app in H. }
  rewrite (set_next_ok _ _ _ _ Ea). cbn [mbind option_bind prev data].
  rewrite (set_prev_ok _ a (mk_LIST (first done_ None) (first done_ None) d)) by (by rewrite lookup_insert_eq).
  cbn [mbind option_bind next data]. rewrite insert_insert_eq.
  destruct (IH k (<[a := mk_LIST (first l None) (first done_ None) d]> m) ((a, d) :: done_)) as (m' & E & H1 & H2).
  - simpl in Hk. lia.
  - by rewrite reverse_cons, <- app_assoc.
  - split; [by rewrite lookup_insert_eq|]. by apply dll_insert.
  - by apply dll_insert.
  - exists m'. rewrite reverse_cons, <- app_assoc. split; [exact E|]. split; [done|]. intros b Hb. rewrite H2.
    + apply lookup_insert_ne. intros <-. apply Hb. rewrite fmap_app. apply elem_of_app. right. left.
    + intros H. apply Hb. rewrite fmap_app in *. simpl in *. rewrite elem_of_cons, elem_of_app in H. rewrite elem_of_app, elem_of_cons. tauto.
Qed.

Lemma list_reverse_ok k m l : (length l <= k)%nat -> list_at m l ->
  exists m', list_reverse k m (first l None) = Some (m', first (reverse l) None) /\ list_at m' (reverse l) /\
    forall a, a ∉ l.*1 -> m' !! a = m !! a.
Proof.
  intros Hk [Hnd Hl]. unfold list_reverse. destruct l as [|x l]; [exists m; by destruct k|].
  assert (NoDup (reverse [] ++ x :: l).*1) as Hnd0 by done.
  destruct (reverse_loop_ok (x :: l) k m [] Hk Hnd0 I) as (m' & E & H1 & H2); [done|]. rewrite app_nil_r in *.
  exists m'. split; [|split; [split; [by rewrite fmap_reverse, reverse_Permutation|done]|done]].
  destruct k as [|k]; [simpl in Hk; lia|]. exact E.
Qed.

(** ** Freeing and walking *)

Lemma list_free_ok l free_data : forall k m p, (length l <= k)%nat -> NoDup l.*1 -> dll m p l None ->
  exists m', list_free k m (first l None) free_data = Some (m', if free_data then l.*2 else []) /\
    forall a, m' !! a = if decide (a ∈ l.*1) then None else m !! a.
Proof.
  induction l as [|[a d] l IH]; intros k m p Hk Hnd Hl.
  { exists m. destruct k, free_data; (split; [done|]); intros a; (case_decide as H; [by apply elem_of_nil in H|done]). }
  destruct k as [|k]; [simpl in Hk; lia|]. cbn [list_free first fst]. destruct Hl as [Ea Hl]. rewrite Ea. cbn [mbind option_bind next data].
  apply NoDup_cons in Hnd as [Ha Hnd]. simpl in Ha, Hk.
  destruct (IH k (delete a m) (Some a)) as (m' & -> & H); [lia|done| |].
  { eapply dll_other; [|exact Hl]. intros b Hb. apply lookup_delete_ne. by intros ->. }
  cbn [mbind option_bind]. exists m'. split; [by destruct free_data|]. intros b. rewrite H.
  destruct (decide (b = a)) as [->|Hb]; [rewrite decide_False, lookup_delete_eq, decide_True by (done || left); done|].
  rewrite lookup_delete_ne by congruence. apply decide_ext. simpl. rewrite elem_of_cons. naive_solver.
Qed.

Lemma length_loop_ok l : forall k m p c, (length l <= k)%nat -> dll m p l None -> 0 <= c ->
  c + Z.of_nat (length l) < 2 ^ 32 -> length_loop k m (first l None) c = Some (c + Z.of_nat (length l)).
Proof.
  induction l as [|[a d] l IH]; intros k m p c Hk Hl H0 Hc; [destruct k; simpl; f_equal; lia|].
  destruct k as [|k]; [simpl in Hk; lia|]. cbn [length_loop first fst length] in *. destruct Hl as [-> Hl]. cbn [mbind option_bind next].
  rewrite u32_small by lia. rewrite (IH k m (Some a)); [f_equal; lia|lia|done|lia|lia].
Qed.

(** The actions on a sequence of data, up to the first error. *)
Fixpoint walk {S} (action : D -> S -> S * Z) (ds : list D) (s : S) : S * Z :=
  match ds with
  | [] => (s, 0)
  | d :: ds => let '(s, error) := action d s in if test error then (s, error) else walk action ds s
  end.

Lemma list_walk_ok {S} (action : D -> S -> S * Z) l : forall k m p s, (length l <= k)%nat -> dll m p l None ->
  list_walk action k m (first l None) s = Some (walk action l.*2 s).
Proof.
  induction l as [|[a d] l IH]; intros k m p s Hk Hl; [by destruct k|].
  destruct k as [|k]; [simpl in Hk; lia|]. cbn [list_walk first fst walk fmap list_fmap snd] in *. destruct Hl as [-> Hl]. cbn [mbind option_bind next data].
  destruct (action d s) as [s' error]. destruct (test error); [done|]. simpl in Hk. apply (IH k m (Some a)); [lia|done].
Qed.
End proofs.

(** ** The theorems *)

(** list_add in front of a node of a list, at its start or in the middle,
    inserts the element there, and list_delete of a node removes it and returns
    the first node that is left; no other node changes. *)
Theorem list_add_delete_correct {D} (m : gmap Z (LIST D)) bef aft e d : (aft = [] -> bef = []) ->
  (forall P N, list_at m (bef ++ aft) -> e ∉ (bef ++ aft).*1 -> m !! e = Some (mk_LIST P N d) ->
    exists m', list_add m (first aft None) e = Some (m', e) /\ list_at m' (bef ++ (e, d) :: aft) /\
      forall a, a ∉ (e :: (bef ++ aft).*1) -> m' !! a = m !! a) /\
  (list_at m (bef ++ (e, d) :: aft) ->
    exists m', list_delete m (first (bef ++ (e, d) :: aft) None) e = Some (m', first (bef ++ aft) None) /\
      list_at m' (bef ++ aft) /\ forall a, a ∉ (bef ++ aft).*1 -> m' !! a = m !! a).
Proof. intros H. split; [intros; by eapply list_add_ok|apply list_delete_ok]. Qed.

(** list_reverse turns a list around, and returns its last node; no other
    node changes. *)
Theorem list_reverse_correct {D} k (m : gmap Z (LIST D)) l : (length l <= k)%nat -> list_at m l ->
  exists m', list_reverse k m (first l None) = Some (m', first (reverse l) None) /\ list_at m' (reverse l) /\
    forall a, a ∉ l.*1 -> m' !! a = m !! a.
Proof. apply list_reverse_ok. Qed.

(** list_free frees each node of the list once, each data once if it is asked
    to, and nothing else; list_length is the number of nodes and list_walk calls
    the action for each data in order until it returns an error. *)
Theorem list_free_walk_correct {D S} k (m : gmap Z (LIST D)) l free_data (action : D -> S -> S * Z) s :
  (length l <= k)%nat -> list_at m l -> Z.of_nat (length l) < 2 ^ 32 ->
  (exists m', list_free k m (first l None) free_data = Some (m', if free_data then l.*2 else []) /\
    forall a, m' !! a = if decide (a ∈ l.*1) then None else m !! a) /\
  list_length k m (first l None) = Some (Z.of_nat (length l)) /\
  list_walk action k m (first l None) s = Some (walk action l.*2 s).
Proof.
  intros Hk [Hnd Hl] Hc. split; [by eapply list_free_ok|]. split; [|by eapply list_walk_ok].
  unfold list_length. by erewrite length_loop_ok.
Qed.

(** ** Witnesses *)

(** The nodes 1 and 2, and a node 3 that is in no list. *)
Definition mem_12 : gmap Z (LIST Z) :=
  <[1 := mk_LIST None (Some 2) 10]> (<[2 := mk_LIST (Some 1) None 20]> (<[3 := mk_LIST None None 30]> ∅)).

Lemma list_at_12 : list_at mem_12 [(1, 10); (2, 20)].
Proof. split; [|done]. apply (bool_decide_unpack _). reflexivity. Qed.

Lemma list_add_delete_correct_witness : exists m', list_add mem_12 (Some 2) 3 = Some (m', 3) /\
  list_at m' [(1, 10); (3, 30); (2, 20)].
Proof.
  destruct (list_add_delete_correct mem_12 [(1, 10)] [(2, 20)] 3 30 ltac:(done)) as [H _].
  destruct (H None None list_at_12 ltac:(apply (bool_decide_unpack _); reflexivity) eq_refl) as (m' & H1 & H2 & _).
  by exists m'.
Defined.

Lemma list_reverse_correct_witness : exists m', list_reverse 2 mem_12 (Some 1) = Some (m', Some 2).
Proof.
  destruct (list_reverse_correct 2 mem_12 [(1, 10); (2, 20)] ltac:(done) list_at_12) as (m' & H & _). by exists m'.
Defined.

Lemma list_free_walk_correct_witness : list_length 2 mem_12 (Some 1) = Some 2.
Proof.
  exact (proj1 (proj2 (list_free_walk_correct 2 mem_12 [(1, 10); (2, 20)] true (fun d s => (s + d, 0)) 0 ltac:(done)
    list_at_12 ltac:(done)))).
Defined.
