(* ===== verification/Tree.v ===== *)
(** * Balanced trees: mysys/tree.c, include/my_tree.h

    A TREE is a red-black tree whose elements come from my_malloc or from a
    memory root.  The elements are a heap: a map from addresses to the struct and
    the key behind it; the element at the end of every path is a member of the
    tree itself.  The path from the root to the place of a change is the array
    [parents] of pointers to links, with MAX_TREE_HEIGHT entries; a link is the
    root of the tree or one of the two links of an element.  A read of memory
    that is no element, or of an entry outside the array, gives [None].

    The comparison of keys, the function that frees a key, my_malloc and the
    action of tree_walk are parameters; the calls of the free function are
    logged.  A key is what the comparison function sees through its pointer. *)

From stdpp Require Import prelude list gmap.
From Stdlib Require Import ZArith Lia.
From S2P Require Import Prelude MemRoot.

Open Scope Z_scope.

Definition BLACK : Z := 1.
Definition RED : Z := 0.
Definition DEFAULT_ALLOC_SIZE : Z := 8192.
Definition DEFAULT_ALIGN_SIZE : Z := 8192.
Definition MAX_TREE_HEIGHT : nat := 64.
Definition TREE_NO_DUPS : Z := 1.

(** Two pointers and a word, and a pointer. *)
Definition sizeof_TREE_ELEMENT : Z := 24.
Definition sizeof_pointer : Z := 8.

(** A pointer to an element: NULL, [&tree->null_element] or an allocated one. *)
Inductive pointer : Type := NULL | null_ptr | At (a : Z).

#[export] Instance pointer_eq_dec : EqDecision pointer.
Proof. solve_decision. Defined.

Definition same (p q : pointer) : bool := bool_decide (p = q).

Record TREE_ELEMENT : Type := mk_element {
  left : pointer;
  right : pointer;
  count : Z;
  colour : Z
}.

(** A link, by the place where it is stored. *)
Inductive link : Type := RootLink | LeftLink (a : Z) | RightLink (a : Z).

Inductive TREE_FREE : Type := free_init | free_free | free_end.

Record TREE (K : Type) : Type := mk_tree {
  root : pointer;
  null_element : TREE_ELEMENT;
  parents : list link;
  offset_to_key : Z;
  elements_in_tree : Z;
  size_of_element : Z;
  memory_limit : Z;
  allocated : Z;
  mem_root : MEM_ROOT;
  with_delete : bool;
  has_free : bool;
  flag : Z;
  heap : gmap Z (TREE_ELEMENT * K);
  freed : list (TREE_FREE * option K)
}.
Arguments mk_tree {K}. Arguments root {K}. Arguments null_element {K}. Arguments parents {K}.
Arguments offset_to_key {K}. Arguments elements_in_tree {K}. Arguments size_of_element {K}.
Arguments memory_limit {K}. Arguments allocated {K}. Arguments mem_root {K}. Arguments with_delete {K}.
Arguments has_free {K}. Arguments flag {K}. Arguments heap {K}. Arguments freed {K}.

Section Fields.
Context {K : Type}.
Implicit Types tr : TREE K.

Definition with_root tr p := mk_tree p (null_element tr) (parents tr) (offset_to_key tr) (elements_in_tree tr)
  (size_of_element tr) (memory_limit tr) (allocated tr) (mem_root tr) (with_delete tr) (has_free tr) (flag tr) (heap tr) (freed tr).
Definition with_null tr e := mk_tree (root tr) e (parents tr) (offset_to_key tr) (elements_in_tree tr)
  (size_of_element tr) (memory_limit tr) (allocated tr) (mem_root tr) (with_delete tr) (has_free tr) (flag tr) (heap tr) (freed tr).
Definition with_parents tr ps := mk_tree (root tr) (null_element tr) ps (offset_to_key tr) (elements_in_tree tr)
  (size_of_element tr) (memory_limit tr) (allocated tr) (mem_root tr) (with_delete tr) (has_free tr) (flag tr) (heap tr) (freed tr).
Definition with_elements tr n := mk_tree (root tr) (null_element tr) (parents tr) (offset_to_key tr) n
  (size_of_element tr) (memory_limit tr) (allocated tr) (mem_root tr) (with_delete tr) (has_free tr) (flag tr) (heap tr) (freed tr).
Definition with_allocated tr n := mk_tree (root tr) (null_element tr) (parents tr) (offset_to_key tr) (elements_in_tree tr)
  (size_of_element tr) (memory_limit tr) n (mem_root tr) (with_delete tr) (has_free tr) (flag tr) (heap tr) (freed tr).
Definition with_mem_root tr r := mk_tree (root tr) (null_element tr) (parents tr) (offset_to_key tr) (elements_in_tree tr)
  (size_of_element tr) (memory_limit tr) (allocated tr) r (with_delete tr) (has_free tr) (flag tr) (heap tr) (freed tr).
Definition with_heap tr h := mk_tree (root tr) (null_element tr) (parents tr) (offset_to_key tr) (elements_in_tree tr)
  (size_of_element tr) (memory_limit tr) (allocated tr) (mem_root tr) (with_delete tr) (has_free tr) (flag tr) h (freed tr).
Definition with_freed tr l := mk_tree (root tr) (null_element tr) (parents tr) (offset_to_key tr) (elements_in_tree tr)
  (size_of_element tr) (memory_limit tr) (allocated tr) (mem_root tr) (with_delete tr) (has_free tr) (flag tr) (heap tr) l.

(** [*p] *)
Definition get tr (p : pointer) : option TREE_ELEMENT :=
  match p with
  | NULL => None
  | null_ptr => Some (null_element tr)
  | At a => fst <$> heap tr !! a
  end.

Definition set tr (p : pointer) (e : TREE_ELEMENT) : option (TREE K) :=
  match p with
  | NULL => None
  | null_ptr => Some (with_null tr e)
  | At a => '(_, k) ← heap tr !! a; Some (with_heap tr (<[a := (e, k)]> (heap tr)))
  end.

(** ELEMENT_KEY *)
Definition element_key tr (p : pointer) : option K :=
  match p with At a => snd <$> heap tr !! a | _ => None end.

Definition set_left tr p q : option (TREE K) := e ← get tr p; set tr p (mk_element q (right e) (count e) (colour e)).
Definition set_right tr p q : option (TREE K) := e ← get tr p; set tr p (mk_element (left e) q (count e) (colour e)).
Definition set_count tr p n : option (TREE K) := e ← get tr p; set tr p (mk_element (left e) (right e) n (colour e)).
Definition set_colour tr p c : option (TREE K) := e ← get tr p; set tr p (mk_element (left e) (right e) (count e) c).

(** The pointer stored in a link, and the assignment to it. *)
Definition deref tr (s : link) : option pointer :=
  match s with
  | RootLink => Some (root tr)
  | LeftLink a => left <$> get tr (At a)
  | RightLink a => right <$> get tr (At a)
  end.

Definition assign tr (s : link) (p : pointer) : option (TREE K) :=
  match s with
  | RootLink => Some (with_root tr p)
  | LeftLink a => set_left tr (At a) p
  | RightLink a => set_right tr (At a) p
  end.

(** [&element->left] and [&element->right]. *)
Definition left_link (p : pointer) : option link := match p with At a => Some (LeftLink a) | _ => None end.
Definition right_link (p : pointer) : option link := match p with At a => Some (RightLink a) | _ => None end.

(** [parents[i]= s] and [parents[i][0]]. *)
Definition set_parent tr (i : nat) (s : link) : option (TREE K) :=
  if (i <? length (parents tr))%nat then Some (with_parents tr (<[i := s]> (parents tr))) else None.

(** [parents[i - k]] *)
Definition parent_link tr (i k : nat) : option link := if (k <=? i)%nat then parents tr !! (i - k)%nat else None.

Definition parent_at tr (i k : nat) : option pointer := s ← parent_link tr i k; deref tr s.

(** ** Rebalancing *)

Definition left_rotate tr (parent : link) (leaf : pointer) : option (TREE K) :=
  e ← get tr leaf;
  let y := right e in
  ey ← get tr y;
  tr ← set_right tr leaf (left ey);
  tr ← assign tr parent y;
  set_left tr y leaf.

Definition right_rotate tr (parent : link) (leaf : pointer) : option (TREE K) :=
  e ← get tr leaf;
  let x := left e in
  ex ← get tr x;
  tr ← set_left tr leaf (right ex);
  tr ← assign tr parent x;
  set_right tr x leaf.

(** The body of the loop of rb_insert when the parent is a left child: the next
    leaf and the index of its link, or the end of the loop. *)
Definition rb_insert_left tr (i : nat) (leaf par par2 : pointer) : option (TREE K * option (nat * pointer)) :=
  epar2 ← get tr par2;
  let y := right epar2 in
  ey ← get tr y;
  if colour ey =? RED then
    tr ← set_colour tr par BLACK;
    tr ← set_colour tr y BLACK;
    tr ← set_colour tr par2 RED;
    Some (tr, Some ((i - 2)%nat, par2))
  else
    epar ← get tr par;
    '(tr, par) ← (if same leaf (right epar) then
        s1 ← parent_link tr i 1;
        tr ← left_rotate tr s1 par;
        Some (tr, leaf)
      else Some (tr, par));
    tr ← set_colour tr par BLACK;
    tr ← set_colour tr par2 RED;
    s2 ← parent_link tr i 2;
    tr ← right_rotate tr s2 par2;
    Some (tr, None).

Definition rb_insert_right tr (i : nat) (leaf par par2 : pointer) : option (TREE K * option (nat * pointer)) :=
  epar2 ← get tr par2;
  let y := left epar2 in
  ey ← get tr y;
  if colour ey =? RED then
    tr ← set_colour tr par BLACK;
    tr ← set_colour tr y BLACK;
    tr ← set_colour tr par2 RED;
    Some (tr, Some ((i - 2)%nat, par2))
  else
    epar ← get tr par;
    '(tr, par) ← (if same leaf (left epar) then
        s1 ← parent_link tr i 1;
        tr ← right_rotate tr s1 par;
        Some (tr, leaf)
      else Some (tr, par));
    tr ← set_colour tr par BLACK;
    tr ← set_colour tr par2 RED;
    s2 ← parent_link tr i 2;
    tr ← left_rotate tr s2 par2;
    Some (tr, None).

Fixpoint rb_insert_loop (fuel : nat) tr (i : nat) (leaf : pointer) : option (TREE K) :=
  match fuel with
  | O => None
  | S fuel =>
    if same leaf (root tr) then Some tr else
    par ← parent_at tr i 1;
    epar ← get tr par;
    if negb (colour epar =? RED) then Some tr else
    par2 ← parent_at tr i 2;
    epar2 ← get tr par2;
    '(tr, next) ← (if same par (left epar2) then rb_insert_left tr i leaf par par2
                   else rb_insert_right tr i leaf par par2);
    match next with
    | Some (i, leaf) => rb_insert_loop fuel tr i leaf
    | None => Some tr
    end
  end.

(** [i] is the index of the link to [leaf] in [parents]. *)
Definition rb_insert tr (i : nat) (leaf : pointer) : option (TREE K) :=
  tr ← set_colour tr leaf RED;
  tr ← rb_insert_loop (S i) tr i leaf;
  set_colour tr (root tr) BLACK.

(** The body of the loop of rb_delete_fixup when [x] is the left child of [par].
    First a red sibling of [x] is rotated away. *)
Definition fixup_left_red tr (i : nat) (par : pointer) : option (TREE K * nat) :=
  epar ← get tr par;
  let w := right epar in
  ew ← get tr w;
  if colour ew =? RED then
    tr ← set_colour tr w BLACK;
    tr ← set_colour tr par RED;
    s1 ← parent_link tr i 1;
    tr ← left_rotate tr s1 par;
    s ← left_link w;
    tr ← set_parent tr i s;
    s ← left_link par;
    tr ← set_parent tr (S i) s;
    Some (tr, S i)
  else Some (tr, i).

(** Then the case of a black sibling: the next [x] and the index of its link, or
    the end of the loop. *)
Definition fixup_left_black tr (i : nat) (par : pointer) : option (TREE K * option (nat * pointer)) :=
  epar ← get tr par;
  let w := right epar in
  ew ← get tr w;
  el ← get tr (left ew);
  er ← get tr (right ew);
  if (colour el =? BLACK) && (colour er =? BLACK) then
    tr ← set_colour tr w RED;
    Some (tr, Some ((i - 1)%nat, par))
  else
    tr ← (if colour er =? BLACK then
        tr ← set_colour tr (left ew) BLACK;
        tr ← set_colour tr w RED;
        s ← right_link par;
        right_rotate tr s w
      else Some tr);
    epar ← get tr par;
    let w := right epar in
    tr ← set_colour tr w (colour epar);
    tr ← set_colour tr par BLACK;
    ew ← get tr w;
    tr ← set_colour tr (right ew) BLACK;
    s1 ← parent_link tr i 1;
    tr ← left_rotate tr s1 par;
    Some (tr, None).

Definition fixup_left tr (i : nat) (par : pointer) : option (TREE K * option (nat * pointer)) :=
  '(tr, i) ← fixup_left_red tr i par;
  fixup_left_black tr i par.

Definition fixup_right_red tr (i : nat) (par : pointer) : option (TREE K * nat) :=
  epar ← get tr par;
  let w := left epar in
  ew ← get tr w;
  if colour ew =? RED then
    tr ← set_colour tr w BLACK;
    tr ← set_colour tr par RED;
    s1 ← parent_link tr i 1;
    tr ← right_rotate tr s1 par;
    s ← right_link w;
    tr ← set_parent tr i s;
    s ← right_link par;
    tr ← set_parent tr (S i) s;
    Some (tr, S i)
  else Some (tr, i).

Definition fixup_right_black tr (i : nat) (par : pointer) : option (TREE K * option (nat * pointer)) :=
  epar ← get tr par;
  let w := left epar in
  ew ← get tr w;
  er ← get tr (right ew);
  el ← get tr (left ew);
  if (colour er =? BLACK) && (colour el =? BLACK) then
    tr ← set_colour tr w RED;
    Some (tr, Some ((i - 1)%nat, par))
  else
    tr ← (if colour el =? BLACK then
        tr ← set_colour tr (right ew) BLACK;
        tr ← set_colour tr w RED;
        s ← left_link par;
        left_rotate tr s w
      else Some tr);
    epar ← get tr par;
    let w := left epar in
    tr ← set_colour tr w (colour epar);
    tr ← set_colour tr par BLACK;
    ew ← get tr w;
    tr ← set_colour tr (left ew) BLACK;
    s1 ← parent_link tr i 1;
    tr ← right_rotate tr s1 par;
    Some (tr, None).

Definition fixup_right tr (i : nat) (par : pointer) : option (TREE K * option (nat * pointer)) :=
  '(tr, i) ← fixup_right_red tr i par;
  fixup_right_black tr i par.

(** The loop, with the element it leaves in [x]. *)
Fixpoint fixup_loop (fuel : nat) tr (i : nat) (x : pointer) : option (TREE K * pointer) :=
  match fuel with
  | O => None
  | S fuel =>
    if same x (root tr) then Some (tr, x) else
    ex ← get tr x;
    if negb (colour ex =? BLACK) then Some (tr, x) else
    par ← parent_at tr i 1;
    epar ← get tr par;
    '(tr, next) ← (if same x (left epar) then fixup_left tr i par else fixup_right tr i par);
    match next with
    | Some (i, x) => fixup_loop fuel tr i x
    | None => Some (tr, root tr)
    end
  end.

Definition rb_delete_fixup tr (i : nat) : option (TREE K) :=
  x ← parent_at tr i 0;
  '(tr, x) ← fixup_loop (i + 3) tr i x;
  set_colour tr x BLACK.

(** test_rb_tree: the black height, or -1. *)
Fixpoint test_rb_tree (fuel : nat) tr (element : pointer) : option Z :=
  match fuel with
  | O => None
  | S fuel =>
    e ← get tr element;
    if same (left e) NULL then Some 0 else
    l ← get tr (left e);
    r ← get tr (right e);
    if (colour e =? RED) && ((colour l =? RED) || (colour r =? RED)) then Some (-1) else
    count_l ← test_rb_tree fuel tr (left e);
    count_r ← test_rb_tree fuel tr (right e);
    if (0 <=? count_l) && (0 <=? count_r) && (count_l =? count_r)
    then Some (count_l + (if colour e =? BLACK then 1 else 0))
    else Some (-1)
  end.
End Fields.

(** ** The operations *)

(** HA_READ_* of include/my_base.h. *)
Inductive ha_rkey_function : Type :=
| HA_READ_KEY_EXACT | HA_READ_KEY_OR_NEXT | HA_READ_KEY_OR_PREV | HA_READ_AFTER_KEY | HA_READ_BEFORE_KEY
| HA_READ_PREFIX | HA_READ_PREFIX_LAST | HA_READ_PREFIX_LAST_OR_PREV | HA_READ_MBR_CONTAIN | HA_READ_MBR_INTERSECT
| HA_READ_MBR_WITHIN | HA_READ_MBR_DISJOINT | HA_READ_MBR_EQUAL.

(** The offset of one of the two links in the struct. *)
Inductive child : Type := LeftChild | RightChild.

#[export] Instance child_eq_dec : EqDecision child.
Proof. solve_decision. Defined.

Definition MY_ALIGN (A L : Z) : Z := Z.land (u64 (A + L - 1)) (Z.lnot (L - 1)).

Section Operations.
Context {K : Type}.
(** compare(ELEMENT_KEY(tree,element), key) *)
Context (compare : K -> K -> Z).
(** my_malloc for a block of the memory root, and for an element when the other
    elements are at the given addresses. *)
Context (my_malloc : list USED_MEM -> Z -> option Z) (malloc_element : gset Z -> Z -> option Z).
Implicit Types tr : TREE K.

(** [parents0] and [mem_root0] are what these members hold before. *)
Definition init_tree (parents0 : list link) (mem_root0 : MEM_ROOT) (default_alloc_size memory_limit size : Z) (with_delete has_free : bool) : TREE K :=
  let default_alloc_size := if default_alloc_size <? DEFAULT_ALLOC_SIZE then DEFAULT_ALLOC_SIZE else default_alloc_size in
  let default_alloc_size := MY_ALIGN default_alloc_size DEFAULT_ALIGN_SIZE in
  let size_of_element := if 0 <? size then size else 0 in
  let inline := negb has_free && (0 <=? size) && ((size <=? sizeof_pointer) || test (size .& (sizeof_pointer - 1))) in
  let unit := sizeof_TREE_ELEMENT + size in
  let default_alloc_size :=
    if inline then
      let n := default_alloc_size / unit in
      u64 ((if n =? 0 then 1 else n) * unit)
    else default_alloc_size in
  let size_of_element := if inline then size_of_element else u32 (size_of_element + sizeof_pointer) in
  let mem :=
    if with_delete then mem_root0
    else
      let r := init_alloc_root my_malloc (u32 default_alloc_size) 0 in
      mk_root (MemRoot.free r) (used r) (pre_alloc r) (sizeof_TREE_ELEMENT + size_of_element) (block_size r)
              (block_num r) (first_block_usage r) in
  mk_tree null_ptr (mk_element NULL NULL 0 BLACK) parents0 (if inline then sizeof_TREE_ELEMENT else 0) 0 size_of_element
    memory_limit 0 mem with_delete has_free 0 ∅ [].

(** A call of the free function of the tree. *)
Definition call_free tr (mode : TREE_FREE) (k : option K) : TREE K :=
  if has_free tr then with_freed tr (freed tr ++ [(mode, k)]) else tr.

(** my_free of an element. *)
Definition free_element tr (p : pointer) : option (TREE K) :=
  match p with
  | At a => _ ← heap tr !! a; Some (with_heap tr (base.delete a (heap tr)))
  | _ => None
  end.

Fixpoint delete_tree_element (fuel : nat) tr (element : pointer) : option (TREE K) :=
  match fuel with
  | O => None
  | S fuel =>
    if same element null_ptr then Some tr else
    e ← get tr element;
    k ← element_key tr element;
    tr ← delete_tree_element fuel tr (left e);
    let tr := call_free tr free_free (Some k) in
    tr ← delete_tree_element fuel tr (right e);
    if with_delete tr then free_element tr element else Some tr
  end.

(** free_tree.  The elements in the memory root are gone with it. *)
Definition free_tree tr (free_flags : Z) : option (TREE K) :=
  let fuel := S (base.size (heap tr)) in
  tr ← (if same (root tr) NULL then Some tr
        else if with_delete tr then delete_tree_element fuel tr (root tr)
        else
          tr ← (if has_free tr then
              let tr := if negb (memory_limit tr =? 0) then call_free tr free_init None else tr in
              tr ← delete_tree_element fuel tr (root tr);
              Some (if negb (memory_limit tr =? 0) then call_free tr free_end None else tr)
            else Some tr);
          '(r, _) ← free_root (mem_root tr) free_flags;
          Some (with_heap (with_mem_root tr r) ∅));
  Some (with_allocated (with_elements (with_root tr null_ptr) 0) 0).

Definition delete_tree tr : option (TREE K) := free_tree tr 0.
Definition reset_tree tr : option (TREE K) := free_tree tr MY_MARK_BLOCKS_FREE.

(** The search of tree_insert and tree_delete, which leaves the links it went
    through in [parents]. *)
Fixpoint descend (fuel : nat) tr (i : nat) (element : pointer) (key : K) : option (TREE K * nat * pointer) :=
  match fuel with
  | O => None
  | S fuel =>
    if same element null_ptr then Some (tr, i, element) else
    k ← element_key tr element;
    e ← get tr element;
    let cmp := compare k key in
    if cmp =? 0 then Some (tr, i, element)
    else if cmp <? 0 then
      s ← right_link element;
      tr ← set_parent tr (S i) s;
      descend fuel tr (S i) (right e) key
    else
      s ← left_link element;
      tr ← set_parent tr (S i) s;
      descend fuel tr (S i) (left e) key
  end.

Definition find_path tr (key : K) : option (TREE K * nat * pointer) :=
  tr ← set_parent tr 0 RootLink;
  descend MAX_TREE_HEIGHT tr 0 (root tr) key.

(** The memory for a new element. *)
Definition alloc_element tr (alloc_size : Z) : option Z * TREE K :=
  if with_delete tr then (malloc_element (dom (heap tr)) alloc_size, tr)
  else let '(p, r) := alloc_root my_malloc (mem_root tr) alloc_size in (p, with_mem_root tr r).

(** The new element at the end of the path; its colour is set by rb_insert. *)
Definition link_element tr (i : nat) (a : Z) (key : K) : option (TREE K) :=
  let tr := with_heap tr (<[a := (mk_element null_ptr null_ptr 1 RED, key)]> (heap tr)) in
  s ← parent_link tr i 0;
  tr ← assign tr s (At a);
  let tr := with_elements tr (u32 (elements_in_tree tr + 1)) in
  rb_insert tr i (At a).

(** The result is NULL or the element. *)
Fixpoint tree_insert_rec (fuel : nat) tr (key : K) (key_size : Z) : option (pointer * TREE K) :=
  match fuel with
  | O => None
  | S fuel =>
    '(tr, i, element) ← find_path tr key;
    if same element null_ptr then
      let alloc_size := u32 (sizeof_TREE_ELEMENT + key_size + size_of_element tr) in
      let tr := with_allocated tr (u64 (allocated tr + alloc_size)) in
      if negb (memory_limit tr =? 0) && negb (elements_in_tree tr =? 0) && (memory_limit tr <? allocated tr) then
        tr ← reset_tree tr;
        tree_insert_rec fuel tr key key_size
      else
        match alloc_element tr alloc_size with
        | (None, tr) => Some (NULL, tr)
        | (Some a, tr) => tr ← link_element tr i a key; Some (At a, tr)
        end
    else if test (flag tr .& TREE_NO_DUPS) then Some (NULL, tr)
    else
      e ← get tr element;
      let n := (count e + 1) mod 2 ^ 31 in
      let n := if n =? 0 then 2 ^ 31 - 1 else n in
      tr ← set_count tr element n;
      Some (element, tr)
  end.

(** The second call finds the tree empty. *)
Definition tree_insert tr (key : K) (key_size : Z) : option (pointer * TREE K) := tree_insert_rec 2 tr key key_size.

(** The path to the leftmost element of a subtree. *)
Fixpoint leftmost (fuel : nat) tr (i : nat) (nod : pointer) : option (TREE K * nat * pointer) :=
  match fuel with
  | O => None
  | S fuel =>
    e ← get tr nod;
    if same (left e) null_ptr then Some (tr, i, nod) else
    s ← left_link nod;
    tr ← set_parent tr (S i) s;
    leftmost fuel tr (S i) (left e)
  end.

(** The part of tree_delete that takes [element] out of the tree: the colour that
    is missing now and the end of the path to its place. *)
Definition unlink_element tr (i : nat) (element : pointer) : option (TREE K * nat * Z) :=
  e ← get tr element;
  s ← parent_link tr i 0;
  if same (left e) null_ptr then tr ← assign tr s (right e); Some (tr, i, colour e)
  else if same (right e) null_ptr then tr ← assign tr s (left e); Some (tr, i, colour e)
  else
    sr ← right_link element;
    tr ← set_parent tr (S i) sr;
    '(tr, j, nod) ← leftmost MAX_TREE_HEIGHT tr (S i) (right e);
    enod ← get tr nod;
    sj ← parent_link tr j 0;
    tr ← assign tr sj (right enod);
    tr ← assign tr s nod;
    sn ← right_link nod;
    tr ← set_parent tr (S i) sn;
    e ← get tr element;
    tr ← set_left tr nod (left e);
    tr ← set_right tr nod (right e);
    tr ← set_colour tr nod (colour e);
    Some (tr, j, colour enod).

(** The result 1 means that nothing was deleted. *)
Definition tree_delete tr (key : K) (key_size : Z) : option (Z * TREE K) :=
  if negb (with_delete tr) then Some (1, tr) else
  '(tr, i, element) ← find_path tr key;
  if same element null_ptr then Some (1, tr) else
  '(tr, j, remove_colour) ← unlink_element tr i element;
  tr ← (if remove_colour =? BLACK then rb_delete_fixup tr j else Some tr);
  k ← element_key tr element;
  let tr := call_free tr free_free (Some k) in
  let tr := with_allocated tr (u64 (allocated tr - (sizeof_TREE_ELEMENT + size_of_element tr + key_size))) in
  tr ← free_element tr element;
  Some (0, with_elements tr (u32 (elements_in_tree tr - 1))).

(** The element of tree_search. *)
Fixpoint search_loop (fuel : nat) tr (element : pointer) (key : K) : option (option pointer) :=
  match fuel with
  | O => None
  | S fuel =>
    if same element null_ptr then Some None else
    k ← element_key tr element;
    e ← get tr element;
    let cmp := compare k key in
    if cmp =? 0 then Some (Some element)
    else search_loop fuel tr (if cmp <? 0 then right e else left e) key
  end.

Definition tree_search tr (key : K) : option (option K) :=
  r ← search_loop (S (base.size (heap tr))) tr (root tr) key;
  match r with None => Some None | Some p => k ← element_key tr p; Some (Some k) end.

(** ** Ordered access *)

(** ELEMENT_CHILD *)
Definition element_child tr (p : pointer) (offs : child) : option pointer :=
  e ← get tr p; Some (match offs with LeftChild => left e | RightChild => right e end).

(** Assignment to an element of an array of pointers. *)
Definition put (ps : list pointer) (i : nat) (p : pointer) : option (list pointer) :=
  if (i <? length ps)%nat then Some (<[i := p]> ps) else None.

(** What the first switch of tree_search_key does for an equal element: nothing,
    if the flag is not supported, or whether the element is noted and the new
    value of cmp. *)
Definition equal_case (f : ha_rkey_function) : option (bool * Z) :=
  match f with
  | HA_READ_KEY_EXACT | HA_READ_KEY_OR_NEXT | HA_READ_BEFORE_KEY => Some (true, 1)
  | HA_READ_AFTER_KEY => Some (false, -1)
  | HA_READ_PREFIX_LAST | HA_READ_PREFIX_LAST_OR_PREV => Some (true, -1)
  | _ => None
  end.

(** The loop of tree_search_key: the array, and the indices last_left_step_parent,
    last_right_step_parent and last_equal_element.  The inner [None] is the return
    of NULL for a flag that is not supported. *)
Fixpoint search_key_loop (fuel : nat) tr (key : K) (f : ha_rkey_function) (ps : list pointer) (i : nat) (element : pointer)
    (last_left last_right last_equal : option nat)
    : option (list pointer * option (option nat * option nat * option nat)) :=
  match fuel with
  | O => None
  | S fuel =>
    if same element null_ptr then Some (ps, Some (last_left, last_right, last_equal)) else
    ps ← put ps (S i) element;
    k ← element_key tr element;
    e ← get tr element;
    let cmp := compare k key in
    match (if cmp =? 0 then equal_case f else Some (false, cmp)) with
    | None => Some (ps, None)
    | Some (noted, cmp) =>
      let last_equal := if noted then Some (S i) else last_equal in
      if cmp <? 0 then search_key_loop fuel tr key f ps (S i) (right e) last_left (Some (S i)) last_equal
      else search_key_loop fuel tr key f ps (S i) (left e) (Some (S i)) last_right last_equal
    end
  end.

(** The second switch. *)
Definition choose (f : ha_rkey_function) (last_left last_right last_equal : option nat) : option (option nat) :=
  match f with
  | HA_READ_KEY_EXACT | HA_READ_PREFIX_LAST => Some last_equal
  | HA_READ_KEY_OR_NEXT => Some (match last_equal with Some i => Some i | None => last_left end)
  | HA_READ_AFTER_KEY => Some last_left
  | HA_READ_PREFIX_LAST_OR_PREV => Some (match last_equal with Some i => Some i | None => last_right end)
  | HA_READ_BEFORE_KEY => Some last_right
  | _ => None
  end.

(** [ps] is the array of the caller; the results are the key, the array and
    last_pos, as an index. *)
Definition tree_search_key tr (key : K) (ps : list pointer) (last_pos : option nat) (f : ha_rkey_function)
    : option (option K * list pointer * option nat) :=
  ps ← put ps 0 null_ptr;
  '(ps, r) ← search_key_loop (length ps) tr key f ps 0 (root tr) None None None;
  match r with
  | None => Some (None, ps, last_pos)
  | Some (last_left, last_right, last_equal) =>
    match choose f last_left last_right last_equal with
    | None => Some (None, ps, last_pos)
    | Some None => Some (None, ps, None)
    | Some (Some i) => p ← ps !! i; k ← element_key tr p; Some (Some k, ps, Some i)
    end
  end.

(** The path down one side, from the element [x] at index [i]. *)
Fixpoint down_loop (fuel : nat) tr (ps : list pointer) (i : nat) (x : pointer) (offs : child) : option (list pointer * nat * pointer) :=
  match fuel with
  | O => None
  | S fuel =>
    y ← element_child tr x offs;
    if same y null_ptr then Some (ps, i, x)
    else ps ← put ps (S i) y; down_loop fuel tr ps (S i) y offs
  end.

Definition tree_search_edge tr (ps : list pointer) (child_offs : child) : option (option K * list pointer * nat) :=
  ps ← put ps 0 null_ptr;
  let element := root tr in
  if same element null_ptr then Some (None, ps, O) else
  ps ← put ps 1 element;
  '(ps, i, x) ← down_loop (length ps) tr ps 1 element child_offs;
  k ← element_key tr x;
  Some (Some k, ps, i).

(** The way up while the element is the child on the given side. *)
Fixpoint up_loop tr (ps : list pointer) (i : nat) (x : pointer) (r_offs : child) : option (nat * pointer) :=
  match i with
  | O => None
  | S i =>
    y ← ps !! i;
    if same y null_ptr then Some (i, y) else
    c ← element_child tr y r_offs;
    if same x c then up_loop tr ps i y r_offs else Some (i, y)
  end.

Definition tree_search_next tr (ps : list pointer) (i : nat) (l_offs r_offs : child) : option (option K * list pointer * nat) :=
  x ← ps !! i;
  c ← element_child tr x r_offs;
  if negb (same c null_ptr) then
    ps ← put ps (S i) c;
    '(ps, i, x) ← down_loop (length ps) tr ps (S i) c l_offs;
    k ← element_key tr x;
    Some (Some k, ps, i)
  else
    '(i, y) ← up_loop tr ps i x r_offs;
    if same y null_ptr then Some (None, ps, i)
    else k ← element_key tr y; Some (Some k, ps, i).

(** ** Walks *)

Inductive TREE_WALK : Type := left_root_right | right_root_left.

Context {A : Type} (action : K -> Z -> A -> Z * A).

Fixpoint tree_walk_left_root_right (fuel : nat) tr (element : pointer) (argument : A) : option (Z * A) :=
  match fuel with
  | O => None
  | S fuel =>
    e ← get tr element;
    if same (left e) NULL then Some (0, argument) else
    '(error, argument) ← tree_walk_left_root_right fuel tr (left e) argument;
    if negb (error =? 0) then Some (error, argument) else
    k ← element_key tr element;
    let '(error, argument) := action k (count e) argument in
    if negb (error =? 0) then Some (error, argument)
    else tree_walk_left_root_right fuel tr (right e) argument
  end.

Fixpoint tree_walk_right_root_left (fuel : nat) tr (element : pointer) (argument : A) : option (Z * A) :=
  match fuel with
  | O => None
  | S fuel =>
    e ← get tr element;
    if same (right e) NULL then Some (0, argument) else
    '(error, argument) ← tree_walk_right_root_left fuel tr (right e) argument;
    if negb (error =? 0) then Some (error, argument) else
    k ← element_key tr element;
    let '(error, argument) := action k (count e) argument in
    if negb (error =? 0) then Some (error, argument)
    else tree_walk_right_root_left fuel tr (left e) argument
  end.

Definition tree_walk tr (argument : A) (visit : TREE_WALK) : option (Z * A) :=
  let fuel := (base.size (heap tr) + 2)%nat in
  match visit with
  | left_root_right => tree_walk_left_root_right fuel tr (root tr) argument
  | right_root_left => tree_walk_right_root_left fuel tr (root tr) argument
  end.
End Operations.
