(* ===== verification/TreeRep.v ===== *)
(** * Balanced trees: the shape of the heap

    The elements that are linked from the root form a binary tree, which is given
    here as a value: [tree], with the addresses of the elements.  A place in it is
    a subtree and the path above it, innermost step first.  [rep] says that the
    heap, the root and the links in [parents] are those of a subtree in its path;
    every primitive operation of the program at a place is an operation on such
    values. *)

From stdpp Require Import prelude list gmap.
From Stdlib Require Import ZArith Lia.
From S2P Require Import Prelude MemRoot Tree.

Open Scope Z_scope.

Section Shape.
Context {K : Type}.
Implicit Types tr : TREE K.

Inductive tree : Type :=
| Leaf
| Node (a c n : Z) (k : K) (l r : tree).

(** A step of the path: the element above, and its other subtree. *)
Inductive step : Type :=
| InLeft (a c n : Z) (k : K) (r : tree)
| InRight (a c n : Z) (k : K) (l : tree).

Definition path : Type := list step.

Definition grow (s : step) (t : tree) : tree :=
  match s with
  | InLeft a c n k r => Node a c n k t r
  | InRight a c n k l => Node a c n k l t
  end.

Fixpoint plug (p : path) (t : tree) : tree :=
  match p with [] => t | s :: p => plug p (grow s t) end.

Definition ptr (t : tree) : pointer := match t with Leaf => null_ptr | Node a _ _ _ _ _ => At a end.

Fixpoint addrs (t : tree) : list Z :=
  match t with Leaf => [] | Node a _ _ _ l r => addrs l ++ a :: addrs r end.

Definition step_addr (s : step) : Z := match s with InLeft a _ _ _ _ | InRight a _ _ _ _ => a end.
Definition step_tree (s : step) : tree := match s with InLeft _ _ _ _ t | InRight _ _ _ _ t => t end.

Fixpoint path_addrs (p : path) : list Z :=
  match p with [] => [] | s :: p => step_addr s :: addrs (step_tree s) ++ path_addrs p end.

Lemma addrs_plug p : forall t, addrs (plug p t) ≡ₚ addrs t ++ path_addrs p.
Proof.
  induction p as [|s p IH]; intros t; cbn [plug path_addrs]; [by rewrite app_nil_r|].
  rewrite IH. destruct s as [a c n k r|a c n k l]; cbn; rewrite <- !app_assoc; [done|].
  rewrite (Permutation_app_comm (addrs l)), <- app_assoc. cbn. solve_Permutation.
Qed.

(** ** The heap *)

Definition node_at (h : gmap Z (TREE_ELEMENT * K)) (a : Z) (l r : pointer) (n c : Z) (k : K) : Prop :=
  h !! a = Some (mk_element l r n c, k).

Fixpoint tree_at (h : gmap Z (TREE_ELEMENT * K)) (t : tree) : Prop :=
  match t with
  | Leaf => True
  | Node a c n k l r => node_at h a (ptr l) (ptr r) n c k /\ tree_at h l /\ tree_at h r
  end.

(** The elements of a path whose hole holds the pointer [q]. *)
Fixpoint path_at (h : gmap Z (TREE_ELEMENT * K)) (rt : pointer) (p : path) (q : pointer) : Prop :=
  match p with
  | [] => rt = q
  | InLeft a c n k r :: p => node_at h a q (ptr r) n c k /\ tree_at h r /\ path_at h rt p (At a)
  | InRight a c n k l :: p => node_at h a (ptr l) q n c k /\ tree_at h l /\ path_at h rt p (At a)
  end.

Definition link_of (p : path) : link :=
  match p with [] => RootLink | InLeft a _ _ _ _ :: _ => LeftLink a | InRight a _ _ _ _ :: _ => RightLink a end.

(** The array of links along the path. *)
Fixpoint links_at (ps : list link) (p : path) : Prop :=
  ps !! length p = Some (link_of p) /\ match p with [] => True | _ :: p => links_at ps p end.

Lemma tree_at_agree h h' t : tree_at h t -> (forall a, a ∈ addrs t -> h' !! a = h !! a) -> tree_at h' t.
Proof.
  induction t as [|a c n k l IHl r IHr]; [done|]. cbn [tree_at addrs]. intros (Ha & Hl & Hr) H. unfold node_at in *. split_and!.
  - rewrite H; [done|]. apply elem_of_app. right. left.
  - apply IHl; [done|]. intros b Hb. apply H, elem_of_app. by left.
  - apply IHr; [done|]. intros b Hb. apply H, elem_of_app. right. by right.
Qed.

Lemma path_at_agree h h' rt p : forall q, path_at h rt p q -> (forall a, a ∈ path_addrs p -> h' !! a = h !! a) -> path_at h' rt p q.
Proof.
  induction p as [|s p IH]; intros q; [done|]. intros Hp H.
  assert (h' !! step_addr s = h !! step_addr s) as Hs by (apply H; left).
  assert (forall b, b ∈ addrs (step_tree s) -> h' !! b = h !! b) as Ht.
  { intros b Hb. apply H. right. apply elem_of_app. by left. }
  assert (forall b, b ∈ path_addrs p -> h' !! b = h !! b) as Hr.
  { intros b Hb. apply H. right. apply elem_of_app. by right. }
  destruct s as [a c n k r|a c n k l]; cbn in *; destruct Hp as (H1 & H2 & H3); unfold node_at in *;
    (split_and!; [by rewrite Hs|by eapply tree_at_agree|by apply IH]).
Qed.

(** ** A place in the tree *)

Record rep (tr : TREE K) (p : path) (t : tree) : Prop := {
  rep_tree : tree_at (heap tr) t;
  rep_path : path_at (heap tr) (root tr) p (ptr t);
  rep_nodup : NoDup (addrs t ++ path_addrs p);
  rep_null : null_element tr = mk_element NULL NULL 0 BLACK
}.

Lemma rep_down_left tr p a c n k l r : rep tr p (Node a c n k l r) <-> rep tr (InLeft a c n k r :: p) l.
Proof.
  assert (addrs (Node a c n k l r) ++ path_addrs p ≡ₚ addrs l ++ path_addrs (InLeft a c n k r :: p)) as Hp.
  { cbn. rewrite <- !app_assoc. done. }
  split; intros [H1 H2 H3 H4]; (split; [| |by rewrite Hp in *|done]); cbn in *; tauto.
Qed.

Lemma rep_down_right tr p a c n k l r : rep tr p (Node a c n k l r) <-> rep tr (InRight a c n k l :: p) r.
Proof.
  assert (addrs (Node a c n k l r) ++ path_addrs p ≡ₚ addrs r ++ path_addrs (InRight a c n k l :: p)) as Hp.
  { cbn. solve_Permutation. }
  split; intros [H1 H2 H3 H4]; (split; [| |by rewrite Hp in *|done]); cbn in *; tauto.
Qed.

(** The parts of the tree that the operations at a place leave alone. *)
Definition quiet tr tr' : Prop :=
  offset_to_key tr' = offset_to_key tr /\ elements_in_tree tr' = elements_in_tree tr /\
  size_of_element tr' = size_of_element tr /\ memory_limit tr' = memory_limit tr /\ allocated tr' = allocated tr /\
  mem_root tr' = mem_root tr /\ with_delete tr' = with_delete tr /\ has_free tr' = has_free tr /\ flag tr' = flag tr /\
  freed tr' = freed tr /\ snd <$> heap tr' = snd <$> heap tr /\ length (parents tr') = length (parents tr).

#[export] Instance quiet_preorder : PreOrder quiet.
Proof. split; [intros tr; by repeat split|]. intros a b c H1 H2. unfold quiet in *. intuition congruence. Qed.

Lemma quiet_dom tr tr' : quiet tr tr' -> dom (heap tr') = dom (heap tr).
Proof.
  intros H. rewrite <- (dom_fmap_L snd (heap tr')), <- (dom_fmap_L snd (heap tr)). unfold quiet in H. by destruct H as (_ & _ & _ & _ & _ & _ & _ & _ & _ & _ & -> & _).
Qed.

Definition same_rest tr tr' : Prop := parents tr' = parents tr /\ quiet tr tr'.

#[export] Instance same_rest_preorder : PreOrder same_rest.
Proof. split; [intros tr; by split|]. intros a b c [H1 H2] [H3 H4]. split; [congruence|by etrans]. Qed.

Lemma get_at tr a l r n c k : node_at (heap tr) a l r n c k -> get tr (At a) = Some (mk_element l r n c).
Proof. unfold node_at, get. by intros ->. Qed.

Lemma get_ptr tr p t : rep tr p t ->
  get tr (ptr t) = Some match t with
    | Leaf => mk_element NULL NULL 0 BLACK
    | Node a c n k l r => mk_element (ptr l) (ptr r) n c
    end.
Proof.
  intros [H1 H2 H3 H4]. destruct t as [|a c n k l r]; cbn [ptr]; [cbn; by rewrite H4|]. destruct H1 as [H1 _]. by eapply get_at.
Qed.

Definition root_colour (t : tree) : Z := match t with Leaf => BLACK | Node _ c _ _ _ _ => c end.

Lemma get_node tr p a c n k l r : rep tr p (Node a c n k l r) -> get tr (At a) = Some (mk_element (ptr l) (ptr r) n c).
Proof. apply get_ptr. Qed.

Lemma element_key_node tr p a c n k l r : rep tr p (Node a c n k l r) -> element_key tr (At a) = Some k.
Proof. intros [(H & _) _ _ _]. cbn [element_key]. unfold node_at in H. by rewrite H. Qed.

(** ** Single writes *)

(** A write to the element [a]. *)
Definition wrote (tr tr' : TREE K) (a : Z) (x : TREE_ELEMENT * K) : Prop :=
  heap tr' = <[a := x]> (heap tr) /\ root tr' = root tr /\ null_element tr' = null_element tr /\ same_rest tr tr'.

Lemma set_at tr a l r n c k e : node_at (heap tr) a l r n c k -> exists tr', set tr (At a) e = Some tr' /\ wrote tr tr' a (e, k).
Proof.
  unfold node_at. intros H. cbn [set]. rewrite H. cbn [mbind option_bind]. eexists. split; [done|].
  split_and!; try done. unfold same_rest, quiet. split_and!; try done. cbn. rewrite fmap_insert. apply insert_id.
  by rewrite lookup_fmap, H.
Qed.

Lemma set_left_at tr a l r n c k q : node_at (heap tr) a l r n c k ->
  exists tr', set_left tr (At a) q = Some tr' /\ wrote tr tr' a (mk_element q r n c, k).
Proof. intros H. unfold set_left. rewrite (get_at _ _ _ _ _ _ _ H). by eapply set_at. Qed.

Lemma set_right_at tr a l r n c k q : node_at (heap tr) a l r n c k ->
  exists tr', set_right tr (At a) q = Some tr' /\ wrote tr tr' a (mk_element l q n c, k).
Proof. intros H. unfold set_right. rewrite (get_at _ _ _ _ _ _ _ H). by eapply set_at. Qed.

Lemma agree_insert (h : gmap Z (TREE_ELEMENT * K)) a x (L : list Z) : a ∉ L -> forall b, b ∈ L -> <[a := x]> h !! b = h !! b.
Proof. intros Ha b Hb. apply lookup_insert_ne. by intros ->. Qed.

Lemma tree_at_insert h a x t : a ∉ addrs t -> tree_at h t -> tree_at (<[a := x]> h) t.
Proof. intros Ha Ht. eapply tree_at_agree; [done|]. by apply agree_insert. Qed.

Lemma path_at_insert h rt a x p q : a ∉ path_addrs p -> path_at h rt p q -> path_at (<[a := x]> h) rt p q.
Proof. intros Ha Hp. eapply path_at_agree; [done|]. by apply agree_insert. Qed.

Lemma nodup_node a c n k l r p : NoDup (addrs (Node a c n k l r) ++ path_addrs p) ->
  (a ∉ addrs l) /\ (a ∉ addrs r) /\ (a ∉ path_addrs p).
Proof.
  intros H. assert (addrs (Node a c n k l r) ++ path_addrs p ≡ₚ a :: addrs l ++ addrs r ++ path_addrs p) as E by (cbn; solve_Permutation).
  rewrite E, NoDup_cons in H. rewrite !not_elem_of_app in H. tauto.
Qed.

(** A change of the colour or count of the element at the place. *)
Lemma rep_set tr p a c n k l r c' n' : rep tr p (Node a c n k l r) ->
  exists tr', set tr (At a) (mk_element (ptr l) (ptr r) n' c') = Some tr' /\ rep tr' p (Node a c' n' k l r) /\ same_rest tr tr'.
Proof.
  intros [(H1 & Hl & Hr) H2 H3 H4]. destruct (set_at tr a _ _ _ _ _ (mk_element (ptr l) (ptr r) n' c') H1) as (tr' & E & Hh & Hroot & Hnull & Hs).
  exists tr'. split; [done|]. split; [|done]. pose proof (nodup_node _ _ _ _ _ _ _ H3) as (N1 & N2 & N3).
  split; [| |done|congruence]; cbn in *; rewrite Hh, ?Hroot.
  - split_and!; [apply lookup_insert_eq|by apply tree_at_insert..].
  - by apply path_at_insert.
Qed.

Lemma set_colour_rep tr p a c n k l r c' : rep tr p (Node a c n k l r) ->
  exists tr', set_colour tr (At a) c' = Some tr' /\ rep tr' p (Node a c' n k l r) /\ same_rest tr tr'.
Proof. intros Hr. unfold set_colour. rewrite (get_node _ _ _ _ _ _ _ _ Hr). by eapply rep_set. Qed.

Lemma set_count_rep tr p a c n k l r n' : rep tr p (Node a c n k l r) ->
  exists tr', set_count tr (At a) n' = Some tr' /\ rep tr' p (Node a c n' k l r) /\ same_rest tr tr'.
Proof. intros Hr. unfold set_count. rewrite (get_node _ _ _ _ _ _ _ _ Hr). by eapply rep_set. Qed.

(** The assignment to the link at the end of the path. *)
Lemma assign_path tr p q0 q : path_at (heap tr) (root tr) p q0 -> NoDup (path_addrs p) ->
  exists tr', assign tr (link_of p) q = Some tr' /\ path_at (heap tr') (root tr') p q /\ same_rest tr tr' /\
    null_element tr' = null_element tr /\ forall b, b ∉ path_addrs p -> heap tr' !! b = heap tr !! b.
Proof.
  intros Hp Hn. destruct p as [|[a c n k r|a c n k l] p]; cbn [link_of assign].
  - exists (with_root tr q). split_and!; try done.
  - destruct Hp as (Ha & Hr & Hp). destruct (set_left_at _ _ _ _ _ _ _ q Ha) as (tr' & E & Hh & Hroot & Hnull & Hs).
    exists tr'. rewrite E. cbn in Hn. apply NoDup_cons in Hn as [Hn _]. apply not_elem_of_app in Hn as [N1 N2].
    split_and!; try done; cbn; rewrite Hh, ?Hroot.
    + split_and!; [apply lookup_insert_eq|by apply tree_at_insert|by apply path_at_insert].
    + intros b Hb. apply lookup_insert_ne. intros <-. apply Hb. left.
  - destruct Hp as (Ha & Hr & Hp). destruct (set_right_at _ _ _ _ _ _ _ q Ha) as (tr' & E & Hh & Hroot & Hnull & Hs).
    exists tr'. rewrite E. cbn in Hn. apply NoDup_cons in Hn as [Hn _]. apply not_elem_of_app in Hn as [N1 N2].
    split_and!; try done; cbn; rewrite Hh, ?Hroot.
    + split_and!; [apply lookup_insert_eq|by apply tree_at_insert|by apply path_at_insert].
    + intros b Hb. apply lookup_insert_ne. intros <-. apply Hb. left.
Qed.

Lemma deref_path tr p q : path_at (heap tr) (root tr) p q -> deref tr (link_of p) = Some q.
Proof.
  destruct p as [|[a c n k r|a c n k l] p]; cbn [link_of deref path_at]; [by intros ->| |].
  - intros (H & _). by rewrite (get_at _ _ _ _ _ _ _ H).
  - intros (H & _). by rewrite (get_at _ _ _ _ _ _ _ H).
Qed.

Lemma nodup_perm (L L' : list Z) : NoDup L -> L ≡ₚ L' -> NoDup L'.
Proof. by intros H <-. Qed.

(** ** Rotations *)

Lemma left_rotate_rep tr p a c n k l b cb nb kb bl br :
  rep tr p (Node a c n k l (Node b cb nb kb bl br)) ->
  exists tr', left_rotate tr (link_of p) (At a) = Some tr' /\ rep tr' p (Node b cb nb kb (Node a c n k l bl) br) /\ same_rest tr tr'.
Proof.
  intros [(Ha & Hl & Hb & Hbl & Hbr) Hp Hn Hnull].
  assert (addrs (Node a c n k l (Node b cb nb kb bl br)) ++ path_addrs p ≡ₚ
          a :: b :: addrs l ++ addrs bl ++ addrs br ++ path_addrs p) as EP by (cbn; solve_Permutation).
  pose proof Hn as Hn'. rewrite EP, !NoDup_cons, not_elem_of_cons, !not_elem_of_app in Hn'.
  destruct Hn' as ((Hab & A1 & A2 & A3 & A4) & (B1 & B2 & B3 & B4) & N).
  unfold left_rotate. rewrite (get_at _ _ _ _ _ _ _ Ha). cbn [mbind option_bind right ptr]. rewrite (get_at _ _ _ _ _ _ _ Hb). cbn [mbind option_bind].
  destruct (set_right_at _ _ _ _ _ _ _ (ptr bl) Ha) as (tr1 & E1 & Hh1 & Hr1 & Hn1 & Hs1). cbn [left]. rewrite E1. cbn [mbind option_bind].
  destruct (assign_path tr1 p (At a) (At b)) as (tr2 & E2 & Hp2 & Hs2 & Hn2 & Hh2).
  { rewrite Hh1, Hr1. by apply path_at_insert. }
  { clear -N. rewrite !NoDup_app in N. tauto. }
  rewrite E2. cbn [mbind option_bind].
  assert (node_at (heap tr2) b (ptr bl) (ptr br) nb cb kb) as Hb2.
  { unfold node_at. rewrite Hh2, Hh1, lookup_insert_ne by done. exact Hb. }
  destruct (set_left_at _ _ _ _ _ _ _ (At a) Hb2) as (tr3 & E3 & Hh3 & Hr3 & Hn3 & Hs3).
  exists tr3. split; [done|]. split; [|by etrans; [|etrans]].
  assert (forall t, a ∉ addrs t -> b ∉ addrs t -> (forall x, x ∈ addrs t -> x ∉ path_addrs p) -> tree_at (heap tr) t -> tree_at (heap tr3) t) as Hkeep.
  { intros t Na Nb Nx Ht. rewrite Hh3. apply tree_at_insert; [done|]. eapply tree_at_agree; [apply (tree_at_insert _ a (mk_element (ptr l) (ptr bl) n c, k) t Na Ht)|].
    intros x Hx. rewrite Hh2 by auto. by rewrite Hh1. }
  assert (forall x, x ∈ addrs l ++ addrs bl ++ addrs br -> x ∉ path_addrs p) as Nx.
  { rewrite !(assoc_L app) in N. apply NoDup_app in N as (_ & N & _). intros x Hx. apply N. by rewrite <- (assoc_L app). }
  split; [| | |congruence].
  - cbn. unfold node_at. rewrite Hh3 at 1 2. rewrite lookup_insert_eq, lookup_insert_ne, Hh2, Hh1, lookup_insert_eq by done.
    split_and!; try done; apply Hkeep; try done; intros x Hx; apply Nx; set_solver.
  - rewrite Hh3, Hr3. by apply path_at_insert.
  - apply (nodup_perm _ _ Hn). cbn. solve_Permutation.
Qed.
Lemma right_rotate_rep tr p a c n k r b cb nb kb bl br :
  rep tr p (Node a c n k (Node b cb nb kb bl br) r) ->
  exists tr', right_rotate tr (link_of p) (At a) = Some tr' /\ rep tr' p (Node b cb nb kb bl (Node a c n k br r)) /\ same_rest tr tr'.
Proof.
  intros [(Ha & (Hb & Hbl & Hbr) & Hr) Hp Hn Hnull].
  assert (addrs (Node a c n k (Node b cb nb kb bl br) r) ++ path_addrs p ≡ₚ
          a :: b :: addrs r ++ addrs bl ++ addrs br ++ path_addrs p) as EP by (cbn; solve_Permutation).
  pose proof Hn as Hn'. rewrite EP, !NoDup_cons, not_elem_of_cons, !not_elem_of_app in Hn'.
  destruct Hn' as ((Hab & A1 & A2 & A3 & A4) & (B1 & B2 & B3 & B4) & N).
  unfold right_rotate. rewrite (get_at _ _ _ _ _ _ _ Ha). cbn [mbind option_bind left ptr]. rewrite (get_at _ _ _ _ _ _ _ Hb). cbn [mbind option_bind].
  destruct (set_left_at _ _ _ _ _ _ _ (ptr br) Ha) as (tr1 & E1 & Hh1 & Hr1 & Hn1 & Hs1). cbn [right]. rewrite E1. cbn [mbind option_bind].
  destruct (assign_path tr1 p (At a) (At b)) as (tr2 & E2 & Hp2 & Hs2 & Hn2 & Hh2).
  { rewrite Hh1, Hr1. by apply path_at_insert. }
  { clear -N. rewrite !NoDup_app in N. tauto. }
  rewrite E2. cbn [mbind option_bind].
  assert (node_at (heap tr2) b (ptr bl) (ptr br) nb cb kb) as Hb2.
  { unfold node_at. rewrite Hh2, Hh1, lookup_insert_ne by done. exact Hb. }
  destruct (set_right_at _ _ _ _ _ _ _ (At a) Hb2) as (tr3 & E3 & Hh3 & Hr3 & Hn3 & Hs3).
  exists tr3. split; [done|]. split; [|by etrans; [|etrans]].
  assert (forall t, a ∉ addrs t -> b ∉ addrs t -> (forall x, x ∈ addrs t -> x ∉ path_addrs p) -> tree_at (heap tr) t -> tree_at (heap tr3) t) as Hkeep.
  { intros t Na Nb Nx Ht. rewrite Hh3. apply tree_at_insert; [done|]. eapply tree_at_agree; [apply (tree_at_insert _ a (mk_element (ptr br) (ptr r) n c, k) t Na Ht)|].
    intros x Hx. rewrite Hh2 by auto. by rewrite Hh1. }
  assert (forall x, x ∈ addrs r ++ addrs bl ++ addrs br -> x ∉ path_addrs p) as Nx.
  { rewrite !(assoc_L app) in N. apply NoDup_app in N as (_ & N & _). intros x Hx. apply N. by rewrite <- (assoc_L app). }
  split; [| | |congruence].
  - cbn. unfold node_at. rewrite Hh3 at 1 3. rewrite lookup_insert_eq, lookup_insert_ne, Hh2, Hh1, lookup_insert_eq by done.
    split_and!; try done; apply Hkeep; try done; intros x Hx; apply Nx; set_solver.
  - rewrite Hh3, Hr3. by apply path_at_insert.
  - apply (nodup_perm _ _ Hn). cbn. solve_Permutation.
Qed.

(** ** Places and paths *)

Lemma plug_app q : forall p t, plug (q ++ p) t = plug p (plug q t).
Proof. induction q as [|s q IH]; intros p t; [done|]. cbn. apply IH. Qed.

Lemma rep_app tr q : forall p t, rep tr (q ++ p) t <-> rep tr p (plug q t).
Proof.
  induction q as [|[a c n k r|a c n k l] q IH]; intros p t; [done| |]; cbn [app plug grow]; rewrite <- IH.
  - by rewrite rep_down_left.
  - by rewrite rep_down_right.
Qed.

Lemma rep_plug tr p t : rep tr p t <-> rep tr [] (plug p t).
Proof. rewrite <- rep_app. by rewrite app_nil_r. Qed.

Lemma rep_root tr t : rep tr [] t -> root tr = ptr t.
Proof. by intros [_ H _ _]. Qed.

Lemma plug_ptr s p : forall t, exists b, ptr (plug (s :: p) t) = At b /\ b ∈ path_addrs (s :: p).
Proof.
  revert s. induction p as [|s' p IH]; intros s t.
  - exists (step_addr s). split; [by destruct s|left].
  - destruct (IH s' (grow s t)) as (b & E & Hb). exists b. split; [done|]. cbn [path_addrs] in *. right. apply elem_of_app. by right.
Qed.

(** A place below the root is not the root. *)
Lemma not_root tr s p t : rep tr (s :: p) t -> same (ptr t) (root tr) = false.
Proof.
  intros H. pose proof (rep_root _ _ (proj1 (rep_plug _ _ _) H)) as E. destruct (plug_ptr s p t) as (b & Eb & Hb). rewrite Eb in E.
  unfold same. apply bool_decide_eq_false_2. rewrite E. destruct t as [|a c n k l r]; [done|]. intros [= ->].
  destruct H as [_ _ H _]. by apply nodup_node in H as (_ & _ & H).
Qed.

Lemma same_refl p : same p p = true.
Proof. unfold same. by apply bool_decide_eq_true_2. Qed.

Lemma same_ptr_false a t : a ∉ addrs t -> same (At a) (ptr t) = false.
Proof.
  intros H. unfold same. apply bool_decide_eq_false_2. destruct t as [|b c n k l r]; [done|]. intros [= ->]. apply H. cbn. apply elem_of_app. right. left.
Qed.

Lemma parent_link_0 tr p : links_at (parents tr) p -> parent_link tr (length p) 0 = Some (link_of p).
Proof. unfold parent_link. cbn [Nat.leb]. rewrite Nat.sub_0_r. destruct p; cbn; tauto. Qed.

Lemma parent_link_1 tr s p : links_at (parents tr) (s :: p) -> parent_link tr (length (s :: p)) 1 = Some (link_of p).
Proof. unfold parent_link. cbn [length Nat.leb]. rewrite Nat.sub_1_r. cbn [Nat.pred]. intros [_ H]. destruct p; cbn in H; tauto. Qed.

Lemma parent_link_2 tr s s' p : links_at (parents tr) (s :: s' :: p) -> parent_link tr (length (s :: s' :: p)) 2 = Some (link_of p).
Proof.
  unfold parent_link. cbn [length Nat.leb]. replace (S (S (length p)) - 2)%nat with (length p) by lia. intros (_ & _ & H). destruct p; cbn in H; tauto.
Qed.

Lemma path_at_step h rt s p q : path_at h rt (s :: p) q -> path_at h rt p (At (step_addr s)).
Proof. destruct s; cbn; tauto. Qed.

Lemma parent_at_1 tr s p t : rep tr (s :: p) t -> links_at (parents tr) (s :: p) ->
  parent_at tr (length (s :: p)) 1 = Some (At (step_addr s)).
Proof.
  intros H Hl. unfold parent_at. rewrite (parent_link_1 _ _ _ Hl). cbn [mbind option_bind]. apply deref_path.
  eapply path_at_step, H.
Qed.

Lemma parent_at_2 tr s s' p t : rep tr (s :: s' :: p) t -> links_at (parents tr) (s :: s' :: p) ->
  parent_at tr (length (s :: s' :: p)) 2 = Some (At (step_addr s')).
Proof.
  intros H Hl. unfold parent_at. rewrite (parent_link_2 _ _ _ _ Hl). cbn [mbind option_bind]. apply deref_path.
  eapply path_at_step, path_at_step, H.
Qed.

(** ** Operations below the place *)

Lemma set_colour_in q tr p a c n k l r c' : rep tr p (plug q (Node a c n k l r)) ->
  exists tr', set_colour tr (At a) c' = Some tr' /\ rep tr' p (plug q (Node a c' n k l r)) /\ same_rest tr tr'.
Proof. rewrite <- rep_app. intros H. destruct (set_colour_rep _ _ _ _ _ _ _ _ c' H) as (tr' & E & H' & Hs). exists tr'. by rewrite <- rep_app. Qed.

Lemma left_rotate_in q tr p a c n k l b cb nb kb bl br : rep tr p (plug q (Node a c n k l (Node b cb nb kb bl br))) ->
  exists tr', left_rotate tr (link_of (q ++ p)) (At a) = Some tr' /\
    rep tr' p (plug q (Node b cb nb kb (Node a c n k l bl) br)) /\ same_rest tr tr'.
Proof. rewrite <- rep_app. intros H. destruct (left_rotate_rep _ _ _ _ _ _ _ _ _ _ _ _ _ H) as (tr' & E & H' & Hs). exists tr'. by rewrite <- rep_app. Qed.

Lemma right_rotate_in q tr p a c n k r b cb nb kb bl br : rep tr p (plug q (Node a c n k (Node b cb nb kb bl br) r)) ->
  exists tr', right_rotate tr (link_of (q ++ p)) (At a) = Some tr' /\
    rep tr' p (plug q (Node b cb nb kb bl (Node a c n k br r))) /\ same_rest tr tr'.
Proof. rewrite <- rep_app. intros H. destruct (right_rotate_rep _ _ _ _ _ _ _ _ _ _ _ _ _ H) as (tr' & E & H' & Hs). exists tr'. by rewrite <- rep_app. Qed.

Lemma get_in q tr p t : rep tr p (plug q t) ->
  get tr (ptr t) = Some match t with
    | Leaf => mk_element NULL NULL 0 BLACK
    | Node a c n k l r => mk_element (ptr l) (ptr r) n c
    end.
Proof. rewrite <- rep_app. apply get_ptr. Qed.

(** ** The elements in order *)

Fixpoint elems (t : tree) : list (Z * Z * K) :=
  match t with Leaf => [] | Node a c n k l r => elems l ++ (a, n, k) :: elems r end.

Lemma elems_addrs t : addrs t = map (fun e => e.1.1) (elems t).
Proof. induction t as [|a c n k l IHl r IHr]; [done|]. cbn. by rewrite map_app, IHl, IHr. Qed.

Fixpoint before (p : path) : list (Z * Z * K) :=
  match p with [] => [] | InLeft _ _ _ _ _ :: p => before p | InRight a c n k l :: p => before p ++ elems l ++ [(a, n, k)] end.

Fixpoint after (p : path) : list (Z * Z * K) :=
  match p with [] => [] | InLeft a c n k r :: p => (a, n, k) :: elems r ++ after p | InRight _ _ _ _ _ :: p => after p end.

Lemma elems_plug p : forall t, elems (plug p t) = before p ++ elems t ++ after p.
Proof.
  induction p as [|[a c n k r|a c n k l] p IH]; intros t; cbn [plug before after]; [by rewrite app_nil_r| |]; rewrite IH; cbn; by simplify_list_eq.
Qed.
End Shape.
