(* ===== verification/TreeBalance.v ===== *)
(** * Balanced trees: rb_insert and rb_delete_fixup

    The red-black invariant, on a tree and on the path to a place in it, and that
    the two loops of the program restore it: after an insertion the place holds a
    red element under a red one, after a deletion its subtree has a black element
    too few on every path. *)

From stdpp Require Import prelude list gmap.
From Stdlib Require Import ZArith Lia.
From S2P Require Import Prelude MemRoot Tree TreeRep.

Open Scope Z_scope.

Create HintDb rb.

(** The next operation of the program, by the lemma on it. *)
Ltac op L :=
  let tr := fresh "tr" in let E := fresh "E" in let H := fresh "H" in let S := fresh "S" in
  destruct L as (tr & E & H & S); cbn [app link_of] in E; rewrite E; cbn [mbind option_bind]; clear E; cbn [plug grow] in H.

Section Balance.
Context {K : Type}.
Implicit Types (tr : TREE K) (t l r : tree (K := K)) (p : path (K := K)).

(** [n] black elements on every path, and no red element above a red one. *)
Inductive rbt : nat -> tree (K := K) -> Prop :=
| rbt_leaf : rbt 0 Leaf
| rbt_black n a m k l r : rbt n l -> rbt n r -> rbt (S n) (Node a BLACK m k l r)
| rbt_red n a m k l r : rbt n l -> rbt n r -> root_colour l = BLACK -> root_colour r = BLACK -> rbt n (Node a RED m k l r).

#[local] Hint Constructors rbt : rb.
#[local] Hint Extern 1 (root_colour _ = _) => reflexivity : rb.

Definition step_colour (s : step (K := K)) : Z := match s with InLeft _ c _ _ _ | InRight _ c _ _ _ => c end.

Definition black_top p : Prop := match p with [] => False | s :: _ => step_colour s = BLACK end.

(** The path for a subtree with [n] black elements on every path. *)
Inductive rbp : nat -> path (K := K) -> Prop :=
| rbp_nil n : rbp n []
| rbp_black n s p : step_colour s = BLACK -> rbt n (step_tree s) -> rbp (S n) p -> rbp n (s :: p)
| rbp_red n s p : step_colour s = RED -> rbt n (step_tree s) -> root_colour (step_tree s) = BLACK ->
    black_top p -> rbp n p -> rbp n (s :: p).

Lemma root_colour_grow s t : root_colour (grow s t) = step_colour s.
Proof. by destruct s. Qed.

Lemma plug_rb p : forall n t, rbp n p -> rbt n t -> root_colour t = BLACK \/ black_top p ->
  exists m, rbt m (plug p t) /\ root_colour (plug p t) = BLACK.
Proof.
  induction p as [|s p IH]; intros n t Hp Ht Hc; cbn [plug].
  { exists n. split; [done|]. by destruct Hc. }
  inversion Hp as [|? ? ? Hs Hst Hp'|? ? ? Hs Hst Hb Htop Hp']; subst.
  - apply (IH (S n)); [done| |left; by rewrite root_colour_grow].
    destruct s; cbn in *; subst; by constructor.
  - apply (IH n); [done| |by right]. destruct Hc as [Hc|Hc]; [|cbn in Hc; rewrite Hs in Hc; discriminate].
    destruct s; cbn in *; subst; by constructor.
Qed.

Lemma unplug_rb p : forall m t, rbt m (plug p t) -> root_colour (plug p t) = BLACK ->
  exists n, rbp n p /\ rbt n t /\ (root_colour t = BLACK \/ black_top p).
Proof.
  induction p as [|s p IH]; intros m t Ht Hc; cbn [plug] in *.
  { exists m. split_and!; [constructor|done|by left]. }
  destruct (IH m (grow s t) Ht Hc) as (n & Hp & Hg & Hcol). rewrite root_colour_grow in Hcol.
  destruct s as [a c x k r|a c x k l]; cbn [grow step_colour] in *; inversion Hg; subst.
  all: first [ eexists; split_and!; [apply rbp_black; [done|done|exact Hp]|done|by right]
             | eexists; split_and!; [apply rbp_red; [done|done|done|by destruct Hcol|exact Hp]|done|by left] ].
Qed.

Lemma rbt_colour n t : rbt n t -> root_colour t = BLACK \/ root_colour t = RED.
Proof. intros []; [by left|by left|by right]. Qed.

Lemma rbp_colour n s p : rbp n (s :: p) -> step_colour s = BLACK \/ step_colour s = RED.
Proof. intros H. inversion H; auto. Qed.

Lemma rbt_red_inv n a c x k l r : rbt n (Node a c x k l r) -> c = RED ->
  rbt n l /\ rbt n r /\ root_colour l = BLACK /\ root_colour r = BLACK.
Proof. intros H ->. by inversion H. Qed.

Lemma rbt_black_inv n t : rbt (S n) t -> root_colour t = BLACK ->
  exists a m k l r, t = Node a BLACK m k l r /\ rbt n l /\ rbt n r.
Proof. intros H Hc. inversion H; subst; [by eexists _, _, _, _, _|done]. Qed.

Lemma colour_red t : (root_colour t =? RED) = true -> exists a m k l r, t = Node a RED m k l r.
Proof. destruct t as [|a c m k l r]; [done|]. cbn. intros H. b2p. subst. by eexists _, _, _, _, _. Qed.

(** The outcome of a rebalancing: the same elements in the same order. *)
Definition rebalanced tr tr' t t' : Prop :=
  rep tr' [] t' /\ same_rest tr tr' /\ elems t' = elems t.

(** ** rb_insert *)

Lemma get_colour tr p t e : rep tr p t -> get tr (ptr t) = Some e -> colour e = root_colour t.
Proof. intros H E. rewrite (get_ptr _ _ _ H) in E. injection E as <-. by destruct t. Qed.

Lemma links_tail (ps : list link) s p : links_at ps (s :: p) -> links_at ps p.
Proof. by intros [_ H]. Qed.

Lemma parents_same tr tr' : same_rest tr tr' -> parents tr' = parents tr.
Proof. by intros [H _]. Qed.

(** The state after one round of the loop of rb_insert at the element two steps
    above the place. *)
Definition insert_round tr tr' p bh t (next : option (nat * pointer)) : Prop :=
  same_rest tr tr' /\ exists t', rep tr' p t' /\ rbt bh t' /\ elems t' = elems t /\
  match next with
  | Some (i, x) => i = length p /\ root_colour t' = RED /\ x = ptr t'
  | None => root_colour t' = BLACK
  end.

Lemma element_colour t :
  colour match t with Leaf => mk_element NULL NULL 0 BLACK | Node a c n k l r => mk_element (ptr l) (ptr r) n c end = root_colour t.
Proof. by destruct t. Qed.

Lemma rbt_node_black n t : rbt n t -> (root_colour t =? RED) = false -> root_colour t = BLACK.
Proof. intros H E. destruct (rbt_colour _ _ H) as [C|C]; [done|]. by rewrite C in E. Qed.

(** Two red elements in a row under a black one: both become its children. *)
Lemma recolour_right_rotate tr p i s2 a2 n2 k2 a1 n1 k1 x y z : 
  rep tr p (Node a2 BLACK n2 k2 (Node a1 RED n1 k1 x y) z) -> parent_link tr i 2 = Some s2 -> s2 = link_of p ->
  exists tr', (tr ← set_colour tr (At a1) BLACK; tr ← set_colour tr (At a2) RED; s2 ← parent_link tr i 2;
               tr ← right_rotate tr s2 (At a2); Some (tr, @None (nat * pointer))) = Some (tr', None) /\
    rep tr' p (Node a1 BLACK n1 k1 x (Node a2 RED n2 k2 y z)) /\ same_rest tr tr'.
Proof.
  intros H L ->. op (set_colour_in [InLeft a2 BLACK n2 k2 z] tr p a1 RED n1 k1 x y BLACK H).
  op (set_colour_in [] tr0 p a2 BLACK n2 k2 _ _ RED H0).
  unfold parent_link in *. rewrite (parents_same _ _ S0), (parents_same _ _ S), L. cbn [mbind option_bind].
  op (right_rotate_in [] tr1 p a2 RED n2 k2 z a1 BLACK n1 k1 x y H1).
  eexists. split; [done|]. split; [done|]. by etrans; [|etrans].
Qed.

Lemma recolour_left_rotate tr p i s2 a2 n2 k2 a1 n1 k1 x y z : 
  rep tr p (Node a2 BLACK n2 k2 z (Node a1 RED n1 k1 x y)) -> parent_link tr i 2 = Some s2 -> s2 = link_of p ->
  exists tr', (tr ← set_colour tr (At a1) BLACK; tr ← set_colour tr (At a2) RED; s2 ← parent_link tr i 2;
               tr ← left_rotate tr s2 (At a2); Some (tr, @None (nat * pointer))) = Some (tr', None) /\
    rep tr' p (Node a1 BLACK n1 k1 (Node a2 RED n2 k2 z x) y) /\ same_rest tr tr'.
Proof.
  intros H L ->. op (set_colour_in [InRight a2 BLACK n2 k2 z] tr p a1 RED n1 k1 x y BLACK H).
  op (set_colour_in [] tr0 p a2 BLACK n2 k2 _ _ RED H0).
  unfold parent_link in *. rewrite (parents_same _ _ S0), (parents_same _ _ S), L. cbn [mbind option_bind].
  op (left_rotate_in [] tr1 p a2 RED n2 k2 z a1 BLACK n1 k1 x y H1).
  eexists. split; [done|]. split; [done|]. by etrans; [|etrans].
Qed.

Lemma nodup_places tr p s t : rep tr (s :: p) t -> forall x, x ∈ addrs t -> x ∉ addrs (step_tree s).
Proof.
  intros [_ _ H _] x Hx Hs. apply NoDup_app in H as (_ & H & _). apply (H x Hx). cbn [path_addrs]. right. apply elem_of_app. by left.
Qed.

Lemma rb_insert_left_rep tr p bh s1 a2 n2 k2 r2 a n k l r :
  let t := Node a RED n k l r in
  rep tr (s1 :: InLeft a2 BLACK n2 k2 r2 :: p) t -> links_at (parents tr) (s1 :: InLeft a2 BLACK n2 k2 r2 :: p) ->
  step_colour s1 = RED -> rbt bh t -> rbt bh (step_tree s1) -> root_colour (step_tree s1) = BLACK -> rbt bh r2 ->
  exists tr' next, rb_insert_left tr (length (s1 :: InLeft a2 BLACK n2 k2 r2 :: p)) (At a) (At (step_addr s1)) (At a2) = Some (tr', next) /\
    insert_round tr tr' p (S bh) (grow (InLeft a2 BLACK n2 k2 r2) (grow s1 t)) next.
Proof.
  intros t H Hl Hs1 Ht Hst Hb Hr2. unfold rb_insert_left.
  pose proof (parent_link_1 _ _ _ Hl) as L1. pose proof (parent_link_2 _ _ _ _ Hl) as L2.
  assert (a ∉ addrs (step_tree s1)) as Na by (apply (nodup_places _ _ _ _ H); cbn; apply elem_of_app; right; left).
  pose proof H as H2. rewrite (rep_app tr [s1; InLeft a2 BLACK n2 k2 r2] p t) in H2. cbn [plug grow] in H2.
  assert (get tr (At a2) = Some (mk_element (At (step_addr s1)) (ptr r2) n2 BLACK)) as Eg.
  { rewrite (get_node _ _ _ _ _ _ _ _ H2). by destruct s1. }
  rewrite Eg. cbn [mbind option_bind right].
  rewrite (get_in [InRight a2 BLACK n2 k2 (grow s1 t)] _ _ r2 H2). cbn [mbind option_bind]. rewrite element_colour.
  destruct (root_colour r2 =? RED) eqn:Ec.
  - apply colour_red in Ec as (b & nb & kb & bl & br & ->). apply rbt_red_inv in Hr2 as (R1 & R2 & _ & _); [|done].
    cbn [ptr].
    destruct s1 as [a1 c1 n1 k1 r1|a1 c1 n1 k1 l1]; cbn [step_addr step_colour step_tree grow] in *; subst c1.
    + op (set_colour_in [InLeft a2 BLACK n2 k2 (Node b RED nb kb bl br)] tr p a1 RED n1 k1 _ _ BLACK H2).
      op (set_colour_in [InRight a2 BLACK n2 k2 (Node a1 BLACK n1 k1 t r1)] tr0 p b RED nb kb _ _ BLACK H0).
      op (set_colour_in [] tr1 p a2 BLACK n2 k2 _ _ RED H1). eexists _, _. split; [done|]. split; [by etrans; [|etrans]|].
      eexists. split; [exact H3|]. split_and!; [auto 8 with rb|done|cbn; lia|done|done].
    + op (set_colour_in [InLeft a2 BLACK n2 k2 (Node b RED nb kb bl br)] tr p a1 RED n1 k1 _ _ BLACK H2).
      op (set_colour_in [InRight a2 BLACK n2 k2 (Node a1 BLACK n1 k1 l1 t)] tr0 p b RED nb kb _ _ BLACK H0).
      op (set_colour_in [] tr1 p a2 BLACK n2 k2 _ _ RED H1). eexists _, _. split; [done|]. split; [by etrans; [|etrans]|].
      eexists. split; [exact H3|]. split_and!; [auto 8 with rb|done|cbn; lia|done|done].
  - pose proof (rbt_node_black _ _ Hr2 Ec) as Hb2.
    destruct s1 as [a1 c1 n1 k1 r1|a1 c1 n1 k1 l1]; cbn [step_addr step_colour step_tree grow] in *; subst c1.
    + rewrite (get_in [InLeft a2 BLACK n2 k2 r2] _ _ (Node a1 RED n1 k1 t r1) H2 : get tr (At a1) = _). cbn [mbind option_bind right].
      rewrite same_ptr_false by done. cbn [mbind option_bind].
      destruct (recolour_right_rotate _ _ _ _ _ _ _ _ _ _ _ _ _ H2 L2 eq_refl) as (tr' & -> & H' & S').
      eexists _, _. split; [done|]. split; [done|]. eexists. split; [exact H'|]. split_and!; [auto 8 with rb| |done].
      cbn. by simplify_list_eq.
    + rewrite (get_in [InLeft a2 BLACK n2 k2 r2] _ _ (Node a1 RED n1 k1 l1 t) H2 : get tr (At a1) = _). cbn [mbind option_bind right].
      unfold t at 1. cbn [ptr]. rewrite same_refl, L1. cbn [mbind option_bind link_of].
      op (left_rotate_in [InLeft a2 BLACK n2 k2 r2] tr p a1 RED n1 k1 l1 a RED n k l r H2).
      destruct (recolour_right_rotate tr0 p (length (InRight a1 RED n1 k1 l1 :: InLeft a2 BLACK n2 k2 r2 :: p)) (link_of p) _ _ _ _ _ _ _ _ _ H0)
        as (tr' & -> & H' & S'); [|done|].
      { unfold parent_link in *. by rewrite (parents_same _ _ S). }
      apply rbt_red_inv in Ht as (T1 & T2 & T3 & T4); [|done].
      eexists _, _. split; [done|]. split; [by etrans|]. eexists. split; [exact H'|]. split_and!; [auto 8 with rb| |done].
      cbn. by simplify_list_eq.
Qed.
Lemma rb_insert_right_rep tr p bh s1 a2 n2 k2 l2 a n k l r :
  let t := Node a RED n k l r in
  rep tr (s1 :: InRight a2 BLACK n2 k2 l2 :: p) t -> links_at (parents tr) (s1 :: InRight a2 BLACK n2 k2 l2 :: p) ->
  step_colour s1 = RED -> rbt bh t -> rbt bh (step_tree s1) -> root_colour (step_tree s1) = BLACK -> rbt bh l2 ->
  exists tr' next, rb_insert_right tr (length (s1 :: InRight a2 BLACK n2 k2 l2 :: p)) (At a) (At (step_addr s1)) (At a2) = Some (tr', next) /\
    insert_round tr tr' p (S bh) (grow (InRight a2 BLACK n2 k2 l2) (grow s1 t)) next.
Proof.
  intros t H Hl Hs1 Ht Hst Hb Hr2. unfold rb_insert_right.
  pose proof (parent_link_1 _ _ _ Hl) as L1. pose proof (parent_link_2 _ _ _ _ Hl) as L2.
  assert (a ∉ addrs (step_tree s1)) as Na by (apply (nodup_places _ _ _ _ H); cbn; apply elem_of_app; right; left).
  pose proof H as H2. rewrite (rep_app tr [s1; InRight a2 BLACK n2 k2 l2] p t) in H2. cbn [plug grow] in H2.
  assert (get tr (At a2) = Some (mk_element (ptr l2) (At (step_addr s1)) n2 BLACK)) as Eg.
  { rewrite (get_node _ _ _ _ _ _ _ _ H2). by destruct s1. }
  rewrite Eg. cbn [mbind option_bind left].
  rewrite (get_in [InLeft a2 BLACK n2 k2 (grow s1 t)] _ _ l2 H2). cbn [mbind option_bind]. rewrite element_colour.
  destruct (root_colour l2 =? RED) eqn:Ec.
  - apply colour_red in Ec as (b & nb & kb & br & bl & ->). apply rbt_red_inv in Hr2 as (R1 & R2 & _ & _); [|done].
    cbn [ptr].
    destruct s1 as [a1 c1 n1 k1 l1|a1 c1 n1 k1 r1]; cbn [step_addr step_colour step_tree grow] in *; subst c1. all: revgoals.
    + op (set_colour_in [InRight a2 BLACK n2 k2 (Node b RED nb kb br bl)] tr p a1 RED n1 k1 _ _ BLACK H2).
      op (set_colour_in [InLeft a2 BLACK n2 k2 (Node a1 BLACK n1 k1 r1 t)] tr0 p b RED nb kb _ _ BLACK H0).
      op (set_colour_in [] tr1 p a2 BLACK n2 k2 _ _ RED H1). eexists _, _. split; [done|]. split; [by etrans; [|etrans]|].
      eexists. split; [exact H3|]. split_and!; [auto 8 with rb|done|cbn; lia|done|done].
    + op (set_colour_in [InRight a2 BLACK n2 k2 (Node b RED nb kb br bl)] tr p a1 RED n1 k1 _ _ BLACK H2).
      op (set_colour_in [InLeft a2 BLACK n2 k2 (Node a1 BLACK n1 k1 t l1)] tr0 p b RED nb kb _ _ BLACK H0).
      op (set_colour_in [] tr1 p a2 BLACK n2 k2 _ _ RED H1). eexists _, _. split; [done|]. split; [by etrans; [|etrans]|].
      eexists. split; [exact H3|]. split_and!; [auto 8 with rb|done|cbn; lia|done|done].
  - pose proof (rbt_node_black _ _ Hr2 Ec) as Hb2.
    destruct s1 as [a1 c1 n1 k1 l1|a1 c1 n1 k1 r1]; cbn [step_addr step_colour step_tree grow] in *; subst c1. all: revgoals.
    + rewrite (get_in [InRight a2 BLACK n2 k2 l2] _ _ (Node a1 RED n1 k1 r1 t) H2 : get tr (At a1) = _). cbn [mbind option_bind left].
      rewrite same_ptr_false by done. cbn [mbind option_bind].
      destruct (recolour_left_rotate _ _ _ _ _ _ _ _ _ _ _ _ _ H2 L2 eq_refl) as (tr' & -> & H' & S').
      eexists _, _. split; [done|]. split; [done|]. eexists. split; [exact H'|]. split_and!; [auto 8 with rb| |done].
      cbn. by simplify_list_eq.
    + rewrite (get_in [InRight a2 BLACK n2 k2 l2] _ _ (Node a1 RED n1 k1 t l1) H2 : get tr (At a1) = _). cbn [mbind option_bind left].
      unfold t at 1. cbn [ptr]. rewrite same_refl, L1. cbn [mbind option_bind link_of].
      op (right_rotate_in [InRight a2 BLACK n2 k2 l2] tr p a1 RED n1 k1 l1 a RED n k l r H2).
      destruct (recolour_left_rotate tr0 p (length (InLeft a1 RED n1 k1 l1 :: InRight a2 BLACK n2 k2 l2 :: p)) (link_of p) _ _ _ _ _ _ _ _ _ H0)
        as (tr' & -> & H' & S'); [|done|].
      { unfold parent_link in *. by rewrite (parents_same _ _ S). }
      apply rbt_red_inv in Ht as (T1 & T2 & T3 & T4); [|done].
      eexists _, _. split; [done|]. split; [by etrans|]. eexists. split; [exact H'|]. split_and!; [auto 8 with rb| |done].
      cbn. by simplify_list_eq.
Qed.

(** A red element that is neither the root nor under a black one. *)
Lemma red_parent tr s1 p bh t : rep tr (s1 :: p) t -> rbp bh (s1 :: p) -> step_colour s1 = RED ->
  rbt bh (step_tree s1) /\ root_colour (step_tree s1) = BLACK /\
  exists s2 p', p = s2 :: p' /\ step_colour s2 = BLACK /\ rbt bh (step_tree s2) /\ rbp (S bh) p'.
Proof.
  intros H Hp Hc. inversion Hp as [|? ? ? Hs|? ? ? _ Hr1 Hb1 Htop Hp']; subst; [by rewrite Hc in Hs|].
  split; [done|]. split; [done|]. destruct p as [|s2 p]; [done|]. exists s2, p. cbn [black_top] in Htop.
  inversion Hp' as [|? ? ? _ Hs2 Hp2|? ? ? Hs2]; subst; [done|]. by rewrite Htop in Hs2.
Qed.

(** One round of the loop, on either side. *)
Lemma insert_round_rep tr p bh s1 s2 a n k l r :
  let t := Node a RED n k l r in
  rep tr (s1 :: s2 :: p) t -> links_at (parents tr) (s1 :: s2 :: p) -> step_colour s1 = RED -> step_colour s2 = BLACK ->
  rbt bh t -> rbt bh (step_tree s1) -> root_colour (step_tree s1) = BLACK -> rbt bh (step_tree s2) ->
  exists epar2 tr' next, get tr (At (step_addr s2)) = Some epar2 /\
    (if same (At (step_addr s1)) (left epar2)
     then rb_insert_left tr (length (s1 :: s2 :: p)) (At a) (At (step_addr s1)) (At (step_addr s2))
     else rb_insert_right tr (length (s1 :: s2 :: p)) (At a) (At (step_addr s1)) (At (step_addr s2))) = Some (tr', next) /\
    insert_round tr tr' p (S bh) (grow s2 (grow s1 t)) next.
Proof.
  intros t H Hl Hc1 Hc2 Ht Hst Hb Hst2.
  assert (rep tr (s2 :: p) (grow s1 t)) as H1 by apply (rep_app tr [s1] (s2 :: p) t), H.
  assert (ptr (grow s1 t) = At (step_addr s1)) as Ea by by destruct s1.
  assert (step_addr s1 ∉ addrs (step_tree s2)) as Na.
  { apply (nodup_places _ _ _ _ H1). destruct s1; cbn; apply elem_of_app; right; left. }
  destruct s2 as [a2 c2 n2 k2 r2|a2 c2 n2 k2 l2]; cbn [step_colour step_addr step_tree] in *; subst c2.
  - destruct (rb_insert_left_rep tr p bh s1 a2 n2 k2 r2 a n k l r H Hl Hc1 Ht Hst Hb Hst2) as (tr' & next & E & R).
    apply rep_down_left in H1. rewrite (get_node _ _ _ _ _ _ _ _ H1). eexists _, tr', next. split; [done|]. cbn [left]. by rewrite Ea, same_refl.
  - destruct (rb_insert_right_rep tr p bh s1 a2 n2 k2 l2 a n k l r H Hl Hc1 Ht Hst Hb Hst2) as (tr' & next & E & R).
    apply rep_down_right in H1. rewrite (get_node _ _ _ _ _ _ _ _ H1). eexists _, tr', next. split; [done|]. cbn [left]. by rewrite same_ptr_false.
Qed.

Lemma rb_insert_loop_rep fuel : forall tr p bh a n k l r,
  (length p < fuel)%nat -> rep tr p (Node a RED n k l r) -> links_at (parents tr) p -> rbp bh p -> rbt bh (Node a RED n k l r) ->
  exists tr' t', rb_insert_loop fuel tr (length p) (At a) = Some tr' /\ rebalanced tr tr' (plug p (Node a RED n k l r)) t' /\ exists m, rbt m t'.
Proof.
  induction fuel as [|fuel IH]; intros tr p bh a n k l r Hf H Hl Hp Ht; [lia|]. cbn [rb_insert_loop].
  destruct p as [|s1 p].
  { rewrite (rep_root _ _ H). cbn [ptr]. rewrite same_refl. exists tr, (Node a RED n k l r). split; [done|]. split; [|by exists bh]. by split_and!. }
  pose proof (not_root _ _ _ _ H) as Hnr. cbn [ptr] in Hnr. rewrite Hnr.
  rewrite (parent_at_1 _ _ _ _ H Hl). cbn [mbind option_bind].
  assert (exists e, get tr (At (step_addr s1)) = Some e /\ colour e = step_colour s1) as (e & -> & Ee).
  { pose proof (proj1 (rep_app tr [s1] p _) H) as H1. cbn [plug] in H1. pose proof (get_ptr _ _ _ H1) as E1.
    destruct s1; cbn [grow ptr step_addr] in *; rewrite E1; by eexists. }
  cbn [mbind option_bind]. rewrite Ee.
  destruct (rbp_colour _ _ _ Hp) as [Hc|Hc]; rewrite Hc; cbn [negb Z.eqb RED BLACK].
  { exists tr, (plug (s1 :: p) (Node a RED n k l r)). split; [done|]. split; [split; [by apply rep_plug in H|done]|].
    destruct (plug_rb _ _ _ Hp Ht ltac:(by right)) as (m & Hm & _). by exists m. }
  destruct (red_parent _ _ _ _ _ H Hp Hc) as (Hst & Hb & s2 & p' & -> & Hc2 & Hst2 & Hp'). 
  rewrite (parent_at_2 _ _ _ _ _ H Hl). cbn [mbind option_bind].
  destruct (insert_round_rep tr p' bh s1 s2 a n k l r H Hl Hc Hc2 Ht Hst Hb Hst2) as (epar2 & tr' & next & -> & E & Hs & t' & H' & Ht' & El & Hn).
  cbn [mbind option_bind]. rewrite E. cbn [mbind option_bind].
  assert (elems (plug p' t') = elems (plug (s1 :: s2 :: p') (Node a RED n k l r))) as El' by (cbn [plug]; rewrite !elems_plug; by rewrite El).
  destruct next as [[i x]|].
  - destruct Hn as (-> & Hr & ->). destruct t' as [|b cb nb kb lb rb]; [done|]. cbn [root_colour ptr] in *. subst cb.
    destruct (IH tr' p' (S bh) b nb kb lb rb) as (tr2 & t2 & E2 & (H2 & Hs2 & El2) & Hm).
    + cbn in Hf. lia.
    + done.
    + rewrite (parents_same _ _ Hs). by destruct Hl as (_ & _ & Hl).
    + done.
    + done.
    + exists tr2, t2. split; [done|]. split; [|done]. split_and!; [done|by etrans|congruence].
  - exists tr', (plug p' t'). split; [done|]. split; [split_and!; [by apply rep_plug in H'|done|done]|].
    destruct (plug_rb _ _ _ Hp' Ht' ltac:(by left)) as (m & Hm & _). by exists m.
Qed.

Lemma black_root m t : rbt m t -> t <> Leaf -> exists a c n k l r, t = Node a c n k l r /\ exists m', rbt m' (Node a BLACK n k l r).
Proof. intros H Hn. destruct H; [done|..]; eexists _, _, _, _, _, _; (split; [done|]); eexists; eauto with rb. Qed.

(** rb_insert after a new element was linked at the end of the path. *)
Lemma rb_insert_rep tr p a c n k : rep tr p (Node a c n k Leaf Leaf) -> links_at (parents tr) p -> rbp 0 p ->
  exists tr' t', rb_insert tr (length p) (At a) = Some tr' /\ rebalanced tr tr' (plug p (Node a c n k Leaf Leaf)) t' /\
    root_colour t' = BLACK /\ exists m, rbt m t'.
Proof.
  intros H Hl Hp. unfold rb_insert. op (set_colour_in [] tr p a c n k Leaf Leaf RED H).
  destruct (rb_insert_loop_rep (Datatypes.S (length p)) tr0 p 0 a n k Leaf Leaf) as (tr1 & t1 & -> & (H1 & S1 & El) & m & Hm).
  { lia. } { done. } { by rewrite (parents_same _ _ S). } { done. } { auto with rb. }
  cbn [mbind option_bind].
  assert (t1 <> Leaf) as Hn. { intros ->. rewrite elems_plug in El. cbn in El. by destruct (before p). }
  destruct (black_root m t1 Hm Hn) as (b & cb & nb & kb & lb & rb & -> & m' & Hm'). rewrite (rep_root _ _ H1). cbn [ptr].
  op (set_colour_in [] tr1 [] b cb nb kb lb rb BLACK H1). exists tr2, (Node b BLACK nb kb lb rb). split; [done|].
  split; [split_and!|split; [done|by eexists]].
  - done.
  - by etrans; [|etrans].
  - cbn [elems] in *. rewrite El, !elems_plug. done.
Qed.
End Balance.

#[export] Hint Constructors rbt : rb.
#[export] Hint Extern 1 (root_colour _ = _) => reflexivity : rb.
