(* ===== verification/TreeFixup.v ===== *)
(** * Balanced trees: rb_delete_fixup

    After a black element was taken out, the subtree at the place has a black
    element too few on every path; the loop moves the place up until it can be
    made good, and ends at the latest at the root. *)

From stdpp Require Import prelude list gmap.
From Stdlib Require Import ZArith Lia.
From S2P Require Import Prelude MemRoot Tree TreeRep TreeBalance.

Open Scope Z_scope.

Section Fixup.
Context {K : Type}.
Implicit Types (tr : TREE K) (t l r x w : tree (K := K)) (p q : path (K := K)).

Definition blacken t : tree (K := K) := match t with Leaf => Leaf | Node a c n k l r => Node a BLACK n k l r end.

(** The path expects one black element more than the subtree has, unless the red
    root of the subtree can be made black. *)
Definition fix_ok (bh : nat) p t : Prop :=
  rbp (S bh) p /\
  ((root_colour t = BLACK /\ rbt bh t) \/ (root_colour t = RED /\ rbt (S bh) (blacken t))).

Lemma elems_blacken t : elems (blacken t) = elems t.
Proof. by destruct t. Qed.

(** What one round of the loop leaves: the next place, or a balanced tree. *)
Definition fixup_round tr tr' p t (next : option (nat * pointer)) : Prop :=
  quiet tr tr' /\
  match next with
  | Some (i, y) =>
    exists q t' bh, i = length q /\ y = ptr t' /\ rep tr' q t' /\ links_at (parents tr') q /\ fix_ok bh q t' /\
      elems (plug q t') = elems (plug p t) /\ (root_colour t' = RED \/ (black_top p /\ (length q < length p)%nat)) /\ t' <> Leaf
  | None => exists t' m, rep tr' [] t' /\ rbt m t' /\ root_colour t' = BLACK /\ elems t' = elems (plug p t)
  end.

(** The colour of the element above and what the path above it expects. *)
Lemma above bh s p : rbp (S bh) (s :: p) ->
  rbt (S bh) (step_tree s) /\
  ((step_colour s = BLACK /\ rbp (S (S bh)) p) \/
   (step_colour s = RED /\ root_colour (step_tree s) = BLACK /\ black_top p /\ rbp (S bh) p)).
Proof. intros H. inversion H; subst; auto 10. Qed.

(** A balanced subtree in the place of the parent. *)
Lemma plug_above bh s p t : rbp (S bh) (s :: p) -> root_colour t = step_colour s ->
  rbt (if step_colour s =? BLACK then S (S bh) else S bh) t -> exists m, rbt m (plug p t) /\ root_colour (plug p t) = BLACK.
Proof.
  intros H Hc Ht. destruct (above _ _ _ H) as (_ & [(Hs & Hp)|(Hs & _ & Htop & Hp)]); rewrite Hs in *; cbn in Ht.
  - eapply plug_rb; [exact Hp|done|by left].
  - eapply plug_rb; [exact Hp|done|by right].
Qed.

(** The last rotation, with a red outer child of the sibling. *)
Lemma fixup_left_last tr p i bh a c n k x b nb kb wl d nd kd dl dr :
  rep tr p (Node a c n k x (Node b BLACK nb kb wl (Node d RED nd kd dl dr))) ->
  parent_link tr i 1 = Some (link_of p) -> rbt bh x -> rbt bh wl -> rbt bh dl -> rbt bh dr -> c = BLACK \/ c = RED ->
  exists tr' t',
    (epar ← get tr (At a);
     tr ← set_colour tr (right epar) (colour epar); tr ← set_colour tr (At a) BLACK;
     ew ← get tr (right epar); tr ← set_colour tr (right ew) BLACK;
     s1 ← parent_link tr i 1; tr ← left_rotate tr s1 (At a); Some (tr, @None (nat * pointer))) = Some (tr', None) /\
    rep tr' p t' /\ same_rest tr tr' /\ root_colour t' = c /\ rbt (if c =? BLACK then S (S bh) else S bh) t' /\
    elems t' = elems (Node a c n k x (Node b BLACK nb kb wl (Node d RED nd kd dl dr))).
Proof.
  intros H L Hx Hwl Hdl Hdr Hc. rewrite (get_node _ _ _ _ _ _ _ _ H). cbn [mbind option_bind right ptr colour].
  op (set_colour_in [InRight a c n k x] tr p b BLACK nb kb wl (Node d RED nd kd dl dr) c H).
  op (set_colour_in [] tr0 p a c n k x _ BLACK H0).
  rewrite (get_in [InRight a BLACK n k x] tr1 p (Node b c nb kb wl (Node d RED nd kd dl dr)) H1 : get tr1 (At b) = _). cbn [mbind option_bind right ptr].
  op (set_colour_in [InRight b c nb kb wl; InRight a BLACK n k x] tr1 p d RED nd kd dl dr BLACK H1).
  unfold parent_link in *. rewrite (parents_same _ _ S1), (parents_same _ _ S0), (parents_same _ _ S), L. cbn [mbind option_bind].
  op (left_rotate_in [] tr2 p a BLACK n k x b c nb kb wl (Node d BLACK nd kd dl dr) H2).
  eexists _, _. split; [done|]. split; [exact H3|]. split; [by etrans; [|etrans; [|etrans]]|]. split; [done|]. split.
  - destruct Hc as [->| ->]; cbn [Z.eqb BLACK RED Pos.eqb]; auto 8 with rb.
  - cbn. by simplify_list_eq.
Qed.

(** Both children of the sibling are black: it becomes red. *)
Lemma sibling_red tr tr' p s t t' bh : same_rest tr tr' -> links_at (parents tr) (s :: p) -> rbp (S bh) (s :: p) ->
  rep tr' p t' -> root_colour t' = step_colour s -> rbt (S bh) (blacken t') -> (step_colour s = BLACK -> rbt (S bh) t') ->
  elems t' = elems (grow s t) -> t' <> Leaf ->
  fixup_round tr tr' (s :: p) t (Some ((length (s :: p) - 1)%nat, ptr t')).
Proof.
  intros Hs Hl Hp H Hc Hb Ht El Hn. split; [apply Hs|].
  assert (elems (plug p t') = elems (plug (s :: p) t)) as El' by (cbn [plug]; rewrite !elems_plug; by rewrite El).
  assert (links_at (parents tr') p) as Hl' by (rewrite (parents_same _ _ Hs); by eapply links_tail).
  destruct (above _ _ _ Hp) as (_ & [(Hs' & Hp')|(Hs' & _ & _ & Hp')]); rewrite Hs' in Hc.
  - exists p, t', (S bh). split_and!; try done; [cbn; lia| |right; split; [done|cbn; lia]]. split; [done|]. left. auto.
  - exists p, t', bh. split_and!; try done; [cbn; lia| |by left]. split; [done|]. right. auto.
Qed.

(** The loop ends with a subtree in the place of the parent. *)
Lemma round_end tr tr' p s t t' bh : same_rest tr tr' -> rbp (S bh) (s :: p) ->
  rep tr' p t' -> root_colour t' = step_colour s -> rbt (if step_colour s =? BLACK then S (S bh) else S bh) t' ->
  elems t' = elems (grow s t) -> fixup_round tr tr' (s :: p) t None.
Proof.
  intros Hs Hp H Hc Ht El. split; [apply Hs|]. destruct (plug_above _ _ _ _ Hp Hc Ht) as (m & Hm & Hb).
  exists (plug p t'), m. split_and!; [by apply rep_plug in H|done|done|]. cbn [plug]. rewrite !elems_plug. by rewrite El.
Qed.

Lemma fixup_left_black_rep tr p bh a c n k w x :
  rep tr (InLeft a c n k w :: p) x -> links_at (parents tr) (InLeft a c n k w :: p) -> rbp (S bh) (InLeft a c n k w :: p) ->
  root_colour w = BLACK -> rbt bh x ->
  exists tr' next, fixup_left_black tr (length (InLeft a c n k w :: p)) (At a) = Some (tr', next) /\
    fixup_round tr tr' (InLeft a c n k w :: p) x next.
Proof.
  intros H Hl Hp Hw Hx. pose proof (parent_link_1 _ _ _ Hl) as L1.
  assert (c = BLACK \/ c = RED) as Hc by apply (rbp_colour _ _ _ Hp).
  destruct (above _ _ _ Hp) as (Hrw & _). cbn [step_tree] in Hrw. apply rbt_black_inv in Hrw as (b & nb & kb & wl & wr & -> & Hwl & Hwr); [|done].
  pose proof H as H1. apply rep_down_left in H1. unfold fixup_left_black.
  rewrite (get_node _ _ _ _ _ _ _ _ H1). cbn [mbind option_bind right ptr].
  rewrite (get_in [InRight a c n k x] tr p (Node b BLACK nb kb wl wr) H1 : get tr (At b) = _). cbn [mbind option_bind left right].
  rewrite (get_in [InLeft b BLACK nb kb wr; InRight a c n k x] tr p wl H1). cbn [mbind option_bind].
  rewrite (get_in [InRight b BLACK nb kb wl; InRight a c n k x] tr p wr H1). cbn [mbind option_bind]. rewrite !element_colour.
  destruct (root_colour wr =? BLACK) eqn:Er; [destruct (root_colour wl =? BLACK) eqn:Ewl|]; rewrite ?andb_false_r; cbn [andb]; b2p.
  - op (set_colour_in [InRight a c n k x] tr p b BLACK nb kb wl wr RED H1). eexists _, _. split; [done|].
    apply (sibling_red tr tr0 p (InLeft a c n k (Node b BLACK nb kb wl wr)) x (Node a c n k x (Node b RED nb kb wl wr)) bh); try done.
    + cbn [blacken]. auto with rb.
    + cbn [step_colour]. intros ->. auto with rb.
  - destruct wl as [|d cd nd kd dl dr]; [done|]. cbn [root_colour] in Ewl.
    destruct (rbt_colour _ _ Hwl) as [E|E]; cbn in E; subst cd; [done|]. apply rbt_red_inv in Hwl as (Hdl & Hdr & Hcl & Hcr); [|done]. cbn [ptr].
    op (set_colour_in [InLeft b BLACK nb kb wr; InRight a c n k x] tr p d RED nd kd dl dr BLACK H1).
    op (set_colour_in [InRight a c n k x] tr0 p b BLACK nb kb (Node d BLACK nd kd dl dr) wr RED H0). cbn [right_link mbind option_bind].
    op (right_rotate_in [InRight a c n k x] tr1 p b RED nb kb wr d BLACK nd kd dl dr H2).
    destruct (fixup_left_last tr2 p (length (InLeft a c n k (Node b BLACK nb kb (Node d RED nd kd dl dr) wr) :: p)) bh _ _ _ _ _ _ _ _ _ _ _ _ _ _ H3)
      as (tr3 & t3 & E3 & H4 & S4 & C4 & T4 & El4); try done.
    { unfold parent_link in *. by rewrite (parents_same _ _ S1), (parents_same _ _ S0), (parents_same _ _ S). }
    rewrite E3. eexists _, _. split; [done|]. apply (round_end tr tr3 p (InLeft a c n k (Node b BLACK nb kb (Node d RED nd kd dl dr) wr)) x t3 bh);
      [by etrans; [|etrans; [|etrans]]|done|done|done|done|]. rewrite El4. cbn. by simplify_list_eq.
  - cbn [mbind option_bind]. destruct wr as [|d cd nd kd dl dr]; [done|]. cbn [root_colour] in Er.
    destruct (rbt_colour _ _ Hwr) as [E|E]; cbn in E; subst cd; [done|]. apply rbt_red_inv in Hwr as (Hdl & Hdr & Hcl & Hcr); [|done].
    destruct (fixup_left_last tr p _ bh _ _ _ _ _ _ _ _ _ _ _ _ _ _ H1 L1) as (tr3 & t3 & E3 & H4 & S4 & C4 & T4 & El4); try done.
    rewrite E3. eexists _, _. split; [done|]. by apply (round_end tr tr3 p (InLeft a c n k (Node b BLACK nb kb wl (Node d RED nd kd dl dr))) x t3 bh).
Qed.

Lemma links_at_insert (ps : list link) i s p : (length p < i)%nat -> links_at ps p -> links_at (<[i := s]> ps) p.
Proof.
  induction p as [|s' p IH]; cbn [links_at length]; intros Hi [H1 H2].
  - split; [|done]. by rewrite list_lookup_insert_ne by lia.
  - split; [by rewrite list_lookup_insert_ne by lia|]. apply IH; [lia|done].
Qed.

Lemma links_at_push (ps : list link) s p : (S (length p) < length ps)%nat -> links_at ps p ->
  links_at (<[S (length p) := link_of (s :: p)]> ps) (s :: p).
Proof.
  intros Hi H. split; [by rewrite list_lookup_insert_eq|]. apply links_at_insert; [lia|done].
Qed.

Lemma set_parent_quiet tr i s : (i < length (parents tr))%nat -> exists tr', set_parent tr i s = Some tr' /\
  tr' = with_parents tr (<[i := s]> (parents tr)) /\ quiet tr tr'.
Proof.
  intros Hi. unfold set_parent. destruct (i <? length (parents tr))%nat eqn:E; b2p; [|lia]. eexists. split; [done|]. split; [done|].
  unfold quiet. split_and!; try done. cbn. by rewrite length_insert.
Qed.

Lemma rep_with_parents tr ps p t : rep tr p t -> rep (with_parents tr ps) p t.
Proof. by intros [H1 H2 H3 H4]. Qed.

Lemma fixup_left_red_rep tr p bh a c n k w x :
  rep tr (InLeft a c n k w :: p) x -> links_at (parents tr) (InLeft a c n k w :: p) -> rbp (S bh) (InLeft a c n k w :: p) ->
  (S (S (length p)) < length (parents tr))%nat ->
  exists tr' p' c' w', fixup_left_red tr (length (InLeft a c n k w :: p)) (At a) = Some (tr', length (InLeft a c' n k w' :: p')) /\
    quiet tr tr' /\ rep tr' (InLeft a c' n k w' :: p') x /\ links_at (parents tr') (InLeft a c' n k w' :: p') /\
    rbp (S bh) (InLeft a c' n k w' :: p') /\ root_colour w' = BLACK /\
    elems (plug (InLeft a c' n k w' :: p') x) = elems (plug (InLeft a c n k w :: p) x) /\
    ((c' = c /\ length p' = length p) \/ c' = RED).
Proof.
  intros H Hl Hp Hlen. pose proof (parent_link_1 _ _ _ Hl) as L1.
  pose proof H as H1. apply rep_down_left in H1. unfold fixup_left_red.
  rewrite (get_node _ _ _ _ _ _ _ _ H1). cbn [mbind option_bind right].
  rewrite (get_in [InRight a c n k x] tr p w H1). cbn [mbind option_bind]. rewrite element_colour.
  destruct (above _ _ _ Hp) as (Hw & Habove). cbn [step_tree step_colour] in *.
  destruct (root_colour w =? RED) eqn:E.
  2: { exists tr, p, c, w. split_and!; try done; [by eapply rbt_node_black|by left]. }
  apply colour_red in E as (b & nb & kb & wl & wr & ->). destruct Habove as [(-> & Hp')|(_ & E & _)]; [|done].
  apply rbt_red_inv in Hw as (Hwl & Hwr & Cl & Cr); [|done]. cbn [ptr].
  op (set_colour_in [InRight a BLACK n k x] tr p b RED nb kb wl wr BLACK H1).
  op (set_colour_in [] tr0 p a BLACK n k x (Node b BLACK nb kb wl wr) RED H0).
  unfold parent_link in *. rewrite (parents_same _ _ S0), (parents_same _ _ S), L1. cbn [mbind option_bind].
  op (left_rotate_in [] tr1 p a RED n k x b BLACK nb kb wl wr H2). cbn [left_link mbind option_bind].
  assert (same_rest tr tr2) as S2 by (by etrans; [|etrans]). pose proof (parents_same _ _ S2) as Ep.
  destruct (set_parent_quiet tr2 (length (InLeft a BLACK n k (Node b RED nb kb wl wr) :: p)) (LeftLink b)) as (tr3 & -> & E3 & Q3); [rewrite Ep; cbn; lia|].
  cbn [mbind option_bind].
  destruct (set_parent_quiet tr3 (Datatypes.S (length (InLeft a BLACK n k (Node b RED nb kb wl wr) :: p))) (LeftLink a)) as (tr4 & -> & E4 & Q4).
  { rewrite E3. cbn. rewrite length_insert, Ep. cbn. lia. }
  cbn [mbind option_bind]. exists tr4, (InLeft b BLACK nb kb wr :: p), RED, wl. cbn [length]. split; [done|].
  split; [etrans; [apply S2|by etrans]|]. split.
  { rewrite E4, E3. do 2 apply rep_with_parents. by do 2 apply (proj1 (rep_down_left _ _ _ _ _ _ _ _)). }
  split.
  { rewrite E4, E3. cbn [with_parents parents length]. rewrite Ep. apply (links_at_push _ (InLeft a RED n k wl) (InLeft b BLACK nb kb wr :: p)).
    - rewrite length_insert. cbn. lia.
    - apply (links_at_push _ (InLeft b BLACK nb kb wr) p); [lia|]. by eapply links_tail. }
  split_and!; try done; [|cbn [plug]; rewrite !elems_plug; cbn; by simplify_list_eq|by right].
  apply rbp_red; try done. by apply rbp_black.
Qed.

Lemma fixup_left_rep tr p bh a c n k w x :
  rep tr (InLeft a c n k w :: p) x -> links_at (parents tr) (InLeft a c n k w :: p) -> rbp (S bh) (InLeft a c n k w :: p) ->
  (S (S (length p)) < length (parents tr))%nat -> rbt bh x ->
  exists tr' next, fixup_left tr (length (InLeft a c n k w :: p)) (At a) = Some (tr', next) /\
    fixup_round tr tr' (InLeft a c n k w :: p) x next.
Proof.
  intros H Hl Hp Hlen Hx. unfold fixup_left.
  destruct (fixup_left_red_rep tr p bh a c n k w x H Hl Hp Hlen) as (tr1 & p1 & c1 & w1 & -> & Q1 & H1 & Hl1 & Hp1 & Hw1 & El & Hcase).
  cbn [mbind option_bind].
  destruct (fixup_left_black_rep tr1 p1 bh a c1 n k w1 x H1 Hl1 Hp1 Hw1 Hx) as (tr2 & next & -> & Q2 & R). exists tr2, next. split; [done|].
  split; [by etrans|]. destruct next as [[i y]|].
  - destruct R as (q & t' & bh' & Ei & Ey & H' & Hl' & Hf & Eq & Hdec & Hn). exists q, t', bh'. split_and!; try done; [congruence|].
    destruct Hdec as [Hr|[Hb Hlt]]; [by left|]. cbn [black_top step_colour length] in *.
    destruct Hcase as [[-> Ep]| ->]; [right; split; [done|cbn [length]; lia]|done].
  - destruct R as (t' & m & H' & Ht' & Hb & Eq). exists t', m. split_and!; try done. congruence.
Qed.
Lemma fixup_right_last tr p i bh a c n k x b nb kb wl d nd kd dl dr :
  rep tr p (Node a c n k (Node b BLACK nb kb (Node d RED nd kd dr dl) wl) x) ->
  parent_link tr i 1 = Some (link_of p) -> rbt bh x -> rbt bh wl -> rbt bh dl -> rbt bh dr -> c = BLACK \/ c = RED ->
  exists tr' t',
    (epar ← get tr (At a);
     tr ← set_colour tr (left epar) (colour epar); tr ← set_colour tr (At a) BLACK;
     ew ← get tr (left epar); tr ← set_colour tr (left ew) BLACK;
     s1 ← parent_link tr i 1; tr ← right_rotate tr s1 (At a); Some (tr, @None (nat * pointer))) = Some (tr', None) /\
    rep tr' p t' /\ same_rest tr tr' /\ root_colour t' = c /\ rbt (if c =? BLACK then S (S bh) else S bh) t' /\
    elems t' = elems (Node a c n k (Node b BLACK nb kb (Node d RED nd kd dr dl) wl) x).
Proof.
  intros H L Hx Hwl Hdl Hdr Hc. rewrite (get_node _ _ _ _ _ _ _ _ H). cbn [mbind option_bind left ptr colour].
  op (set_colour_in [InLeft a c n k x] tr p b BLACK nb kb (Node d RED nd kd dr dl) wl c H).
  op (set_colour_in [] tr0 p a c n k _ x BLACK H0).
  rewrite (get_in [InLeft a BLACK n k x] tr1 p (Node b c nb kb (Node d RED nd kd dr dl) wl) H1 : get tr1 (At b) = _). cbn [mbind option_bind left ptr].
  op (set_colour_in [InLeft b c nb kb wl; InLeft a BLACK n k x] tr1 p d RED nd kd dr dl BLACK H1).
  unfold parent_link in *. rewrite (parents_same _ _ S1), (parents_same _ _ S0), (parents_same _ _ S), L. cbn [mbind option_bind].
  op (right_rotate_in [] tr2 p a BLACK n k x b c nb kb (Node d BLACK nd kd dr dl) wl H2).
  eexists _, _. split; [done|]. split; [exact H3|]. split; [by etrans; [|etrans; [|etrans]]|]. split; [done|]. split.
  - destruct Hc as [->| ->]; cbn [Z.eqb BLACK RED Pos.eqb]; auto 8 with rb.
  - cbn. by simplify_list_eq.
Qed.

Lemma fixup_right_black_rep tr p bh a c n k w x :
  rep tr (InRight a c n k w :: p) x -> links_at (parents tr) (InRight a c n k w :: p) -> rbp (S bh) (InRight a c n k w :: p) ->
  root_colour w = BLACK -> rbt bh x ->
  exists tr' next, fixup_right_black tr (length (InRight a c n k w :: p)) (At a) = Some (tr', next) /\
    fixup_round tr tr' (InRight a c n k w :: p) x next.
Proof.
  intros H Hl Hp Hw Hx. pose proof (parent_link_1 _ _ _ Hl) as L1.
  assert (c = BLACK \/ c = RED) as Hc by apply (rbp_colour _ _ _ Hp).
  destruct (above _ _ _ Hp) as (Hrw & _). cbn [step_tree] in Hrw. apply rbt_black_inv in Hrw as (b & nb & kb & wr & wl & -> & Hwr & Hwl); [|done].
  pose proof H as H1. apply rep_down_right in H1. unfold fixup_right_black.
  rewrite (get_node _ _ _ _ _ _ _ _ H1). cbn [mbind option_bind left ptr].
  rewrite (get_in [InLeft a c n k x] tr p (Node b BLACK nb kb wr wl) H1 : get tr (At b) = _). cbn [mbind option_bind left right].
  rewrite (get_in [InRight b BLACK nb kb wr; InLeft a c n k x] tr p wl H1). cbn [mbind option_bind].
  rewrite (get_in [InLeft b BLACK nb kb wl; InLeft a c n k x] tr p wr H1). cbn [mbind option_bind]. rewrite !element_colour.
  destruct (root_colour wr =? BLACK) eqn:Er; [destruct (root_colour wl =? BLACK) eqn:Ewl|]; rewrite ?andb_false_r; cbn [andb]; b2p.
  - op (set_colour_in [InLeft a c n k x] tr p b BLACK nb kb wr wl RED H1). eexists _, _. split; [done|].
    apply (sibling_red tr tr0 p (InRight a c n k (Node b BLACK nb kb wr wl)) x (Node a c n k (Node b RED nb kb wr wl) x) bh); try done.
    + cbn [blacken]. auto with rb.
    + cbn [step_colour]. intros ->. auto with rb.
  - destruct wl as [|d cd nd kd dr dl]; [done|]. cbn [root_colour] in Ewl.
    destruct (rbt_colour _ _ Hwl) as [E|E]; cbn in E; subst cd; [done|]. apply rbt_red_inv in Hwl as (Hdr & Hdl & Hcr & Hcl); [|done]. cbn [ptr].
    op (set_colour_in [InRight b BLACK nb kb wr; InLeft a c n k x] tr p d RED nd kd dr dl BLACK H1).
    op (set_colour_in [InLeft a c n k x] tr0 p b BLACK nb kb wr (Node d BLACK nd kd dr dl) RED H0). cbn [left_link mbind option_bind].
    op (left_rotate_in [InLeft a c n k x] tr1 p b RED nb kb wr d BLACK nd kd dr dl H2).
    destruct (fixup_right_last tr2 p (length (InRight a c n k (Node b BLACK nb kb wr (Node d RED nd kd dr dl)) :: p)) bh _ _ _ _ _ _ _ _ _ _ _ _ _ _ H3)
      as (tr3 & t3 & E3 & H4 & S4 & C4 & T4 & El4); try done.
    { unfold parent_link in *. by rewrite (parents_same _ _ S1), (parents_same _ _ S0), (parents_same _ _ S). }
    rewrite E3. eexists _, _. split; [done|]. apply (round_end tr tr3 p (InRight a c n k (Node b BLACK nb kb wr (Node d RED nd kd dr dl))) x t3 bh);
      [by etrans; [|etrans; [|etrans]]|done|done|done|done|]. rewrite El4. cbn. by simplify_list_eq.
  - cbn [mbind option_bind]. destruct wr as [|d cd nd kd dr dl]; [done|]. cbn [root_colour] in Er.
    destruct (rbt_colour _ _ Hwr) as [E|E]; cbn in E; subst cd; [done|]. apply rbt_red_inv in Hwr as (Hdr & Hdl & Hcr & Hcl); [|done].
    destruct (fixup_right_last tr p _ bh _ _ _ _ _ _ _ _ _ _ _ _ _ _ H1 L1) as (tr3 & t3 & E3 & H4 & S4 & C4 & T4 & El4); try done.
    rewrite E3. eexists _, _. split; [done|]. by apply (round_end tr tr3 p (InRight a c n k (Node b BLACK nb kb (Node d RED nd kd dr dl) wl)) x t3 bh).
Qed.

Lemma fixup_right_red_rep tr p bh a c n k w x :
  rep tr (InRight a c n k w :: p) x -> links_at (parents tr) (InRight a c n k w :: p) -> rbp (S bh) (InRight a c n k w :: p) ->
  (S (S (length p)) < length (parents tr))%nat ->
  exists tr' p' c' w', fixup_right_red tr (length (InRight a c n k w :: p)) (At a) = Some (tr', length (InRight a c' n k w' :: p')) /\
    quiet tr tr' /\ rep tr' (InRight a c' n k w' :: p') x /\ links_at (parents tr') (InRight a c' n k w' :: p') /\
    rbp (S bh) (InRight a c' n k w' :: p') /\ root_colour w' = BLACK /\
    elems (plug (InRight a c' n k w' :: p') x) = elems (plug (InRight a c n k w :: p) x) /\
    ((c' = c /\ length p' = length p) \/ c' = RED).
Proof.
  intros H Hl Hp Hlen. pose proof (parent_link_1 _ _ _ Hl) as L1.
  pose proof H as H1. apply rep_down_right in H1. unfold fixup_right_red.
  rewrite (get_node _ _ _ _ _ _ _ _ H1). cbn [mbind option_bind left].
  rewrite (get_in [InLeft a c n k x] tr p w H1). cbn [mbind option_bind]. rewrite element_colour.
  destruct (above _ _ _ Hp) as (Hw & Habove). cbn [step_tree step_colour] in *.
  destruct (root_colour w =? RED) eqn:E.
  2: { exists tr, p, c, w. split_and!; try done; [by eapply rbt_node_black|by left]. }
  apply colour_red in E as (b & nb & kb & wr & wl & ->). destruct Habove as [(-> & Hp')|(_ & E & _)]; [|done].
  apply rbt_red_inv in Hw as (Hwr & Hwl & Cr & Cl); [|done]. cbn [ptr].
  op (set_colour_in [InLeft a BLACK n k x] tr p b RED nb kb wr wl BLACK H1).
  op (set_colour_in [] tr0 p a BLACK n k (Node b BLACK nb kb wr wl) x RED H0).
  unfold parent_link in *. rewrite (parents_same _ _ S0), (parents_same _ _ S), L1. cbn [mbind option_bind].
  op (right_rotate_in [] tr1 p a RED n k x b BLACK nb kb wr wl H2). cbn [right_link mbind option_bind].
  assert (same_rest tr tr2) as S2 by (by etrans; [|etrans]). pose proof (parents_same _ _ S2) as Ep.
  destruct (set_parent_quiet tr2 (length (InRight a BLACK n k (Node b RED nb kb wr wl) :: p)) (RightLink b)) as (tr3 & -> & E3 & Q3); [rewrite Ep; cbn; lia|].
  cbn [mbind option_bind].
  destruct (set_parent_quiet tr3 (Datatypes.S (length (InRight a BLACK n k (Node b RED nb kb wr wl) :: p))) (RightLink a)) as (tr4 & -> & E4 & Q4).
  { rewrite E3. cbn. rewrite length_insert, Ep. cbn. lia. }
  cbn [mbind option_bind]. exists tr4, (InRight b BLACK nb kb wr :: p), RED, wl. cbn [length]. split; [done|].
  split; [etrans; [apply S2|by etrans]|]. split.
  { rewrite E4, E3. do 2 apply rep_with_parents. by do 2 apply (proj1 (rep_down_right _ _ _ _ _ _ _ _)). }
  split.
  { rewrite E4, E3. cbn [with_parents parents length]. rewrite Ep. apply (links_at_push _ (InRight a RED n k wl) (InRight b BLACK nb kb wr :: p)).
    - rewrite length_insert. cbn. lia.
    - apply (links_at_push _ (InRight b BLACK nb kb wr) p); [lia|]. by eapply links_tail. }
  split_and!; try done; [|cbn [plug]; rewrite !elems_plug; cbn; by simplify_list_eq|by right].
  apply rbp_red; try done. by apply rbp_black.
Qed.

Lemma fixup_right_rep tr p bh a c n k w x :
  rep tr (InRight a c n k w :: p) x -> links_at (parents tr) (InRight a c n k w :: p) -> rbp (S bh) (InRight a c n k w :: p) ->
  (S (S (length p)) < length (parents tr))%nat -> rbt bh x ->
  exists tr' next, fixup_right tr (length (InRight a c n k w :: p)) (At a) = Some (tr', next) /\
    fixup_round tr tr' (InRight a c n k w :: p) x next.
Proof.
  intros H Hl Hp Hlen Hx. unfold fixup_right.
  destruct (fixup_right_red_rep tr p bh a c n k w x H Hl Hp Hlen) as (tr1 & p1 & c1 & w1 & -> & Q1 & H1 & Hl1 & Hp1 & Hw1 & El & Hcase).
  cbn [mbind option_bind].
  destruct (fixup_right_black_rep tr1 p1 bh a c1 n k w1 x H1 Hl1 Hp1 Hw1 Hx) as (tr2 & next & -> & Q2 & R). exists tr2, next. split; [done|].
  split; [by etrans|]. destruct next as [[i y]|].
  - destruct R as (q & t' & bh' & Ei & Ey & H' & Hl' & Hf & Eq & Hdec & Hn). exists q, t', bh'. split_and!; try done; [congruence|].
    destruct Hdec as [Hr|[Hb Hlt]]; [by left|]. cbn [black_top step_colour length] in *.
    destruct Hcase as [[-> Ep]| ->]; [right; split; [done|cbn [length]; lia]|done].
  - destruct R as (t' & m & H' & Ht' & Hb & Eq). exists t', m. split_and!; try done. congruence.
Qed.

Lemma blacken_rep tr q t : rep tr q t ->
  exists tr', set_colour tr (ptr t) BLACK = Some tr' /\ rep tr' q (blacken t) /\ same_rest tr tr'.
Proof.
  intros H. destruct t as [|a c n k l r]; [|by eapply set_colour_rep]. unfold set_colour. pose proof (get_ptr _ _ _ H) as E. cbn [ptr] in *. rewrite E.
  cbn [mbind option_bind set left right count]. eexists. split; [done|]. destruct H as [H1 H2 H3 H4]. split; [by split|]. split; [done|].
  unfold quiet. by split_and!.
Qed.

(** The sibling of a place that is short of a black element is an element. *)
Lemma sibling_not_leaf bh s p t : rbp (S bh) (s :: p) -> step_tree s <> Leaf.
Proof. intros H E. destruct (above _ _ _ H) as [Hs _]. rewrite E in Hs. inversion Hs. Qed.

Lemma fixup_round_rep tr s p bh x :
  rep tr (s :: p) x -> links_at (parents tr) (s :: p) -> rbp (S bh) (s :: p) ->
  (S (S (length p)) < length (parents tr))%nat -> rbt bh x ->
  exists epar tr' next, get tr (At (step_addr s)) = Some epar /\
    (if same (ptr x) (left epar) then fixup_left tr (length (s :: p)) (At (step_addr s))
     else fixup_right tr (length (s :: p)) (At (step_addr s))) = Some (tr', next) /\
    fixup_round tr tr' (s :: p) x next.
Proof.
  intros H Hl Hp Hlen Hx.
  assert (forall y, y ∈ addrs x -> y ∉ addrs (step_tree s)) as Nx by by eapply nodup_places.
  pose proof (sibling_not_leaf _ _ _ x Hp) as Hsib.
  destruct s as [a c n k w|a c n k w]; cbn [step_addr step_tree] in *.
  - destruct (fixup_left_rep tr p bh a c n k w x H Hl Hp Hlen Hx) as (tr' & next & E & R).
    apply rep_down_left in H. rewrite (get_node _ _ _ _ _ _ _ _ H). eexists _, tr', next. split; [done|]. cbn [left]. by rewrite same_refl.
  - destruct (fixup_right_rep tr p bh a c n k w x H Hl Hp Hlen Hx) as (tr' & next & E & R).
    apply rep_down_right in H. rewrite (get_node _ _ _ _ _ _ _ _ H). eexists _, tr', next. split; [done|]. cbn [left].
    assert (same (ptr x) (ptr w) = false) as ->; [|done]. destruct x as [|b cb nb kb lb rb]; [by destruct w|].
    apply same_ptr_false, Nx. cbn. apply elem_of_app. right. left.
Qed.

(** The end of the loop: only the colour of the place has to be set. *)
Definition fixup_done q t : Prop :=
  (q = [] /\ exists m, rbt m t) \/ exists bh, root_colour t = RED /\ rbt (S bh) (blacken t) /\ rbp (S bh) q.

Lemma fixup_loop_rep fuel : forall tr p bh x,
  rep tr p x -> links_at (parents tr) p -> fix_ok bh p x -> (S (length p) < length (parents tr))%nat ->
  (root_colour x = RED /\ (1 <= fuel)%nat) \/ (length p + 2 <= fuel)%nat ->
  exists tr' q t', fixup_loop fuel tr (length p) (ptr x) = Some (tr', ptr t') /\ quiet tr tr' /\ rep tr' q t' /\
    elems (plug q t') = elems (plug p x) /\ fixup_done q t'.
Proof.
  induction fuel as [|fuel IH]; intros tr p bh x H Hl [Hp Hx] Hlen Hfuel; [lia|]. cbn [fixup_loop].
  destruct p as [|s p].
  { rewrite (rep_root _ _ H), same_refl. exists tr, [], x. split_and!; try done.
    destruct Hx as [[_ Hx]|[Hr Hx]]; [left; split; [done|by exists bh]|right; by exists bh]. }
  rewrite (not_root _ _ _ _ H), (get_ptr _ _ _ H). cbn [mbind option_bind]. rewrite element_colour.
  destruct Hx as [[Hb Hx]|[Hr Hx]].
  2: { rewrite Hr. cbn [Z.eqb BLACK RED negb]. exists tr, (s :: p), x. split_and!; try done. right. by exists bh. }
  rewrite Hb. cbn [Z.eqb BLACK Pos.eqb negb]. destruct Hfuel as [[Hc _]|Hfuel]; [by rewrite Hb in Hc|].
  rewrite (parent_at_1 _ _ _ _ H Hl). cbn [mbind option_bind].
  destruct (fixup_round_rep tr s p bh x H Hl Hp Hlen Hx) as (epar & tr1 & next & -> & E & Q1 & R). cbn [mbind option_bind].
  rewrite E. cbn [mbind option_bind].
  assert (length (parents tr1) = length (parents tr)) as El by by unfold quiet in Q1; intuition.
  destruct next as [[i y]|].
  - destruct R as (q & t1 & bh1 & -> & -> & H1 & Hl1 & Hf1 & Eq & Hdec & Hn).
    assert (S (length q) < length (parents tr1) \/ root_colour t1 = RED)%nat as Hcase.
    { destruct Hdec as [Hr|[_ Hlt]]; [by right|]. left. rewrite El. cbn [length] in *. lia. }
    destruct (decide (root_colour t1 = RED)) as [Hr|Hnr].
    + exists tr1, q, t1. destruct Hf1 as [Hp1 [[Hb1 _]|[_ Ht1]]]; [by rewrite Hr in Hb1|].
      split_and!; try done; [|right; by exists bh1]. destruct fuel as [|fuel]; [cbn [length] in Hfuel; lia|]. cbn [fixup_loop].
      rewrite (get_ptr _ _ _ H1). cbn [mbind option_bind]. rewrite element_colour, Hr. cbn [Z.eqb BLACK RED negb]. by destruct (same (ptr t1) (root tr1)).
    + destruct Hcase as [Hcase|Hcase]; [|done]. destruct Hdec as [Hr|[_ Hlt]]; [done|].
      destruct (IH tr1 q bh1 t1 H1 Hl1 Hf1 Hcase) as (tr2 & q2 & t2 & -> & Q2 & H2 & Eq2 & Hd); [right; cbn [length] in *; lia|].
      exists tr2, q2, t2. split_and!; try done; [by etrans|congruence].
  - destruct R as (t1 & m & H1 & Ht1 & Hb1 & Eq). rewrite (rep_root _ _ H1). exists tr1, [], t1. split_and!; try done. left. split; [done|]. by exists m.
Qed.

Lemma rbt_blacken m t : rbt m t -> exists m', rbt m' (blacken t) /\ root_colour (blacken t) = BLACK.
Proof. intros H. destruct H; cbn; eexists; (split; [eauto with rb|done]). Qed.

(** rb_delete_fixup at the end of the path from which an element was taken. *)
Lemma rb_delete_fixup_rep tr p bh x :
  rep tr p x -> links_at (parents tr) p -> fix_ok bh p x -> (S (length p) < length (parents tr))%nat ->
  exists tr' t', rb_delete_fixup tr (length p) = Some tr' /\ quiet tr tr' /\ rep tr' [] t' /\ elems t' = elems (plug p x) /\
    root_colour t' = BLACK /\ exists m, rbt m t'.
Proof.
  intros H Hl Hf Hlen. unfold rb_delete_fixup. unfold parent_at. rewrite (parent_link_0 _ _ Hl). cbn [mbind option_bind].
  rewrite (deref_path tr p (ptr x)) by apply H. cbn [mbind option_bind].
  destruct (fixup_loop_rep (length p + 3) tr p bh x H Hl Hf Hlen ltac:(right; lia)) as (tr1 & q & t1 & -> & Q1 & H1 & Eq & Hd).
  cbn [mbind option_bind]. destruct (blacken_rep _ _ _ H1) as (tr2 & -> & H2 & _ & Q2). exists tr2, (plug q (blacken t1)).
  split; [done|]. split; [by etrans|]. split; [by apply rep_plug in H2|]. split; [rewrite <- Eq, !elems_plug; by rewrite elems_blacken|].
  destruct Hd as [[-> [m Hm]]|(bh1 & Hr & Ht & Hp)].
  - cbn [plug]. destruct (rbt_blacken m t1 Hm) as (m' & Hm' & Hb). eauto.
  - destruct t1 as [|a c n k l r]; [done|]. destruct (plug_rb q _ _ Hp Ht ltac:(by left)) as (m & Hm & Hb). eauto.
Qed.
End Fixup.
