(* ===== verification/TreeOrder.v ===== *)
(** * Balanced trees: height, order and the search for a key

    The height of a red-black tree is at most twice the logarithm of its size, so
    that the array of 64 links is long enough for every tree whose 32 bit counter
    does not overflow.  The elements are in increasing order of their keys, and
    the search of tree_insert and tree_delete ends at the element with the key or
    at the place where it belongs. *)

From stdpp Require Import prelude list gmap sorting.
From Stdlib Require Import ZArith Lia.
From S2P Require Import Prelude MemRoot Tree TreeRep TreeBalance TreeFixup.

Open Scope Z_scope.

(** What the comparison function promises: a total preorder. *)
Class KeyOrder {K : Type} (compare : K -> K -> Z) : Prop := {
  compare_opp a b : 0 < compare b a <-> compare a b < 0;
  compare_trans a b c : compare a b < 0 -> compare b c < 0 -> compare a c < 0;
  compare_eq_lt a b c : compare a b = 0 -> compare b c < 0 -> compare a c < 0;
  compare_lt_eq a b c : compare a b < 0 -> compare b c = 0 -> compare a c < 0
}.

Section Order.
Context {K : Type}.
Implicit Types (tr : TREE K) (t l r : tree (K := K)) (p q : path (K := K)).

(** ** Height *)

Fixpoint height t : nat := match t with Leaf => 0 | Node _ _ _ _ l r => S (height l `max` height r) end.

Lemma height_plug p : forall t, (length p + height t <= height (plug p t))%nat.
Proof.
  induction p as [|s p IH]; intros t; cbn [plug length]; [lia|]. specialize (IH (grow s t)).
  assert (S (height t) <= height (grow s t))%nat by (destruct s; cbn; lia). lia.
Qed.

Lemma rbt_height n t : rbt n t -> (height t <= 2 * n + (if (root_colour t =? RED)%Z then 1 else 0))%nat.
Proof.
  induction 1 as [|n a m k l r Hl IHl Hr IHr|n a m k l r Hl IHl Hr IHr Cl Cr]; cbn [height root_colour]; [lia| |].
  - change (BLACK =? RED) with false. destruct (root_colour l =? RED), (root_colour r =? RED); lia.
  - rewrite Cl in IHl. rewrite Cr in IHr. change (BLACK =? RED) with false in *. change (RED =? RED) with true. cbv iota in *. lia.
Qed.

Lemma rbt_size n t : rbt n t -> (2 ^ n <= length (elems t) + 1)%nat.
Proof.
  induction 1 as [|n a m k l r Hl IHl Hr IHr|n a m k l r Hl IHl Hr IHr Cl Cr]; cbn [elems]; rewrite ?length_app; cbn [length Nat.pow] in *; lia.
Qed.

(** With fewer than 2^32 - 1 elements the links and the one that rb_delete_fixup
    adds fit in the array. *)
Lemma height_bound n t : rbt n t -> root_colour t = BLACK -> Z.of_nat (length (elems t)) + 1 < 2 ^ 32 -> (height t <= 62)%nat.
Proof.
  intros H Hc Hsize. pose proof (rbt_height _ _ H) as Hh. rewrite Hc in Hh. cbn in Hh. pose proof (rbt_size _ _ H) as Hs.
  assert (n <= 31)%nat; [|lia]. apply Nat.nlt_ge. intros Hn.
  assert (2 ^ 32 <= 2 ^ n)%nat as Hp by (apply Nat.pow_le_mono_r; lia). apply inj_le in Hp, Hs. rewrite Nat2Z.inj_pow in Hp. rewrite Nat2Z.inj_add in Hs. cbn in Hp, Hs. lia.
Qed.

(** ** Order *)

Context (compare : K -> K -> Z) `{!KeyOrder compare}.

Definition lt_elem (e1 e2 : Z * Z * K) : Prop := compare e1.2 e2.2 < 0.

Definition sorted t : Prop := StronglySorted lt_elem (elems t).

(** The elements before the key and after the key. *)
Definition below (key : K) (L : list (Z * Z * K)) : Prop := Forall (fun e => compare e.2 key < 0) L.
Definition beyond (key : K) (L : list (Z * Z * K)) : Prop := Forall (fun e => 0 < compare e.2 key) L.

Lemma sorted_app (L1 L2 : list (Z * Z * K)) : StronglySorted lt_elem (L1 ++ L2) <->
  StronglySorted lt_elem L1 /\ StronglySorted lt_elem L2 /\ forall x y, x ∈ L1 -> y ∈ L2 -> lt_elem x y.
Proof. rewrite StronglySorted_app. tauto. Qed.

Lemma sorted_add (L1 L2 : list (Z * Z * K)) a n key : StronglySorted lt_elem (L1 ++ L2) -> below key L1 -> beyond key L2 ->
  StronglySorted lt_elem (L1 ++ (a, n, key) :: L2).
Proof.
  intros (H1 & H2 & H12)%sorted_app Hb Hy. apply sorted_app. unfold below, beyond in *. rewrite Forall_forall in Hb, Hy. split_and!; [done| |].
  - constructor; [done|]. apply Forall_forall. intros e He. unfold lt_elem. cbn. apply compare_opp. by apply Hy.
  - intros x y Hx [->|Hy']%elem_of_cons; [|by apply H12]. by apply Hb.
Qed.

Lemma sorted_remove (L1 L2 : list (Z * Z * K)) e : StronglySorted lt_elem (L1 ++ e :: L2) -> StronglySorted lt_elem (L1 ++ L2).
Proof.
  intros (H1 & H2 & H12)%sorted_app. apply sorted_app. apply StronglySorted_inv in H2 as [H2 _]. split_and!; [done|done|].
  intros x y Hx Hy. apply H12; [done|by right].
Qed.

Lemma sorted_replace (L1 L2 : list (Z * Z * K)) a n n' k : StronglySorted lt_elem (L1 ++ (a, n, k) :: L2) -> StronglySorted lt_elem (L1 ++ (a, n', k) :: L2).
Proof.
  intros (H1 & H2 & H12)%sorted_app. apply StronglySorted_inv in H2 as [H2 H3]. apply sorted_app. split_and!; [done| |].
  - constructor; [done|]. exact H3.
  - intros x y Hx [->|Hy]%elem_of_cons; [apply (H12 x (a, n, k)); [done|left]|apply H12; [done|by right]].
Qed.

(** What lies to the left of an element below the key is below the key. *)
Lemma below_left key (L1 L2 : list (Z * Z * K)) e : StronglySorted lt_elem (L1 ++ e :: L2) -> compare e.2 key < 0 -> below key (L1 ++ [e]).
Proof.
  intros (_ & _ & H12)%sorted_app He. apply Forall_app. split; [|by constructor]. apply Forall_forall. intros x Hx.
  apply (compare_trans _ e.2); [|done]. apply (H12 x e); [done|left].
Qed.

Lemma beyond_right key (L1 L2 : list (Z * Z * K)) e : StronglySorted lt_elem (L1 ++ e :: L2) -> 0 < compare e.2 key -> beyond key (e :: L2).
Proof.
  intros (_ & H2 & _)%sorted_app He. apply StronglySorted_inv in H2 as [_ H2]. constructor; [done|]. rewrite Forall_forall in H2. apply Forall_forall.
  intros x Hx. apply compare_opp. apply (compare_trans _ e.2); [|by apply H2]. by apply compare_opp.
Qed.

(** ** The search *)

Lemma descend_rep key fuel : forall tr p t, (height t < fuel)%nat -> rep tr p t -> links_at (parents tr) p ->
  (length p + height t < length (parents tr))%nat -> sorted t -> below key (before p) -> beyond key (after p) ->
  exists ps q t', descend compare fuel tr (length p) (ptr t) key = Some (with_parents tr ps, length q, ptr t') /\
    rep (with_parents tr ps) q t' /\ links_at ps q /\ length ps = length (parents tr) /\ plug q t' = plug p t /\
    match t' with
    | Leaf => below key (before q) /\ beyond key (after q)
    | Node a c n k l r => compare k key = 0
    end.
Proof.
  induction fuel as [|fuel IH]; intros tr p t Hf H Hl Hlen Hs Hb Hy; [lia|]. cbn [descend].
  destruct t as [|a c n k l r]; cbn [ptr].
  { rewrite same_refl. exists (parents tr), p, Leaf. split_and!; try done. by destruct tr. by destruct tr. }
  assert (same (At a) null_ptr = false) as -> by done.
  rewrite (element_key_node _ _ _ _ _ _ _ _ H), (get_node _ _ _ _ _ _ _ _ H). cbn [mbind option_bind].
  unfold sorted in Hs. cbn [elems] in Hs. cbn [height] in *.
  destruct (compare k key =? 0) eqn:E0; b2p.
  { exists (parents tr), p, (Node a c n k l r). split_and!; try done. by destruct tr. by destruct tr. }
  assert (forall s t', (length (s :: p) + height t' < length (parents tr))%nat -> (height t' < fuel)%nat -> rep tr (s :: p) t' -> sorted t' ->
    below key (before (s :: p)) -> beyond key (after (s :: p)) -> plug (s :: p) t' = plug p (Node a c n k l r) ->
    exists ps q t'', (tr ← set_parent tr (S (length p)) (link_of (s :: p)); descend compare fuel tr (S (length p)) (ptr t') key)
        = Some (with_parents tr ps, length q, ptr t'') /\
      rep (with_parents tr ps) q t'' /\ links_at ps q /\ length ps = length (parents tr) /\ plug q t'' = plug p (Node a c n k l r) /\
      match t'' with Leaf => below key (before q) /\ beyond key (after q) | Node a c n k l r => compare k key = 0 end) as Hstep.
  { intros s t' Hlen' Hf' H' Hs' Hb' Hy' Ep. cbn [length] in Hlen'.
    destruct (set_parent_quiet tr (S (length p)) (link_of (s :: p))) as (tr1 & -> & E1 & _); [lia|]. cbn [mbind option_bind].
    destruct (IH tr1 (s :: p) t') as (ps & q & t'' & E & H2 & Hl2 & Hlen2 & Ep2 & Hend); try done.
    - rewrite E1. by apply rep_with_parents.
    - rewrite E1. cbn [with_parents parents]. apply links_at_push; [lia|done].
    - rewrite E1. cbn [with_parents parents length]. rewrite length_insert. lia.
    - exists ps, q, t''. rewrite E1 in *. cbn [with_parents parents] in *. rewrite length_insert in Hlen2. split_and!; try done. congruence. }
  destruct (compare k key <? 0) eqn:E1; b2p; cbn [left right right_link left_link mbind option_bind].
  - apply (Hstep (InRight a c n k l) r); [cbn; lia|lia|by apply rep_down_right| |  |done|done].
    + apply sorted_app in Hs as (_ & Hs & _). by apply StronglySorted_inv in Hs as [Hs _].
    + cbn [before]. apply Forall_app. split; [done|]. by eapply below_left.
  - apply (Hstep (InLeft a c n k r) l); [cbn; lia|lia|by apply rep_down_left| |done|  |done].
    + by apply sorted_app in Hs as (Hs & _).
    + cbn [after]. apply Forall_app_2 with (l1 := (a, n, k) :: elems r); [|done]. eapply beyond_right; [done|]. cbn. lia.
Qed.
End Order.
