(* ===== verification/TreeInsert.v ===== *)
(** * Balanced trees: tree_insert, delete_tree and reset_tree *)

From stdpp Require Import prelude list gmap sorting.
From Stdlib Require Import ZArith Lia.
From S2P Require Import Prelude MemRoot Tree TreeRep TreeBalance TreeFixup TreeOrder.

Open Scope Z_scope.

Section Freeing.
Context {K : Type}.
Implicit Types (tr : TREE K) (t l r : tree (K := K)).

(** ** The end of a tree *)

(** The calls of the free function for the elements of a tree. *)
Definition frees tr t : list (TREE_FREE * option K) :=
  if has_free tr then map (fun e => (free_free, Some e.2)) (elems t) else [].

Lemma delete_tree_element_rep fuel : forall tr t, (height t < fuel)%nat -> tree_at (heap tr) t -> NoDup (addrs t) ->
  exists h, delete_tree_element fuel tr (ptr t) = Some (with_freed (with_heap tr h) (freed tr ++ frees tr t)) /\
    forall b, h !! b = if with_delete tr && bool_decide (b ∈ addrs t) then None else heap tr !! b.
Proof.
  induction fuel as [|fuel IH]; intros tr t Hf H Hn; [lia|]. cbn [delete_tree_element]. destruct t as [|a c n k l r]; cbn [ptr].
  { rewrite same_refl. exists (heap tr). split; [|intros b; by rewrite andb_false_r]. destruct tr. unfold frees. cbn.
    by case_match; rewrite app_nil_r. }
  assert (same (At a) null_ptr = false) as -> by done. cbn [height tree_at addrs] in *. destruct H as (Ha & Hl & Hr).
  apply NoDup_app in Hn as (Nl & Nlr & (Na & Nr)%NoDup_cons).
  rewrite (get_at _ _ _ _ _ _ _ Ha). unfold node_at in Ha. cbn [element_key]. rewrite Ha. cbn [fmap option_fmap option_map mbind option_bind snd left right].
  destruct (IH tr l) as (h1 & -> & Hh1); [lia|done|done|]. cbn [mbind option_bind].
  set (tr1 := call_free _ _ _).
  assert (tr1 = with_freed (with_heap tr h1) (freed tr ++ frees tr l ++ (if has_free tr then [(free_free, Some k)] else []))) as E1.
  { unfold tr1, call_free. cbn. destruct (has_free tr); [by rewrite (assoc_L app)|]. by rewrite app_nil_r. }
  assert (tree_at h1 r) as Hr1.
  { eapply tree_at_agree; [exact Hr|]. intros b Hb. rewrite Hh1. rewrite bool_decide_eq_false_2; [by rewrite andb_false_r|].
    intros H. apply (Nlr b H). by right. }
  destruct (IH tr1 r) as (h2 & E2 & Hh2); [lia|by rewrite E1|done|]. rewrite E2. cbn [mbind option_bind].
  rewrite E1 in *. cbn [with_freed with_heap heap with_delete freed has_free] in *.
  assert (frees tr (Node a c n k l r) = frees tr l ++ (if has_free tr then [(free_free, Some k)] else []) ++ frees tr r) as Ef.
  { unfold frees. cbn [elems]. destruct (has_free tr); [|done]. by rewrite map_app. }
  assert (h2 !! a = heap tr !! a) as Ea.
  { rewrite Hh2, Hh1. rewrite !bool_decide_eq_false_2, !andb_false_r; [done| |done]. intros H. apply (Nlr a H). left. }
  destruct (with_delete tr) eqn:Hw.
  - cbn [free_element heap with_freed with_heap]. rewrite Ea, Ha. cbn [mbind option_bind]. eexists. split.
    { f_equal. unfold with_freed, with_heap. cbn. f_equal. by rewrite Ef, !(assoc_L app). }
    intros b. cbn [andb]. destruct (decide (b = a)) as [->|Hne].
    { rewrite lookup_delete_eq, bool_decide_eq_true_2; [done|]. set_solver. }
    rewrite lookup_delete_ne, Hh2, Hh1 by done. cbn [andb]. repeat case_bool_decide; try done; set_solver.
  - eexists. split.
    { f_equal. unfold with_freed, with_heap. cbn. f_equal. by rewrite Ef, !(assoc_L app). }
    intros b. cbn [andb]. by rewrite Hh2, Hh1.
Qed.
End Freeing.

Section Insert.
Context {K : Type} (compare : K -> K -> Z) `{!KeyOrder compare}.
Context (my_malloc : list USED_MEM -> Z -> option Z) (malloc_element : gset Z -> Z -> option Z).
Implicit Types (tr : TREE K) (t l r : tree (K := K)) (p q : path (K := K)).

(** ** The invariant *)

(** The elements of a tree without deletion are in pieces of the memory root. *)
Definition memory_ok tr t : Prop :=
  with_delete tr = false -> exists areas, root_ok (mem_root tr) areas /\ Forall (fun a => exists len, 0 < len /\ (a, len) ∈ areas) (addrs t).

Record tree_ok tr t : Prop := {
  to_rep : rep tr [] t;
  to_dom : dom (heap tr) = list_to_set (addrs t);
  to_balance : exists m, rbt m t;
  to_black : root_colour t = BLACK;
  to_sorted : sorted compare t;
  to_size : elements_in_tree tr = Z.of_nat (length (elems t));
  to_fits : elements_in_tree tr < 2 ^ 32;
  to_counts : Forall (fun e => 1 <= e.1.2 < 2 ^ 31) (elems t);
  to_parents : length (parents tr) = MAX_TREE_HEIGHT;
  to_memory : memory_ok tr t
}.

(** What my_malloc promises for an element: memory that is not in use. *)
Definition malloc_fresh : Prop := forall live sz a, malloc_element live sz = Some a -> a ∉ live.

(** The allocation of a new element can be made: the sizes are in range. *)
Definition alloc_fits tr (key_size : Z) : Prop :=
  0 <= key_size /\ 0 <= size_of_element tr /\ sizeof_TREE_ELEMENT + key_size + size_of_element tr < 2 ^ 32 - 24 /\
  (with_delete tr = false -> 0 <= block_size (mem_root tr) * (block_num (mem_root tr) .>> 2) < 2 ^ 32).

Context (Hmalloc : malloc_ok my_malloc) (Hfresh : malloc_fresh).

(** ** A new element *)

Lemma alloc_element_spec tr t sz : memory_ok tr t -> dom (heap tr) = list_to_set (addrs t) ->
  0 < sz < 2 ^ 32 - 24 -> (with_delete tr = false -> 0 <= block_size (mem_root tr) * (block_num (mem_root tr) .>> 2) < 2 ^ 32) ->
  exists res root', alloc_element my_malloc malloc_element tr sz = (res, with_mem_root tr root') /\
    memory_ok (with_mem_root tr root') t /\
    forall a, res = Some a -> (a ∉ dom (heap tr)) /\
      (with_delete tr = false -> exists areas, root_ok root' areas /\ Forall (fun a => exists len, 0 < len /\ (a, len) ∈ areas) (a :: addrs t)).
Proof.
  intros Hm Hd Hsz Hbs. unfold alloc_element. destruct (with_delete tr) eqn:Hw.
  - exists (malloc_element (dom (heap tr)) sz), (mem_root tr). split; [by destruct tr|]. split; [intros H; cbn in H; congruence|].
    intros a Ha. split; [by apply (Hfresh _ sz)|done].
  - destruct (Hm Hw) as (areas & Hr & Hin). pose proof (alloc_root_spec my_malloc (mem_root tr) areas sz Hmalloc Hr ltac:(lia) (Hbs eq_refl)) as Ha.
    destruct (alloc_root my_malloc (mem_root tr) sz) as [[a|] root'].
    + destruct Ha as (Hr' & _ & Hlen). exists (Some a), root'. split; [done|].
      assert (Forall (fun b => exists len, 0 < len /\ (b, len) ∈ (a, ALIGN_SIZE sz) :: areas) (addrs t)) as Hin'.
      { eapply Forall_impl; [exact Hin|]. intros b (len & H1 & H2). exists len. split; [done|by right]. }
      split; [intros _; by eexists|]. intros a' [= <-]. split.
      * rewrite Hd. intros Hx%elem_of_list_to_set. rewrite Forall_forall in Hin. destruct (Hin a Hx) as (len & H1 & H2).
        destruct Hr' as [Hc _]. apply ca_areas, all_apart_cons in Hc as [Hap _]. rewrite Forall_forall in Hap. destruct (Hap _ H2) as [H|H]; cbn in H; lia.
      * intros _. eexists. split; [exact Hr'|]. constructor; [|done]. exists (ALIGN_SIZE sz). split; [lia|left].
    + destruct Ha as (Hr' & _). exists None, root'. split; [done|]. split; [|done]. intros _. by exists areas.
Qed.

(** The new element at the end of a path. *)
Lemma attach tr p a key : rep tr p Leaf -> a ∉ dom (heap tr) -> dom (heap tr) = list_to_set (addrs (plug p Leaf)) ->
  let h := <[a := (mk_element null_ptr null_ptr 1 RED, key)]> (heap tr) in
  exists tr', assign (with_heap tr h) (link_of p) (At a) = Some tr' /\ rep tr' p (Node a RED 1 key Leaf Leaf) /\ same_rest (with_heap tr h) tr'.
Proof.
  intros [_ H2 H3 H4] Ha Hd h. assert (a ∉ path_addrs p) as Np.
  { rewrite Hd in Ha. rewrite elem_of_list_to_set in Ha. intros H. apply Ha. rewrite addrs_plug. apply elem_of_app. by right. }
  destruct (assign_path (with_heap tr h) p null_ptr (At a)) as (tr' & E & Hp & Hs & Hn & Hh).
  { cbn. by apply path_at_insert. }
  { done. }
  exists tr'. split; [done|]. split; [|done]. split; [|done| |by rewrite Hn].
  - cbn. split_and!; try done. unfold node_at. rewrite Hh by done. cbn. unfold h. by rewrite lookup_insert_eq.
  - cbn in *. by constructor.
Qed.

Lemma link_element_rep tr p a key : rep tr p Leaf -> links_at (parents tr) p -> rbp 0 p ->
  a ∉ dom (heap tr) -> dom (heap tr) = list_to_set (addrs (plug p Leaf)) ->
  let h := <[a := (mk_element null_ptr null_ptr 1 RED, key)]> (heap tr) in
  exists tr' t', link_element tr (length p) a key = Some tr' /\ rep tr' [] t' /\ elems t' = before p ++ (a, 1, key) :: after p /\
    root_colour t' = BLACK /\ (exists m, rbt m t') /\ quiet (with_elements (with_heap tr h) (u32 (elements_in_tree tr + 1))) tr'.
Proof.
  intros H Hl Hp Ha Hd h. unfold link_element. fold h.
  rewrite (parent_link_0 (with_heap tr h) p) by done. cbn [mbind option_bind].
  destruct (attach tr p a key H Ha Hd) as (tr1 & E1 & H1 & Hs1). fold h in E1, Hs1. rewrite E1. cbn [mbind option_bind].
  set (tr2 := with_elements tr1 _).
  assert (rep tr2 p (Node a RED 1 key Leaf Leaf)) as H2 by (destruct H1; by split).
  destruct (rb_insert_rep tr2 p a RED 1 key H2) as (tr3 & t3 & E3 & (H3 & Hs3 & El3) & Hb & Hm); [|done|].
  { cbn. by rewrite (parents_same _ _ Hs1). }
  exists tr3, t3. split; [done|]. split; [done|]. split; [by rewrite El3, elems_plug|]. split; [done|]. split; [done|].
  etrans; [|apply Hs3]. destruct Hs1 as [_ Q1]. unfold quiet in *. cbn in *. intuition congruence.
Qed.

(** ** The whole tree *)

Lemma height_elems t : (height t <= length (elems t))%nat.
Proof. induction t as [|a c n k l IHl r IHr]; cbn [height elems]; [lia|]. rewrite length_app. cbn [length]. lia. Qed.

Lemma heap_size tr t : tree_ok tr t -> base.size (heap tr) = length (elems t).
Proof.
  intros H. rewrite <- size_dom, (to_dom _ _ H), size_list_to_set; [by rewrite elems_addrs, length_map|].
  pose proof (rep_nodup _ _ _ (to_rep _ _ H)) as Hn. cbn in Hn. by rewrite app_nil_r in Hn.
Qed.

(** The parameters of a tree that no operation changes. *)
Definition same_settings tr tr' : Prop :=
  offset_to_key tr' = offset_to_key tr /\ size_of_element tr' = size_of_element tr /\ memory_limit tr' = memory_limit tr /\
  with_delete tr' = with_delete tr /\ has_free tr' = has_free tr /\ flag tr' = flag tr.

(** The calls of the free function by free_tree. *)
Definition free_tree_calls tr t : list (TREE_FREE * option K) :=
  if with_delete tr then frees tr t
  else if has_free tr then
    (if memory_limit tr =? 0 then [] else [(free_init, None)]) ++ frees tr t ++ (if memory_limit tr =? 0 then [] else [(free_end, None)])
  else [].

Lemma tree_ok_empty tr : root tr = null_ptr -> null_element tr = mk_element NULL NULL 0 BLACK -> heap tr = ∅ -> elements_in_tree tr = 0 -> length (parents tr) = MAX_TREE_HEIGHT ->
  (with_delete tr = false -> root_ok (mem_root tr) []) -> tree_ok tr Leaf.
Proof.
  intros H Hn Hh He Hp Hm. split; try done.
  - split; [done|done|constructor|done].
  - by rewrite Hh, dom_empty_L.
  - exists O. constructor.
  - constructor.
  - rewrite He. lia.
  - intros Hw. exists []. split; [by apply Hm|constructor].
Qed.

Lemma free_tree_spec tr t flags : tree_ok tr t ->
  exists tr', free_tree tr flags = Some tr' /\ tree_ok tr' Leaf /\ freed tr' = freed tr ++ free_tree_calls tr t /\
    allocated tr' = 0 /\ same_settings tr tr' /\
    (with_delete tr = false -> fst <$> free_root (mem_root tr) flags = Some (mem_root tr')).
Proof.
  intros H. pose proof (to_rep _ _ H) as Hr. pose proof (rep_nodup _ _ _ Hr) as Hn. cbn in Hn. rewrite app_nil_r in Hn.
  pose proof (height_elems t) as Hh. rewrite <- (heap_size _ _ H) in Hh. unfold free_tree. rewrite (rep_root _ _ Hr).
  assert (same (ptr t) NULL = false) as -> by by destruct t.
  assert (forall h : gmap Z (TREE_ELEMENT * K), (forall b, h !! b = if true && bool_decide (b ∈ addrs t) then None else heap tr !! b) -> h = ∅) as Hempty.
  { intros h Hb. apply map_empty. intros b. rewrite Hb. cbn [andb]. case_bool_decide as E; [done|]. apply not_elem_of_dom.
    rewrite (to_dom _ _ H). by rewrite elem_of_list_to_set. }
  pose proof (rep_null _ _ _ Hr) as Hnull. pose proof (to_parents _ _ H) as Hpar. unfold free_tree_calls.
  destruct (with_delete tr) eqn:Hw.
  - destruct (delete_tree_element_rep (S (base.size (heap tr))) tr t ltac:(lia) (rep_tree _ _ _ Hr) Hn) as (h & -> & Hb).
    rewrite Hw in Hb. rewrite (Hempty h Hb). cbn [mbind option_bind]. eexists. split; [done|].
    split; [|by split_and!]. apply tree_ok_empty; try done. cbn. congruence.
  - destruct (to_memory _ _ H Hw) as (areas & Hroot & _). destruct (free_root_ok _ _ flags Hroot) as (r' & fr & Efr & Hr' & Hbs).
    destruct (has_free tr) eqn:Hf.
    + set (tr0 := if negb (memory_limit tr =? 0) then call_free tr free_init None else tr).
      assert (tr0 = with_freed tr (freed tr ++ (if memory_limit tr =? 0 then [] else [(free_init, None)]))) as E0.
      { unfold tr0, call_free. rewrite Hf. destruct (memory_limit tr =? 0); cbn [negb]; [|done]. rewrite app_nil_r. by destruct tr. }
      assert (root tr0 = ptr t) as -> by (rewrite E0; apply (rep_root _ _ Hr)).
      destruct (delete_tree_element_rep (S (base.size (heap tr))) tr0 t) as (h & -> & _); [lia|by rewrite E0; apply Hr|done|]. cbn [mbind option_bind].
      rewrite E0. unfold call_free, frees. cbn [with_freed with_heap memory_limit has_free freed mem_root]. rewrite Hf.
      destruct (memory_limit tr =? 0) eqn:El; cbn [negb with_freed with_heap memory_limit has_free freed mem_root]; rewrite Efr; cbn [mbind option_bind];
        (eexists; split; [done|]; split; [by apply tree_ok_empty|]; split; [cbn; by simplify_list_eq|]; split; [done|]; split; [by unfold same_settings; split_and!|by rewrite ?Efr]).
    + cbn [mbind option_bind]. rewrite Efr. cbn [mbind option_bind]. eexists. split; [done|]. split; [by apply tree_ok_empty|].
      split; [by rewrite app_nil_r|]. split; [done|]. split; [by unfold same_settings; split_and!|by rewrite ?Efr].
Qed.

(** ** tree_insert *)

Lemma tree_ok_parents tr t ps : tree_ok tr t -> length ps = length (parents tr) -> tree_ok (with_parents tr ps) t.
Proof. intros [H1 H2 H3 H4 H5 H6 H7 H8 H9 H10] Hps. split; try done; [by apply rep_with_parents|cbn; congruence]. Qed.

Lemma tree_ok_allocated tr t n : tree_ok tr t -> tree_ok (with_allocated tr n) t.
Proof. intros [H1 H2 H3 H4 H5 H6 H7 H8 H9 H10]. split; try done. destruct H1. by split. Qed.

Lemma tree_ok_height tr t : tree_ok tr t -> elements_in_tree tr + 1 < 2 ^ 32 -> (height t <= 62)%nat.
Proof.
  intros H Hs. destruct (to_balance _ _ H) as [m Hm]. apply (height_bound m); [done|apply (to_black _ _ H)|]. by rewrite <- (to_size _ _ H).
Qed.

Lemma find_path_spec tr t key : tree_ok tr t -> elements_in_tree tr + 1 < 2 ^ 32 ->
  exists ps q t', find_path compare tr key = Some (with_parents tr ps, length q, ptr t') /\ tree_ok (with_parents tr ps) t /\
    rep (with_parents tr ps) q t' /\ links_at ps q /\ plug q t' = t /\
    match t' with
    | Leaf => below compare key (before q) /\ beyond compare key (after q)
    | Node a c n k l r => compare k key = 0
    end.
Proof.
  intros H Hsz. pose proof (tree_ok_height _ _ H Hsz) as Hh. pose proof (to_parents _ _ H) as Hp. unfold find_path.
  destruct (set_parent_quiet tr 0 RootLink) as (tr1 & -> & E1 & _); [rewrite Hp; unfold MAX_TREE_HEIGHT; lia|]. cbn [mbind option_bind].
  assert (rep tr1 [] t) as H1 by (rewrite E1; apply rep_with_parents, H). rewrite (rep_root _ _ H1).
  destruct (descend_rep compare key MAX_TREE_HEIGHT tr1 [] t) as (ps & q & t' & E & H2 & Hl & Hlen & Epl & Hend).
  - unfold MAX_TREE_HEIGHT. lia.
  - done.
  - rewrite E1. cbn. split; [|done]. apply list_lookup_insert_eq. rewrite Hp. unfold MAX_TREE_HEIGHT. lia.
  - rewrite E1. cbn. rewrite length_insert, Hp. unfold MAX_TREE_HEIGHT. lia.
  - apply (to_sorted _ _ H).
  - constructor.
  - constructor.
  - exists ps, q, t'. subst tr1. cbn [with_parents parents] in Hlen. rewrite length_insert in Hlen. split_and!; try done. by apply tree_ok_parents.
Qed.

(** A tree with one element more. *)
Lemma tree_ok_added tr tr' t t' root' p a key : tree_ok tr t -> elements_in_tree tr + 1 < 2 ^ 32 -> t = plug p Leaf ->
  below compare key (before p) -> beyond compare key (after p) ->
  (with_delete tr = false -> exists areas, root_ok root' areas /\ Forall (fun a => exists len, 0 < len /\ (a, len) ∈ areas) (a :: addrs t)) ->
  rep tr' [] t' -> elems t' = before p ++ (a, 1, key) :: after p -> root_colour t' = BLACK -> (exists m, rbt m t') ->
  quiet (with_elements (with_heap (with_mem_root tr root') (<[a := (mk_element null_ptr null_ptr 1 RED, key)]> (heap tr)))
           (u32 (elements_in_tree tr + 1))) tr' ->
  tree_ok tr' t'.
Proof.
  intros H Hsz -> Hb Hy Hm Hr El Hc Hbal Q. pose proof (quiet_dom _ _ Q) as Qd. unfold quiet in Q. cbn in Q, Qd.
  destruct Q as (_ & Qn & _ & _ & _ & Qm & Qw & _ & _ & _ & _ & Qp).
  assert (elems (plug p Leaf) = before p ++ after p) as El0 by by rewrite elems_plug.
  assert (addrs t' ≡ₚ a :: addrs (plug p Leaf)) as Ha.
  { rewrite !elems_addrs, El, El0, !map_app. cbn. by rewrite <- Permutation_middle. }
  pose proof (to_size _ _ H) as Hn. assert (0 <= elements_in_tree tr) by lia.
  split; try done.
  - rewrite Qd, dom_insert_L, (to_dom _ _ H). apply set_eq. intros x. rewrite elem_of_union, elem_of_singleton, !elem_of_list_to_set, Ha, elem_of_cons. done.
  - unfold sorted. rewrite El. apply sorted_add; try done. rewrite <- El0. apply (to_sorted _ _ H).
  - rewrite Qn, u32_small, Hn, El, El0, !length_app by lia. cbn [length]. lia.
  - rewrite Qn, u32_small; lia.
  - rewrite El. pose proof (to_counts _ _ H) as Hcnt. rewrite El0 in Hcnt. apply Forall_app in Hcnt as [C1 C2]. apply Forall_app. split; [done|].
    constructor; [cbn; lia|done].
  - rewrite Qp. apply (to_parents _ _ H).
  - intros Hw. rewrite Qw in Hw. destruct (Hm Hw) as (areas & H1 & H2). exists areas. rewrite Qm. split; [done|]. by rewrite Ha.
Qed.

(** The size of the memory for an element. *)
Definition element_size tr (key_size : Z) : Z := sizeof_TREE_ELEMENT + key_size + size_of_element tr.

(** A key that is not in the tree: the element is added, unless there is no memory. *)
Definition added tr tr' (result : pointer) t' (L1 L2 : list (Z * Z * K)) (key : K) (key_size : Z) : Prop :=
  allocated tr' = u64 (allocated tr + element_size tr key_size) /\
  match fst (alloc_element my_malloc malloc_element tr (element_size tr key_size)) with
  | None => result = NULL /\ elems t' = L1 ++ L2
  | Some a => result = At a /\ elems t' = L1 ++ (a, 1, key) :: L2
  end.

Lemma insert_new tr ps q t key key_size : tree_ok (with_parents tr ps) t -> rep (with_parents tr ps) q Leaf -> links_at ps q -> plug q Leaf = t ->
  below compare key (before q) -> beyond compare key (after q) -> alloc_fits tr key_size -> elements_in_tree tr + 1 < 2 ^ 32 ->
  let tr1 := with_allocated (with_parents tr ps) (u64 (allocated tr + element_size tr key_size)) in
  exists result tr' t',
    match alloc_element my_malloc malloc_element tr1 (element_size tr key_size) with
    | (None, tr) => Some (NULL, tr)
    | (Some a, tr) => tr ← link_element tr (length q) a key; Some (At a, tr)
    end = Some (result, tr') /\
    tree_ok tr' t' /\ same_settings tr tr' /\ freed tr' = freed tr /\ added tr tr' result t' (before q) (after q) key key_size.
Proof.
  intros H Hq Hl Epl Hb Hy (F1 & F2 & F3 & F4) Hsz tr1. 
  assert (tree_ok tr1 t) as H1 by by apply tree_ok_allocated.
  assert (element_size tr key_size = sizeof_TREE_ELEMENT + key_size + size_of_element tr) as Esz by done.
  destruct (alloc_element_spec tr1 t (element_size tr key_size) (to_memory _ _ H1) (to_dom _ _ H1)) as (res & root' & E & Hm & Hres).
  { unfold sizeof_TREE_ELEMENT in *. lia. } { exact F4. }
  assert (fst (alloc_element my_malloc malloc_element tr (element_size tr key_size)) = res) as Eres.
  { apply (f_equal fst) in E. cbn [fst] in E. rewrite <- E. unfold alloc_element. cbn. destruct (with_delete tr); [done|]. by destruct (alloc_root _ _ _). }
  unfold added. rewrite E, Eres. destruct res as [a|].
  - destruct (Hres a eq_refl) as [Ha Hareas].
    assert (rbp 0 q) as Hp.
    { destruct (to_balance _ _ H1) as [m Hbal]. rewrite <- Epl in Hbal. destruct (unplug_rb q m Leaf Hbal) as (n & Hp & Hn & _).
      - rewrite Epl. apply (to_black _ _ H1).
      - by inversion Hn; subst. }
    destruct (link_element_rep (with_mem_root tr1 root') q a key) as (tr2 & t2 & E2 & H2 & El2 & Hc2 & Hbal2 & Q2).
    { destruct Hq. by split. } { done. } { done. } { done. } { cbn. rewrite Epl. apply (to_dom _ _ H1). }
    rewrite E2. cbn [mbind option_bind]. exists (At a), tr2, t2. split; [done|]. split.
    { eapply (tree_ok_added tr1 tr2 t t2 root' q a key); try done. }
    unfold quiet in Q2. cbn in Q2. split; [unfold same_settings; intuition|]. split; [intuition|]. split; [intuition|done].
  - exists NULL, (with_mem_root tr1 root'), t. split; [done|]. split; [|split; [by unfold same_settings; split_and!|]; split; [done|]].
    + destruct H1 as [G1 G2 G3 G4 G5 G6 G7 G8 G9 G10]. split; try done. destruct G1. by split.
    + split; [done|]. split; [done|]. by rewrite <- Epl, elems_plug.
Qed.

(** A key that is in the tree is counted. *)
Lemma count_again tr q a c n k l r n' : tree_ok tr (plug q (Node a c n k l r)) -> rep tr q (Node a c n k l r) -> 1 <= n' < 2 ^ 31 ->
  exists tr', set_count tr (At a) n' = Some tr' /\ tree_ok tr' (plug q (Node a c n' k l r)) /\ same_rest tr tr'.
Proof.
  intros [G1 G2 G3 G4 G5 G6 G7 G8 G9 G10] Hq Hn'. destruct (set_count_rep _ _ _ _ _ _ _ _ n' Hq) as (tr' & E & H' & Hs).
  exists tr'. split; [done|]. split; [|done]. pose proof (quiet_dom _ _ (proj2 Hs)) as Qd. destruct Hs as [Ep Q]. unfold quiet in Q.
  destruct Q as (_ & Qn & _ & _ & _ & Qm & Qw & _ & _ & _ & _ & Qp).
  assert (elems (plug q (Node a c n' k l r)) = (before q ++ elems l) ++ (a, n', k) :: elems r ++ after q) as El'.
  { rewrite elems_plug. cbn [elems]. by simplify_list_eq. }
  assert (elems (plug q (Node a c n k l r)) = (before q ++ elems l) ++ (a, n, k) :: elems r ++ after q) as El.
  { rewrite elems_plug. cbn [elems]. by simplify_list_eq. }
  assert (addrs (plug q (Node a c n' k l r)) = addrs (plug q (Node a c n k l r))) as Ea.
  { rewrite !elems_addrs, El, El', !map_app. done. }
  destruct G3 as [m Hm]. destruct (unplug_rb _ _ _ Hm G4) as (h & Hp & Ht & Hc).
  assert (rbt h (Node a c n' k l r)) as Ht' by (inversion Ht; subst; by constructor).
  destruct (plug_rb _ _ _ Hp Ht' Hc) as (m' & Hm' & Hb').
  split.
  - by apply rep_plug in H'.
  - by rewrite Qd, G2, Ea.
  - by exists m'.
  - done.
  - unfold sorted in *. rewrite El'. rewrite El in G5. by apply sorted_replace with n.
  - rewrite Qn, G6, El, El', !length_app. done.
  - by rewrite Qn.
  - rewrite El'. rewrite El in G8. rewrite !Forall_app, !Forall_cons in *. cbn. tauto.
  - by rewrite Qp.
  - intros Hw. rewrite Qw in Hw. destruct (G10 Hw) as (areas & H1 & H2). exists areas. rewrite Qm, Ea. done.
Qed.

(** The result of tree_insert. *)
Inductive inserted tr t (key : K) (key_size : Z) : pointer -> TREE K -> tree -> Prop :=
| inserted_refused L1 a n k L2 tr' t' : elems t = L1 ++ (a, n, k) :: L2 -> compare k key = 0 -> test (flag tr .& TREE_NO_DUPS) = true ->
    elems t' = elems t -> freed tr' = freed tr -> allocated tr' = allocated tr -> inserted tr t key key_size NULL tr' t'
| inserted_counted L1 a n k L2 tr' t' : elems t = L1 ++ (a, n, k) :: L2 -> compare k key = 0 -> test (flag tr .& TREE_NO_DUPS) = false ->
    elems t' = L1 ++ (a, (n + 1) `min` (2 ^ 31 - 1), k) :: L2 -> freed tr' = freed tr -> allocated tr' = allocated tr ->
    inserted tr t key key_size (At a) tr' t'
| inserted_reset L1 L2 tr0 result tr' t' : elems t = L1 ++ L2 -> below compare key L1 -> beyond compare key L2 ->
    memory_limit tr <> 0 -> elems t <> [] -> memory_limit tr < u64 (allocated tr + element_size tr key_size) ->
    tree_ok tr0 Leaf -> allocated tr0 = 0 -> same_settings tr tr0 -> freed tr' = freed tr ++ free_tree_calls tr t ->
    added tr0 tr' result t' [] [] key key_size -> inserted tr t key key_size result tr' t'
| inserted_added L1 L2 result tr' t' : elems t = L1 ++ L2 -> below compare key L1 -> beyond compare key L2 ->
    memory_limit tr = 0 \/ elems t = [] \/ u64 (allocated tr + element_size tr key_size) <= memory_limit tr ->
    freed tr' = freed tr -> added tr tr' result t' L1 L2 key key_size -> inserted tr t key key_size result tr' t'.

Lemma u32_element tr key_size : alloc_fits tr key_size -> u32 (sizeof_TREE_ELEMENT + key_size + size_of_element tr) = element_size tr key_size.
Proof. intros (F1 & F2 & F3 & _). apply u32_small. unfold element_size, sizeof_TREE_ELEMENT in *. lia. Qed.

(** The insertion of a key when the limit on the memory is not reached. *)
Lemma insert_rec_spec fuel tr t key key_size : tree_ok tr t -> alloc_fits tr key_size -> elements_in_tree tr + 1 < 2 ^ 32 ->
  memory_limit tr = 0 \/ elems t = [] \/ u64 (allocated tr + element_size tr key_size) <= memory_limit tr \/
  Exists (fun e => compare e.2 key = 0) (elems t) ->
  exists result tr' t', tree_insert_rec compare my_malloc malloc_element (S fuel) tr key key_size = Some (result, tr') /\
    tree_ok tr' t' /\ same_settings tr tr' /\ inserted tr t key key_size result tr' t'.
Proof.
  intros H Hfits Hsz Hlim. cbn [tree_insert_rec].
  destruct (find_path_spec tr t key H Hsz) as (ps & q & t0 & -> & H1 & Hq & Hl & Epl & Hend). cbn [mbind option_bind].
  assert (elems t = before q ++ elems t0 ++ after q) as El by by rewrite <- Epl, elems_plug.
  destruct t0 as [|a c n k l r]; cbn [ptr].
  - destruct Hend as [Hb Hy]. rewrite same_refl. cbn [with_parents size_of_element]. rewrite (u32_element _ _ Hfits).
    cbn [with_allocated with_parents memory_limit elements_in_tree allocated].
    assert (memory_limit tr = 0 \/ elems t = [] \/ u64 (allocated tr + element_size tr key_size) <= memory_limit tr) as Hlim'.
    { destruct Hlim as [?|[?|[?|Hex]]]; auto. exfalso. rewrite El in Hex. cbn in Hex. unfold below, beyond in *. rewrite Forall_forall in Hb, Hy.
      apply Exists_exists in Hex as (e & [He|He]%elem_of_app & E0); [specialize (Hb e He)|specialize (Hy e He)]; lia. }
    assert (negb (memory_limit tr =? 0) && negb (elements_in_tree tr =? 0) && (memory_limit tr <? u64 (allocated tr + element_size tr key_size)) = false) as ->.
    { destruct Hlim' as [->|[E|E]]; [done| |].
      - rewrite (to_size _ _ H), E. cbn. by rewrite andb_false_r.
      - destruct (memory_limit tr <? _) eqn:E1; b2p; [lia|]. by rewrite andb_false_r. }
    destruct (insert_new tr ps q t key key_size H1 Hq Hl Epl Hb Hy Hfits Hsz) as (result & tr' & t' & E & H' & Hset & Hfr & Hadd).
    exists result, tr', t'. split; [done|]. split; [done|]. split; [done|]. eapply inserted_added; try done.
  - assert (same (At a) null_ptr = false) as -> by done. cbn [with_parents flag].
    destruct (test (flag tr .& TREE_NO_DUPS)) eqn:Ef.
    + exists NULL, (with_parents tr ps), t. split; [done|]. split; [done|]. split; [by unfold same_settings; split_and!|].
      eapply (inserted_refused _ _ _ _ (before q ++ elems l) a n k (elems r ++ after q)); try done. rewrite El. cbn [elems]. by simplify_list_eq.
    + rewrite (get_node _ _ _ _ _ _ _ _ Hq). cbn [mbind option_bind count].
      assert (1 <= n < 2 ^ 31) as Hn.
      { pose proof (to_counts _ _ H) as Hc. rewrite El in Hc. cbn [elems] in Hc. rewrite !Forall_app, Forall_cons in Hc. cbn in Hc. tauto. }
      assert ((if (n + 1) mod 2 ^ 31 =? 0 then 2 ^ 31 - 1 else (n + 1) mod 2 ^ 31) = (n + 1) `min` (2 ^ 31 - 1)) as En.
      { destruct (decide (n = 2 ^ 31 - 1)) as [->|]; [done|]. rewrite Z.mod_small by lia. case_if; lia. }
      rewrite <- Epl in H1. destruct (count_again _ _ _ _ _ _ _ _ ((n + 1) `min` (2 ^ 31 - 1)) H1 Hq) as (tr' & E & H' & Hs); [lia|].
      rewrite En, E. cbn [mbind option_bind]. eexists _, tr', _. split; [done|]. split; [done|]. destruct Hs as [_ Q]. unfold quiet in Q. cbn in Q.
      split; [unfold same_settings; intuition|].
      eapply (inserted_counted _ _ _ _ (before q ++ elems l) a n k (elems r ++ after q)); try done; [| |intuition..].
      * rewrite El. cbn [elems]. by simplify_list_eq.
      * rewrite elems_plug. cbn [elems]. by simplify_list_eq.
Qed.

Lemma inserted_in_empty tr key key_size result tr' t' : inserted tr Leaf key key_size result tr' t' ->
  added tr tr' result t' [] [] key key_size /\ freed tr' = freed tr.
Proof.
  intros H. inversion H as [? ? ? ? ? ? ? E|? ? ? ? ? ? ? E|? ? ? ? ? ? E _ _ _ Hne|? ? ? ? ? E]; subst; try by destruct L1.
  symmetry in E. apply app_eq_nil in E as [-> ->]. done.
Qed.

(** C4.  tree_insert on a tree that satisfies the invariant returns, and the tree
    satisfies the invariant afterwards: it is a red-black tree in the order of the
    keys, made of exactly the elements in memory.  A key that is in the tree is
    counted, with a count that stays at its maximum, or refused when duplicates
    are not allowed.  A new key is added in its place with a count of 1, or NULL
    is returned when there is no memory.  When the memory limit would be exceeded
    the free function is first called for every element in order and the tree
    emptied.  The array of links is long enough for every tree with fewer than
    2^32 - 1 elements. *)
Theorem tree_insert_correct tr t key key_size : tree_ok tr t -> alloc_fits tr key_size -> elements_in_tree tr + 1 < 2 ^ 32 ->
  exists result tr' t', tree_insert compare my_malloc malloc_element tr key key_size = Some (result, tr') /\
    tree_ok tr' t' /\ same_settings tr tr' /\ inserted tr t key key_size result tr' t'.
Proof.
  intros H Hfits Hsz. unfold tree_insert.
  destruct (find_path_spec tr t key H Hsz) as (ps & q & t0 & Efp & H1 & Hq & Hl & Epl & Hend).
  assert (elems t = before q ++ elems t0 ++ after q) as El by by rewrite <- Epl, elems_plug.
  destruct t0 as [|a c n k l r].
  2: { apply insert_rec_spec; try done. right. right. right. rewrite El. cbn [elems]. rewrite !Exists_app, Exists_cons. cbn. tauto. }
  destruct (decide (memory_limit tr = 0)) as [?|Hml]; [apply insert_rec_spec; tauto|].
  destruct (decide (length (elems t) = O)) as [?%nil_length_inv|Hne]; [apply insert_rec_spec; tauto|].
  destruct (Z_le_gt_dec (u64 (allocated tr + element_size tr key_size)) (memory_limit tr)) as [?|Hgt]; [apply insert_rec_spec; tauto|].
  change 2%nat with (S 1). cbn [tree_insert_rec]. rewrite Efp. cbn [mbind option_bind ptr]. rewrite same_refl.
  cbn [with_parents size_of_element]. rewrite (u32_element _ _ Hfits). cbn [with_allocated with_parents memory_limit elements_in_tree allocated].
  assert (negb (memory_limit tr =? 0) && negb (elements_in_tree tr =? 0) && (memory_limit tr <? u64 (allocated tr + element_size tr key_size)) = true) as ->.
  { rewrite (to_size _ _ H). rewrite !andb_true_iff, !negb_true_iff, !Z.eqb_neq, Z.ltb_lt. lia. }
  set (tr1 := with_allocated (with_parents tr ps) _). assert (tree_ok tr1 t) as H2 by by apply tree_ok_allocated.
  destruct (free_tree_spec tr1 t MY_MARK_BLOCKS_FREE H2) as (tr0 & E0 & H0 & Hfr & Hal & Hset & Hroot). unfold reset_tree. rewrite E0. cbn [mbind option_bind].
  assert (alloc_fits tr0 key_size) as Hfits0.
  { destruct Hfits as (F1 & F2 & F3 & F4), Hset as (_ & Es & _ & Ew & _). unfold alloc_fits. rewrite Es, Ew. split_and!; try done.
    intros Hw. specialize (F4 Hw). specialize (Hroot Hw). cbn in Hroot. injection Hroot as <-. exact F4. }
  destruct (insert_rec_spec 0 tr0 Leaf key key_size H0 Hfits0) as (result & tr' & t' & E' & H' & Hset' & Hins).
  { rewrite (to_size _ _ H0). cbn. lia. } { by right; left. }
  exists result, tr', t'. split; [done|]. split; [done|].
  assert (same_settings tr tr0) as Hset0 by exact Hset.
  split; [unfold same_settings in *; intuition congruence|].
  destruct (inserted_in_empty _ _ _ _ _ _ Hins) as [Hadd Efr]. destruct Hend as [Hb Hy].
  eapply (inserted_reset _ _ _ _ (before q) (after q) tr0); try done; [|lia|].
  - intros E. by rewrite E in Hne.
  - rewrite Efr, Hfr. done.
Qed.
End Insert.
