(* ===== verification/TreeDelete.v ===== *)
(** * Balanced trees: tree_delete *)

From stdpp Require Import prelude list gmap sorting.
From Stdlib Require Import ZArith Lia.
From S2P Require Import Prelude MemRoot Tree TreeRep TreeBalance TreeFixup TreeOrder TreeInsert.

Open Scope Z_scope.

Section Delete.
Context {K : Type} (compare : K -> K -> Z) `{!KeyOrder compare}.
Implicit Types (tr : TREE K) (t l r : tree (K := K)) (p q : path (K := K)).

(** ** Paths along left links *)

Definition left_step (s : step (K := K)) : Prop := match s with InLeft _ _ _ _ _ => True | InRight _ _ _ _ _ => False end.

Lemma leftmost_rep fuel : forall tr p a c n k l r, (height (Node a c n k l r) <= fuel)%nat -> rep tr p (Node a c n k l r) -> links_at (parents tr) p ->
  (length p + height (Node a c n k l r) <= length (parents tr))%nat ->
  exists ps q b cb nb kb br, leftmost fuel tr (length p) (At a) = Some (with_parents tr ps, length (q ++ p), At b) /\
    rep (with_parents tr ps) (q ++ p) (Node b cb nb kb Leaf br) /\ links_at ps (q ++ p) /\ length ps = length (parents tr) /\
    plug q (Node b cb nb kb Leaf br) = Node a c n k l r /\ Forall left_step q /\ ps !! length p = parents tr !! length p /\
    (forall i, (i <= length p)%nat -> ps !! i = parents tr !! i).
Proof.
  induction fuel as [|fuel IH]; intros tr p a c n k l r Hf H Hl Hlen; [cbn in Hf; lia|]. cbn [leftmost].
  rewrite (get_node _ _ _ _ _ _ _ _ H). cbn [mbind option_bind left].
  destruct l as [|a' c' n' k' l' r']; cbn [ptr].
  { rewrite same_refl. exists (parents tr), [], a, c, n, k, r. cbn [app]. split_and!; try done; by destruct tr. }
  assert (same (At a') null_ptr = false) as -> by done. cbn [left_link mbind option_bind height] in *.
  destruct (set_parent_quiet tr (S (length p)) (LeftLink a)) as (tr1 & -> & E1 & _); [lia|]. cbn [mbind option_bind].
  destruct (IH tr1 (InLeft a c n k r :: p) a' c' n' k' l' r') as (ps & q & b & cb & nb & kb & br & E & H2 & Hl2 & Hlen2 & Epl & Hq & _ & Hlow).
  - cbn [height]. lia.
  - rewrite E1. apply rep_with_parents. by apply (proj1 (rep_down_left _ _ _ _ _ _ _ _)).
  - rewrite E1. cbn [with_parents parents]. apply (links_at_push _ (InLeft a c n k r) p); [lia|done].
  - rewrite E1. cbn [with_parents parents length height]. rewrite length_insert. lia.
  - subst tr1. cbn [with_parents parents length] in *. rewrite length_insert in Hlen2.
    exists ps, (q ++ [InLeft a c n k r]), b, cb, nb, kb, br. rewrite <- app_assoc. cbn [app]. split_and!; try done.
    + rewrite plug_app, Epl. done.
    + apply Forall_app. split; [done|]. by constructor.
    + rewrite Hlow by lia. by apply list_lookup_insert_ne; lia.
    + intros i Hi. rewrite Hlow by lia. by apply list_lookup_insert_ne; lia.
Qed.

Lemma before_left q p : Forall left_step q -> before (q ++ p) = before p.
Proof. induction 1 as [|[a c n k r|a c n k l] q Hs Hq IH]; [done| |done]. exact IH. Qed.

Lemma elems_left q : Forall left_step q -> forall t, elems (plug q t) = elems t ++ after q.
Proof. intros H t. rewrite elems_plug. replace (before q) with (@nil (Z * Z * K)); [done|]. pose proof (before_left q [] H) as E. by rewrite app_nil_r in E. Qed.

(** ** Taking an element out *)

(** A step of a path with the same colour and subtree. *)
Lemma rbp_replace q : forall n s s' p, step_colour s' = step_colour s -> step_tree s' = step_tree s -> rbp n (q ++ s :: p) -> rbp n (q ++ s' :: p).
Proof.
  induction q as [|s0 q IH]; intros n s s' p Hc Ht H; cbn [app] in *.
  - inversion H; subst; [apply rbp_black|apply rbp_red]; by rewrite ?Hc, ?Ht.
  - inversion H as [|? ? ? H1 H2 H3|? ? ? H1 H2 H3 H4 H5]; subst; [apply rbp_black|apply rbp_red]; try done; [by eapply IH| |by eapply IH].
    destruct q; cbn in *; [by rewrite Hc|done].
Qed.

Lemma links_at_replace q : forall (ps : list link) s s' p, (S (length p) < length ps)%nat -> links_at ps (q ++ s :: p) ->
  links_at (<[S (length p) := link_of (s' :: p)]> ps) (q ++ s' :: p).
Proof.
  induction q as [|s0 q IH]; intros ps s s' p Hlen H; cbn [app] in *.
  - apply links_at_push; [done|]. by apply links_tail in H.
  - destruct H as [H1 H2]. split; [|by apply (IH _ s)]. cbn [length] in *. rewrite length_app in *. cbn [length] in *.
    rewrite list_lookup_insert_ne by lia. rewrite H1. by destruct s0.
Qed.

(** An element that is not in the tree takes the place of another one. *)
Lemma replace_node tr p a c n k l t b lb rb nb cb kb : rep tr p (Node a c n k l t) -> node_at (heap tr) b lb rb nb cb kb ->
  b ∉ addrs (Node a c n k l t) ++ path_addrs p ->
  exists tr1, assign tr (link_of p) (At b) = Some tr1 /\ same_rest tr tr1 /\ get tr1 (At a) = Some (mk_element (ptr l) (ptr t) n c) /\
  forall ps, exists tr', (tr ← set_left (with_parents tr1 ps) (At b) (ptr l); tr ← set_right tr (At b) (ptr t); set_colour tr (At b) c) = Some tr' /\
    rep tr' p (Node b c nb kb l t) /\ same_rest (with_parents tr1 ps) tr'.
Proof.
  intros [(Ha & Hl & Ht) Hp Hn Hnull] Hb Nb. pose proof (nodup_node _ _ _ _ _ _ _ Hn) as (N1 & N2 & N3).
  assert (b <> a /\ (b ∉ addrs l) /\ (b ∉ addrs t) /\ (b ∉ path_addrs p)) as (B0 & B1 & B2 & B3).
  { apply not_elem_of_app in Nb as [Nb B3]. cbn in Nb. apply not_elem_of_app in Nb as [B1 Nb]. apply not_elem_of_cons in Nb. tauto. }
  assert (NoDup (path_addrs p)) as Np by (by apply NoDup_app in Hn as (_ & _ & Hn)).
  assert (forall x, x ∈ addrs l \/ x ∈ addrs t \/ x = a -> x ∉ path_addrs p) as Nx.
  { intros x Hx. apply NoDup_app in Hn as (_ & Hn & _). apply Hn. cbn. set_solver. }
  destruct (assign_path tr p (At a) (At b) Hp Np) as (tr1 & E1 & Hp1 & Hs1 & Hn1 & Hh1). exists tr1. split; [done|]. split; [done|]. split.
  { eapply get_at. unfold node_at. rewrite Hh1 by auto. exact Ha. }
  intros ps. set (tr1' := with_parents tr1 ps).
  assert (node_at (heap tr1') b lb rb nb cb kb) as Hb1 by (unfold node_at, tr1'; cbn; by rewrite Hh1).
  destruct (set_left_at _ _ _ _ _ _ _ (ptr l) Hb1) as (tr2 & -> & Hh2 & Hr2 & Hn2 & Hs2). cbn [mbind option_bind].
  assert (node_at (heap tr2) b (ptr l) rb nb cb kb) as Hb2 by (unfold node_at; rewrite Hh2; apply lookup_insert_eq).
  destruct (set_right_at _ _ _ _ _ _ _ (ptr t) Hb2) as (tr3 & -> & Hh3 & Hr3 & Hn3 & Hs3). cbn [mbind option_bind].
  assert (rep tr3 p (Node b cb nb kb l t)) as H3.
  { assert (forall s, b ∉ addrs s -> (forall x, x ∈ addrs s -> x ∉ path_addrs p) -> tree_at (heap tr) s -> tree_at (heap tr3) s) as Hkeep.
    { intros s Ns Nxs Hs. rewrite Hh3, Hh2, insert_insert_eq. apply tree_at_insert; [done|]. cbn. eapply tree_at_agree; [exact Hs|]. intros x Hx. by apply Hh1, Nxs. }
    split.
    - cbn [tree_at]. split; [unfold node_at; rewrite Hh3; apply lookup_insert_eq|]. split; apply Hkeep; auto.
    - rewrite Hr3, Hr2. rewrite Hh3, Hh2, insert_insert_eq. by apply path_at_insert.
    - eapply nodup_perm with (b :: addrs l ++ addrs t ++ path_addrs p); [|cbn; solve_Permutation].
      apply NoDup_cons. split; [rewrite !not_elem_of_app; tauto|].
      eapply nodup_perm in Hn; [|cbn; apply (Permutation_app_tail _ (Permutation_sym (Permutation_middle _ _ _)))].
      cbn in Hn. apply NoDup_cons in Hn as [_ Hn]. by rewrite <- app_assoc in Hn.
    - rewrite Hn3, Hn2. unfold tr1'. cbn. congruence. }
  destruct (set_colour_rep _ _ _ _ _ _ _ _ c H3) as (tr4 & -> & H4 & Hs4). exists tr4. split; [done|]. split; [done|]. by etrans; [|etrans].
Qed.

(** The subtree [x] is all that is below an element. *)
Definition only_child l r x : Prop := (l = Leaf /\ x = r) \/ (r = Leaf /\ x = l).

Lemma splice tr q a c n k l r x : rep tr q (Node a c n k l r) -> only_child l r x ->
  exists tr', assign tr (link_of q) (ptr x) = Some tr' /\ rep tr' q x /\ same_rest tr tr' /\
    (forall b, b ∉ path_addrs q -> heap tr' !! b = heap tr !! b).
Proof.
  intros [(Ha & Hl & Hr) Hp Hn Hnull] Hx.
  assert (addrs (Node a c n k l r) ++ path_addrs q ≡ₚ a :: addrs x ++ path_addrs q) as E.
  { destruct Hx as [[-> ->]|[-> ->]]; cbn; [done|]. solve_Permutation. }
  rewrite E in Hn. apply NoDup_cons in Hn as [_ Hn]. pose proof Hn as (_ & Nx & Np)%NoDup_app.
  destruct (assign_path tr q (At a) (ptr x) Hp Np) as (tr' & E1 & Hp1 & Hs1 & Hn1 & Hh1). exists tr'. split; [done|]. split; [|done].
  split; [|done|done|congruence]. eapply tree_at_agree; [|intros b Hb; by apply Hh1, Nx]. by destruct Hx as [[_ ->]|[_ ->]].
Qed.

(** What is left to be done when an element of colour [rc] is missing. *)
Definition after_removal (rc : Z) q x : Prop :=
  if rc =? BLACK then exists bh, fix_ok bh q x else root_colour (plug q x) = BLACK /\ exists m, rbt m (plug q x).

Lemma removed_balance h q a c n k l r x : rbp h q -> rbt h (Node a c n k l r) -> only_child l r x -> after_removal c q x.
Proof.
  intros Hp Ht Hx. unfold after_removal. inversion Ht as [|h' ? ? ? ? ? Hl Hr|? ? ? ? ? ? Hl Hr Cl Cr]; subst.
  - change (BLACK =? BLACK) with true. cbv iota. exists O.
    assert (h' = O /\ rbt 0 x) as [-> Hx0] by (destruct Hx as [[-> ->]|[-> ->]]; [inversion Hl|inversion Hr]; by subst). split; [done|].
    destruct (rbt_colour _ _ Hx0) as [C|C]; [by left|right]. split; [done|]. destruct x as [|b cb nb kb lb rb]; [done|]. cbn in C. subst cb.
    apply rbt_red_inv in Hx0 as (X1 & X2 & _); [|done]. cbn. by constructor.
  - change (RED =? BLACK) with false. cbv iota.
    assert (rbt h x /\ root_colour x = BLACK) as [Hx0 Cx] by (by destruct Hx as [[-> ->]|[-> ->]]).
    destruct (plug_rb q h x Hp Hx0 ltac:(by left)) as (m & Hm & Hb). eauto.
Qed.

Lemma same_not_leaf t : t <> Leaf -> same (ptr t) null_ptr = false.
Proof. by destruct t. Qed.

(** The element after [a] in order, the leftmost one on its right, takes its place. *)
Lemma unlink_between tr q m a c n k l r : l <> Leaf -> r <> Leaf -> rep tr q (Node a c n k l r) -> links_at (parents tr) q ->
  rbt m (plug q (Node a c n k l r)) -> root_colour (plug q (Node a c n k l r)) = BLACK -> (length q + height (Node a c n k l r) < length (parents tr))%nat ->
  (height (Node a c n k l r) <= MAX_TREE_HEIGHT)%nat ->
  exists tr' q' x rc, unlink_element tr (length q) (At a) = Some (tr', length q', rc) /\ quiet tr tr' /\ rep tr' q' x /\
    links_at (parents tr') q' /\ (length q' < length q + height (Node a c n k l r))%nat /\
    elems (plug q' x) = before q ++ elems l ++ elems r ++ after q /\ after_removal rc q' x.
Proof.
  intros Nl Nr H Hl Ht Hc Hlen Hh. unfold unlink_element. rewrite (get_node _ _ _ _ _ _ _ _ H), (parent_link_0 _ _ Hl). cbn [mbind option_bind left right].
  rewrite !same_not_leaf by done. cbn [right_link mbind option_bind].
  destruct r as [|a' c' n' k' l' r']; [done|]. cbn [height] in Hlen, Hh.
  destruct (set_parent_quiet tr (S (length q)) (RightLink a)) as (tr1 & -> & E1 & Q1); [lia|]. cbn [mbind option_bind].
  destruct (leftmost_rep MAX_TREE_HEIGHT tr1 (InRight a c n k l :: q) a' c' n' k' l' r') as (ps & qs & b & cb & nb & kb & br & E2 & H2 & Hl2 & Hlen2 & Epl & Hqs & _ & Hlow).
  { cbn [height]. lia. }
  { rewrite E1. apply rep_with_parents. by apply (proj1 (rep_down_right _ _ _ _ _ _ _ _)). }
  { rewrite E1. cbn [with_parents parents]. apply (links_at_push _ (InRight a c n k l) q); [lia|done]. }
  { rewrite E1. cbn [with_parents parents length height]. rewrite length_insert. lia. }
  cbn [length ptr] in E2. cbn [ptr]. rewrite E2. cbn [mbind option_bind]. set (tr2 := with_parents tr1 ps) in *.
  assert (quiet tr tr2) as Q2. { etrans; [exact Q1|]. unfold quiet. split_and!; done. }
  rewrite (get_node _ _ _ _ _ _ _ _ H2), (parent_link_0 tr2 _ Hl2). cbn [mbind option_bind right colour].
  destruct (splice tr2 _ b cb nb kb Leaf br br H2) as (tr3 & -> & H3 & Hs3 & Hh3); [by left|]. cbn [mbind option_bind].
  pose proof (rep_nodup _ _ _ H2) as Hnd. apply nodup_node in Hnd as (_ & Nbr & Nb).
  assert (node_at (heap tr3) b null_ptr (ptr br) nb cb kb) as Hb3.
  { unfold node_at. rewrite Hh3 by done. destruct (rep_tree _ _ _ H2) as [Hb _]. exact Hb. }
  assert (rep tr3 q (Node a c n k l (plug qs br))) as H3'.
  { apply (rep_down_right tr3 q a c n k l (plug qs br)). by apply rep_app. }
  assert (b ∉ addrs (Node a c n k l (plug qs br)) ++ path_addrs q) as Nb3.
  { assert (addrs (Node a c n k l (plug qs br)) ++ path_addrs q ≡ₚ addrs br ++ path_addrs (qs ++ InRight a c n k l :: q)) as ->; [|by rewrite not_elem_of_app].
    rewrite <- !addrs_plug. by rewrite plug_app. }
  destruct (replace_node _ _ _ _ _ _ _ _ _ _ _ _ _ _ H3' Hb3 Nb3) as (tr4 & -> & Hs4 & Hg4 & Hrest). cbn [mbind option_bind right_link].
  assert (length (parents tr4) = length (parents tr)) as Hlen4.
  { rewrite (parents_same _ _ Hs4), (parents_same _ _ Hs3). unfold quiet in Q2. tauto. }
  destruct (set_parent_quiet tr4 (S (length q)) (RightLink b)) as (tr5 & -> & E5 & Q5); [lia|]. cbn [mbind option_bind]. rewrite E5.
  change (get (with_parents tr4 _) (At a)) with (get tr4 (At a)). rewrite Hg4. cbn [mbind option_bind left right colour].
  destruct (Hrest (<[S (length q) := RightLink b]> (parents tr4))) as (tr6 & E6 & H6 & Hs6).
  apply bind_Some in E6 as (tr7 & E7 & (tr8 & E8 & E9)%bind_Some). rewrite E7. cbn [mbind option_bind]. rewrite E8. cbn [mbind option_bind]. rewrite E9. cbn [mbind option_bind].
  exists tr6, (qs ++ InRight b c nb kb l :: q), br, cb. split; [by rewrite !length_app|]. split.
  { etrans; [exact Q2|]. etrans; [apply Hs3|]. etrans; [apply Hs4|]. etrans; [|apply Hs6]. rewrite <- E5. done. }
  split; [by apply rep_app, (rep_down_right tr6 q b c nb kb l (plug qs br))|]. split.
  { rewrite (parents_same _ _ Hs6). cbn [with_parents parents]. apply (links_at_replace qs _ (InRight a c n k l) (InRight b c nb kb l) q); [lia|].
    rewrite (parents_same _ _ Hs4), (parents_same _ _ Hs3). exact Hl2. }
  split.
  { pose proof (height_plug qs (Node b cb nb kb Leaf br)) as Hq. rewrite Epl in Hq. rewrite length_app. cbn [length height] in *. lia. }
  split.
  { rewrite <- Epl, plug_app. cbn [plug grow]. rewrite elems_plug. cbn [elems]. rewrite !(elems_left qs) by done. cbn [elems app]. rewrite <- !app_assoc. cbn [app]. by rewrite <- ?app_assoc. }
  rewrite <- Epl in Ht, Hc. destruct (unplug_rb (qs ++ InRight a c n k l :: q) m (Node b cb nb kb Leaf br)) as (h & Hp & Hb & _); [by rewrite plug_app..|].
  eapply (removed_balance h); [|exact Hb|by left]. by apply (rbp_replace qs h (InRight a c n k l)).
Qed.

(** The element is taken out of the tree, which is left to be rebalanced. *)
Lemma unlink_rep tr q m a c n k l r : rep tr q (Node a c n k l r) -> links_at (parents tr) q ->
  rbt m (plug q (Node a c n k l r)) -> root_colour (plug q (Node a c n k l r)) = BLACK -> (length q + height (Node a c n k l r) < length (parents tr))%nat ->
  (height (Node a c n k l r) <= MAX_TREE_HEIGHT)%nat ->
  exists tr' q' x rc, unlink_element tr (length q) (At a) = Some (tr', length q', rc) /\ quiet tr tr' /\ rep tr' q' x /\
    links_at (parents tr') q' /\ (length q' < length q + height (Node a c n k l r))%nat /\
    elems (plug q' x) = before q ++ elems l ++ elems r ++ after q /\ after_removal rc q' x.
Proof.
  intros H Hl Ht Hc Hlen Hh.
  assert (forall x, only_child l r x -> elems x = elems l ++ elems r ->
    exists tr' q' y rc, (tr ← assign tr (link_of q) (ptr x); Some (tr, length q, c)) = Some (tr', length q', rc) /\ quiet tr tr' /\ rep tr' q' y /\
    links_at (parents tr') q' /\ (length q' < length q + height (Node a c n k l r))%nat /\
    elems (plug q' y) = before q ++ elems l ++ elems r ++ after q /\ after_removal rc q' y) as Hone.
  { intros x Hx El. destruct (splice _ _ _ _ _ _ _ _ x H Hx) as (tr' & -> & H' & Hs & _). cbn [mbind option_bind].
    destruct (unplug_rb q m _ Ht Hc) as (h & Hp & Hb & _). exists tr', q, x, c. split_and!; try done; [apply Hs|..].
    - by rewrite (parents_same _ _ Hs).
    - cbn. lia.
    - rewrite elems_plug, El. by simplify_list_eq.
    - by eapply removed_balance. }
  unfold unlink_element. destruct l as [|al cl nl kl ll rl] eqn:El; [|destruct r as [|ar cr nr kr lr rr] eqn:Er].
  - rewrite (get_node _ _ _ _ _ _ _ _ H), (parent_link_0 _ _ Hl). cbn [mbind option_bind left right ptr colour]. rewrite same_refl. apply Hone; [by left|done].
  - rewrite (get_node _ _ _ _ _ _ _ _ H), (parent_link_0 _ _ Hl). cbn [mbind option_bind left right]. rewrite same_not_leaf by done.
    cbn [ptr colour]. rewrite same_refl. apply (Hone (Node al cl nl kl ll rl)); [by right|]. by rewrite app_nil_r.
  - rewrite <- El, <- Er in *. by apply (unlink_between tr q m); subst.
Qed.

(** Rebalancing after the removal. *)
Lemma rebalance_rep tr q x rc : rep tr q x -> links_at (parents tr) q -> after_removal rc q x -> (S (length q) < length (parents tr))%nat ->
  exists tr' t', (if rc =? BLACK then rb_delete_fixup tr (length q) else Some tr) = Some tr' /\ quiet tr tr' /\ rep tr' [] t' /\
    elems t' = elems (plug q x) /\ root_colour t' = BLACK /\ exists m, rbt m t'.
Proof.
  intros H Hl Ha Hlen. unfold after_removal in Ha. destruct (rc =? BLACK).
  - destruct Ha as [bh Hf]. by eapply rb_delete_fixup_rep.
  - destruct Ha as [Hb Hm]. exists tr, (plug q x). split_and!; try done. by apply rep_plug in H.
Qed.

Lemma quiet_key tr tr' a : quiet tr tr' -> element_key tr' (At a) = element_key tr (At a).
Proof.
  intros Q. unfold quiet in Q. destruct Q as (_ & _ & _ & _ & _ & _ & _ & _ & _ & _ & Q & _). cbn [element_key].
  rewrite <- !lookup_fmap. by rewrite Q.
Qed.

(** The element is freed at last. *)
Lemma free_element_ok tr tr1 t t' q a c n k l r ks : tree_ok compare tr t -> with_delete tr = true ->
  t = plug q (Node a c n k l r) -> quiet tr tr1 ->
  rep tr1 [] t' -> elems t' = before q ++ elems l ++ elems r ++ after q -> root_colour t' = BLACK -> (exists m, rbt m t') ->
  exists tr', (k ← element_key tr1 (At a);
      let tr := call_free tr1 free_free (Some k) in
      let tr := with_allocated tr (u64 (allocated tr - (sizeof_TREE_ELEMENT + size_of_element tr + ks))) in
      tr ← free_element tr (At a);
      Some (0, with_elements tr (u32 (elements_in_tree tr - 1)))) = Some (0, tr') /\
    tree_ok compare tr' t' /\ same_settings tr tr' /\ freed tr' = freed tr ++ (if has_free tr then [(free_free, Some k)] else []) /\
    allocated tr' = u64 (allocated tr - element_size tr ks).
Proof.
  intros H Hw Et Q Hr El Hc Hbal.
  assert (elems t = (before q ++ elems l) ++ (a, n, k) :: elems r ++ after q) as El0 by (rewrite Et, elems_plug; cbn [elems]; by simplify_list_eq).
  assert (addrs t ≡ₚ a :: addrs t') as Ha.
  { rewrite !elems_addrs, El0, El, !map_app. cbn. rewrite !map_app. rewrite <- Permutation_middle. by simplify_list_eq. }
  pose proof (rep_nodup _ _ _ (to_rep _ _ _ H)) as Hn. cbn in Hn. rewrite app_nil_r, Ha in Hn. apply NoDup_cons in Hn as [Na Hn].
  assert (element_key tr1 (At a) = Some k) as Ek.
  { rewrite (quiet_key _ _ _ Q). pose proof (to_rep _ _ _ H) as H0. rewrite Et in H0. apply (rep_plug tr q) in H0. by eapply element_key_node. }
  rewrite Ek. cbn [mbind option_bind]. pose proof (quiet_dom _ _ Q) as Qd. unfold quiet in Q.
  destruct Q as (Q1 & Q2 & Q3 & Q4 & Q5 & Q6 & Q7 & Q8 & Q9 & Q10 & Q11 & Q12).
  assert (exists e, heap tr1 !! a = Some e) as [e He].
  { apply elem_of_dom. rewrite Qd, (to_dom _ _ _ H). apply elem_of_list_to_set. rewrite Ha. left. }
  set (tr2 := call_free tr1 free_free (Some k)).
  assert (tr2 = with_freed tr1 (freed tr ++ (if has_free tr then [(free_free, Some k)] else []))) as E2.
  { unfold tr2, call_free. rewrite Q8, Q10. destruct (has_free tr); [done|]. rewrite app_nil_r, <- Q10. by destruct tr1. }
  rewrite E2. cbn [free_element with_allocated with_freed heap]. rewrite He. cbn [mbind option_bind]. eexists. split; [done|].
  split; [|split; [by unfold same_settings; split_and!|]; split; [done|]].
  - pose proof (to_size _ _ _ H) as Hs. rewrite El0, length_app in Hs. cbn [length] in Hs. pose proof (to_fits _ _ _ H) as Hfit.
    assert (u32 (elements_in_tree tr1 - 1) = elements_in_tree tr - 1) as En by (rewrite Q2; apply u32_small; lia).
    split; try done.
    + destruct Hr as [R1 R2 R3 R4]. split; try done. eapply tree_at_agree; [exact R1|]. intros b Hb. cbn. apply lookup_delete_ne. by intros ->.
    + cbn. rewrite dom_delete_L, Qd, (to_dom _ _ _ H). apply set_eq. intros b. rewrite elem_of_difference, elem_of_singleton, !elem_of_list_to_set, Ha, elem_of_cons.
      split; [tauto|]. intros Hb. split; [by right|]. by intros ->.
    + unfold sorted. pose proof (to_sorted _ _ _ H) as Hso. unfold sorted in Hso. rewrite El0 in Hso. apply sorted_remove in Hso.
      rewrite El. by rewrite <- app_assoc in Hso.
    + cbn. rewrite En, Hs, El, !length_app. lia.
    + cbn. rewrite En. lia.
    + pose proof (to_counts _ _ _ H) as Hcn. rewrite El0 in Hcn. rewrite El. rewrite !Forall_app, Forall_cons, Forall_app in Hcn. rewrite !Forall_app. tauto.
    + cbn. rewrite Q12. apply (to_parents _ _ _ H).
    + intros Hw'. cbn in Hw'. congruence.
  - cbn. rewrite Q5, Q3. unfold element_size. f_equal. lia.
Qed.

(** C5.  tree_delete on a tree that satisfies the invariant returns, and the tree
    satisfies the invariant afterwards.  It refuses when the elements are in a
    memory root.  Otherwise 1 means that no element has the key and that nothing
    changed, and 0 that the element with the key, and no other, was taken out of
    the tree, given to the free function and freed.  The accesses stay in the
    array of links and in elements that are in memory. *)
Theorem tree_delete_correct tr t key key_size : tree_ok compare tr t -> elements_in_tree tr + 1 < 2 ^ 32 ->
  exists res tr' t', tree_delete compare tr key key_size = Some (res, tr') /\ tree_ok compare tr' t' /\ same_settings tr tr' /\
    ((res = 1 /\ elems t' = elems t /\ freed tr' = freed tr /\ allocated tr' = allocated tr /\
      (with_delete tr = true -> Forall (fun e => compare e.2 key <> 0) (elems t))) \/
     (res = 0 /\ with_delete tr = true /\ exists L1 a n k L2,
      elems t = L1 ++ (a, n, k) :: L2 /\ compare k key = 0 /\ elems t' = L1 ++ L2 /\
      freed tr' = freed tr ++ (if has_free tr then [(free_free, Some k)] else []) /\
      allocated tr' = u64 (allocated tr - element_size tr key_size))).
Proof.
  intros H Hsz. unfold tree_delete. destruct (with_delete tr) eqn:Hw; cbn [negb].
  2: { exists 1, tr, t. split; [done|]. split; [done|]. split; [by unfold same_settings; split_and!|]. left. split_and!; try done. }
  destruct (find_path_spec compare tr t key H Hsz) as (ps & q & t0 & -> & H1 & Hq & Hl & Epl & Hend). cbn [mbind option_bind].
  assert (elems t = before q ++ elems t0 ++ after q) as El by by rewrite <- Epl, elems_plug.
  destruct t0 as [|a c n k l r]; cbn [ptr].
  { rewrite same_refl. exists 1, (with_parents tr ps), t. split; [done|]. split; [done|]. split; [by unfold same_settings; split_and!|]. left. split_and!; try done.
    intros _. rewrite El. destruct Hend as [Hb Hy]. apply Forall_app. split; (eapply Forall_impl; [eassumption|]); cbn; lia. }
  assert (same (At a) null_ptr = false) as -> by done. pose proof (tree_ok_height _ _ _ H Hsz) as Hh. rewrite <- Epl in Hh.
  pose proof (height_plug q (Node a c n k l r)) as Hhq. destruct (to_balance _ _ _ H) as [m Hm]. rewrite <- Epl in Hm.
  assert (length ps = MAX_TREE_HEIGHT) as Hps by apply (to_parents _ _ _ H1).
  destruct (unlink_rep (with_parents tr ps) q m a c n k l r Hq Hl Hm) as (tr1 & q1 & x & rc & -> & Q1 & R1 & L1 & Hlen1 & El1 & Ha1).
  { rewrite Epl. apply (to_black _ _ _ H). }
  { cbn [with_parents parents]. rewrite Hps. unfold MAX_TREE_HEIGHT. lia. }
  { unfold MAX_TREE_HEIGHT. lia. }
  cbn [mbind option_bind].
  destruct (rebalance_rep tr1 q1 x rc R1 L1 Ha1) as (tr2 & t2 & -> & Q2 & R2 & El2 & C2 & B2).
  { assert (length (parents tr1) = MAX_TREE_HEIGHT) as -> by (unfold quiet in Q1; cbn in Q1; rewrite <- Hps; tauto). unfold MAX_TREE_HEIGHT. lia. }
  cbn [mbind option_bind]. rewrite El1 in El2.
  destruct (free_element_ok (with_parents tr ps) tr2 t t2 q a c n k l r key_size H1 Hw (eq_sym Epl) ltac:(by etrans) R2 El2 C2 B2) as (tr' & E' & H' & Hset & Hfr & Hal).
  exists 0, tr', t2. split; [exact E'|]. split; [done|]. split; [exact Hset|]. right. split; [done|]. split; [done|].
  exists (before q ++ elems l), a, n, k, (elems r ++ after q). split_and!; try done.
  - rewrite El. cbn [elems]. by simplify_list_eq.
  - rewrite El2. by simplify_list_eq.
Qed.
End Delete.
