(* ===== verification/TreeSearch.v ===== *)
(** * Balanced trees: search, ordered access and walks

    tree_search_key and tree_search_edge leave the path to the element they find
    in an array of the caller; tree_search_next moves to the next element in
    either direction.  Both directions are treated at once: [d] is the child that
    comes first in the order of the scan. *)

From stdpp Require Import prelude list gmap sorting.
From Stdlib Require Import ZArith Lia.
From S2P Require Import Prelude MemRoot Tree TreeRep TreeBalance TreeFixup TreeOrder TreeInsert TreeDelete.

Open Scope Z_scope.

Section Search.
Context {K : Type} (compare : K -> K -> Z).
Implicit Types (tr : TREE K) (t l r : tree (K := K)) (p q : path (K := K)) (d : child).

(** ** Directions *)

Definition opposite d : child := match d with LeftChild => RightChild | RightChild => LeftChild end.

Definition side d l r : tree (K := K) := match d with LeftChild => l | RightChild => r end.

(** A list in the order of a scan. *)
Definition order d (L : list (Z * Z * K)) : list (Z * Z * K) := match d with LeftChild => L | RightChild => reverse L end.

(** What comes after the subtree at the end of a path. *)
Definition rest d p : list (Z * Z * K) := match d with LeftChild => after p | RightChild => reverse (before p) end.

Definition step_side (s : step (K := K)) : child := match s with InLeft _ _ _ _ _ => LeftChild | InRight _ _ _ _ _ => RightChild end.

(** The step from an element to its child on the side [d]. *)
Definition step_to d a c n k l r : step (K := K) := match d with LeftChild => InLeft a c n k r | RightChild => InRight a c n k l end.

Lemma order_node d a c n k l r :
  order d (elems (Node a c n k l r)) = order d (elems (side d l r)) ++ (a, n, k) :: order d (elems (side (opposite d) l r)).
Proof. destruct d; [done|]. cbn [order elems side opposite]. rewrite reverse_app, reverse_cons. by simplify_list_eq. Qed.

Lemma rest_near d a c n k l r p : rest d (step_to d a c n k l r :: p) = (a, n, k) :: order d (elems (side (opposite d) l r)) ++ rest d p.
Proof. destruct d; [done|]. cbn [rest step_to before order side opposite]. rewrite !reverse_app, reverse_singleton. by simplify_list_eq. Qed.

Lemma rest_far d a c n k l r p : rest d (step_to (opposite d) a c n k l r :: p) = rest d p.
Proof. by destruct d. Qed.

Lemma rep_step d tr p a c n k l r : rep tr p (Node a c n k l r) <-> rep tr (step_to d a c n k l r :: p) (side d l r).
Proof. destruct d; [apply rep_down_left|apply rep_down_right]. Qed.

Lemma element_child_node d tr p a c n k l r : rep tr p (Node a c n k l r) -> element_child tr (At a) d = Some (ptr (side d l r)).
Proof. intros H. unfold element_child. rewrite (get_node _ _ _ _ _ _ _ _ H). by destruct d. Qed.

(** ** Positions *)

(** The array holds the elements of a path below index 0. *)
Fixpoint stacked (ps : list pointer) p : Prop :=
  match p with
  | [] => ps !! 0%nat = Some null_ptr
  | s :: p => ps !! length (s :: p) = Some (At (step_addr s)) /\ stacked ps p
  end.

(** The scan is at the element [e], and the elements [es] follow. *)
Definition position tr d (ps : list pointer) (i : nat) (e : Z * Z * K) (es : list (Z * Z * K)) : Prop :=
  exists p a c n k l r, rep tr p (Node a c n k l r) /\ stacked ps p /\ i = S (length p) /\ ps !! i = Some (At a) /\
    e = (a, n, k) /\ es = order d (elems (side (opposite d) l r)) ++ rest d p /\
    (height (plug p (Node a c n k l r)) < length ps)%nat.

Lemma stacked_insert ps p i x : (length p < i)%nat -> stacked ps p -> stacked (<[i := x]> ps) p.
Proof.
  induction p as [|s p IH]; cbn [stacked length]; intros Hi H.
  - by rewrite list_lookup_insert_ne by lia.
  - destruct H as [H1 H2]. split; [by rewrite list_lookup_insert_ne by lia|]. apply IH; [lia|done].
Qed.

Lemma put_lt (ps : list pointer) i x : (i < length ps)%nat -> put ps i x = Some (<[i := x]> ps).
Proof. intros H. unfold put. destruct (i <? length ps)%nat eqn:E; b2p; [done|lia]. Qed.

Lemma side_height d a c n k l r : (height (side d l r) < height (Node a c n k l r))%nat.
Proof. destruct d; cbn; lia. Qed.

(** The way down to the first element of a subtree. *)
Lemma down_loop_rep d fuel : forall tr ps p a c n k l r, rep tr p (Node a c n k l r) -> stacked ps p -> ps !! S (length p) = Some (At a) ->
  (height (plug p (Node a c n k l r)) < length ps)%nat -> (height (Node a c n k l r) <= fuel)%nat ->
  exists ps' i b e es, down_loop fuel tr ps (S (length p)) (At a) d = Some (ps', i, At b) /\ position tr d ps' i e es /\ e.1.1 = b /\
    length ps' = length ps /\ order d (elems (Node a c n k l r)) ++ rest d p = e :: es.
Proof.
  induction fuel as [|fuel IH]; intros tr ps p a c n k l r H Hs Ha Hlen Hf; [cbn in Hf; lia|]. cbn [down_loop].
  rewrite (element_child_node d _ _ _ _ _ _ _ _ H). cbn [mbind option_bind].
  rewrite order_node, <- app_assoc. destruct (side d l r) as [|a' c' n' k' l' r'] eqn:Es; cbn [ptr].
  - rewrite same_refl. eexists ps, _, a, (a, n, k), _. split; [done|].
    split; [exists p, a, c, n, k, l, r; split_and!; done|]. split_and!; try done. by destruct d.
  - assert (same (At a') null_ptr = false) as -> by done.
    pose proof (side_height d a c n k l r) as Hh. pose proof (height_plug p (Node a c n k l r)) as Hp. rewrite Es in Hh. cbn [height] in Hh, Hp.
    rewrite put_lt by lia. cbn [mbind option_bind]. pose proof H as H1. rewrite (rep_step d), Es in H1.
    destruct (IH tr (<[S (S (length p)) := At a']> ps) (step_to d a c n k l r :: p) a' c' n' k' l' r' H1) as (ps' & i & b & e & es & E & Hpos & Hb & Hl & Eo).
    + split; [|apply stacked_insert; [lia|done]]. cbn [length]. rewrite list_lookup_insert_ne by lia. by rewrite Ha; destruct d.
    + cbn [length]. apply list_lookup_insert_eq. lia.
    + rewrite length_insert. cbn [plug]. rewrite <- Es. by destruct d.
    + cbn [height] in *. lia.
    + rewrite length_insert in Hl. exists ps', i, b, e, es. split_and!; try done. by rewrite <- Eo, rest_near.
Qed.

Lemma step_grow (s : step (K := K)) t : exists c n k l r,
  s = step_to (step_side s) (step_addr s) c n k l r /\ grow s t = Node (step_addr s) c n k l r /\ side (step_side s) l r = t /\
  side (opposite (step_side s)) l r = step_tree s.
Proof. destruct s as [a c n k r|a c n k l]; eexists c, n, k, _, _; split_and!; done. Qed.

Lemma opposite_twice d : opposite (opposite d) = d.
Proof. by destruct d. Qed.

(** The way up to the next element. *)
Lemma up_loop_rep d tr ps : forall p t, rep tr p t -> t <> Leaf -> stacked ps p -> (height (plug p t) < length ps)%nat ->
  match rest d p with
  | [] => up_loop tr ps (S (length p)) (ptr t) (opposite d) = Some (0%nat, null_ptr)
  | e :: es => exists i, up_loop tr ps (S (length p)) (ptr t) (opposite d) = Some (i, At e.1.1) /\ position tr d ps i e es
  end.
Proof.
  induction p as [|s p IH]; intros t H Hn Hs Hlen; cbn [up_loop length].
  { cbn [stacked] in Hs. rewrite Hs. cbn [mbind option_bind]. by destruct d. }
  pose proof Hs as [Hs1 Hs2]. cbn [length] in Hs1. rewrite Hs1. cbn [mbind option_bind].
  assert (same (At (step_addr s)) null_ptr = false) as -> by done.
  pose proof (proj1 (rep_app tr [s] p t) H) as H1. pose proof (nodup_places _ _ _ _ H) as Nx. cbn [plug] in *.
  destruct (step_grow s t) as (c & n & k & l & r & Es & Eg & E1 & E2). rewrite Eg in *. set (a := step_addr s) in *.
  rewrite (element_child_node (opposite d) _ _ _ _ _ _ _ _ H1). cbn [mbind option_bind].
  destruct (decide (step_side s = d)) as [Ed|Ed].
  - rewrite Ed in *. rewrite Es, rest_near. rewrite E2. assert (same (ptr t) (ptr (step_tree s)) = false) as ->.
    { destruct t as [|b cb nb kb lb rb]; [done|]. apply same_ptr_false, Nx. cbn. apply elem_of_app. right. left. }
    eexists. split; [done|]. exists p, a, c, n, k, l, r. split_and!; try done. by rewrite E2.
  - assert (step_side s = opposite d) as Ed' by (destruct d, (step_side s); done). rewrite Ed' in *. rewrite Es, rest_far, E1, same_refl.
    change (At a) with (ptr (Node a c n k l r)). by apply IH.
Qed.

(** tree_search_next goes to the element that follows, or to the end. *)
Lemma tree_search_next_spec d tr ps i e es : position tr d ps i e es ->
  match es with
  | [] => tree_search_next tr ps i d (opposite d) = Some (None, ps, 0%nat)
  | e' :: es' => exists ps' i', tree_search_next tr ps i d (opposite d) = Some (Some e'.2, ps', i') /\ position tr d ps' i' e' es' /\ length ps' = length ps
  end.
Proof.
  intros (p & a & c & n & k & l & r & H & Hs & -> & Ha & -> & -> & Hlen). unfold tree_search_next. rewrite Ha. cbn [mbind option_bind].
  rewrite (element_child_node (opposite d) _ _ _ _ _ _ _ _ H). cbn [mbind option_bind].
  assert (forall ps' j b e' es', position tr d ps' j e' es' -> e'.1.1 = b -> element_key tr (At b) = Some e'.2) as Hkey.
  { intros ps' j b e' es' (p' & a' & c' & n' & k' & l' & r' & H' & _ & _ & _ & -> & _) <-. cbn. by eapply element_key_node. }
  pose proof (height_plug p (Node a c n k l r)) as Hp.
  pose proof (side_height (opposite d) a c n k l r) as Hh.
  destruct (side (opposite d) l r) as [|a' c' n' k' l' r'] eqn:Es; cbn [ptr].
  - rewrite same_refl. cbn [negb]. pose proof (up_loop_rep d tr ps p (Node a c n k l r) H ltac:(done) Hs Hlen) as Hup.
    assert (order d (@elems K Leaf) ++ rest d p = rest d p) as -> by by destruct d. cbn [ptr] in Hup.
    destruct (rest d p) as [|e' es']; [by rewrite Hup|]. destruct Hup as (j & -> & Hpos). cbn [mbind option_bind].
    assert (same (At e'.1.1) null_ptr = false) as -> by done. rewrite (Hkey _ _ _ _ _ Hpos eq_refl). cbn [mbind option_bind]. by eexists _, _.
  - assert (same (At a') null_ptr = false) as -> by done. cbn [negb]. cbn [height] in Hh, Hp. rewrite put_lt by lia. cbn [mbind option_bind].
    pose proof H as H1. rewrite (rep_step (opposite d)), Es in H1.
    destruct (down_loop_rep d (length ps) tr (<[S (S (length p)) := At a']> ps) (step_to (opposite d) a c n k l r :: p) a' c' n' k' l' r' H1)
      as (ps' & j & b & e' & es' & E & Hpos & Hb & Hl & Eo).
    + split; [|apply stacked_insert; [lia|done]]. cbn [length]. rewrite list_lookup_insert_ne by lia. rewrite Ha. by destruct d.
    + cbn [length]. apply list_lookup_insert_eq. lia.
    + rewrite length_insert. cbn [plug]. rewrite <- Es. by destruct d.
    + cbn [height]. lia.
    + rewrite rest_far in Eo. rewrite Eo. cbn [length] in E. rewrite length_insert, E. cbn [mbind option_bind]. rewrite (Hkey _ _ _ _ _ Hpos Hb). cbn [mbind option_bind].
      exists ps', j. split_and!; try done. by rewrite length_insert in Hl.
Qed.

(** ** Scans *)

(** The elements that repeated calls of tree_search_next give. *)
Fixpoint scan_next (fuel : nat) tr (ps : list pointer) (i : nat) d : option (list K) :=
  match fuel with
  | O => None
  | S fuel =>
    '(k, ps, i) ← tree_search_next tr ps i d (opposite d);
    match k with
    | None => Some []
    | Some k => ks ← scan_next fuel tr ps i d; Some (k :: ks)
    end
  end.

(** A scan from one end of the tree. *)
Definition scan (fuel : nat) tr (ps : list pointer) d : option (list K) :=
  '(k, ps, i) ← tree_search_edge tr ps d;
  match k with
  | None => Some []
  | Some k => ks ← scan_next fuel tr ps i d; Some (k :: ks)
  end.

Lemma scan_next_spec d fuel : forall tr ps i e es, position tr d ps i e es -> (length es < fuel)%nat ->
  scan_next fuel tr ps i d = Some (map snd es).
Proof.
  induction fuel as [|fuel IH]; intros tr ps i e es Hp Hf; [lia|]. cbn [scan_next]. pose proof (tree_search_next_spec _ _ _ _ _ _ Hp) as H.
  destruct es as [|e' es]; [by rewrite H|]. destruct H as (ps' & i' & -> & Hp' & _). cbn [mbind option_bind].
  rewrite (IH _ _ _ _ _ Hp'); [done|]. cbn in Hf. lia.
Qed.

Lemma tree_search_edge_spec d tr ps t : rep tr [] t -> (height t < length ps)%nat ->
  match order d (elems t) with
  | [] => exists ps', tree_search_edge tr ps d = Some (None, ps', 0%nat)
  | e :: es => exists ps' i, tree_search_edge tr ps d = Some (Some e.2, ps', i) /\ position tr d ps' i e es /\ length ps' = length ps
  end.
Proof.
  intros H Hlen. unfold tree_search_edge. rewrite put_lt by lia. cbn [mbind option_bind]. rewrite (rep_root _ _ H).
  destruct t as [|a c n k l r]; cbn [ptr].
  { rewrite same_refl. destruct d; cbn; by eexists. }
  assert (same (At a) null_ptr = false) as -> by done. cbn [height] in Hlen. rewrite put_lt by (rewrite length_insert; lia). cbn [mbind option_bind].
  destruct (down_loop_rep d (length ps) tr (<[1%nat := At a]> (<[0%nat := null_ptr]> ps)) [] a c n k l r H) as (ps' & i & b & e & es & E & Hpos & Hb & Hl & Eo).
  - cbn [stacked]. rewrite list_lookup_insert_ne by lia. apply list_lookup_insert_eq. lia.
  - cbn [length]. apply list_lookup_insert_eq. rewrite length_insert. lia.
  - rewrite !length_insert. cbn [plug height]. lia.
  - cbn [height]. lia.
  - assert (rest d (@nil (step (K := K))) = []) as Er by by destruct d. rewrite Er, app_nil_r in Eo. rewrite Eo. cbn [length] in E. rewrite !length_insert, E. cbn [mbind option_bind].
    rewrite !length_insert in Hl. assert (element_key tr (At b) = Some e.2) as ->.
    { destruct Hpos as (p' & a' & c' & n' & k' & l' & r' & H' & _ & _ & _ & -> & _). cbn in Hb. subst b. by eapply element_key_node. }
    cbn [mbind option_bind]. by exists ps', i.
Qed.

(** C7.  A scan with tree_search_edge and tree_search_next gives every element of
    the tree once, in increasing order from the left edge and in decreasing order
    from the right edge, and then NULL; an array of 65 entries is long enough for
    the path. *)
Theorem tree_scan_complete tr t ps d : tree_ok compare tr t -> elements_in_tree tr + 1 < 2 ^ 32 -> (MAX_TREE_HEIGHT < length ps)%nat ->
  scan (S (length (elems t))) tr ps d = Some (map snd (order d (elems t))).
Proof.
  intros H Hsz Hps. pose proof (tree_ok_height _ _ _ H Hsz) as Hh. unfold scan, MAX_TREE_HEIGHT in *.
  pose proof (tree_search_edge_spec d tr ps t (to_rep _ _ _ H) ltac:(lia)) as He.
  assert (length (order d (elems t)) = length (elems t)) as El by (destruct d; [done|apply length_reverse]).
  destruct (order d (elems t)) as [|e es]; [destruct He as [ps' ->]; done|]. destruct He as (ps' & i & -> & Hp & _). cbn [mbind option_bind].
  rewrite (scan_next_spec _ _ _ _ _ _ _ Hp); [done|]. cbn in El. lia.
Qed.

(** ** tree_walk *)

(** The action on a list of elements, up to the first error. *)
Fixpoint walk_list {A : Type} (action : K -> Z -> A -> Z * A) (L : list (Z * Z * K)) (x : A) : Z * A :=
  match L with
  | [] => (0, x)
  | e :: L => let '(error, x) := action e.2 e.1.2 x in if negb (error =? 0) then (error, x) else walk_list action L x
  end.

Lemma walk_list_app {A} (action : K -> Z -> A -> Z * A) L1 L2 x :
  walk_list action (L1 ++ L2) x = let '(error, y) := walk_list action L1 x in if negb (error =? 0) then (error, y) else walk_list action L2 y.
Proof.
  revert x. induction L1 as [|e L1 IH]; intros x; [done|]. cbn [app walk_list]. destruct (action e.2 e.1.2 x) as [error y].
  destruct (negb (error =? 0)) eqn:E; [by rewrite E|]. apply IH.
Qed.

Lemma tree_walk_left_rep {A} (action : K -> Z -> A -> Z * A) fuel : forall tr p t x, rep tr p t -> (height t < fuel)%nat ->
  tree_walk_left_root_right action fuel tr (ptr t) x = Some (walk_list action (elems t) x).
Proof.
  induction fuel as [|fuel IH]; intros tr p t x H Hf; [lia|]. cbn [tree_walk_left_root_right]. rewrite (get_ptr _ _ _ H). cbn [mbind option_bind].
  destruct t as [|a c n k l r]; [done|]. cbn [left right count ptr elems height] in *.
  assert (same (ptr l) NULL = false) as -> by by destruct l.
  rewrite (IH tr (InLeft a c n k r :: p) l x) by (first [by apply rep_down_left|lia]). cbn [mbind option_bind]. rewrite walk_list_app.
  destruct (walk_list action (elems l) x) as [error y]. destruct (negb (error =? 0)); [done|].
  rewrite (element_key_node _ _ _ _ _ _ _ _ H). cbn [mbind option_bind walk_list snd fst]. destruct (action k n y) as [error' z].
  destruct (negb (error' =? 0)); [done|]. apply (IH tr (InRight a c n k l :: p) r z); [by apply rep_down_right|lia].
Qed.

Lemma tree_walk_right_rep {A} (action : K -> Z -> A -> Z * A) fuel : forall tr p t x, rep tr p t -> (height t < fuel)%nat ->
  tree_walk_right_root_left action fuel tr (ptr t) x = Some (walk_list action (reverse (elems t)) x).
Proof.
  induction fuel as [|fuel IH]; intros tr p t x H Hf; [lia|]. cbn [tree_walk_right_root_left]. rewrite (get_ptr _ _ _ H). cbn [mbind option_bind].
  destruct t as [|a c n k l r]; [done|]. cbn [left right count ptr elems height] in *.
  assert (same (ptr r) NULL = false) as -> by by destruct r. rewrite reverse_app, reverse_cons, <- app_assoc.
  rewrite (IH tr (InRight a c n k l :: p) r x) by (first [by apply rep_down_right|lia]). cbn [mbind option_bind]. rewrite walk_list_app.
  destruct (walk_list action (reverse (elems r)) x) as [error y]. destruct (negb (error =? 0)); [done|].
  rewrite (element_key_node _ _ _ _ _ _ _ _ H). cbn [mbind option_bind walk_list snd fst app]. destruct (action k n y) as [error' z].
  destruct (negb (error' =? 0)); [done|]. apply (IH tr (InLeft a c n k r :: p) l z); [by apply rep_down_left|lia].
Qed.

(** tree_walk calls the action for the elements with their counts in
    increasing or in decreasing order, and stops with the first error. *)
Theorem tree_walk_correct {A} (action : K -> Z -> A -> Z * A) tr t x : tree_ok compare tr t ->
  tree_walk action tr x left_root_right = Some (walk_list action (elems t) x) /\
  tree_walk action tr x right_root_left = Some (walk_list action (reverse (elems t)) x).
Proof.
  intros H. pose proof (height_elems t) as Hh. rewrite <- (heap_size _ _ _ H) in Hh. unfold tree_walk. rewrite (rep_root _ _ (to_rep _ _ _ H)).
  split; [apply (tree_walk_left_rep action _ tr [])|apply (tree_walk_right_rep action _ tr [])]; try apply H; lia.
Qed.
End Search.
