(* ===== verification/TreeKey.v ===== *)
(** * Balanced trees: tree_search, tree_search_key, init_tree and test_rb_tree

    The searches with a key, in all the modes of tree_search_key, the invariant of
    a tree that init_tree made, and the check of the debug build. *)

From stdpp Require Import prelude list gmap sorting.
From Stdlib Require Import ZArith Lia.
From S2P Require Import Prelude MemRoot Tree TreeRep TreeBalance TreeFixup TreeOrder TreeInsert TreeDelete TreeSearch.

Open Scope Z_scope.

Section Key.
Context {K : Type} (compare : K -> K -> Z).
Implicit Types (tr : TREE K) (t l r : tree (K := K)) (p q : path (K := K)).

(** ** tree_search_key *)

Section SearchKey.
Context (key : K).

(** The comparison with the key, and that it increases along the elements.  The
    comparison can be with a prefix, so that several elements are equal. *)
Abbreviation cmp e := (compare e.2 key).
Definition monotone (L : list (Z * Z * K)) : Prop := StronglySorted (fun x y : Z * Z * K => Z.sgn (cmp x) <= Z.sgn (cmp y)) L.

(** The element that a mode asks for. *)
Definition wanted (f : ha_rkey_function) (L : list (Z * Z * K)) : option (Z * Z * K) :=
  match f with
  | HA_READ_KEY_EXACT => head (filter (fun e => cmp e = 0) L)
  | HA_READ_KEY_OR_NEXT => head (filter (fun e => 0 <= cmp e) L)
  | HA_READ_AFTER_KEY => head (filter (fun e => 0 < cmp e) L)
  | HA_READ_BEFORE_KEY => last (filter (fun e => cmp e < 0) L)
  | HA_READ_PREFIX_LAST => last (filter (fun e => cmp e = 0) L)
  | HA_READ_PREFIX_LAST_OR_PREV => last (filter (fun e => cmp e <= 0) L)
  | _ => None
  end.

(** The array entry [j] is the element [e], with the path to it below. *)
Definition place tr (ps : list pointer) (j : nat) (e : Z * Z * K) : Prop :=
  exists p c l r, rep tr p (Node e.1.1 c e.1.2 e.2 l r) /\ stacked ps p /\ j = S (length p) /\ ps !! j = Some (At e.1.1) /\
    (height (plug p (Node e.1.1 c e.1.2 e.2 l r)) < length ps)%nat.

Definition spot tr (ps : list pointer) (o : option nat) (e : option (Z * Z * K)) : Prop :=
  match o, e with
  | None, None => True
  | Some j, Some e => place tr ps j e
  | _, _ => False
  end.

Lemma place_insert tr ps j e i x : place tr ps j e -> (j < i)%nat -> place tr (<[i := x]> ps) j e.
Proof.
  intros (p & c & l & r & H & Hs & -> & Ha & Hh) Hi. exists p, c, l, r. split_and!; try done.
  - apply stacked_insert; [lia|done].
  - by rewrite list_lookup_insert_ne by lia.
  - by rewrite length_insert.
Qed.

(** The index of a spot on the path is not beyond the path. *)
Definition within (o : option nat) (i : nat) : Prop := match o with Some j => (j <= i)%nat | None => True end.

Lemma spot_insert tr ps o e i x : spot tr ps o e -> within o i -> spot tr (<[S i := x]> ps) o e.
Proof. destruct o as [j|], e as [e|]; cbn; try done. intros H Hj. apply place_insert; [done|lia]. Qed.

(** The side on which equal elements are left behind: [g] for the left. *)
Definition goes_right (g : bool) (e : Z * Z * K) : bool := if g then cmp e <=? 0 else cmp e <? 0.

(** The neighbour that is equal. *)
Definition equal_one (o : option (Z * Z * K)) : option (Z * Z * K) :=
  e ← o; if cmp e =? 0 then Some e else None.

Definition equal_spot (noted g : bool) p : option (Z * Z * K) :=
  if noted then equal_one (if g then last (before p) else head (after p)) else None.

Record key_state tr (noted g : bool) (ps : list pointer) p (ll lr le : option nat) : Prop := {
  ks_stacked : stacked ps p;
  ks_left : spot tr ps ll (head (after p));
  ks_right : spot tr ps lr (last (before p));
  ks_equal : spot tr ps le (equal_spot noted g p);
  ks_within : within ll (length p) /\ within lr (length p) /\ within le (length p);
  ks_before : Forall (fun e => goes_right g e = true) (before p);
  ks_after : Forall (fun e => goes_right g e = false) (after p)
}.

Lemma equal_case_modes f noted v : equal_case f = Some (noted, v) ->
  (v = 1 /\ noted = true) \/ v = -1.
Proof. destruct f; cbn; intros [= <- <-]; auto. Qed.

Lemma goes_right_mono g x y : Z.sgn (cmp x) <= Z.sgn (cmp y) -> goes_right g y = true -> goes_right g x = true.
Proof. unfold goes_right. destruct g; intros H Hy; b2p; [apply Z.leb_le|apply Z.ltb_lt]; lia. Qed.

Lemma monotone_around L1 e L2 : monotone (L1 ++ e :: L2) ->
  (forall x, x ∈ L1 -> Z.sgn (cmp x) <= Z.sgn (cmp e)) /\ (forall y, y ∈ L2 -> Z.sgn (cmp e) <= Z.sgn (cmp y)).
Proof.
  unfold monotone. rewrite StronglySorted_app. intros (H & _ & H2). apply StronglySorted_inv in H2 as [_ H2]. rewrite Forall_forall in H2.
  split; [|done]. intros x Hx. apply H; [done|left].
Qed.

Lemma equal_none (o : option (Z * Z * K)) : (forall e, o = Some e -> cmp e <> 0) -> equal_one o = None.
Proof. destruct o as [e|]; [|done]. intros H. cbn. destruct (cmp e =? 0) eqn:E; b2p; [|done]. by destruct (H e eq_refl). Qed.

Lemma last_in_list {A} (L : list A) x : last L = Some x -> x ∈ L.
Proof. destruct L as [|y L _] using rev_ind; [done|]. rewrite last_snoc. intros [= ->]. apply elem_of_app. right. left. Qed.

Lemma head_in_list {A} (L : list A) x : head L = Some x -> x ∈ L.
Proof. destruct L; [done|]. intros [= ->]. left. Qed.

(** One step of the loop. *)
Lemma key_step tr noted g ps p ll lr le a c n k l r :
  rep tr p (Node a c n k l r) -> monotone (elems (plug p (Node a c n k l r))) -> (height (plug p (Node a c n k l r)) < length ps)%nat ->
  key_state tr noted g ps p ll lr le ->
  let e := (a, n, k) in
  let le' := if (cmp e =? 0) && noted then Some (S (length p)) else le in
  let ps' := <[S (length p) := At a]> ps in
  if goes_right g e then key_state tr noted g ps' (InRight a c n k l :: p) ll (Some (S (length p))) le'
  else key_state tr noted g ps' (InLeft a c n k r :: p) (Some (S (length p))) lr le'.
Proof.
  intros H Hm Hh [S1 S2 S3 S4 (W1 & W2 & W3) B A] e le' ps'.
  pose proof (height_plug p (Node a c n k l r)) as Hp. cbn [height] in Hp.
  assert (stacked ps' p) as Hs by (apply stacked_insert; [lia|done]).
  assert (ps' !! S (length p) = Some (At a)) as Ha by (apply list_lookup_insert_eq; lia).
  assert (place tr ps' (S (length p)) e) as Hpl.
  { exists p, c, l, r. split_and!; try done. unfold ps'. by rewrite length_insert. }
  assert (forall o x, spot tr ps o x -> within o (length p) -> spot tr ps' o x) as Hkeep by (intros; by apply spot_insert).
  assert (forall o, within o (length p) -> within o (S (length p))) as Hw by (intros [j|]; cbn; lia).
  assert (within le' (S (length p))) as Hwe by (unfold le'; case_match; [cbn; lia|auto]).
  rewrite elems_plug in Hm. cbn [elems] in Hm. rewrite <- app_assoc, (assoc_L app (before p)) in Hm. cbn [app] in Hm.
  destruct (monotone_around _ _ _ Hm) as [Hlow Hhigh]. fold e in Hlow, Hhigh.
  destruct (goes_right g e) eqn:Eg.
  - split; cbn [stacked before after length step_addr]; auto.
    + rewrite app_assoc, last_snoc. done.
    + unfold equal_spot in *. cbn [before after]. unfold le'. destruct noted; [|rewrite andb_false_r; auto]. rewrite andb_true_r.
      destruct g; cbn [goes_right] in Eg.
      * rewrite app_assoc, last_snoc. change (equal_one (Some (a, n, k))) with (if cmp e =? 0 then Some e else None). destruct (cmp e =? 0) eqn:E0; [done|]. apply Hkeep; [|done].
        rewrite equal_none in S4; [done|]. intros x Hx. apply last_in_list in Hx. specialize (Hlow x ltac:(apply elem_of_app; by left)). b2p. lia.
      * destruct (cmp e =? 0) eqn:E0; b2p; [lia|]. auto.
    + split_and!; [auto|cbn; lia|done].
    + rewrite !Forall_app. split; [done|]. split; [|by repeat constructor]. apply Forall_forall. intros x Hx.
      eapply goes_right_mono; [|exact Eg]. apply Hlow, elem_of_app. by right.
  - split; cbn [stacked before after length step_addr]; auto.
    + unfold equal_spot in *. cbn [before after]. unfold le'. destruct noted; [|rewrite andb_false_r; auto]. rewrite andb_true_r.
      destruct g; cbn [goes_right] in Eg.
      * destruct (cmp e =? 0) eqn:E0; b2p; [lia|]. auto.
      * cbn [head]. change (equal_one (Some (a, n, k))) with (if cmp e =? 0 then Some e else None). destruct (cmp e =? 0) eqn:E0; [done|]. apply Hkeep; [|done].
        rewrite equal_none in S4; [done|]. intros x Hx. apply head_in_list in Hx. specialize (Hhigh x ltac:(apply elem_of_app; by right)). b2p. lia.
    + split_and!; [cbn; lia|auto|done].
    + constructor; [done|]. apply Forall_app. split; [|done]. apply Forall_forall. intros x Hx.
      apply not_true_is_false. intros Hx'. enough (goes_right g e = true) by congruence. eapply goes_right_mono; [|exact Hx']. apply Hhigh, elem_of_app. by left.
Qed.

(** What the flag does with an equal element: it is noted, and left behind on the
    left or on the right. *)
Definition mode (f : ha_rkey_function) : option (bool * bool) :=
  match f with
  | HA_READ_KEY_EXACT | HA_READ_KEY_OR_NEXT | HA_READ_BEFORE_KEY => Some (true, false)
  | HA_READ_AFTER_KEY => Some (false, true)
  | HA_READ_PREFIX_LAST | HA_READ_PREFIX_LAST_OR_PREV => Some (true, true)
  | _ => None
  end.

Lemma search_key_loop_rep f noted g fuel : mode f = Some (noted, g) -> forall tr ps p t ll lr le,
  rep tr p t -> monotone (elems (plug p t)) -> (height (plug p t) < length ps)%nat -> (height t < fuel)%nat ->
  key_state tr noted g ps p ll lr le ->
  exists ps' q ll' lr' le', search_key_loop compare fuel tr key f ps (length p) (ptr t) ll lr le = Some (ps', Some (ll', lr', le')) /\
    plug q Leaf = plug p t /\ key_state tr noted g ps' q ll' lr' le' /\ length ps' = length ps.
Proof.
  intros Hmode. induction fuel as [|fuel IH]; intros tr ps p t ll lr le H Hm Hh Hf Hk; [lia|]. cbn [search_key_loop].
  destruct t as [|a c n k l r]; cbn [ptr].
  { rewrite same_refl. by eexists ps, p, ll, lr, le. }
  assert (same (At a) null_ptr = false) as -> by done. cbn [height] in Hf. pose proof (height_plug p (Node a c n k l r)) as Hp. cbn [height] in Hp.
  rewrite put_lt by lia. cbn [mbind option_bind]. rewrite (element_key_node _ _ _ _ _ _ _ _ H), (get_node _ _ _ _ _ _ _ _ H). cbn [mbind option_bind left right].
  pose proof (key_step _ _ _ _ _ _ _ _ _ _ _ _ _ _ H Hm Hh Hk) as Hstep. cbv zeta in Hstep. unfold goes_right in Hstep. cbn [snd] in Hstep.
  set (ps1 := <[S (length p) := At a]> ps) in *.
  assert (length ps1 = length ps) as El by (unfold ps1; apply length_insert).
  assert (forall q t' ll lr le, length q = S (length p) -> rep tr q t' -> plug q t' = plug p (Node a c n k l r) -> (height t' < fuel)%nat ->
    key_state tr noted g ps1 q ll lr le ->
    exists ps' q' ll' lr' le', search_key_loop compare fuel tr key f ps1 (S (length p)) (ptr t') ll lr le = Some (ps', Some (ll', lr', le')) /\
      plug q' Leaf = plug p (Node a c n k l r) /\ key_state tr noted g ps' q' ll' lr' le' /\ length ps' = length ps) as Hgo.
  { intros q t' ll1 lr1 le1 Eq H1 Epl Hh1 Hk1. destruct (IH tr ps1 q t' ll1 lr1 le1 H1) as (ps' & q' & ll' & lr' & le' & E & Ep & Hk' & El'); try done.
    - by rewrite Epl.
    - by rewrite Epl, El.
    - rewrite Eq in E. eexists ps', q', ll', lr', le'. split_and!; try done; congruence. }
  assert (forall d, (height (side d l r) < fuel)%nat) as Hside by (intros []; cbn; lia).
  pose proof (proj1 (rep_down_left _ _ _ _ _ _ _ _) H) as HL. pose proof (proj1 (rep_down_right _ _ _ _ _ _ _ _) H) as HR.
  destruct (compare k key =? 0) eqn:E0; b2p.
  - rewrite E0 in Hstep. destruct f; cbn in Hmode; try discriminate Hmode; injection Hmode as <- <-; cbn in Hstep |- *;
      first [by apply (Hgo (InRight a c n k l :: p) r _ _ _ eq_refl HR eq_refl (Hside RightChild))|by apply (Hgo (InLeft a c n k r :: p) l _ _ _ eq_refl HL eq_refl (Hside LeftChild))].
  - cbn [andb] in Hstep. destruct (compare k key <? 0) eqn:E1; b2p.
    + assert ((if g then compare k key <=? 0 else true) = true) as E2 by (destruct g; [apply Z.leb_le; lia|done]).
      rewrite E2 in Hstep. by apply (Hgo (InRight a c n k l :: p) r _ _ _ eq_refl HR eq_refl (Hside RightChild)).
    + assert ((if g then compare k key <=? 0 else false) = false) as E2 by (destruct g; [apply Z.leb_gt; lia|done]).
      rewrite E2 in Hstep. by apply (Hgo (InLeft a c n k r :: p) l _ _ _ eq_refl HL eq_refl (Hside LeftChild)).
Qed.

(** A flag that is not supported. *)
Lemma search_key_loop_other f fuel : equal_case f = None -> forall tr ps p t ll lr le,
  rep tr p t -> (height (plug p t) < length ps)%nat -> (height t < fuel)%nat ->
  exists ps' res, search_key_loop compare fuel tr key f ps (length p) (ptr t) ll lr le = Some (ps', res).
Proof.
  intros Hf. induction fuel as [|fuel IH]; intros tr ps p t ll lr le H Hh Hfuel; [lia|]. cbn [search_key_loop].
  destruct t as [|a c n k l r]; cbn [ptr]; [rewrite same_refl; by eexists _, _|].
  assert (same (At a) null_ptr = false) as -> by done. cbn [height] in Hfuel. pose proof (height_plug p (Node a c n k l r)) as Hp. cbn [height] in Hp.
  rewrite put_lt by lia. cbn [mbind option_bind]. rewrite (element_key_node _ _ _ _ _ _ _ _ H), (get_node _ _ _ _ _ _ _ _ H). cbn [mbind option_bind left right].
  destruct (compare k key =? 0); [rewrite Hf; by eexists _, _|]. destruct (compare k key <? 0).
  - apply (IH tr _ (InRight a c n k l :: p) r); [by apply rep_down_right|by rewrite length_insert|lia].
  - apply (IH tr _ (InLeft a c n k r :: p) l); [by apply rep_down_left|by rewrite length_insert|lia].
Qed.

Lemma filter_none (P : Z * Z * K -> Prop) `{forall x, Decision (P x)} L : Forall (fun e => ~ P e) L -> filter P L = [].
Proof. induction 1 as [|x L Hx _ IH]; [done|]. by rewrite filter_cons_False. Qed.

Lemma filter_every (P : Z * Z * K -> Prop) `{forall x, Decision (P x)} L : Forall P L -> filter P L = L.
Proof. induction 1 as [|x L Hx _ IH]; [done|]. by rewrite filter_cons_True, IH. Qed.

Lemma head_equal A : monotone A -> Forall (fun e => 0 <= cmp e) A -> head (filter (fun e => cmp e = 0) A) = equal_one (head A).
Proof.
  intros Hm HA. destruct A as [|e A]; [done|]. cbn [head equal_one mbind option_bind]. apply StronglySorted_inv in Hm as [_ Hm].
  apply Forall_cons in HA as [He HA]. destruct (cmp e =? 0) eqn:E; b2p; [by rewrite filter_cons_True|].
  rewrite filter_cons_False, filter_none; [done| |done]. eapply Forall_impl; [exact Hm|]. cbn. lia.
Qed.

Lemma last_equal B : monotone B -> Forall (fun e => cmp e <= 0) B -> last (filter (fun e => cmp e = 0) B) = equal_one (last B).
Proof.
  intros Hm HB. destruct B as [|e B _] using rev_ind; [done|]. rewrite last_snoc. cbn [equal_one mbind option_bind].
  destruct (monotone_around _ _ _ Hm) as [Hlow _]. apply Forall_app in HB as [HB He]. apply Forall_cons in He as [He _].
  rewrite filter_app. destruct (cmp e =? 0) eqn:E; b2p.
  - rewrite (filter_cons_True _ e []) by done. by rewrite filter_nil, last_snoc.
  - rewrite (filter_cons_False _ e []), filter_nil, app_nil_r, filter_none; [done| |done]. apply Forall_forall. intros x Hx. specialize (Hlow x Hx). cbn in He. lia.
Qed.

(** The spots at the end of the loop. *)
Lemma chosen f noted g tr ps q ll lr le : mode f = Some (noted, g) -> monotone (elems (plug q Leaf)) -> key_state tr noted g ps q ll lr le ->
  exists o, choose f ll lr le = Some o /\ spot tr ps o (wanted f (elems (plug q Leaf))).
Proof.
  intros Hf Hm [_ S2 S3 S4 _ B A]. rewrite elems_plug in *. cbn [elems app] in *.
  assert (monotone (before q) /\ monotone (after q)) as [Mb Ma] by (unfold monotone in *; apply StronglySorted_app in Hm; tauto).
  unfold equal_spot in S4. unfold goes_right in B, A. destruct f; cbn in Hf; try discriminate; injection Hf as <- <-; cbn [wanted choose]; (eexists; split; [done|]); rewrite filter_app.
  - rewrite filter_none, app_nil_l, head_equal; try done; eapply Forall_impl; try eassumption; cbn; intros e He; b2p; lia.
  - rewrite filter_none, filter_every; [|eapply Forall_impl; [exact A|]; cbn; intros e He; b2p; lia|eapply Forall_impl; [exact B|]; cbn; intros e He; b2p; lia].
    cbn [app]. destruct le as [j|]; [|done]. cbn in S4 |- *. unfold equal_one in S4. destruct (head (after q)) as [e|]; [|done].
    cbn in S4. by destruct (cmp e =? 0).
  - rewrite filter_none, filter_every; [done|eapply Forall_impl; [exact A|]; cbn; intros e He; b2p; lia|eapply Forall_impl; [exact B|]; cbn; intros e He; b2p; lia].
  - rewrite filter_every, filter_none, app_nil_r; [done|eapply Forall_impl; [exact A|]; cbn; intros e He; b2p; lia|eapply Forall_impl; [exact B|]; cbn; intros e He; b2p; lia].
  - rewrite (filter_none _ (after q)), app_nil_r, last_equal; try done; eapply Forall_impl; try eassumption; cbn; intros e He; b2p; lia.
  - rewrite filter_every, filter_none, app_nil_r; [|eapply Forall_impl; [exact A|]; cbn; intros e He; b2p; lia|eapply Forall_impl; [exact B|]; cbn; intros e He; b2p; lia].
    destruct le as [j|]; [|done]. cbn in S4 |- *. unfold equal_one in S4. destruct (last (before q)) as [e|]; [|done].
    cbn in S4. by destruct (cmp e =? 0).
Qed.

(** The elements before and after a place are those of the tree. *)
Lemma tree_at_unique h : forall t t', tree_at h t -> tree_at h t' -> ptr t = ptr t' -> t = t' :> tree (K := K).
Proof.
  induction t as [|a c n k l IHl r IHr]; intros [|a' c' n' k' l' r']; cbn; try done. intros (Ha & Hl & Hr) (Ha' & Hl' & Hr') [= <-].
  unfold node_at in *. rewrite Ha in Ha'. injection Ha' as El Er -> -> ->. by rewrite (IHl l'), (IHr r').
Qed.

Lemma split_unique (x : Z * Z * K) (L1 L2 M1 M2 : list (Z * Z * K)) : NoDup (L1 ++ x :: L2) -> L1 ++ x :: L2 = M1 ++ x :: M2 -> L1 = M1 /\ L2 = M2.
Proof.
  intros Hn E. assert (length L1 = length M1) as El.
  { eapply NoDup_lookup; [exact Hn| |rewrite E]; by apply list_lookup_middle. }
  apply app_inj_1 in E as [-> E]; [|done]. by injection E as ->.
Qed.

Lemma place_position tr ps j e t L1 L2 : place tr ps j e -> rep tr [] t -> elems t = L1 ++ e :: L2 ->
  position tr LeftChild ps j e L2 /\ position tr RightChild ps j e (reverse L1).
Proof.
  intros (p & c & l & r & H & Hs & -> & Ha & Hh) Ht El. destruct e as [[a n] k]. cbn in *.
  assert (plug p (Node a c n k l r) = t) as Et.
  { pose proof (proj1 (rep_plug _ _ _) H) as H1. apply (tree_at_unique (heap tr)); [apply H1|apply Ht|]. by rewrite <- (rep_root _ _ H1), (rep_root _ _ Ht). }
  assert (NoDup (elems t)) as Hn.
  { apply NoDup_fmap_1 with (f := fun e : Z * Z * K => e.1.1). change (NoDup (map (fun e => e.1.1) (elems t))). rewrite <- elems_addrs.
    pose proof (rep_nodup _ _ _ Ht) as Hn. cbn in Hn. by rewrite app_nil_r in Hn. }
  rewrite <- Et in El, Hn. rewrite elems_plug in El, Hn. cbn [elems] in El, Hn. rewrite <- app_assoc, (assoc_L app (before p)) in El, Hn. cbn [app] in El, Hn.
  destruct (split_unique _ _ _ _ _ Hn El) as [<- <-].
  split; exists p, a, c, n, k, l, r; split_and!; try done. cbn [rest order side opposite]. by rewrite reverse_app.
Qed.

(** C6.  tree_search_key: with a comparison that increases along the elements, be
    it with a whole key or with a prefix of it, each mode finds the element it asks
    for: the first or the last equal one, the first one after or the last one
    before the key, or an equal one if there is one and the next or previous one
    otherwise; NULL if there is none or the mode is not supported.  The position
    that is left for tree_search_next is that of the element, in both directions. *)
Theorem tree_search_key_correct tr t ps last_pos f :
  tree_ok compare tr t -> elements_in_tree tr + 1 < 2 ^ 32 -> monotone (elems t) -> (MAX_TREE_HEIGHT < length ps)%nat ->
  exists ps' last_pos', tree_search_key compare tr key ps last_pos f = Some (snd <$> wanted f (elems t), ps', last_pos') /\
    forall e, wanted f (elems t) = Some e -> exists i, last_pos' = Some i /\
      forall L1 L2, elems t = L1 ++ e :: L2 -> position tr LeftChild ps' i e L2 /\ position tr RightChild ps' i e (reverse L1).
Proof.
  intros H Hsz Hm Hps. pose proof (tree_ok_height _ _ _ H Hsz) as Hh. pose proof (to_rep _ _ _ H) as Hr. unfold MAX_TREE_HEIGHT in Hps.
  unfold tree_search_key. rewrite put_lt by lia. cbn [mbind option_bind]. rewrite (rep_root _ _ Hr). set (ps0 := <[0%nat := null_ptr]> ps).
  assert (length ps0 = length ps) as El by apply length_insert.
  destruct (mode f) as [[noted g]|] eqn:Hmode.
  - destruct (search_key_loop_rep f noted g (length ps0) Hmode tr ps0 [] t None None None Hr Hm) as (ps' & q & ll & lr & le & E & Epl & Hk & El').
    { cbn. lia. } { lia. }
    { split; try done; [cbn; apply list_lookup_insert_eq; lia|by destruct noted, g]. }
    cbn [length] in E. rewrite E. cbn [mbind option_bind]. cbn [plug] in Epl. subst t.
    destruct (chosen f noted g tr ps' q ll lr le Hmode Hm Hk) as (o & -> & Ho).
    destruct o as [i|], (wanted f (elems (plug q Leaf))) as [e|]; try done; [|by exists ps', None].
    cbn [spot] in Ho. pose proof Ho as (p' & c' & l' & r' & H' & _ & _ & Ha & _). rewrite Ha. cbn [mbind option_bind].
    rewrite (element_key_node _ _ _ _ _ _ _ _ H'). cbn [mbind option_bind]. exists ps', (Some i). split; [done|]. intros e' [= <-].
    exists i. split; [done|]. intros L1 L2 E'. by eapply place_position.
  - assert (equal_case f = None /\ (forall a b c, choose f a b c = None) /\ wanted f (elems t) = None) as (Ef & Ec & ->) by by destruct f.
    destruct (search_key_loop_other f (length ps0) Ef tr ps0 [] t None None None Hr) as (ps' & res & E); [cbn; lia|lia|].
    cbn [length] in E. rewrite E. cbn [mbind option_bind]. destruct res as [[[ll lr] le]|]; [rewrite Ec|]; by eexists _, _.
Qed.
End SearchKey.

(** ** tree_search *)

Section Exact.
Context `{!KeyOrder compare}.

Lemma search_loop_rep key fuel : forall tr p t, rep tr p t -> (height t < fuel)%nat ->
  sorted compare t -> below compare key (before p) -> beyond compare key (after p) ->
  exists o, search_loop compare fuel tr (ptr t) key = Some o /\
    match o with
    | Some x => exists e, e ∈ elems (plug p t) /\ x = At e.1.1 /\ compare e.2 key = 0 /\ element_key tr x = Some e.2
    | None => Forall (fun e => compare e.2 key <> 0) (elems (plug p t))
    end.
Proof.
  induction fuel as [|fuel IH]; intros tr p t H Hf Hs Hb Hy; [lia|]. cbn [search_loop]. destruct t as [|a c n k l r]; cbn [ptr].
  { rewrite same_refl. exists None. split; [done|]. rewrite elems_plug. apply Forall_app. split; (eapply Forall_impl; [eassumption|]); cbn; lia. }
  assert (same (At a) null_ptr = false) as -> by done. cbn [height] in Hf. pose proof (element_key_node _ _ _ _ _ _ _ _ H) as Ek.
  rewrite Ek, (get_node _ _ _ _ _ _ _ _ H). cbn [mbind option_bind left right]. unfold sorted in Hs. cbn [elems] in Hs.
  destruct (compare k key =? 0) eqn:E0; b2p.
  - exists (Some (At a)). split; [done|]. exists (a, n, k). split_and!; try done. rewrite elems_plug. cbn [elems]. set_solver.
  - destruct (compare k key <? 0) eqn:E1; b2p.
    + apply (IH tr (InRight a c n k l :: p) r); [by apply rep_down_right|lia| | |done].
      * apply sorted_app in Hs as (_ & Hs & _). by apply StronglySorted_inv in Hs as [Hs _].
      * cbn [before]. apply Forall_app. split; [done|]. by eapply below_left.
    + apply (IH tr (InLeft a c n k r :: p) l); [by apply rep_down_left|lia| |done|].
      * by apply sorted_app in Hs as (Hs & _).
      * cbn [after]. apply Forall_app_2 with (l1 := (a, n, k) :: elems r); [|done]. apply (beyond_right compare key (elems l)); [done|cbn; lia].
Qed.

(** tree_search returns the key of the element that compares equal, and NULL
    exactly when no element does. *)
Theorem tree_search_correct tr t key : tree_ok compare tr t ->
  exists o, tree_search compare tr key = Some o /\
    match o with
    | Some k => compare k key = 0 /\ exists a n, (a, n, k) ∈ elems t
    | None => Forall (fun e => compare e.2 key <> 0) (elems t)
    end.
Proof.
  intros H. unfold tree_search. rewrite (rep_root _ _ (to_rep _ _ _ H)). pose proof (height_elems t) as Hh. rewrite <- (heap_size _ _ _ H) in Hh.
  destruct (search_loop_rep key (S (base.size (heap tr))) tr [] t (to_rep _ _ _ H)) as (o & -> & Ho); [lia|apply H|constructor|constructor|].
  cbn [mbind option_bind]. destruct o as [x|]; [|by exists None]. destruct Ho as (e & He & -> & Hc & ->). exists (Some e.2). split; [done|]. split; [done|].
  exists e.1.1, e.1.2. by destruct e as [[? ?] ?].
Qed.

(** The comparison with a key that is compared like the elements increases. *)
Lemma sorted_monotone t key : sorted compare t -> monotone key (elems t).
Proof.
  unfold sorted, monotone. induction 1 as [|e L Hs IH Hf]; constructor; [done|]. eapply Forall_impl; [exact Hf|]. intros e' He. unfold lt_elem in He.
  destruct (Z.compare_spec (compare e'.2 key) 0) as [E|E|E].
  - pose proof (compare_lt_eq e.2 e'.2 key He E). lia.
  - pose proof (compare_trans e.2 e'.2 key He E). lia.
  - lia.
Qed.
End Exact.

End Key.

(** ** The debug check *)

Section DebugCheck.
Context {K : Type}.
Implicit Types (tr : TREE K) (t l r : tree (K := K)) (p : path (K := K)).

(** A colour is one bit. *)
Fixpoint colours_ok t : Prop :=
  match t with Leaf => True | Node _ c _ _ l r => (c = RED \/ c = BLACK) /\ colours_ok l /\ colours_ok r end.

Lemma rbt_unique n t : rbt n t -> forall m, rbt m t -> n = m.
Proof.
  induction 1 as [|n a x k l r Hl IHl Hr IHr|n a x k l r Hl IHl Hr IHr Cl Cr]; intros m Hm; inversion Hm; subst; try done; auto.
Qed.

(** test_rb_tree, the check of the debug build, returns the number of black
    elements on the paths exactly when there is no red element below a red one and
    this number is the same on every path, and -1 otherwise. *)
Theorem test_rb_tree_correct tr p t fuel : rep tr p t -> colours_ok t -> (height t < fuel)%nat ->
  exists v, test_rb_tree fuel tr (ptr t) = Some v /\ (v = -1 \/ 0 <= v) /\ forall n, rbt n t <-> v = Z.of_nat n.
Proof.
  revert p t. induction fuel as [|fuel IH]; intros p t H Hc Hf; [lia|]. cbn [test_rb_tree]. rewrite (get_ptr _ _ _ H). cbn [mbind option_bind].
  destruct t as [|a c n k l r]; cbn [left right colour].
  { rewrite same_refl. exists 0. split; [done|]. split; [lia|]. intros n. split; [intros Hn; by inversion Hn|]. intros E. assert (n = O) as -> by lia. constructor. }
  assert (same (ptr l) NULL = false) as -> by by destruct l. cbn [colours_ok height] in *. destruct Hc as (Hc & Hcl & Hcr).
  pose proof (proj1 (rep_down_left _ _ _ _ _ _ _ _) H) as HL. pose proof (proj1 (rep_down_right _ _ _ _ _ _ _ _) H) as HR.
  rewrite (get_ptr _ _ _ HL), (get_ptr _ _ _ HR). cbn [mbind option_bind]. rewrite !element_colour.
  destruct (IH _ _ HL Hcl ltac:(lia)) as (vl & -> & Hvl & Hl). destruct (IH _ _ HR Hcr ltac:(lia)) as (vr & -> & Hvr & Hr). cbn [mbind option_bind].
  destruct ((c =? RED) && ((root_colour l =? RED) || (root_colour r =? RED))) eqn:Ered.
  { exists (-1). split; [done|]. split; [by left|]. intros m. split; [|lia]. intros Hm. exfalso. rewrite andb_true_iff, orb_true_iff in Ered. destruct Ered as [E1 E2]. b2p.
    destruct (rbt_red_inv _ _ _ _ _ _ _ Hm E1) as (_ & _ & Cl & Cr). rewrite Cl, Cr in E2. by destruct E2. }
  destruct ((0 <=? vl) && (0 <=? vr) && (vl =? vr)) eqn:Eok.
  - b2p. subst vr. eexists. split; [done|]. split; [right; destruct (c =? BLACK); lia|]. intros m.
    assert (rbt (Z.to_nat vl) l) as Rl by (apply Hl; lia). assert (rbt (Z.to_nat vl) r) as Rr by (apply Hr; lia).
    assert (rbt (Z.to_nat (vl + (if c =? BLACK then 1 else 0))) (Node a c n k l r)) as Rn.
    { destruct Hc as [->| ->].
      - assert (Z.to_nat (vl + (if RED =? BLACK then 1 else 0)) = Z.to_nat vl) as -> by (change (RED =? BLACK) with false; lia). change (RED =? RED) with true in Ered. cbn [andb] in Ered. apply orb_false_iff in Ered as [E1 E2].
        constructor; try done; by eapply rbt_node_black.
      - assert (Z.to_nat (vl + (if BLACK =? BLACK then 1 else 0)) = S (Z.to_nat vl)) as -> by (change (BLACK =? BLACK) with true; lia). by constructor. }
    split; [intros Hm; rewrite <- (rbt_unique _ _ Rn m Hm); destruct (c =? BLACK); lia|]. intros E. by rewrite E, Nat2Z.id in Rn.
  - exists (-1). split; [done|]. split; [by left|]. intros m. split; [|lia]. intros Hm. exfalso.
    assert (exists h, rbt h l /\ rbt h r) as (h & Rl & Rr) by (inversion Hm; eauto). apply Hl in Rl. apply Hr in Rr.
    rewrite Rl, Rr, Z.eqb_refl in Eok. rewrite !(proj2 (Z.leb_le 0 _)) in Eok by lia. done.
Qed.

End DebugCheck.

(** ** init_tree and delete_tree *)

Section Whole.
Context {K : Type} (compare : K -> K -> Z).
Implicit Types (tr : TREE K) (t : tree (K := K)).

Lemma init_tree_ok my_malloc parents0 mem_root0 das ml size wd hf : length parents0 = MAX_TREE_HEIGHT ->
  tree_ok compare (init_tree (K := K) my_malloc parents0 mem_root0 das ml size wd hf) Leaf.
Proof.
  intros Hp. apply tree_ok_empty; try done. cbn. intros ->. split; [|done]. by repeat constructor.
Qed.

(** delete_tree and reset_tree call the free function once for every element,
    in order, between the calls for the start and the end if the tree has a memory
    limit, and leave the empty tree without any element in memory. *)
Theorem delete_tree_correct tr t : tree_ok compare tr t ->
  (exists tr', delete_tree tr = Some tr' /\ tree_ok compare tr' Leaf /\ heap tr' = ∅ /\ freed tr' = freed tr ++ free_tree_calls tr t /\ same_settings tr tr') /\
  (exists tr', reset_tree tr = Some tr' /\ tree_ok compare tr' Leaf /\ heap tr' = ∅ /\ freed tr' = freed tr ++ free_tree_calls tr t /\ same_settings tr tr').
Proof.
  intros H. assert (forall tr', tree_ok compare tr' Leaf -> heap tr' = ∅) as He.
  { intros tr' H'. apply dom_empty_inv_L. apply (to_dom _ _ _ H'). }
  split; unfold delete_tree, reset_tree.
  - destruct (free_tree_spec compare tr t 0 H) as (tr' & -> & H' & Hf & _ & Hs & _). exists tr'. split_and!; auto.
  - destruct (free_tree_spec compare tr t MY_MARK_BLOCKS_FREE H) as (tr' & -> & H' & Hf & _ & Hs & _). exists tr'. split_and!; auto.
Qed.
End Whole.
