(* ===== verification/TreeExample.v ===== *)
(** * Balanced trees: a concrete tree

    A tree of integers, built by the operations, at which the theorems on trees
    are applied. *)

From stdpp Require Import prelude list gmap sorting.
From Stdlib Require Import ZArith Lia.
From S2P Require Import Prelude MemRoot Tree TreeRep TreeBalance TreeFixup TreeOrder TreeInsert TreeDelete TreeSearch TreeKey.

Open Scope Z_scope.

Definition int_compare (a b : Z) : Z := a - b.

#[export] Instance int_key_order : KeyOrder int_compare.
Proof. split; unfold int_compare; lia. Qed.

Definition no_malloc (bs : list USED_MEM) (sz : Z) : option Z := None.
Definition malloc_int (live : gset Z) (sz : Z) : option Z := Some (fresh live).

Lemma no_malloc_ok : malloc_ok no_malloc.
Proof. by intros bs sz a H. Qed.

Lemma malloc_int_fresh : malloc_fresh malloc_int.
Proof. intros live sz a [= <-]. apply is_fresh. Qed.

Definition empty_root : MEM_ROOT := mk_root [] [] None 32 0 4 0.

(** An empty tree of integers with deletion, and the tree after some insertions. *)
Definition int_tree : TREE Z := init_tree no_malloc (replicate MAX_TREE_HEIGHT RootLink) empty_root 0 0 8 true true.

Definition insert_all (keys : list Z) (tr : TREE Z) : option (TREE Z) :=
  foldl (fun tr k => tr ← tr; '(_, tr) ← tree_insert int_compare no_malloc malloc_int tr k 0; Some tr) (Some tr) keys.

Definition ex_tr : TREE Z := Eval vm_compute in default int_tree (insert_all [20; 10; 30; 40; 10] int_tree).
Definition ex_t : tree (K := Z) := Node 0 BLACK 1 20 (Node 1 BLACK 2 10 Leaf Leaf) (Node 2 BLACK 1 30 Leaf (Node 3 RED 1 40 Leaf Leaf)).

Lemma ex_rep : rep ex_tr [] ex_t.
Proof.
  split; [repeat split; vm_compute; reflexivity|reflexivity| |reflexivity]. apply (bool_decide_unpack _). vm_compute. exact I.
Qed.

Lemma ex_rbt : rbt 2 ex_t.
Proof. repeat first [apply rbt_leaf|apply rbt_black|apply rbt_red; [| |reflexivity|reflexivity]]. Qed.

Lemma ex_tree_ok : tree_ok int_compare ex_tr ex_t.
Proof.
  split; [exact ex_rep| |exists 2%nat; exact ex_rbt|reflexivity| |reflexivity|reflexivity| |reflexivity|discriminate].
  - apply (bool_decide_unpack _). vm_compute. exact I.
  - repeat constructor.
  - repeat constructor; cbn; lia.
Qed.

Lemma ex_fits : alloc_fits ex_tr 0.
Proof. unfold alloc_fits, sizeof_TREE_ELEMENT. cbn. split_and!; [lia..|discriminate]. Qed.

Definition ex_stack : list pointer := replicate 65 NULL.

Lemma ex_stack_long : (MAX_TREE_HEIGHT < length ex_stack)%nat.
Proof. unfold ex_stack, MAX_TREE_HEIGHT. rewrite length_replicate. lia. Qed.

Lemma tree_insert_correct_witness :
  (exists result tr' t', tree_insert int_compare no_malloc malloc_int ex_tr 25 0 = Some (result, tr') /\ tree_ok int_compare tr' t') /\
  fst <$> tree_insert int_compare no_malloc malloc_int ex_tr 25 0 = Some (At 4).
Proof.
  split; [|vm_compute; reflexivity].
  destruct (tree_insert_correct int_compare no_malloc malloc_int no_malloc_ok malloc_int_fresh ex_tr ex_t 25 0 ex_tree_ok ex_fits) as (result & tr' & t' & E & H & _); [cbn; lia|].
  exists result, tr', t'. by split.
Defined.

Lemma tree_delete_correct_witness :
  (exists res tr' t', tree_delete int_compare ex_tr 10 0 = Some (res, tr') /\ tree_ok int_compare tr' t') /\
  fst <$> tree_delete int_compare ex_tr 10 0 = Some 0 /\ fst <$> tree_delete int_compare ex_tr 11 0 = Some 1.
Proof.
  split; [|split; vm_compute; reflexivity].
  destruct (tree_delete_correct int_compare ex_tr ex_t 10 0 ex_tree_ok) as (res & tr' & t' & E & H & _); [cbn; lia|]. exists res, tr', t'. by split.
Defined.

Lemma tree_scan_complete_witness :
  scan 5 ex_tr ex_stack LeftChild = Some [10; 20; 30; 40] /\ scan 5 ex_tr ex_stack RightChild = Some [40; 30; 20; 10].
Proof.
  split; [apply (tree_scan_complete int_compare ex_tr ex_t ex_stack LeftChild ex_tree_ok)|apply (tree_scan_complete int_compare ex_tr ex_t ex_stack RightChild ex_tree_ok)]; first [reflexivity|apply ex_stack_long].
Defined.

(** The sum of the counts. *)
Definition add_count (k n x : Z) : Z * Z := (0, x + n).

Lemma tree_walk_correct_witness : tree_walk add_count ex_tr 0 left_root_right = Some (0, 5) /\ tree_walk add_count ex_tr 0 right_root_left = Some (0, 5).
Proof. apply (tree_walk_correct int_compare add_count ex_tr ex_t 0 ex_tree_ok). Defined.

Lemma tree_search_key_correct_witness :
  (exists ps' last_pos', tree_search_key int_compare ex_tr 25 ex_stack None HA_READ_KEY_OR_NEXT = Some (Some 30, ps', last_pos')) /\
  (exists ps' last_pos', tree_search_key int_compare ex_tr 25 ex_stack None HA_READ_BEFORE_KEY = Some (Some 20, ps', last_pos')).
Proof.
  assert (monotone int_compare 25 (elems ex_t)) as Hm by (apply sorted_monotone; [apply int_key_order|apply ex_tree_ok]).
  split.
  - destruct (tree_search_key_correct int_compare 25 ex_tr ex_t ex_stack None HA_READ_KEY_OR_NEXT ex_tree_ok) as (ps' & lp & E & _); [cbn; lia|done|apply ex_stack_long|].
    exists ps', lp. exact E.
  - destruct (tree_search_key_correct int_compare 25 ex_tr ex_t ex_stack None HA_READ_BEFORE_KEY ex_tree_ok) as (ps' & lp & E & _); [cbn; lia|done|apply ex_stack_long|].
    exists ps', lp. exact E.
Defined.

Lemma tree_search_correct_witness : exists o, tree_search int_compare ex_tr 30 = Some o /\ o = Some 30.
Proof.
  destruct (tree_search_correct int_compare ex_tr ex_t 30 ex_tree_ok) as (o & E & H). exists o. split; [exact E|]. vm_compute in E. by injection E as <-.
Defined.

Lemma test_rb_tree_correct_witness : exists v, test_rb_tree 4 ex_tr (At 0) = Some v /\ v = 2.
Proof.
  destruct (test_rb_tree_correct ex_tr [] ex_t 4 ex_rep) as (v & E & _ & H); [cbn; tauto|cbn; lia|]. exists v. split; [exact E|]. apply (H 2%nat), ex_rbt.
Defined.

Lemma delete_tree_correct_witness :
  (exists tr', delete_tree ex_tr = Some tr' /\ heap tr' = ∅) /\
  (freed <$> delete_tree ex_tr) = Some [(free_free, Some 10); (free_free, Some 20); (free_free, Some 30); (free_free, Some 40)].
Proof.
  split; [|vm_compute; reflexivity]. destruct (delete_tree_correct int_compare ex_tr ex_t ex_tree_ok) as [(tr' & E & _ & Hh & _) _]. exists tr'. by split.
Defined.
