(* ===== verification/ThrLock.v ===== *)
(** * Table locks: mysys/thr_lock.c, include/thr_lock.h

    A THR_LOCK has four queues of lock instances: the granted read and write
    locks and the requests that wait for one.  A THR_LOCK_DATA is in at most
    one queue; the instances in none of them are kept in [loose].  The queues
    are linked through the instances, each with a pointer to the link that points
    at it; a queue of the model is the list of its instances, so that unlinking
    by [prev] is removing the instance from the queue it is in.

    The mutex of the lock is held during a whole call but for the wait on the
    condition, so that a call is one atomic step or two: [thr_lock] up to the
    wait, and [wait_leave] when the thread comes back.  What a call does apart
    from the queues is recorded in [log]: the signals to waiting threads, the
    calls of the status functions of the engine (made when the engine has set
    them) and the two counters of the server. *)

From stdpp Require Import prelude list list_numbers.
From Stdlib Require Import ZArith Lia ZifyNat.
From S2P Require Import Prelude.

Open Scope Z_scope.

(** ** Data *)

Inductive thr_lock_type : Type :=
  | TL_IGNORE | TL_UNLOCK | TL_READ_DEFAULT | TL_READ | TL_READ_WITH_SHARED_LOCKS
  | TL_READ_HIGH_PRIORITY | TL_READ_NO_INSERT | TL_WRITE_ALLOW_WRITE
  | TL_WRITE_CONCURRENT_INSERT | TL_WRITE_DELAYED | TL_WRITE_DEFAULT
  | TL_WRITE_LOW_PRIORITY | TL_WRITE | TL_WRITE_ONLY.

#[export] Instance thr_lock_type_eq_dec : EqDecision thr_lock_type.
Proof. solve_decision. Defined.

(** The enumeration starts at -1. *)
Definition num (t : thr_lock_type) : Z :=
  match t with
  | TL_IGNORE => -1 | TL_UNLOCK => 0 | TL_READ_DEFAULT => 1 | TL_READ => 2
  | TL_READ_WITH_SHARED_LOCKS => 3 | TL_READ_HIGH_PRIORITY => 4 | TL_READ_NO_INSERT => 5
  | TL_WRITE_ALLOW_WRITE => 6 | TL_WRITE_CONCURRENT_INSERT => 7 | TL_WRITE_DELAYED => 8
  | TL_WRITE_DEFAULT => 9 | TL_WRITE_LOW_PRIORITY => 10 | TL_WRITE => 11 | TL_WRITE_ONLY => 12
  end.

Definition type_le (a b : thr_lock_type) : bool := num a <=? num b.
Definition type_eq (a b : thr_lock_type) : bool := bool_decide (a = b).

Inductive enum_thr_lock_result : Type :=
  THR_LOCK_SUCCESS | THR_LOCK_ABORTED | THR_LOCK_WAIT_TIMEOUT | THR_LOCK_DEADLOCK.

(** [address] stands for the pointer to the instance, [owner] for the pointer to
    the THR_LOCK_INFO; [cond] tells whether the condition pointer is set. *)
Record THR_LOCK_DATA : Type := mk_data {
  address : nat;
  owner : nat;
  cond : bool;
  type : thr_lock_type
}.

#[export] Instance THR_LOCK_DATA_eq_dec : EqDecision THR_LOCK_DATA.
Proof. solve_decision. Defined.

Inductive lock_event : Type :=
  | Signal (address : nat)
  | GetStatus (address : nat) (concurrent_insert : bool)
  | UpdateStatus (address : nat)
  | RestoreStatus (address : nat)
  | LocksImmediate
  | LocksWaited.

Record THR_LOCK : Type := mk_lock {
  read_wait : list THR_LOCK_DATA;
  read : list THR_LOCK_DATA;
  write_wait : list THR_LOCK_DATA;
  write : list THR_LOCK_DATA;
  loose : list THR_LOCK_DATA;
  write_lock_count : Z;
  read_no_write_count : Z;
  has_check_status : bool;
  log : list lock_event
}.

Definition with_type (d : THR_LOCK_DATA) (t : thr_lock_type) : THR_LOCK_DATA :=
  mk_data (address d) (owner d) (cond d) t.
Definition with_cond (d : THR_LOCK_DATA) (c : bool) : THR_LOCK_DATA :=
  mk_data (address d) (owner d) c (type d).

Definition set_queues (l : THR_LOCK) (rw r ww w : list THR_LOCK_DATA) : THR_LOCK :=
  mk_lock rw r ww w (loose l) (write_lock_count l) (read_no_write_count l) (has_check_status l) (log l).
Definition set_loose (l : THR_LOCK) (ds : list THR_LOCK_DATA) : THR_LOCK :=
  mk_lock (read_wait l) (read l) (write_wait l) (write l) ds (write_lock_count l)
    (read_no_write_count l) (has_check_status l) (log l).
Definition set_counts (l : THR_LOCK) (wc rc : Z) : THR_LOCK :=
  mk_lock (read_wait l) (read l) (write_wait l) (write l) (loose l) wc rc (has_check_status l) (log l).
Definition emit (l : THR_LOCK) (e : list lock_event) : THR_LOCK :=
  mk_lock (read_wait l) (read l) (write_wait l) (write l) (loose l) (write_lock_count l)
    (read_no_write_count l) (has_check_status l) (log l ++ e).

(** ** Setting up *)

Definition thr_lock_init (has_check : bool) : THR_LOCK := mk_lock [] [] [] [] [] 0 0 has_check [].

(** A new instance at address [a]; 0 is the null owner. *)
Definition thr_lock_data_init (l : THR_LOCK) (a : nat) : THR_LOCK :=
  set_loose l (mk_data a 0 false TL_UNLOCK :: loose l).

Definition thr_lock_owner_equal (rhs lhs : nat) : bool := (rhs =? lhs)%nat.

Fixpoint has_old_lock (data : list THR_LOCK_DATA) (o : nat) : bool :=
  match data with
  | [] => false
  | d :: data => if thr_lock_owner_equal (owner d) o then true else has_old_lock data o
  end.

Fixpoint have_specific_lock (data : list THR_LOCK_DATA) (t : thr_lock_type) : bool :=
  match data with
  | [] => false
  | d :: data => if type_eq (type d) t then true else have_specific_lock data t
  end.

(** ** Queues *)

Definition is_at (a : nat) (d : THR_LOCK_DATA) : bool := (address d =? a)%nat.

Definition remove_at (a : nat) (q : list THR_LOCK_DATA) : list THR_LOCK_DATA :=
  List.filter (fun d => negb (is_at a d)) q.

(** The instance at address [a], wherever it is. *)
Definition find_data (l : THR_LOCK) (a : nat) : option THR_LOCK_DATA :=
  List.find (is_at a) (read_wait l ++ read l ++ write_wait l ++ write l ++ loose l).

(** [( *data->prev)=data->next]: out of the queue it is in. *)
Definition unlink (l : THR_LOCK) (a : nat) : THR_LOCK :=
  set_queues l (remove_at a (read_wait l)) (remove_at a (read l))
    (remove_at a (write_wait l)) (remove_at a (write l)).

(** The instance [d], in no queue any more, with its new members. *)
Definition put_loose (l : THR_LOCK) (d : THR_LOCK_DATA) : THR_LOCK :=
  set_loose l (d :: remove_at (address d) (loose l)).
Definition take_loose (l : THR_LOCK) (a : nat) : THR_LOCK :=
  set_loose l (remove_at a (loose l)).

Definition count_no_insert (q : list THR_LOCK_DATA) : nat :=
  length (List.filter (fun d => type_eq (type d) TL_READ_NO_INSERT) q).

(** ** Granting *)

(** The loop of free_all_read_locks: the requests that get the lock, those that
    go back to the waiting ones, the counter and the signals. *)
Fixpoint free_loop (using_concurrent_insert : bool) (data : list THR_LOCK_DATA) (no_write : Z)
    : list THR_LOCK_DATA * list THR_LOCK_DATA * Z * list lock_event :=
  match data with
  | [] => ([], [], no_write, [])
  | d :: data =>
    if type_eq (type d) TL_READ_NO_INSERT && using_concurrent_insert then
      let '(given, back, no_write, ev) := free_loop using_concurrent_insert data no_write in
      (given, d :: back, no_write, ev)
    else
      let no_write := if type_eq (type d) TL_READ_NO_INSERT then u32 (no_write + 1) else no_write in
      let '(given, back, no_write, ev) := free_loop using_concurrent_insert data no_write in
      (with_cond d false :: given, back, no_write, Signal (address d) :: ev)
  end.

Definition free_all_read_locks (l : THR_LOCK) (using_concurrent_insert : bool) : THR_LOCK :=
  let '(given, back, no_write, ev) :=
    free_loop using_concurrent_insert (read_wait l) (read_no_write_count l) in
  let l := set_queues l back (read l ++ given) (write_wait l) (write l) in
  let write_count := match back with [] => 0 | _ => write_lock_count l end in
  emit (set_counts l write_count no_write) ev.

Section Wake.
(** [check_status] is the answer of the engine's function for an instance; the
    function is only called when it is set. *)
Context (max_write_lock_count : Z) (check_status : nat -> bool).

(** The loop that gives the lock to the first waiting writer, and to those after
    it that may write together with it; the type of the last one. *)
Fixpoint give_loop (ww w : list THR_LOCK_DATA) (last : thr_lock_type)
    : list THR_LOCK_DATA * list THR_LOCK_DATA * thr_lock_type * list lock_event :=
  match ww with
  | [] => (ww, w, last, [])
  | d :: ww =>
    let t := if type_eq (type d) TL_WRITE_CONCURRENT_INSERT && check_status (address d)
             then TL_WRITE else type d in
    let w := w ++ [mk_data (address d) (owner d) false t] in
    let more := match ww with
                | [] => false
                | n :: _ => type_eq t TL_WRITE_ALLOW_WRITE && type_eq (type n) TL_WRITE_ALLOW_WRITE
                end in
    if more then
      let '(ww, w, last, ev) := give_loop ww w t in
      (ww, w, last, Signal (address d) :: ev)
    else (ww, w, t, [Signal (address d)])
  end.

(** The loop that starts writers together with the readers; [lock_type] is the
    type of the first. *)
Fixpoint start_loop (lock_type : thr_lock_type) (ww w : list THR_LOCK_DATA)
    : list THR_LOCK_DATA * list THR_LOCK_DATA * list lock_event :=
  match ww with
  | [] => (ww, w, [])
  | d :: ww =>
    let w := w ++ [with_cond d false] in
    let more := match ww with
                | [] => false
                | n :: _ => type_eq lock_type TL_WRITE_ALLOW_WRITE && type_eq (type n) TL_WRITE_ALLOW_WRITE
                end in
    if more then
      let '(ww, w, ev) := start_loop lock_type ww w in
      (ww, w, Signal (address d) :: ev)
    else (ww, w, [Signal (address d)])
  end.

Definition is_concurrent (t : thr_lock_type) : bool :=
  type_eq t TL_WRITE_CONCURRENT_INSERT || type_eq t TL_WRITE_ALLOW_WRITE.

(** Readers too, if there are any. *)
Definition free_waiting (l : THR_LOCK) (using_concurrent_insert : bool) : THR_LOCK :=
  match read_wait l with [] => l | _ => free_all_read_locks l using_concurrent_insert end.

(** No lock is in use. *)
Definition wake_idle (l : THR_LOCK) : THR_LOCK :=
  match write_wait l with
  | [] => free_waiting l false
  | data :: _ =>
    if negb (type_eq (type data) TL_WRITE_LOW_PRIORITY) ||
       match read_wait l with
       | [] => true
       | r :: _ => num (type r) <? num TL_READ_HIGH_PRIORITY
       end
    then
      let too_many := max_write_lock_count <? write_lock_count l in
      let l := set_counts l (if too_many then 0 else u64 (write_lock_count l + 1)) (read_no_write_count l) in
      if too_many && match read_wait l with [] => false | _ => true end
      then free_all_read_locks l false
      else
        let '(ww, w, t, ev) := give_loop (write_wait l) (write l) (type data) in
        let l := emit (set_queues l (read_wait l) (read l) ww w) ev in
        if type_le TL_WRITE_LOW_PRIORITY t then l
        else free_waiting l (is_concurrent t)
    else free_waiting l (is_concurrent (type data))
  end.

(** Only read locks are in use. *)
Definition wake_readers (l : THR_LOCK) : THR_LOCK :=
  match write_wait l with
  | [] => free_waiting l false
  | data :: ww =>
    let lock_type := type data in
    if type_le lock_type TL_WRITE_DELAYED &&
       (negb (is_concurrent lock_type) || (read_no_write_count l =? 0))
    then
      if type_eq lock_type TL_WRITE_CONCURRENT_INSERT && check_status (address data)
      then free_waiting (set_queues l (read_wait l) (read l) (with_type data TL_WRITE :: ww) (write l)) false
      else
        let '(ww, w, ev) := start_loop lock_type (write_wait l) (write l) in
        let l := emit (set_queues l (read_wait l) (read l) ww w) ev in
        free_waiting l (is_concurrent lock_type)
    else l
  end.

Definition wake_up_waiters (l : THR_LOCK) : THR_LOCK :=
  match write l with
  | [] => match read l with [] => wake_idle l | _ => wake_readers l end
  | _ => l
  end.
End Wake.

(** ** The calls *)

Section Calls.
Context (max_write_lock_count : Z) (check_status : nat -> bool).
(** The type a concurrent insert gets that is not possible. *)
Context (thr_upgraded_concurrent_insert_lock : thr_lock_type).

Definition wake : THR_LOCK -> THR_LOCK := wake_up_waiters max_write_lock_count check_status.

(** A request at once into the queue of granted read or write locks. *)
Definition grant_read (l : THR_LOCK) (d : THR_LOCK_DATA) : THR_LOCK :=
  let l := set_queues l (read_wait l) (read l ++ [d]) (write_wait l) (write l) in
  let count := if type_eq (type d) TL_READ_NO_INSERT then u32 (read_no_write_count l + 1)
               else read_no_write_count l in
  emit (set_counts l (write_lock_count l) count) [GetStatus (address d) false; LocksImmediate].

Definition grant_write (l : THR_LOCK) (d : THR_LOCK_DATA) (concurrent_insert : bool) : THR_LOCK :=
  emit (set_queues l (read_wait l) (read l) (write_wait l) (write l ++ [d]))
    [GetStatus (address d) concurrent_insert; LocksImmediate].

(** wait_for_lock up to the wait, for a request that is in no queue yet. *)
Definition wait_read (l : THR_LOCK) (d : THR_LOCK_DATA) : THR_LOCK :=
  emit (set_queues l (read_wait l ++ [with_cond d true]) (read l) (write_wait l) (write l)) [LocksWaited].
Definition wait_write (l : THR_LOCK) (d : THR_LOCK_DATA) : THR_LOCK :=
  emit (set_queues l (read_wait l) (read l) (write_wait l ++ [with_cond d true]) (write l)) [LocksWaited].

(** The request is refused. *)
Definition refuse (l : THR_LOCK) (d : THR_LOCK_DATA) : THR_LOCK :=
  put_loose l (with_type d TL_UNLOCK).

Definition lock_for_read (l : THR_LOCK) (d : THR_LOCK_DATA) : option enum_thr_lock_result * THR_LOCK :=
  match write l with
  | w :: _ =>
    if thr_lock_owner_equal (owner d) (owner w) ||
       (type_le (type w) TL_WRITE_DELAYED &&
        (type_le (type d) TL_READ_HIGH_PRIORITY ||
         negb (type_eq (type w) TL_WRITE_CONCURRENT_INSERT)))
    then (Some THR_LOCK_SUCCESS, grant_read l d)
    else if type_eq (type w) TL_WRITE_ONLY then (Some THR_LOCK_ABORTED, refuse l d)
    else (None, wait_read l d)
  | [] =>
    if match write_wait l with
       | [] => true
       | w :: _ => type_le (type w) TL_WRITE_LOW_PRIORITY
       end || type_eq (type d) TL_READ_HIGH_PRIORITY || has_old_lock (read l) (owner d)
    then (Some THR_LOCK_SUCCESS, grant_read l d)
    else (None, wait_read l d)
  end.

(** A write lock is held already. *)
Definition lock_second_write (l : THR_LOCK) (d w : THR_LOCK_DATA) : option enum_thr_lock_result * THR_LOCK :=
  if type_eq (type w) TL_WRITE_ONLY && negb (thr_lock_owner_equal (owner d) (owner w))
  then (Some THR_LOCK_ABORTED, refuse l d)
  else if (type_eq (type d) TL_WRITE_ALLOW_WRITE &&
           match write_wait l with [] => true | _ => false end &&
           type_eq (type w) TL_WRITE_ALLOW_WRITE) ||
          has_old_lock (write l) (owner d)
  then (Some THR_LOCK_SUCCESS, grant_write l d false)
  else (None, wait_write l d).

(** No write lock is held. *)
Definition lock_first_write (l : THR_LOCK) (d : THR_LOCK_DATA) : option enum_thr_lock_result * THR_LOCK :=
  match write_wait l with
  | [] =>
    let '(d, concurrent_insert) :=
      if type_eq (type d) TL_WRITE_CONCURRENT_INSERT then
        if check_status (address d) then (with_type d thr_upgraded_concurrent_insert_lock, false)
        else (d, true)
      else (d, false) in
    if match read l with [] => true | _ => false end ||
       (type_le (type d) TL_WRITE_DELAYED &&
        (negb (is_concurrent (type d)) || (read_no_write_count l =? 0)))
    then (Some THR_LOCK_SUCCESS, grant_write l d concurrent_insert)
    else (None, wait_write l d)
  | _ => (None, wait_write l d)
  end.

(** A delayed insert does not wait for the lock. *)
Definition queue_delayed (l : THR_LOCK) (d : THR_LOCK_DATA) : THR_LOCK :=
  emit (set_queues l (read_wait l) (read l) (write_wait l ++ [with_cond d true]) (write l)) [LocksImmediate].

Definition lock_for_write (l : THR_LOCK) (d : THR_LOCK_DATA) : option enum_thr_lock_result * THR_LOCK :=
  let now := if type_eq (type d) TL_WRITE_DELAYED then
               match write l with
               | w :: _ => if type_eq (type w) TL_WRITE_ONLY then Some (Some THR_LOCK_ABORTED, refuse l d)
                           else Some (Some THR_LOCK_SUCCESS, queue_delayed l d)
               | [] => match read l with
                       | [] => None
                       | _ => Some (Some THR_LOCK_SUCCESS, queue_delayed l d)
                       end
               end
             else None in
  match now with
  | Some r => r
  | None =>
    let d := if type_eq (type d) TL_WRITE_CONCURRENT_INSERT && negb (has_check_status l)
             then with_type d thr_upgraded_concurrent_insert_lock else d in
    match write l with
    | w :: _ => lock_second_write l d w
    | [] => lock_first_write l d
    end
  end.

(** The result is [None] when the thread starts to wait. *)
Definition thr_lock (l : THR_LOCK) (a o : nat) (lock_type : thr_lock_type)
    : option enum_thr_lock_result * THR_LOCK :=
  let d := mk_data a o false lock_type in
  let l := take_loose l a in
  if type_le lock_type TL_READ_NO_INSERT then lock_for_read l d else lock_for_write l d.

(** The rest of wait_for_lock, when the thread has left the loop: the lock was
    given or taken away, the time was over or the thread was killed. *)
Definition wait_leave (l : THR_LOCK) (a : nat) (timed_out : bool) : option (enum_thr_lock_result * THR_LOCK) :=
  d ← find_data l a;
  if cond d || type_eq (type d) TL_UNLOCK then
    if cond d then
      Some (if timed_out then THR_LOCK_WAIT_TIMEOUT else THR_LOCK_ABORTED,
            wake (put_loose (unlink l a) (with_type d TL_UNLOCK)))
    else Some (THR_LOCK_ABORTED, l)
  else Some (THR_LOCK_SUCCESS, emit l [GetStatus a false]).

Definition thr_unlock (l : THR_LOCK) (a : nat) : option THR_LOCK :=
  d ← find_data l a;
  let l := unlink l a in
  let ev := if type_le TL_WRITE_CONCURRENT_INSERT (type d) then UpdateStatus a else RestoreStatus a in
  let count := if type_eq (type d) TL_READ_NO_INSERT then u32 (read_no_write_count l - 1)
               else read_no_write_count l in
  let l := emit (set_counts l (write_lock_count l) count) [ev] in
  Some (wake (put_loose l (with_type d TL_UNLOCK))).

(** The queue whose end thr_unlock moves back when the instance is the last of
    its queue. *)
Inductive which_queue : Type := InRead | InWriteWait | InWrite.
Definition unlock_queue (d : THR_LOCK_DATA) : which_queue :=
  if type_le (type d) TL_READ_NO_INSERT then InRead
  else if type_eq (type d) TL_WRITE_DELAYED && cond d then InWriteWait
  else InWrite.

Definition killed (d : THR_LOCK_DATA) : THR_LOCK_DATA := mk_data (address d) (owner d) false TL_UNLOCK.
Definition signals (ds : list THR_LOCK_DATA) : list lock_event := map (fun d => Signal (address d)) ds.

Definition thr_abort_locks (l : THR_LOCK) (upgrade_lock : bool) : THR_LOCK :=
  let waiting := read_wait l ++ write_wait l in
  let w := match write l with
           | w :: ws => if upgrade_lock then with_type w TL_WRITE_ONLY :: ws else w :: ws
           | [] => []
           end in
  emit (set_loose (set_queues l [] (read l) [] w) (map killed waiting ++ loose l)) (signals waiting).

Definition thr_abort_locks_for_thread (thread_id : nat -> nat) (l : THR_LOCK) (id : nat) : bool * THR_LOCK :=
  let his d := (thread_id (owner d) =? id)%nat in
  let others d := negb (his d) in
  let aborted := List.filter his (read_wait l) ++ List.filter his (write_wait l) in
  let l := set_queues l (List.filter others (read_wait l)) (read l) (List.filter others (write_wait l)) (write l) in
  let l := emit (set_loose l (map killed aborted ++ loose l)) (signals aborted) in
  (match aborted with [] => false | _ => true end, wake l).

(** In place, in whichever queue. *)
Definition change_at (a : nat) (f : THR_LOCK_DATA -> THR_LOCK_DATA) (q : list THR_LOCK_DATA) : list THR_LOCK_DATA :=
  map (fun d => if is_at a d then f d else d) q.
Definition change (l : THR_LOCK) (a : nat) (f : THR_LOCK_DATA -> THR_LOCK_DATA) : THR_LOCK :=
  set_loose (set_queues l (change_at a f (read_wait l)) (change_at a f (read l))
               (change_at a f (write_wait l)) (change_at a f (write l)))
    (change_at a f (loose l)).

Definition thr_downgrade_write_lock (l : THR_LOCK) (a : nat) (new_lock_type : thr_lock_type) : THR_LOCK :=
  change l a (fun d => with_type d new_lock_type).

(** The result is [None] when the thread starts to wait. *)
Definition thr_upgrade_write_delay_lock (l : THR_LOCK) (a : nat) (new_lock_type : thr_lock_type)
    : option (option bool * THR_LOCK) :=
  d ← find_data l a;
  if type_eq (type d) TL_UNLOCK || type_le TL_WRITE_LOW_PRIORITY (type d)
  then Some (Some (type_eq (type d) TL_UNLOCK), l)
  else if negb (cond d) then
    match read l with
    | [] => Some (Some false, emit (change l a (fun d => with_type d new_lock_type)) [GetStatus a false])
    | _ =>
      let d := mk_data a (owner d) true new_lock_type in
      let l := unlink l a in
      Some (None, emit (set_queues l (read_wait l) (read l) (d :: write_wait l) (write l)) [LocksWaited])
    end
  else Some (None, emit (change l a (fun d => with_type d new_lock_type)) [LocksWaited]).

(** The first half of thr_reschedule_write_lock; when readers wait the lock goes
    back to them, and the call goes on with thr_upgrade_write_delay_lock and the
    type returned. *)
Definition thr_reschedule_write_lock (l : THR_LOCK) (a : nat) : option (option thr_lock_type * THR_LOCK) :=
  match read_wait l with
  | [] => Some (None, l)
  | _ =>
    d ← find_data l a;
    let l := emit (unlink l a) [UpdateStatus a] in
    let l := set_queues l (read_wait l) (read l) (mk_data a (owner d) true TL_WRITE_DELAYED :: write_wait l) (write l) in
    Some (Some (type d), free_all_read_locks l false)
  end.
End Calls.
