(* ===== verification/ThrLockInv.v ===== *)
(** * Table locks: the invariant

    The calls of mysys/thr_lock.c keep two things.  Safety ([lock_ok]): every
    instance is in one queue, the granted locks of different owners are
    compatible, and the counter of the readers that exclude inserts is right.
    Progress ([no_lost]): a request does not wait while the lock is free, nor
    while only reads are held that it could join. *)

From stdpp Require Import prelude list list_numbers sorting.
From Stdlib Require Import ZArith Lia ZifyNat.
From S2P Require Import Prelude ThrLock.

Open Scope Z_scope.

(** ** The invariant *)

(** The types of a request; TL_READ_DEFAULT and TL_WRITE_DEFAULT are replaced
    before a lock is requested. *)
Definition is_read (t : thr_lock_type) : Prop := 2 <= num t <= 5.
Definition is_write (t : thr_lock_type) : Prop := 6 <= num t <= 12 /\ t <> TL_WRITE_DEFAULT.

(** A held write lock [w] and a held read lock [r], the table in thr_lock. *)
Definition compatible (w r : THR_LOCK_DATA) : Prop :=
  owner w = owner r \/
  (num (type w) <= num TL_WRITE_DELAYED /\
   (num (type r) <= num TL_READ_HIGH_PRIORITY \/ type w <> TL_WRITE_CONCURRENT_INSERT)).

(** The strength of a write lock; the two priorities exclude the same. *)
Definition rank (t : thr_lock_type) : Z :=
  match t with TL_WRITE_LOW_PRIORITY => num TL_WRITE | _ => num t end.
Definition not_stronger (w1 w2 : THR_LOCK_DATA) : Prop := rank (type w2) <= rank (type w1).

(** Two held write locks. *)
Definition together (w1 w2 : THR_LOCK_DATA) : Prop :=
  owner w1 = owner w2 \/ (type w1 = TL_WRITE_ALLOW_WRITE /\ type w2 = TL_WRITE_ALLOW_WRITE).

Definition all_data (l : THR_LOCK) : list THR_LOCK_DATA :=
  read_wait l ++ read l ++ write_wait l ++ write l ++ loose l.

Definition held (P : thr_lock_type -> Prop) (d : THR_LOCK_DATA) : Prop := cond d = false /\ P (type d).
Definition waits (P : thr_lock_type -> Prop) (d : THR_LOCK_DATA) : Prop := cond d = true /\ P (type d).

Record lock_ok (l : THR_LOCK) : Prop := {
  ok_read : Forall (held is_read) (read l);
  ok_read_wait : Forall (waits is_read) (read_wait l);
  ok_write : Forall (held is_write) (write l);
  ok_write_wait : Forall (waits is_write) (write_wait l);
  ok_nodup : NoDup (map address (all_data l));
  ok_small : Z.of_nat (length (map address (all_data l))) < 2 ^ 32;
  ok_count : read_no_write_count l = Z.of_nat (count_no_insert (read l));
  ok_write_count : 0 <= write_lock_count l < 2 ^ 64;
  ok_writers : forall w1 w2, w1 ∈ write l -> w2 ∈ write l -> together w1 w2;
  ok_compatible : forall w r, w ∈ write l -> r ∈ read l -> compatible w r;
  ok_delayed : forall w, w ∈ write l -> type w = TL_WRITE_DELAYED -> write l = [w];
  ok_check : has_check_status l = false -> Forall (fun d => type d <> TL_WRITE_CONCURRENT_INSERT) (write_wait l);
  ok_sorted : StronglySorted not_stronger (write l)
}.

(** The last part needs that the limit on the writers in a row is never reached,
    as with the default value of max_write_lock_count. *)
Record no_lost (max_write_lock_count : Z) (l : THR_LOCK) : Prop := {
  nl_free : write l = [] -> read l = [] -> read_wait l = [] /\ write_wait l = [];
  nl_readers : write l = [] -> write_wait l = [] -> read_wait l = [];
  nl_writers : 2 ^ 64 - 1 <= max_write_lock_count -> write l = [] -> forall d ww, write_wait l = d :: ww ->
    is_concurrent (type d) = true -> (0 < count_no_insert (read l))%nat
}.

Record lock_inv (max_write_lock_count : Z) (l : THR_LOCK) : Prop := {
  inv_ok : lock_ok l;
  inv_live : no_lost max_write_lock_count l
}.

(** ** Types *)

Lemma type_eq_true a b : type_eq a b = true <-> a = b.
Proof. unfold type_eq. apply bool_decide_eq_true. Qed.

Lemma type_eq_false a b : type_eq a b = false <-> a <> b.
Proof. unfold type_eq. apply bool_decide_eq_false. Qed.

Lemma type_le_true a b : type_le a b = true <-> num a <= num b.
Proof. apply Z.leb_le. Qed.

Lemma type_le_false a b : type_le a b = false <-> num b < num a.
Proof. apply Z.leb_gt. Qed.

Lemma num_inj a b : num a = num b -> a = b.
Proof. destruct a, b; done. Qed.

Lemma is_concurrent_true t : is_concurrent t = true <-> t = TL_WRITE_CONCURRENT_INSERT \/ t = TL_WRITE_ALLOW_WRITE.
Proof. unfold is_concurrent. by rewrite orb_true_iff, !type_eq_true. Qed.

Lemma is_concurrent_false t : is_concurrent t = false <-> t <> TL_WRITE_CONCURRENT_INSERT /\ t <> TL_WRITE_ALLOW_WRITE.
Proof. unfold is_concurrent. by rewrite orb_false_iff, !type_eq_false. Qed.

(** Boolean tests on types in the hypotheses become propositions. *)
Ltac t2p :=
  repeat match goal with
  | H : (_ && _)%bool = true |- _ => apply andb_true_iff in H; destruct H
  | H : (_ || _)%bool = false |- _ => apply orb_false_iff in H; destruct H
  | H : negb _ = true |- _ => apply negb_true_iff in H
  | H : negb _ = false |- _ => apply negb_false_iff in H
  | H : type_eq _ _ = true |- _ => apply type_eq_true in H
  | H : type_eq _ _ = false |- _ => apply type_eq_false in H
  | H : type_le _ _ = true |- _ => apply type_le_true in H
  | H : type_le _ _ = false |- _ => apply type_le_false in H
  | H : is_concurrent _ = true |- _ => apply is_concurrent_true in H
  | H : is_concurrent _ = false |- _ => apply is_concurrent_false in H
  end; b2p.

(** Case analysis on every type that occurs in a goal about types only. *)
Ltac by_types := unfold is_read, is_write, is_concurrent, type_eq, type_le in *;
  repeat match goal with t : thr_lock_type |- _ => destruct t end; cbn [num] in *; first [done | lia | naive_solver lia].

(** ** Counting *)

Lemma count_app a b : count_no_insert (a ++ b) = (count_no_insert a + count_no_insert b)%nat.
Proof. unfold count_no_insert. by rewrite List.filter_app, length_app. Qed.

Lemma count_one d : count_no_insert [d] = (if type_eq (type d) TL_READ_NO_INSERT then 1 else 0)%nat.
Proof. unfold count_no_insert. cbn. by case_if. Qed.

Lemma count_le q : (count_no_insert q <= length q)%nat.
Proof. unfold count_no_insert. induction q as [|d q IH]; simpl; [lia|]. case_if; simpl; lia. Qed.

Lemma count_pos q d : d ∈ q -> type d = TL_READ_NO_INSERT -> (0 < count_no_insert q)%nat.
Proof.
  intros Hd Ht. apply list_elem_of_In in Hd. unfold count_no_insert.
  destruct (List.filter _ q) eqn:E; [|simpl; lia]. exfalso.
  assert (In d []) as []. rewrite <- E. apply filter_In. split; [done|]. by apply type_eq_true.
Qed.

Lemma count_zero q d : count_no_insert q = 0%nat -> d ∈ q -> type d <> TL_READ_NO_INSERT.
Proof. intros H Hd Ht. pose proof (count_pos q d Hd Ht). lia. Qed.

Lemma read_len l : lock_ok l -> Z.of_nat (length (read l)) + Z.of_nat (length (read_wait l)) < 2 ^ 32.
Proof.
  intros H. pose proof (ok_small _ H) as Hs. unfold all_data in Hs. rewrite length_map, !length_app in Hs. lia.
Qed.

(** ** free_all_read_locks *)

Definition stays (conc : bool) (d : THR_LOCK_DATA) : bool := type_eq (type d) TL_READ_NO_INSERT && conc.

Lemma free_loop_eq conc data n given back n' ev :
  free_loop conc data n = (given, back, n', ev) ->
  given = map (fun d => with_cond d false) (List.filter (fun d => negb (stays conc d)) data) /\
  back = List.filter (stays conc) data /\
  (0 <= n -> n + Z.of_nat (length data) < 2 ^ 32 -> n' = n + Z.of_nat (count_no_insert given)).
Proof.
  revert n given back n' ev. induction data as [|d data IH]; intros n given back n' ev; simpl.
  { intros [= <- <- <- <-]. split_and!; [done|done|]. unfold count_no_insert. simpl. lia. }
  fold (stays conc d). destruct (stays conc d) eqn:Es; cbn [negb].
  - destruct (free_loop conc data n) as [[[g b] m] e] eqn:E. intros [= <- <- <- <-].
    destruct (IH _ _ _ _ _ E) as (-> & -> & Hn). split_and!; [done|done|]. intros. apply Hn; lia.
  - destruct (free_loop conc data _) as [[[g b] m] e] eqn:E. intros [= <- <- <- <-].
    destruct (IH _ _ _ _ _ E) as (-> & -> & Hn). split_and!; [done|done|]. intros H0 Hl.
    unfold count_no_insert in *. simpl. destruct (type_eq (type d) TL_READ_NO_INSERT); simpl.
    + rewrite u32_small in Hn by lia. rewrite Hn by lia. lia.
    + apply Hn; lia.
Qed.

Lemma filter_split_perm {A} (p : A -> bool) l : List.filter p l ++ List.filter (fun x => negb (p x)) l ≡ₚ l.
Proof.
  induction l as [|x l IH]; [done|]. simpl. destruct (p x); simpl; [by rewrite IH|].
  by rewrite <- Permutation_middle, IH.
Qed.

Lemma Forall_filter {A} (P : A -> Prop) (p : A -> bool) l : Forall P l -> Forall P (List.filter p l).
Proof. intros H. apply Forall_forall. intros x [Hx _]%list_elem_of_In%filter_In. rewrite Forall_forall in H. by apply H, list_elem_of_In. Qed.

(** Readers may start next to the write locks that are held. *)
Definition readers_fit (conc : bool) (w : list THR_LOCK_DATA) : Prop :=
  Forall (fun d => num (type d) <= num TL_WRITE_DELAYED /\ (type d = TL_WRITE_CONCURRENT_INSERT -> conc = true)) w.

Lemma free_all_read_locks_fields l conc :
  let l' := free_all_read_locks l conc in
  (write_lock_count l' = 0 \/ write_lock_count l' = write_lock_count l) /\ write l' = write l /\ write_wait l' = write_wait l /\ loose l' = loose l /\ has_check_status l' = has_check_status l /\
  read_wait l' = List.filter (stays conc) (read_wait l) /\
  read l' = read l ++ map (fun d => with_cond d false) (List.filter (fun d => negb (stays conc d)) (read_wait l)).
Proof.
  unfold free_all_read_locks. destruct (free_loop _ _ _) as [[[g b] n] e] eqn:E.
  destruct (free_loop_eq _ _ _ _ _ _ _ E) as (-> & -> & _). split; [|done]. cbn.
  clear E. destruct (List.filter (stays conc) _); [by left|by right].
Qed.

Lemma free_all_read_locks_ok l conc :
  lock_ok l -> readers_fit conc (write l) -> lock_ok (free_all_read_locks l conc).
Proof.
  intros Hl Hfit. destruct (free_all_read_locks_fields l conc) as (E0 & E1 & E2 & E3 & E4 & E5 & E6).
  assert (map address (all_data (free_all_read_locks l conc)) ≡ₚ map address (all_data l)) as Hp.
  { unfold all_data. rewrite E1, E2, E3, E5, E6, !map_app, map_map. cbn [with_cond address].
    rewrite <- (filter_split_perm (stays conc) (read_wait l)) at 3. rewrite map_app. solve_Permutation. }
  pose proof (ok_read_wait _ Hl) as Hrw. rewrite Forall_forall in Hrw.
  assert (forall r, r ∈ map (fun d => with_cond d false) (List.filter (fun d => negb (stays conc d)) (read_wait l)) ->
    exists d, d ∈ read_wait l /\ r = with_cond d false /\ (type d = TL_READ_NO_INSERT -> conc = false)) as Hnew.
  { intros r (d & -> & Hd)%list_elem_of_fmap. apply list_elem_of_In, filter_In in Hd as [Hd Hs].
    exists d. split; [by apply list_elem_of_In|]. split; [done|]. intros Ht. unfold stays in Hs. rewrite Ht in Hs.
    by destruct conc. }
  destruct Hl as [H1 H2 H3 H4 H5 H6 H7 Hwc H8 H9 H10 H11 H12]. split; rewrite ?E1, ?E2, ?E4, ?E5, ?E6; try done.
  - apply Forall_app. split; [done|]. apply Forall_forall. intros r (d & Hd & -> & _)%Hnew. split; [done|]. exact (proj2 (Hrw d Hd)).
  - by apply Forall_filter.
  - by rewrite Hp.
  - by rewrite Hp.
  - assert (read_no_write_count (free_all_read_locks l conc) = Z.of_nat (count_no_insert (read (free_all_read_locks l conc)))) as Hc.
    { unfold free_all_read_locks. destruct (free_loop _ _ _) as [[[g b] n] e] eqn:E.
      destruct (free_loop_eq _ _ _ _ _ _ _ E) as (_ & _ & Hn). cbn [emit set_counts set_queues read_no_write_count read]. rewrite count_app, Hn, H7; [lia|lia|].
      assert (lock_ok l) as Hl by done. pose proof (read_len _ Hl). pose proof (count_le (read l)). lia. }
    by rewrite <- E6.
  - destruct E0 as [-> | ->]; lia.
  - intros w r Hw Hr. apply elem_of_app in Hr as [Hr|Hr]; [by apply H9|].
    destruct (Hnew r Hr) as (d & Hd & -> & Hni). right. unfold readers_fit in Hfit. rewrite Forall_forall in Hfit.
    destruct (Hfit w Hw) as [Hle Hci]. split; [done|]. destruct (Hrw d Hd) as [_ Hrd]. cbn [type with_cond].
    destruct (decide (type w = TL_WRITE_CONCURRENT_INSERT)) as [Ec|]; [left|by right].
    specialize (Hci Ec). subst conc. assert (type d <> TL_READ_NO_INSERT) by (intros Ht; by specialize (Hni Ht)).
    revert Hrd. destruct (type d); unfold is_read; cbn; try lia; done.
Qed.

(** ** Giving the lock to writers *)

Lemma emit_ok l e : lock_ok l -> lock_ok (emit l e).
Proof. intros []. by split. Qed.

Lemma emit_live max l e : no_lost max l -> no_lost max (emit l e).
Proof. intros []. by split. Qed.

Lemma emit_inv max l e : lock_inv max l -> lock_inv max (emit l e).
Proof. intros [H1 H2]. split; [by apply emit_ok|by apply emit_live]. Qed.

Lemma set_write_count_ok l c : lock_ok l -> 0 <= c < 2 ^ 64 -> lock_ok (set_counts l c (read_no_write_count l)).
Proof. intros [] Hc. by split. Qed.

Section WakeOk.
Context (max_write_lock_count : Z) (check_status : nat -> bool).

Definition given (d : THR_LOCK_DATA) : THR_LOCK_DATA :=
  mk_data (address d) (owner d) false
    (if type_eq (type d) TL_WRITE_CONCURRENT_INSERT && check_status (address d) then TL_WRITE else type d).

Lemma given_allow d : type (given d) = TL_WRITE_ALLOW_WRITE -> type d = TL_WRITE_ALLOW_WRITE.
Proof. unfold given. cbn. by case_if. Qed.

Lemma give_loop_spec ww w last ww' w' t ev :
  give_loop check_status ww w last = (ww', w', t, ev) -> ww <> [] ->
  exists taken, ww = taken ++ ww' /\ taken <> [] /\ w' = w ++ map given taken /\
    ((exists d, taken = [d] /\ t = type (given d)) \/
     (Forall (fun d => type (given d) = TL_WRITE_ALLOW_WRITE) taken /\ t = TL_WRITE_ALLOW_WRITE)).
Proof.
  revert w last ww' w' t ev. induction ww as [|d ww IH]; intros w last ww' w' t ev H Hne; [done|]. cbn [give_loop] in H.
  change (if type_eq (type d) TL_WRITE_CONCURRENT_INSERT && check_status (address d) then TL_WRITE else type d)
    with (type (given d)) in H.
  change (mk_data (address d) (owner d) false (type (given d))) with (given d) in H.
  destruct ww as [|n ww].
  { injection H as <- <- <- <-. exists [d]. split_and!; [done|done|done|]. left. by exists d. }
  destruct (type_eq _ _ && type_eq _ _) eqn:Em; [|injection H as <- <- <- <-; exists [d]; split_and!; [done|done|done|]; left; by exists d].
  destruct (give_loop check_status (n :: ww) _ _) as [[[ww1 w1] t1] e1] eqn:E. injection H as <- <- <- <-. t2p.
  destruct (IH _ _ _ _ _ _ E) as (taken & Heq & Hk & -> & Hcase); [done|]. exists (d :: taken). rewrite <- app_assoc.
  split_and!; [by rewrite Heq|done|done|]. right.
  destruct Hcase as [(d' & -> & ->)|[Hall ->]]; [|split; [|done]; by constructor].
  injection Heq as <- _.
  assert (type (given n) = TL_WRITE_ALLOW_WRITE) as Hn; [|split; [|done]; constructor; [done|]; by constructor].
  unfold given. cbn. case_if; [|done]. t2p. congruence.
Qed.

Lemma start_loop_spec lt ww w ww' w' ev :
  start_loop lt ww w = (ww', w', ev) -> ww <> [] ->
  exists taken, ww = taken ++ ww' /\ taken <> [] /\ w' = w ++ map (fun d => with_cond d false) taken /\
    ((exists d, taken = [d]) \/
     (lt = TL_WRITE_ALLOW_WRITE /\ Forall (fun d => type d = TL_WRITE_ALLOW_WRITE) (tail taken))).
Proof.
  revert w ww' w' ev. induction ww as [|d ww IH]; intros w ww' w' ev H Hne; [done|]. cbn [start_loop] in H.
  destruct ww as [|n ww].
  { injection H as <- <- <-. exists [d]. split_and!; [done|done|done|]. left. by exists d. }
  destruct (type_eq _ _ && type_eq _ _) eqn:Em; [|injection H as <- <- <-; exists [d]; split_and!; [done|done|done|]; left; by exists d].
  destruct (start_loop lt (n :: ww) _) as [[ww1 w1] e1] eqn:E. injection H as <- <- <-. t2p. subst lt.
  destruct (IH _ _ _ _ E) as (taken & Heq & Hk & -> & Hcase); [done|]. exists (d :: taken). rewrite <- app_assoc.
  split_and!; [by rewrite Heq|done|done|]. right. split; [done|]. cbn [tail].
  destruct taken as [|x taken]; [done|]. injection Heq as <- _.
  constructor; [done|]. destruct Hcase as [[y [= _ ->]]|[_ Ht]]; [constructor|exact Ht].
Qed.

Lemma take_writers_ok (f : THR_LOCK_DATA -> THR_LOCK_DATA) l taken ww' :
  lock_ok l -> write l = [] -> write_wait l = taken ++ ww' ->
  (forall d, address (f d) = address d) ->
  (forall d, d ∈ taken -> held is_write (f d)) ->
  ((exists d, taken = [d]) \/ Forall (fun d => type (f d) = TL_WRITE_ALLOW_WRITE) taken) ->
  (forall w r, w ∈ map f taken -> r ∈ read l -> compatible w r) ->
  lock_ok (set_queues l (read_wait l) (read l) ww' (map f taken)).
Proof.
  intros Hl Hw Hww Ha Hheld Hcase Hcomp.
  assert (map address (all_data (set_queues l (read_wait l) (read l) ww' (map f taken))) ≡ₚ map address (all_data l)) as Hp.
  { unfold all_data. cbn. rewrite Hw, Hww, !map_app, map_map. rewrite (map_ext (fun d => address (f d)) address) by done. solve_Permutation. }
  destruct Hl as [H1 H2 H3 H4 H5 H6 H7 Hwc H8 H9 H10 H11 H12]. rewrite Hww in H4, H11.
  split; cbn [set_queues read read_wait write write_wait read_no_write_count write_lock_count has_check_status]; try done.
  - apply Forall_forall. intros w (d & -> & Hd)%list_elem_of_fmap. by apply Hheld.
  - apply Forall_app in H4 as [_ H4]. done.
  - by rewrite Hp.
  - by rewrite Hp.
  - intros w1 w2 (d1 & -> & Hd1)%list_elem_of_fmap (d2 & -> & Hd2)%list_elem_of_fmap.
    destruct Hcase as [[d ->]|Hall].
    + apply list_elem_of_singleton in Hd1 as ->. apply list_elem_of_singleton in Hd2 as ->. by left.
    + rewrite Forall_forall in Hall. right. split; by apply Hall.
  - intros w (d & -> & Hd)%list_elem_of_fmap Ht. destruct Hcase as [[d' ->]|Hall].
    + by apply list_elem_of_singleton in Hd as ->.
    + rewrite Forall_forall in Hall. rewrite (Hall d Hd) in Ht. done.
  - intros Hc. specialize (H11 Hc). apply Forall_app in H11 as [_ H11]. done.
  - destruct Hcase as [[d ->]|Hall]; [repeat constructor|]. clear -Hall.
    induction Hall as [|d q Hd Hall IH]; cbn; [constructor|]. constructor; [done|]. apply Forall_map.
    eapply Forall_impl; [exact Hall|]. intros x Hx. unfold not_stronger. by rewrite Hd, Hx.
Qed.

(** ** wake_up_waiters *)

Lemma free_waiting_ok l conc : lock_ok l -> readers_fit conc (write l) -> lock_ok (free_waiting l conc).
Proof. intros Hl Hf. unfold free_waiting. destruct (read_wait l); [done|by apply free_all_read_locks_ok]. Qed.

Lemma free_waiting_fields l conc :
  write (free_waiting l conc) = write l /\ write_wait (free_waiting l conc) = write_wait l /\
  (conc = false -> read_wait (free_waiting l conc) = []) /\
  (conc = false -> read (free_waiting l conc) = [] -> read l = [] /\ read_wait l = []) /\
  (count_no_insert (read l) <= count_no_insert (read (free_waiting l conc)))%nat /\
  (read l <> [] -> read (free_waiting l conc) <> []).
Proof.
  unfold free_waiting. destruct (read_wait l) as [|d q] eqn:E; [by split_and!|]. rewrite <- E.
  destruct (free_all_read_locks_fields l conc) as (_ & -> & -> & _ & _ & -> & ->). split_and!; try done.
  - intros ->. rewrite (List.filter_ext _ (fun _ => false)); [|intros x; apply andb_false_r].
    clear. by induction (read_wait l).
  - intros -> [H1 H2]%app_eq_nil. split; [done|]. apply map_eq_nil in H2. rewrite <- H2.
    rewrite (List.filter_ext _ (fun _ => true)) by (intros x; unfold stays; by rewrite andb_false_r).
    clear. by induction (read_wait l) as [|x q IH]; [|simpl; f_equal].
  - rewrite count_app. lia.
  - intros Hne H%app_eq_nil. tauto.
Qed.

Lemma free_waiting_live l : write l = [] -> (read l = [] -> write_wait l = [] \/ read_wait l <> []) ->
  (forall d ww, 2 ^ 64 - 1 <= max_write_lock_count -> write_wait l = d :: ww -> is_concurrent (type d) = false) ->
  no_lost max_write_lock_count (free_waiting l false).
Proof.
  intros Hw Hr Hc. destruct (free_waiting_fields l false) as (E1 & E2 & E3 & E4 & E5 & E6).
  split; rewrite ?E1, ?E2, ?E3 by done.
  - intros _ H. destruct (E4 eq_refl H) as [H1 H2]. destruct (Hr H1); [|done]. done.
  - done.
  - intros Hm _ d ww Hd Hcd. by rewrite (Hc d ww Hm Hd) in Hcd.
Qed.

Lemma live_held l : write l <> [] -> no_lost max_write_lock_count l.
Proof. intros H. by split. Qed.

Lemma given_held d : waits is_write d -> held is_write (given d).
Proof. intros [_ Hw]. split; [done|]. unfold given. cbn. case_if; [|done]. unfold is_write. cbn. split; [lia|done]. Qed.

Lemma fits_type t w : is_write t -> num t < num TL_WRITE_LOW_PRIORITY ->
  Forall (fun d => type d = t) w -> readers_fit (is_concurrent t) w.
Proof.
  intros Ht Hn H. eapply Forall_impl; [exact H|]. intros d ->. split; [|intros ->; done].
  revert Ht Hn. unfold is_write. destruct t; cbn; try lia; intuition congruence.
Qed.

Lemma wake_idle_inv l :
  lock_ok l -> write l = [] -> read l = [] -> lock_inv max_write_lock_count (wake_idle max_write_lock_count check_status l).
Proof.
  intros Hl Hw Hr. unfold wake_idle. destruct (write_wait l) as [|data ww0] eqn:Eww.
  { split; [apply free_waiting_ok; [done|rewrite Hw; constructor]|]. apply free_waiting_live; [done|by left|].
    intros d ww _. by rewrite Eww. }
  pose proof (ok_write_count _ Hl) as Hwc. case_if.
  2:{ t2p. destruct (read_wait l) eqn:Erw; [done|].
      assert (is_concurrent (type data) = false) as Hnc by (rewrite H; done). rewrite Hnc.
      split; [apply free_waiting_ok; [done|rewrite Hw; constructor]|]. apply free_waiting_live; [done|by rewrite Erw; right|].
      intros d ww _. rewrite Eww. by intros [= <- _]. }
  set (l1 := set_counts l _ _).
  assert (lock_ok l1) as Hl1.
  { apply set_write_count_ok; [done|]. case_if; [lia|]. auto with c_range. }
  change (read_wait l1) with (read_wait l). change (write_wait l1) with (write_wait l). rewrite Eww. case_if.
  - t2p. destruct (read_wait l) as [|r rw] eqn:Erw; [done|].
    assert (free_all_read_locks l1 false = free_waiting l1 false) as ->
      by (unfold free_waiting; change (read_wait l1) with (read_wait l); by rewrite Erw).
    split; [apply free_waiting_ok; [done|change (write l1) with (write l); rewrite Hw; constructor]|].
    apply free_waiting_live; [done|change (read_wait l1) with (read_wait l); by rewrite Erw; right|]. intros d ww Hm. lia.
  - destruct (give_loop _ _ _ _) as [[[ww w] t] ev] eqn:E.
    destruct (give_loop_spec _ _ _ _ _ _ _ E) as (taken & Htk & Hne & -> & Hcase); [done|].
    change (write l1) with (write l). rewrite Hw. cbn [app].
    set (l2 := emit _ _).
    assert (lock_ok l2) as Hl2.
    { apply emit_ok, (take_writers_ok given l1 taken ww); try done; [by rewrite <- Htk, <- Eww| | |].
      - intros d Hd. apply given_held. pose proof (ok_write_wait _ Hl) as Hall. rewrite Forall_forall in Hall.
        apply Hall. rewrite Eww, Htk. by apply elem_of_app; left.
      - destruct Hcase as [(d & -> & _)|[? _]]; [left; by exists d|by right].
      - intros w r _. change (read l1) with (read l). rewrite Hr. by intros ?%not_elem_of_nil. }
    assert (write l2 <> []) as Hw2 by (subst l2; cbn; by destruct taken).
    case_if; [split; [done|by apply live_held]|]. t2p.
    destruct (free_waiting_fields l2 (is_concurrent t)) as (E1 & _).
    split; [|apply live_held; by rewrite E1]. apply free_waiting_ok; [done|].
    assert (Forall (fun d => type d = t) (write l2)) as Ht.
    { subst l2. cbn. apply Forall_map. destruct Hcase as [(d & -> & ->)|[? ->]]; [by constructor|done]. }
    apply fits_type; [|done|done]. pose proof (ok_write _ Hl2) as Hok.
    destruct (write l2) as [|x ?]; [done|]. inversion Ht; subst. inversion Hok as [|? ? [_ ?]]; subst. done.
Qed.

Lemma upgrade_first_ok l data ww t :
  lock_ok l -> write_wait l = data :: ww -> is_write t -> t <> TL_WRITE_CONCURRENT_INSERT ->
  lock_ok (set_queues l (read_wait l) (read l) (with_type data t :: ww) (write l)).
Proof.
  intros [H1 H2 H3 H4 H5 H6 H7 Hwc H8 H9 H10 H11 H12] Eww Ht Hc. rewrite Eww in *.
  assert (map address (all_data (set_queues l (read_wait l) (read l) (with_type data t :: ww) (write l)))
    = map address (all_data l)) as Hp by (unfold all_data; cbn; rewrite Eww, !map_app; cbn; by rewrite ?map_app).
  split; cbn [set_queues read read_wait write write_wait read_no_write_count write_lock_count has_check_status]; rewrite ?Hp; try done.
  - inversion H4 as [|? ? [? ?]]; subst. by constructor.
  - intros Hcs. specialize (H11 Hcs). inversion H11; subst. by constructor.
Qed.

Lemma start_fits l data r :
  lock_ok l -> num (type data) <= num TL_WRITE_DELAYED ->
  (is_concurrent (type data) = false \/ read_no_write_count l = 0) ->
  r ∈ read l -> compatible data r.
Proof.
  intros Hl Hle Hc Hr. right. split; [done|]. destruct Hc as [Hc|Hc].
  - right. apply is_concurrent_false in Hc. tauto.
  - left. rewrite (ok_count _ Hl) in Hc. assert (type r <> TL_READ_NO_INSERT) as Hni by (eapply count_zero; [|done]; lia).
    pose proof (ok_read _ Hl) as Hall. rewrite Forall_forall in Hall. destruct (Hall r Hr) as [_ Hrd].
    revert Hrd Hni. unfold is_read. destruct (type r); cbn; try lia; done.
Qed.

Lemma wake_readers_inv l :
  lock_ok l -> write l = [] -> read l <> [] -> lock_inv max_write_lock_count (wake_readers check_status l).
Proof.
  intros Hl Hw Hr. unfold wake_readers. destruct (write_wait l) as [|data ww0] eqn:Eww.
  { split; [apply free_waiting_ok; [done|rewrite Hw; constructor]|]. apply free_waiting_live; [done|done|].
    intros d ww _. by rewrite Eww. }
  destruct (type_le (type data) TL_WRITE_DELAYED && _) eqn:Heqb.
  2:{ split; [done|]. split.
      - done.
      - by rewrite Eww.
      - intros _ _ d ww. rewrite Eww. intros [= <- <-] Hc. rewrite Hc in Heqb.
        apply andb_false_iff in Heqb as [Hb|Hb].
        + t2p. exfalso. destruct Hc as [Hc|Hc]; rewrite Hc in Hb; cbn in Hb; lia.
        + cbn in Hb. b2p. rewrite (ok_count _ Hl) in Hb. lia. }
  apply andb_true_iff in Heqb as [Hle Hcn]. apply type_le_true in Hle. apply orb_true_iff in Hcn.
  rewrite negb_true_iff, Z.eqb_eq in Hcn.
  destruct (type_eq _ _ && _) eqn:Heqb.
  { apply andb_true_iff in Heqb as [Hci _]. apply type_eq_true in Hci.
    split; [apply free_waiting_ok; [by apply upgrade_first_ok|cbn; rewrite Hw; constructor]|].
    apply free_waiting_live; [done|by cbn|]. intros d ww _ [= <- _]. done. }
  destruct (start_loop _ _ _) as [[ww w] ev] eqn:E.
  destruct (start_loop_spec _ _ _ _ _ _ E) as (taken & Htk & Hne & -> & Hcase); [done|]. rewrite Hw. cbn [app].
  set (l2 := emit _ _).
  assert (Forall (fun d => type d = type data) taken) as Hty.
  { destruct taken as [|x taken]; [done|]. injection Htk as <- _.
    destruct Hcase as [[y [= -> ->]]|[He Ht]]; [by constructor|]. constructor; [done|]. by rewrite He. }
  assert (is_write (type data)) as Hwt.
  { pose proof (ok_write_wait _ Hl) as Hall. rewrite Eww in Hall. by inversion Hall as [|? ? [_ ?]]. }
  assert (lock_ok l2) as Hl2.
  { apply emit_ok, (take_writers_ok (fun d => with_cond d false) l taken ww); try done; [by rewrite <- Htk| | |].
    - intros d Hd. rewrite Forall_forall in Hty. split; [done|]. cbn. by rewrite Hty.
    - destruct Hcase as [?|[He _]]; [by left|]. right. eapply Forall_impl; [exact Hty|]. intros d. cbn. congruence.
    - intros w r (d & -> & Hd)%list_elem_of_fmap Hrr. rewrite Forall_forall in Hty. specialize (Hty d Hd).
      apply (start_fits l); try done; cbn; by rewrite Hty. }
  destruct (free_waiting_fields l2 (is_concurrent (type data))) as (E1 & _).
  split; [|apply live_held; rewrite E1; subst l2; cbn; by destruct taken].
  apply free_waiting_ok; [done|]. apply fits_type; [done|by cbn in *; lia|].
  subst l2. cbn. by apply Forall_map.
Qed.

Lemma wake_up_waiters_inv l : lock_ok l -> lock_inv max_write_lock_count (wake_up_waiters max_write_lock_count check_status l).
Proof.
  intros Hl. unfold wake_up_waiters. destruct (write l) eqn:Ew.
  - destruct (read l) eqn:Er; [by apply wake_idle_inv|]. apply wake_readers_inv; [done|done|by rewrite Er].
  - split; [done|]. apply live_held. by rewrite Ew.
Qed.
End WakeOk.
