(* ===== verification/ThrLockSafe.v ===== *)
(** * Table locks: safety and progress of every call

    Each call of mysys/thr_lock.c keeps the invariant of [ThrLockInv], so that
    it holds in every state the server can reach. *)

From stdpp Require Import prelude list list_numbers sorting.
From Stdlib Require Import ZArith Lia ZifyNat.
From S2P Require Import Prelude ThrLock ThrLockInv.

Open Scope Z_scope.

(** ** Instances by address *)

Lemma remove_at_app a p q : remove_at a (p ++ q) = remove_at a p ++ remove_at a q.
Proof. apply List.filter_app. Qed.

Lemma elem_of_remove_at a q d : d ∈ remove_at a q <-> d ∈ q /\ address d <> a.
Proof.
  unfold remove_at, is_at. rewrite !list_elem_of_In, filter_In, negb_true_iff, Nat.eqb_neq. done.
Qed.

Lemma remove_at_none a q : a ∉ map address q -> remove_at a q = q.
Proof.
  induction q as [|d q IH]; intros H; [done|]. cbn in H. apply not_elem_of_cons in H as [H1 H2].
  unfold remove_at in *. cbn. unfold is_at at 1. replace (address d =? a)%nat with false by (symmetry; apply Nat.eqb_neq; congruence).
  cbn. by rewrite IH.
Qed.

Lemma remove_at_perm a q d : NoDup (map address q) -> d ∈ q -> address d = a -> q ≡ₚ d :: remove_at a q.
Proof.
  intros Hnd Hd Ha. apply list_elem_of_split in Hd as (q1 & q2 & ->).
  rewrite map_app in Hnd. cbn in Hnd. apply NoDup_app in Hnd as (_ & H1 & H2). apply NoDup_cons in H2 as [H2 _].
  rewrite remove_at_app, remove_at_none.
  - change (d :: q2) with ([d] ++ q2). rewrite remove_at_app, (remove_at_none a q2) by (by rewrite <- Ha).
    unfold remove_at. cbn. unfold is_at. rewrite Ha, Nat.eqb_refl. cbn. by rewrite <- Permutation_middle.
  - rewrite <- Ha. intros Hin. apply (H1 _ Hin). left.
Qed.

Lemma same_address q d1 d2 : NoDup (map address q) -> d1 ∈ q -> d2 ∈ q -> address d1 = address d2 -> d1 = d2.
Proof.
  intros Hnd (i & Hi)%list_elem_of_lookup (j & Hj)%list_elem_of_lookup Ha.
  assert (i = j) as ->; [|congruence]. apply (NoDup_lookup (map address q) i j (address d1) Hnd).
  - change (map address q) with (address <$> q). by rewrite list_lookup_fmap, Hi.
  - change (map address q) with (address <$> q). rewrite list_lookup_fmap, Hj. cbn. by rewrite Ha.
Qed.

Lemma find_data_spec l a d : find_data l a = Some d -> d ∈ all_data l /\ address d = a.
Proof.
  unfold find_data. intros [H1 H2]%List.find_some. unfold is_at in H2. b2p. split; [|done]. by apply list_elem_of_In.
Qed.

Lemma find_data_in l d : lock_ok l -> d ∈ all_data l -> find_data l (address d) = Some d.
Proof.
  intros Hl Hd. unfold find_data. fold (all_data l). destruct (List.find _ _) as [e|] eqn:E.
  - apply (find_data_spec l) in E as [H1 H2]. f_equal. by apply (same_address (all_data l)); [apply Hl|..].
  - exfalso. apply list_elem_of_In in Hd. pose proof (List.find_none _ _ E d Hd) as H. unfold is_at in H. b2p. done.
Qed.

Lemma all_unlink l d : all_data (put_loose (unlink l (address d)) d) ≡ₚ d :: remove_at (address d) (all_data l).
Proof. unfold all_data. cbn. rewrite !remove_at_app. solve_Permutation. Qed.

(** The queues without one instance, which is now in none. *)
Lemma all_put l d d' : lock_ok l -> d ∈ all_data l -> address d' = address d ->
  map address (all_data (put_loose (unlink l (address d)) d')) ≡ₚ map address (all_data l).
Proof.
  intros Hl Hd Ha. rewrite <- Ha, all_unlink, Ha. cbn. rewrite Ha.
  rewrite (remove_at_perm (address d) (all_data l) d) at 2; [done|apply Hl|done|done].
Qed.

Lemma Forall_remove P a q : Forall P q -> Forall P (remove_at a q).
Proof. apply Forall_filter. Qed.

Lemma count_remove a q d : NoDup (map address q) -> d ∈ q -> address d = a ->
  count_no_insert q = ((if type_eq (type d) TL_READ_NO_INSERT then 1 else 0) + count_no_insert (remove_at a q))%nat.
Proof.
  intros Hnd Hd Ha. unfold count_no_insert at 1.
  assert (forall p q, p ≡ₚ q -> length (List.filter (fun d => type_eq (type d) TL_READ_NO_INSERT) p) =
    length (List.filter (fun d => type_eq (type d) TL_READ_NO_INSERT) q)) as Hperm.
  { intros p1 p2 Hp. induction Hp; cbn; repeat case_if; cbn; congruence. }
  rewrite (Hperm _ _ (remove_at_perm a q d Hnd Hd Ha)). cbn. case_if; cbn; done.
Qed.

(** ** Leaving a queue *)

Lemma remove_delayed a (q : list THR_LOCK_DATA) :
  (forall w, w ∈ q -> type w = TL_WRITE_DELAYED -> q = [w]) ->
  forall w, w ∈ remove_at a q -> type w = TL_WRITE_DELAYED -> remove_at a q = [w].
Proof.
  intros H w [Hw Ha]%elem_of_remove_at Ht. rewrite (H w Hw Ht). unfold remove_at. cbn. unfold is_at.
  by replace (address w =? a)%nat with false by (symmetry; by apply Nat.eqb_neq).
Qed.

Lemma StronglySorted_filter {A} (R : A -> A -> Prop) (p : A -> bool) q :
  StronglySorted R q -> StronglySorted R (List.filter p q).
Proof.
  induction 1 as [|x q Hs IH Hx]; cbn; [constructor|]. destruct (p x); [|done]. constructor; [done|]. by apply Forall_filter.
Qed.

(** The instance leaves its queue and the counter follows. *)
Lemma leave_ok l d d' c :
  lock_ok l -> d ∈ all_data l -> address d' = address d ->
  c = Z.of_nat (count_no_insert (remove_at (address d) (read l))) ->
  lock_ok (put_loose (set_counts (unlink l (address d)) (write_lock_count l) c) d').
Proof.
  intros Hl Hd Ha Hc. pose proof (all_put l d d' Hl Hd Ha) as Hp.
  change (all_data (put_loose (unlink l (address d)) d')) with
    (all_data (put_loose (set_counts (unlink l (address d)) (write_lock_count l) c) d')) in Hp.
  destruct Hl as [H1 H2 H3 H4 H5 H6 H7 Hwc H8 H9 H10 H11 H12].
  split; rewrite ?Hp; try done;
    cbn [put_loose set_loose set_counts unlink set_queues read read_wait write write_wait read_no_write_count write_lock_count has_check_status];
    try by apply Forall_remove.
  - intros w1 w2 [? _]%elem_of_remove_at [? _]%elem_of_remove_at. by apply H8.
  - intros w r [? _]%elem_of_remove_at [? _]%elem_of_remove_at. by apply H9.
  - by apply remove_delayed.
  - intros Hcs. by apply Forall_remove, H11.
  - by apply StronglySorted_filter.
Qed.

(** Which queue an instance is in. *)
Lemma in_all l d : d ∈ all_data l <->
  d ∈ read_wait l \/ d ∈ read l \/ d ∈ write_wait l \/ d ∈ write l \/ d ∈ loose l.
Proof. unfold all_data. by rewrite !elem_of_app. Qed.

Lemma in_read l d : lock_ok l -> d ∈ read l -> cond d = false /\ is_read (type d).
Proof. intros Hl. revert d. apply Forall_forall, Hl. Qed.
Lemma in_write l d : lock_ok l -> d ∈ write l -> cond d = false /\ is_write (type d).
Proof. intros Hl. revert d. apply Forall_forall, Hl. Qed.
Lemma in_read_wait l d : lock_ok l -> d ∈ read_wait l -> cond d = true /\ is_read (type d).
Proof. intros Hl. revert d. apply Forall_forall, Hl. Qed.
Lemma in_write_wait l d : lock_ok l -> d ∈ write_wait l -> cond d = true /\ is_write (type d).
Proof. intros Hl. revert d. apply Forall_forall, Hl. Qed.

Lemma not_read_address l d : lock_ok l -> d ∈ all_data l -> d ∉ read l -> address d ∉ map address (read l).
Proof.
  intros Hl Hd Hn (e & He & Hin)%list_elem_of_fmap. apply Hn.
  rewrite (same_address (all_data l) d e); [done|apply Hl|done| |done]. apply in_all. tauto.
Qed.

Lemma NoDup_read l : lock_ok l -> NoDup (map address (read l)).
Proof.
  intros Hl. pose proof (ok_nodup _ Hl) as H. unfold all_data in H. rewrite !map_app in H.
  apply NoDup_app in H as (_ & _ & H). by apply NoDup_app in H as (? & _).
Qed.

Lemma read_count_small l : lock_ok l -> Z.of_nat (count_no_insert (read l)) < 2 ^ 32.
Proof. intros Hl. pose proof (read_len l Hl). pose proof (count_le (read l)). lia. Qed.

(** What thr_unlock makes of the counter. *)
Lemma leave_count l d : lock_ok l -> d ∈ all_data l ->
  (d ∈ read l \/ ((d ∉ read l) /\ type d <> TL_READ_NO_INSERT)) ->
  (if type_eq (type d) TL_READ_NO_INSERT then u32 (read_no_write_count l - 1) else read_no_write_count l) =
  Z.of_nat (count_no_insert (remove_at (address d) (read l))).
Proof.
  intros Hl Hd Hc. rewrite (ok_count _ Hl). pose proof (read_count_small l Hl) as Hs. destruct Hc as [Hr|[Hr Ht]].
  - rewrite (count_remove _ _ d (NoDup_read l Hl) Hr eq_refl) in *. destruct (type_eq _ _); [|lia].
    rewrite u32_small by lia. lia.
  - rewrite (proj2 (type_eq_false _ _) Ht), remove_at_none; [done|]. by apply not_read_address.
Qed.

(** ** The calls that take a lock away *)

(** Hypotheses on the settings of the server, shared by the calls. *)
Section Calls.
Context (max_write_lock_count : Z).
Context (thr_upgraded_concurrent_insert_lock : thr_lock_type).
Abbreviation inv := (lock_inv max_write_lock_count).

Lemma thr_unlock_inv check_status l d :
  lock_ok l -> d ∈ read l \/ d ∈ write l \/ (d ∈ write_wait l /\ type d = TL_WRITE_DELAYED) ->
  exists l', thr_unlock max_write_lock_count check_status l (address d) = Some l' /\ inv l'.
Proof.
  intros Hl Hin. assert (d ∈ all_data l) as Hd by (rewrite in_all; tauto).
  unfold thr_unlock. rewrite find_data_in by done. obind. eexists. split; [done|].
  apply wake_up_waiters_inv. set (c := if type_eq _ _ then _ else _). set (ev := if type_le _ _ then _ else _).
  change (put_loose _ _) with (emit (put_loose (set_counts (unlink l (address d)) (write_lock_count l) c) (with_type d TL_UNLOCK)) [ev]).
  apply emit_ok, leave_ok; try done. subst c. cbn [unlink set_queues read_no_write_count]. apply leave_count; [done|done|].
  destruct Hin as [?|[Hw|[Hw Ht]]]; [by left|right|right].
  - pose proof (in_write _ _ Hl Hw) as [_ Ht]. split; [|intros E; rewrite E in Ht; destruct Ht as [Ht _]; cbn in Ht; lia].
    intros Hr%in_read; [|done]. destruct Hr as [_ Hr], Ht as [Ht _]. unfold is_read in Hr. lia.
  - split; [|congruence]. intros [Hr _]%in_read; [|done]. apply in_write_wait in Hw as [Hw _]; [|done]. congruence.
Qed.

(** Removing a request that waits. *)
Lemma leave_wait_ok l d d' :
  lock_ok l -> d ∈ read_wait l \/ d ∈ write_wait l -> address d' = address d ->
  lock_ok (put_loose (unlink l (address d)) d').
Proof.
  intros Hl Hin Ha. assert (d ∈ all_data l) as Hd by (rewrite in_all; tauto).
  assert (cond d = true) as Hc by (destruct Hin as [[? _]%in_read_wait|[? _]%in_write_wait]; done).
  change (unlink l (address d)) with (set_counts (unlink l (address d)) (write_lock_count l) (read_no_write_count l)).
  apply leave_ok; try done. rewrite (ok_count _ Hl), remove_at_none; [done|].
  apply not_read_address; [done|done|]. intros [Hr _]%in_read; [congruence|done].
Qed.

(** A thread stops waiting: it got the lock, or it gives up. *)
Lemma wait_leave_inv check_status l d timed_out :
  inv l -> d ∈ all_data l -> (cond d = true -> d ∈ read_wait l \/ d ∈ write_wait l) ->
  exists r l', wait_leave max_write_lock_count check_status l (address d) timed_out = Some (r, l') /\ inv l'.
Proof.
  intros [Hl Hn] Hd Hc. unfold wait_leave. rewrite find_data_in by done. obind.
  destruct (cond d) eqn:Ec; cbn [orb].
  - eexists _, _. split; [done|]. apply wake_up_waiters_inv, leave_wait_ok; [done|by apply Hc|done].
  - destruct (type_eq _ _); eexists _, _; (split; [done|]); [done|]. by apply emit_inv.
Qed.

Lemma abort_ok l (f : THR_LOCK_DATA -> bool) ev :
  lock_ok l ->
  lock_ok (emit (set_loose (set_queues l (List.filter (fun d => negb (f d)) (read_wait l)) (read l)
      (List.filter (fun d => negb (f d)) (write_wait l)) (write l))
    (map killed (List.filter f (read_wait l) ++ List.filter f (write_wait l)) ++ loose l)) ev).
Proof.
  intros Hl. apply emit_ok. set (l' := set_loose _ _).
  assert (map address (all_data l') ≡ₚ map address (all_data l)) as Hp.
  { subst l'. unfold all_data. cbn. rewrite !map_app, !map_map. cbn.
    rewrite <- (filter_split_perm f (read_wait l)) at 3. rewrite <- (filter_split_perm f (write_wait l)) at 3.
    rewrite !map_app. solve_Permutation. }
  destruct Hl as [H1 H2 H3 H4 H5 H6 H7 Hwc H8 H9 H10 H11 H12].
  split; rewrite ?Hp; try done; subst l'; cbn [set_loose set_queues read_wait write_wait has_check_status];
    try by apply Forall_filter.
  intros Hcs. by apply Forall_filter, H11.
Qed.

Lemma thr_abort_locks_inv l : lock_ok l -> inv (thr_abort_locks l false).
Proof.
  intros Hl. unfold thr_abort_locks. pose proof (abort_ok l (fun _ => true) (signals (read_wait l ++ write_wait l)) Hl) as H.
  assert (forall q : list THR_LOCK_DATA, List.filter (fun _ => true) q = q) as E1 by (intros q; induction q; cbn; congruence).
  assert (forall q : list THR_LOCK_DATA, List.filter (fun _ => negb true) q = []) as E2 by (intros q; by induction q).
  rewrite !E1, !E2 in H. split; [destruct (write l) eqn:E; exact H|]. by split; destruct (write l).
Qed.

Lemma thr_abort_locks_for_thread_inv check_status thread_id l id :
  lock_ok l -> inv (snd (thr_abort_locks_for_thread max_write_lock_count check_status thread_id l id)).
Proof. intros Hl. apply wake_up_waiters_inv, (abort_ok l (fun d => (thread_id (owner d) =? id)%nat)), Hl. Qed.

(** ** The call that takes a lock *)

(** The lock has an instance less, and room for it. *)
Record room (l : THR_LOCK) (a : nat) : Prop := {
  room_ok : lock_ok l;
  room_fresh : a ∉ map address (all_data l);
  room_small : Z.of_nat (length (map address (all_data l))) + 1 < 2 ^ 32
}.

Lemma take_loose_room l d : lock_ok l -> d ∈ loose l -> room (take_loose l (address d)) (address d).
Proof.
  intros Hl Hd. set (l0 := take_loose l (address d)).
  assert (map address (all_data l) ≡ₚ address d :: map address (all_data l0)) as Hp.
  { subst l0. unfold all_data. cbn. pose proof (ok_nodup _ Hl) as H. unfold all_data in H. rewrite !map_app in H.
    assert (NoDup (map address (loose l))) as Hn by (repeat apply NoDup_app in H as (_ & _ & H); done).
    pose proof (remove_at_perm _ _ d Hn Hd eq_refl) as Hq. rewrite !map_app, Hq at 1. cbn. solve_Permutation. }
  pose proof (ok_nodup _ Hl) as Hn. pose proof (ok_small _ Hl) as Hs. rewrite Hp in Hn, Hs.
  cbn [length] in Hs. apply NoDup_cons in Hn as [Hf Hn]. split; [|done|lia].
  destruct Hl. split; try done. lia.
Qed.

Lemma room_perm l l' a :
  room l a -> map address (all_data l') ≡ₚ a :: map address (all_data l) ->
  NoDup (map address (all_data l')) /\ Z.of_nat (length (map address (all_data l'))) < 2 ^ 32.
Proof.
  intros [Hl Hf Hs] Hp. rewrite Hp. cbn. split; [|lia]. apply NoDup_cons. split; [done|apply Hl].
Qed.

Lemma grant_read_ok l d :
  room l (address d) -> held is_read d -> (forall w, w ∈ write l -> compatible w d) -> lock_ok (grant_read l d).
Proof.
  intros Hroom Hd Hc. apply emit_ok. set (l' := set_counts _ _ _).
  destruct (room_perm l l' (address d) Hroom) as [Hn Hs].
  { subst l'. unfold all_data. cbn. rewrite !map_app. cbn. solve_Permutation. }
  pose proof (read_count_small l (room_ok _ _ Hroom)) as Hcs. pose proof (room_small _ _ Hroom) as Hsm.
  destruct Hroom as [[H1 H2 H3 H4 H5 H6 H7 Hwc H8 H9 H10 H11 H12] _ _].
  assert (Z.of_nat (count_no_insert (read l)) + 1 < 2 ^ 32).
  { pose proof (count_le (read l)). unfold all_data in Hsm. rewrite length_map, !length_app in Hsm. lia. }
  split; try done; subst l'; cbn [set_counts set_queues read read_no_write_count write].
  - apply Forall_app. split; [done|]. by constructor.
  - rewrite count_app, count_one, H7. destruct (type_eq _ _); [rewrite u32_small by lia|]; lia.
  - intros w r Hw [Hr|Hr]%elem_of_app; [by apply H9|]. apply list_elem_of_singleton in Hr as ->. by apply Hc.
Qed.

Lemma StronglySorted_snoc {A} (R : A -> A -> Prop) q x :
  StronglySorted R q -> (forall y, y ∈ q -> R y x) -> StronglySorted R (q ++ [x]).
Proof.
  induction 1 as [|y q Hs IH Hy]; intros Hx; cbn; [repeat constructor|]. constructor.
  - apply IH. intros z Hz. apply Hx. by right.
  - apply Forall_app. split; [done|]. constructor; [apply Hx; left|constructor].
Qed.

Lemma grant_write_ok l d c :
  room l (address d) -> held is_write d -> (forall w, w ∈ write l -> together w d) ->
  (forall w, w ∈ write l -> type w <> TL_WRITE_DELAYED /\ type d <> TL_WRITE_DELAYED) ->
  (forall w, w ∈ write l -> not_stronger w d) ->
  (forall r, r ∈ read l -> compatible d r) -> lock_ok (grant_write l d c).
Proof.
  intros Hroom Hd Ht Hdl Hst Hc. apply emit_ok. set (l' := set_queues _ _ _ _ _).
  destruct (room_perm l l' (address d) Hroom) as [Hn Hs].
  { subst l'. unfold all_data. cbn. rewrite !map_app. cbn. solve_Permutation. }
  destruct Hroom as [[H1 H2 H3 H4 H5 H6 H7 Hwc H8 H9 H10 H11 H12] _ _].
  split; try done; subst l'; cbn [set_queues write read].
  - apply Forall_app. split; [done|]. by constructor.
  - intros w1 w2 [Hw1|Hw1]%elem_of_app [Hw2|Hw2]%elem_of_app.
    + by apply H8.
    + apply list_elem_of_singleton in Hw2 as ->. by apply Ht.
    + apply list_elem_of_singleton in Hw1 as ->. destruct (Ht w2 Hw2) as [?|[? ?]]; [by left|by right].
    + apply list_elem_of_singleton in Hw1 as ->. apply list_elem_of_singleton in Hw2 as ->. by left.
  - intros w r [Hw|Hw]%elem_of_app Hr; [by apply H9|]. apply list_elem_of_singleton in Hw as ->. by apply Hc.
  - intros w [Hw|Hw]%elem_of_app Hty; [by destruct (Hdl w Hw)|]. apply list_elem_of_singleton in Hw as ->.
    destruct (write l) as [|x q]; [done|]. destruct (Hdl x) as [_ ?]; [left|done].
  - by apply StronglySorted_snoc.
Qed.

Lemma wait_read_ok l d : room l (address d) -> is_read (type d) -> lock_ok (wait_read l d).
Proof.
  intros Hroom Hd. apply emit_ok. set (l' := set_queues _ _ _ _ _).
  destruct (room_perm l l' (address d) Hroom) as [Hn Hs].
  { subst l'. unfold all_data. cbn. rewrite !map_app. cbn. solve_Permutation. }
  destruct Hroom as [[H1 H2 H3 H4 H5 H6 H7 Hwc H8 H9 H10 H11 H12] _ _].
  split; try done; subst l'; cbn [set_queues read_wait]. apply Forall_app. split; [done|]. by constructor.
Qed.

Lemma wait_write_ok l d ev : room l (address d) -> is_write (type d) ->
  (has_check_status l = false -> type d <> TL_WRITE_CONCURRENT_INSERT) ->
  lock_ok (emit (set_queues l (read_wait l) (read l) (write_wait l ++ [with_cond d true]) (write l)) ev).
Proof.
  intros Hroom Hd Hcs. apply emit_ok. set (l' := set_queues _ _ _ _ _).
  destruct (room_perm l l' (address d) Hroom) as [Hn Hs].
  { subst l'. unfold all_data. cbn. rewrite !map_app. cbn. solve_Permutation. }
  destruct Hroom as [[H1 H2 H3 H4 H5 H6 H7 Hwc H8 H9 H10 H11 H12] _ _].
  split; try done; subst l'; cbn [set_queues write_wait has_check_status].
  - apply Forall_app. split; [done|]. by constructor.
  - intros Hc. apply Forall_app. split; [by apply H11|]. constructor; [by apply Hcs|constructor].
Qed.

Lemma refuse_ok l d : room l (address d) -> lock_ok (refuse l d).
Proof.
  intros Hroom. destruct (room_perm l (refuse l d) (address d) Hroom) as [Hn Hs].
  { destruct Hroom as [_ Hf _]. unfold all_data in *. cbn. rewrite !map_app in Hf.
    rewrite remove_at_none by (rewrite !elem_of_app in Hf; tauto). rewrite !map_app. cbn. solve_Permutation. }
  destruct Hroom as [[] _ _]. by split.
Qed.

(** The first write lock is the strongest. *)
Lemma first_strongest l w ws x : lock_ok l -> write l = w :: ws -> x ∈ write l -> rank (type x) <= rank (type w).
Proof.
  intros Hl E Hx. pose proof (ok_sorted _ Hl) as Hs. rewrite E in Hs, Hx. inversion Hs as [|? ? _ Hall]; subst.
  apply elem_of_cons in Hx as [->|Hx]; [done|]. rewrite Forall_forall in Hall. by apply Hall.
Qed.

(** What fits to the first write lock fits to all. *)
Lemma read_fits l w ws d :
  lock_ok l -> write l = w :: ws -> is_read (type d) ->
  owner d = owner w \/ (num (type w) <= num TL_WRITE_DELAYED /\
    (num (type d) <= num TL_READ_HIGH_PRIORITY \/ type w <> TL_WRITE_CONCURRENT_INSERT)) ->
  forall x, x ∈ write l -> compatible x d.
Proof.
  intros Hl E Hd Hc x Hx. pose proof (first_strongest l w ws x Hl E Hx) as Hr.
  assert (w ∈ write l) as Hw by (rewrite E; left).
  destruct Hc as [Hc|[Hle Hc]].
  - destruct (ok_writers _ Hl w x Hw Hx) as [Ho|[_ Ht]]; [left; congruence|]. right. rewrite Ht. split; [cbn; lia|by right].
  - right. destruct (decide (type w = TL_WRITE_DELAYED)) as [Ed|Hnd].
    { pose proof (ok_delayed _ Hl w Hw Ed) as E1. rewrite E1 in Hx. apply list_elem_of_singleton in Hx as ->. done. }
    pose proof (in_write _ _ Hl Hx) as [_ Hxw]. pose proof (in_write _ _ Hl Hw) as [_ Hww].
    destruct (type w), (type x); cbn in *; unfold is_write in *; cbn in *; try lia; intuition (congruence || lia).
Qed.

Lemma lock_for_read_inv l d :
  room l (address d) -> no_lost max_write_lock_count l -> held is_read d -> inv (snd (lock_for_read l d)).
Proof.
  intros Hroom Hn Hd. pose proof (room_ok _ _ Hroom) as Hl. unfold lock_for_read. destruct (write l) as [|w ws] eqn:Ew.
  - case_if; cbn [snd].
    + split; [apply grant_read_ok; [done|done|rewrite Ew; by intros w ?%not_elem_of_nil]|].
      split; cbn [grant_read emit set_counts set_queues read write read_wait write_wait].
      * by intros _ [_ ?]%app_eq_nil.
      * intros _ H. exact (nl_readers _ _ Hn Ew H).
      * intros Hm _ x ww Hx Hc. rewrite count_app. pose proof (nl_writers _ _ Hn Hm Ew x ww Hx Hc). lia.
    + split; [apply wait_read_ok; [done|apply Hd]|]. t2p.
      split; cbn [wait_read emit set_queues read write read_wait write_wait].
      * intros _ Hr. destruct (nl_free _ _ Hn Ew Hr) as [_ E]. by rewrite E in *.
      * intros _ E. by rewrite E in *.
      * intros Hm _. exact (nl_writers _ _ Hn Hm Ew).
  - case_if; [|case_if]; cbn [snd].
    + split; [|apply live_held; by cbn; rewrite Ew]. apply grant_read_ok; [done|done|].
      eapply read_fits; [done|done|apply Hd|]. apply orb_true_iff in Heqb as [H|H].
      * left. unfold thr_lock_owner_equal in H. by b2p.
      * right. apply andb_true_iff in H as [H1 H2]. apply orb_true_iff in H2. rewrite type_le_true in H1. split; [done|].
        rewrite type_le_true, negb_true_iff, type_eq_false in H2. done.
    + split; [by apply refuse_ok|]. apply live_held. by cbn; rewrite Ew.
    + split; [apply wait_read_ok; [done|apply Hd]|]. apply live_held. by cbn; rewrite Ew.
Qed.

(** What the callers ensure by sorting their requests: a further write lock of an
    owner is not stronger than the ones it has, which are not of a delayed
    insert. *)
Definition sorted_request (l : THR_LOCK) (d : THR_LOCK_DATA) : Prop :=
  forall w, w ∈ write l -> owner w = owner d -> not_stronger w d /\ type w <> TL_WRITE_DELAYED.

Lemma has_old_lock_true q o : has_old_lock q o = true <-> exists d, d ∈ q /\ owner d = o.
Proof.
  induction q as [|d q IH]; cbn; [split; [done|by intros (d & ?%not_elem_of_nil & _)]|].
  unfold thr_lock_owner_equal. case_if.
  - split; [|done]. intros _. exists d. split; [left|done].
  - rewrite IH. split; intros (x & Hx & Ho); exists x; (split; [|done]); [by right|].
    apply elem_of_cons in Hx as [->|?]; [congruence|done].
Qed.

Lemma weak_write t : is_write t -> t <> TL_WRITE_DELAYED -> rank t <= num TL_WRITE_DELAYED ->
  t = TL_WRITE_ALLOW_WRITE \/ t = TL_WRITE_CONCURRENT_INSERT.
Proof. unfold is_write. destruct t; cbn; intros [? ?] ? ?; try lia; try done; tauto. Qed.

Lemma rank_allow t : is_write t -> rank t <= rank TL_WRITE_ALLOW_WRITE -> t = TL_WRITE_ALLOW_WRITE.
Proof. unfold is_write. destruct t; cbn; intros [? ?] ?; try lia; done. Qed.

Lemma rank_num t : num t <= num TL_WRITE_DELAYED -> rank t <= num TL_WRITE_DELAYED.
Proof. destruct t; cbn; lia. Qed.

(** A further write lock of an owner that has one. *)
Lemma own_write_ok l d c :
  room l (address d) -> held is_write d -> type d <> TL_WRITE_DELAYED ->
  sorted_request l d -> has_old_lock (write l) (owner d) = true -> lock_ok (grant_write l d c).
Proof.
  intros Hroom Hd Hnd Hs Hold. pose proof (room_ok _ _ Hroom) as Hl.
  apply has_old_lock_true in Hold as (o & Ho & Hoo). destruct (Hs o Ho Hoo) as [Hst Hod].
  pose proof (in_write _ _ Hl Ho) as [_ How]. destruct Hd as [Hcd Hdw].
  assert (forall w, w ∈ write l -> owner w = owner d \/ (type w = TL_WRITE_ALLOW_WRITE /\ type d = TL_WRITE_ALLOW_WRITE)) as Hc.
  { intros w Hw. destruct (ok_writers _ Hl w o Hw Ho) as [?|[Hwa Hoa]]; [left; congruence|]. right. split; [done|].
    apply rank_allow; [done|]. unfold not_stronger in Hst. by rewrite Hoa in Hst. }
  apply grant_write_ok; [done|done|exact Hc| | |].
  - intros w Hw. split; [|done]. intros E. apply Hod. pose proof (ok_delayed _ Hl w Hw E) as E1. rewrite E1 in Ho.
    by apply list_elem_of_singleton in Ho as ->.
  - intros w Hw. destruct (Hc w Hw) as [E|[E1 E2]]; [by apply Hs|]. unfold not_stronger. by rewrite E1, E2.
  - intros r Hr. destruct (ok_compatible _ Hl o r Ho Hr) as [E|[Hle Hor]]; [left; congruence|].
    apply rank_num in Hle. destruct (weak_write _ How Hod Hle) as [E|E]; unfold not_stronger in Hst; rewrite E in *.
    + apply rank_allow in Hst; [|done]. right. rewrite Hst. split; [cbn; lia|by right].
    + destruct (weak_write (type d) Hdw Hnd) as [E'|E']; [cbn in *; lia|..]; right; rewrite E'.
      * split; [cbn; lia|by right].
      * split; [cbn; lia|]. destruct Hor as [?|?]; [by left|done].
Qed.

Lemma lock_second_write_inv l d w ws :
  room l (address d) -> write l = w :: ws -> held is_write d -> type d <> TL_WRITE_DELAYED ->
  (has_check_status l = false -> type d <> TL_WRITE_CONCURRENT_INSERT) -> sorted_request l d ->
  inv (snd (lock_second_write l d w)).
Proof.
  intros Hroom Ew Hd Hnd Hcs Hs. pose proof (room_ok _ _ Hroom) as Hl. unfold lock_second_write. case_if; [|case_if]; cbn [snd].
  - split; [by apply refuse_ok|]. apply live_held. by cbn; rewrite Ew.
  - split; [|apply live_held; by cbn; rewrite Ew]. apply orb_true_iff in Heqb0 as [H|H]; [|by apply own_write_ok].
    clear Heqb. t2p.
    assert (forall x, x ∈ write l -> type x = TL_WRITE_ALLOW_WRITE) as Hall.
    { intros x Hx. pose proof (in_write _ _ Hl Hx) as [_ Hxw]. apply rank_allow; [done|].
      pose proof (first_strongest l w ws x Hl Ew Hx) as Hr. by rewrite H0 in Hr. }
    apply grant_write_ok; try done.
    + intros x Hx. right. split; [by apply Hall|done].
    + intros x Hx. split; [rewrite Hall by done|]; done.
    + intros x Hx. unfold not_stronger. rewrite (Hall x Hx), H. done.
    + intros r Hr. right. rewrite H. split; [cbn; lia|by right].
  - split; [apply wait_write_ok; [done|apply Hd|done]|]. apply live_held. by cbn; rewrite Ew.
Qed.

(** The first write lock, when no other write lock waits. *)
Lemma grant_first_ok l d c :
  room l (address d) -> write l = [] -> held is_write d ->
  read l = [] \/ (num (type d) <= num TL_WRITE_DELAYED /\
    (is_concurrent (type d) = false \/ read_no_write_count l = 0)) ->
  lock_ok (grant_write l d c).
Proof.
  intros Hroom Ew Hd Hc. apply grant_write_ok; try done; rewrite ?Ew; try by intros w ?%not_elem_of_nil.
  intros r Hr. destruct Hc as [E|[Hle Hc]]; [rewrite E in Hr; by apply not_elem_of_nil in Hr|].
  by apply (start_fits l); [apply Hroom|..].
Qed.

Context (Hupgraded : thr_upgraded_concurrent_insert_lock = TL_WRITE \/
                     thr_upgraded_concurrent_insert_lock = TL_WRITE_LOW_PRIORITY).

Lemma upgraded_write : is_write thr_upgraded_concurrent_insert_lock /\
  thr_upgraded_concurrent_insert_lock <> TL_WRITE_CONCURRENT_INSERT /\
  thr_upgraded_concurrent_insert_lock <> TL_WRITE_DELAYED.
Proof. destruct Hupgraded as [-> | ->]; unfold is_write; cbn; split_and!; done. Qed.

(** A request that has to wait behind the readers. *)
Lemma wait_first_inv l d :
  room l (address d) -> write l = [] -> no_lost max_write_lock_count l -> is_write (type d) ->
  (has_check_status l = false -> type d <> TL_WRITE_CONCURRENT_INSERT) ->
  read l <> [] -> (write_wait l = [] -> is_concurrent (type d) = true -> read_no_write_count l <> 0) ->
  forall ev, inv (emit (set_queues l (read_wait l) (read l) (write_wait l ++ [with_cond d true]) (write l)) ev).
Proof.
  intros Hroom Ew Hn Hd Hcs Hr Hc ev. split; [by apply wait_write_ok|]. apply emit_live.
  split; cbn [set_queues read write read_wait write_wait].
  - done.
  - by intros _ [_ ?]%app_eq_nil.
  - intros Hm _ x ww Hx Hxc. destruct (write_wait l) as [|y q] eqn:E; cbn in Hx; injection Hx as <- _.
    + specialize (Hc eq_refl Hxc). rewrite (ok_count _ (room_ok _ _ Hroom)) in Hc. lia.
    + exact (nl_writers _ _ Hn Hm Ew y q E Hxc).
Qed.

Lemma lock_first_write_inv check_status l d :
  room l (address d) -> write l = [] -> no_lost max_write_lock_count l -> held is_write d ->
  (has_check_status l = false -> type d <> TL_WRITE_CONCURRENT_INSERT) ->
  inv (snd (lock_first_write check_status thr_upgraded_concurrent_insert_lock l d)).
Proof.
  intros Hroom Ew Hn Hd Hcs. pose proof upgraded_write as (U1 & U2 & U3). unfold lock_first_write.
  destruct (write_wait l) as [|x q] eqn:Eww.
  - assert (exists d' c, (if type_eq (type d) TL_WRITE_CONCURRENT_INSERT then
        if check_status (address d) then (with_type d thr_upgraded_concurrent_insert_lock, false) else (d, true)
        else (d, false)) = (d', c) /\ address d' = address d /\ held is_write d' /\
        (has_check_status l = false -> type d' <> TL_WRITE_CONCURRENT_INSERT)) as (d' & c & -> & Ha & Hd' & Hcs').
    { repeat case_if; eexists _, _; split_and!; try done. by split; [apply Hd|]. }
    rewrite <- Ha in Hroom. destruct (orb _ _) eqn:Heqb; cbn [snd].
    + split; [|apply live_held; cbn; by rewrite Ew]. apply grant_first_ok; try done.
      apply orb_true_iff in Heqb as [H|H]; [left; by destruct (read l)|right].
      apply andb_true_iff in H as [H1 H2]. apply orb_true_iff in H2. rewrite type_le_true in H1.
      rewrite negb_true_iff, Z.eqb_eq in H2. done.
    + apply orb_false_iff in Heqb as [H1 H2]. apply wait_first_inv; try done; [apply Hd'|by destruct (read l)|].
      intros _ Hc. rewrite Hc in H2. apply is_concurrent_true in Hc.
      apply andb_false_iff in H2 as [H2|H2]; [|cbn in H2; by b2p].
      apply type_le_false in H2. destruct Hc as [Hc|Hc]; rewrite Hc in H2; cbn in H2; lia.
  - cbn [snd]. apply wait_first_inv; try done; [apply Hd| |by rewrite Eww].
    intros E. destruct (nl_free _ _ Hn Ew E) as [_ E']. by rewrite Eww in E'.
Qed.

(** The request as thr_lock makes it. *)
Definition effective (l : THR_LOCK) (t : thr_lock_type) : thr_lock_type :=
  if type_eq t TL_WRITE_CONCURRENT_INSERT && negb (has_check_status l)
  then thr_upgraded_concurrent_insert_lock else t.

Lemma lock_for_write_inv check_status l d :
  room l (address d) -> no_lost max_write_lock_count l -> held is_write d ->
  (type d <> TL_WRITE_DELAYED -> sorted_request l (with_type d (effective l (type d)))) ->
  inv (snd (lock_for_write check_status thr_upgraded_concurrent_insert_lock l d)).
Proof.
  intros Hroom Hn Hd Hs. pose proof upgraded_write as (U1 & U2 & U3).
  assert (held is_write (with_type d (effective l (type d)))) as He.
  { split; [apply Hd|]. cbn. unfold effective. case_if; [done|apply Hd]. }
  assert (has_check_status l = false -> effective l (type d) <> TL_WRITE_CONCURRENT_INSERT) as Hcs.
  { intros E. unfold effective. rewrite E. cbn. rewrite andb_true_r. case_if; [done|]. by apply type_eq_false in Heqb. }
  assert (forall l1 (d1 : THR_LOCK_DATA), with_type d1 (effective l1 (type d1)) =
    if type_eq (type d1) TL_WRITE_CONCURRENT_INSERT && negb (has_check_status l1)
    then with_type d1 thr_upgraded_concurrent_insert_lock else d1) as Heff.
  { intros l1 [a o c t]. unfold effective. cbn. by case_if. }
  unfold lock_for_write. rewrite <- Heff. destruct (type_eq (type d) TL_WRITE_DELAYED) eqn:Ed; t2p.
  - destruct (write l) as [|w ws] eqn:Ew.
    + destruct (read l) as [|r rs] eqn:Er.
      * by apply lock_first_write_inv.
      * cbn [snd]. apply wait_first_inv; try done; [apply Hd|by rewrite Ed|by rewrite Er|by rewrite Ed].
    + destruct (type_eq (type w) TL_WRITE_ONLY); cbn [snd]; (split; [|apply live_held; cbn; by rewrite Ew]).
      * by apply refuse_ok.
      * apply wait_write_ok; [done|apply Hd|by rewrite Ed].
  - destruct (write l) as [|w ws] eqn:Ew; [by apply lock_first_write_inv|].
    eapply lock_second_write_inv; try done; [|by apply Hs]. cbn. unfold effective. by case_if.
Qed.

(** What the caller of thr_lock ensures. *)
Definition may_lock (l : THR_LOCK) (a o : nat) (t : thr_lock_type) : Prop :=
  (exists d, d ∈ loose l /\ address d = a) /\
  (is_read t \/ (is_write t /\ (t <> TL_WRITE_DELAYED -> sorted_request l (mk_data a o false (effective l t))))).

Lemma thr_lock_inv check_status l a o t :
  inv l -> may_lock l a o t ->
  inv (snd (thr_lock check_status thr_upgraded_concurrent_insert_lock l a o t)).
Proof.
  intros [Hl Hn] [(d0 & Hd0 & <-) Ht]. pose proof (take_loose_room l d0 Hl Hd0) as Hroom.
  assert (no_lost max_write_lock_count (take_loose l (address d0))) as Hn0 by (destruct Hn; by split).
  unfold thr_lock. case_if.
  - apply lock_for_read_inv; try done. split; [done|]. destruct Ht as [?|[[? _] _]]; [done|].
    apply type_le_true in Heqb. cbn in Heqb. lia.
  - apply type_le_false in Heqb. destruct Ht as [Ht|[Hw Hs]]; [unfold is_read in Ht; cbn in *; lia|].
    by apply lock_for_write_inv.
Qed.

(** ** Delayed inserts *)

Lemma change_at_none a f q : a ∉ map address q -> change_at a f q = q.
Proof.
  intros H. unfold change_at. rewrite <- (map_id q) at 2. apply map_ext_in. intros d Hd. unfold is_at. case_if; [|done].
  exfalso. apply H. apply list_elem_of_fmap. exists d. split; [done|]. by apply list_elem_of_In.
Qed.

Lemma change_at_address a t q : map address (change_at a (fun d => with_type d t) q) = map address q.
Proof. unfold change_at. rewrite map_map. apply map_ext. intros d. by case_if. Qed.

Lemma change_at_Forall (P : THR_LOCK_DATA -> Prop) a f q :
  Forall P q -> (forall d, P d -> P (f d)) -> Forall P (change_at a f q).
Proof. intros H Hf. apply Forall_map. eapply Forall_impl; [exact H|]. intros d Hd. cbn. case_if; auto. Qed.

Lemma address_not_in l (q : list THR_LOCK_DATA) d :
  lock_ok l -> d ∈ all_data l -> (forall e, e ∈ q -> e ∈ all_data l) -> d ∉ q -> address d ∉ map address q.
Proof.
  intros Hl Hd Hq Hn (e & He & Hin)%list_elem_of_fmap. apply Hn.
  by rewrite (same_address (all_data l) d e); [|apply Hl|..|apply Hq|].
Qed.

Lemma held_not_waiting l d : lock_ok l -> d ∈ write l ->
  (address d ∉ map address (read l)) /\ (address d ∉ map address (read_wait l)) /\ (address d ∉ map address (write_wait l)).
Proof.
  intros Hl Hd. pose proof (in_write _ _ Hl Hd) as [Hc [Hw _]]. assert (d ∈ all_data l) by (apply in_all; tauto).
  split_and!; apply (address_not_in l); try done; try (intros e He; apply in_all; tauto).
  - intros [_ H2]%in_read; [|done]. unfold is_read in H2. lia.
  - intros [H2 _]%in_read_wait; [congruence|done].
  - intros [H2 _]%in_write_wait; [congruence|done].
Qed.

Lemma waiting_not_held l d : lock_ok l -> d ∈ write_wait l ->
  (address d ∉ map address (read l)) /\ (address d ∉ map address (read_wait l)) /\ (address d ∉ map address (write l)).
Proof.
  intros Hl Hd. pose proof (in_write_wait _ _ Hl Hd) as [Hc [Hw _]]. assert (d ∈ all_data l) by (apply in_all; tauto).
  split_and!; apply (address_not_in l); try done; try (intros e He; apply in_all; tauto).
  - intros [H2 _]%in_read; [congruence|done].
  - intros [_ H2]%in_read_wait; [|done]. unfold is_read in H2. lia.
  - intros [H2 _]%in_write; [congruence|done].
Qed.

Lemma change_address l a t :
  map address (all_data (change l a (fun d => with_type d t))) = map address (all_data l).
Proof. unfold all_data. cbn. rewrite !map_app, !change_at_address. done. Qed.

(** The waiting request of a delayed insert becomes one of another type. *)
Lemma change_waiting_inv l d t : inv l -> d ∈ write_wait l -> is_write t -> is_concurrent t = false ->
  inv (change l (address d) (fun d => with_type d t)).
Proof.
  intros [Hl Hn] Hd Ht Hc. destruct (waiting_not_held l d Hl Hd) as (N1 & N2 & N3).
  pose proof (change_address l (address d) t) as Hp. set (l' := change _ _ _) in *.
  assert (read l' = read l /\ read_wait l' = read_wait l /\ write l' = write l) as (E1 & E2 & E3).
  { subst l'. cbn. by rewrite !change_at_none. }
  assert (write_wait l' = change_at (address d) (fun d => with_type d t) (write_wait l)) as E4 by done.
  split.
  - destruct Hl. split; rewrite ?Hp, ?E1, ?E2, ?E3, ?E4; try done.
    + apply change_at_Forall; [done|]. by intros x [? _].
    + intros Hcs. apply change_at_Forall; [auto|]. intros x _. cbn. apply is_concurrent_false in Hc. tauto.
  - destruct Hn as [N4 N5 N6]. split; rewrite ?E1, ?E2, ?E3, ?E4.
    + intros Ew Er. destruct (N4 Ew Er) as [_ E]. rewrite E in Hd. by apply not_elem_of_nil in Hd.
    + intros Ew E. apply map_eq_nil in E. rewrite E in Hd. by apply not_elem_of_nil in Hd.
    + intros Hm Ew x ww Hx Hxc. destruct (write_wait l) as [|y q] eqn:E; [done|]. cbn in Hx. injection Hx as <- _.
      destruct (is_at (address d) y); [cbn in Hxc; congruence|]. exact (N6 Hm Ew y q eq_refl Hxc).
Qed.

(** The held lock of a delayed insert becomes stronger, when there are no
    readers. *)
Lemma change_held_inv l d t : lock_ok l -> d ∈ write l -> type d = TL_WRITE_DELAYED -> read l = [] -> is_write t ->
  inv (change l (address d) (fun d => with_type d t)).
Proof.
  intros Hl Hd Ht Er Hw. destruct (held_not_waiting l d Hl Hd) as (N1 & N2 & N3).
  pose proof (change_address l (address d) t) as Hp. set (l' := change _ _ _) in *.
  assert (read l' = read l /\ read_wait l' = read_wait l /\ write_wait l' = write_wait l) as (E1 & E2 & E3).
  { subst l'. cbn. by rewrite !change_at_none. }
  assert (write l' = [with_type d t]) as E4.
  { subst l'. cbn. rewrite (ok_delayed _ Hl d Hd Ht). unfold change_at. cbn. unfold is_at. by rewrite Nat.eqb_refl. }
  pose proof (in_write _ _ Hl Hd) as [Hcd _].
  split; [|apply live_held; by rewrite E4]. destruct Hl. split; rewrite ?Hp, ?E1, ?E2, ?E3, ?E4; try done.
  - by constructor.
  - intros w1 w2 ->%list_elem_of_singleton ->%list_elem_of_singleton. by left.
  - rewrite Er. by intros w r _ ?%not_elem_of_nil.
  - by intros w ->%list_elem_of_singleton.
  - repeat constructor.
Qed.

(** The only write lock goes to the head of the waiting writers. *)
Lemma step_back_ok l d t : lock_ok l -> d ∈ write l -> write l = [d] -> is_write t -> is_concurrent t = false ->
  let d' := mk_data (address d) (owner d) true t in
  lock_ok (set_queues (unlink l (address d)) (read_wait l) (read l) (d' :: write_wait l) []).
Proof.
  intros Hl Hd Ew Ht Hc d'. set (l' := set_queues _ _ _ _ _).
  assert (map address (all_data l') ≡ₚ map address (all_data l)) as Hp.
  { subst l'. unfold all_data. cbn. rewrite Ew, !map_app. cbn. rewrite !map_app. solve_Permutation. }
  destruct Hl as [H1 H2 H3 H4 H5 H6 H7 Hwc H8 H9 H10 H11 H12].
  split; rewrite ?Hp; try done; cbn [l' set_queues unlink read write write_wait has_check_status].
  - by constructor.
  - by intros w1 w2 ?%not_elem_of_nil.
  - by intros w r ?%not_elem_of_nil.
  - by intros w ?%not_elem_of_nil.
  - intros Hcs. constructor; [|by apply H11]. cbn. apply is_concurrent_false in Hc. tauto.
  - constructor.
Qed.

Lemma unlink_held l d : lock_ok l -> write l = [d] ->
  unlink l (address d) = set_queues l (read_wait l) (read l) (write_wait l) [].
Proof.
  intros Hl Ew. destruct (held_not_waiting l d Hl) as (N1 & N2 & N3); [rewrite Ew; left|].
  unfold unlink. rewrite !remove_at_none by done. f_equal. rewrite Ew. unfold remove_at. cbn. unfold is_at. by rewrite Nat.eqb_refl.
Qed.

Lemma thr_upgrade_write_delay_lock_inv l d t :
  inv l -> d ∈ all_data l ->
  type d = TL_UNLOCK \/ num TL_WRITE_LOW_PRIORITY <= num (type d) \/
    (type d = TL_WRITE_DELAYED /\ (d ∈ write l \/ d ∈ write_wait l)) ->
  t = TL_WRITE \/ t = TL_WRITE_LOW_PRIORITY ->
  exists r l', thr_upgrade_write_delay_lock l (address d) t = Some (r, l') /\ inv l'.
Proof.
  intros Hi Hd Hty Ht. pose proof Hi as [Hl Hn]. unfold thr_upgrade_write_delay_lock. rewrite find_data_in by done. obind.
  destruct (orb _ _) eqn:E0; [by eexists _, _|]. t2p.
  destruct Hty as [?|[?|[Hdl Hin]]]; [done|lia|].
  assert (is_write t /\ is_concurrent t = false) as [Htw Htc] by (destruct Ht as [-> | ->]; done).
  destruct (cond d) eqn:Ec; cbn [negb].
  - eexists _, _. split; [done|]. destruct Hin as [Hin|Hin]; [apply in_write in Hin as [? _]; [congruence|done]|].
    apply emit_inv. by apply change_waiting_inv.
  - destruct Hin as [Hin|Hin]; [|apply in_write_wait in Hin as [? _]; [congruence|done]].
    pose proof (ok_delayed _ Hl d Hin Hdl) as Ew. destruct (read l) as [|r rs] eqn:Er; eexists _, _; (split; [done|]).
    + apply emit_inv. by apply change_held_inv.
    + rewrite unlink_held by done. apply emit_inv. split.
      * pose proof (step_back_ok l d t Hl Hin Ew Htw Htc) as Hb. rewrite unlink_held in Hb by done. exact Hb.
      * split; cbn; [by rewrite Er|done|]. intros _ _ x ww [= <- _]. cbn. by rewrite Htc.
Qed.

Lemma thr_reschedule_write_lock_inv l d :
  inv l -> write l = [d] -> exists r l', thr_reschedule_write_lock l (address d) = Some (r, l') /\ inv l'.
Proof.
  intros [Hl Hn] Ew. unfold thr_reschedule_write_lock. destruct (read_wait l) as [|x q] eqn:Erw; [by eexists _, _|].
  assert (d ∈ write l) as Hd by (rewrite Ew; left).
  rewrite find_data_in by (done || (apply in_all; tauto)). obind. eexists _, _. split; [done|]. rewrite unlink_held by done.
  set (l1 := set_queues _ _ _ _ _).
  assert (lock_ok l1) as Hl1.
  { pose proof (step_back_ok l d TL_WRITE_DELAYED Hl Hd Ew) as H. rewrite unlink_held in H by done.
    destruct H; [done|done|]. by split. }
  assert (free_all_read_locks l1 false = free_waiting l1 false) as ->
    by (unfold free_waiting; subst l1; cbn; by rewrite Erw).
  split; [apply free_waiting_ok; [done|constructor]|]. apply free_waiting_live; [done| |].
  - intros _. right. subst l1. cbn. by rewrite Erw.
  - intros y ww _ [= <- _]. done.
Qed.

Lemma thr_lock_data_init_inv l a :
  inv l -> a ∉ map address (all_data l) -> Z.of_nat (length (map address (all_data l))) + 1 < 2 ^ 32 ->
  inv (thr_lock_data_init l a).
Proof.
  intros [Hl Hn] Ha Hs. destruct (room_perm l (thr_lock_data_init l a) a) as [H1 H2]; [by split| |].
  { unfold all_data. cbn. rewrite !map_app. cbn. solve_Permutation. }
  split; [destruct Hl; by split|destruct Hn; by split].
Qed.

(** ** The states of a lock *)

(** A step of the server on one lock; the functions of the engine may answer
    differently every time.  The hypotheses are what the callers ensure.
    thr_abort_locks with upgrade_lock set and thr_downgrade_write_lock, which the
    server does not call, are no steps. *)
Inductive lock_step (l : THR_LOCK) : THR_LOCK -> Prop :=
  | step_data_init a :
      a ∉ map address (all_data l) -> Z.of_nat (length (map address (all_data l))) + 1 < 2 ^ 32 ->
      lock_step l (thr_lock_data_init l a)
  | step_lock check_status a o t r l' :
      may_lock l a o t -> thr_lock check_status thr_upgraded_concurrent_insert_lock l a o t = (r, l') ->
      lock_step l l'
  | step_leave check_status d timed_out r l' :
      d ∈ all_data l -> (cond d = true -> d ∈ read_wait l \/ d ∈ write_wait l) ->
      wait_leave max_write_lock_count check_status l (address d) timed_out = Some (r, l') -> lock_step l l'
  | step_unlock check_status d l' :
      d ∈ read l \/ d ∈ write l \/ (d ∈ write_wait l /\ type d = TL_WRITE_DELAYED) ->
      thr_unlock max_write_lock_count check_status l (address d) = Some l' -> lock_step l l'
  | step_abort : lock_step l (thr_abort_locks l false)
  | step_abort_thread check_status thread_id id found l' :
      thr_abort_locks_for_thread max_write_lock_count check_status thread_id l id = (found, l') -> lock_step l l'
  | step_upgrade d t r l' :
      d ∈ all_data l ->
      type d = TL_UNLOCK \/ num TL_WRITE_LOW_PRIORITY <= num (type d) \/
        (type d = TL_WRITE_DELAYED /\ (d ∈ write l \/ d ∈ write_wait l)) ->
      t = TL_WRITE \/ t = TL_WRITE_LOW_PRIORITY ->
      thr_upgrade_write_delay_lock l (address d) t = Some (r, l') -> lock_step l l'
  | step_reschedule d r l' :
      write l = [d] -> thr_reschedule_write_lock l (address d) = Some (r, l') -> lock_step l l'.

Inductive lock_reachable : THR_LOCK -> Prop :=
  | reach_init has_check : lock_reachable (thr_lock_init has_check)
  | reach_step l l' : lock_reachable l -> lock_step l l' -> lock_reachable l'.

Lemma lock_step_inv l l' : inv l -> lock_step l l' -> inv l'.
Proof.
  intros Hi Hs. pose proof (inv_ok _ _ Hi) as Hl. destruct Hs.
  - by apply thr_lock_data_init_inv.
  - change l' with (snd (r, l')). rewrite <- H0. by apply thr_lock_inv.
  - destruct (wait_leave_inv check_status l d timed_out Hi H H0) as (r' & l1 & E & ?). congruence.
  - destruct (thr_unlock_inv check_status l d Hl H) as (l1 & E & ?). congruence.
  - by apply thr_abort_locks_inv.
  - change l' with (snd (found, l')). rewrite <- H. by apply thr_abort_locks_for_thread_inv.
  - destruct (thr_upgrade_write_delay_lock_inv l d t Hi H H0 H1) as (r' & l1 & E & ?). congruence.
  - destruct (thr_reschedule_write_lock_inv l d Hi H) as (r' & l1 & E & ?). congruence.
Qed.

Lemma reachable_inv l : lock_reachable l -> inv l.
Proof.
  induction 1 as [c|l l' _ IH Hs]; [|by apply (lock_step_inv l)].
  split; [|by split]. split; cbn; try first [done | intros; apply Forall_nil_2 | apply NoDup_nil_2 | apply SSorted_nil];
    intros; by match goal with H : _ ∈ [] |- _ => apply not_elem_of_nil in H end.
Qed.

(** C2.  In every state that the calls of thr_lock.c reach, the locks held by
    different owners are compatible: a writer next to another owner's read is a
    shared, concurrent or delayed one, and not a concurrent insert next to a read
    that excludes inserts; writers of different owners all share.  An instance is
    in one queue, the counter of the reads that exclude inserts is right, and no
    request waits for a lock that nobody holds. *)
Theorem thr_lock_exclusion l :
  lock_reachable l ->
  (forall w r, w ∈ write l -> r ∈ read l -> owner w <> owner r ->
     num (type w) <= num TL_WRITE_DELAYED /\ (type r = TL_READ_NO_INSERT -> type w <> TL_WRITE_CONCURRENT_INSERT)) /\
  (forall w1 w2, w1 ∈ write l -> w2 ∈ write l -> owner w1 <> owner w2 ->
     type w1 = TL_WRITE_ALLOW_WRITE /\ type w2 = TL_WRITE_ALLOW_WRITE) /\
  NoDup (map address (all_data l)) /\ read_no_write_count l = Z.of_nat (count_no_insert (read l)) /\
  (write l = [] -> read l = [] -> read_wait l = [] /\ write_wait l = []) /\
  (write l = [] -> write_wait l = [] -> read_wait l = []).
Proof.
  intros Hr. destruct (reachable_inv l Hr) as [Hl Hn]. split_and!; try apply Hl; try apply Hn.
  - intros w r Hw Hrd Ho. destruct (ok_compatible _ Hl w r Hw Hrd) as [?|[Hle Hc]]; [done|]. split; [done|].
    intros Ht. destruct Hc as [Hc|?]; [|done]. rewrite Ht in Hc. cbn in Hc. lia.
  - intros w1 w2 H1 H2 Ho. by destruct (ok_writers _ Hl w1 w2 H1 H2).
Qed.
End Calls.

(** ** Examples

    States that are reached with the default settings of the server. *)

Definition default_max : Z := 2 ^ 64 - 1.
Definition no_check (a : nat) : bool := false.

(** A lock without the functions of an engine and with three instances. *)
Definition ex_lock : THR_LOCK :=
  thr_lock_data_init (thr_lock_data_init (thr_lock_data_init (thr_lock_init false) 1) 2) 3.
Definition ex_request (l : THR_LOCK) (a o : nat) (t : thr_lock_type) : THR_LOCK :=
  snd (thr_lock no_check TL_WRITE l a o t).
Definition ex_after (l : option (enum_thr_lock_result * THR_LOCK)) : THR_LOCK :=
  match l with Some (_, l) => l | None => ex_lock end.

(** Owner 1 writes and lets others write, owner 2 wants to write alone and gives
    up, while owner 3, who would write next to owner 1, came later. *)
Definition ex_allow : THR_LOCK :=
  ex_request (ex_request (ex_request ex_lock 1 1 TL_WRITE_ALLOW_WRITE) 2 2 TL_WRITE) 3 3 TL_WRITE_ALLOW_WRITE.
Definition ex_gave_up : THR_LOCK := ex_after (wait_leave default_max no_check ex_allow 2 true).

(** Owner 1 has two locks and releases the stronger one; owner 2 could read. *)
Definition ex_two : THR_LOCK :=
  ex_request (ex_request (ex_request ex_lock 1 1 TL_WRITE) 2 1 TL_WRITE_ALLOW_WRITE) 3 2 TL_READ.
Definition ex_released : THR_LOCK :=
  match thr_unlock default_max no_check ex_two 1 with Some l => l | None => ex_lock end.

(** Owner 1 lets others write, owner 2 reads and excludes inserts. *)
Definition ex_shared : THR_LOCK :=
  ex_request (ex_request ex_lock 1 1 TL_WRITE_ALLOW_WRITE) 2 2 TL_READ_NO_INSERT.

Lemma ex_lock_reachable : lock_reachable default_max TL_WRITE ex_lock.
Proof.
  repeat (eapply reach_step; [|apply step_data_init; [apply (bool_decide_unpack _); reflexivity|reflexivity]]). apply reach_init.
Qed.

Lemma ex_request_reachable l a o t :
  lock_reachable default_max TL_WRITE l -> existsb (is_at a) (loose l) = true ->
  is_read t \/ (is_write t /\ forallb (fun w => negb (owner w =? o)%nat || ((rank (effective TL_WRITE l t) <=? rank (type w)) &&
    negb (type_eq (type w) TL_WRITE_DELAYED))) (write l) = true) ->
  lock_reachable default_max TL_WRITE (ex_request l a o t).
Proof.
  intros Hr Ha Ht. unfold ex_request. destruct (thr_lock _ _ _ _ _ _) as [r l'] eqn:E.
  eapply reach_step; [exact Hr|]. apply (step_lock _ _ l no_check a o t r l'); [|exact E]. split.
  - apply existsb_exists in Ha as (d & Hd & Hat). exists d. unfold is_at in Hat. b2p. split; [by apply list_elem_of_In|done].
  - destruct Ht as [Ht|[Ht Hf]]; [by left|right]. split; [done|]. intros _ w Hw Ho. cbn in Ho.
    rewrite forallb_forall in Hf. apply list_elem_of_In in Hw. specialize (Hf w Hw). rewrite Ho, Nat.eqb_refl in Hf.
    cbn [negb orb] in Hf. t2p. by split.
Qed.

Ltac ex_step := apply ex_request_reachable; [|reflexivity|first [left; done | right; done]].

Lemma ex_gave_up_reachable : lock_reachable default_max TL_WRITE ex_gave_up.
Proof.
  apply (reach_step _ _ ex_allow); [do 3 ex_step; apply ex_lock_reachable|].
  apply (step_leave _ _ ex_allow no_check (mk_data 2 2 true TL_WRITE) true THR_LOCK_WAIT_TIMEOUT); [| |reflexivity].
  - apply (bool_decide_unpack _). reflexivity.
  - intros _. right. left.
Qed.

Lemma ex_released_reachable : lock_reachable default_max TL_WRITE ex_released.
Proof.
  apply (reach_step _ _ ex_two); [do 3 ex_step; apply ex_lock_reachable|].
  apply (step_unlock _ _ ex_two no_check (mk_data 1 1 false TL_WRITE)); [|reflexivity]. right. left. left.
Qed.

Lemma ex_shared_reachable : lock_reachable default_max TL_WRITE ex_shared.
Proof. do 2 ex_step. apply ex_lock_reachable. Qed.

Lemma thr_lock_exclusion_witness :
  read_no_write_count ex_shared = Z.of_nat (count_no_insert (read ex_shared)) /\ read_no_write_count ex_shared = 1.
Proof.
  split; [|reflexivity].
  apply (thr_lock_exclusion default_max TL_WRITE); [left; reflexivity|exact ex_shared_reachable].
Defined.
