(* ===== verification/ThrLockLive.v ===== *)
(** * Table locks: every request is granted

    How the queues change when waiters are woken ([evolves]), and the progress
    theorem: when the holders of a lock release it one after the other, every
    request that waits gets it. *)

From stdpp Require Import prelude list list_numbers sorting.
From Stdlib Require Import ZArith Lia ZifyNat.
From S2P Require Import Prelude ThrLock ThrLockInv ThrLockSafe.

Open Scope Z_scope.

Definition holders (l : THR_LOCK) : list THR_LOCK_DATA := read l ++ write l.
Definition waiters (l : THR_LOCK) : list THR_LOCK_DATA := read_wait l ++ write_wait l.
Definition queued (l : THR_LOCK) : list THR_LOCK_DATA := holders l ++ waiters l.

(** The same request; a concurrent insert may have become a write. *)
Definition same_request (e e' : THR_LOCK_DATA) : Prop :=
  address e' = address e /\ owner e' = owner e /\
  (type e' = type e \/ (type e = TL_WRITE_CONCURRENT_INSERT /\ type e' = TL_WRITE)).

(** Holders stay, waiters stay or become holders. *)
Record evolves (l l' : THR_LOCK) : Prop := {
  ev_perm : map address (queued l') ≡ₚ map address (queued l);
  ev_held e : e ∈ holders l -> e ∈ holders l';
  ev_wait e : e ∈ waiters l -> exists e', same_request e e' /\ (e' ∈ waiters l' \/ e' ∈ holders l');
  ev_loose : loose l' = loose l;
  ev_check : has_check_status l' = has_check_status l
}.

Lemma same_request_refl e : same_request e e.
Proof. split_and!; [done|done|by left]. Qed.

Lemma same_request_trans e1 e2 e3 : same_request e1 e2 -> same_request e2 e3 -> same_request e1 e3.
Proof.
  intros (A1 & A2 & A3) (B1 & B2 & B3). split_and!; [congruence|congruence|].
  destruct A3 as [E|[E1 E2]]; rewrite ?E, ?E2 in B3; [done|]. right. split; [done|].
  destruct B3 as [?|[? _]]; [done|congruence].
Qed.

#[export] Instance evolves_preorder : PreOrder evolves.
Proof.
  split.
  - intros l. split; try done. intros e He. exists e. split; [apply same_request_refl|by left].
  - intros l1 l2 l3 [P1 H1 W1 L1 C1] [P2 H2 W2 L2 C2]. split; [by rewrite P2|auto| |congruence|congruence].
    intros e He. destruct (W1 e He) as (e' & Hs & [Hw|Hh]).
    + destruct (W2 e' Hw) as (e2 & Hs2 & H). exists e2. split; [by apply (same_request_trans e e')|done].
    + exists e'. split; [done|]. right. auto.
Qed.

Section Evolve.
Context (max_write_lock_count : Z) (check_status : nat -> bool).

Lemma emit_evolves l e : evolves l (emit l e).
Proof. split; try done. intros d Hd. exists d. split; [apply same_request_refl|by left]. Qed.

Lemma set_counts_evolves l a b : evolves l (set_counts l a b).
Proof. split; try done. intros d Hd. exists d. split; [apply same_request_refl|by left]. Qed.

Lemma free_waiting_evolves l conc : evolves l (free_waiting l conc).
Proof.
  unfold free_waiting. destruct (read_wait l) eqn:E; [done|]. clear E.
  destruct (free_all_read_locks_fields l conc) as (_ & E1 & E2 & E3 & E4 & E5 & E6).
  split; unfold queued, holders, waiters; rewrite ?E1, ?E2, ?E3, ?E5, ?E6; try done.
  - rewrite !map_app, map_map. cbn [with_cond address].
    rewrite <- (filter_split_perm (stays conc) (read_wait l)) at 3. rewrite map_app. solve_Permutation.
  - intros e. rewrite !elem_of_app. tauto.
  - intros e [He|He]%elem_of_app.
    + destruct (stays conc e) eqn:Es.
      * exists e. split; [apply same_request_refl|]. left. apply elem_of_app. left.
        apply list_elem_of_In, filter_In. by rewrite <- list_elem_of_In.
      * exists (with_cond e false). split; [split_and!; [done|done|by left]|]. right. rewrite !elem_of_app. left. right.
        apply list_elem_of_fmap. exists e. split; [done|]. apply list_elem_of_In, filter_In. rewrite <- list_elem_of_In. by rewrite Es.
    + exists e. split; [apply same_request_refl|]. left. rewrite elem_of_app. tauto.
Qed.

(** Some of the waiting writers get the lock. *)
Lemma take_writers_evolves (f : THR_LOCK_DATA -> THR_LOCK_DATA) l taken ww' :
  write l = [] -> write_wait l = taken ++ ww' -> (forall d, same_request d (f d)) ->
  evolves l (set_queues l (read_wait l) (read l) ww' (map f taken)).
Proof.
  intros Ew Eww Hf. split; unfold queued, holders, waiters; cbn [set_queues read read_wait write write_wait]; try done.
  - rewrite Ew, Eww, !map_app, map_map. rewrite (map_ext (fun d => address (f d)) address) by (intros d; apply Hf).
    cbn. solve_Permutation.
  - intros e. rewrite Ew, app_nil_r, elem_of_app. tauto.
  - intros e. rewrite Eww, !elem_of_app. intros [He|[He|He]].
    + exists e. split; [apply same_request_refl|]. rewrite !elem_of_app. tauto.
    + exists (f e). split; [apply Hf|]. right. rewrite !elem_of_app. right. apply list_elem_of_fmap. by exists e.
    + exists e. split; [apply same_request_refl|]. rewrite !elem_of_app. tauto.
Qed.

Lemma given_same d : same_request d (given check_status d).
Proof. split_and!; [done|done|]. unfold given. cbn. case_if; [right|by left]. by t2p. Qed.

Lemma wake_idle_evolves l : write l = [] -> evolves l (wake_idle max_write_lock_count check_status l).
Proof.
  intros Ew. unfold wake_idle. destruct (write_wait l) as [|data ww0] eqn:Eww; [apply free_waiting_evolves|].
  case_if; [|apply free_waiting_evolves]. set (l1 := set_counts l _ _).
  transitivity l1; [apply set_counts_evolves|]. change (read_wait l1) with (read_wait l). case_if.
  - t2p. destruct (read_wait l) eqn:Er; [done|].
    assert (free_all_read_locks l1 false = free_waiting l1 false) as ->; [|apply free_waiting_evolves].
    unfold free_waiting. change (read_wait l1) with (read_wait l). by rewrite Er.
  - destruct (give_loop _ _ _ _) as [[[ww w] t] ev] eqn:E. change (write_wait l1) with (write_wait l) in E. rewrite Eww in E.
    destruct (give_loop_spec _ _ _ _ _ _ _ _ E) as (taken & Htk & _ & -> & _); [done|].
    change (write l1) with (write l). rewrite Ew. cbn [app]. set (l2 := emit _ _).
    transitivity l2; [|case_if; [done|apply free_waiting_evolves]].
    etransitivity; [|apply emit_evolves]. change (read_wait l) with (read_wait l1).
    apply take_writers_evolves; [done|by rewrite <- Htk, <- Eww|apply given_same].
Qed.

Lemma wake_readers_evolves l : write l = [] -> evolves l (wake_readers check_status l).
Proof.
  intros Ew. unfold wake_readers. destruct (write_wait l) as [|data ww0] eqn:Eww; [apply free_waiting_evolves|].
  case_if; [|done]. destruct (type_eq _ _ && _) eqn:Ec.
  - etransitivity; [|apply free_waiting_evolves]. apply andb_true_iff in Ec as [Ec _]. apply type_eq_true in Ec.
    split; unfold queued, holders, waiters; cbn [set_queues read read_wait write write_wait]; try done.
    + rewrite Eww, !map_app. done.
    + intros e. rewrite Eww, elem_of_app, elem_of_cons. intros [He|[->|He]].
      * exists e. split; [apply same_request_refl|]. rewrite !elem_of_app. tauto.
      * exists (with_type data TL_WRITE). split; [split_and!; [done|done|by right]|]. left. rewrite elem_of_app, elem_of_cons. tauto.
      * exists e. split; [apply same_request_refl|]. left. rewrite elem_of_app, elem_of_cons. tauto.
  - destruct (start_loop _ _ _) as [[ww w] ev] eqn:E.
    destruct (start_loop_spec _ _ _ _ _ _ E) as (taken & Htk & _ & -> & _); [done|]. rewrite Ew. cbn [app].
    etransitivity; [|apply free_waiting_evolves]. etransitivity; [|apply emit_evolves].
    apply (take_writers_evolves (fun d => with_cond d false)); [done|by rewrite <- Htk|].
    intros d. split_and!; [done|done|by left].
Qed.

Lemma wake_evolves l : evolves l (wake_up_waiters max_write_lock_count check_status l).
Proof.
  unfold wake_up_waiters. destruct (write l) eqn:Ew; [|done].
  destruct (read l); [by apply wake_idle_evolves|by apply wake_readers_evolves].
Qed.
End Evolve.

(** ** Releasing *)

Lemma queued_all l : all_data l ≡ₚ queued l ++ loose l.
Proof. unfold all_data, queued, holders, waiters. solve_Permutation. Qed.

Lemma NoDup_queued l : lock_ok l -> NoDup (map address (queued l)).
Proof. intros Hl. pose proof (ok_nodup _ Hl) as H. rewrite queued_all, map_app in H. by apply NoDup_app in H as (? & _). Qed.

Lemma holder_in l d : d ∈ holders l -> d ∈ read l \/ d ∈ write l.
Proof. unfold holders. by rewrite elem_of_app. Qed.

Lemma queued_unlink l a d : queued (put_loose (unlink l a) d) = remove_at a (queued l).
Proof. unfold queued, holders, waiters. cbn. by rewrite !remove_at_app. Qed.

(** The instance leaves the queues; the other requests stay or are granted. *)
Record leaves (a : nat) (l l' : THR_LOCK) : Prop := {
  lv_perm : map address (queued l) ≡ₚ a :: map address (queued l');
  lv_held e : e ∈ holders l -> address e <> a -> e ∈ holders l';
  lv_wait e : e ∈ waiters l -> address e <> a -> exists e', same_request e e' /\ (e' ∈ waiters l' \/ e' ∈ holders l');
  lv_loose : exists d, address d = a /\ loose l' = d :: remove_at a (loose l);
  lv_check : has_check_status l' = has_check_status l
}.

Lemma leave_leaves l d d' l1 : lock_ok l -> d ∈ queued l -> address d' = address d ->
  evolves (put_loose (unlink l (address d)) d') l1 -> leaves (address d) l l1.
Proof.
  intros Hl Hd Ha [P H W L Hc]. split.
  - rewrite P, queued_unlink. rewrite (remove_at_perm _ _ d (NoDup_queued l Hl) Hd eq_refl) at 1. done.
  - intros e He Hne. apply H. unfold holders in *. cbn. rewrite elem_of_app, !elem_of_remove_at. apply elem_of_app in He. tauto.
  - intros e He Hne. apply W. unfold waiters in *. cbn. rewrite elem_of_app, !elem_of_remove_at. apply elem_of_app in He. tauto.
  - exists d'. split; [done|]. rewrite L. cbn. by rewrite Ha.
  - by rewrite Hc.
Qed.

Section Release.
Context (max_write_lock_count : Z) (thr_upgraded_concurrent_insert_lock : thr_lock_type).
Abbreviation inv := (lock_inv max_write_lock_count).

Lemma unlock_leaves check_status l d :
  lock_ok l -> d ∈ holders l ->
  exists l', thr_unlock max_write_lock_count check_status l (address d) = Some l' /\ inv l' /\ leaves (address d) l l'.
Proof.
  intros Hl Hd. destruct (thr_unlock_inv max_write_lock_count check_status l d Hl) as (l' & E & Hi).
  { apply holder_in in Hd. tauto. }
  exists l'. split_and!; [done|done|]. unfold thr_unlock in E.
  rewrite find_data_in in E by (done || (rewrite queued_all; unfold queued; rewrite !elem_of_app; tauto)).
  cbn [mbind option_bind] in E. injection E as <-. eapply leave_leaves; [done|unfold queued; rewrite elem_of_app; tauto| |].
  - by instantiate (1 := with_type d TL_UNLOCK).
  - etransitivity; [|apply wake_evolves]. split; try done. intros e He. exists e. split; [apply same_request_refl|by left].
Qed.

(** The holders release the lock one after the other, in any order; the engine
    answers as it likes. *)
Context (check_status : THR_LOCK -> nat -> bool) (pick : THR_LOCK -> THR_LOCK_DATA).
Context (Hpick : forall l, holders l <> [] -> pick l ∈ holders l).

Definition release (l : THR_LOCK) : option THR_LOCK :=
  match holders l with
  | [] => Some l
  | _ => thr_unlock max_write_lock_count (check_status l) l (address (pick l))
  end.

Fixpoint releases (n : nat) (l : THR_LOCK) : option THR_LOCK :=
  match n with
  | O => Some l
  | S n => l' ← release l; releases n l'
  end.

(** As long as a request waits there is a holder. *)
Lemma waiter_holder l e : inv l -> e ∈ waiters l -> holders l <> [].
Proof.
  intros [_ Hn] He H. unfold holders in H. apply app_eq_nil in H as [Hr Hw].
  destruct (nl_free _ _ Hn Hw Hr) as [E1 E2]. unfold waiters in He. rewrite E1, E2 in He. by apply not_elem_of_nil in He.
Qed.

Lemma release_spec l : inv l -> holders l <> [] ->
  exists l', release l = Some l' /\ inv l' /\ leaves (address (pick l)) l l'.
Proof.
  intros [Hl _] Hh. destruct (unlock_leaves (check_status l) l (pick l) Hl (Hpick l Hh)) as (l' & E & Hi & Hv).
  exists l'. split_and!; [|done|done]. unfold release. by destruct (holders l).
Qed.

Lemma holder_waiter_address l d e : lock_ok l -> d ∈ holders l -> e ∈ waiters l -> address e <> address d.
Proof.
  intros Hl Hd He Ha. pose proof (NoDup_queued l Hl) as H. unfold queued in H. rewrite map_app in H.
  apply NoDup_app in H as (_ & H & _). apply (H (address d)); apply list_elem_of_fmap; [by exists d|by exists e].
Qed.

Lemma waiter_granted_aux n : forall l, inv l -> length (queued l) = n ->
  (forall e, e ∈ waiters l -> exists k l' e', (k <= n)%nat /\ releases k l = Some l' /\ same_request e e' /\ e' ∈ holders l') /\
  exists l', releases n l = Some l' /\ queued l' = [].
Proof.
  induction n as [|n IH]; intros l Hi Hlen.
  { destruct (queued l) eqn:E; [|done]. split; [|by exists l]. intros e He.
    assert (e ∈ queued l) as H by (unfold queued; rewrite elem_of_app; tauto). rewrite E in H. by apply not_elem_of_nil in H. }
  assert (holders l <> []) as Hh.
  { intros E. unfold queued in Hlen. rewrite E in Hlen. destruct (waiters l) as [|e q] eqn:Ew; [done|].
    apply (waiter_holder l e Hi); [rewrite Ew; left|done]. }
  destruct (release_spec l Hi Hh) as (l1 & E & Hi1 & Hv).
  assert (length (queued l1) = n) as Hn1.
  { pose proof (Permutation_length (lv_perm _ _ _ Hv)) as Hp. cbn in Hp. rewrite !length_map in Hp. lia. }
  destruct (IH l1 Hi1 Hn1) as [IH1 (l2 & E2 & Hq)]. split.
  - intros e He. destruct (lv_wait _ _ _ Hv e He) as (e1 & Hs & [Hw|Hh1]).
    + apply holder_waiter_address with l; [apply Hi|by apply Hpick|done].
    + destruct (IH1 e1 Hw) as (k & l' & e' & Hk & Hr & Hs' & Hin). exists (S k), l', e'. cbn [releases]. rewrite E. obind.
      split_and!; [lia|done|by apply (same_request_trans e e1)|done].
    + exists 1%nat, l1, e1. cbn [releases]. rewrite E. obind. split_and!; [lia|done|done|done].
  - exists l2. cbn [releases]. rewrite E. by obind.
Qed.

Context (Hupgraded : thr_upgraded_concurrent_insert_lock = TL_WRITE \/
                     thr_upgraded_concurrent_insert_lock = TL_WRITE_LOW_PRIORITY).

(** C3.  No request is forgotten: in a state that the calls reach, when no new
    requests come and the holders release the lock one after the other, in any
    order and whatever the engine answers, every request that waits is granted
    after at most as many releases as there are instances in the queues, and
    then all queues are empty. *)
Theorem waiter_granted l :
  lock_reachable max_write_lock_count thr_upgraded_concurrent_insert_lock l ->
  (forall e, e ∈ waiters l -> exists k l' e', (k <= length (queued l))%nat /\ releases k l = Some l' /\
     same_request e e' /\ e' ∈ holders l') /\
  exists l', releases (length (queued l)) l = Some l' /\ queued l' = [].
Proof.
  intros Hr. apply waiter_granted_aux; [|done]. by apply (reachable_inv _ thr_upgraded_concurrent_insert_lock).
Qed.
End Release.

(** The first holder of a lock releases it. *)
Definition ex_pick (l : THR_LOCK) : THR_LOCK_DATA :=
  match holders l with d :: _ => d | [] => mk_data 0 0 false TL_UNLOCK end.

Lemma waiter_granted_witness :
  exists k l' e', (k <= 2)%nat /\ releases default_max (fun _ => no_check) ex_pick k ex_gave_up = Some l' /\
    same_request (mk_data 3 3 true TL_WRITE_ALLOW_WRITE) e' /\ e' ∈ holders l'.
Proof.
  destruct (waiter_granted default_max TL_WRITE (fun _ => no_check) ex_pick) with (l := ex_gave_up) as [H _].
  - intros l Hl. unfold ex_pick. destruct (holders l); [contradiction|left].
  - left. reflexivity.
  - exact ex_gave_up_reachable.
  - apply (H (mk_data 3 3 true TL_WRITE_ALLOW_WRITE)). left.
Defined.
