(* ===== verification/ThrLockCheck.v ===== *)
(** * Table locks: the consistency checks of mysys/thr_lock.c

    With EXTRA_DEBUG the code checks its queues after every step and prints a
    warning when something is wrong.  The warnings about the structure never
    come, as the invariant shows; three of the others can come in states that
    the code reaches. *)

From stdpp Require Import prelude list list_numbers sorting.
From Stdlib Require Import ZArith Lia ZifyNat.
From S2P Require Import Prelude ThrLock ThrLockInv ThrLockSafe.

Open Scope Z_scope.

(** ** check_lock and check_locks *)

Inductive lock_warning : Type :=
  | DifferentThreads
  | CondNotReset
  | TooManyLocks
  | WrongNoWriteCount
  | NothingInUse
  | ReadsWaitForNothing
  | WriteWaitsForNoExclusiveRead
  | AllowWriteWaitsForAllowWrite
  | WriteAndReadLocked
  | ReadWaitsForSharedWrite.

#[export] Instance lock_warning_eq_dec : EqDecision lock_warning.
Proof. solve_decision. Defined.

Definition MAX_LOCKS : nat := 100.
Definition MAX_FOUND_ERRORS : Z := 10.

(** The links of a queue are right by construction; what is left of the loop. *)
Fixpoint check_lock_loop (data : list THR_LOCK_DATA) (count : nat) (last_lock_type : thr_lock_type)
    (first_owner : nat) (same_owner no_cond : bool) : option lock_warning :=
  match data with
  | [] => None
  | d :: data =>
    if (count <? MAX_LOCKS)%nat then
      let last_lock_type := if type_eq (type d) last_lock_type then last_lock_type else TL_IGNORE in
      if same_owner && negb (thr_lock_owner_equal (owner d) first_owner) &&
         negb (type_eq last_lock_type TL_WRITE_ALLOW_WRITE) then Some DifferentThreads
      else if no_cond && cond d then Some CondNotReset
      else check_lock_loop data (S count) last_lock_type first_owner same_owner no_cond
    else Some TooManyLocks
  end.

Definition check_lock (data : list THR_LOCK_DATA) (same_owner no_cond : bool) : list lock_warning :=
  match data with
  | [] => []
  | d :: _ =>
    match check_lock_loop data 0 (type d) (owner d) same_owner no_cond with
    | Some w => [w]
    | None => []
    end
  end.

Definition empty (q : list THR_LOCK_DATA) : bool := match q with [] => true | _ => false end.

(** The checks when no write lock is held. *)
Definition check_unlocked (l : THR_LOCK) (allow_no_locks : bool) : list lock_warning :=
  (if negb allow_no_locks && empty (read l) && (negb (empty (write_wait l)) || negb (empty (read_wait l)))
   then [NothingInUse] else []) ++
  match write_wait l with
  | [] => if negb allow_no_locks && negb (empty (read_wait l)) then [ReadsWaitForNothing] else []
  | d :: _ =>
    if negb allow_no_locks &&
       ((is_concurrent (type d) && (read_no_write_count l =? 0)) ||
        (type_eq (type d) TL_WRITE_DELAYED && empty (read l)))
    then [WriteWaitsForNoExclusiveRead] else []
  end.

(** The checks when [w] is the first write lock held. *)
Definition check_written (l : THR_LOCK) (w : THR_LOCK_DATA) (allow_no_locks : bool) : list lock_warning :=
  match write_wait l with
  | [] => []
  | d :: _ => if negb allow_no_locks && type_eq (type w) TL_WRITE_ALLOW_WRITE && type_eq (type d) TL_WRITE_ALLOW_WRITE
              then [AllowWriteWaitsForAllowWrite] else []
  end ++
  match read l with
  | [] => []
  | r :: _ =>
    if negb (thr_lock_owner_equal (owner w) (owner r)) &&
       ((negb (type_le (type w) TL_WRITE_DELAYED) && negb (type_eq (type w) TL_WRITE_ONLY)) ||
        (is_concurrent (type w) && negb (read_no_write_count l =? 0)))
    then [WriteAndReadLocked] else []
  end ++
  match read_wait l with
  | [] => []
  | r :: _ =>
    if negb allow_no_locks && type_le (type w) TL_WRITE_DELAYED && type_le (type r) TL_READ_HIGH_PRIORITY
    then [ReadWaitsForSharedWrite] else []
  end.

(** The number of errors found so far and the warnings printed. *)
Definition check_locks (l : THR_LOCK) (allow_no_locks : bool) (found_errors : Z) : Z * list lock_warning :=
  if found_errors <? MAX_FOUND_ERRORS then
    let links := check_lock (write l) true true ++ check_lock (write_wait l) false false ++
                 check_lock (read l) false true ++ check_lock (read_wait l) false false in
    let found_errors := match links with [] => found_errors | _ => found_errors + 1 end in
    if found_errors <? MAX_FOUND_ERRORS then
      let more := (if Z.of_nat (count_no_insert (read l)) =? read_no_write_count l then [] else [WrongNoWriteCount]) ++
                  match write l with
                  | [] => check_unlocked l allow_no_locks
                  | w :: _ => check_written l w allow_no_locks
                  end in
      (found_errors + Z.of_nat (length more), links ++ more)
    else (found_errors, links)
  else (found_errors, []).

(** ** What can be reported *)

(** Two types in the queue of the write locks: then one owner has them all. *)
Lemma mixed_owner (q : list THR_LOCK_DATA) d0 e x :
  (forall d1 d2, d1 ∈ q -> d2 ∈ q -> together d1 d2) -> d0 ∈ q -> e ∈ q -> x ∈ q ->
  type e <> type d0 -> owner x = owner d0.
Proof.
  intros H H0 He Hx Hne. destruct (H x d0 Hx H0) as [?|[E1 E2]]; [done|].
  destruct (H x e Hx He) as [E3|[_ E3]]; [|congruence]. destruct (H e d0 He H0) as [E4|[E4 _]]; congruence.
Qed.

Lemma check_lock_none data same_owner no_cond :
  (length data <= MAX_LOCKS)%nat -> (no_cond = true -> Forall (fun d => cond d = false) data) ->
  (same_owner = true -> forall d1 d2, d1 ∈ data -> d2 ∈ data -> together d1 d2) ->
  check_lock data same_owner no_cond = [].
Proof.
  intros Hlen Hc Ho. unfold check_lock. destruct data as [|d0 q]; [done|].
  assert (forall data c t, (c + length data <= MAX_LOCKS)%nat -> (forall d, d ∈ data -> d ∈ d0 :: q) ->
    (t = type d0 \/ exists e, e ∈ d0 :: q /\ type e <> type d0) ->
    check_lock_loop data c t (owner d0) same_owner no_cond = None) as Hloop; [|by rewrite Hloop; [..|left]].
  induction data as [|d data IH]; intros c t Hl Hin Ht; [done|]. cbn [check_lock_loop]. cbn [length] in Hl.
  assert (d ∈ d0 :: q) as Hd by (apply Hin; left).
  replace (c <? MAX_LOCKS)%nat with true by (symmetry; apply Nat.ltb_lt; lia).
  assert (t = type d0 /\ type d = type d0 \/ exists e, e ∈ d0 :: q /\ type e <> type d0) as Ht'.
  { destruct Ht as [->|?]; [|by right]. destruct (decide (type d = type d0)); [by left|]. right. by exists d. }
  destruct (same_owner && _ && _) eqn:E1.
  { exfalso. unfold thr_lock_owner_equal in E1. t2p.
    destruct Ht' as [[-> E]|(e & He & Hne)]; [|apply H1; by apply (mixed_owner (d0 :: q) d0 e d (Ho H)); [left|..]].
    rewrite (proj2 (type_eq_true _ _) E) in H0. destruct (Ho H d d0) as [?|[E2 E3]]; [done|left|done|congruence]. }
  destruct (no_cond && cond d) eqn:E2.
  { exfalso. t2p. specialize (Hc H). rewrite Forall_forall in Hc. rewrite (Hc d Hd) in H0. done. }
  apply IH; [lia|intros x Hx; apply Hin; by right|]. destruct Ht' as [[-> E]|?]; [|by right]. left.
  by rewrite (proj2 (type_eq_true _ _) E).
Qed.

(** The warnings that a state of the lock can give. *)
Definition known_warning (max_write_lock_count : Z) (w : lock_warning) : Prop :=
  w = AllowWriteWaitsForAllowWrite \/ w = WriteAndReadLocked \/ w = ReadWaitsForSharedWrite \/
  (w = WriteWaitsForNoExclusiveRead /\ max_write_lock_count < 2 ^ 64 - 1).

Lemma empty_true q : empty q = true <-> q = [].
Proof. by destruct q. Qed.

Lemma check_unlocked_known max l allow : lock_inv max l -> write l = [] ->
  Forall (known_warning max) (check_unlocked l allow).
Proof.
  intros [Hl [N1 N2 N3]] Ew. specialize (N1 Ew). specialize (N2 Ew). unfold check_unlocked. apply Forall_app. split.
  - destruct (_ && _ && _) eqn:E; [|constructor]. exfalso. t2p. apply empty_true in H1. destruct (N1 H1) as [E1 E2].
    by rewrite E1, E2 in H0.
  - destruct (write_wait l) as [|d ww] eqn:Eww.
    + rewrite N2 by done. by destruct allow.
    + destruct (_ && _) eqn:E; [|constructor]. constructor; [|constructor]. right. right. right. split; [done|].
      apply andb_true_iff in E as [_ E]. apply orb_true_iff in E as [E|E]; t2p.
      * apply Z.nle_gt. intros Hm. apply is_concurrent_true in H. rewrite (ok_count _ Hl) in H0.
        specialize (N3 Hm Ew d ww eq_refl H). lia.
      * apply empty_true in H0. by destruct (N1 H0).
Qed.

Lemma check_written_known max l w ws allow : lock_inv max l -> write l = w :: ws ->
  Forall (known_warning max) (check_written l w allow).
Proof.
  intros [Hl _] Ew. unfold check_written, known_warning.
  repeat (apply Forall_app; split).
  - destruct (write_wait l); [constructor|]. destruct (_ && _ && _); [|constructor]. apply Forall_singleton. by left.
  - destruct (read l); [constructor|]. destruct (_ && _); [|constructor]. apply Forall_singleton. by right; left.
  - destruct (read_wait l); [constructor|]. destruct (_ && _ && _); [|constructor]. apply Forall_singleton. by right; right; left.
Qed.

Section Claims.
Context (max_write_lock_count : Z) (thr_upgraded_concurrent_insert_lock : thr_lock_type).
Context (Hupgraded : thr_upgraded_concurrent_insert_lock = TL_WRITE \/
                     thr_upgraded_concurrent_insert_lock = TL_WRITE_LOW_PRIORITY).

Definition short (l : THR_LOCK) : Prop :=
  Forall (fun q => (length q <= MAX_LOCKS)%nat) [write l; write_wait l; read l; read_wait l].

(** The checks of EXTRA_DEBUG on a state that the calls can reach: with
    queues of at most 100 instances they report nothing about the structure (the
    owners of the write locks, the conditions, the counter, requests that wait
    for nothing).  What they can report are three kinds of requests that wait
    or hold next to compatible locks, and a fourth one when the limit on the
    writers in a row is in use. *)
Theorem check_locks_known l allow_no_locks found_errors :
  lock_reachable max_write_lock_count thr_upgraded_concurrent_insert_lock l -> short l ->
  Forall (known_warning max_write_lock_count) (snd (check_locks l allow_no_locks found_errors)).
Proof.
  intros Hr Hs. pose proof (reachable_inv _ _ Hupgraded _ Hr) as Hi. pose proof (inv_ok _ _ Hi) as Hl.
  unfold short in Hs. rewrite !Forall_cons in Hs. destruct Hs as (S1 & S2 & S3 & S4 & _).
  assert (forall P q, Forall (held P) q -> Forall (fun d => cond d = false) q) as Hc.
  { intros P q H. eapply Forall_impl; [exact H|]. by intros d [? _]. }
  unfold check_locks. rewrite !check_lock_none; try done; try (intros _; eapply Hc; apply Hl); [|intros _; apply Hl].
  cbn [app]. destruct (found_errors <? MAX_FOUND_ERRORS); [|constructor]. cbn [snd].
  rewrite (ok_count _ Hl), Z.eqb_refl. cbn [app].
  destruct (write l) as [|w ws] eqn:Ew; [by apply check_unlocked_known|by apply (check_written_known _ _ w ws)].
Qed.
End Claims.

(** ** Requests that wait for no reason *)

(** Waking up is not complete: there are states that the calls reach in which
    the first request waits although it is compatible with every lock that is
    held, a shared write after a request before it was given up and a read after
    the stronger lock of a writer was released.  The checks of EXTRA_DEBUG report
    both, and also the combination of a shared write with a read without inserts
    that thr_lock grants. *)
Theorem waiting_for_nothing :
  (exists l d, lock_reachable default_max TL_WRITE l /\ head (write_wait l) = Some d /\ read l = [] /\
     (forall w, w ∈ write l -> together w d) /\
     check_locks l false 0 = (1, [AllowWriteWaitsForAllowWrite])) /\
  (exists l d, lock_reachable default_max TL_WRITE l /\ head (read_wait l) = Some d /\ write_wait l = [] /\
     (forall w, w ∈ write l -> compatible w d) /\
     check_locks l false 0 = (1, [ReadWaitsForSharedWrite])) /\
  (exists l, lock_reachable default_max TL_WRITE l /\ write_wait l = [] /\ read_wait l = [] /\
     check_locks l false 0 = (1, [WriteAndReadLocked])).
Proof.
  split_and!.
  - exists ex_gave_up, (mk_data 3 3 true TL_WRITE_ALLOW_WRITE).
    split_and!; [apply ex_gave_up_reachable|done|done| |vm_compute; reflexivity].
    intros w Hw. apply list_elem_of_singleton in Hw as ->. by right.
  - exists ex_released, (mk_data 3 2 true TL_READ).
    split_and!; [apply ex_released_reachable|done|done| |vm_compute; reflexivity].
    intros w Hw. apply list_elem_of_singleton in Hw as ->. right. split; [done|by left].
  - exists ex_shared. split_and!; [apply ex_shared_reachable|done|done|vm_compute; reflexivity].
Qed.

Lemma check_locks_known_witness :
  Forall (known_warning default_max) (snd (check_locks ex_gave_up false 0)).
Proof.
  apply (check_locks_known default_max TL_WRITE).
  - left. reflexivity.
  - exact ex_gave_up_reachable.
  - unfold short. do 4 (apply Forall_cons; split; [apply Nat.leb_le; reflexivity|]). apply Forall_nil_2.
Defined.
