(* ===== verification/ThrMulti.v ===== *)
(** * Table locks: thr_multi_lock

    A statement locks all its tables with one call, which sorts the requests by
    the address of the lock, and by decreasing type within a lock.  The theorem
    of this file is that threads that take their locks in this way never wait
    for each other in a circle. *)

From stdpp Require Import prelude list list_numbers sorting.
From Stdlib Require Import ZArith Lia ZifyNat.
From S2P Require Import Prelude ThrLock ThrLockInv ThrLockSafe ThrLockLive.

Open Scope Z_scope.

(** ** Sorting *)

(** An element of the array of THR_LOCK_DATA pointers: the number of its lock,
    its address and the type it asks for. *)
Record request : Type := mk_request {
  r_lock : nat;
  r_data : nat;
  r_type : thr_lock_type
}.

Section Sort.
(** The address of a lock. *)
Context (lock_address : nat -> Z).

Definition lock_key (r : request) : Z := lock_address (r_lock r) - num (r_type r).
Definition LOCK_CMP (a b : request) : bool := lock_key a <? lock_key b.

(** The inner loop; [prev] is the index it writes to. *)
Fixpoint shift_loop (tmp : request) (data : list request) (prev : nat) : option (list request) :=
  match prev with
  | O => None
  | S p =>
    x ← data !! p;
    let data := <[S p := x]> data in
    match p with
    | O => Some (<[O := tmp]> data)
    | S p' =>
      y ← data !! p';
      if LOCK_CMP tmp y then shift_loop tmp data p else Some (<[p := tmp]> data)
    end
  end.

(** The outer loop, with [n] elements left. *)
Fixpoint sort_loop (n pos : nat) (data : list request) : option (list request) :=
  match n with
  | O => Some data
  | S n =>
    tmp ← data !! pos;
    before ← data !! (pos - 1)%nat;
    data ← (if LOCK_CMP tmp before then shift_loop tmp data pos else Some data);
    sort_loop n (S pos) data
  end.

Definition sort_locks (data : list request) : option (list request) :=
  sort_loop (length data - 1) 1 data.

Definition in_order (a b : request) : Prop := lock_key a <= lock_key b.

Lemma shift_loop_step tmp data p :
  shift_loop tmp data (S (S p)) =
    (x ← data !! S p;
     y ← <[S (S p) := x]> data !! p;
     if LOCK_CMP tmp y then shift_loop tmp (<[S (S p) := x]> data) (S p) else Some (<[S p := tmp]> (<[S (S p) := x]> data))).
Proof. done. Qed.

(** The element goes behind those that are not greater. *)
Lemma shift_loop_spec tmp pre : forall x y suf,
  exists pre1 pre2, pre = pre1 ++ pre2 /\
    shift_loop tmp (pre ++ x :: y :: suf) (S (length pre)) = Some (pre1 ++ tmp :: pre2 ++ x :: suf) /\
    Forall (fun z => LOCK_CMP tmp z = true) pre2 /\
    match last pre1 with Some z => LOCK_CMP tmp z = false | None => True end.
Proof.
  induction pre as [|z pre IH] using rev_ind; intros x y suf.
  { exists [], []. by split_and!. }
  rewrite <- app_assoc. cbn [app]. rewrite length_app. cbn [length].
  replace (length pre + 1)%nat with (S (length pre)) by lia. rewrite shift_loop_step.
  replace ((pre ++ z :: x :: y :: suf) !! S (length pre)) with (Some x)
    by (rewrite lookup_app_r by lia; by replace (S (length pre) - length pre)%nat with 1%nat by lia). obind.
  assert (<[S (S (length pre)) := x]> (pre ++ z :: x :: y :: suf) = pre ++ z :: x :: x :: suf) as ->.
  { rewrite insert_app_r_alt by lia. by replace (S (S (length pre)) - length pre)%nat with 2%nat by lia. }
  rewrite lookup_app_r, Nat.sub_diag by lia. cbn [lookup list_lookup]. obind.
  destruct (LOCK_CMP tmp z) eqn:E.
  - destruct (IH z x (x :: suf)) as (pre1 & pre2 & -> & Hs & Hf & Hl). rewrite Hs.
    exists pre1, (pre2 ++ [z]). split_and!; [by rewrite app_assoc|by rewrite <- app_assoc| |done].
    apply Forall_app. split; [done|]. by constructor.
  - exists (pre ++ [z]), []. split_and!; [by rewrite app_nil_r| |constructor|by rewrite last_snoc].
    f_equal. rewrite insert_app_r_alt by lia. replace (S (length pre) - length pre)%nat with 1%nat by lia.
    by rewrite <- app_assoc.
Qed.

Lemma in_order_trans a b c : in_order a b -> in_order b c -> in_order a c.
Proof. unfold in_order. lia. Qed.

Lemma sorted_insert pre1 pre2 tmp :
  StronglySorted in_order (pre1 ++ pre2) -> Forall (fun z => LOCK_CMP tmp z = true) pre2 ->
  match last pre1 with Some z => LOCK_CMP tmp z = false | None => True end ->
  StronglySorted in_order (pre1 ++ tmp :: pre2).
Proof.
  intros (H12 & H1 & H2)%StronglySorted_app Hf Hl. unfold LOCK_CMP in *.
  assert (Forall (in_order tmp) pre2) as Hlt.
  { eapply Forall_impl; [exact Hf|]. intros z Hz. cbn beta in Hz. unfold in_order. b2p. lia. }
  assert (forall z, z ∈ pre1 -> in_order z tmp) as Hle.
  { induction pre1 as [|z q _] using rev_ind; [by intros ? ?%not_elem_of_nil|]. rewrite last_snoc in Hl. b2p.
    apply StronglySorted_app in H1 as (H1 & _ & _). intros x [Hx|Hx]%elem_of_app.
    - apply in_order_trans with z; [apply H1; [done|left]|done].
    - by apply list_elem_of_singleton in Hx as ->. }
  apply StronglySorted_app_2; [|done|by apply StronglySorted_cons].
  intros x1 x2 Hx1 [->|Hx2]%elem_of_cons; [by apply Hle|by apply H12].
Qed.

Lemma sort_loop_spec rest : forall pre,
  pre <> [] -> StronglySorted in_order pre ->
  exists data, sort_loop (length rest) (length pre) (pre ++ rest) = Some data /\
    data ≡ₚ pre ++ rest /\ StronglySorted in_order data.
Proof.
  induction rest as [|y suf IH]; intros pre Hne Hs.
  { exists pre. rewrite app_nil_r. by split_and!. }
  destruct pre as [|x pre _] using rev_ind; [done|]. cbn [length sort_loop]. rewrite length_app. cbn [length].
  replace (length pre + 1 - 1)%nat with (length pre) by lia. rewrite <- app_assoc. cbn [app].
  assert ((pre ++ x :: y :: suf) !! (length pre + 1)%nat = Some y) as ->.
  { rewrite lookup_app_r by lia. by replace (length pre + 1 - length pre)%nat with 1%nat by lia. }
  obind. rewrite lookup_app_r, Nat.sub_diag by lia. cbn [lookup list_lookup]. obind.
  replace (length pre + 1)%nat with (S (length pre)) by lia. destruct (LOCK_CMP y x) eqn:E.
  - destruct (shift_loop_spec y pre x y suf) as (pre1 & pre2 & -> & -> & Hf & Hl). obind.
    destruct (IH (pre1 ++ y :: pre2 ++ [x])) as (data & Hd & Hp & Hsd); [by destruct pre1| |].
    { apply sorted_insert; [by rewrite app_assoc|apply Forall_app; split; [done|by constructor]|done]. }
    exists data. split_and!; [|rewrite Hp; solve_Permutation|done]. rewrite <- Hd. f_equal.
    + rewrite !length_app. cbn [length]. rewrite !length_app. cbn [length]. lia.
    + rewrite <- app_assoc. cbn. by rewrite <- app_assoc.
  - obind. destruct (IH (pre ++ [x; y])) as (data & Hd & Hp & Hsd); [by destruct pre| |].
    { change [x; y] with ([x] ++ [y]). rewrite app_assoc. apply StronglySorted_snoc; [done|].
      apply StronglySorted_app in Hs as (Hs & _ & _). unfold LOCK_CMP in E. b2p.
      intros z [Hz|Hz]%elem_of_app; [apply in_order_trans with x; [apply Hs; [done|left]|done]|].
      by apply list_elem_of_singleton in Hz as ->. }
    exists data. split_and!; [|rewrite Hp; solve_Permutation|done]. rewrite <- Hd. f_equal.
    + rewrite !length_app. cbn [length]. lia.
    + by rewrite <- app_assoc.
Qed.

Lemma sort_locks_spec data :
  exists data', sort_locks data = Some data' /\ data' ≡ₚ data /\ StronglySorted in_order data'.
Proof.
  unfold sort_locks. destruct data as [|x rest]; [by exists []; split_and!; [..|constructor]|].
  cbn [length]. rewrite Nat.sub_1_r. cbn [Nat.pred]. change 1%nat with (length [x]). change (x :: rest) with ([x] ++ rest).
  apply sort_loop_spec; [done|repeat constructor].
Qed.

(** Locks are separate objects, longer than the largest type. *)
Context (Hgap : forall i j, (i < j)%nat -> lock_address i + 16 <= lock_address j).

Lemma key_order a b :
  0 <= num (r_type a) -> 0 <= num (r_type b) -> in_order a b ->
  (r_lock a <= r_lock b)%nat /\ (r_lock a = r_lock b -> num (r_type b) <= num (r_type a)).
Proof.
  unfold in_order, lock_key. intros Ha Hb H. assert (forall t, num t <= 12) as Hn by (intros []; cbn; lia).
  pose proof (Hn (r_type a)). pose proof (Hn (r_type b)). split.
  - apply Nat.nlt_ge. intros Hlt. pose proof (Hgap _ _ Hlt). lia.
  - intros E. rewrite E in H. lia.
Qed.
End Sort.

(** ** The effect of one request *)

Section Request.
Context (max_write_lock_count : Z) (thr_upgraded_concurrent_insert_lock : thr_lock_type).
Context (Hupgraded : thr_upgraded_concurrent_insert_lock = TL_WRITE \/
                     thr_upgraded_concurrent_insert_lock = TL_WRITE_LOW_PRIORITY).
Abbreviation inv := (lock_inv max_write_lock_count).
Abbreviation eff := (effective thr_upgraded_concurrent_insert_lock).

(** What a lock of a thread is worth, compared with what was asked for. *)
Definition fits (l : THR_LOCK) (t : thr_lock_type) (e : THR_LOCK_DATA) : Prop :=
  (is_read t /\ type e = t) \/
  (is_write t /\ t <> TL_WRITE_DELAYED /\ is_write (type e) /\ type e <> TL_WRITE_DELAYED /\ rank (eff l t) <= rank (type e)).

Lemma fits_same l l' t e e' : has_check_status l' = has_check_status l -> same_request e e' -> fits l t e -> fits l' t e'.
Proof.
  intros Hc (_ & _ & Ht) [[Hr E]|(Hw & Hd & Hew & Hed & Hk)].
  - left. split; [done|]. destruct Ht as [?|[Hci _]]; [congruence|]. rewrite Hci in E. subst t. unfold is_read in Hr. cbn in Hr. lia.
  - right. unfold effective in *. rewrite Hc. destruct Ht as [->|[Hci ->]]; [done|]. rewrite Hci in Hk.
    split_and!; [done|done|done|done|]. etransitivity; [exact Hk|]. cbn. lia.
Qed.

(** The ways a call of thr_lock ends, for [d] as it is put into a queue. *)
Inductive outcome (l : THR_LOCK) (a o : nat) (t : thr_lock_type) : option enum_thr_lock_result -> THR_LOCK -> Prop :=
  | out_grant_read d : address d = a -> owner d = o -> fits l t d ->
      outcome l a o t (Some THR_LOCK_SUCCESS) (grant_read l d)
  | out_grant_write d c : address d = a -> owner d = o -> fits l t d ->
      outcome l a o t (Some THR_LOCK_SUCCESS) (grant_write l d c)
  | out_wait_read d : address d = a -> owner d = o -> fits l t d -> outcome l a o t None (wait_read l d)
  | out_wait_write d : address d = a -> owner d = o -> fits l t d -> outcome l a o t None (wait_write l d)
  | out_refuse d : address d = a -> outcome l a o t (Some THR_LOCK_ABORTED) (refuse l d).

Lemma thr_lock_outcome check_status l a o t r l' :
  is_read t \/ (is_write t /\ t <> TL_WRITE_DELAYED) ->
  thr_lock check_status thr_upgraded_concurrent_insert_lock l a o t = (r, l') -> outcome (take_loose l a) a o t r l'.
Proof.
  intros Ht E. pose proof (upgraded_write _ Hupgraded) as (U1 & U2 & U3). unfold thr_lock in E.
  set (l0 := take_loose l a) in *.
  assert (forall u, u = eff l0 t \/ (t = TL_WRITE_CONCURRENT_INSERT /\ u = thr_upgraded_concurrent_insert_lock) ->
    is_write t -> t <> TL_WRITE_DELAYED -> fits l0 t (mk_data a o false u)) as Hfit.
  { intros u Hu Hw Hd. right. split_and!; [done|done|..]; cbn [type]; unfold effective in *;
      destruct Hu as [->|[-> ->]]; repeat case_if; try done.
    destruct Hupgraded as [-> | ->]; cbn; lia. }
  destruct (type_le t TL_READ_NO_INSERT) eqn:Er.
  - destruct Ht as [Ht|[[Ht _] _]]; [|apply type_le_true in Er; cbn in Er; lia].
    assert (fits l0 t (mk_data a o false t)) by (left; done).
    unfold lock_for_read in E. destruct (write l0) as [|w ws].
    + destruct (orb _ _); injection E as <- <-; [by apply out_grant_read|by apply out_wait_read].
    + destruct (orb _ _); [injection E as <- <-; by apply out_grant_read|].
      destruct (type_eq _ _); injection E as <- <-; [by apply out_refuse|by apply out_wait_read].
  - destruct Ht as [Ht|[Hw Hd]]; [apply type_le_false in Er; unfold is_read in Ht; cbn in Er; lia|].
    unfold lock_for_write in E. cbn [type] in E. rewrite (proj2 (type_eq_false _ _) Hd) in E.
    set (d := if _ && _ then _ else _) in E.
    assert (d = mk_data a o false (eff l0 t)) as Ed by (subst d; unfold effective; by case_if). clearbody d. subst d.
    destruct (write l0) as [|w ws].
    + unfold lock_first_write in E. destruct (write_wait l0).
      * destruct (if type_eq _ _ then _ else _) as [d' c] eqn:Ed in E.
        assert (exists u, d' = mk_data a o false u /\ (u = eff l0 t \/
          (t = TL_WRITE_CONCURRENT_INSERT /\ u = thr_upgraded_concurrent_insert_lock))) as (u & -> & Hu).
        { cbn [type address] in Ed. destruct (type_eq (eff l0 t) _) eqn:E2; [|injection Ed as <- <-; eexists; split; [done|by left]].
          destruct (check_status a); injection Ed as <- <-; (eexists; split; [done|]); [|by left]. right. split; [|done].
          apply type_eq_true in E2. unfold effective in E2. destruct (_ && _) eqn:E3; [done|]. done. }
        destruct (orb _ _); injection E as <- <-; [apply out_grant_write|apply out_wait_write]; auto.
      * injection E as <- <-. apply out_wait_write; auto.
    + unfold lock_second_write in E. destruct (_ && negb _); [injection E as <- <-; by apply out_refuse|].
      destruct (orb _ _); injection E as <- <-; [apply out_grant_write|apply out_wait_write]; auto.
Qed.

(** The queues before and after a request. *)
Record adds (l : THR_LOCK) (a o : nat) (t : thr_lock_type) (r : option enum_thr_lock_result) (l' : THR_LOCK) : Prop := {
  ad_holders e : e ∈ holders l -> e ∈ holders l';
  ad_waiters e : e ∈ waiters l -> e ∈ waiters l';
  ad_new_holder e : e ∈ holders l' -> e ∈ holders l \/ (r = Some THR_LOCK_SUCCESS /\ address e = a /\ owner e = o);
  ad_new_waiter e : e ∈ waiters l' -> e ∈ waiters l \/ (r = None /\ address e = a /\ owner e = o);
  ad_granted : r = Some THR_LOCK_SUCCESS -> exists e, e ∈ holders l' /\ address e = a /\ owner e = o /\ fits l t e;
  ad_waits : r = None -> exists e, e ∈ waiters l' /\ address e = a /\ owner e = o /\ fits l t e;
  ad_check : has_check_status l' = has_check_status l
}.

Lemma fits_cond l t d c : fits l t d -> fits l t (with_cond d c).
Proof. done. Qed.

Lemma outcome_adds l a o t r l' : outcome l a o t r l' -> adds l a o t r l'.
Proof.
  intros [d Ha Ho Hf|d c Ha Ho Hf|d Ha Ho Hf|d Ha Ho Hf|d Ha];
    split; unfold holders, waiters; cbn [grant_read grant_write wait_read wait_write refuse put_loose emit set_counts set_loose set_queues
      read read_wait write write_wait has_check_status]; try done; try (intros e; rewrite !elem_of_app; tauto).
  - intros e. rewrite !elem_of_app, list_elem_of_singleton. intros [[? | ->]|?]; [tauto|by right|tauto].
  - intros _. exists d. rewrite !elem_of_app, list_elem_of_singleton. tauto.
  - intros e. rewrite !elem_of_app, list_elem_of_singleton. intros [?|[? | ->]]; [tauto|tauto|by right].
  - intros _. exists d. rewrite !elem_of_app, list_elem_of_singleton. tauto.
  - intros e. rewrite !elem_of_app, list_elem_of_singleton. intros [[? | ->]|?]; [tauto|by right|tauto].
  - intros _. exists (with_cond d true). rewrite !elem_of_app, list_elem_of_singleton. cbn. split_and!; try done. tauto.
  - intros e. rewrite !elem_of_app, list_elem_of_singleton. intros [?|[? | ->]]; [tauto|tauto|by right].
  - intros _. exists (with_cond d true). rewrite !elem_of_app, list_elem_of_singleton. cbn. split_and!; try done. tauto.
Qed.

(** An owner that has a lock does not wait for a second one, not stronger, on the
    same table. *)
Lemma own_grant check_status l a o t h t' r l' :
  lock_ok l -> h ∈ holders l -> owner h = o -> fits l t' h -> num t <= num t' ->
  is_read t \/ (is_write t /\ t <> TL_WRITE_DELAYED) ->
  thr_lock check_status thr_upgraded_concurrent_insert_lock l a o t = (r, l') -> r <> None.
Proof.
  intros Hl Hh Ho Hf Hle Ht E ->. unfold thr_lock in E. set (l0 := take_loose l a) in E.
  apply elem_of_app in Hh. destruct (type_le t TL_READ_NO_INSERT) eqn:Er; [apply type_le_true in Er|apply type_le_false in Er].
  - unfold lock_for_read in E. change (write l0) with (write l) in E. destruct (write l) as [|w ws] eqn:Ew.
    + destruct Hh as [Hh|Hh]; [|by apply not_elem_of_nil in Hh].
      assert (has_old_lock (read l0) o = true) as Hold by (apply has_old_lock_true; by exists h).
      cbn [owner] in E. rewrite Hold, !orb_true_r in E. done.
    + destruct (orb _ _) eqn:E1; [done|]. destruct (type_eq (type w) TL_WRITE_ONLY); [done|]. clear E.
      apply orb_false_iff in E1 as [E1 E2]. unfold thr_lock_owner_equal in E1. cbn [owner type] in *. b2p.
      assert (w ∈ write l) as Hw by (rewrite Ew; left).
      assert (num (type w) <= num TL_WRITE_DELAYED /\ (num (type h) <= num TL_READ_HIGH_PRIORITY \/ type w <> TL_WRITE_CONCURRENT_INSERT) \/
        type w = TL_WRITE_ALLOW_WRITE) as Hc.
      { destruct Hh as [Hh|Hh].
        - left. destruct (ok_compatible _ Hl w h Hw Hh) as [?|?]; [congruence|done].
        - rewrite <- Ew in Hh. destruct (ok_writers _ Hl w h Hw Hh) as [?|[? _]]; [congruence|by right]. }
      destruct Hc as [[Hwd Hc]|Hc]; [|by rewrite Hc in E2; rewrite orb_true_r in E2].
      apply andb_false_iff in E2 as [E2|E2]; [apply type_le_false in E2; lia|].
      apply orb_false_iff in E2 as [E2 E3]. apply negb_false_iff, type_eq_true in E3. apply type_le_false in E2.
      destruct Hc as [Hc|Hc]; [|done]. destruct Hf as [[_ Hf]|(_ & _ & [Hf _] & _)].
      * rewrite Hf in Hc. lia.
      * cbn in Hc. lia.
  - destruct Ht as [Ht|[Hw Hd]]; [unfold is_read in Ht; cbn in Er; lia|].
    destruct Hf as [[Hf _]|(_ & _ & Hhw & _)]; [unfold is_read in Hf; cbn in Er; lia|].
    destruct Hh as [Hh|Hh]; [apply in_read in Hh as [_ Hh]; [|done]; destruct Hhw as [Hhw _]; unfold is_read in Hh; lia|].
    unfold lock_for_write in E. cbn [type] in E. rewrite (proj2 (type_eq_false _ _) Hd) in E.
    set (d := if _ && _ then _ else _) in E.
    assert (owner d = o) as Ed by (subst d; by case_if). clearbody d.
    change (write l0) with (write l) in E. destruct (write l) as [|w ws] eqn:Ew; [by apply not_elem_of_nil in Hh|].
    unfold lock_second_write in E. destruct (_ && negb _); [done|].
    assert (has_old_lock (write l0) (owner d) = true) as Hold.
    { apply has_old_lock_true. exists h. change (write l0) with (write l). rewrite Ew. split; [done|congruence]. }
    rewrite Hold, orb_true_r in E. done.
Qed.
End Request.
