(* ===== verification/ThrDeadlock.v ===== *)
(** * Table locks: no deadlock

    Threads that take all their locks with thr_multi_lock and release them with
    thr_multi_unlock, interleaved at the calls for the single locks.  In every
    state that they reach in which a thread is blocked, another one can go on. *)

From stdpp Require Import prelude list list_numbers sorting.
From Stdlib Require Import ZArith Lia ZifyNat.
From S2P Require Import Prelude ThrLock ThrLockInv ThrLockSafe ThrLockLive ThrMulti.

Open Scope Z_scope.

(** ** The system *)

(** What a thread is doing: its requests in the order of the calls, how many of
    them are done, and whether it is in the loop of thr_multi_lock, waits there
    for the next lock, or is in the loop of thr_multi_unlock. *)
Inductive phase : Type := Locking | Waiting | Releasing.

Record thread : Type := mk_thread {
  data : list request;
  pos : nat;
  state : phase
}.

(** The owner of a lock is the number of its thread. *)
Record system : Type := mk_system {
  locks : list THR_LOCK;
  threads : list thread
}.

Definition idle : thread := mk_thread [] 0 Locking.

Definition set_thread (s : system) (i : nat) (th : thread) : system :=
  mk_system (locks s) (<[i := th]> (threads s)).
Definition set_both (s : system) (m : nat) (l : THR_LOCK) (i : nat) (th : thread) : system :=
  mk_system (<[m := l]> (locks s)) (<[i := th]> (threads s)).

(** What thr_multi_lock does with the result of thr_lock for the request number
    [p]. *)
Definition after_request (d : list request) (p : nat) (r : option enum_thr_lock_result) : thread :=
  match r with
  | Some THR_LOCK_SUCCESS => mk_thread d (S p) Locking
  | Some _ => mk_thread (take p d) p Releasing
  | None => mk_thread d p Waiting
  end.

Section System.
Context (lock_address : nat -> Z) (max_write_lock_count : Z) (thr_upgraded_concurrent_insert_lock : thr_lock_type).
Abbreviation inv := (lock_inv max_write_lock_count).
Abbreviation fit := (fits thr_upgraded_concurrent_insert_lock).

Definition valid_request (r : request) : Prop :=
  is_read (r_type r) \/ (is_write (r_type r) /\ r_type r <> TL_WRITE_DELAYED).

Inductive sys_step (s : system) : system -> Prop :=
  (* a table is opened: a new instance of its lock *)
  | sys_open m l a :
      locks s !! m = Some l ->
      a ∉ map address (all_data l) -> Z.of_nat (length (map address (all_data l))) + 1 < 2 ^ 32 ->
      sys_step s (mk_system (<[m := thr_lock_data_init l a]> (locks s)) (threads s))
  | sys_begin i requests sorted :
      threads s !! i = Some idle -> Forall valid_request requests ->
      sort_locks lock_address requests = Some sorted ->
      sys_step s (set_thread s i (mk_thread sorted 0 Locking))
  (* the next call of thr_lock; an instance is used by one request at a time *)
  | sys_request check_status i d p r l res l' :
      threads s !! i = Some (mk_thread d p Locking) -> d !! p = Some r -> locks s !! r_lock r = Some l ->
      (exists x, x ∈ loose l /\ address x = r_data r) ->
      thr_lock check_status thr_upgraded_concurrent_insert_lock l (r_data r) i (r_type r) = (res, l') ->
      sys_step s (set_both s (r_lock r) l' i (after_request d p res))
  (* the thread was signalled and has the lock *)
  | sys_granted check_status i d p r l x l' :
      threads s !! i = Some (mk_thread d p Waiting) -> d !! p = Some r -> locks s !! r_lock r = Some l ->
      x ∈ holders l -> address x = r_data r ->
      wait_leave max_write_lock_count check_status l (r_data r) false = Some (THR_LOCK_SUCCESS, l') ->
      sys_step s (set_both s (r_lock r) l' i (mk_thread d (S p) Locking))
  (* the thread gives up: the time is over, or it was killed *)
  | sys_give_up check_status timed_out i d p r l x res l' :
      threads s !! i = Some (mk_thread d p Waiting) -> d !! p = Some r -> locks s !! r_lock r = Some l ->
      x ∈ waiters l -> address x = r_data r ->
      wait_leave max_write_lock_count check_status l (r_data r) timed_out = Some (res, l') ->
      sys_step s (set_both s (r_lock r) l' i (mk_thread (take p d) p Releasing))
  | sys_finish i d :
      threads s !! i = Some (mk_thread d (length d) Locking) ->
      sys_step s (set_thread s i (mk_thread d (length d) Releasing))
  | sys_unlock check_status i r d p l l' :
      threads s !! i = Some (mk_thread (r :: d) p Releasing) -> locks s !! r_lock r = Some l ->
      thr_unlock max_write_lock_count check_status l (r_data r) = Some l' ->
      sys_step s (set_both s (r_lock r) l' i (mk_thread d (length d) Releasing))
  | sys_end i p :
      threads s !! i = Some (mk_thread [] p Releasing) -> sys_step s (set_thread s i idle).

Inductive sys_reachable : system -> Prop :=
  | sys_init checks n : sys_reachable (mk_system (map thr_lock_init checks) (replicate n idle))
  | sys_next s s' : sys_reachable s -> sys_step s s' -> sys_reachable s'.

(** ** The invariant *)

(** The requests that are in the queues of the locks, and those of them that are
    known to be granted. *)
Definition claims (th : thread) : list request :=
  match state th with Waiting => take (S (pos th)) (data th) | _ => take (pos th) (data th) end.
Definition granted (th : thread) : list request := take (pos th) (data th).

Record thread_ok (th : thread) : Prop := {
  to_valid : Forall valid_request (data th);
  to_sorted : state th <> Releasing -> StronglySorted (in_order lock_address) (data th);
  to_waiting : state th = Waiting -> exists r, data th !! pos th = Some r /\
    Forall (fun r' => r_lock r' <> r_lock r) (granted th);
  to_distinct : NoDup (map (fun r => (r_lock r, r_data r)) (claims th));
  to_releasing : state th = Releasing -> pos th = length (data th)
}.

(** The request in the queue of a lock. *)
Definition in_queue (q : THR_LOCK -> list THR_LOCK_DATA) (ls : list THR_LOCK) (i : nat) (r : request) : Prop :=
  exists l e, ls !! r_lock r = Some l /\ e ∈ q l /\ address e = r_data r /\ owner e = i /\ fit l (r_type r) e.

(** The thread of an instance in a queue. *)
Definition claimed (ths : list thread) (m : nat) (e : THR_LOCK_DATA) (th : thread) (r : request) : Prop :=
  ths !! owner e = Some th /\ r ∈ claims th /\ r_lock r = m /\ r_data r = address e.

Record sys_ok (s : system) : Prop := {
  so_locks m l : locks s !! m = Some l -> inv l;
  so_threads i th : threads s !! i = Some th -> thread_ok th;
  so_claims i th r : threads s !! i = Some th -> r ∈ claims th -> in_queue queued (locks s) i r;
  so_granted i th r : threads s !! i = Some th -> r ∈ granted th -> in_queue holders (locks s) i r;
  so_queued m l e : locks s !! m = Some l -> e ∈ queued l -> exists th r, claimed (threads s) m e th r;
  so_waiters m l e : locks s !! m = Some l -> e ∈ waiters l ->
    exists th r, claimed (threads s) m e th r /\ state th = Waiting /\ data th !! pos th = Some r
}.

Lemma granted_claims th : granted th ⊆ claims th.
Proof.
  unfold granted, claims. destruct (state th); [done| |done]. intros r Hr. apply list_elem_of_lookup in Hr as [k Hk].
  apply lookup_take_Some in Hk as [Hk Hlt]. apply list_elem_of_lookup. exists k. rewrite lookup_take_lt by lia. done.
Qed.

Lemma holders_queued l e : e ∈ holders l -> e ∈ queued l.
Proof. unfold queued. rewrite elem_of_app. tauto. Qed.
Lemma waiters_queued l e : e ∈ waiters l -> e ∈ queued l.
Proof. unfold queued. rewrite elem_of_app. tauto. Qed.
Lemma queued_all_data l e : e ∈ queued l -> e ∈ all_data l.
Proof. rewrite queued_all, elem_of_app. tauto. Qed.

Lemma queued_same l e1 e2 : inv l -> e1 ∈ queued l -> e2 ∈ queued l -> address e1 = address e2 -> e1 = e2.
Proof.
  intros Hi H1 H2. by apply (same_address (all_data l)); [apply Hi|apply queued_all_data|apply queued_all_data].
Qed.

(** ** A blocked thread leaves another one running *)

Definition blocked (s : system) (i : nat) : Prop :=
  exists d p r l e, threads s !! i = Some (mk_thread d p Waiting) /\ d !! p = Some r /\ locks s !! r_lock r = Some l /\
    e ∈ waiters l /\ address e = r_data r.

(** Thread [i] waits for a lock that thread [j] holds; the instance of a thread
    that was given its lock and has not left the wait yet is among the holders. *)
Definition waits_for (s : system) (i j : nat) : Prop :=
  exists d p r l e h, threads s !! i = Some (mk_thread d p Waiting) /\ d !! p = Some r /\ locks s !! r_lock r = Some l /\
    e ∈ waiters l /\ address e = r_data r /\ h ∈ holders l /\ owner h = j.

Definition holds (s : system) (i : nat) : Prop :=
  exists m l h, locks s !! m = Some l /\ h ∈ holders l /\ owner h = i.

(** A thread that has a lock and does not wait for another one. *)
Definition running (s : system) (i : nat) : Prop := holds s i /\ ~ blocked s i.

(** The thread waits for the lock number [m]. *)
Definition blocked_at (s : system) (i m : nat) : Prop :=
  exists d p r l e, threads s !! i = Some (mk_thread d p Waiting) /\ d !! p = Some r /\ r_lock r = m /\
    locks s !! m = Some l /\ e ∈ waiters l /\ address e = r_data r.

Lemma claims_waiting d p r : d !! p = Some r -> claims (mk_thread d p Waiting) = take p d ++ [r].
Proof. intros H. unfold claims. cbn. by apply take_S_r. Qed.

Lemma claims_data th r : r ∈ claims th -> r ∈ data th.
Proof.
  unfold claims. intros Hr. assert (exists n, r ∈ take n (data th)) as [n Hn] by (destruct (state th); eauto).
  apply list_elem_of_lookup in Hn as [k [Hk _]%lookup_take_Some]. apply list_elem_of_lookup. by exists k.
Qed.

Lemma holder_not_waiter l h e : inv l -> h ∈ holders l -> e ∈ waiters l -> address h <> address e.
Proof. intros Hi Hh He E. by apply (holder_waiter_address l h e); [apply Hi|..]. Qed.

Context (Hgap : forall i j, (i < j)%nat -> lock_address i + 16 <= lock_address j).

Lemma valid_num r : valid_request r -> 0 <= num (r_type r).
Proof. intros [H|[[H _] _]]; [unfold is_read in H|]; lia. Qed.

Lemma later_lock d p r r' :
  thread_ok (mk_thread d p Waiting) -> d !! p = Some r -> r' ∈ take p d -> (r_lock r' < r_lock r)%nat.
Proof.
  intros [Hv Hs Hw _ _] Hp Hr. destruct (Hw eq_refl) as (r0 & Hp0 & Hne). cbn in Hp0. rewrite Hp in Hp0. injection Hp0 as <-.
  rewrite Forall_forall in Hne. pose proof (Hne r' Hr) as Hn. specialize (Hs ltac:(done)). cbn [data] in *.
  rewrite <- (take_drop p d) in Hs. rewrite Forall_forall in Hv.
  assert (in_order lock_address r' r) as Ho.
  { apply (StronglySorted_app_1_elem_of _ _ _ _ _ Hs Hr). apply list_elem_of_lookup. exists 0%nat.
    rewrite lookup_drop, Nat.add_0_r. done. }
  apply key_order in Ho as [Hle _]; [lia|done|apply valid_num, Hv|apply valid_num, Hv].
  - apply list_elem_of_lookup in Hr as [k [Hk _]%lookup_take_Some]. apply list_elem_of_lookup. by exists k.
  - apply list_elem_of_lookup. by exists p.
Qed.

Lemma blocked_at_iff s i : blocked s i <-> exists m, blocked_at s i m.
Proof.
  split.
  - intros (d & p & r & l & e & H). exists (r_lock r), d, p, r, l, e. intuition.
  - intros (m & d & p & r & l & e & H1 & H2 & <- & H3). by exists d, p, r, l, e.
Qed.

Lemma waits_for_blocked s i j : waits_for s i j -> exists m l h, blocked_at s i m /\ locks s !! m = Some l /\ h ∈ holders l /\ owner h = j.
Proof.
  intros (d & p & r & l & e & h & H1 & H2 & H3 & H4 & H5 & H6 & H7). exists (r_lock r), l, h. split; [|done].
  by exists d, p, r, l, e.
Qed.

Lemma blocked_waits_for s i m l h :
  blocked_at s i m -> locks s !! m = Some l -> h ∈ holders l -> waits_for s i (owner h).
Proof.
  intros (d & p & r & l0 & e & H1 & H2 & <- & H3 & H4 & H5) Hl Hh. rewrite Hl in H3. injection H3 as <-.
  by exists d, p, r, l, e, h.
Qed.

(** Where a thread waits for a lock, somebody holds it. *)
Lemma blocked_at_holder s i m : sys_ok s -> blocked_at s i m -> exists l h, locks s !! m = Some l /\ h ∈ holders l.
Proof.
  intros Hs (d & p & r & l & e & _ & _ & _ & Hl & He & _).
  pose proof (waiter_holder max_write_lock_count l e (so_locks _ Hs _ _ Hl) He) as Hne.
  destruct (holders l) as [|h q] eqn:E; [done|]. exists l, h. rewrite E. split; [done|left].
Qed.

(** The holder of a lock waits only for a lock with a higher address. *)
Lemma holder_waits_later s m l h m' :
  sys_ok s -> locks s !! m = Some l -> h ∈ holders l -> blocked_at s (owner h) m' -> (m < m')%nat.
Proof.
  intros Hs Hl Hh (d & p & r & l' & e & Hth & Hp & <- & Hl' & He & Ha).
  destruct (so_queued _ Hs _ _ h Hl (holders_queued _ _ Hh)) as (th & r' & Hth' & Hr' & Hlk & Hda).
  rewrite Hth in Hth'. injection Hth' as <-. rewrite (claims_waiting _ _ _ Hp) in Hr'.
  rewrite <- Hlk. apply (later_lock d p); [by apply (so_threads _ Hs (owner h))|done|].
  apply elem_of_app in Hr' as [?|Hr']; [done|]. apply list_elem_of_singleton in Hr' as ->. exfalso.
  rewrite Hlk, Hl in Hl'. injection Hl' as <-.
  apply (holder_not_waiter l h e); [by apply (so_locks _ Hs m)|done|done|congruence].
Qed.

Lemma waits_for_later s i j m m' :
  sys_ok s -> waits_for s i j -> blocked_at s i m -> blocked_at s j m' -> (m < m')%nat.
Proof.
  intros Hs (d & p & r & l & e & h & H1 & H2 & H3 & H4 & H5 & H6 & <-) (d0 & p0 & r0 & l0 & e0 & E1 & E2 & <- & _) Hj.
  rewrite H1 in E1. injection E1 as <- <-. rewrite H2 in E2. injection E2 as <-. by apply (holder_waits_later s _ l h).
Qed.

Lemma tc_waits_for_later s i j m m' :
  sys_ok s -> tc (waits_for s) i j -> blocked_at s i m -> blocked_at s j m' -> (m < m')%nat.
Proof.
  intros Hs Ht. revert m. induction Ht as [i j H|i k j H Ht IH]; intros m Hi Hj; [by apply (waits_for_later s i j)|].
  assert (exists k', waits_for s k k') as [k' Hk] by (destruct Ht; eauto).
  destruct (waits_for_blocked _ _ _ Hk) as (mk & _ & _ & Hb & _).
  pose proof (waits_for_later _ _ _ _ _ Hs H Hi Hb). pose proof (IH _ Hb Hj). lia.
Qed.

(** No thread waits for itself through others. *)
Lemma no_circle s i : sys_ok s -> ~ tc (waits_for s) i i.
Proof.
  intros Hs Ht. assert (exists k, waits_for s i k) as [k Hk] by (inversion Ht; eauto).
  destruct (waits_for_blocked _ _ _ Hk) as (m & _ & _ & Hb & _).
  pose proof (tc_waits_for_later _ _ _ _ _ Hs Ht Hb Hb). lia.
Qed.

(** Whether a thread is blocked can be decided: it is, unless its instance is
    among the holders or it is in another phase. *)
Lemma blocked_or_not s i : sys_ok s -> blocked s i \/ ~ blocked s i.
Proof.
  intros Hs. destruct (threads s !! i) as [[d p ph]|] eqn:Hth; [|right; intros (?&?&?&?&?&?&_); congruence].
  destruct ph; [right; intros (?&?&?&?&?&?&_); congruence| |right; intros (?&?&?&?&?&?&_); congruence].
  destruct (to_waiting _ (so_threads _ Hs _ _ Hth) eq_refl) as (r & Hp & _). cbn in Hp.
  destruct (so_claims _ Hs _ _ r Hth) as (l & e & Hl & He & Ha & _ & _).
  { rewrite (claims_waiting _ _ _ Hp). apply elem_of_app. right. left. }
  unfold queued in He. apply elem_of_app in He as [He|He]; [right|left; by exists d, p, r, l, e].
  intros (d2 & p2 & r2 & l2 & e2 & E1 & E2 & E3 & E4 & E5).
  rewrite Hth in E1. injection E1 as <- <-. rewrite Hp in E2. injection E2 as <-. rewrite Hl in E3. injection E3 as <-.
  apply (holder_not_waiter l e e2); [by apply (so_locks _ Hs (r_lock r))|done|done|congruence].
Qed.

Lemma blocked_running_aux s n : sys_ok s -> forall i m,
  blocked_at s i m -> (length (locks s) <= m + n)%nat -> exists j, tc (waits_for s) i j /\ running s j.
Proof.
  intros Hs. induction n as [|n IH]; intros i m Hb Hn.
  { destruct Hb as (d & p & r & l & e & _ & _ & _ & Hl%lookup_lt_Some & _). lia. }
  destruct (blocked_at_holder _ _ _ Hs Hb) as (l & h & Hl & Hh). pose proof (blocked_waits_for _ _ _ _ _ Hb Hl Hh) as Hw.
  destruct (blocked_or_not s (owner h) Hs) as [Hbh|Hbh].
  - apply blocked_at_iff in Hbh as [m' Hbh]. pose proof (holder_waits_later _ _ _ _ _ Hs Hl Hh Hbh) as Hlt.
    destruct (IH _ _ Hbh) as (j & Hj & Hr); [lia|]. exists j. split; [|done]. by apply (tc_l _ _ (owner h)).
  - exists (owner h). split; [by apply tc_once|]. split; [|done]. by exists m, l, h.
Qed.

Lemma blocked_running s i : sys_ok s -> blocked s i -> exists j, tc (waits_for s) i j /\ running s j.
Proof.
  intros Hs [m Hb]%blocked_at_iff. by apply (blocked_running_aux s (length (locks s)) Hs i m); [|lia].
Qed.

(** ** The steps keep the invariant *)

Lemma in_queue_keep (q : THR_LOCK -> list THR_LOCK_DATA) ls m l l' i r :
  ls !! m = Some l -> has_check_status l' = has_check_status l ->
  (r_lock r = m -> forall e, e ∈ q l -> address e = r_data r -> owner e = i -> exists e', e' ∈ q l' /\ same_request e e') ->
  in_queue q ls i r -> in_queue q (<[m := l']> ls) i r.
Proof.
  intros Hm Hc Hk (l1 & e & Hl1 & He & Ha & Ho & Hf). destruct (decide (r_lock r = m)) as [E|E].
  - rewrite E, Hm in Hl1. injection Hl1 as <-. destruct (Hk E e He Ha Ho) as (e' & He' & Hs).
    exists l', e'. rewrite E, list_lookup_insert_eq by (by apply lookup_lt_Some in Hm). pose proof Hs as (S1 & S2 & _).
    split_and!; [done|done|congruence|congruence|]. by apply (fits_same _ l l' _ e e').
  - exists l1, e. by rewrite list_lookup_insert_ne.
Qed.

(** A step of thread [i] at lock [m]. *)
Record lock_change (m : nat) (l l' : THR_LOCK) (i : nat) (th th' : thread) (ls : list THR_LOCK) : Prop := {
  lc_inv : inv l';
  lc_thread : thread_ok th';
  lc_check : has_check_status l' = has_check_status l;
  (* the other threads keep what they have *)
  lc_held e : e ∈ holders l -> owner e <> i -> e ∈ holders l';
  lc_wait e : e ∈ waiters l -> owner e <> i -> exists e', e' ∈ queued l' /\ same_request e e';
  (* what this thread has afterwards *)
  lc_claims r : r ∈ claims th' -> in_queue queued (<[m := l']> ls) i r;
  lc_granted r : r ∈ granted th' -> in_queue holders (<[m := l']> ls) i r;
  (* where the instances in the queues come from *)
  lc_from e' : e' ∈ queued l' -> owner e' <> i ->
    exists e, e ∈ queued l /\ address e = address e' /\ owner e = owner e' /\ (e' ∈ waiters l' -> e ∈ waiters l);
  lc_mine e' : e' ∈ queued l' -> owner e' = i -> exists r, r ∈ claims th' /\ r_lock r = m /\ r_data r = address e' /\
    (e' ∈ waiters l' -> state th' = Waiting /\ data th' !! pos th' = Some r);
  (* its claims on other locks stay *)
  lc_others r : r ∈ claims th -> r_lock r <> m ->
    r ∈ claims th' /\ ~ (state th = Waiting /\ data th !! pos th = Some r)
}.

Lemma set_both_ok s m l l' i th th' :
  sys_ok s -> locks s !! m = Some l -> threads s !! i = Some th ->
  lock_change m l l' i th th' (locks s) -> sys_ok (set_both s m l' i th').
Proof.
  intros Hs Hm Hi Hc. pose proof (lookup_lt_Some _ _ _ Hm) as Hml. pose proof (lookup_lt_Some _ _ _ Hi) as Hil.
  split; cbn [set_both locks threads].
  - intros m' l0 H. apply list_lookup_insert_Some in H as [(_ & <- & _)|[_ H]]; [apply Hc|by apply (so_locks _ Hs m')].
  - intros j t H. apply list_lookup_insert_Some in H as [(_ & <- & _)|[_ H]]; [apply Hc|by apply (so_threads _ Hs j)].
  - intros j t r H Hr. apply list_lookup_insert_Some in H as [(<- & <- & _)|[Hne H]]; [by apply (lc_claims _ _ _ _ _ _ _ Hc)|].
    apply (in_queue_keep _ _ _ l); [done|apply Hc| |by apply (so_claims _ Hs j t)].
    intros _ e He _ Ho. unfold queued in He. apply elem_of_app in He as [He|He].
    + exists e. split; [|apply same_request_refl]. apply holders_queued, (lc_held _ _ _ _ _ _ _ Hc); [done|congruence].
    + apply (lc_wait _ _ _ _ _ _ _ Hc); [done|congruence].
  - intros j t r H Hr. apply list_lookup_insert_Some in H as [(<- & <- & _)|[Hne H]]; [by apply (lc_granted _ _ _ _ _ _ _ Hc)|].
    apply (in_queue_keep _ _ _ l); [done|apply Hc| |by apply (so_granted _ Hs j t)].
    intros _ e He _ Ho. exists e. split; [|apply same_request_refl]. apply (lc_held _ _ _ _ _ _ _ Hc); [done|congruence].
  - intros m' l0 e H He. apply list_lookup_insert_Some in H as [(<- & <- & _)|[Hne H]].
    + destruct (decide (owner e = i)) as [Ho|Ho].
      * destruct (lc_mine _ _ _ _ _ _ _ Hc e He Ho) as (r & H1 & H2 & H3 & _). exists th', r.
        split_and!; [by rewrite Ho, list_lookup_insert_eq|done..].
      * destruct (lc_from _ _ _ _ _ _ _ Hc e He Ho) as (e0 & H1 & H2 & H3 & _).
        destruct (so_queued _ Hs m l e0 Hm H1) as (t & r & T1 & T2 & T3 & T4). exists t, r.
        split_and!; [rewrite list_lookup_insert_ne by congruence; congruence|done|done|congruence].
    + destruct (so_queued _ Hs m' l0 e H He) as (t & r & T1 & T2 & T3 & T4).
      destruct (decide (owner e = i)) as [Ho|Ho].
      * rewrite Ho, Hi in T1. injection T1 as <-. exists th', r.
        destruct (lc_others _ _ _ _ _ _ _ Hc r T2) as [? _]; [congruence|]. split_and!; [by rewrite Ho, list_lookup_insert_eq|done..].
      * exists t, r. split_and!; [by rewrite list_lookup_insert_ne|done..].
  - intros m' l0 e H He. apply list_lookup_insert_Some in H as [(<- & <- & _)|[Hne H]].
    + destruct (decide (owner e = i)) as [Ho|Ho].
      * destruct (lc_mine _ _ _ _ _ _ _ Hc e (waiters_queued _ _ He) Ho) as (r & H1 & H2 & H3 & Hw). exists th', r.
        split; [|by apply Hw]. split_and!; [by rewrite Ho, list_lookup_insert_eq|done..].
      * destruct (lc_from _ _ _ _ _ _ _ Hc e (waiters_queued _ _ He) Ho) as (e0 & H1 & H2 & H3 & Hw).
        destruct (so_waiters _ Hs m l e0 Hm (Hw He)) as (t & r & (T1 & T2 & T3 & T4) & T5). exists t, r. split; [|done].
        split_and!; [rewrite list_lookup_insert_ne by congruence; congruence|done|done|congruence].
    + destruct (so_waiters _ Hs m' l0 e H He) as (t & r & (T1 & T2 & T3 & T4) & T5).
      destruct (decide (owner e = i)) as [Ho|Ho].
      * rewrite Ho, Hi in T1. injection T1 as <-. destruct (lc_others _ _ _ _ _ _ _ Hc r T2) as [_ []]; [congruence|done].
      * exists t, r. split; [|done]. split_and!; [by rewrite list_lookup_insert_ne|done..].
Qed.

(** A step that changes no queue. *)
Lemma open_ok s m l a :
  sys_ok s -> locks s !! m = Some l -> a ∉ map address (all_data l) ->
  Z.of_nat (length (map address (all_data l))) + 1 < 2 ^ 32 ->
  sys_ok (mk_system (<[m := thr_lock_data_init l a]> (locks s)) (threads s)).
Proof.
  intros Hs Hm Ha Hsm. split; cbn [locks threads].
  - intros m' l0 H. apply list_lookup_insert_Some in H as [(_ & <- & _)|[_ H]]; [|by apply (so_locks _ Hs m')].
    apply thr_lock_data_init_inv; [by apply (so_locks _ Hs m)|done|done].
  - apply Hs.
  - intros i th r Hi Hr. apply (in_queue_keep _ _ _ l); [done|done| |by apply (so_claims _ Hs i th)].
    intros _ e He _ _. exists e. split; [done|apply same_request_refl].
  - intros i th r Hi Hr. apply (in_queue_keep _ _ _ l); [done|done| |by apply (so_granted _ Hs i th)].
    intros _ e He _ _. exists e. split; [done|apply same_request_refl].
  - intros m' l0 e H He. apply list_lookup_insert_Some in H as [(<- & <- & _)|[_ H]]; [|by apply (so_queued _ Hs m' l0)].
    by apply (so_queued _ Hs m l).
  - intros m' l0 e H He. apply list_lookup_insert_Some in H as [(<- & <- & _)|[_ H]]; [|by apply (so_waiters _ Hs m' l0)].
    by apply (so_waiters _ Hs m l).
Qed.

(** A step of a thread that touches no lock. *)
Lemma set_thread_ok s i th th' :
  sys_ok s -> threads s !! i = Some th -> thread_ok th' -> state th <> Waiting ->
  claims th' = claims th -> granted th' = granted th -> sys_ok (set_thread s i th').
Proof.
  intros Hs Hi Hok Hst Hc Hg. pose proof (lookup_lt_Some _ _ _ Hi) as Hil. split; cbn [set_thread locks threads].
  - apply Hs.
  - intros j t H. apply list_lookup_insert_Some in H as [(_ & <- & _)|[_ H]]; [done|by apply (so_threads _ Hs j)].
  - intros j t r H Hr. apply list_lookup_insert_Some in H as [(<- & <- & _)|[_ H]]; [|by apply (so_claims _ Hs j t)].
    rewrite Hc in Hr. by apply (so_claims _ Hs i th).
  - intros j t r H Hr. apply list_lookup_insert_Some in H as [(<- & <- & _)|[_ H]]; [|by apply (so_granted _ Hs j t)].
    rewrite Hg in Hr. by apply (so_granted _ Hs i th).
  - intros m l e Hm He. destruct (so_queued _ Hs m l e Hm He) as (t & r & T1 & T2 & T3 & T4).
    destruct (decide (owner e = i)) as [Ho|Ho].
    + rewrite Ho, Hi in T1. injection T1 as <-. exists th', r. split_and!; [by rewrite Ho, list_lookup_insert_eq|congruence|done|done].
    + exists t, r. split_and!; [by rewrite list_lookup_insert_ne|done..].
  - intros m l e Hm He. destruct (so_waiters _ Hs m l e Hm He) as (t & r & (T1 & T2 & T3 & T4) & T5).
    destruct (decide (owner e = i)) as [Ho|Ho].
    + rewrite Ho, Hi in T1. injection T1 as <-. by destruct T5.
    + exists t, r. split; [|done]. split_and!; [by rewrite list_lookup_insert_ne|done..].
Qed.

(** *** A thread leaves a queue *)

Lemma leaves_from a l l' e' : inv l -> inv l' -> leaves a l l' -> e' ∈ queued l' ->
  exists e, e ∈ queued l /\ address e = address e' /\ owner e = owner e' /\ address e <> a /\ (e' ∈ waiters l' -> e ∈ waiters l).
Proof.
  intros Hi Hi' Hv He'. pose proof (NoDup_queued l (inv_ok _ _ Hi)) as Hn. rewrite (lv_perm _ _ _ Hv) in Hn.
  apply NoDup_cons in Hn as [Hna _].
  assert (address e' ∈ map address (queued l')) as Hin by (apply list_elem_of_fmap; by exists e').
  assert (address e' <> a) as Hne by (intros E; by rewrite E in Hin).
  assert (address e' ∈ map address (queued l)) as Hin' by (rewrite (lv_perm _ _ _ Hv); by right).
  apply list_elem_of_fmap in Hin' as (e & Ha & He). exists e.
  pose proof He as Hq. unfold queued in Hq. apply elem_of_app in Hq as [Hh|Hw].
  - assert (e ∈ holders l') as Hh' by (apply Hv; [done|congruence]).
    assert (e = e') as -> by (apply (queued_same l'); [done|by apply holders_queued|done|done]).
    split_and!; try done. intros Hw. by destruct (holder_not_waiter l' e' e').
  - destruct (lv_wait _ _ _ Hv e Hw) as (e2 & (S1 & S2 & _) & Hin2); [congruence|].
    assert (e2 = e') as ->; [|split_and!; congruence].
    apply (queued_same l'); [done| |done|congruence]. destruct Hin2; [by apply waiters_queued|by apply holders_queued].
Qed.

Lemma leave_change s m l l' i th th' r x :
  sys_ok s -> locks s !! m = Some l -> threads s !! i = Some th -> inv l' -> thread_ok th' ->
  r_lock r = m -> x ∈ queued l -> address x = r_data r -> owner x = i -> leaves (r_data r) l l' ->
  (forall r', r' ∈ claims th -> r' = r \/ r' ∈ claims th') ->
  (forall r', r' ∈ claims th' -> r_lock r' = m -> r_data r' <> r_data r) ->
  claims th' ⊆ granted th -> granted th' ⊆ claims th' ->
  (state th = Waiting -> data th !! pos th = Some r) ->
  lock_change m l l' i th th' (locks s).
Proof.
  intros Hs Hm Hi Hinv' Hok Hrm Hx Hxa Hxo Hv Hsplit Hdist Hsub Hsub' Hst.
  pose proof (so_locks _ Hs _ _ Hm) as Hinv.
  assert (forall e, e ∈ queued l -> owner e <> i -> address e <> r_data r) as Hother.
  { intros e He Ho E. apply Ho. rewrite <- Hxo. f_equal. apply (queued_same l); [done|done|done|congruence]. }
  assert (forall r', r' ∈ claims th' -> in_queue holders (<[m := l']> (locks s)) i r') as Hgr.
  { intros r' Hr'. apply (in_queue_keep _ _ _ l); [done|apply Hv| |by apply (so_granted _ Hs i th), Hsub].
    intros E e He Ha Ho. exists e. split; [|apply same_request_refl]. apply (lv_held _ _ _ Hv); [done|].
    rewrite Ha. by apply Hdist. }
  split; try done; [apply Hv|..].
  - intros e He Ho. apply (lv_held _ _ _ Hv); [done|]. by apply Hother; [apply holders_queued|].
  - intros e He Ho. destruct (lv_wait _ _ _ Hv e He) as (e' & Hsm & Hin); [by apply Hother; [apply waiters_queued|]|].
    exists e'. split; [|done]. destruct Hin; [by apply waiters_queued|by apply holders_queued].
  - intros r' Hr'. destruct (Hgr r' Hr') as (l1 & e & H1 & H2 & H3). exists l1, e. split_and!; [done|by apply holders_queued|apply H3..].
  - intros r' Hr'. by apply Hgr, Hsub'.
  - intros e' He' Ho. destruct (leaves_from _ _ _ e' Hinv Hinv' Hv He') as (e & H1 & H2 & H3 & _ & H4). by exists e.
  - intros e' He' Ho. destruct (leaves_from _ _ _ e' Hinv Hinv' Hv He') as (e & H1 & H2 & H3 & Hne & H4).
    destruct (so_queued _ Hs m l e Hm H1) as (t & r' & T1 & T2 & T3 & T4). rewrite H3, Ho, Hi in T1. injection T1 as <-.
    destruct (Hsplit r' T2) as [->|Hr']; [congruence|]. exists r'. split_and!; [done|done|congruence|].
    intros Hw. exfalso. destruct (so_waiters _ Hs m l e Hm (H4 Hw)) as (t & r2 & (U1 & U2 & U3 & U4) & U5 & U6).
    rewrite H3, Ho, Hi in U1. injection U1 as <-. rewrite (Hst U5) in U6. injection U6 as <-. congruence.
  - intros r' Hr' Hne. destruct (Hsplit r' Hr') as [->|H]; [done|]. split; [done|]. intros [E1 E2].
    rewrite (Hst E1) in E2. injection E2 as <-. done.
Qed.

Lemma distinct_last (q : list request) r r' :
  NoDup (map (fun r => (r_lock r, r_data r)) (q ++ [r])) -> r' ∈ q -> r_lock r' = r_lock r -> r_data r' <> r_data r.
Proof.
  rewrite map_app. intros (_ & H & _)%NoDup_app Hr E1 E2. apply (H (r_lock r', r_data r')).
  - apply list_elem_of_fmap. by exists r'.
  - rewrite E1, E2. left.
Qed.

Lemma give_up_ok s check_status timed_out i d p r l x res l' :
  sys_ok s -> threads s !! i = Some (mk_thread d p Waiting) -> d !! p = Some r -> locks s !! r_lock r = Some l ->
  x ∈ waiters l -> address x = r_data r ->
  wait_leave max_write_lock_count check_status l (r_data r) timed_out = Some (res, l') ->
  sys_ok (set_both s (r_lock r) l' i (mk_thread (take p d) p Releasing)).
Proof.
  intros Hs Hi Hp Hl Hx Hxa Hlv. pose proof (so_locks _ Hs _ _ Hl) as Hinv. pose proof (so_threads _ Hs _ _ Hi) as Hok.
  assert (length (take p d) = p) as Hlen by (rewrite length_take; apply lookup_lt_Some in Hp; lia).
  assert (owner x = i) as Hxo.
  { destruct (so_claims _ Hs i _ r Hi) as (l1 & e & E1 & E2 & E3 & E4 & _).
    - rewrite (claims_waiting _ _ _ Hp), elem_of_app. right. left.
    - rewrite Hl in E1. injection E1 as <-. rewrite (queued_same l x e) by (done || (by apply waiters_queued) || congruence). done. }
  assert (cond x = true) as Hc.
  { apply elem_of_app in Hx as [Hx|Hx]; [apply in_read_wait in Hx as [? _]|apply in_write_wait in Hx as [? _]]; try done; apply Hinv. }
  destruct (wait_leave_inv max_write_lock_count check_status l x timed_out Hinv) as (r1 & l1 & E & Hinv').
  { by apply queued_all_data, waiters_queued. } { intros _. by apply elem_of_app in Hx. }
  rewrite Hxa, Hlv in E. injection E as <- <-.
  assert (leaves (r_data r) l l') as Hv.
  { rewrite <- Hxa. unfold wait_leave in Hlv. rewrite <- Hxa, find_data_in in Hlv by (apply Hinv || by apply queued_all_data, waiters_queued).
    cbn [mbind option_bind] in Hlv. rewrite Hc in Hlv. cbn [orb] in Hlv. injection Hlv as _ <-.
    eapply leave_leaves; [apply Hinv|by apply waiters_queued| |apply wake_evolves]. done. }
  destruct Hok as [H1 H2 H3 H4 H5]. rewrite (claims_waiting _ _ _ Hp) in H4.
  eapply set_both_ok; [done|done|done|].
  assert (claims (mk_thread (take p d) p Releasing) = take p d) as Ec by (unfold claims; cbn; by rewrite take_take, Nat.min_id).
  apply (leave_change s _ l l' i _ _ r x); try done; rewrite ?Ec, ?(claims_waiting _ _ _ Hp).
  - split; cbn [data pos state]; try done; [by apply Forall_take|rewrite Ec; rewrite map_app in H4; by apply NoDup_app in H4 as (? & _)].
  - by apply waiters_queued.
  - intros r' [?|?%list_elem_of_singleton]%elem_of_app; tauto.
  - intros r' Hr' E. by apply (distinct_last (take p d) r r').
  - done.
Qed.

Lemma unlock_ok s check_status i r d p l l' :
  sys_ok s -> threads s !! i = Some (mk_thread (r :: d) p Releasing) -> locks s !! r_lock r = Some l ->
  thr_unlock max_write_lock_count check_status l (r_data r) = Some l' ->
  sys_ok (set_both s (r_lock r) l' i (mk_thread d (length d) Releasing)).
Proof.
  intros Hs Hi Hl Hu. pose proof (so_locks _ Hs _ _ Hl) as Hinv. pose proof (so_threads _ Hs _ _ Hi) as [H1 H2 H3 H4 H5].
  specialize (H5 eq_refl). cbn [data pos] in H5. subst p.
  assert (claims (mk_thread (r :: d) (length (r :: d)) Releasing) = r :: d) as Ec by (unfold claims; cbn; by rewrite firstn_all).
  assert (claims (mk_thread d (length d) Releasing) = d) as Ec' by (unfold claims; cbn; by rewrite firstn_all).
  destruct (so_granted _ Hs i _ r Hi) as (l1 & x & E1 & Hx & Hxa & Hxo & _); [left|].
  rewrite Hl in E1. injection E1 as <-.
  destruct (unlock_leaves max_write_lock_count check_status l x (inv_ok _ _ Hinv) Hx) as (l1 & E & Hinv' & Hv).
  rewrite Hxa in E, Hv. rewrite Hu in E. injection E as <-. rewrite Ec in H4. cbn in H4. apply NoDup_cons in H4 as [H4 H4'].
  eapply set_both_ok; [done|done|done|].
  apply (leave_change s _ l l' i _ _ r x); try done; rewrite ?Ec, ?Ec'.
  - split; cbn [data pos state]; try done; [by inversion H1|by rewrite Ec'].
  - by apply holders_queued.
  - by intros r' [?|?]%elem_of_cons; [left|right].
  - intros r' Hr' E1 E2. apply H4. apply list_elem_of_fmap. exists r'. by rewrite E1, E2.
  - unfold granted. cbn. rewrite firstn_all. by intros r' ?; right.
Qed.

Lemma granted_ok s check_status i d p r l x l' :
  sys_ok s -> threads s !! i = Some (mk_thread d p Waiting) -> d !! p = Some r -> locks s !! r_lock r = Some l ->
  x ∈ holders l -> address x = r_data r ->
  wait_leave max_write_lock_count check_status l (r_data r) false = Some (THR_LOCK_SUCCESS, l') ->
  sys_ok (set_both s (r_lock r) l' i (mk_thread d (S p) Locking)).
Proof.
  intros Hs Hi Hp Hl Hx Hxa Hlv. pose proof (so_locks _ Hs _ _ Hl) as Hinv. pose proof (so_threads _ Hs _ _ Hi) as [H1 H2 H3 H4 H5].
  assert (l' = emit l [GetStatus (r_data r) false]) as ->.
  { unfold wait_leave in Hlv. rewrite <- Hxa, find_data_in in Hlv by (apply Hinv || by apply queued_all_data, holders_queued).
    cbn [mbind option_bind] in Hlv. destruct (_ || _); [|by injection Hlv as <-; rewrite Hxa].
    destruct (cond x); [|done]. destruct (false : bool); done. }
  assert (claims (mk_thread d (S p) Locking) = claims (mk_thread d p Waiting)) as Ec by done.
  assert (forall r', r' ∈ claims (mk_thread d p Waiting) ->
    in_queue holders (<[r_lock r := emit l [GetStatus (r_data r) false]]> (locks s)) i r') as Hgr.
  { intros r' Hr'. rewrite (claims_waiting _ _ _ Hp) in Hr'. apply (in_queue_keep _ _ _ l); [done|done| |].
    - intros _ e He _ _. exists e. split; [done|apply same_request_refl].
    - apply elem_of_app in Hr' as [Hr'|Hr']; [by apply (so_granted _ Hs i _ r' Hi)|]. apply list_elem_of_singleton in Hr' as ->.
      destruct (so_claims _ Hs i _ r Hi) as (l1 & e & E1 & E2 & E3 & E4 & E5).
      + rewrite (claims_waiting _ _ _ Hp), elem_of_app. right. left.
      + rewrite Hl in E1. injection E1 as <-. assert (e = x) as -> by (apply (queued_same l); [done|done|by apply holders_queued|congruence]).
        by exists l, x. }
  eapply set_both_ok; [done|done|done|]. split; try done.
  - by apply emit_inv.
  - split; cbn [data pos state]; try done. intros _. by apply H2.
  - intros e He _. exists e. split; [by apply waiters_queued|apply same_request_refl].
  - intros r' Hr'. destruct (Hgr r' Hr') as (l1 & e & E1 & E2 & E3). exists l1, e. split_and!; [done|by apply holders_queued|apply E3..].
  - intros e He _. by exists e.
  - intros e He Ho. destruct (so_queued _ Hs _ _ e Hl He) as (t & r' & T1 & T2 & T3 & T4). rewrite Ho, Hi in T1. injection T1 as <-.
    exists r'. split_and!; [done|done|done|]. intros Hw. exfalso.
    destruct (so_waiters _ Hs _ _ e Hl Hw) as (t & r2 & (U1 & U2 & U3 & U4) & _ & U6). rewrite Ho, Hi in U1. injection U1 as <-.
    cbn in U6. rewrite Hp in U6. injection U6 as <-. apply (holder_not_waiter l x e Hinv Hx Hw). congruence.
  - intros r' Hr' Hne. split; [done|]. intros [_ E]. cbn in E. rewrite Hp in E. by injection E as ->.
Qed.

(** *** A request *)

Context (Hupgraded : thr_upgraded_concurrent_insert_lock = TL_WRITE \/
                     thr_upgraded_concurrent_insert_lock = TL_WRITE_LOW_PRIORITY).

Lemma effective_mono l t t' :
  is_write t -> is_write t' -> t <> TL_WRITE_DELAYED -> t' <> TL_WRITE_DELAYED -> num t <= num t' ->
  rank (effective thr_upgraded_concurrent_insert_lock l t) <= rank (effective thr_upgraded_concurrent_insert_lock l t').
Proof.
  intros [H1 H1'] [H2 H2'] Hd Hd' Hle. unfold effective.
  destruct (has_check_status l); cbn [negb]; rewrite ?andb_false_r, ?andb_true_r.
  - destruct t, t'; cbn in *; try lia; done.
  - destruct t, t'; cbn in *; try lia; try done; destruct Hupgraded as [-> | ->]; by vm_compute.
Qed.

Section OneRequest.
Context (s : system) (i : nat) (d : list request) (p : nat) (r : request) (l : THR_LOCK).
Context (Hs : sys_ok s) (Hi : threads s !! i = Some (mk_thread d p Locking)) (Hp : d !! p = Some r).
Context (Hl : locks s !! r_lock r = Some l).

(** What the thread has on the same lock was asked for before. *)
Lemma before_request r' : r' ∈ take p d -> r_lock r' = r_lock r ->
  num (r_type r) <= num (r_type r') /\ exists e, e ∈ holders l /\ address e = r_data r' /\ owner e = i /\ fit l (r_type r') e.
Proof.
  intros Hr E. pose proof (so_threads _ Hs _ _ Hi) as [Hv Hso _ _ _]. specialize (Hso ltac:(done)). cbn [data] in *.
  rewrite Forall_forall in Hv. split.
  - rewrite <- (take_drop p d) in Hso.
    assert (in_order lock_address r' r) as Ho.
    { apply (StronglySorted_app_1_elem_of _ _ _ _ _ Hso Hr). apply list_elem_of_lookup. exists 0%nat.
      rewrite lookup_drop, Nat.add_0_r. done. }
    apply key_order in Ho as [_ Hle]; [auto|done|apply valid_num, Hv|apply valid_num, Hv].
    + apply list_elem_of_lookup in Hr as [k [Hk _]%lookup_take_Some]. apply list_elem_of_lookup. by exists k.
    + apply list_elem_of_lookup. by exists p.
  - destruct (so_granted _ Hs i _ r' Hi Hr) as (l1 & e & E1 & E2). rewrite E, Hl in E1. injection E1 as <-. by exists e.
Qed.

Lemma my_instance e : e ∈ queued l -> owner e = i -> exists r', r' ∈ take p d /\ r_lock r' = r_lock r /\ r_data r' = address e /\
  e ∈ holders l /\ fit l (r_type r') e /\ num (r_type r) <= num (r_type r').
Proof.
  intros He Ho. destruct (so_queued _ Hs _ _ e Hl He) as (t & r' & T1 & T2 & T3 & T4). rewrite Ho, Hi in T1. injection T1 as <-.
  change (claims (mk_thread d p Locking)) with (take p d) in T2. destruct (before_request r' T2 T3) as (Hle & e' & E1 & E2 & E3 & E4).
  assert (e' = e) as -> by (apply (queued_same l); [by apply (so_locks _ Hs _ _ Hl)|by apply holders_queued|done|congruence]).
  by exists r'.
Qed.

Lemma request_sorted : is_write (r_type r) -> r_type r <> TL_WRITE_DELAYED ->
  sorted_request l (mk_data (r_data r) i false (effective thr_upgraded_concurrent_insert_lock l (r_type r))).
Proof.
  intros Hw Hd w Hin Ho. cbn in Ho. pose proof (inv_ok _ _ (so_locks _ Hs _ _ Hl)) as Hok.
  assert (w ∈ queued l) as Hq by (apply holders_queued; unfold holders; rewrite elem_of_app; tauto).
  destruct (my_instance w Hq Ho) as (r' & _ & _ & _ & _ & Hf & Hle).
  destruct Hf as [[Hr Ht]|(Hw' & Hd' & Hww & Hwd & Hk)].
  - apply in_write in Hin as [_ [Hin _]]; [|done]. rewrite Ht in Hin. unfold is_read in Hr. lia.
  - split; [|done]. unfold not_stronger. cbn [type]. etransitivity; [|exact Hk]. by apply effective_mono.
Qed.

(** The instance is in no queue yet. *)
Context (Hloose : exists x, x ∈ loose l /\ address x = r_data r).

Lemma request_fresh r' : r' ∈ take p d -> r_lock r' = r_lock r -> r_data r' <> r_data r.
Proof.
  intros Hr E Ha. destruct (before_request r' Hr E) as (_ & e & He & Hae & _). destruct Hloose as (x & Hx & Hxa).
  pose proof (ok_nodup _ (inv_ok _ _ (so_locks _ Hs _ _ Hl))) as Hn. rewrite queued_all, map_app in Hn.
  apply NoDup_app in Hn as (_ & Hn & _). apply (Hn (r_data r)); apply list_elem_of_fmap.
  - exists e. split; [congruence|]. by apply holders_queued.
  - by exists x.
Qed.

Lemma request_distinct : NoDup (map (fun r => (r_lock r, r_data r)) (take p d ++ [r])).
Proof.
  pose proof (so_threads _ Hs _ _ Hi) as [_ _ _ Hd _]. change (claims (mk_thread d p Locking)) with (take p d) in Hd.
  rewrite map_app. apply NoDup_app. split_and!; [done| |apply NoDup_singleton].
  intros x (r' & -> & Hr')%list_elem_of_fmap Hx. apply list_elem_of_singleton in Hx. injection Hx as E1 E2.
  by apply (request_fresh r').
Qed.

Lemma after_claims res : claims (after_request d p res) =
  match res with Some THR_LOCK_SUCCESS | None => take p d ++ [r] | Some _ => take p d end.
Proof.
  destruct res as [[]|]; unfold claims; cbn; rewrite ?take_take, ?Nat.min_id; try done; by apply take_S_r.
Qed.

Lemma after_ok check_status res l' :
  thr_lock check_status thr_upgraded_concurrent_insert_lock l (r_data r) i (r_type r) = (res, l') ->
  thread_ok (after_request d p res).
Proof.
  intros E. pose proof (so_threads _ Hs _ _ Hi) as [Hv Hso _ Hd _].
  assert (NoDup (map (fun r => (r_lock r, r_data r)) (claims (after_request d p res)))) as Hnd.
  { rewrite after_claims. pose proof request_distinct. by destruct res as [[]|]. }
  assert (length (take p d) = p) as Hlen by (rewrite length_take; apply lookup_lt_Some in Hp; lia).
  assert (valid_request r) as Hvr by (rewrite Forall_forall in Hv; apply Hv, list_elem_of_lookup; by exists p).
  assert (Forall valid_request (take p d)) as Hvt by (by apply Forall_take).
  destruct res as [[]|]; split; cbn [after_request data pos state] in *; try done; try (intros _; by apply Hso).
  intros _. exists r. split; [done|]. apply Forall_forall. intros r' Hr' Elk.
  destruct (before_request r' Hr' Elk) as (Hle & h & Hh & _ & Ho & Hf).
  by apply (own_grant thr_upgraded_concurrent_insert_lock check_status l (r_data r) i (r_type r) h (r_type r') None l'
    (inv_ok _ _ (so_locks _ Hs _ _ Hl)) Hh Ho Hf Hle Hvr E).
Qed.

Lemma request_change check_status res l' :
  thr_lock check_status thr_upgraded_concurrent_insert_lock l (r_data r) i (r_type r) = (res, l') ->
  lock_change (r_lock r) l l' i (mk_thread d p Locking) (after_request d p res) (locks s).
Proof.
  intros E. pose proof (so_threads _ Hs _ _ Hi) as [Hv _ _ _ _]. pose proof (so_locks _ Hs _ _ Hl) as Hinv.
  assert (valid_request r) as Hvr by (rewrite Forall_forall in Hv; apply Hv, list_elem_of_lookup; by exists p).
  assert (inv l') as Hinv'.
  { change l' with (snd (res, l')). rewrite <- E. apply thr_lock_inv; [done|done|]. split; [done|].
    destruct Hvr as [?|[? ?]]; [by left|right]. split; [done|]. intros _. by apply request_sorted. }
  pose proof (outcome_adds _ Hupgraded _ _ _ _ _ _ (thr_lock_outcome _ Hupgraded _ _ _ _ _ _ _ Hvr E)) as [A1 A2 A3 A4 A5 A6 A7].
  change (holders (take_loose l (r_data r))) with (holders l) in *.
  change (waiters (take_loose l (r_data r))) with (waiters l) in *.
  change (has_check_status (take_loose l (r_data r))) with (has_check_status l) in *.
  pose proof (lookup_lt_Some _ _ _ Hl) as Hml.
  assert (forall r', r' ∈ take p d -> in_queue holders (<[r_lock r := l']> (locks s)) i r') as Hold.
  { intros r' Hr'. apply (in_queue_keep _ _ _ l); [done|done| |by apply (so_granted _ Hs i _ r' Hi)].
    intros _ e He _ _. exists e. split; [by apply A1|apply same_request_refl]. }
  assert (forall q r', in_queue holders q i r' -> in_queue queued q i r') as Hup.
  { intros q r' (l1 & e & B1 & B2 & B3). exists l1, e. split_and!; [done|by apply holders_queued|apply B3..]. }
  assert (forall e, fit (take_loose l (r_data r)) (r_type r) e -> fit l' (r_type r) e) as Hfit.
  { intros e Hf. apply (fits_same _ (take_loose l (r_data r)) l' _ e e); [done|apply same_request_refl|done]. }
  assert (res = Some THR_LOCK_SUCCESS -> in_queue holders (<[r_lock r := l']> (locks s)) i r) as Hnew.
  { intros ->. destruct (A5 eq_refl) as (e & B1 & B2 & B3 & B4). exists l', e. rewrite list_lookup_insert_eq by done. split_and!; auto. }
  assert (res = None -> in_queue queued (<[r_lock r := l']> (locks s)) i r) as Hwait.
  { intros ->. destruct (A6 eq_refl) as (e & B1 & B2 & B3 & B4). exists l', e. rewrite list_lookup_insert_eq by done.
    split_and!; auto. by apply waiters_queued. }
  split; try done.
  - by apply (after_ok check_status res l').
  - intros e He _. by apply A1.
  - intros e He _. exists e. split; [by apply waiters_queued, A2|apply same_request_refl].
  - intros r'. rewrite after_claims. destruct res as [[]|]; try by intros ?; apply Hup, Hold.
    + intros [? | ->%list_elem_of_singleton]%elem_of_app; apply Hup; [by apply Hold|by apply Hnew].
    + intros [? | ->%list_elem_of_singleton]%elem_of_app; [by apply Hup, Hold|by apply Hwait].
  - intros r' Hr'. destruct res as [[]|]; cbn [after_request] in Hr'; unfold granted in Hr'; cbn [data pos] in Hr';
      rewrite ?take_take, ?Nat.min_id in Hr'; try by apply Hold.
    rewrite (take_S_r _ _ _ Hp) in Hr'. apply elem_of_app in Hr' as [?|Hr']; [by apply Hold|].
    apply list_elem_of_singleton in Hr' as ->. by apply Hnew.
  - intros e' He' Ho. exists e'. unfold queued in He' |- *. rewrite elem_of_app in He' |- *. split_and!; try done.
    + destruct He' as [H|H]; [destruct (A3 _ H) as [?|(_ & _ & ?)]|destruct (A4 _ H) as [?|(_ & _ & ?)]]; tauto.
    + intros H. destruct (A4 _ H) as [?|(_ & _ & ?)]; [done|congruence].
  - intros e' He' Ho. assert (forall x, x ∈ holders l' -> x ∈ waiters l' -> False) as Hx
      by (intros x X1 X2; by apply (holder_not_waiter l' x x)).
    unfold queued in He'. apply elem_of_app in He' as [H|H].
    + destruct (A3 _ H) as [Hh|(-> & Ha & _)].
      * destruct (my_instance e') as (r' & R1 & R2 & R3 & _); [by apply holders_queued|done|]. exists r'. rewrite after_claims.
        split_and!; [|done|done|intros Hw; by destruct (Hx e')]. destruct res as [[]|]; rewrite ?elem_of_app; tauto.
      * exists r. rewrite after_claims, elem_of_app. split_and!; [right; left|done|done|intros Hw; by destruct (Hx e')].
    + destruct (A4 _ H) as [Hw|(-> & Ha & _)].
      * destruct (my_instance e') as (r' & _ & _ & _ & Hh & _); [by apply waiters_queued|done|].
        by destruct (holder_not_waiter l e' e').
      * exists r. rewrite after_claims, elem_of_app. split_and!; [right; left|done|done|done].
  - intros r' Hr' Hne. change (claims (mk_thread d p Locking)) with (take p d) in Hr'. split; [|by intros [? _]].
    rewrite after_claims. destruct res as [[]|]; rewrite ?elem_of_app; tauto.
Qed.
End OneRequest.

Lemma sys_step_ok s s' : sys_ok s -> sys_step s s' -> sys_ok s'.
Proof.
  intros Hs Hst. destruct Hst as [m l a Hm Ha Hsm|i q sorted Hi Hv Hq|c i d p r l res l' Hi Hp Hl Hlo E|c i d p r l x l' Hi Hp Hl Hx Hxa E
    |c t i d p r l x res l' Hi Hp Hl Hx Hxa E|i d Hi|c i r d p l l' Hi Hl E|i p Hi].
  - by apply open_ok.
  - destruct (sort_locks_spec lock_address q) as (q' & E & Hperm & Hsort). rewrite Hq in E. injection E as <-.
    apply (set_thread_ok s i idle); try done. split; cbn [data pos state]; try done; [by rewrite Hperm|constructor].
  - eapply set_both_ok; [done|done|done|]. by eapply request_change.
  - by eapply granted_ok.
  - by eapply give_up_ok.
  - apply (set_thread_ok s i (mk_thread d (length d) Locking)); try done.
    pose proof (so_threads _ Hs _ _ Hi) as [H1 H2 H3 H4 H5]. by split.
  - by eapply unlock_ok.
  - apply (set_thread_ok s i (mk_thread [] p Releasing)); try done; unfold claims, granted; cbn; rewrite ?take_nil; try done.
    split; cbn; try done; constructor.
Qed.

Lemma sys_reachable_ok s : sys_reachable s -> sys_ok s.
Proof.
  induction 1 as [checks n|s s' _ IH Hst]; [|by apply (sys_step_ok s)].
  assert (forall i th, replicate n idle !! i = Some th -> th = idle) as Hidle by (intros i th [? _]%lookup_replicate; done).
  assert (forall m l, map thr_lock_init checks !! m = Some l -> exists c, l = thr_lock_init c) as Hinit.
  { intros m l H. change (map thr_lock_init checks) with (thr_lock_init <$> checks) in H. rewrite list_lookup_fmap in H.
    destruct (checks !! m) as [c|]; [|done]. injection H as <-. by exists c. }
  split; cbn [locks threads].
  - intros m l H. destruct (Hinit m l H) as [c ->]. apply (reachable_inv _ _ Hupgraded), reach_init.
  - intros i th H. rewrite (Hidle i th H). split; cbn; try done; constructor.
  - intros i th r H Hr. rewrite (Hidle i th H) in Hr. by apply not_elem_of_nil in Hr.
  - intros i th r H Hr. rewrite (Hidle i th H) in Hr. by apply not_elem_of_nil in Hr.
  - intros m l e H He. destruct (Hinit m l H) as [c ->]. by apply not_elem_of_nil in He.
  - intros m l e H He. destruct (Hinit m l H) as [c ->]. by apply not_elem_of_nil in He.
Qed.

(** C1.  Threads that take all their locks with thr_multi_lock, which sorts them,
    and release them with thr_multi_unlock do not run into a deadlock.  In every
    state that any number of threads reaches by interleaving their calls no
    thread waits for itself, directly or through others, and a thread that waits
    for a lock waits, directly or through others, for a thread that has a lock
    (it holds it, or was given it and has not left the wait yet) and does not
    wait.  Requests of the type TL_WRITE_DELAYED, with which thr_lock returns at
    once, are left out; the locks are separate objects of at least 16 bytes. *)
Theorem no_deadlock s : sys_reachable s ->
  (forall i, ~ tc (waits_for s) i i) /\
  (forall i, blocked s i -> exists j, tc (waits_for s) i j /\ holds s j /\ ~ blocked s j).
Proof.
  intros Hr%sys_reachable_ok. split; [intros i; by apply no_circle|intros i; by apply blocked_running].
Qed.
End System.

(** ** An example

    Thread 0 holds the only lock and thread 1 waits for it. *)

Definition ex_address (m : nat) : Z := 1000 * Z.of_nat m.
Definition ex_open : THR_LOCK := thr_lock_data_init (thr_lock_data_init (thr_lock_init false) 1) 2.
Definition ex_wants (a : nat) : list request := [mk_request 0 a TL_WRITE].
Definition ex_first : THR_LOCK := snd (thr_lock no_check TL_WRITE ex_open 1 0 TL_WRITE).
Definition ex_second : THR_LOCK := snd (thr_lock no_check TL_WRITE ex_first 2 1 TL_WRITE).
Definition ex_system : system :=
  mk_system [ex_second] [mk_thread (ex_wants 1) 1 Locking; mk_thread (ex_wants 2) 0 Waiting].

Lemma ex_wants_valid a : Forall valid_request (ex_wants a).
Proof. constructor; [|constructor]. right. by split. Qed.

Lemma sys_next_eq lock_address max upgraded s s' s2 :
  sys_reachable lock_address max upgraded s -> sys_step lock_address max upgraded s s' -> s' = s2 ->
  sys_reachable lock_address max upgraded s2.
Proof. intros H1 H2 <-. by apply (sys_next _ _ _ s). Qed.

Lemma ex_begin s i a : threads s !! i = Some idle ->
  sys_step ex_address default_max TL_WRITE s (set_thread s i (mk_thread (ex_wants a) 0 Locking)).
Proof. intros H. by apply (sys_begin _ _ _ s i (ex_wants a)); [|apply ex_wants_valid|]. Qed.

Lemma ex_system_reachable : sys_reachable ex_address default_max TL_WRITE ex_system.
Proof.
  pose (t1 := mk_thread (ex_wants 1) 1 Locking).
  eapply (sys_next_eq _ _ _ (mk_system [ex_first] [t1; mk_thread (ex_wants 2) 0 Locking])).
  2:{ apply (sys_request _ _ _ _ no_check 1 (ex_wants 2) 0 (mk_request 0 2 TL_WRITE) ex_first None ex_second); try done.
      exists (mk_data 2 0 false TL_UNLOCK). split; [left|done]. }
  2: reflexivity.
  eapply (sys_next_eq _ _ _ (mk_system [ex_first] [t1; idle])); [|by apply (ex_begin _ 1 2)|reflexivity].
  eapply (sys_next_eq _ _ _ (mk_system [ex_open] [mk_thread (ex_wants 1) 0 Locking; idle])).
  2:{ apply (sys_request _ _ _ _ no_check 0 (ex_wants 1) 0 (mk_request 0 1 TL_WRITE) ex_open (Some THR_LOCK_SUCCESS) ex_first); try done.
      exists (mk_data 1 0 false TL_UNLOCK). split; [right; left|done]. }
  2: reflexivity.
  eapply (sys_next_eq _ _ _ (mk_system [ex_open] [idle; idle])); [|by apply (ex_begin _ 0 1)|reflexivity].
  eapply (sys_next_eq _ _ _ (mk_system [thr_lock_data_init (thr_lock_init false) 1] [idle; idle])).
  2:{ apply (sys_open _ _ _ _ 0 (thr_lock_data_init (thr_lock_init false) 1) 2); [done|apply (bool_decide_unpack _)|]; done. }
  2: reflexivity.
  eapply (sys_next_eq _ _ _ (mk_system [thr_lock_init false] [idle; idle])).
  2:{ apply (sys_open _ _ _ _ 0 (thr_lock_init false) 1); [done|apply (bool_decide_unpack _)|]; done. }
  2: reflexivity.
  apply (sys_init _ _ _ [false] 2).
Qed.

Lemma no_deadlock_witness :
  (forall i, ~ tc (waits_for ex_system) i i) /\
  exists j, tc (waits_for ex_system) 1%nat j /\ holds ex_system j /\ ~ blocked ex_system j.
Proof.
  destruct (no_deadlock ex_address default_max TL_WRITE) with (s := ex_system) as [H1 H2].
  - intros i j Hij. unfold ex_address. lia.
  - left. reflexivity.
  - exact ex_system_reachable.
  - split; [exact H1|]. apply H2.
    exists (ex_wants 2), 0%nat, (mk_request 0 2 TL_WRITE), ex_second, (mk_data 2 1 true TL_WRITE).
    split; [reflexivity|]. split; [reflexivity|]. split; [reflexivity|]. split; [left|reflexivity].
Defined.
