(* ===== verification/ThrMerge.v ===== *)
(** * Table locks: thr_lock_merge_status

    Engines such as MyISAM keep the length of the data file and the number of
    rows in a status of each instance of a table.  The instances of one table
    that a statement has locked must share it: each gets the status of the last
    write lock of the table, or of the first read lock.  The status of the
    request number [k] of the array is the element [k] of a list, and the engines
    that have a copy_status function are a parameter. *)

From stdpp Require Import prelude list list_numbers sorting.
From Stdlib Require Import ZArith Lia ZifyNat.
From S2P Require Import Prelude ThrLock ThrMulti.

Open Scope Z_scope.

Section Merge.
Context {A : Type} (has_copy_status : nat -> bool) (data : list request).

Definition is_read_lock (r : request) : bool := type_le (r_type r) TL_READ_NO_INSERT.

(** The loop that goes back over the read locks of the table. *)
Fixpoint first_read (pos : nat) : nat :=
  match pos with
  | O => O
  | S p =>
    match data !! pos, data !! p with
    | Some r, Some r' => if is_read_lock r && (r_lock r' =? r_lock r)%nat then first_read p else pos
    | _, _ => pos
    end
  end.

(** copy_status(to, from) *)
Definition copy_status (status : list A) (to from : nat) : list A :=
  match status !! from with Some x => <[to := x]> status | None => status end.

(** The status of [from] to the [n] elements from [to] on. *)
Fixpoint copy_range (status : list A) (from to n : nat) : list A :=
  match n with
  | O => status
  | S n => copy_range (copy_status status to from) from (S to) n
  end.

(** The main loop; [last] is the index of last_lock. *)
Fixpoint merge_loop (fuel : nat) (status : list A) (last pos : nat) : option (list A) :=
  match pos with
  | O => Some status
  | S pos =>
    match fuel with
    | O => None
    | S fuel =>
      l ← data !! last;
      r ← data !! pos;
      if (r_lock l =? r_lock r)%nat && has_copy_status (r_lock l) then
        if is_read_lock l then
          let pos := first_read pos in
          merge_loop fuel (copy_range status pos (S pos) (last - pos)) pos pos
        else merge_loop fuel (copy_status status pos last) last pos
      else merge_loop fuel status pos pos
    end
  end.

Definition thr_lock_merge_status (status : list A) : option (list A) :=
  let count := length data in
  if (1 <? count)%nat then merge_loop count status (count - 1) (count - 1) else Some status.

Definition lk (k : nat) : option nat := r_lock <$> data !! k.
Definition rd (k : nat) : bool := match data !! k with Some r => is_read_lock r | None => false end.

Lemma lookup_data k : (k < length data)%nat -> exists r, data !! k = Some r /\ lk k = Some (r_lock r) /\ rd k = is_read_lock r.
Proof. intros H. destruct (lookup_lt_is_Some_2 data k H) as [r Hr]. exists r. unfold lk, rd. by rewrite Hr. Qed.

Lemma first_read_spec pos : (pos < length data)%nat ->
  (first_read pos <= pos)%nat /\
  (forall k, (first_read pos <= k <= pos)%nat -> lk k = lk pos) /\
  (forall k, (first_read pos < k <= pos)%nat -> rd k = true) /\
  (rd (first_read pos) = true -> first_read pos = O \/ lk (first_read pos - 1) <> lk (first_read pos)).
Proof.
  induction pos as [|p IH]; intros Hlt; cbn [first_read].
  { split_and!; [done| |lia|by left]. intros k Hk. by assert (k = O) as -> by lia. }
  destruct (lookup_data (S p) Hlt) as (r & Hr & Er & Dr). destruct (lookup_data p) as (r' & Hr' & Er' & Dr'); [lia|].
  rewrite Hr, Hr'. destruct (is_read_lock r && _) eqn:E.
  - apply andb_true_iff in E as [E1 E]. b2p. destruct IH as (H1 & H2 & H3 & H4); [lia|].
    assert (lk p = lk (S p)) as Ep by congruence. split_and!; [lia| | |done].
    + intros k Hk. destruct (decide (k = S p)) as [->|]; [done|]. rewrite <- Ep. apply H2. lia.
    + intros k Hk. destruct (decide (k = S p)) as [->|]; [congruence|]. apply H3. lia.
  - split_and!; [lia| |lia|].
    + intros k Hk. by assert (k = S p) as -> by lia.
    + rewrite Dr. intros R. rewrite R in E. cbn [andb] in E. b2p. right. rewrite Nat.sub_1_r. cbn [Nat.pred]. congruence.
Qed.

Lemma copy_status_lookup (status : list A) to from k : (to < length status)%nat -> (from < length status)%nat ->
  copy_status status to from !! k = (if decide (k = to) then status !! from else status !! k) /\
  length (copy_status status to from) = length status.
Proof.
  intros Ht Hf. unfold copy_status. destruct (lookup_lt_is_Some_2 status from Hf) as [x Hx]. rewrite Hx, length_insert. split; [|done].
  case_decide; [subst; by rewrite list_lookup_insert_eq|by rewrite list_lookup_insert_ne].
Qed.

Lemma copy_range_lookup n : forall (status : list A) from to k, (to + n <= length status)%nat -> (from < to)%nat ->
  copy_range status from to n !! k =
    (if decide (to <= k < to + n)%nat then status !! from else status !! k) /\
  length (copy_range status from to n) = length status.
Proof.
  induction n as [|n IH]; intros status from to k Ht Hf; cbn [copy_range].
  { split; [|done]. case_decide; [lia|done]. }
  destruct (copy_status_lookup status to from k) as [E1 E2]; [lia|lia|].
  destruct (copy_status_lookup status to from from) as [E3 _]; [lia|lia|].
  destruct (IH (copy_status status to from) from (S to) k) as [E4 E5]; [lia|lia|]. rewrite E4, E5, E1, E3, E2. split; [|done].
  repeat case_decide; try lia; done.
Qed.

(** The instance whose status the instance [i] gets, among those from [pos] on:
    the last write lock of its table, or the first read lock if there is none. *)
Definition status_from (pos i c : nat) : Prop :=
  (pos <= c < length data)%nat /\ lk c = lk i /\
  ((rd c = false /\ forall k, (c < k < length data)%nat -> lk k = lk i -> rd k = true) \/
   ((forall k, (pos <= k < length data)%nat -> lk k = lk i -> rd k = true) /\
    (forall k, (pos <= k < c)%nat -> lk k <> lk i))).

Definition shared (k : nat) : bool := match lk k with Some l => has_copy_status l | None => false end.

Definition merged (orig status : list A) (pos : nat) : Prop :=
  length status = length data /\
  (forall k, (k < pos)%nat -> status !! k = orig !! k) /\
  (forall i, (pos <= i < length data)%nat ->
     if shared i then exists c, status_from pos i c /\ status !! i = orig !! c else status !! i = orig !! i).

Definition group_ok (last pos : nat) : Prop :=
  (pos <= last < length data)%nat /\ lk last = lk pos /\
  (shared last = true -> rd last = true -> last = pos /\
     ((forall k, (last < k < length data)%nat -> lk k <> lk last) \/ pos = O \/ lk (pos - 1) <> lk pos)).

Hypothesis grouped : forall i k j, (i <= k <= j)%nat -> (j < length data)%nat -> lk i = lk j -> lk k = lk i.

Lemma status_from_other pos pos' i c : (pos' <= pos <= i)%nat -> (i < length data)%nat -> (forall k, (pos' <= k < pos)%nat -> lk k <> lk i) ->
  status_from pos i c -> status_from pos' i c.
Proof.
  intros Hp Hi Hne (Hc & El & H). split; [lia|]. split; [done|]. destruct H as [H|[H1 H2]]; [by left|]. right. split.
  - intros k Hk E. apply H1; [|done]. destruct (decide (pos <= k)%nat); [lia|]. exfalso. apply (Hne k); [lia|done].
  - intros k Hk E. destruct (decide (pos <= k)%nat); [by apply (H2 k); [lia|]|]. apply (Hne k); [lia|done].
Qed.

Lemma merge_other orig status last p : merged orig status (S p) -> group_ok last (S p) ->
  lk last <> lk p \/ shared p = false -> merged orig status p /\ group_ok p p.
Proof.
  intros (Hlen & Hlow & Hhigh) (Hl & El & Hr) Hcase.
  assert (forall k, shared p = true -> (p < k < length data)%nat -> lk k <> lk p) as Hnew.
  { intros k Hs Hk E. destruct Hcase as [H|H]; [|congruence]. apply H. rewrite El. apply (grouped p (S p) k); [lia|lia|done]. }
  split; [|split; [lia|split; [done|]; intros Hs _; split; [done|]; left; auto]].
  split; [done|]. split; [intros k Hk; apply Hlow; lia|]. intros i Hi. destruct (decide (i = p)) as [->|Hn].
  - destruct (shared p) eqn:Hs; [|apply Hlow; lia]. exists p. split; [|apply Hlow; lia]. split; [lia|]. split; [done|].
    destruct (rd p) eqn:Rp; [right|left].
    + split; [|lia]. intros k Hk E. destruct (decide (k = p)) as [->|]; [done|]. exfalso. apply (Hnew k); [done|lia|done].
    + split; [done|]. intros k Hk E. exfalso. by apply (Hnew k).
  - specialize (Hhigh i ltac:(lia)). destruct (shared i) eqn:Hs; [|done]. destruct Hhigh as (c & Hc & Ec). exists c. split; [|done].
    apply (status_from_other (S p)); [lia|lia| |done]. intros k Hk E. assert (k = p) as -> by lia.
    apply (Hnew i); [|lia|done]. unfold shared in *. by rewrite E.
Qed.

Lemma merge_reads orig status last p : merged orig status (S p) -> group_ok last (S p) ->
  lk last = lk p -> shared p = true -> rd last = true ->
  let q := first_read p in
  merged orig (copy_range status q (S q) (last - q)) q /\ group_ok q q.
Proof.
  intros (Hlen & Hlow & Hhigh) (Hl & El & Hr) E Hs Rl q.
  destruct (first_read_spec p) as (F1 & F2 & F3 & F4); [lia|]. fold q in F1, F2, F3, F4.
  destruct Hr as [-> Hend]; [by unfold shared; rewrite E|done|].
  destruct Hend as [Hend|[Hend|Hend]]; [|lia|]. 2: { rewrite Nat.sub_1_r in Hend. cbn [Nat.pred] in Hend. congruence. }
  assert (forall k, (q <= k <= S p)%nat -> lk k = lk p) as Hin.
  { intros k Hk. destruct (decide (k = S p)) as [->|]; [done|]. apply F2. lia. }
  assert (forall k, (q < k < length data)%nat -> lk k = lk p -> rd k = true) as Hrd.
  { intros k Hk Ek. destruct (decide (k = S p)) as [->|]; [done|]. destruct (decide (k <= p)%nat); [apply F3; lia|].
    exfalso. apply (Hend k); [lia|congruence]. }
  split.
  - split; [destruct (copy_range_lookup (S p - q) status q (S q) O) as [_ ->]; [lia|lia|done]|]. split.
    { intros k Hk. destruct (copy_range_lookup (S p - q) status q (S q) k) as [-> _]; [lia|lia|]. case_decide; [lia|]. apply Hlow. lia. }
    intros i Hi. destruct (copy_range_lookup (S p - q) status q (S q) i) as [-> _]; [lia|lia|].
    destruct (decide (i <= S p)%nat) as [Hip|Hip].
    + assert (shared i = true) as -> by (unfold shared in *; rewrite Hin by lia; done). exists q. split.
      * split; [lia|]. rewrite (Hin i) by lia. split; [by apply F2; lia|]. destruct (rd q) eqn:Rq; [right|left]; [|by split].
        split; [|lia]. intros k Hk Ek. destruct (decide (k = q)) as [->|]; [done|]. apply Hrd; [lia|done].
      * case_decide; [apply Hlow; lia|]. assert (i = q) as -> by lia. apply Hlow. lia.
    + case_decide; [lia|]. specialize (Hhigh i ltac:(lia)). destruct (shared i); [|done]. destruct Hhigh as (c & Hc & Ec). exists c.
      split; [|done]. apply (status_from_other (S p)); [lia|lia| |done]. intros k Hk Ek. apply (Hend i); [lia|]. rewrite <- Ek, (Hin k), (Hin (S p)) by lia. done.
  - split; [lia|]. split; [done|]. intros _ Rq. split; [done|]. right. auto.
Qed.

Lemma merge_write orig status last p : merged orig status (S p) -> group_ok last (S p) ->
  lk last = lk p -> shared p = true -> rd last = false ->
  merged orig (copy_status status p last) p /\ group_ok last p.
Proof.
  intros (Hlen & Hlow & Hhigh) (Hl & El & Hr) E Hs Rl. split; [|split; [lia|]; split; [done|]; intros _ R; congruence].
  assert (forall i c, lk i = lk p -> status_from (S p) i c -> status_from p i c) as Hkeep.
  { intros i c Ei (Hc & Ec & H). split; [lia|]. split; [done|]. destruct H as [H|[H1 H2]]; [by left|].
    exfalso. rewrite (H1 last) in Rl; [done|lia|congruence]. }
  split; [destruct (copy_status_lookup status p last O) as [_ ->]; [lia|lia|done]|]. split.
  { intros k Hk. destruct (copy_status_lookup status p last k) as [-> _]; [lia|lia|]. case_decide; [lia|]. apply Hlow. lia. }
  intros i Hi. destruct (copy_status_lookup status p last i) as [-> _]; [lia|lia|]. case_decide as Hd.
  - subst i. rewrite Hs. specialize (Hhigh last ltac:(lia)). assert (shared last = true) as Hsl by (unfold shared in *; by rewrite E).
    rewrite Hsl in Hhigh. destruct Hhigh as (c & Hc & Ec). exists c. split; [|done].
    destruct (Hkeep last c E Hc) as (H1 & H2 & H3). split; [done|]. rewrite <- E. done.
  - specialize (Hhigh i ltac:(lia)). destruct (shared i) eqn:Hsi; [|done]. destruct Hhigh as (c & Hc & Ec). exists c. split; [|done].
    destruct (decide (lk i = lk p)) as [Ei|Ei]; [by apply Hkeep|]. apply (status_from_other (S p)); [lia|lia| |done].
    intros k Hk Ek. assert (k = p) as -> by lia. congruence.
Qed.

Lemma merge_loop_correct orig fuel : forall status last pos, (pos <= fuel)%nat -> merged orig status pos -> group_ok last pos ->
  exists status', merge_loop fuel status last pos = Some status' /\ merged orig status' 0.
Proof.
  induction fuel as [|fuel IH]; intros status last pos Hf Hm Hg.
  { assert (pos = O) as -> by lia. by exists status. }
  destruct pos as [|p]; [by exists status|]. cbn [merge_loop]. destruct Hg as [Hr Hg'].
  destruct (lookup_data last) as (l & Hl & El & Dl); [lia|]. destruct (lookup_data p) as (r & Hp & Ep & Dp); [lia|].
  rewrite Hl, Hp. cbn [mbind option_bind].
  assert (group_ok last (S p)) as Hg by done.
  destruct (_ && _) eqn:Ec.
  - apply andb_true_iff in Ec as [E Hs]. b2p. assert (lk last = lk p) as Elp by congruence.
    assert (shared p = true) as Hsp by (unfold shared; rewrite Ep; congruence).
    destruct (is_read_lock l) eqn:Rl.
    + destruct (merge_reads orig status last p Hm Hg Elp Hsp ltac:(congruence)) as [Hm' Hg1].
      destruct (first_read_spec p) as [F1 _]; [lia|]. apply IH; [lia|done|done].
    + destruct (merge_write orig status last p Hm Hg Elp Hsp ltac:(congruence)) as [Hm' Hg1]. apply IH; [lia|done|done].
  - destruct (merge_other orig status last p Hm Hg) as [Hm' Hg1].
    + apply andb_false_iff in Ec as [E|E]; b2p; [left; congruence|].
      destruct (decide (lk last = lk p)) as [Elp|]; [right|by left]. unfold shared. rewrite <- Elp, El. done.
    + apply IH; [lia|done|done].
Qed.
End Merge.

Lemma StronglySorted_lookup {A} (R : relation A) (l : list A) a b x y :
  StronglySorted R l -> (a < b)%nat -> l !! a = Some x -> l !! b = Some y -> R x y.
Proof.
  intros Hs Hab Ha Hb. rewrite <- (take_drop (S a) l) in Hs. apply (StronglySorted_app_1_elem_of R _ _ x y Hs).
  - apply list_elem_of_lookup. exists a. rewrite lookup_take_lt; [done|lia].
  - apply list_elem_of_lookup. exists (b - S a)%nat. rewrite lookup_drop. by replace (S a + (b - S a))%nat with b by lia.
Qed.

Lemma sorted_grouped (lock_address : nat -> Z) data : (forall i j, (i < j)%nat -> lock_address i + 16 <= lock_address j) ->
  Forall (fun r => 0 <= num (r_type r)) data -> StronglySorted (in_order lock_address) data ->
  forall i k j, (i <= k <= j)%nat -> (j < length data)%nat -> lk data i = lk data j -> lk data k = lk data i.
Proof.
  intros Hgap Ht Hs i k j Hk Hj E.
  destruct (lookup_data data i) as (ri & Hi & Ei & _); [lia|]. destruct (lookup_data data k) as (rk & Hrk & Ek & _); [lia|].
  destruct (lookup_data data j) as (rj & Hrj & Ej & _); [lia|].
  assert (forall a b ra rb, (a <= b)%nat -> data !! a = Some ra -> data !! b = Some rb -> (r_lock ra <= r_lock rb)%nat) as Hle.
  { intros a b ra rb Hab Ha Hb. destruct (decide (a = b)) as [->|]; [by replace ra with rb by congruence|].
    apply (key_order lock_address Hgap ra rb).
    - by apply (Forall_lookup_1 _ _ _ _ Ht Ha).
    - by apply (Forall_lookup_1 _ _ _ _ Ht Hb).
    - apply (StronglySorted_lookup _ data a b); [done|lia|done|done]. }
  pose proof (Hle i k ri rk ltac:(lia) Hi Hrk). pose proof (Hle k j rk rj ltac:(lia) Hrk Hrj).
  rewrite Ei, Ej in E. injection E as E. rewrite Ek, Ei. f_equal. lia.
Qed.

(** thr_lock_merge_status, on requests that sort_locks has ordered: every
    instance of a table whose engine shares its status gets the status that the
    last write lock of the table had, or the first read lock if the table has
    no write lock; the others keep theirs. *)
Theorem merge_status_correct {A} (has_copy_status : nat -> bool) (lock_address : nat -> Z) (reqs data : list request) (status : list A) :
  (forall i j, (i < j)%nat -> lock_address i + 16 <= lock_address j) ->
  Forall (fun r => 0 <= num (r_type r)) reqs ->
  sort_locks lock_address reqs = Some data ->
  length status = length data ->
  exists status', thr_lock_merge_status has_copy_status data status = Some status' /\
    length status' = length status /\
    forall i, (i < length data)%nat ->
      if shared has_copy_status data i then exists c, status_from data 0 i c /\ status' !! i = status !! c
      else status' !! i = status !! i.
Proof.
  intros Hgap Ht Hsort Hlen. destruct (sort_locks_spec lock_address reqs) as (data' & Hsort' & Hperm & Hs).
  rewrite Hsort in Hsort'. injection Hsort' as <-.
  assert (Forall (fun r => 0 <= num (r_type r)) data) as Ht' by by rewrite Hperm.
  pose proof (sorted_grouped lock_address data Hgap Ht' Hs) as Hg. unfold thr_lock_merge_status.
  destruct data as [|x data0] eqn:Ed; [by exists status; split_and!; [..|intros i Hi; cbn in Hi; lia]|]. rewrite <- Ed in *.
  assert (0 < length data)%nat as Hpos by (rewrite Ed; cbn; lia). clear Ed x data0.
  set (n := length data) in *.
  assert (merged has_copy_status data status status (n - 1)) as Hm.
  { split; [done|]. split; [done|]. intros i Hi. assert (i = (n - 1)%nat) as -> by lia.
    destruct (shared _ _ _); [|done]. exists (n - 1)%nat. split; [|done]. split; [lia|]. split; [done|].
    destruct (rd data (n - 1)) eqn:R; [right|left]; (split; [|lia]); [|done]. intros k Hk _. by assert (k = (n - 1)%nat) as -> by lia. }
  assert (group_ok has_copy_status data (n - 1) (n - 1)) as Hgr.
  { split; [lia|]. split; [done|]. intros _ _. split; [done|]. left. lia. }
  destruct (1 <? n)%nat eqn:E; b2p.
  - destruct (merge_loop_correct has_copy_status data Hg status n status (n - 1) (n - 1)) as (status' & Hrun & Hl' & _ & H); [lia|done|done|].
    exists status'. split_and!; [done|lia|]. intros i Hi. apply H. lia.
  - exists status. split_and!; [done|done|]. intros i Hi. destruct Hm as (_ & _ & H). replace 0%nat with (n - 1)%nat by lia. apply H. lia.
Qed.

(** Two tables 100 bytes apart; the first is written once and read twice. *)
Definition merge_address (k : nat) : Z := 100 * Z.of_nat k.
Definition merge_requests : list request :=
  [mk_request 0 1 TL_READ; mk_request 1 2 TL_READ; mk_request 0 3 TL_WRITE; mk_request 0 4 TL_READ_NO_INSERT; mk_request 1 5 TL_READ].

Lemma merge_status_correct_witness :
  sort_locks merge_address merge_requests =
    Some [mk_request 0 3 TL_WRITE; mk_request 0 4 TL_READ_NO_INSERT; mk_request 0 1 TL_READ; mk_request 1 2 TL_READ; mk_request 1 5 TL_READ] /\
  (exists status', thr_lock_merge_status (fun _ => true)
    [mk_request 0 3 TL_WRITE; mk_request 0 4 TL_READ_NO_INSERT; mk_request 0 1 TL_READ; mk_request 1 2 TL_READ; mk_request 1 5 TL_READ]
    [30; 40; 10; 20; 50] = Some status' /\ length status' = 5%nat) /\
  thr_lock_merge_status (fun _ => true)
    [mk_request 0 3 TL_WRITE; mk_request 0 4 TL_READ_NO_INSERT; mk_request 0 1 TL_READ; mk_request 1 2 TL_READ; mk_request 1 5 TL_READ]
    [30; 40; 10; 20; 50] = Some [30; 30; 30; 20; 20].
Proof.
  split; [by vm_compute|]. split; [|by vm_compute].
  destruct (merge_status_correct (fun _ => true) merge_address merge_requests
    [mk_request 0 3 TL_WRITE; mk_request 0 4 TL_READ_NO_INSERT; mk_request 0 1 TL_READ; mk_request 1 2 TL_READ; mk_request 1 5 TL_READ]
    [30; 40; 10; 20; 50]) as (status' & H1 & H2 & _).
  - intros i j H. unfold merge_address. lia.
  - repeat constructor; cbn; lia.
  - by vm_compute.
  - done.
  - exists status'. by split.
Defined.
